(* ===== verification/_CoqProject ===== *)
-Q . S2P
Prelude.v
JsValue.v
Duration.v
Utf8.v
Config.v
Key.v
Ramp.v
Metrics.v
RuntimeConfig.v
Frame.v
Invalidation.v
Compression.v
Json.v
JsonText.v
Serializer.v
JsonTypes.v
LogText.v
JsonDiff.v
ShadowLog.v
Effects.v
RedisCache.v
Core.v
Scenario.v
CoreSpec.v
Chain.v
Publication.v
Registration.v
Coalescing.v
Context.v
Deadline.v
Shadow.v
ShadowWarning.v
ShadowSlots.v
LocalCache.v
Adapters.v
NodeRedis.v
ValkeyGlide.v
AdapterSpec.v
Prometheus.v
Datadog.v
Settlement.v
ReplayText.v
Coordinator.v
Pattern.v
ReplaySchema.v
SchemaPaths.v
ProtocolSchema.v
ReplayProtocol.v
Itf.v
Divergence.v
ReplayProfiles.v
ReplayEffects.v
ReplayFeatures.v
ReplayCatalog.v
ReplayBindings.v
ReplayProgress.v
ReplayEvidence.v
ReplayFixtures.v
ReplayServer.v
Witness.v
WitnessRules.v
WitnessGate.v
QuintPool.v
QuintText.v
QuintGrammar.v
QuintSchedule.v
QuintCheckpoint.v
QuintStates.v
