(* ===== verification/Prelude.v ===== *)
(** * DialCache: a verification of the TypeScript reference implementation

    DialCache is a read-through cache library.  An application wraps a loader
    ([cached], [getOrLoad]); an invocation walks a request-local memo, a
    process-local LRU cache and a Redis layer before it calls the loader, and
    publishes what it got.  Runtime configuration decides per key and layer
    what takes part; keys can be tracked, so that [invalidateRemote] fences
    the frames stamped up to a buffer after it with a watermark; a failing loader can be
    covered by a retained stale frame; and a sample of the traffic is compared
    with the source in the background (shadow validation).  The sources are
    under [src/typescript/src/].

    ** Files

    - [Prelude.v] results of code that can throw;
    - [JsValue.v] JavaScript values as the sources inspect them (numbers are
      NaN, infinities or rationals; strings are lists of UTF-16 code units),
      the exceptions of [errors.ts];
    - [Duration.v] [internal/duration.ts] and the deadline check of
      [internal/deadline.ts];
    - [Utf8.v] UTF-8 and [encodeURIComponent] on code units;
    - [Config.v] [config.ts]; [Ramp.v] [internal/ramp.ts]; [Metrics.v] the
      vocabulary of [metrics.ts]; [RuntimeConfig.v]
      [internal/runtime-config.ts];
    - [Key.v] [key.ts], [buildKey] of [dialcache.ts] and the Redis keys of
      [internal/redis-cache.ts];
    - [Frame.v] [internal/redis-payload.ts] and
      [internal/redis-script-reply.ts]: the binary frame and its watermark
      decision;
    - [Invalidation.v] the Lua script of [internal/redis-scripts.ts] with the
      arguments of [internal/redis-invalidation.ts], over a class of Redis
      stores with key lifetimes;
    - [Compression.v] [internal/compression.ts] over a class for the codec;
    - [Json.v] [JSON.stringify] and [JSON.parse], numbers included, and
      [JsonText.v] the texts they exchange; [Serializer.v] [serializer.ts];
    - [JsonTypes.v] the type-level predicate of [dialcache.ts] that decides
      whether the [serializer] option may be left out ([IsJsonCompatible],
      [SerializerOption]), over the types it distinguishes as data;
    - [LogText.v], [JsonDiff.v], [ShadowLog.v] the parts of
      [internal/shadow-log-json.ts]: clamped texts and pointers, the
      difference of two JSON values, the content of a mismatch warning;
    - [Effects.v] the programs: a finite tree of events with their answers, a
      semantics of traces ([runs], [interp]) and a weakest precondition over
      the data events ([wp]) with its tactics;
    - [RedisCache.v] [internal/redis-cache.ts] as programs, with relations
      that describe a read, a recovery and a write, and refinement lemmas;
    - [Core.v] the operation path of [dialcache.ts], from
      [executeCacheOperation] to [invalidateRemote];
    - [Scenario.v] concrete environments for the witnesses;
    - [CoreSpec.v] what an invocation may do, as relations, and the refinement
      of [executeCacheOperation];
    - [Chain.v] where outcomes come from and how often things happen;
      [Publication.v] what may be written, served and recovered;
    - [Registration.v] [cached], [getOrLoad] and the constructors;
    - [Coalescing.v] the process flight table as a state machine;
    - [Context.v] [context.ts] as a state machine over a heap;
    - [Deadline.v] [withMonotonicDeadline] as a state machine;
    - [Shadow.v] [runShadowValidation] as a program, [ShadowSlots.v] its
      capacity bookkeeping as a state machine, [ShadowWarning.v] the report
      of a verdict ([recordShadowValidation], [warnShadowMismatch]);
    - [LocalCache.v] [internal/local-cache.ts] over a class for the
      [lru-cache] package;
    - [Adapters.v] the client interface of [redis-client.ts], [NodeRedis.v]
      [node-redis.ts], [ValkeyGlide.v] [valkey-glide.ts]: programs over native
      client calls; [AdapterSpec.v] a server with a clock, a script cache and
      a link that loses requests and replies, and the contract both adapters
      implement on it ([ClientContract]);
    - [Prometheus.v] [prometheus.ts] over a class for the registry of
      prom-client, [Datadog.v] [datadog.ts];
    - the conformance replay of [src/formal/replay], in which drivers of the
      implementations are held to recorded traces of the models:
      [Settlement.v] the ledger of held effects and clocks of
      [settlement.mjs]; [ReplayText.v] the line framing and JSON reader of
      [validation.mjs]; [Coordinator.v] the session state machine of
      [coordinator.mjs] over a record of what a binding provides, and
      [ReplayServer.v] its request ids, replies and command line;
      [Pattern.v] regular expressions, [ReplaySchema.v] and [SchemaPaths.v]
      the validator of [schema.mjs] with the meaning of its keywords,
      [ProtocolSchema.v] the shipped [protocol.schema.json] as a value and
      [ReplayProtocol.v] what it means; [Itf.v] [itf.mjs] and
      [cohort-inputs.mjs]; [Divergence.v] [divergence.mjs];
      [ReplayProfiles.v] [core.mjs], [local-clock.mjs] and
      [observation.mjs]; [ReplayEffects.v] [effects.mjs]; [ReplayFeatures.v]
      and [ReplayCatalog.v] [features.mjs] and [profiles/]: traces and
      projections, and the table of profiles; [ReplayBindings.v]
      [bindings.mjs]; [ReplayProgress.v], [ReplayEvidence.v] and
      [ReplayFixtures.v] theorems about all of them;
    - the coverage witnesses of [src/formal/replay/witnesses]: [Witness.v] the
      recorder, the decoding of states and the classifier of public-prefix
      rules; [WitnessRules.v] the seven tables of such rules;
      [WitnessGate.v] the completion gate of [index.mjs];
    - the tools of [src/formal/tools] that read and run the Quint models:
      [QuintPool.v] the worker pool of [quint-pool.mjs]; of [execution.mjs],
      [QuintText.v] the tokenizer and declaration scanner, [QuintGrammar.v]
      the grammar the scanner reads, [QuintSchedule.v] the classification of
      runs, the schedule of a model and its import closure,
      [QuintCheckpoint.v] the cut of a run at a declared expectation, and
      [QuintStates.v] the count of the states before it.

    ** Environments and interleavings

    Asynchronous code is a program that performs events: clocks, observers,
    application callbacks, the Redis client, the serializer, and the shared
    tables of the instance.  The environment may give any answer of the right
    type to any event, at any time, so a statement about all runs of a program
    covers every interleaving with other invocations, every failure of Redis,
    of the serializer and of the application.  The tables themselves (flights,
    scopes, deadlines, shadow slots, the local cache) are modelled as state
    machines with their own invariants.  Programs are finite trees: they need
    no fuel, and [interp] shows that each run ends once its events are
    answered.

    ** What the theorems show

    - Invalidation: a frame stamped no later than an acknowledged invalidation
      and its buffer is never served again, under the documented bounds on
      clock skew and delay; the script only raises the watermark; the frame
      decision and the write fence are exact; a tracked source value is never
      published locally behind a remote read.
    - Serving: the whole invocation refines its specification, in which each
      layer is skipped only where policy turns it off; its outcome is the
      source's or a cached one; the source runs at most once, and so do the
      Redis read, the refill and the local write; the refill stores the
      source's value for the lifetime of the policy; what is served from Redis
      is fresh; a stale value is served only within policy, by a clock sampled
      before and after its load.
    - Identity: URNs are injective, argument order is irrelevant, value and
      watermark keys are distinct and share a Cluster slot.
    - Configuration: overlays win leaf by leaf, the disabled overlay turns
      everything off, ramps are monotone and FNV-1a, accepted defaults resolve
      cleanly, registration and construction accept exactly what they should.
    - Codecs: frames and compression envelopes round-trip within their bounds;
      the default serializer round-trips every JSON value, and keeps plain
      trees of a type that may omit the [serializer] option in that type,
      while a type that mentions itself always needs one; a value stored
      through an adapter comes back from the stored bytes (serializer,
      envelope, frame, client and server together).
    - Adapters: both clients give the same results against any server and
      link and differ only in the [cause] GLIDE puts on a rejected retry, need
      one command per read and write and at most two per invalidation, and an
      invalidation survives a lost reply or a flushed script cache.
    - Mismatch log: the difference of two values is exact and its comparison
      terminates; every field is bounded; a pointer cut early is logged like
      the full one; a verdict is reported once and reporting never throws.
    - Metrics backends: both report every event with the same labels and
      value; a shared registry is never left half registered over an
      incompatible collector; Datadog options and names are checked exactly.
    - Concurrency: one flight per key with exact counters; a deadline settles
      once and cannot hang; scopes end for good and requests share nothing;
      shadow verdicts are backed by evidence, shadow writes only fill misses,
      and a shadow job holds its slot exactly while its work is unfinished.
    - Conformance replay: messages cross the wire intact however it is cut,
      repeated member names are refused exactly, and every line is answered
      with a reply of the schema; the validator decides the shipped schema as
      Draft 2020-12 reads it and names the first place to blame; integers of
      a trace lose nothing; the settlement ledger accepts exactly the receipts
      of an honest driver; a bound history of any profile never stalls its
      session; a well-formed observation is always judged, a passed step
      confirms the whole public record, differences are reported exactly, and
      a completed replay has compared every step once and in order; the
      profiles' sample numerators and frames are those of the library.
    - Coverage: the completion gate of a profile passes exactly when every
      declared action was taken and every rule was satisfied by some history,
      and its provenance is exact; every rule of the tables can be recorded
      and observed by its profile, and the registry requires exactly them.
    - Model tools: the pool runs each task once within its bound and stops at
      the first failure; the scanner accepts exactly one-module sources and
      gives exactly their declarations; the runs a model exports reach no
      declaration that patches its state, and its import closure is what it
      reaches; a reproducer's checkpoint reads back as the run up to its
      expectation, and the step derived for it is the number of states its
      expression denotes.

    ** Parameters and bounds

    Code outside the repository is a parameter: the zstd codec ([Zstd] with
    its round trip law), the Redis store ([RedisStore]), the [lru-cache]
    package ([LRULaws]), the prom-client registry ([PromRegistryLaws]), the
    number text in keys, and the application's [toJSON] and [toString]
    methods.  Each has a concrete instance with which the theorems are
    instantiated.  Machine widths are kept where they matter: FNV-1a at 32
    bits, stamps and TTLs as safe integers, frame stamps as 64-bit big-endian,
    timer delays below 2^31, JSON numbers rounded to doubles.  Clock
    differences and percentages are exact rationals.  Loops that are
    not structural use fuel: the JSON parser and the replay scanner take twice
    the length of their text plus two, proved enough for every text, the
    iterative comparison of JSON values one step per value and one more,
    proved enough for all values, the frame reader the length of its chunk,
    proved to consume it, the schema validator 16 levels of rules, proved
    enough for every definition of the shipped schema and every text, and the
    difference paths the size of the expected value, proved enough.  The
    tokenizer takes one turn per code unit, the walks over calls and imports
    one level more than there are declarations or files, and the count of
    states a level for every token of every body it can enter, all proved
    enough for every input.  The type
    predicate descends the eight levels the source gives it; the fuel of
    [inhabits] is a parameter of its theorem, the same before and after.

    ** Not modelled

    Bigints, symbols, values with cycles, and negative zero are outside
    [jsval]; native
    stack and memory limits are not represented.  Types enter [JsonTypes.v]
    as the compiler has resolved them (intersections and generics gone), and
    values there are plain data: [NaN] is a [number], and a function a value
    of the empty object type, that JSON cannot keep.  [index.ts] and
    [redis-protocol.ts] only re-export.  The texts of the errors that replay
    tools throw are not kept apart from each other, except those the server
    sends.  Of [src/formal], the Quint models, the witness classifiers that
    shadow a model (effects, policy, scope, layers, admission, independent,
    recovery, shadow and the like), the validation of the execution manifest
    and the tools that generate, lint and compare runs are not modelled;
    [spawnBuffered] of the worker pool is process I/O.
    The ports to other languages and the build, release and benchmark scripts
    are out of scope. *)

From Stdlib Require Export ZArith QArith Lia.
From stdpp Require Export base tactics numbers list sorting gmap strings option.

#[global] Open Scope Z_scope.

(** ** Results of code that can throw *)

Inductive result (E A : Type) : Type :=
| Ok (a : A)
| Err (e : E).
Arguments Ok {E A} a.
Arguments Err {E A} e.

#[export] Instance result_ret {E} : MRet (result E) := fun A a => Ok a.
#[export] Instance result_bind {E} : MBind (result E) :=
  fun A B f m => match m with Ok a => f a | Err e => Err e end.

Definition is_ok {E A} (r : result E A) : bool :=
  match r with Ok _ => true | Err _ => false end.

Lemma result_bind_ok {E A B} (f : A -> result E B) (m : result E A) b :
  m ≫= f = Ok b <-> exists a, m = Ok a /\ f a = Ok b.
Proof. destruct m; simpl; naive_solver. Qed.
