(* ===== verification/JsValue.v ===== *)
(** * The JavaScript values the program computes with

    Numbers, strings (UTF-16 code units), the dynamically typed values the
    source reads as [unknown], and the errors it throws.  Only the part of
    the language that [typescript/src] uses is modelled. *)

From S2P Require Import Prelude.

(** ** Strings *)

(** A JavaScript string is its sequence of UTF-16 code units. *)
Abbreviation jsstr := (list Z).

(** A source literal; the program's literals are ASCII. *)
Definition js (s : string) : jsstr :=
  (fun a => Z.of_N (Ascii.N_of_ascii a)) <$> String.list_ascii_of_string s.

(** Every element of a string is a 16-bit code unit. *)
Definition code_unit (c : Z) : Prop := 0 <= c < 65536.

#[export] Instance code_unit_dec c : Decision (code_unit c).
Proof. unfold code_unit. apply _. Defined.

(** [left < right] on strings compares code units lexicographically. *)
Fixpoint str_ltb (l r : jsstr) : bool :=
  match l, r with
  | _, [] => false
  | [], _ :: _ => true
  | x :: l', y :: r' => (x <? y) || ((x =? y) && str_ltb l' r')
  end.

Definition includes (c : Z) (s : jsstr) : bool := existsb (Z.eqb c) s.

(** Decimal digits of a nonnegative integer, as [String(n)] prints it. *)
Fixpoint digits_fuel (fuel : nat) (n : Z) (acc : jsstr) : jsstr :=
  match fuel with
  | O => acc
  | S f => let acc' := (48 + n mod 10) :: acc in
           if n <? 10 then acc' else digits_fuel f (n / 10) acc'
  end.

Definition digits (n : Z) : jsstr := digits_fuel (S (Z.to_nat (Z.log2 n))) n [].

Definition String_of_Z (n : Z) : jsstr := if n <? 0 then 45 :: digits (- n) else digits n.

(** ** Numbers *)

(** A double: the finite values are exact rationals. *)
Inductive number :=
| NaN
| Infinity (negative : bool)
| Fin (q : Q).

Definition MAX_SAFE_INTEGER : Z := 9007199254740991.

Definition isFinite (n : number) : bool := match n with Fin _ => true | _ => false end.

(** The integer a number denotes, when it denotes one. *)
Definition to_int (n : number) : option Z :=
  match n with
  | Fin q => if Qnum q mod Zpos (Qden q) =? 0 then Some (Qnum q / Zpos (Qden q)) else None
  | _ => None
  end.

(** [Number.isSafeInteger], returning the integer it recognises. *)
Definition isSafeInteger (n : number) : option Z :=
  match to_int n with
  | Some z => if Z.abs z <=? MAX_SAFE_INTEGER then Some z else None
  | None => None
  end.

Definition Qltb (a b : Q) : bool := negb (Qle_bool b a).

Definition num_ltb (a b : number) : bool :=
  match a, b with
  | NaN, _ | _, NaN => false
  | Infinity true, Infinity true => false
  | Infinity true, _ => true
  | _, Infinity true => false
  | Infinity false, _ => false
  | Fin _, Infinity false => true
  | Fin x, Fin y => Qltb x y
  end.

Definition num_eqb (a b : number) : bool :=
  match a, b with
  | Fin x, Fin y => Qeq_bool x y
  | Infinity s, Infinity t => Bool.eqb s t
  | _, _ => false
  end.

Definition num_leb (a b : number) : bool := num_ltb a b || num_eqb a b.

Definition of_Z (z : Z) : number := Fin (inject_Z z).

(** [Math.ceil] on a finite number. *)
Definition ceil (q : Q) : Z := - ((- Qnum q) / Zpos (Qden q)).

(** [Number(b)] of a nonnegative bigint: round to 53 significant bits, ties
    to even. *)
Definition Number_of_bigint (z : Z) : Z :=
  if z <=? MAX_SAFE_INTEGER then z
  else
    let e := Z.log2 z - 52 in
    let m := Z.shiftr z e in
    let r := z - Z.shiftl m e in
    let half := Z.shiftl 1 (e - 1) in
    let m' := if (half <? r) || ((half =? r) && Z.odd m) then m + 1 else m in
    Z.shiftl m' e.

(** ** Dynamically typed values *)

(** Objects are their own enumerable data properties, in order. *)
Inductive jsval :=
| JUndefined
| JNull
| JBool (b : bool)
| JNum (n : number)
| JStr (s : jsstr)
| JArr (items : list jsval)
| JObj (members : list (jsstr * jsval))
| JFun.

Definition JInt (z : Z) : jsval := JNum (of_Z z).

Definition str_eqb (a b : jsstr) : bool := bool_decide (a = b).

Fixpoint assoc (name : jsstr) (members : list (jsstr * jsval)) : option jsval :=
  match members with
  | [] => None
  | (n, v) :: rest => if str_eqb n name then Some v else assoc name rest
  end.

(** [Object.hasOwn(v, name)] on an object. *)
Definition hasOwn (v : jsval) (name : string) : bool :=
  match v with
  | JObj m => match assoc (js name) m with Some _ => true | None => false end
  | _ => false
  end.

(** [v.name]; an absent property is [undefined]. *)
Definition prop (v : jsval) (name : string) : jsval :=
  match v with
  | JObj m => match assoc (js name) m with Some x => x | None => JUndefined end
  | _ => JUndefined
  end.

Definition is_undefined (v : jsval) : bool := match v with JUndefined => true | _ => false end.
Definition is_null (v : jsval) : bool := match v with JNull => true | _ => false end.
Definition is_boolean (v : jsval) : bool := match v with JBool _ => true | _ => false end.
Definition isArray (v : jsval) : bool := match v with JArr _ => true | _ => false end.

(** [typeof v === "object"]. *)
Definition typeof_object (v : jsval) : bool :=
  match v with JNull | JArr _ | JObj _ => true | _ => false end.

(** The recurring test
    [v === null || typeof v !== "object" || Array.isArray(v)]. *)
Definition not_plain_object (v : jsval) : bool :=
  is_null v || negb (typeof_object v) || isArray v.

(** [v === n] for an integer literal. *)
Definition is_int (v : jsval) (z : Z) : bool :=
  match v with JNum n => num_eqb n (of_Z z) | _ => false end.

Definition is_bool (v : jsval) (b : bool) : bool :=
  match v with JBool c => Bool.eqb b c | _ => false end.

(** [a ?? b] *)
Definition nullish (v d : jsval) : jsval :=
  match v with JUndefined | JNull => d | _ => v end.

(** [a !== undefined ? a : b] *)
Definition defined_or (v d : jsval) : jsval := if is_undefined v then d else v.

(** ** Errors *)

(** Quotation marks inside a message. *)
Definition quoted (s : string) : string := let q := Ascii.ascii_of_nat 34 in String q (s +:+ String q EmptyString).

Inductive exn :=
| TypeError (message : string)
| RangeError (message : string)
| PlainError (message : string)
| URIError
| SyntaxError
| FallbackTimeoutError (useCase : jsstr) (timeoutMs : Z)
| RedisReadTimeoutError (useCase : jsstr) (timeoutMs : Z)
| UseCaseIsAlreadyRegisteredError (useCase : jsstr)
| UseCaseNameIsReservedError (useCase : jsstr)
| DialCacheRedisPayloadError (message : string)
| DialCacheRedisPayloadEncodingError (message : string)
| DialCacheRedisProtocolError (message : string)
| Raised (token : Z). (** whatever application or client code throws *)

Abbreviation res := (result exn).

Definition throw {A} (e : exn) : res A := Err e.

(** [if (cond) { throw e; }] *)
Definition throw_if (cond : bool) (e : exn) : res unit := if cond then Err e else Ok tt.

(** ** Lemmas *)

Lemma to_int_of_Z z : to_int (of_Z z) = Some z.
Proof. unfold to_int, of_Z; simpl. by rewrite Z.mod_1_r, Z.div_1_r. Qed.

Lemma isSafeInteger_of_Z z :
  Z.abs z <= MAX_SAFE_INTEGER -> isSafeInteger (of_Z z) = Some z.
Proof.
  intros H. unfold isSafeInteger. rewrite to_int_of_Z.
  by apply Z.leb_le in H as ->.
Qed.

Lemma isSafeInteger_of_Z_inv z n : isSafeInteger (of_Z z) = Some n -> n = z.
Proof. unfold isSafeInteger. rewrite to_int_of_Z. case_match; [by intros [= <-]|done]. Qed.

Lemma isSafeInteger_bound n z : isSafeInteger n = Some z -> Z.abs z <= MAX_SAFE_INTEGER.
Proof. unfold isSafeInteger. repeat case_match; naive_solver lia. Qed.

Lemma str_eqb_eq a b : str_eqb a b = true <-> a = b.
Proof. apply bool_decide_eq_true. Qed.

Lemma str_eqb_refl s : str_eqb s s = true.
Proof. by apply str_eqb_eq. Qed.

Lemma not_plain_object_false v :
  not_plain_object v = false -> exists m, v = JObj m.
Proof. destruct v; simpl; naive_solver. Qed.

Lemma num_eqb_of_Z a b : num_eqb (of_Z a) (of_Z b) = (a =? b).
Proof. unfold num_eqb, of_Z, Qeq_bool. simpl. by rewrite !Z.mul_1_r. Qed.

Lemma num_ltb_of_Z a b : num_ltb (of_Z a) (of_Z b) = (a <? b).
Proof.
  unfold num_ltb, of_Z, Qltb, Qle_bool. simpl. rewrite !Z.mul_1_r, Z.ltb_antisym.
  done.
Qed.

Lemma Qltb_spec a b : Qltb a b = true <-> (a < b)%Q.
Proof.
  unfold Qltb. rewrite negb_true_iff. split.
  - intros H. apply Qnot_le_lt. intros Hle. apply Qle_bool_iff in Hle. congruence.
  - intros H. destruct (Qle_bool b a) eqn:E; [|done]. apply Qle_bool_iff in E.
    by apply Qlt_not_le in H.
Qed.

Lemma Qltb_false a b : Qltb a b = false <-> (b <= a)%Q.
Proof. unfold Qltb. rewrite negb_false_iff. apply Qle_bool_iff. Qed.

Lemma Qle_bool_false a b : Qle_bool a b = false <-> (b < a)%Q.
Proof. rewrite <- Qltb_spec. unfold Qltb. by rewrite negb_true_iff. Qed.
