(* ===== verification/Duration.v ===== *)
(** * Durations and deadlines: the numeric domains of the public API

    [internal/duration.ts] and the validator of [internal/deadline.ts].
    A TypeScript type guard [value is number] is a function to [option Z]
    that returns the number it recognised. *)

From S2P Require Import Prelude JsValue.

Definition MAX_SUPPORTED_DURATION_MS : Z := 365 * 24 * 60 * 60 * 1000.
Definition MAX_CACHE_TTL_SEC : Z := MAX_SUPPORTED_DURATION_MS / 1000.
Definition MAX_TRACKED_REDIS_VALUE_TTL_MS : Z := 60 * 60 * 1000.
Definition MAX_TIMER_DELAY_MS : Z := 2147483647.

Definition isSupportedCacheTtlSec (value : jsval) : option Z :=
  match value with
  | JNum n =>
      match isSafeInteger n with
      | Some z => if (0 <? z) && (z <=? MAX_CACHE_TTL_SEC) then Some z else None
      | None => None
      end
  | _ => None
  end.

Definition cacheTtlSecToMs (ttlSec : Z) : res Z :=
  match isSupportedCacheTtlSec (JInt ttlSec) with
  | None => Err (RangeError "DialCache cache TTL must be a positive safe integer no greater than 31536000 seconds")
  | Some n => Ok (n * 1000)
  end.

Definition ceilSupportedCacheTtlMs (cacheTtlMs : jsval) : res Z :=
  let bad := RangeError "DialCache Redis write cacheTtlMs must be a positive duration no greater than 31536000000 milliseconds" in
  match cacheTtlMs with
  | JNum (Fin q) =>
      let ceiled := ceil q in
      if (ceiled <=? 0) || (MAX_SUPPORTED_DURATION_MS <? ceiled) then Err bad else Ok ceiled
  | _ => Err bad
  end.

Definition assertSupportedFutureBufferMs (futureBufferMs : jsval) : res Z :=
  let bad := RangeError "DialCache invalidation futureBufferMs must be a nonnegative safe integer no greater than 31536000000" in
  match futureBufferMs with
  | JNum n =>
      match isSafeInteger n with
      | Some z => if (z <? 0) || (MAX_SUPPORTED_DURATION_MS <? z) then Err bad else Ok z
      | None => Err bad
      end
  | _ => Err bad
  end.

Definition assertValidDeadlineMs (value : jsval) (name : string) : res Z :=
  let bad := RangeError (name +:+ " must be a positive safe integer no greater than 2147483647") in
  match value with
  | JNum n =>
      match isSafeInteger n with
      | Some z => if (z <=? 0) || (MAX_TIMER_DELAY_MS <? z) then Err bad else Ok z
      | None => Err bad
      end
  | _ => Err bad
  end.

(** ** Lemmas *)

(** Linear arithmetic with the module's constants evaluated. *)
Ltac duration_lia :=
  change MAX_SUPPORTED_DURATION_MS with 31536000000 in *;
  change MAX_CACHE_TTL_SEC with 31536000 in *;
  change MAX_TRACKED_REDIS_VALUE_TTL_MS with 3600000 in *;
  change MAX_TIMER_DELAY_MS with 2147483647 in *;
  change MAX_SAFE_INTEGER with 9007199254740991 in *;
  lia.

Lemma isSupportedCacheTtlSec_spec v z :
  isSupportedCacheTtlSec v = Some z -> 0 < z <= MAX_CACHE_TTL_SEC.
Proof. unfold isSupportedCacheTtlSec. repeat case_match; naive_solver lia. Qed.

Lemma isSupportedCacheTtlSec_int z :
  0 < z <= MAX_CACHE_TTL_SEC -> isSupportedCacheTtlSec (JInt z) = Some z.
Proof.
  intros [H1 H2]. unfold isSupportedCacheTtlSec, JInt.
  rewrite isSafeInteger_of_Z by duration_lia.
  apply Z.ltb_lt in H1 as ->. apply Z.leb_le in H2 as ->. done.
Qed.

Lemma cacheTtlSecToMs_ok z :
  0 < z <= MAX_CACHE_TTL_SEC -> cacheTtlSecToMs z = Ok (z * 1000).
Proof. intros H. unfold cacheTtlSecToMs. by rewrite isSupportedCacheTtlSec_int. Qed.

Lemma cacheTtlSecToMs_bound z ms :
  cacheTtlSecToMs z = Ok ms -> 0 < ms <= MAX_SUPPORTED_DURATION_MS.
Proof.
  unfold cacheTtlSecToMs. case_match eqn:E; [|done]. intros [= <-].
  apply isSupportedCacheTtlSec_spec in E. duration_lia.
Qed.

Lemma cacheTtlSecToMs_value z ms : cacheTtlSecToMs z = Ok ms -> ms = z * 1000.
Proof.
  unfold cacheTtlSecToMs, isSupportedCacheTtlSec, JInt. destruct (isSafeInteger (of_Z z)) as [n|] eqn:E; [|done].
  apply isSafeInteger_of_Z_inv in E as ->. destruct ((0 <? z) && (z <=? MAX_CACHE_TTL_SEC)); [|done]. by intros [= <-].
Qed.
