(* ===== verification/Utf8.v ===== *)
(** * UTF-16 strings, UTF-8 bytes and [encodeURIComponent]

    The host string functions the program relies on: iteration of a string
    by code point, [Buffer.from(s, "utf8")], [Buffer.byteLength(s, "utf8")],
    [buffer.toString("utf8")] (the WHATWG decoder, with U+FFFD for malformed
    input) and [encodeURIComponent]. *)

From S2P Require Import Prelude JsValue.

Abbreviation bytes := (list Z).

Definition is_byte (b : Z) : Prop := 0 <= b < 256.

Definition is_high (c : Z) : bool := (0xD800 <=? c) && (c <=? 0xDBFF).
Definition is_low (c : Z) : bool := (0xDC00 <=? c) && (c <=? 0xDFFF).
Definition is_surrogate (c : Z) : bool := (0xD800 <=? c) && (c <=? 0xDFFF).

(** A Unicode scalar value. *)
Definition scalar (c : Z) : Prop := 0 <= c <= 0x10FFFF /\ is_surrogate c = false.

(** Code points of a string; an unpaired surrogate stands for itself. *)
Fixpoint code_points (s : jsstr) : list Z :=
  match s with
  | [] => []
  | c :: r =>
      match r with
      | d :: r' =>
          if is_high c && is_low d
          then (0x10000 + (c - 0xD800) * 0x400 + (d - 0xDC00)) :: code_points r'
          else c :: code_points r
      | [] => [c]
      end
  end.

(** Code units of one code point. *)
Definition units_of (c : Z) : jsstr :=
  if c <? 0x10000 then [c]
  else [0xD800 + (c - 0x10000) / 0x400; 0xDC00 + (c - 0x10000) mod 0x400].

Definition units (cs : list Z) : jsstr := cs ≫= units_of.

(** A string without unpaired surrogates. *)
Definition well_formed (s : jsstr) : Prop := Forall scalar (code_points s).

(** UTF-8 bytes of one code point; an unpaired surrogate becomes U+FFFD. *)
Definition utf8_scalar (c : Z) : bytes :=
  if c <? 0x80 then [c]
  else if c <? 0x800 then [0xC0 + c / 0x40; 0x80 + c mod 0x40]
  else if c <? 0x10000 then [0xE0 + c / 0x1000; 0x80 + (c / 0x40) mod 0x40; 0x80 + c mod 0x40]
  else [0xF0 + c / 0x40000; 0x80 + (c / 0x1000) mod 0x40; 0x80 + (c / 0x40) mod 0x40; 0x80 + c mod 0x40].

Definition utf8_code_point (c : Z) : bytes :=
  if is_surrogate c then utf8_scalar 0xFFFD else utf8_scalar c.

(** [Buffer.from(s, "utf8")]. *)
Definition utf8_encode (s : jsstr) : bytes := code_points s ≫= utf8_code_point.

(** [Buffer.byteLength(s, "utf8")]. *)
Definition byteLength (s : jsstr) : Z := Z.of_nat (length (utf8_encode s)).

(** ** The WHATWG UTF-8 decoder *)

(** Between sequences, or inside one: continuation bytes still needed, the
    range allowed for the next one, and the bits accumulated. *)
Inductive decoder :=
| Start
| Need (more : nat) (lower upper acc : Z).

(** The effect of a byte at the start of a sequence: output and next state. *)
Definition decode_lead (b : Z) : list Z * decoder :=
  if b <=? 0x7F then ([b], Start)
  else if (0xC2 <=? b) && (b <=? 0xDF) then ([], Need 0 0x80 0xBF (b - 0xC0))
  else if (0xE0 <=? b) && (b <=? 0xEF) then
    ([], Need 1 (if b =? 0xE0 then 0xA0 else 0x80) (if b =? 0xED then 0x9F else 0xBF) (b - 0xE0))
  else if (0xF0 <=? b) && (b <=? 0xF4) then
    ([], Need 2 (if b =? 0xF0 then 0x90 else 0x80) (if b =? 0xF4 then 0x8F else 0xBF) (b - 0xF0))
  else ([0xFFFD], Start).

Fixpoint decode_from (st : decoder) (bs : bytes) : list Z :=
  match bs with
  | [] => match st with Start => [] | Need _ _ _ _ => [0xFFFD] end
  | b :: r =>
      match st with
      | Start => (decode_lead b).1 ++ decode_from (decode_lead b).2 r
      | Need more lower upper acc =>
          if (lower <=? b) && (b <=? upper) then
            let acc' := acc * 0x40 + (b - 0x80) in
            match more with
            | O => acc' :: decode_from Start r
            | S m => decode_from (Need m 0x80 0xBF acc') r
            end
          else 0xFFFD :: (decode_lead b).1 ++ decode_from (decode_lead b).2 r
      end
  end.

(** [buffer.toString("utf8")]. *)
Definition utf8_decode (bs : bytes) : jsstr := units (decode_from Start bs).

(** ** [encodeURIComponent] *)

Definition is_digit (c : Z) : bool := (48 <=? c) && (c <=? 57).
Definition is_alpha (c : Z) : bool := ((65 <=? c) && (c <=? 90)) || ((97 <=? c) && (c <=? 122)).

Definition uri_marks : jsstr := Eval cbv in js "-_.!~*'()".

Definition uri_unreserved (c : Z) : bool :=
  is_alpha c || is_digit c || existsb (Z.eqb c) uri_marks.

Definition hex_digit (n : Z) : Z := if n <? 10 then 48 + n else 55 + n.

Definition percent (b : Z) : jsstr := [37; hex_digit (b / 16); hex_digit (b mod 16)].

Fixpoint encode_uri_points (cs : list Z) : res jsstr :=
  match cs with
  | [] => Ok []
  | c :: r =>
      if uri_unreserved c then t ← encode_uri_points r; Ok (c :: t)
      else if is_surrogate c then Err URIError
      else t ← encode_uri_points r; Ok ((utf8_scalar c ≫= percent) ++ t)
  end.

Definition encodeURIComponent (s : jsstr) : res jsstr := encode_uri_points (code_points s).

(** ** Lemmas *)

(** Linear arithmetic with division and modulo by constants, and boolean
    comparisons in hypotheses or goal. *)
Ltac zdm := Z.to_euclidean_division_equations; lia.

Ltac cmp :=
  repeat match goal with
  | |- context [if (?a <? ?b) then _ else _] => destruct (Z.ltb_spec a b)
  | |- context [if (?a <=? ?b) then _ else _] => destruct (Z.leb_spec a b)
  | |- context [if (?a =? ?b) then _ else _] => destruct (Z.eqb_spec a b)
  | |- context [if (?a && ?b) then _ else _] => destruct (a && b) eqn:?
  | |- context [if (?a || ?b) then _ else _] => destruct (a || b) eqn:?
  end.

Lemma is_surrogate_spec c : is_surrogate c = true <-> 0xD800 <= c <= 0xDFFF.
Proof. unfold is_surrogate. lia. Qed.

Lemma is_surrogate_false c : is_surrogate c = false <-> c < 0xD800 \/ 0xDFFF < c.
Proof. unfold is_surrogate. lia. Qed.

(** Strong induction on strings two code units at a time. *)
Lemma jsstr_ind2 (P : jsstr -> Prop) :
  P [] -> (forall c, P [c]) -> (forall c d r, P r -> P (d :: r) -> P (c :: d :: r)) ->
  forall s, P s.
Proof.
  intros H0 H1 H2 s. enough (P s /\ forall c, P (c :: s)) as [? _]; [done|].
  induction s as [|d r [IH IH']]; [done|]. split; [apply IH'|]. intros c. by apply H2.
Qed.

Lemma code_points_cons2 c d r :
  code_points (c :: d :: r) =
  if is_high c && is_low d
  then (0x10000 + (c - 0xD800) * 0x400 + (d - 0xDC00)) :: code_points r
  else c :: code_points (d :: r).
Proof. done. Qed.

(** Recombining the code points gives the string back. *)
Lemma units_code_points s : Forall code_unit s -> units (code_points s) = s.
Proof.
  unfold units. induction s as [|c|c d r IH1 IH2] using jsstr_ind2; intros Hs; [done|..].
  - apply Forall_cons_1 in Hs as [[? ?] _]. simpl. unfold units_of. cmp; [done|lia].
  - apply Forall_cons_1 in Hs as [[Hc1 Hc2] Hs]. pose proof Hs as Hs'.
    apply Forall_cons_1 in Hs as [[Hd1 Hd2] Hs].
    rewrite code_points_cons2. destruct (is_high c && is_low d) eqn:E.
    + unfold is_high, is_low in E. rewrite bind_cons, IH1 by done.
      unfold units_of. cmp; [lia|]. simpl. f_equal; [zdm|f_equal; zdm].
    + rewrite bind_cons, IH2 by done.
      unfold units_of. cmp; [done|lia].
Qed.

Lemma code_points_inj s t :
  Forall code_unit s -> Forall code_unit t -> code_points s = code_points t -> s = t.
Proof. intros Hs Ht E. rewrite <- (units_code_points s), <- (units_code_points t), E; done. Qed.

Lemma code_points_bound s : Forall code_unit s -> Forall (fun c => 0 <= c <= 0x10FFFF) (code_points s).
Proof.
  induction s as [|c|c d r IH1 IH2] using jsstr_ind2; intros Hs; [constructor|..].
  - apply Forall_cons_1 in Hs as [[? ?] _]. repeat constructor; lia.
  - apply Forall_cons_1 in Hs as [[Hc1 Hc2] Hs]. pose proof Hs as Hs'.
    apply Forall_cons_1 in Hs as [[Hd1 Hd2] Hs].
    rewrite code_points_cons2. destruct (is_high c && is_low d) eqn:E.
    + unfold is_high, is_low in E. constructor; [lia|auto].
    + constructor; [lia|]. by apply IH2.
Qed.

Lemma decode_lead_1 b : b <= 0x7F -> decode_lead b = ([b], Start).
Proof. intros H. unfold decode_lead. by apply Z.leb_le in H as ->. Qed.

Lemma decode_lead_2 b :
  0xC2 <= b <= 0xDF -> decode_lead b = ([], Need 0 0x80 0xBF (b - 0xC0)).
Proof. intros H. unfold decode_lead. cmp; first [done|lia]. Qed.

Lemma decode_lead_3 b :
  0xE0 <= b <= 0xEF ->
  decode_lead b =
    ([], Need 1 (if b =? 0xE0 then 0xA0 else 0x80) (if b =? 0xED then 0x9F else 0xBF) (b - 0xE0)).
Proof. intros H. unfold decode_lead. cmp; first [done|lia]. Qed.

Lemma decode_lead_4 b :
  0xF0 <= b <= 0xF4 ->
  decode_lead b =
    ([], Need 2 (if b =? 0xF0 then 0x90 else 0x80) (if b =? 0xF4 then 0x8F else 0xBF) (b - 0xF0)).
Proof. intros H. unfold decode_lead. cmp; first [done|lia]. Qed.

(** A continuation byte in range. *)
Lemma decode_need m lo hi acc b r :
  lo <= b <= hi ->
  decode_from (Need m lo hi acc) (b :: r) =
  match m with
  | O => (acc * 0x40 + (b - 0x80)) :: decode_from Start r
  | S m => decode_from (Need m 0x80 0xBF (acc * 0x40 + (b - 0x80))) r
  end.
Proof. intros H. simpl. cmp; [done|lia]. Qed.

Lemma decode_start b r :
  decode_from Start (b :: r) = (decode_lead b).1 ++ decode_from (decode_lead b).2 r.
Proof. done. Qed.

(** One encoded scalar value decodes to itself, whatever follows. *)
Lemma decode_utf8_scalar c r :
  scalar c -> decode_from Start (utf8_scalar c ++ r) = c :: decode_from Start r.
Proof.
  intros [Hc Hs]. apply is_surrogate_false in Hs. unfold utf8_scalar. cmp; cbn [app]; rewrite decode_start.
  - by rewrite decode_lead_1 by lia.
  - rewrite decode_lead_2 by zdm. cbn [fst snd app]. rewrite decode_need by zdm. f_equal. zdm.
  - rewrite decode_lead_3 by zdm. cbn [fst snd app]. do 2 rewrite decode_need by (cmp; zdm). f_equal. zdm.
  - rewrite decode_lead_4 by zdm. cbn [fst snd app]. do 3 rewrite decode_need by (cmp; zdm). f_equal. zdm.
Qed.

Lemma decode_utf8_scalars cs r :
  Forall scalar cs -> decode_from Start ((cs ≫= utf8_scalar) ++ r) = cs ++ decode_from Start r.
Proof.
  induction 1 as [|c cs Hc _ IH]; [done|].
  rewrite bind_cons, <- app_assoc, decode_utf8_scalar by done. simpl. by rewrite IH.
Qed.

Lemma utf8_code_point_scalar c : scalar c -> utf8_code_point c = utf8_scalar c.
Proof. intros [_ H]. unfold utf8_code_point. by rewrite H. Qed.

Lemma utf8_code_points_scalar cs :
  Forall scalar cs -> (cs ≫= utf8_code_point) = (cs ≫= utf8_scalar).
Proof.
  induction 1 as [|c cs Hc _ IH]; [done|].
  by rewrite !bind_cons, IH, utf8_code_point_scalar.
Qed.

(** Encoding a well-formed string as UTF-8 and decoding it is the identity. *)
Lemma utf8_decode_encode s :
  Forall code_unit s -> well_formed s -> utf8_decode (utf8_encode s) = s.
Proof.
  intros Hs Hw. unfold utf8_decode, utf8_encode.
  rewrite utf8_code_points_scalar by done.
  rewrite <- (app_nil_r (_ ≫= _)), decode_utf8_scalars by done. simpl.
  rewrite app_nil_r. by apply units_code_points.
Qed.

Lemma utf8_scalar_bytes c : 0 <= c <= 0x10FFFF -> Forall is_byte (utf8_scalar c).
Proof. intros Hc. unfold utf8_scalar, is_byte. cmp; repeat constructor; zdm. Qed.

Lemma utf8_encode_bytes s : Forall code_unit s -> Forall is_byte (utf8_encode s).
Proof.
  intros Hs. apply code_points_bound in Hs. unfold utf8_encode.
  induction Hs as [|c cs Hc _ IH]; [done|]. rewrite bind_cons. apply Forall_app. split; [|done].
  unfold utf8_code_point. case_match; by apply utf8_scalar_bytes.
Qed.

(** ** Injectivity of [encodeURIComponent] *)

Definition hex_value (h : Z) : Z := if h <? 58 then h - 48 else h - 55.

(** The bytes denoted by percent-encoded text. *)
Fixpoint percent_decode (t : jsstr) : bytes :=
  match t with
  | [] => []
  | c :: r =>
      match r with
      | h :: l :: r' =>
          if c =? 37 then (hex_value h * 16 + hex_value l) :: percent_decode r'
          else c :: percent_decode r
      | _ => c :: percent_decode r
      end
  end.

Lemma uri_unreserved_small c : uri_unreserved c = true -> 0 <= c < 0x80 /\ c <> 37.
Proof. unfold uri_unreserved, is_alpha, is_digit, uri_marks. simpl. lia. Qed.

Lemma percent_decode_plain c r : c <> 37 -> percent_decode (c :: r) = c :: percent_decode r.
Proof.
  intros H. destruct r as [|h [|l r]]; [done..|]. cbn [percent_decode].
  destruct (Z.eqb_spec c 37); [lia|done].
Qed.

Lemma hex_value_digit n : 0 <= n < 16 -> hex_value (hex_digit n) = n.
Proof. intros H. unfold hex_value, hex_digit. cmp; lia. Qed.

Lemma percent_decode_percent b r :
  is_byte b -> percent_decode (percent b ++ r) = b :: percent_decode r.
Proof.
  intros [H1 H2]. unfold percent. cbn [app percent_decode]. rewrite Z.eqb_refl.
  rewrite !hex_value_digit by zdm. f_equal. zdm.
Qed.

Lemma percent_decode_percents bs r :
  Forall is_byte bs -> percent_decode ((bs ≫= percent) ++ r) = bs ++ percent_decode r.
Proof.
  induction 1 as [|b bs Hb _ IH]; [done|].
  rewrite bind_cons, <- app_assoc, percent_decode_percent by done. simpl. by rewrite IH.
Qed.

Lemma encode_uri_points_decode cs t :
  Forall (fun c => 0 <= c <= 0x10FFFF) cs -> encode_uri_points cs = Ok t ->
  Forall scalar cs /\ percent_decode t = (cs ≫= utf8_scalar).
Proof.
  intros Hcs. revert t. induction Hcs as [|c cs Hc _ IH]; intros t; simpl.
  { intros [= <-]. done. }
  destruct (uri_unreserved c) eqn:Eu.
  - intros (u & Hu & [= <-])%result_bind_ok. destruct (IH _ Hu) as [IH1 IH2].
    apply uri_unreserved_small in Eu as [? ?].
    rewrite percent_decode_plain, IH2 by done. split.
    + constructor; [|done]. split; [lia|]. apply is_surrogate_false. lia.
    + change ((c :: cs) ≫= utf8_scalar) with (utf8_scalar c ++ (cs ≫= utf8_scalar)).
      unfold utf8_scalar at 2. by destruct (Z.ltb_spec c 0x80); [|lia].
  - destruct (is_surrogate c) eqn:Es; [done|].
    intros (u & Hu & [= <-])%result_bind_ok. destruct (IH _ Hu) as [IH1 IH2]. split.
    + by constructor.
    + rewrite percent_decode_percents, IH2 by (by apply utf8_scalar_bytes). done.
Qed.

(** The component text determines the component. *)
Lemma encodeURIComponent_decode s t :
  Forall code_unit s -> encodeURIComponent s = Ok t ->
  well_formed s /\ units (decode_from Start (percent_decode t)) = s.
Proof.
  intros Hs Ht. apply encode_uri_points_decode in Ht as [Hw ->]; [|by apply code_points_bound].
  split; [done|]. rewrite <- (app_nil_r (_ ≫= _)), decode_utf8_scalars by done. simpl.
  rewrite app_nil_r. by apply units_code_points.
Qed.

Lemma encodeURIComponent_inj s s' t :
  Forall code_unit s -> Forall code_unit s' ->
  encodeURIComponent s = Ok t -> encodeURIComponent s' = Ok t -> s = s'.
Proof.
  intros Hs Hs' H H'. apply encodeURIComponent_decode in H as [_ <-]; [|done].
  by apply encodeURIComponent_decode in H' as [_ <-].
Qed.

(** It succeeds exactly on well-formed strings. *)
Lemma encode_uri_points_total cs :
  Forall scalar cs -> exists t, encode_uri_points cs = Ok t.
Proof.
  induction 1 as [|c cs [_ Hc] _ [t IH]]; simpl; [eauto|].
  rewrite IH, Hc. case_match; simpl; eauto.
Qed.

(** The characters it can produce. *)
Definition uri_char (c : Z) : Prop := uri_unreserved c = true \/ c = 37.

Lemma hex_digit_uri n : 0 <= n < 16 -> uri_char (hex_digit n).
Proof.
  intros H. left. unfold hex_digit, uri_unreserved, is_digit, is_alpha, uri_marks. cmp; simpl; lia.
Qed.

Lemma percent_uri b : is_byte b -> Forall uri_char (percent b).
Proof.
  intros [? ?]. unfold percent. rewrite !Forall_cons_iff. repeat split; [by right|..|done];
    apply hex_digit_uri; zdm.
Qed.

Lemma encodeURIComponent_chars s t :
  Forall code_unit s -> encodeURIComponent s = Ok t -> Forall uri_char t.
Proof.
  intros Hs%code_points_bound. unfold encodeURIComponent. revert t.
  induction Hs as [|c cs Hc _ IH]; intros t; simpl.
  { intros [= <-]. done. }
  destruct (uri_unreserved c) eqn:Eu; [|destruct (is_surrogate c); [done|]].
  - intros (u & Hu & [= <-])%result_bind_ok. constructor; [by left|auto].
  - intros (u & Hu & [= <-])%result_bind_ok. apply Forall_app. split; [|auto].
    apply utf8_scalar_bytes in Hc. induction Hc; [done|]. rewrite bind_cons.
    apply Forall_app. split; [by apply percent_uri|done].
Qed.
