(* ===== verification/Config.v ===== *)
(** * Key configuration

    [config.ts]: the layers, the [DialCacheKeyConfig] class and its
    constructor checks.  Field values stay dynamically typed, as in the
    source: the constructor validates shapes and leaves numeric leaves to
    registration ([Registration.v]) or resolution ([RuntimeConfig.v]). *)

From S2P Require Import Prelude JsValue Duration.

Inductive CacheLayer := LOCAL | REMOTE.

#[export] Instance CacheLayer_eq_dec : EqDecision CacheLayer.
Proof. solve_decision. Defined.

Definition layer_name (l : CacheLayer) : string :=
  match l with LOCAL => "local" | REMOTE => "remote" end.

(** An instance of the class; an omitted optional field is [undefined]. *)
Record DialCacheKeyConfig := {
  kc_ttlSec : jsval;
  kc_ramp : jsval;
  kc_shadow : jsval;
  kc_requestLocal : jsval;
  kc_coalesce : jsval;
  kc_staleOnErrorMaxAgeSec : jsval;
  kc_remoteReadTimeoutMs : jsval;
}.

(** An object literal. *)
Definition obj (fields : list (string * jsval)) : jsval :=
  JObj ((fun '(n, v) => (js n, v)) <$> fields).

(** [...(v === undefined ? {} : { name: v })] *)
Definition spread_defined (name : string) (v : jsval) : list (string * jsval) :=
  if is_undefined v then [] else [(name, v)].

(** A spread copy has the members of its source. *)
Definition cloneLayerConfig (config : jsval) (name : string) : res jsval :=
  if is_undefined config then Ok (obj [])
  else if not_plain_object config
  then Err (TypeError ("DialCache " +:+ name +:+ " config must be a layer map"))
  else Ok config.

Definition cloneMismatchLoggingConfig (config : jsval) : res jsval :=
  if not_plain_object config
  then Err (TypeError "DialCache shadow mismatchLogging config must be an object")
  else Ok config.

Definition cloneShadowConfig (config : jsval) : res jsval :=
  if is_undefined config then Ok JUndefined
  else if not_plain_object config
  then Err (TypeError "DialCache shadow config must be an object")
  else
    if is_undefined (prop config "mismatchLogging") then Ok config
    else _ ← cloneMismatchLoggingConfig (prop config "mismatchLogging"); Ok config.

(** [new DialCacheKeyConfig(config)] *)
Definition new_DialCacheKeyConfig (config : jsval) : res DialCacheKeyConfig :=
  _ ← throw_if (not_plain_object config) (TypeError "DialCache key config must be an object");
  _ ← throw_if (hasOwn config "shadowRamp")
        (TypeError ("DialCacheKeyConfig.shadowRamp was replaced by " +:+ quoted "shadow.ramp"));
  ttlSec ← cloneLayerConfig (prop config "ttlSec") "ttlSec";
  ramp ← cloneLayerConfig (prop config "ramp") "ramp";
  shadow ← cloneShadowConfig (prop config "shadow");
  let requestLocal := prop config "requestLocal" in
  _ ← throw_if (negb (is_undefined requestLocal) && negb (is_boolean requestLocal))
        (TypeError "DialCache requestLocal config must be a boolean");
  let coalesce := prop config "coalesce" in
  _ ← throw_if (negb (is_undefined coalesce) && negb (is_boolean coalesce))
        (TypeError "DialCache coalesce config must be a boolean");
  let remoteReadTimeoutMs := prop config "remoteReadTimeoutMs" in
  _ ← (if is_undefined remoteReadTimeoutMs then Ok 0
       else assertValidDeadlineMs remoteReadTimeoutMs "DialCache remoteReadTimeoutMs");
  Ok {| kc_ttlSec := ttlSec; kc_ramp := ramp; kc_shadow := shadow;
        kc_requestLocal := requestLocal; kc_coalesce := coalesce;
        kc_staleOnErrorMaxAgeSec := prop config "staleOnErrorMaxAgeSec";
        kc_remoteReadTimeoutMs := remoteReadTimeoutMs |}.

(** [DialCacheKeyConfig.enabled(ttlSec)] *)
Definition DialCacheKeyConfig_enabled (ttlSec : jsval) : res DialCacheKeyConfig :=
  new_DialCacheKeyConfig
    (obj [("ttlSec", obj [("local", ttlSec); ("remote", ttlSec)]);
          ("ramp", obj [("local", JInt 100); ("remote", JInt 100)])]).

Definition disabled_input : jsval :=
  obj [("requestLocal", JBool false);
       ("staleOnErrorMaxAgeSec", JInt 0);
       ("shadow", obj [("ramp", JInt 0);
                       ("mismatchLogging", obj [("value", JBool false); ("diff", JStr (js "off"))])]);
       ("ramp", obj [("local", JInt 0); ("remote", JInt 0)])].

(** [DialCacheKeyConfig.disabled()] *)
Definition DialCacheKeyConfig_disabled : res DialCacheKeyConfig :=
  new_DialCacheKeyConfig disabled_input.

(** An instance seen as the object it is: what code that takes a
    configuration of unknown origin reads from it. *)
Definition config_object (c : DialCacheKeyConfig) : jsval :=
  obj ([("ttlSec", kc_ttlSec c); ("ramp", kc_ramp c)]
       ++ spread_defined "shadow" (kc_shadow c)
       ++ spread_defined "requestLocal" (kc_requestLocal c)
       ++ spread_defined "coalesce" (kc_coalesce c)
       ++ spread_defined "staleOnErrorMaxAgeSec" (kc_staleOnErrorMaxAgeSec c)
       ++ spread_defined "remoteReadTimeoutMs" (kc_remoteReadTimeoutMs c)).

(** ** What the constructor guarantees *)

Definition plain_object (v : jsval) : Prop := not_plain_object v = false.

Definition optional (P : jsval -> Prop) (v : jsval) : Prop := v = JUndefined \/ P v.

(** The class invariant: layer maps are objects, the shadow group (and the
    logging group in it) is absent or an object, the two switches are absent
    or booleans, and a read deadline is absent or a valid one. *)
Record config_wf (c : DialCacheKeyConfig) : Prop := {
  wf_ttlSec : plain_object (kc_ttlSec c);
  wf_ramp : plain_object (kc_ramp c);
  wf_shadow : optional plain_object (kc_shadow c);
  wf_logging : optional plain_object (prop (kc_shadow c) "mismatchLogging");
  wf_requestLocal : optional (fun v => is_boolean v = true) (kc_requestLocal c);
  wf_coalesce : optional (fun v => is_boolean v = true) (kc_coalesce c);
  wf_readTimeout :
    optional (fun v => exists z, assertValidDeadlineMs v "DialCache remoteReadTimeoutMs" = Ok z)
      (kc_remoteReadTimeoutMs c);
}.

Lemma throw_if_ok b e u : throw_if b e = Ok u -> b = false.
Proof. by destruct b. Qed.

(** Decomposes hypotheses [m ≫= f = Ok x] and [throw_if b e = Ok u]. *)
Ltac inv_ok :=
  repeat match goal with
  | H : _ ≫= _ = Ok _ |- _ => apply result_bind_ok in H as (? & ? & ?)
  | H : throw_if _ _ = Ok _ |- _ => apply throw_if_ok in H
  | H : Ok _ = Ok _ |- _ => injection H as H
  | H : Err _ = Ok _ |- _ => discriminate H
  end.

Lemma is_undefined_true v : is_undefined v = true -> v = JUndefined.
Proof. by destruct v. Qed.

Lemma cloneLayerConfig_wf v n c : cloneLayerConfig v n = Ok c -> plain_object c.
Proof. unfold cloneLayerConfig. repeat case_match; naive_solver. Qed.

Lemma cloneShadowConfig_wf v c :
  cloneShadowConfig v = Ok c ->
  optional plain_object c /\ optional plain_object (prop c "mismatchLogging").
Proof.
  unfold cloneShadowConfig, cloneMismatchLoggingConfig, optional, plain_object.
  destruct (is_undefined v) eqn:Eu; [intros [= <-]; by split; left|].
  destruct (not_plain_object v) eqn:Ev; [done|].
  destruct (is_undefined (prop v "mismatchLogging")) eqn:Em.
  - intros [= <-]. apply is_undefined_true in Em. auto.
  - case_match eqn:En; [done|]. intros [= <-]. auto.
Qed.

Lemma is_boolean_or_undefined v :
  negb (is_undefined v) && negb (is_boolean v) = false ->
  optional (fun v => is_boolean v = true) v.
Proof. unfold optional. destruct v; simpl; auto. Qed.

Lemma new_DialCacheKeyConfig_wf v c : new_DialCacheKeyConfig v = Ok c -> config_wf c.
Proof.
  unfold new_DialCacheKeyConfig. intros H. inv_ok. subst c.
  match goal with H : cloneShadowConfig _ = Ok _ |- _ => apply cloneShadowConfig_wf in H as [? ?] end.
  split; simpl; try done; try (by eapply cloneLayerConfig_wf); try (by apply is_boolean_or_undefined).
  unfold optional. destruct (is_undefined (prop v "remoteReadTimeoutMs")) eqn:E in *; [left; by apply is_undefined_true|right; eauto].
Qed.
