(* ===== verification/Key.v ===== *)
(** * Cache keys

    [key.ts]: the [DialCacheKey] class, argument normalisation, the
    invalidation prefix and the Redis Cluster hash tag; [buildKey] and the
    Redis key names that [dialcache.ts] and [redis-cache.ts] derive from a
    key.  The main result is that the URN identifies the key. *)

From S2P Require Import Prelude JsValue Duration Utf8 Config.

Definition COLON : Z := 58.
Definition QUESTION : Z := 63.
Definition AMP : Z := 38.
Definition EQUALS : Z := 61.
Definition HASH : Z := 35.
Definition LBRACE : Z := 123.
Definition RBRACE : Z := 125.

(** A custom serializer is an application object; a key carries which one. *)
Abbreviation serializer_ref := nat (only parsing).

Record DialCacheKeyInit := {
  in_keyType : jsstr;
  in_id : jsstr;
  in_useCase : jsstr;
  in_args : option (list (jsstr * jsstr));
  in_namespace : option jsstr;
  in_defaultConfig : option DialCacheKeyConfig;
  in_serializer : option serializer_ref;
  in_trackForInvalidation : option bool;
  in_has_urnPrefix : bool;
}.

Record DialCacheKey := {
  keyType : jsstr;
  key_id : jsstr;
  useCase : jsstr;
  key_args : list (jsstr * jsstr);
  namespace : jsstr;
  prefix : jsstr;
  urn : jsstr;
  defaultConfig : option DialCacheKeyConfig;
  serializer : option serializer_ref;
  trackForInvalidation : bool;
}.

(** ** URN components *)

(** [parts.join(sep)] *)
Fixpoint join (sep : Z) (parts : list jsstr) : jsstr :=
  match parts with
  | [] => []
  | [p] => p
  | p :: rest => p ++ sep :: join sep rest
  end.

Fixpoint map_res {A B} (f : A -> res B) (l : list A) : res (list B) :=
  match l with
  | [] => Ok []
  | x :: r => y ← f x; ys ← map_res f r; Ok (y :: ys)
  end.

Definition joinUrnComponents (components : list jsstr) : res jsstr :=
  parts ← map_res encodeURIComponent components; Ok (join COLON parts).

Definition assertValidNamespace (ns : jsstr) : res unit :=
  throw_if (includes LBRACE ns || includes RBRACE ns)
    (TypeError ("DialCache namespace must not contain " +:+ quoted "{" +:+ " or " +:+ quoted "}")).

Definition assertRedisHashTagComponent (name : string) (value : jsstr) : res unit :=
  throw_if (includes LBRACE value || includes RBRACE value)
    (PlainError ("Redis Cluster hash tag components must not contain braces: " +:+ name)).

Definition invalidationPrefix (ns kt i : jsstr) : res jsstr :=
  _ ← assertValidNamespace ns;
  _ ← assertRedisHashTagComponent "keyType" kt;
  _ ← assertRedisHashTagComponent "id" i;
  joinUrnComponents [ns; kt; i].

Definition redisClusterHashTag (value : jsstr) : res jsstr :=
  _ ← assertRedisHashTagComponent "value" value;
  Ok (LBRACE :: value ++ [RBRACE]).

Definition encodeArg (arg : jsstr * jsstr) : res jsstr :=
  n ← encodeURIComponent arg.1; v ← encodeURIComponent arg.2; Ok (n ++ EQUALS :: v).

Definition argText (args : list (jsstr * jsstr)) : res jsstr :=
  match args with
  | [] => Ok []
  | _ => parts ← map_res encodeArg args; Ok (QUESTION :: join AMP parts)
  end.

(** [new DialCacheKey(init)] *)
Definition new_DialCacheKey (init : DialCacheKeyInit) : res DialCacheKey :=
  _ ← throw_if (in_has_urnPrefix init) (TypeError ("DialCacheKeyInit.urnPrefix was renamed to " +:+ quoted "namespace"));
  let args := default [] (in_args init) in
  let track := default false (in_trackForInvalidation init) in
  let ns := default (js "urn") (in_namespace init) in
  _ ← assertValidNamespace ns;
  rawPrefix ← joinUrnComponents [ns; in_keyType init; in_id init];
  pre ← (if track
         then p ← invalidationPrefix ns (in_keyType init) (in_id init); redisClusterHashTag p
         else Ok rawPrefix);
  argsText ← argText args;
  uc ← encodeURIComponent (in_useCase init);
  Ok {| keyType := in_keyType init; key_id := in_id init; useCase := in_useCase init;
        key_args := args; namespace := ns; prefix := pre;
        urn := pre ++ argsText ++ HASH :: uc;
        defaultConfig := in_defaultConfig init; serializer := in_serializer init;
        trackForInvalidation := track |}.

(** ** Argument normalisation *)

(** The primitive types an argument may have. *)
Inductive key_arg :=
| ArgUndefined
| ArgNull
| ArgBool (b : bool)
| ArgString (s : jsstr)
| ArgNumber (n : number)
| ArgBigInt (z : Z).

Definition compareCodePoints (left right : jsstr) : Z :=
  if str_ltb left right then -1 else if str_ltb right left then 1 else 0.

(** The stable sort of [Array.prototype.sort]: equal names keep their order. *)
Fixpoint insert_arg (x : jsstr * jsstr) (l : list (jsstr * jsstr)) : list (jsstr * jsstr) :=
  match l with
  | [] => [x]
  | y :: r => if 0 <=? compareCodePoints y.1 x.1 then x :: l else y :: insert_arg x r
  end.

Definition sort_args (l : list (jsstr * jsstr)) : list (jsstr * jsstr) := foldr insert_arg [] l.

Section args.
  (** [Number::toString] of the host, needed only for numeric arguments. *)
  Variable Number_toString : number -> jsstr.

Definition String_of_arg (a : key_arg) : jsstr :=
  match a with
  | ArgUndefined => js "undefined"
  | ArgNull => js "null"
  | ArgBool true => js "true"
  | ArgBool false => js "false"
  | ArgString s => s
  | ArgNumber n => Number_toString n
  | ArgBigInt z => String_of_Z z
  end.

Definition is_arg_undefined (a : key_arg) : bool :=
  match a with ArgUndefined => true | _ => false end.

Definition normalizeArgs (entries : list (jsstr * key_arg)) : list (jsstr * jsstr) :=
  sort_args ((fun e => (e.1, String_of_arg e.2)) <$>
             List.filter (fun e => negb (is_arg_undefined e.2)) entries).

(** A bare id, or an id plus secondary key dimensions. *)
Inductive CacheKeySpec :=
| SpecId (i : key_arg)
| SpecObject (i : key_arg) (args : option (list (jsstr * key_arg))).

Definition spec_id (s : CacheKeySpec) : key_arg :=
  match s with SpecId i | SpecObject i _ => i end.
Definition spec_args (s : CacheKeySpec) : option (list (jsstr * key_arg)) :=
  match s with SpecId _ => None | SpecObject _ a => a end.

(** The fields of an operation's options that identify a key. *)
Record KeyOptions := {
  opt_keyType : jsstr;
  opt_useCase : jsstr;
  opt_serializer : option serializer_ref;
  opt_trackForInvalidation : option bool;
}.

Definition buildKey (instanceNamespace : jsstr) (options : KeyOptions) (cacheKey : CacheKeySpec)
    (config : option DialCacheKeyConfig) : res DialCacheKey :=
  new_DialCacheKey
    {| in_keyType := opt_keyType options;
       in_id := String_of_arg (spec_id cacheKey);
       in_useCase := opt_useCase options;
       in_args := Some (normalizeArgs (default [] (spec_args cacheKey)));
       in_namespace := Some instanceNamespace;
       in_defaultConfig := config;
       in_serializer := opt_serializer options;
       in_trackForInvalidation := Some (default false (opt_trackForInvalidation options));
       in_has_urnPrefix := false |}.

End args.

(** ** Redis key names *)

Definition REDIS_FRAME_KEY_SUFFIX : jsstr := js ":dialcache-frame-v1".

Definition redisKey (key : DialCacheKey) : jsstr := urn key ++ REDIS_FRAME_KEY_SUFFIX.

Definition redisWatermarkKey (ns kt i : jsstr) : res jsstr :=
  p ← invalidationPrefix ns kt i; t ← redisClusterHashTag p; Ok (t ++ js "#watermark").

Definition redisWatermarkKeyFromKey (key : DialCacheKey) : res jsstr :=
  redisWatermarkKey (namespace key) (keyType key) (key_id key).

(** ** Lemmas: separators *)

Lemma split_at_inj (sep : Z) a b a' b' :
  sep ∉ a -> sep ∉ a' -> a ++ sep :: b = a' ++ sep :: b' -> a = a' /\ b = b'.
Proof.
  revert a'. induction a as [|x a IH]; intros [|y a'] Ha Ha' E; simplify_eq/=; [done|set_solver..|].
  destruct (IH a') as [-> ->]; set_solver.
Qed.

(** A text followed by an optional tail that starts with [sep]. *)
Lemma split_tail_inj (sep : Z) a t a' t' :
  sep ∉ a -> sep ∉ a' -> (t = [] \/ exists u, t = sep :: u) -> (t' = [] \/ exists u, t' = sep :: u) ->
  a ++ t = a' ++ t' -> a = a' /\ t = t'.
Proof.
  intros Ha Ha' [->|[u ->]] [->|[u' ->]] E; rewrite ?app_nil_r in E; subst.
  - done.
  - set_solver.
  - set_solver.
  - apply split_at_inj in E as [-> ->]; done.
Qed.

Lemma join_cons sep p q r : join sep (p :: q :: r) = p ++ sep :: join sep (q :: r).
Proof. done. Qed.

Lemma join_not_in (c sep : Z) parts :
  c <> sep -> Forall (fun p => c ∉ p) parts -> c ∉ join sep parts.
Proof.
  intros Hc. induction 1 as [|p [|q r] Hp _ IH]; [set_solver|done|].
  rewrite join_cons. set_solver.
Qed.

Lemma join_inj sep ps qs :
  Forall (fun p => sep ∉ p) ps -> Forall (fun p => sep ∉ p) qs ->
  ps <> [] -> qs <> [] -> join sep ps = join sep qs -> ps = qs.
Proof.
  intros Hps. revert qs. induction Hps as [|p ps Hp Hps IH]; [done|].
  intros qs Hqs _ Hne. destruct Hqs as [|q qs Hq Hqs]; [done|]. intros E.
  destruct ps as [|p' ps], qs as [|q' qs]; rewrite ?join_cons in E.
  - simpl in E. by subst.
  - simpl in E. subst. set_solver.
  - simpl in E. subst. set_solver.
  - apply split_at_inj in E as [-> E]; [|done..]. f_equal. by apply IH.
Qed.

(** Characters that [encodeURIComponent] never produces. *)
Definition delimiter (c : Z) : Prop :=
  c = COLON \/ c = QUESTION \/ c = AMP \/ c = EQUALS \/ c = HASH \/ c = LBRACE \/ c = RBRACE.

Lemma uri_char_not_delimiter c : uri_char c -> ~ delimiter c.
Proof.
  unfold uri_char, delimiter, uri_unreserved, is_alpha, is_digit, uri_marks,
    COLON, QUESTION, AMP, EQUALS, HASH, LBRACE, RBRACE. simpl. lia.
Qed.

Lemma encoded_no_delimiter s t d :
  Forall code_unit s -> encodeURIComponent s = Ok t -> delimiter d -> d ∉ t.
Proof.
  intros Hs Ht Hd Hin. apply encodeURIComponent_chars in Ht; [|done].
  rewrite list.Forall_forall in Ht. apply Ht in Hin. by apply uri_char_not_delimiter in Hin.
Qed.

Ltac delim := unfold delimiter; tauto.

Lemma map_res_Forall2 {A B} (f : A -> res B) l l' :
  map_res f l = Ok l' -> Forall2 (fun x y => f x = Ok y) l l'.
Proof.
  revert l'. induction l as [|x l IH]; simpl; intros l' H; inv_ok; subst; constructor; auto.
Qed.

Lemma map_res_inj {A B} (P : A -> Prop) (f : A -> res B) l1 l2 l' :
  (forall x y z, P x -> P y -> f x = Ok z -> f y = Ok z -> x = y) ->
  Forall P l1 -> Forall P l2 -> map_res f l1 = Ok l' -> map_res f l2 = Ok l' -> l1 = l2.
Proof.
  intros Hf H1 H2 E1%map_res_Forall2 E2%map_res_Forall2.
  revert l2 H2 E2. induction E1 as [|x y l1 l' Hx _ IH]; intros l2 H2 E2; inv E2; [done|].
  apply Forall_cons_1 in H1 as [? ?], H2 as [? ?]. f_equal; [by eapply Hf|auto].
Qed.

Lemma encoded_components_no_delimiter comps parts d :
  Forall (Forall code_unit) comps -> map_res encodeURIComponent comps = Ok parts ->
  delimiter d -> Forall (fun p => d ∉ p) parts.
Proof.
  intros Hc E%map_res_Forall2 Hd. induction E; [done|].
  apply Forall_cons_1 in Hc as [? ?]. constructor; [by eapply encoded_no_delimiter|auto].
Qed.

Lemma joinUrnComponents_not_in comps t d :
  Forall (Forall code_unit) comps -> joinUrnComponents comps = Ok t -> delimiter d -> d <> COLON -> d ∉ t.
Proof.
  unfold joinUrnComponents. intros Hc H Hd Hne. inv_ok. subst.
  apply join_not_in; [done|]. by eapply encoded_components_no_delimiter.
Qed.

Lemma joinUrnComponents_inj c1 c2 t :
  Forall (Forall code_unit) c1 -> Forall (Forall code_unit) c2 -> c1 <> [] -> c2 <> [] ->
  joinUrnComponents c1 = Ok t -> joinUrnComponents c2 = Ok t -> c1 = c2.
Proof.
  unfold joinUrnComponents. intros H1 H2 N1 N2 E1 E2. inv_ok. subst.
  assert (x0 = x) as ->.
  { apply (join_inj COLON); [..|congruence].
    1,2: eapply encoded_components_no_delimiter; [|eassumption|delim]; done.
    - intros ->. destruct c1; simpl in *; inv_ok; done.
    - intros ->. destruct c2; simpl in *; inv_ok; done. }
  eapply map_res_inj; [|done..]. intros. by eapply encodeURIComponent_inj.
Qed.

(** ** The class invariant *)

Definition strings_ok (init : DialCacheKeyInit) : Prop :=
  Forall code_unit (in_keyType init) /\ Forall code_unit (in_id init) /\
  Forall code_unit (in_useCase init) /\ Forall code_unit (default (js "urn") (in_namespace init)) /\
  Forall (fun a => Forall code_unit a.1 /\ Forall code_unit a.2) (default [] (in_args init)).

#[export] Instance strings_ok_dec init : Decision (strings_ok init).
Proof. unfold strings_ok. apply _. Defined.

(** The URN of a key in terms of its encoded parts [p], [a] and [u]. *)
Record key_shape (k : DialCacheKey) (p a u : jsstr) : Prop := {
  shape_p : joinUrnComponents [namespace k; keyType k; key_id k] = Ok p;
  shape_a : argText (key_args k) = Ok a;
  shape_u : encodeURIComponent (useCase k) = Ok u;
  shape_prefix : prefix k = if trackForInvalidation k then LBRACE :: p ++ [RBRACE] else p;
  shape_urn : urn k = prefix k ++ a ++ HASH :: u;
  shape_components : Forall (Forall code_unit) [namespace k; keyType k; key_id k];
  shape_useCase : Forall code_unit (useCase k);
  shape_args : Forall (fun x => Forall code_unit x.1 /\ Forall code_unit x.2) (key_args k);
}.

Arguments shape_p {_ _ _ _}.
Arguments shape_a {_ _ _ _}.
Arguments shape_u {_ _ _ _}.
Arguments shape_prefix {_ _ _ _}.
Arguments shape_urn {_ _ _ _}.
Arguments shape_components {_ _ _ _}.
Arguments shape_useCase {_ _ _ _}.
Arguments shape_args {_ _ _ _}.

Lemma new_DialCacheKey_shape init k :
  strings_ok init -> new_DialCacheKey init = Ok k -> exists p a u, key_shape k p a u.
Proof.
  intros (Hk & Hi & Hu & Hn & Ha) H. unfold new_DialCacheKey in H. inv_ok. subst k.
  eexists _, _, _. split; simpl; try done; [|by repeat constructor].
  destruct (default false _); inv_ok; subst; [|done].
  unfold invalidationPrefix, redisClusterHashTag in *. inv_ok. congruence.
Qed.

Lemma argText_tail args a :
  argText args = Ok a -> a = [] \/ exists r, a = QUESTION :: r.
Proof. destruct args; simpl; intros H; inv_ok; subst; eauto. Qed.

Lemma encodeArg_not_in d x t :
  Forall code_unit x.1 /\ Forall code_unit x.2 -> encodeArg x = Ok t ->
  delimiter d -> d <> EQUALS -> d ∉ t.
Proof.
  unfold encodeArg. intros [H1 H2] H Hd Hne. inv_ok. subst.
  assert (d ∉ x0) by (by eapply (encoded_no_delimiter x.1)).
  assert (d ∉ x1) by (by eapply (encoded_no_delimiter x.2)). set_solver.
Qed.

Lemma encodeArgs_not_in d args parts :
  Forall (fun x => Forall code_unit x.1 /\ Forall code_unit x.2) args ->
  map_res encodeArg args = Ok parts -> delimiter d -> d <> EQUALS -> Forall (fun p => d ∉ p) parts.
Proof.
  intros Hc E%map_res_Forall2 Hd Hne. induction E; [done|].
  apply Forall_cons_1 in Hc as [? ?]. constructor; [by eapply encodeArg_not_in|auto].
Qed.

Lemma argText_not_in d args a :
  Forall (fun x => Forall code_unit x.1 /\ Forall code_unit x.2) args -> argText args = Ok a ->
  delimiter d -> d <> EQUALS -> d <> AMP -> d <> QUESTION -> d ∉ a.
Proof.
  intros Hc H Hd N1 N2 N3. destruct args as [|x args]; cbn [argText] in H; inv_ok; subst; [set_solver|].
  apply not_elem_of_cons. split; [done|]. apply join_not_in; [done|].
  by eapply encodeArgs_not_in.
Qed.

Lemma encodeArg_inj x y t :
  Forall code_unit x.1 /\ Forall code_unit x.2 -> Forall code_unit y.1 /\ Forall code_unit y.2 ->
  encodeArg x = Ok t -> encodeArg y = Ok t -> x = y.
Proof.
  intros [Hx1 Hx2] [Hy1 Hy2]. unfold encodeArg.
  intros (n & En & (v & Ev & [= <-])%result_bind_ok)%result_bind_ok.
  intros (n' & En' & (v' & Ev' & [= E])%result_bind_ok)%result_bind_ok.
  apply split_at_inj in E as [-> ->].
  - apply injective_projections; by eapply encodeURIComponent_inj.
  - eapply encoded_no_delimiter; [exact Hy1|done|delim].
  - eapply encoded_no_delimiter; [exact Hx1|done|delim].
Qed.

Lemma argText_inj a1 a2 t :
  Forall (fun x => Forall code_unit x.1 /\ Forall code_unit x.2) a1 ->
  Forall (fun x => Forall code_unit x.1 /\ Forall code_unit x.2) a2 ->
  argText a1 = Ok t -> argText a2 = Ok t -> a1 = a2.
Proof.
  intros H1 H2 E1 E2. destruct a1 as [|x1 a1], a2 as [|x2 a2]; [done|..]; cbn [argText] in E1, E2;
    inv_ok; simplify_eq.
  assert (x0 = x) as ->.
  { apply (join_inj AMP); [..|done].
    1,2: eapply encodeArgs_not_in; [|eassumption|delim|done]; done.
    all: intros ->; simpl in *; inv_ok; done. }
  eapply map_res_inj; [|done..]. intros. by eapply encodeArg_inj.
Qed.

Lemma shape_p_not_in d k p a u : key_shape k p a u -> delimiter d -> d <> COLON -> d ∉ p.
Proof. intros S. exact (joinUrnComponents_not_in _ _ _ (shape_components S) (shape_p S)). Qed.

Lemma shape_a_not_in d k p a u :
  key_shape k p a u -> delimiter d -> d <> EQUALS -> d <> AMP -> d <> QUESTION -> d ∉ a.
Proof. intros S. exact (argText_not_in _ _ _ (shape_args S) (shape_a S)). Qed.

Lemma prefix_not_in d k p a u :
  key_shape k p a u -> delimiter d -> d <> COLON -> d <> LBRACE -> d <> RBRACE -> d ∉ prefix k.
Proof.
  intros S Hd N1 N2 N3. pose proof (shape_p_not_in _ _ _ _ _ S Hd N1).
  rewrite (shape_prefix S). destruct (trackForInvalidation k); set_solver.
Qed.

(** The prefix decides tracking and the three components. *)
Lemma prefix_inj k p a u k' p' a' u' :
  key_shape k p a u -> key_shape k' p' a' u' -> prefix k = prefix k' ->
  trackForInvalidation k = trackForInvalidation k' /\ p = p'.
Proof.
  intros S S' E.
  assert (LBRACE ∉ p) as Hp by (eapply shape_p_not_in; [done|delim|done]).
  assert (LBRACE ∉ p') as Hp' by (eapply shape_p_not_in; [done|delim|done]).
  rewrite (shape_prefix S), (shape_prefix S') in E.
  destruct (trackForInvalidation k), (trackForInvalidation k'); subst; try set_solver.
  injection E as E. by apply app_inv_tail in E.
Qed.

Lemma urn_shape_inj k p a u k' p' a' u' :
  key_shape k p a u -> key_shape k' p' a' u' -> urn k = urn k' ->
  namespace k = namespace k' /\ keyType k = keyType k' /\ key_id k = key_id k' /\
  key_args k = key_args k' /\ useCase k = useCase k' /\
  trackForInvalidation k = trackForInvalidation k'.
Proof.
  intros S S' E. rewrite (shape_urn S), (shape_urn S'), !app_assoc in E.
  apply split_at_inj in E as [E <-].
  2,3: apply not_elem_of_app; split;
    [eapply prefix_not_in; [done|delim|done..]|eapply shape_a_not_in; [done|delim|done..]].
  apply (split_tail_inj QUESTION) in E as [E <-].
  2,3: eapply prefix_not_in; [done|delim|done..].
  2: exact (argText_tail _ _ (shape_a S)).
  2: exact (argText_tail _ _ (shape_a S')).
  destruct (prefix_inj _ _ _ _ _ _ _ _ S S' E) as [Et <-].
  assert ([namespace k; keyType k; key_id k] = [namespace k'; keyType k'; key_id k']) as [= -> -> ->].
  { by apply (joinUrnComponents_inj _ _ p (shape_components S) (shape_components S')); [..|exact (shape_p S)|exact (shape_p S')]. }
  repeat split; [..|done].
  - exact (argText_inj _ _ _ (shape_args S) (shape_args S') (shape_a S) (shape_a S')).
  - exact (encodeURIComponent_inj _ _ _ (shape_useCase S) (shape_useCase S') (shape_u S) (shape_u S')).
Qed.

(** ** Order of arguments *)

Lemma str_ltb_irrefl s : str_ltb s s = false.
Proof. induction s as [|x s IH]; simpl; [done|]. rewrite IH. lia. Qed.

Lemma str_ltb_trans a b c : str_ltb a b = true -> str_ltb b c = true -> str_ltb a c = true.
Proof.
  revert b c. induction a as [|x a IH]; intros [|y b] [|z c]; simpl; try done.
  rewrite !orb_true_iff, !andb_true_iff, !Z.ltb_lt, !Z.eqb_eq.
  intros [?|[-> ?]] [?|[-> ?]]; [left; lia|left; lia|left; lia|right; eauto].
Qed.

Lemma str_ltb_total a b : str_ltb a b = false -> str_ltb b a = false -> a = b.
Proof.
  revert b. induction a as [|x a IH]; intros [|y b]; simpl; try done.
  rewrite !orb_false_iff, !andb_false_iff, !Z.ltb_ge, !Z.eqb_neq.
  intros [? [?|?]] [? [?|?]]; try lia. assert (x = y) as -> by lia. f_equal. auto.
Qed.

(** [name_le x y]: [x] does not come after [y]. *)
Definition name_le (x y : jsstr * jsstr) : Prop := str_ltb y.1 x.1 = false.

#[local] Instance name_le_trans : Transitive name_le.
Proof.
  intros x y z Hxy Hyz. unfold name_le in *. destruct (str_ltb z.1 x.1) eqn:E; [|done].
  destruct (str_ltb y.1 z.1) eqn:E2.
  - by rewrite (str_ltb_trans _ _ _ E2 E) in Hxy.
  - pose proof (str_ltb_total _ _ Hyz E2) as E3. rewrite E3 in E. congruence.
Qed.

Lemma compareCodePoints_nonneg y x :
  (0 <=? compareCodePoints y x) = negb (str_ltb y x).
Proof. unfold compareCodePoints. repeat case_match; done. Qed.

Lemma insert_arg_perm x l : insert_arg x l ≡ₚ x :: l.
Proof. induction l as [|y l IH]; simpl; [done|]. case_match; [done|]. rewrite IH. apply Permutation_swap. Qed.

Lemma sort_args_perm l : sort_args l ≡ₚ l.
Proof. induction l as [|x l IH]; simpl; [done|]. by rewrite insert_arg_perm, IH. Qed.

Lemma insert_arg_sorted x l : StronglySorted name_le l -> StronglySorted name_le (insert_arg x l).
Proof.
  induction 1 as [|y l Hl IH Hy]; simpl; [by repeat constructor|].
  rewrite compareCodePoints_nonneg. destruct (str_ltb y.1 x.1) eqn:E; simpl.
  - constructor; [done|]. rewrite insert_arg_perm. constructor; [|done]. unfold name_le.
    destruct (str_ltb x.1 y.1) eqn:E2; [|done].
    pose proof (str_ltb_trans _ _ _ E E2) as F. by rewrite str_ltb_irrefl in F.
  - assert (name_le x y) by done. repeat constructor; try done.
    eapply Forall_impl; [|exact Hy]. intros z Hz. by transitivity y.
Qed.

Lemma sort_args_sorted l : StronglySorted name_le (sort_args l).
Proof. induction l; simpl; [constructor|by apply insert_arg_sorted]. Qed.

(** Two sorted lists with the same entries and distinct names are equal. *)
Lemma sort_args_canonical l1 l2 :
  l1 ≡ₚ l2 -> NoDup (fst <$> l1) -> sort_args l1 = sort_args l2.
Proof.
  intros Hp Hd. apply (StronglySorted_unique_strong name_le).
  - intros x y Hx Hy Hxy Hyx. rewrite sort_args_perm in Hx. rewrite sort_args_perm, <- Hp in Hy.
    pose proof (str_ltb_total _ _ Hyx Hxy) as E.
    apply list_elem_of_lookup in Hx as [i Hi], Hy as [j Hj].
    assert (i = j) as ->; [|congruence].
    apply (NoDup_lookup (fst <$> l1) i j x.1 Hd); rewrite list_lookup_fmap, ?Hi, ?Hj; simpl; congruence.
  - apply sort_args_sorted.
  - apply sort_args_sorted.
  - by rewrite !sort_args_perm.
Qed.

(** ** Properties *)

(** A key used to instantiate the properties. *)
Definition sample_init : DialCacheKeyInit :=
  {| in_keyType := js "user"; in_id := js "a:b"; in_useCase := js "load"; in_args := Some [(js "x", js "1&2")];
     in_namespace := Some (js "ns"); in_defaultConfig := None; in_serializer := None;
     in_trackForInvalidation := Some true; in_has_urnPrefix := false |}.

(** Decides that literal strings consist of code units. *)
Ltac code_units := apply (bool_decide_unpack _); vm_compute; exact I.

(** C10. Two keys built by the constructor that have the same URN have the
    same namespace, key type, id, arguments, use case and tracking mode: no
    two distinct cache entries can share a local, request-local, flight or
    Redis slot. *)
Theorem urn_identifies_key init init' k k' :
  strings_ok init -> strings_ok init' ->
  new_DialCacheKey init = Ok k -> new_DialCacheKey init' = Ok k' -> urn k = urn k' ->
  namespace k = namespace k' /\ keyType k = keyType k' /\ key_id k = key_id k' /\
  key_args k = key_args k' /\ useCase k = useCase k' /\
  trackForInvalidation k = trackForInvalidation k'.
Proof.
  intros H H' (p & a & u & S)%new_DialCacheKey_shape (p' & a' & u' & S')%new_DialCacheKey_shape E; [|done..].
  by eapply urn_shape_inj.
Qed.

Lemma urn_identifies_key_witness :
  exists k k', new_DialCacheKey sample_init = Ok k /\ new_DialCacheKey sample_init = Ok k' /\ key_args k = key_args k'.
Proof.
  eexists _, _. split; [vm_compute; reflexivity|]. split; [vm_compute; reflexivity|].
  apply (urn_identifies_key sample_init sample_init); [code_units|code_units|vm_compute; reflexivity..].
Defined.

Lemma filter_perm {A} (f : A -> bool) l1 l2 : l1 ≡ₚ l2 -> List.filter f l1 ≡ₚ List.filter f l2.
Proof.
  induction 1; simpl; repeat case_match; auto using Permutation_swap. by etrans.
Qed.

Lemma filter_sublist {A} (f : A -> bool) l : sublist (List.filter f l) l.
Proof. induction l; simpl; [constructor|case_match; by constructor]. Qed.

(** Normalised arguments do not depend on the order in which the
    argument object lists its (distinct) names. *)
Theorem normalizeArgs_order_independent nts entries entries' :
  entries ≡ₚ entries' -> NoDup (fst <$> entries) ->
  normalizeArgs nts entries = normalizeArgs nts entries'.
Proof.
  intros Hp Hd. unfold normalizeArgs. apply sort_args_canonical.
  - apply fmap_Permutation. by apply filter_perm.
  - rewrite <- list_fmap_compose. simpl.
    eapply sublist_NoDup; [exact Hd|]. apply (fmap_sublist fst _ entries). apply filter_sublist.
Qed.

Lemma normalizeArgs_order_independent_witness :
  let a := (js "a", ArgBool true) in let b := (js "b", ArgUndefined) in
  normalizeArgs (fun _ => []) [a; b] = normalizeArgs (fun _ => []) [b; a].
Proof.
  apply (normalizeArgs_order_independent (fun _ => [])).
  - apply Permutation_swap.
  - apply (bool_decide_unpack _). vm_compute. reflexivity.
Defined.

Lemma redisWatermarkKey_shape ns kt i w :
  Forall (Forall code_unit) [ns; kt; i] -> redisWatermarkKey ns kt i = Ok w ->
  exists p, joinUrnComponents [ns; kt; i] = Ok p /\
    w = (LBRACE :: p ++ [RBRACE]) ++ HASH :: js "watermark" /\
    (HASH ∉ p) /\ (LBRACE ∉ p) /\ (RBRACE ∉ p).
Proof.
  unfold redisWatermarkKey, redisClusterHashTag, invalidationPrefix. intros Hc H. inv_ok. subst.
  eexists. split; [eassumption|]. split; [done|].
  repeat split; eapply joinUrnComponents_not_in; [done..|delim|done| |done|delim|done| |done|delim|done]; done.
Qed.

Lemma watermark_no_colon : COLON ∉ js "watermark".
Proof. vm_compute. set_solver. Qed.

(** No cache value, of any key, is stored under the name of an
    invalidation watermark. *)
Theorem value_key_not_watermark_key init k ns kt i w :
  strings_ok init -> new_DialCacheKey init = Ok k ->
  Forall (Forall code_unit) [ns; kt; i] -> redisWatermarkKey ns kt i = Ok w ->
  redisKey k <> w.
Proof.
  intros Hi (p & a & u & S)%new_DialCacheKey_shape Hc Hw E; [|done].
  apply redisWatermarkKey_shape in Hw as (q & _ & -> & Hq & _); [|done].
  unfold redisKey in E. rewrite (shape_urn S), !app_assoc, <- (app_assoc _ (HASH :: u)) in E.
  apply split_at_inj in E as [_ E].
  - pose proof watermark_no_colon as N. rewrite <- E in N.
    apply N, elem_of_app. right. apply list_elem_of_here.
  - apply not_elem_of_app; split;
      [eapply prefix_not_in; [done|delim|done..]|eapply shape_a_not_in; [done|delim|done..]].
  - set_solver.
Qed.

Lemma value_key_not_watermark_key_witness :
  exists k w, new_DialCacheKey sample_init = Ok k /\ redisWatermarkKeyFromKey k = Ok w /\ redisKey k <> w.
Proof.
  eexists _, _. split; [vm_compute; reflexivity|]. split; [vm_compute; reflexivity|].
  apply (value_key_not_watermark_key sample_init _ (js "ns") (js "user") (js "a:b"));
    [code_units|vm_compute; reflexivity|code_units|vm_compute; reflexivity].
Defined.

(** The value key and the watermark key of a tracked key carry the same
    brace-free hash tag, so that Redis Cluster puts them in one slot and the
    pair can be read by one command. *)
Theorem tracked_keys_share_hash_tag init k w :
  strings_ok init -> new_DialCacheKey init = Ok k -> trackForInvalidation k = true ->
  redisWatermarkKeyFromKey k = Ok w ->
  exists tag rest rest', (LBRACE ∉ tag) /\ (RBRACE ∉ tag) /\
    redisKey k = LBRACE :: tag ++ RBRACE :: rest /\ w = LBRACE :: tag ++ RBRACE :: rest'.
Proof.
  intros Hi (p & a & u & S)%new_DialCacheKey_shape Ht Hw; [|done].
  unfold redisWatermarkKeyFromKey in Hw.
  apply redisWatermarkKey_shape in Hw as (q & Eq & -> & _ & HL & HR); [|exact (shape_components S)].
  rewrite (shape_p S) in Eq. injection Eq as <-.
  exists p. eexists _, _. split; [done|]. split; [done|]. unfold redisKey. rewrite (shape_urn S), (shape_prefix S), Ht.
  split; simpl; rewrite <- ?app_assoc; reflexivity.
Qed.

Lemma tracked_keys_share_hash_tag_witness :
  exists k w tag rest rest', new_DialCacheKey sample_init = Ok k /\ redisWatermarkKeyFromKey k = Ok w /\
    redisKey k = LBRACE :: tag ++ RBRACE :: rest /\ w = LBRACE :: tag ++ RBRACE :: rest'.
Proof.
  destruct (new_DialCacheKey sample_init) as [k|e] eqn:Ek; [|vm_compute in Ek; discriminate Ek].
  destruct (redisWatermarkKeyFromKey k) as [w|e] eqn:Ew;
    [|vm_compute in Ek; injection Ek as <-; vm_compute in Ew; discriminate Ew].
  destruct (tracked_keys_share_hash_tag sample_init k w) as (tag & rest & rest' & _ & _ & E1 & E2);
    [code_units|exact Ek|vm_compute in Ek; injection Ek as <-; reflexivity|exact Ew|].
  exists k, w, tag, rest, rest'. auto.
Defined.
