(* ===== verification/Ramp.v ===== *)
(** * Deterministic rollout cohorts

    [internal/ramp.ts]: 32-bit FNV-1a over the UTF-16 code units of the URN
    and a discriminator, scaled to a percentage in [0, 100). *)

From S2P Require Import Prelude JsValue Duration Utf8 Config Key.

(** [ToInt32] and [ToUint32]: the operands of the bitwise operators. *)
Definition to_uint32 (z : Z) : Z := z mod 2 ^ 32.
Definition to_int32 (z : Z) : Z :=
  let u := to_uint32 z in if u <? 2 ^ 31 then u else u - 2 ^ 32.

(** [a ^ b] and [Math.imul(a, b)] *)
Definition xor32 (a b : Z) : Z := to_int32 (Z.lxor (to_int32 a) (to_int32 b)).
Definition imul (a b : Z) : Z := to_int32 (to_uint32 a * to_uint32 b).

Definition FNV_OFFSET : Z := 0x811c9dc5.
Definition FNV_PRIME : Z := 0x01000193.

(** The body of the loop over the code units. *)
Definition hash_step (hash c : Z) : Z := imul (xor32 hash c) FNV_PRIME.

Definition stableHash (value : jsstr) : Z := foldl hash_step FNV_OFFSET value.

(** [((hash >>> 0) / 0x1_0000_0000) * 100]; both operations are exact in
    double arithmetic (see [stablePercent_exact]). *)
Definition stablePercent (value : jsstr) : Q :=
  Qmake (to_uint32 (stableHash value) * 100) (2 ^ 32)%positive.

Definition deterministicRampSample (key : DialCacheKey) (layer : CacheLayer) : Q :=
  stablePercent (urn key ++ js ":" ++ js (layer_name layer)).

Definition deterministicShadowRampSample (key : DialCacheKey) : Q :=
  stablePercent (urn key ++ js ":shadow").

(** ** The reference hash: FNV-1a on unsigned 32-bit integers *)

Definition fnv1a_step (h c : Z) : Z := (Z.lxor h c * FNV_PRIME) mod 2 ^ 32.
Definition fnv1a (value : jsstr) : Z := foldl fnv1a_step FNV_OFFSET value.

(** ** Lemmas *)

Lemma to_uint32_range z : 0 <= to_uint32 z < 2 ^ 32.
Proof. apply Z.mod_pos_bound. lia. Qed.

Lemma to_uint32_small z : 0 <= z < 2 ^ 32 -> to_uint32 z = z.
Proof. apply Z.mod_small. Qed.

Lemma to_uint32_to_int32 z : to_uint32 (to_int32 z) = to_uint32 z.
Proof.
  unfold to_int32. destruct (Z.ltb_spec (to_uint32 z) (2 ^ 31)); unfold to_uint32.
  - apply Z.mod_mod. lia.
  - replace (z mod 2 ^ 32 - 2 ^ 32) with (z mod 2 ^ 32 + (-1) * 2 ^ 32) by lia.
    rewrite Z.mod_add by lia. apply Z.mod_mod. lia.
Qed.

(** The low 32 bits of a signed xor are the xor of the low 32 bits. *)
Lemma to_uint32_lxor a b : to_uint32 (Z.lxor a b) = Z.lxor (to_uint32 a) (to_uint32 b).
Proof.
  unfold to_uint32. rewrite <- !Z.land_ones by lia. apply Z.bits_inj'. intros n Hn.
  rewrite Z.land_spec, !Z.lxor_spec, !Z.land_spec, Z.testbit_ones_nonneg by lia.
  destruct (Z.ltb_spec n 32); destruct (Z.testbit a n), (Z.testbit b n); done.
Qed.

(** One step of the 32-bit signed loop agrees with the reference step. *)
Lemma hash_step_unsigned h c :
  0 <= c < 2 ^ 32 -> to_uint32 (hash_step h c) = fnv1a_step (to_uint32 h) c.
Proof.
  intros Hc. unfold hash_step, imul, xor32, fnv1a_step.
  rewrite to_uint32_to_int32.
  rewrite to_uint32_to_int32, to_uint32_lxor, !to_uint32_to_int32, (to_uint32_small c) by done.
  done.
Qed.

Lemma stableHash_fnv1a s : Forall code_unit s -> to_uint32 (stableHash s) = fnv1a s.
Proof.
  unfold stableHash, fnv1a. change FNV_OFFSET with (to_uint32 FNV_OFFSET) at 2.
  generalize FNV_OFFSET as h. induction s as [|c s IH]; intros h Hs; [done|].
  apply Forall_cons_1 in Hs as [Hc Hs]. simpl. rewrite IH by done.
  rewrite hash_step_unsigned; [done|]. destruct Hc. lia.
Qed.

(** A percentage is a fraction over 2^32 whose numerator fits in 53 bits, so
    the double computation does not round. *)
Lemma stablePercent_exact s :
  exists m, 0 <= m < 2 ^ 53 /\ stablePercent s = Qmake m (2 ^ 32)%positive.
Proof.
  eexists. split; [|done]. pose proof (to_uint32_range (stableHash s)). lia.
Qed.

Lemma stablePercent_range s : (0 <= stablePercent s)%Q /\ (stablePercent s < 100)%Q.
Proof.
  pose proof (to_uint32_range (stableHash s)). unfold Qle, Qlt, stablePercent; simpl. lia.
Qed.
