(* ===== verification/Metrics.v ===== *)
(** * The observable vocabulary

    [metrics.ts]: layers, reasons, error kinds and outcomes, the label
    records, and one constructor per method of [DialCacheMetricsAdapter] for
    the calls the library makes. *)

From S2P Require Import Prelude JsValue Duration Utf8 Config Key.

Inductive MetricLayer := Layer (l : CacheLayer) | RequestLocalLayer | RemoteShadowLayer | NoLayer.

Inductive CoalescingScope := ScopeRequestLocal | ScopeProcess.

Inductive ShadowValidationOutcome :=
| so_match | so_mismatch | so_superseded | so_filled | so_fill_fenced | so_fill_error
| so_redis_error | so_source_error | so_deserialization_error | so_comparison_error
| so_confirmation_error | so_timeout | so_dropped.

Inductive ShadowMismatchLoggingOutcome := slo_logged | slo_hook_error | slo_render_error | slo_logger_error.

Inductive StaleRecoveryOutcome := sr_served | sr_miss | sr_deserialization_error.

Inductive CompressionOutcome :=
| co_compressed | co_below_threshold | co_not_smaller | co_write_over_limit
| co_decompressed | co_fallback_raw | co_read_over_limit.

Inductive DisabledReason :=
| dr_context | dr_policy_disabled | dr_invalid_ttl | dr_invalid_ramp | dr_ramped_down | dr_config_error.

Inductive MetricErrorKind :=
| ek_key_construction | ek_config_resolution | ek_cache_read | ek_cache_read_timeout | ek_cache_write
| ek_tracked_ttl_clamped | ek_serialization_load | ek_serialization_dump | ek_compression
| ek_invalidation | ek_fallback | ek_unknown.

Inductive CacheMissReason := mr_value_absent | mr_expired | mr_watermark_fenced | mr_unclassified.

#[export] Instance MetricLayer_eq_dec : EqDecision MetricLayer.
Proof. solve_decision. Defined.
#[export] Instance CoalescingScope_eq_dec : EqDecision CoalescingScope.
Proof. solve_decision. Defined.
#[export] Instance ShadowValidationOutcome_eq_dec : EqDecision ShadowValidationOutcome.
Proof. solve_decision. Defined.
#[export] Instance ShadowMismatchLoggingOutcome_eq_dec : EqDecision ShadowMismatchLoggingOutcome.
Proof. solve_decision. Defined.
#[export] Instance StaleRecoveryOutcome_eq_dec : EqDecision StaleRecoveryOutcome.
Proof. solve_decision. Defined.
#[export] Instance CompressionOutcome_eq_dec : EqDecision CompressionOutcome.
Proof. solve_decision. Defined.
#[export] Instance DisabledReason_eq_dec : EqDecision DisabledReason.
Proof. solve_decision. Defined.
#[export] Instance MetricErrorKind_eq_dec : EqDecision MetricErrorKind.
Proof. solve_decision. Defined.
#[export] Instance CacheMissReason_eq_dec : EqDecision CacheMissReason.
Proof. solve_decision. Defined.

Definition miss_reason_name (r : CacheMissReason) : string :=
  match r with
  | mr_value_absent => "value_absent" | mr_expired => "expired"
  | mr_watermark_fenced => "watermark_fenced" | mr_unclassified => "unclassified"
  end.

Definition CACHE_MISS_REASONS : list CacheMissReason :=
  [mr_value_absent; mr_expired; mr_watermark_fenced; mr_unclassified].

(** The guard for reasons supplied by custom Redis adapters. *)
Definition isCacheMissReason (value : jsval) : option CacheMissReason :=
  match value with
  | JStr s => List.find (fun r => str_eqb s (js (miss_reason_name r))) CACHE_MISS_REASONS
  | _ => None
  end.

Record CacheMetricLabels := {
  cacheNamespace : jsstr;
  ml_useCase : jsstr;
  ml_keyType : jsstr;
  ml_layer : MetricLayer;
}.

Definition labelsFor (key : DialCacheKey) (layer : MetricLayer) : CacheMetricLabels :=
  {| cacheNamespace := namespace key; ml_useCase := useCase key;
     ml_keyType := keyType key; ml_layer := layer |}.

Inductive metric :=
| m_request (l : CacheMetricLabels)
| m_miss (l : CacheMetricLabels) (reason : CacheMissReason)
| m_disabled (l : CacheMetricLabels) (reason : DisabledReason)
| m_error (l : CacheMetricLabels) (error : MetricErrorKind) (inFallback : bool)
| m_invalidation (ns kt : jsstr) (layer : CacheLayer)
| m_coalesced (ns uc kt : jsstr) (scope : CoalescingScope)
| m_shadowValidation (ns uc kt : jsstr) (outcome : ShadowValidationOutcome)
| m_observeShadowValueAge (ns uc kt : jsstr) (outcome : ShadowValidationOutcome) (seconds : Q)
| m_shadowMismatchLogging (ns uc kt : jsstr) (outcome : ShadowMismatchLoggingOutcome)
| m_observeFutureTimestampOffset (l : CacheMetricLabels) (seconds : Q)
| m_staleRecovery (ns uc kt : jsstr) (outcome : StaleRecoveryOutcome)
| m_observeStaleRecoveryValueAge (ns uc kt : jsstr) (outcome : StaleRecoveryOutcome) (seconds : Q)
| m_compression (l : CacheMetricLabels) (outcome : CompressionOutcome)
| m_observeGet (l : CacheMetricLabels) (seconds : Q)
| m_observeFallback (l : CacheMetricLabels) (seconds : Q)
| m_observeSerialization (l : CacheMetricLabels) (dump : bool) (seconds : Q)
| m_observeSize (l : CacheMetricLabels) (bytes : Z)
| m_observeStoredSize (l : CacheMetricLabels) (bytes : Z)
| m_observeCompressionRatio (l : CacheMetricLabels) (ratio : Q)
| m_observeCompression (l : CacheMetricLabels) (compress : bool) (seconds : Q).

(** The guard recognises exactly the names of the reasons. *)
Lemma isCacheMissReason_name r : isCacheMissReason (JStr (js (miss_reason_name r))) = Some r.
Proof. by destruct r. Qed.
