(* ===== verification/RuntimeConfig.v ===== *)
(** * Runtime policy

    [internal/runtime-config.ts]: merging a provider overlay over a static
    default, resolving a layer's TTL and ramp for a key, the stale-on-error
    ceiling of the remote layer, and the mismatch-logging leaves. *)

From S2P Require Import Prelude JsValue Duration Utf8 Config Key Ramp Metrics.

Record ResolvedLayerConfig := { lc_ttlSec : Z; lc_ramp : Q }.

Record ResolvedRemoteLayerConfig := {
  rc_ttlSec : Z;
  rc_ramp : Q;
  rc_staleOnErrorMaxAgeSec : option Z;
}.

(** The two "disabled" alternatives of the source: ramped down, with the
    valid policy retained, or disabled for another reason. *)
Inductive LayerConfigResolution (Config : Type) :=
| Enabled (config : Config)
| RampedDown (config : Config)
| DisabledFor (reason : DisabledReason).
Arguments Enabled {Config} config.
Arguments RampedDown {Config} config.
Arguments DisabledFor {Config} reason.

(** A remote resolution carries the diagnostic flag of a malformed stale
    policy. *)
Record RemoteLayerConfigResolution := {
  rr_resolution : LayerConfigResolution ResolvedRemoteLayerConfig;
  rr_staleOnErrorConfigError : bool;
}.

Definition reason_of {C} (r : LayerConfigResolution C) : option DisabledReason :=
  match r with Enabled _ => None | RampedDown _ => Some dr_ramped_down | DisabledFor d => Some d end.

Definition resolveLayerConfigResult (config : option DialCacheKeyConfig) (key : DialCacheKey)
    (layer : CacheLayer) : LayerConfigResolution ResolvedLayerConfig :=
  match config with
  | None => DisabledFor dr_policy_disabled
  | Some config =>
      let ttl := prop (kc_ttlSec config) (layer_name layer) in
      if is_undefined ttl then DisabledFor dr_policy_disabled
      else match isSupportedCacheTtlSec ttl with
      | None => DisabledFor dr_invalid_ttl
      | Some ttlSec =>
          let configuredRampValue := prop (kc_ramp config) (layer_name layer) in
          let configuredRamp := if is_undefined configuredRampValue then JInt 100 else configuredRampValue in
          match configuredRamp with
          | JNum (Fin ramp) =>
              if Qltb ramp 0 || Qltb 100 ramp then DisabledFor dr_invalid_ramp
              else if Qle_bool ramp 0 then RampedDown {| lc_ttlSec := ttlSec; lc_ramp := ramp |}
              else if Qle_bool 100 ramp then Enabled {| lc_ttlSec := ttlSec; lc_ramp := ramp |}
              else
                let sample := deterministicRampSample key layer in
                if Qltb sample ramp then Enabled {| lc_ttlSec := ttlSec; lc_ramp := ramp |}
                else RampedDown {| lc_ttlSec := ttlSec; lc_ramp := ramp |}
          | _ => DisabledFor dr_invalid_ramp
          end
      end
  end.

Definition with_stale (c : ResolvedLayerConfig) (s : option Z) : ResolvedRemoteLayerConfig :=
  {| rc_ttlSec := lc_ttlSec c; rc_ramp := lc_ramp c; rc_staleOnErrorMaxAgeSec := s |}.

(** The ceiling that applies to a layer with this TTL, and whether the
    configured value is malformed. *)
Definition resolveStaleMaxAge (configuredMaxAge : jsval) (ttlSec : Z) : option Z * bool :=
  if is_undefined configuredMaxAge || is_int configuredMaxAge 0 then (None, false)
  else match isSupportedCacheTtlSec configuredMaxAge with
       | None => (None, true)
       | Some m => if m <=? ttlSec then (None, true) else (Some m, false)
       end.

Definition resolveRemoteLayerConfigResult (config : option DialCacheKeyConfig) (key : DialCacheKey) :
    RemoteLayerConfigResolution :=
  let resolution := resolveLayerConfigResult config key REMOTE in
  let configuredMaxAge :=
    match config with Some c => kc_staleOnErrorMaxAgeSec c | None => JUndefined end in
  match resolution with
  | DisabledFor reason =>
      {| rr_resolution := DisabledFor reason;
         rr_staleOnErrorConfigError :=
           bool_decide (reason = dr_policy_disabled)
           && negb (is_undefined configuredMaxAge) && negb (is_int configuredMaxAge 0) |}
  | Enabled c =>
      let '(m, bad) := resolveStaleMaxAge configuredMaxAge (lc_ttlSec c) in
      {| rr_resolution := Enabled (with_stale c m); rr_staleOnErrorConfigError := bad |}
  | RampedDown c =>
      let '(m, bad) := resolveStaleMaxAge configuredMaxAge (lc_ttlSec c) in
      {| rr_resolution := RampedDown (with_stale c m); rr_staleOnErrorConfigError := bad |}
  end.

(** ** Mismatch logging *)

Inductive ShadowMismatchDiffLevel := DiffOff | DiffPaths | DiffValues.

#[export] Instance ShadowMismatchDiffLevel_eq_dec : EqDecision ShadowMismatchDiffLevel.
Proof. solve_decision. Defined.

Record MismatchLoggingLeaves := {
  leaf_value : jsval;
  leaf_diff : jsval;
  leaf_invalid : bool;
}.

Record MismatchLoggingResolution := {
  res_value : bool;
  res_diff : ShadowMismatchDiffLevel;
  res_invalid : bool;
}.

Definition isShadowMismatchDiffLevel (value : jsval) : option ShadowMismatchDiffLevel :=
  match value with
  | JStr s =>
      if str_eqb s (js "off") then Some DiffOff
      else if str_eqb s (js "paths") then Some DiffPaths
      else if str_eqb s (js "values") then Some DiffValues
      else None
  | _ => None
  end.

(** [logMismatches] expanded into the leaves it stands for. *)
Definition expandShorthand (shorthand : jsval) : MismatchLoggingLeaves :=
  match shorthand with
  | JUndefined => {| leaf_value := JUndefined; leaf_diff := JUndefined; leaf_invalid := false |}
  | JBool true => {| leaf_value := JBool true; leaf_diff := JStr (js "values"); leaf_invalid := false |}
  | JBool false => {| leaf_value := JBool false; leaf_diff := JStr (js "off"); leaf_invalid := false |}
  | _ => {| leaf_value := JBool false; leaf_diff := JStr (js "off"); leaf_invalid := true |}
  end.

Definition expandMismatchLogging (shadow : jsval) : MismatchLoggingLeaves :=
  let expanded := expandShorthand (prop shadow "logMismatches") in
  let written := prop shadow "mismatchLogging" in
  if is_undefined written then expanded
  else {| leaf_value := defined_or (prop written "value") (leaf_value expanded);
          leaf_diff := defined_or (prop written "diff") (leaf_diff expanded);
          leaf_invalid := leaf_invalid expanded |}.

(** [None] marks an invalid leaf. *)
Definition resolveValueLeaf (leaf : jsval) : option bool :=
  match leaf with JUndefined => Some false | JBool b => Some b | _ => None end.

Definition resolveDiffLeaf (leaf : jsval) : option ShadowMismatchDiffLevel :=
  if is_undefined leaf then Some DiffOff else isShadowMismatchDiffLevel leaf.

Definition is_none {A} (o : option A) : bool := match o with None => true | Some _ => false end.

Definition resolveMismatchLogging (shadow : jsval) : MismatchLoggingResolution :=
  let leaves := expandMismatchLogging shadow in
  let value := resolveValueLeaf (leaf_value leaves) in
  let diff := resolveDiffLeaf (leaf_diff leaves) in
  {| res_value := default false value;
     res_diff := default DiffOff diff;
     res_invalid := leaf_invalid leaves || is_none value || is_none diff |}.

(** ** Merging an overlay *)

Definition assertKeyConfig (config : jsval) : res unit :=
  _ ← throw_if (negb (is_null config) && negb (is_undefined config)
                && (negb (typeof_object config) || isArray config))
        (TypeError "DialCache key config must be an object");
  throw_if (negb (is_null config) && negb (is_undefined config) && hasOwn config "shadowRamp")
    (TypeError ("DialCacheKeyConfig.shadowRamp was replaced by " +:+ quoted "shadow.ramp")).

Definition assertLayerConfig (config : jsval) (name : string) : res unit :=
  throw_if (negb (is_undefined config) && not_plain_object config)
    (TypeError ("DialCache " +:+ name +:+ " config must be a layer map")).

Definition mergeLayerConfig (defaults overlay : jsval) (name : string) : res jsval :=
  _ ← assertLayerConfig defaults name;
  _ ← assertLayerConfig overlay name;
  Ok (obj ([LOCAL; REMOTE] ≫= fun layer =>
             spread_defined (layer_name layer)
               (defined_or (prop overlay (layer_name layer)) (prop defaults (layer_name layer))))).

Definition assertShadowConfig (config : jsval) : res unit :=
  _ ← throw_if (negb (is_undefined config) && not_plain_object config)
        (TypeError "DialCache shadow config must be an object");
  let mismatchLogging := prop config "mismatchLogging" in
  throw_if (negb (is_undefined mismatchLogging) && not_plain_object mismatchLogging)
    (TypeError "DialCache shadow mismatchLogging config must be an object").

Definition no_leaves : MismatchLoggingLeaves :=
  {| leaf_value := JUndefined; leaf_diff := JUndefined; leaf_invalid := false |}.

Definition mergeShadowConfig (defaults overlay : jsval) : res jsval :=
  _ ← assertShadowConfig defaults;
  _ ← assertShadowConfig overlay;
  if is_undefined defaults && is_undefined overlay then Ok JUndefined
  else
    let ramp := defined_or (prop overlay "ramp") (prop defaults "ramp") in
    let inherited := if is_undefined defaults then no_leaves else expandMismatchLogging defaults in
    let written := if is_undefined overlay then no_leaves else expandMismatchLogging overlay in
    let value := defined_or (leaf_value written) (leaf_value inherited) in
    let diff := defined_or (leaf_diff written) (leaf_diff inherited) in
    Ok (obj (spread_defined "ramp" ramp
             ++ (if leaf_invalid written then [("logMismatches", prop overlay "logMismatches")] else [])
             ++ (if is_undefined value && is_undefined diff then []
                 else [("mismatchLogging", obj (spread_defined "value" value ++ spread_defined "diff" diff))]))).

(** [defaultConfig?.field] *)
Definition field_of (c : option DialCacheKeyConfig) (f : DialCacheKeyConfig -> jsval) : jsval :=
  match c with Some c => f c | None => JUndefined end.

(** The static default is a class instance, so [assertKeyConfig] can only
    reject the overlay. *)
Definition mergeKeyConfig (base : option DialCacheKeyConfig) (overlay : jsval) : res DialCacheKeyConfig :=
  _ ← assertKeyConfig overlay;
  let requestLocal := defined_or (prop overlay "requestLocal") (field_of base kc_requestLocal) in
  let coalesce := defined_or (prop overlay "coalesce") (field_of base kc_coalesce) in
  let remoteReadTimeoutMs :=
    defined_or (prop overlay "remoteReadTimeoutMs") (field_of base kc_remoteReadTimeoutMs) in
  let staleOnErrorMaxAgeSec :=
    defined_or (prop overlay "staleOnErrorMaxAgeSec") (field_of base kc_staleOnErrorMaxAgeSec) in
  shadow ← mergeShadowConfig (field_of base kc_shadow) (prop overlay "shadow");
  ttlSec ← mergeLayerConfig (field_of base kc_ttlSec) (prop overlay "ttlSec") "ttlSec";
  ramp ← mergeLayerConfig (field_of base kc_ramp) (prop overlay "ramp") "ramp";
  new_DialCacheKeyConfig
    (obj ([("ttlSec", ttlSec); ("ramp", ramp)]
          ++ spread_defined "requestLocal" requestLocal
          ++ spread_defined "coalesce" coalesce
          ++ spread_defined "staleOnErrorMaxAgeSec" staleOnErrorMaxAgeSec
          ++ spread_defined "remoteReadTimeoutMs" remoteReadTimeoutMs
          ++ spread_defined "shadow" shadow)).

(** [fetchKeyConfig] after the provider's promise has settled with
    [runtimeConfig]; awaiting the provider is an effect of the caller. *)
Definition fetchKeyConfig (key : DialCacheKey) (runtimeConfig : jsval) : res (option DialCacheKeyConfig) :=
  match runtimeConfig with
  | JNull | JUndefined => Ok (defaultConfig key)
  | _ => merged ← mergeKeyConfig (defaultConfig key) runtimeConfig; Ok (Some merged)
  end.

(** ** Lemmas *)

(** Reads of literal objects compute. *)
Lemma prop_obj_cons n v fields m :
  prop (obj ((n, v) :: fields)) m = if bool_decide (js n = js m) then v else prop (obj fields) m.
Proof. simpl. unfold str_eqb. by case_bool_decide. Qed.

Lemma prop_obj_spread n v fields m :
  prop (obj (spread_defined n v ++ fields)) m =
  if bool_decide (js n = js m) && negb (is_undefined v) then v else prop (obj fields) m.
Proof.
  unfold spread_defined. destruct (is_undefined v); simpl; [by rewrite andb_false_r|].
  rewrite andb_true_r. unfold str_eqb. by case_bool_decide.
Qed.

Lemma hasOwn_obj_cons n v fields m :
  hasOwn (obj ((n, v) :: fields)) m = bool_decide (js n = js m) || hasOwn (obj fields) m.
Proof. simpl. unfold str_eqb. by case_bool_decide. Qed.

Lemma hasOwn_obj_spread n v fields m :
  hasOwn (obj (spread_defined n v ++ fields)) m =
  (bool_decide (js n = js m) && negb (is_undefined v)) || hasOwn (obj fields) m.
Proof.
  unfold spread_defined. destruct (is_undefined v); simpl; [by rewrite andb_false_r|].
  rewrite andb_true_r. unfold str_eqb. by case_bool_decide.
Qed.

Lemma prop_obj_spread_last n v m :
  prop (obj (spread_defined n v)) m = if bool_decide (js n = js m) then v else JUndefined.
Proof.
  unfold spread_defined. destruct v; simpl; unfold str_eqb; by repeat case_bool_decide.
Qed.

Lemma hasOwn_obj_spread_last n v m :
  hasOwn (obj (spread_defined n v)) m = bool_decide (js n = js m) && negb (is_undefined v).
Proof.
  unfold spread_defined. destruct v; simpl; unfold str_eqb; by repeat case_bool_decide.
Qed.

Lemma defined_or_else v d : (if negb (is_undefined v) then v else d) = defined_or v d.
Proof. by destruct v. Qed.

Lemma defined_or_undefined v : defined_or v JUndefined = v.
Proof. by destruct v. Qed.

Lemma prop_obj_nil m : prop (obj []) m = JUndefined.
Proof. done. Qed.

(** Evaluates reads of object literals whose member names are literals. *)
Ltac js_names :=
  repeat match goal with
  | |- context [bool_decide (js ?a = js ?b)] =>
      let r := eval vm_compute in (bool_decide (js a = js b)) in
      change (bool_decide (js a = js b)) with r
  end; cbn [andb orb].

Ltac js_reads :=
  cbn [app];
  repeat first
    [ rewrite prop_obj_cons; js_names
    | rewrite prop_obj_spread; js_names
    | rewrite prop_obj_spread_last; js_names
    | rewrite hasOwn_obj_cons; js_names
    | rewrite hasOwn_obj_spread; js_names
    | rewrite hasOwn_obj_spread_last; js_names ];
  rewrite ?prop_obj_nil, ?defined_or_else, ?defined_or_undefined.

Lemma mergeLayerConfig_leaf d o n m layer :
  mergeLayerConfig d o n = Ok m ->
  prop m (layer_name layer) = defined_or (prop o (layer_name layer)) (prop d (layer_name layer)).
Proof.
  unfold mergeLayerConfig. intros H. inv_ok. subst. cbn [mbind list_bind app]. rewrite app_nil_r.
  destruct layer; cbn [layer_name]; js_reads; done.
Qed.

Lemma mergeLayerConfig_plain d o n m : mergeLayerConfig d o n = Ok m -> plain_object m.
Proof. unfold mergeLayerConfig. intros H. inv_ok. by subst. Qed.

Lemma cloneLayerConfig_plain v n : plain_object v -> cloneLayerConfig v n = Ok v.
Proof. unfold plain_object, cloneLayerConfig. intros H. rewrite H. by destruct v. Qed.

(** What the constructor stores, field by field. *)
Lemma new_DialCacheKeyConfig_fields v c :
  new_DialCacheKeyConfig v = Ok c ->
  cloneLayerConfig (prop v "ttlSec") "ttlSec" = Ok (kc_ttlSec c) /\
  cloneLayerConfig (prop v "ramp") "ramp" = Ok (kc_ramp c) /\
  cloneShadowConfig (prop v "shadow") = Ok (kc_shadow c) /\
  kc_requestLocal c = prop v "requestLocal" /\ kc_coalesce c = prop v "coalesce" /\
  kc_staleOnErrorMaxAgeSec c = prop v "staleOnErrorMaxAgeSec" /\
  kc_remoteReadTimeoutMs c = prop v "remoteReadTimeoutMs".
Proof. unfold new_DialCacheKeyConfig. intros H. inv_ok. by subst. Qed.

Lemma cloneShadowConfig_id v c : cloneShadowConfig v = Ok c -> c = v.
Proof. unfold cloneShadowConfig. intros H. repeat case_match; inv_ok; destruct v; naive_solver. Qed.

(** Every scalar field and every layer leaf of a merged configuration. *)
Lemma mergeKeyConfig_fields base overlay m :
  mergeKeyConfig base overlay = Ok m ->
  (forall l, prop (kc_ttlSec m) (layer_name l) =
     defined_or (prop (prop overlay "ttlSec") (layer_name l)) (prop (field_of base kc_ttlSec) (layer_name l))) /\
  (forall l, prop (kc_ramp m) (layer_name l) =
     defined_or (prop (prop overlay "ramp") (layer_name l)) (prop (field_of base kc_ramp) (layer_name l))) /\
  kc_requestLocal m = defined_or (prop overlay "requestLocal") (field_of base kc_requestLocal) /\
  kc_coalesce m = defined_or (prop overlay "coalesce") (field_of base kc_coalesce) /\
  kc_staleOnErrorMaxAgeSec m =
    defined_or (prop overlay "staleOnErrorMaxAgeSec") (field_of base kc_staleOnErrorMaxAgeSec) /\
  kc_remoteReadTimeoutMs m =
    defined_or (prop overlay "remoteReadTimeoutMs") (field_of base kc_remoteReadTimeoutMs) /\
  mergeShadowConfig (field_of base kc_shadow) (prop overlay "shadow") = Ok (kc_shadow m).
Proof.
  unfold mergeKeyConfig. intros (_ & _ & H)%result_bind_ok.
  apply result_bind_ok in H as (sh & Hsh & H).
  apply result_bind_ok in H as (ttl & Httl & H).
  apply result_bind_ok in H as (ramp & Hramp & H).
  apply new_DialCacheKeyConfig_fields in H as (F1 & F2 & F3 & F4 & F5 & F6 & F7).
  revert F1 F2 F3 F4 F5 F6 F7. js_reads. intros F1 F2 F3 F4 F5 F6 F7.
  rewrite cloneLayerConfig_plain in F1 by (by eapply mergeLayerConfig_plain).
  rewrite cloneLayerConfig_plain in F2 by (by eapply mergeLayerConfig_plain).
  injection F1 as F1. injection F2 as F2. apply cloneShadowConfig_id in F3.
  rewrite <- F1, <- F2, F3. repeat split; try done; intros l; by eapply mergeLayerConfig_leaf.
Qed.

(** ** Merging the shadow group *)

(** Re-expanding a merged group gives, leaf by leaf, the overlay's expansion
    over the default's. *)
Lemma mergeShadowConfig_leaves d o m :
  mergeShadowConfig d o = Ok m -> (is_undefined d && is_undefined o = false) ->
  prop m "ramp" = defined_or (prop o "ramp") (prop d "ramp") /\
  expandMismatchLogging m =
    {| leaf_value := defined_or (leaf_value (expandMismatchLogging o)) (leaf_value (expandMismatchLogging d));
       leaf_diff := defined_or (leaf_diff (expandMismatchLogging o)) (leaf_diff (expandMismatchLogging d));
       leaf_invalid := leaf_invalid (expandMismatchLogging o) |}.
Proof.
  unfold mergeShadowConfig. intros H Hu. inv_ok. rewrite Hu in *. inv_ok. subst m.
  assert (forall v, (if is_undefined v then no_leaves else expandMismatchLogging v) = expandMismatchLogging v)
    as Hexp by (by intros []).
  rewrite !Hexp. clear Hexp.
  assert (leaf_invalid (expandMismatchLogging o) = leaf_invalid (expandShorthand (prop o "logMismatches"))
          /\ (leaf_invalid (expandMismatchLogging o) = true ->
              is_undefined (leaf_value (expandMismatchLogging o)) = false /\
              is_undefined (leaf_diff (expandMismatchLogging o)) = false)) as [Einv Hdef].
  { unfold expandMismatchLogging. case_match; simpl; (split; [done|]);
      destruct (prop o "logMismatches") as [| |[]| | | | |]; simpl; try done; intros _;
      destruct (prop (prop o "mismatchLogging") "value"), (prop (prop o "mismatchLogging") "diff"); done. }
  set (w := expandMismatchLogging o) in *. set (i := expandMismatchLogging d) in *.
  set (ramp := defined_or (prop o "ramp") (prop d "ramp")).
  assert (leaf_invalid w = true ->
          is_undefined (defined_or (leaf_value w) (leaf_value i)) = false /\
          is_undefined (defined_or (leaf_diff w) (leaf_diff i)) = false) as Hdef'.
  { intros [Hv Hd]%Hdef. unfold defined_or. by rewrite Hv, Hd. }
  clear Hdef. set (value := defined_or (leaf_value w) _) in *. set (diff := defined_or (leaf_diff w) _) in *.
  clearbody value diff ramp. unfold expandMismatchLogging.
  destruct (leaf_invalid w), (is_undefined value) eqn:Ev, (is_undefined diff) eqn:Ed;
    try (by destruct (Hdef' eq_refl)); cbn [andb];
    js_reads; cbn [is_undefined]; js_reads; rewrite <- ?Einv;
    try apply is_undefined_true in Ev; try apply is_undefined_true in Ed; subst;
    unfold defined_or; rewrite ?Ev, ?Ed; by destruct ramp.
Qed.

(** ** Merging valid instances never throws *)

Lemma assertShadowConfig_ok v :
  optional plain_object v -> optional plain_object (prop v "mismatchLogging") -> assertShadowConfig v = Ok tt.
Proof.
  unfold assertShadowConfig, throw_if, plain_object. intros [->|Hv] Hl; [done|].
  rewrite Hv, andb_false_r. simpl. destruct Hl as [->|Hl]; [done|]. by rewrite Hl, andb_false_r.
Qed.

Lemma assertLayerConfig_ok v n : optional plain_object v -> assertLayerConfig v n = Ok tt.
Proof. unfold assertLayerConfig, plain_object. intros [->|H]; [done|]. by rewrite H, andb_false_r. Qed.

Lemma mergeLayerConfig_total d o n :
  optional plain_object d -> optional plain_object o -> exists m, mergeLayerConfig d o n = Ok m.
Proof.
  intros Hd Ho. unfold mergeLayerConfig. rewrite !assertLayerConfig_ok by done. simpl. eauto.
Qed.

Lemma mergeShadowConfig_total d o :
  optional plain_object d -> optional plain_object (prop d "mismatchLogging") ->
  optional plain_object o -> optional plain_object (prop o "mismatchLogging") ->
  exists m, mergeShadowConfig d o = Ok m /\ cloneShadowConfig m = Ok m.
Proof.
  intros Hd Hdl Ho Hol. unfold mergeShadowConfig. rewrite !assertShadowConfig_ok by done. cbn [mbind result_bind].
  destruct (is_undefined d && is_undefined o); [by eexists|]. eexists. split; [done|].
  unfold cloneShadowConfig, cloneMismatchLoggingConfig. cbn [is_undefined obj]. simpl not_plain_object. cbv iota.
  set (v := defined_or (leaf_value _) _). set (f := defined_or (leaf_diff _) _). clearbody v f.
  destruct (leaf_invalid _), (is_undefined v && is_undefined f); js_reads;
    destruct (defined_or (prop o "ramp") (prop d "ramp")); js_reads; done.
Qed.

Definition base_wf (base : option DialCacheKeyConfig) : Prop :=
  match base with Some c => config_wf c | None => True end.

Lemma field_wf base f (P : jsval -> Prop) :
  (forall c, config_wf c -> P (f c)) -> P JUndefined -> base_wf base -> P (field_of base f).
Proof. intros Hf Hu Hb. destruct base; simpl in *; auto. Qed.

Lemma defined_or_optional (P : jsval -> Prop) v d :
  optional P v -> optional P d -> optional P (defined_or v d).
Proof. unfold optional, defined_or. intros [->|Hv] Hd; [done|]. destruct v; simpl; auto. Qed.

Lemma optional_boolean_check v :
  optional (fun v => is_boolean v = true) v -> negb (is_undefined v) && negb (is_boolean v) = false.
Proof. intros [->|H]; [done|]. by rewrite H, andb_false_r. Qed.

Lemma mergeKeyConfig_total base o :
  base_wf base -> config_wf o -> exists m, mergeKeyConfig base (config_object o) = Ok m /\ config_wf m.
Proof.
  intros Hb Ho. pose proof Ho as [].
  enough (exists m, mergeKeyConfig base (config_object o) = Ok m) as [m Hm].
  { exists m. split; [done|]. unfold mergeKeyConfig in Hm. inv_ok. by eapply new_DialCacheKeyConfig_wf. }
  unfold mergeKeyConfig, config_object.
  assert (assertKeyConfig (config_object o) = Ok tt) as HA.
  { unfold assertKeyConfig, config_object. js_reads. done. }
  unfold config_object in HA. rewrite HA. clear HA. js_reads. cbn [mbind result_bind].
  destruct (mergeShadowConfig_total (field_of base kc_shadow) (kc_shadow o)) as (sh & Esh & Csh); [| |done..|].
  { apply field_wf; [by intros ? []|by left|done]. }
  { apply (field_wf base kc_shadow (fun v => optional plain_object (prop v "mismatchLogging")));
      [by intros ? []|by left|done]. }
  destruct (mergeLayerConfig_total (field_of base kc_ttlSec) (kc_ttlSec o) "ttlSec") as [ttl Ettl]; [|by right|].
  { apply field_wf; [by intros ? []; right|by left|done]. }
  destruct (mergeLayerConfig_total (field_of base kc_ramp) (kc_ramp o) "ramp") as [rm Erm]; [|by right|].
  { apply field_wf; [by intros ? []; right|by left|done]. }
  rewrite Esh. cbn [mbind result_bind]. rewrite Ettl. cbn [mbind result_bind]. rewrite Erm.
  cbn [mbind result_bind app]. unfold new_DialCacheKeyConfig. js_reads.
  cbn [mbind result_bind throw_if not_plain_object is_null typeof_object isArray obj negb orb].
  rewrite (cloneLayerConfig_plain ttl), (cloneLayerConfig_plain rm) by (by eapply mergeLayerConfig_plain).
  rewrite Csh. cbn [mbind result_bind].
  rewrite !optional_boolean_check.
  2,3: apply defined_or_optional; [done|apply field_wf; [by intros ? []|by left|done]].
  cbn [throw_if mbind result_bind].
  edestruct (defined_or_optional _ (kc_remoteReadTimeoutMs o) (field_of base kc_remoteReadTimeoutMs) wf_readTimeout)
    as [->|[z Hz]]; [apply field_wf; [by intros ? []|by left|done]|simpl; eauto|].
  rewrite Hz. destruct (is_undefined _); simpl; eauto.
Qed.

(** ** Cohorts *)

(** For a supported TTL and a ramp in range, the special cases of the code
    (zero, one hundred, sampled) are one threshold test. *)
Lemma resolve_threshold config key layer ttl r :
  isSupportedCacheTtlSec (prop (kc_ttlSec config) (layer_name layer)) = Some ttl ->
  prop (kc_ramp config) (layer_name layer) = JNum (Fin r) -> (0 <= r)%Q -> (r <= 100)%Q ->
  resolveLayerConfigResult (Some config) key layer =
    (if Qltb (deterministicRampSample key layer) r then Enabled else RampedDown)
      {| lc_ttlSec := ttl; lc_ramp := r |}.
Proof.
  intros Httl Hr H0 H1. unfold resolveLayerConfigResult.
  assert (is_undefined (prop (kc_ttlSec config) (layer_name layer)) = false) as ->
    by (destruct (prop _ _); done).
  rewrite Httl, Hr. cbn [is_undefined].
  apply Qltb_false in H0 as H0'. apply Qltb_false in H1 as H1'. rewrite H0', H1'. cbn [orb].
  destruct (stablePercent_range (urn key ++ js ":" ++ js (layer_name layer))) as [S0 S1].
  change (stablePercent _) with (deterministicRampSample key layer) in S0, S1.
  destruct (Qle_bool r 0) eqn:E0.
  - apply Qle_bool_iff in E0.
    assert (Qltb (deterministicRampSample key layer) r = false) as ->; [|done].
    apply Qltb_false. by apply Qle_trans with 0%Q.
  - destruct (Qle_bool 100 r) eqn:E1; [|by case_match].
    apply Qle_bool_iff in E1.
    assert (Qltb (deterministicRampSample key layer) r = true) as ->; [|done].
    apply Qltb_spec. by apply Qlt_le_trans with 100%Q.
Qed.

(** ** Properties *)

(** A key and policies used to instantiate the properties. *)
Definition sample_key : DialCacheKey :=
  {| keyType := js "user"; key_id := js "1"; useCase := js "load"; key_args := []; namespace := js "urn";
     prefix := js "urn:user:1"; urn := js "urn:user:1#load"; defaultConfig := None; serializer := None;
     trackForInvalidation := false |}.

Definition sample_policy (ramp : Z) : DialCacheKeyConfig :=
  {| kc_ttlSec := obj [("local", JInt 60); ("remote", JInt 60)]; kc_ramp := obj [("local", JInt ramp)];
     kc_shadow := obj [("ramp", JInt 5); ("logMismatches", JBool true)]; kc_requestLocal := JUndefined;
     kc_coalesce := JBool false; kc_staleOnErrorMaxAgeSec := JUndefined; kc_remoteReadTimeoutMs := JInt 20 |}.

(** The rollout sample is the 32-bit FNV-1a hash of the URN and the layer
    name, scaled to a percentage: it is at least 0 and below 100, and equals
    the unsigned reference hash although the code computes with signed 32-bit
    arithmetic. *)
Theorem ramp_sample_is_fnv1a key layer :
  Forall code_unit (urn key) ->
  deterministicRampSample key layer =
    Qmake (fnv1a (urn key ++ js ":" ++ js (layer_name layer)) * 100) (2 ^ 32)%positive /\
  (0 <= deterministicRampSample key layer)%Q /\ (deterministicRampSample key layer < 100)%Q.
Proof.
  intros Hu. split; [|apply stablePercent_range].
  unfold deterministicRampSample, stablePercent. rewrite stableHash_fnv1a; [done|].
  apply Forall_app. split; [done|]. destruct layer; repeat constructor; vm_compute; done.
Qed.

Lemma ramp_sample_is_fnv1a_witness : (deterministicRampSample sample_key LOCAL < 100)%Q.
Proof. apply (ramp_sample_is_fnv1a sample_key LOCAL). code_units. Defined.

(** Raising a ramp only adds keys: a key whose layer is enabled at ramp
    [r] is enabled at every ramp [r'] between [r] and 100, and its TTL is the
    configured one. *)
Theorem raising_ramp_keeps_cohort config config' key layer ttl r r' c :
  isSupportedCacheTtlSec (prop (kc_ttlSec config) (layer_name layer)) = Some ttl ->
  prop (kc_ttlSec config') (layer_name layer) = prop (kc_ttlSec config) (layer_name layer) ->
  prop (kc_ramp config) (layer_name layer) = JNum (Fin r) ->
  prop (kc_ramp config') (layer_name layer) = JNum (Fin r') ->
  (0 <= r)%Q -> (r <= r')%Q -> (r' <= 100)%Q ->
  resolveLayerConfigResult (Some config) key layer = Enabled c ->
  resolveLayerConfigResult (Some config') key layer = Enabled {| lc_ttlSec := ttl; lc_ramp := r' |}.
Proof.
  intros Ht Ht' Hr Hr' H0 Hle H1. assert (r <= 100)%Q by (by apply Qle_trans with r').
  assert (0 <= r')%Q by (by apply Qle_trans with r).
  rewrite (resolve_threshold config key layer ttl r) by done.
  rewrite (resolve_threshold config' key layer ttl r') by congruence.
  destruct (Qltb _ r) eqn:E; [|done]. intros _. apply Qltb_spec in E.
  assert (Qltb (deterministicRampSample key layer) r' = true) as ->; [|done].
  apply Qltb_spec. by apply Qlt_le_trans with r.
Qed.

Lemma raising_ramp_keeps_cohort_witness :
  resolveLayerConfigResult (Some (sample_policy 99)) sample_key LOCAL = Enabled {| lc_ttlSec := 60; lc_ramp := inject_Z 99 |}.
Proof.
  apply (raising_ramp_keeps_cohort (sample_policy 98) (sample_policy 99) sample_key LOCAL 60 (inject_Z 98) (inject_Z 99)
           {| lc_ttlSec := 60; lc_ramp := inject_Z 98 |}); vm_compute; (reflexivity || discriminate).
Defined.

(** A provider overlay wins leaf by leaf: each TTL, ramp, switch, stale
    ceiling and read deadline of the merged configuration is the overlay's
    when the overlay defines it and the static default's otherwise; within
    the shadow group the shorthand of each side is expanded before the
    leaf-wise merge. *)
Theorem overlay_wins_leaf_by_leaf base o m :
  mergeKeyConfig base (config_object o) = Ok m ->
  (forall l, prop (kc_ttlSec m) (layer_name l) =
     defined_or (prop (kc_ttlSec o) (layer_name l)) (prop (field_of base kc_ttlSec) (layer_name l))) /\
  (forall l, prop (kc_ramp m) (layer_name l) =
     defined_or (prop (kc_ramp o) (layer_name l)) (prop (field_of base kc_ramp) (layer_name l))) /\
  kc_requestLocal m = defined_or (kc_requestLocal o) (field_of base kc_requestLocal) /\
  kc_coalesce m = defined_or (kc_coalesce o) (field_of base kc_coalesce) /\
  kc_staleOnErrorMaxAgeSec m =
    defined_or (kc_staleOnErrorMaxAgeSec o) (field_of base kc_staleOnErrorMaxAgeSec) /\
  kc_remoteReadTimeoutMs m =
    defined_or (kc_remoteReadTimeoutMs o) (field_of base kc_remoteReadTimeoutMs) /\
  (is_undefined (field_of base kc_shadow) && is_undefined (kc_shadow o) = false ->
   prop (kc_shadow m) "ramp" = defined_or (prop (kc_shadow o) "ramp") (prop (field_of base kc_shadow) "ramp") /\
   leaf_value (expandMismatchLogging (kc_shadow m)) =
     defined_or (leaf_value (expandMismatchLogging (kc_shadow o)))
       (leaf_value (expandMismatchLogging (field_of base kc_shadow))) /\
   leaf_diff (expandMismatchLogging (kc_shadow m)) =
     defined_or (leaf_diff (expandMismatchLogging (kc_shadow o)))
       (leaf_diff (expandMismatchLogging (field_of base kc_shadow)))).
Proof.
  intros (F1 & F2 & F3 & F4 & F5 & F6 & F7)%mergeKeyConfig_fields.
  unfold config_object in *. revert F1 F2 F3 F4 F5 F6 F7. js_reads. intros F1 F2 F3 F4 F5 F6 F7.
  repeat (split; [done|]). intros Hu. by destruct (mergeShadowConfig_leaves _ _ _ F7 Hu) as [Hr ->].
Qed.

Lemma overlay_wins_leaf_by_leaf_witness :
  exists m, mergeKeyConfig (Some (sample_policy 50)) (config_object (sample_policy 7)) = Ok m /\
    prop (kc_ramp m) "local" = JInt 7.
Proof.
  destruct (mergeKeyConfig (Some (sample_policy 50)) (config_object (sample_policy 7))) as [m|e] eqn:E;
    [|vm_compute in E; discriminate E].
  exists m. split; [reflexivity|].
  exact (proj1 (proj2 (overlay_wins_leaf_by_leaf (Some (sample_policy 50)) (sample_policy 7) m E)) LOCAL).
Defined.

(** C27. [DialCacheKeyConfig.disabled()] is a kill switch: returned by the
    provider over any valid static default, it always merges, and the result
    has request-local memoisation off, neither shared layer enabled for any
    key, stale recovery off, and shadow work and mismatch logging off. *)
Theorem disabled_overlay_kills_every_path key d :
  base_wf (defaultConfig key) -> DialCacheKeyConfig_disabled = Ok d ->
  exists m, fetchKeyConfig key (config_object d) = Ok (Some m) /\
    kc_requestLocal m = JBool false /\
    (forall k layer c, resolveLayerConfigResult (Some m) k layer <> Enabled c) /\
    (forall k c, rr_resolution (resolveRemoteLayerConfigResult (Some m) k) = RampedDown c ->
       rc_staleOnErrorMaxAgeSec c = None) /\
    prop (kc_shadow m) "ramp" = JInt 0 /\
    resolveMismatchLogging (kc_shadow m) =
      {| res_value := false; res_diff := DiffOff; res_invalid := false |}.
Proof.
  intros Hb Hd. pose proof (new_DialCacheKeyConfig_wf _ _ Hd) as Hwf.
  vm_compute in Hd. injection Hd as <-.
  destruct (mergeKeyConfig_total (defaultConfig key) _ Hb Hwf) as (m & Hm & _).
  exists m. split. { unfold fetchKeyConfig. cbn [config_object obj]. by rewrite Hm. }
  apply mergeKeyConfig_fields in Hm as (F1 & F2 & F3 & F4 & F5 & F6 & F7).
  split; [done|]. split; [|split].
  - intros k layer c. unfold resolveLayerConfigResult.
    replace (prop (kc_ramp m) (layer_name layer)) with (JInt 0) by (rewrite F2; by destruct layer).
    by destruct (is_undefined (prop (kc_ttlSec m) (layer_name layer))),
      (isSupportedCacheTtlSec (prop (kc_ttlSec m) (layer_name layer))).
  - intros k c. unfold resolveRemoteLayerConfigResult. rewrite F5.
    destruct (resolveLayerConfigResult _ _ _); cbn; naive_solver.
  - destruct (mergeShadowConfig_leaves _ _ _ F7) as [Hr Hl]; [by rewrite andb_false_r|].
    split; [by rewrite Hr|]. unfold resolveMismatchLogging. rewrite Hl. done.
Qed.

Lemma disabled_overlay_kills_every_path_witness :
  exists d m, DialCacheKeyConfig_disabled = Ok d /\ fetchKeyConfig sample_key (config_object d) = Ok (Some m) /\
    forall k layer c, resolveLayerConfigResult (Some m) k layer <> Enabled c.
Proof.
  destruct DialCacheKeyConfig_disabled as [d|e] eqn:E; [|vm_compute in E; discriminate E].
  destruct (disabled_overlay_kills_every_path sample_key d I E) as (m & Hm & _ & Hl & _).
  exists d, m. auto.
Defined.
