(* ===== verification/Frame.v ===== *)
(** * The Redis frame protocol

    [internal/redis-payload.ts], [internal/redis-script-reply.ts] and the
    result types of [redis-client.ts]: the binary frame
    [version | createdAtMs (8 bytes, big-endian) | encoding | payload], the
    decimal watermark, and the decoders that turn raw replies into a served
    frame or a classified miss. *)

From S2P Require Import Prelude JsValue Duration Utf8 Config Key Metrics.

(** ** Data *)

(** Serialized cache data: a string or a [Buffer]. *)
Inductive RedisCachePayload := PString (s : jsstr) | PBuffer (b : bytes).

Record DecodedRedisFrame := { payload : RedisCachePayload; createdAtMs : number }.

Inductive RedisReadResult :=
| RedisReadMiss (reason : CacheMissReason) (observedWatermarkMs : option Z)
| RedisFrame (frame : DecodedRedisFrame).

Definition redisReadMiss (reason : CacheMissReason) (observed : option Z) : RedisReadResult :=
  RedisReadMiss reason observed.

(** What a Redis client resolves a command with. *)
Inductive redis_reply :=
| ReplyNull
| ReplyBuffer (b : bytes)
| ReplyString (s : jsstr)
| ReplyInteger (z : Z)
| ReplyArray (l : list redis_reply)
| ReplyOther.

Definition REDIS_FRAME_VERSION : Z := 1.
Definition REDIS_ENCODING_UTF8 : Z := 0.
Definition REDIS_ENCODING_BINARY : Z := 1.
Definition REDIS_FRAME_TIMESTAMP_OFFSET : nat := 1.
Definition REDIS_FRAME_TIMESTAMP_BYTES : nat := 8.
Definition REDIS_FRAME_HEADER_BYTES : nat := REDIS_FRAME_TIMESTAMP_OFFSET + REDIS_FRAME_TIMESTAMP_BYTES.
Definition REDIS_FRAME_MIN_BYTES : nat := REDIS_FRAME_HEADER_BYTES + 1.

(** ** Big-endian integers *)

Fixpoint be_bytes (n : nat) (z : Z) : bytes :=
  match n with
  | O => []
  | S m => (z / 2 ^ (8 * Z.of_nat m)) mod 256 :: be_bytes m z
  end.

Definition be_value (bs : bytes) : Z := foldl (fun acc b => acc * 256 + b) 0 bs.

(** ** Timestamps and watermarks *)

Definition isValidRedisTimestampMs (value : jsval) : option Z :=
  match value with
  | JNum n =>
      match isSafeInteger n with
      | Some z => if 0 <=? z then Some z else None
      | None => None
      end
  | _ => None
  end.

Definition assertValidRedisTimestampMs (timestampMs : Z) : res unit :=
  match isValidRedisTimestampMs (JInt timestampMs) with
  | None => Err (RangeError "DialCache Redis timestamp must be a nonnegative safe integer")
  | Some _ => Ok tt
  end.

Definition digits_value (s : jsstr) : Z := foldl (fun acc c => acc * 10 + (c - 48)) 0 s.

(** [Number(text)] rounds only integers above [MAX_SAFE_INTEGER], and rounds
    them to numbers above it, so the comparison is exact. *)
Definition parseRedisWatermark (raw : bytes) : option Z :=
  let text := utf8_decode raw in
  if (negb (bool_decide (text = []))) && forallb is_digit text then
    let watermark := digits_value text in
    if watermark <=? MAX_SAFE_INTEGER then Some watermark else None
  else None.

(** ** Encoding *)

Definition encodeRedisFrame (p : RedisCachePayload) (createdAt : Z) : res bytes :=
  match isValidRedisTimestampMs (JInt createdAt) with
  | None => Err (RangeError "DialCache frame createdAtMs must be a nonnegative safe integer")
  | Some t =>
      let header enc := REDIS_FRAME_VERSION :: be_bytes REDIS_FRAME_TIMESTAMP_BYTES t ++ [enc] in
      Ok match p with
         | PBuffer b => header REDIS_ENCODING_BINARY ++ b
         | PString s => header REDIS_ENCODING_UTF8 ++ utf8_encode s
         end
  end.

(** ** Decoding *)

Definition validateRedisBulkStringReply (raw : redis_reply) : res (option bytes) :=
  match raw with
  | ReplyNull => Ok None
  | ReplyBuffer b => Ok (Some b)
  | _ => Err (DialCacheRedisPayloadError "Invalid DialCache Redis read reply; expected a bulk string or null")
  end.

Definition isSupportedRedisFrame (raw : bytes) : bool :=
  (REDIS_FRAME_MIN_BYTES <=? length raw)%nat
  && match raw with v :: _ => v =? REDIS_FRAME_VERSION | [] => false end.

Definition decodeRedisPayload (raw : bytes) : res RedisCachePayload :=
  match raw with
  | encoding :: p =>
      if encoding =? REDIS_ENCODING_UTF8 then Ok (PString (utf8_decode p))
      else if encoding =? REDIS_ENCODING_BINARY then Ok (PBuffer p)
      else Err (DialCacheRedisPayloadEncodingError "Invalid DialCache Redis payload encoding")
  | [] => Err (DialCacheRedisPayloadEncodingError "Invalid DialCache Redis payload encoding")
  end.

(** [Number(frame.readBigUInt64BE(1))] *)
Definition readFrameCreatedAtMs (frame : bytes) : Z :=
  Number_of_bigint
    (be_value (take REDIS_FRAME_TIMESTAMP_BYTES (drop REDIS_FRAME_TIMESTAMP_OFFSET frame))).

Definition decodedRedisFrame (frame : bytes) : res DecodedRedisFrame :=
  p ← decodeRedisPayload (drop REDIS_FRAME_HEADER_BYTES frame);
  Ok {| payload := p; createdAtMs := of_Z (readFrameCreatedAtMs frame) |}.

Definition decodeRedisReadResult (raw : redis_reply) : res RedisReadResult :=
  frame ← validateRedisBulkStringReply raw;
  match frame with
  | None => Ok (redisReadMiss mr_value_absent None)
  | Some f =>
      if negb (isSupportedRedisFrame f) then Ok (redisReadMiss mr_unclassified None)
      else d ← decodedRedisFrame f; Ok (RedisFrame d)
  end.

Definition decodeTrackedFrame (frame : bytes) (observed : option Z) : res RedisReadResult :=
  let created := readFrameCreatedAtMs frame in
  if created =? 0 then Ok (redisReadMiss mr_unclassified observed)
  else if match observed with Some w => created <=? w | None => false end
  then Ok (redisReadMiss mr_watermark_fenced observed)
  else d ← decodedRedisFrame frame; Ok (RedisFrame d).

Definition decodeTrackedRedisReadResult (raw rawWatermark : redis_reply) : res RedisReadResult :=
  frame ← validateRedisBulkStringReply raw;
  watermarkFrame ← validateRedisBulkStringReply rawWatermark;
  let parsed := watermarkFrame ≫= parseRedisWatermark in
  match frame with
  | None => Ok (redisReadMiss mr_value_absent parsed)
  | Some f =>
      if negb (isSupportedRedisFrame f) then Ok (redisReadMiss mr_unclassified parsed)
      else match watermarkFrame with
      | None => decodeTrackedFrame f None
      | Some wf =>
          match parseRedisWatermark wf with
          | None => Ok (redisReadMiss mr_unclassified None)
          | Some w => decodeTrackedFrame f (Some w)
          end
      end
  end.

(** ** Mutation replies *)

Definition validateRedisSetReply (reply : redis_reply) : res unit :=
  let text := match reply with
              | ReplyString s => Some s
              | ReplyBuffer b => Some (utf8_decode b)
              | _ => None
              end in
  if bool_decide (text = Some (js "OK")) then Ok tt
  else Err (DialCacheRedisProtocolError "Invalid DialCache Redis SET reply; expected OK").

Definition validateRedisScriptInvalidationReply (reply : redis_reply) : res Z :=
  match reply with
  | ReplyInteger z =>
      if z =? 1 then Ok 1
      else Err (DialCacheRedisProtocolError "Invalid DialCache Redis invalidate reply; expected integer 1")
  | _ => Err (DialCacheRedisProtocolError "Invalid DialCache Redis invalidate reply; expected integer 1")
  end.

(** ** Lemmas *)

Lemma be_bytes_length n z : length (be_bytes n z) = n.
Proof. induction n; simpl; congruence. Qed.

Lemma be_bytes_byte n z : Forall is_byte (be_bytes n z).
Proof. induction n; simpl; constructor; [|done]. apply Z.mod_pos_bound. lia. Qed.

Lemma be_value_app bs b : be_value (bs ++ [b]) = be_value bs * 256 + b.
Proof. unfold be_value. by rewrite foldl_app. Qed.

(** Reading back from the least significant byte. *)
Lemma be_bytes_snoc n z : be_bytes (S n) z = be_bytes n (z / 256) ++ [z mod 256].
Proof.
  revert z. induction n as [|n IH]; intros z.
  { simpl. change (2 ^ (8 * Z.of_nat 0)) with 1. by rewrite Z.div_1_r. }
  cbn [be_bytes]. cbn [be_bytes] in IH. rewrite IH. simpl app. f_equal.
  rewrite Z.div_div by lia. f_equal. f_equal.
  replace (8 * Z.of_nat (S n)) with (8 + 8 * Z.of_nat n) by lia.
  rewrite Z.pow_add_r by lia. done.
Qed.

Lemma be_value_bytes n z : 0 <= z < 2 ^ (8 * Z.of_nat n) -> be_value (be_bytes n z) = z.
Proof.
  revert z. induction n as [|n IH]; intros z Hz.
  { simpl. change (2 ^ (8 * Z.of_nat 0)) with 1 in Hz. unfold be_value. simpl. lia. }
  rewrite be_bytes_snoc, be_value_app, IH.
  - rewrite (Z.div_mod z 256) at 3 by lia. lia.
  - replace (8 * Z.of_nat (S n)) with (8 + 8 * Z.of_nat n) in Hz by lia.
    rewrite Z.pow_add_r in Hz by lia. change (2 ^ 8) with 256 in Hz.
    split; [apply Z.div_pos; lia|apply Z.div_lt_upper_bound; lia].
Qed.

Lemma isValidRedisTimestampMs_spec v z :
  isValidRedisTimestampMs v = Some z -> 0 <= z <= MAX_SAFE_INTEGER.
Proof.
  unfold isValidRedisTimestampMs. destruct v; try done.
  destruct (isSafeInteger n) eqn:E; [|done]. apply isSafeInteger_bound in E.
  case_match; naive_solver lia.
Qed.

Lemma isValidRedisTimestampMs_int z :
  0 <= z <= MAX_SAFE_INTEGER -> isValidRedisTimestampMs (JInt z) = Some z.
Proof.
  intros Hz. unfold isValidRedisTimestampMs, JInt. rewrite isSafeInteger_of_Z by lia.
  destruct (Z.leb_spec 0 z); [done|lia].
Qed.

Lemma isValidRedisTimestampMs_JInt z t : isValidRedisTimestampMs (JInt z) = Some t -> t = z.
Proof.
  unfold isValidRedisTimestampMs, JInt, isSafeInteger. rewrite to_int_of_Z.
  repeat case_match; naive_solver.
Qed.

Lemma Number_of_bigint_small z : z <= MAX_SAFE_INTEGER -> Number_of_bigint z = z.
Proof. intros H. unfold Number_of_bigint. by apply Z.leb_le in H as ->. Qed.

(** An encoded frame, field by field. *)
Lemma encodeRedisFrame_shape p t f :
  encodeRedisFrame p t = Ok f ->
  0 <= t <= MAX_SAFE_INTEGER /\
  f = REDIS_FRAME_VERSION :: be_bytes 8 t ++
      match p with
      | PBuffer b => REDIS_ENCODING_BINARY :: b
      | PString s => REDIS_ENCODING_UTF8 :: utf8_encode s
      end.
Proof.
  unfold encodeRedisFrame. case_match eqn:E; [|done]. intros [= <-].
  pose proof (isValidRedisTimestampMs_spec _ _ E). apply isValidRedisTimestampMs_JInt in E as ->.
  split; [done|]. destruct p; cbn [app]; f_equal; by rewrite <- app_assoc.
Qed.

Lemma drop_header (v : Z) ts (r : bytes) : length ts = 8%nat -> drop 9 (v :: ts ++ r) = r.
Proof. intros H. simpl. by rewrite drop_app_length'. Qed.

Lemma take_timestamp (v : Z) ts (r : bytes) : length ts = 8%nat -> take 8 (drop 1 (v :: ts ++ r)) = ts.
Proof.
  intros H. change (drop 1 (v :: ts ++ r)) with (ts ++ r). rewrite <- H. apply take_app_length.
Qed.

(** Everything the decoders read of a frame with this shape. *)
Lemma frame_reads t r :
  0 <= t <= MAX_SAFE_INTEGER -> r <> [] ->
  let f := REDIS_FRAME_VERSION :: be_bytes 8 t ++ r in
  isSupportedRedisFrame f = true /\ readFrameCreatedAtMs f = t /\ drop REDIS_FRAME_HEADER_BYTES f = r.
Proof.
  intros Ht Hr f. subst f. split; [|split].
  - unfold isSupportedRedisFrame. rewrite length_cons, length_app, be_bytes_length.
    destruct r; [done|]. simpl. done.
  - unfold readFrameCreatedAtMs. change (take _ (drop _ _)) with (take 8 (drop 1 (REDIS_FRAME_VERSION :: be_bytes 8 t ++ r))).
    rewrite take_timestamp by apply be_bytes_length.
    rewrite be_value_bytes by (change (2 ^ (8 * Z.of_nat 8)) with 18446744073709551616; duration_lia).
    apply Number_of_bigint_small. lia.
  - change (drop _ _) with (drop 9 (REDIS_FRAME_VERSION :: be_bytes 8 t ++ r)).
    by apply drop_header, be_bytes_length.
Qed.

(** A payload survives the wire when it is binary or a well-formed string. *)
Definition payload_ok (p : RedisCachePayload) : Prop :=
  match p with PBuffer _ => True | PString s => Forall code_unit s /\ well_formed s end.

Lemma decodedRedisFrame_encode p t f :
  payload_ok p -> encodeRedisFrame p t = Ok f ->
  isSupportedRedisFrame f = true /\ readFrameCreatedAtMs f = t /\
  decodedRedisFrame f = Ok {| payload := p; createdAtMs := of_Z t |}.
Proof.
  intros Hp (Ht & ->)%encodeRedisFrame_shape. unfold decodedRedisFrame.
  destruct p as [s|b].
  - destruct (frame_reads t (REDIS_ENCODING_UTF8 :: utf8_encode s) Ht) as (H1 & H2 & H3); [done|].
    destruct Hp. rewrite H1, H2, H3. cbn [decodeRedisPayload]. rewrite Z.eqb_refl.
    cbn. by rewrite utf8_decode_encode.
  - destruct (frame_reads t (REDIS_ENCODING_BINARY :: b) Ht) as (H1 & H2 & H3); [done|].
    by rewrite H1, H2, H3.
Qed.

(** Every encoded frame is a supported one that carries its stamp. *)
Lemma encodeRedisFrame_stamp p c f :
  encodeRedisFrame p c = Ok f -> isSupportedRedisFrame f = true /\ readFrameCreatedAtMs f = c.
Proof.
  intros (Hc & ->)%encodeRedisFrame_shape.
  set (r := match p with PString s => _ | PBuffer b => _ end).
  destruct (frame_reads c r Hc) as (H1 & H2 & _); [by destruct p|]. done.
Qed.

(** ** Decimal watermarks *)

Lemma digits_value_app s c : digits_value (s ++ [c]) = digits_value s * 10 + (c - 48).
Proof. unfold digits_value. by rewrite foldl_app. Qed.

Lemma foldl_digits (acc : Z) s :
  foldl (fun a c => a * 10 + (c - 48)) acc s = acc * 10 ^ Z.of_nat (length s) + digits_value s.
Proof.
  unfold digits_value. induction s as [|c s IH] using rev_ind; [simpl; lia|].
  rewrite !foldl_app. simpl. rewrite IH, length_app. simpl.
  replace (Z.of_nat (length s + 1)) with (Z.of_nat (length s) + 1) by lia.
  rewrite Z.pow_add_r by lia. lia.
Qed.

Lemma digits_fuel_spec f n acc :
  0 <= n < 2 ^ Z.of_nat f -> Forall (fun c => is_digit c = true) acc ->
  let s := digits_fuel f n acc in
  Forall (fun c => is_digit c = true) s /\
  digits_value s = n * 10 ^ Z.of_nat (length acc) + digits_value acc.
Proof.
  revert n acc. induction f as [|f IH]; intros n acc Hn Hacc; cbn [digits_fuel].
  { change (2 ^ Z.of_nat 0) with 1 in Hn. split; [done|]. lia. }
  assert (is_digit (48 + n mod 10) = true) as Hd.
  { unfold is_digit. pose proof (Z.mod_pos_bound n 10). lia. }
  assert (digits_value ((48 + n mod 10) :: acc) =
          n mod 10 * 10 ^ Z.of_nat (length acc) + digits_value acc) as Hv.
  { unfold digits_value at 1. cbn [foldl]. rewrite foldl_digits. lia. }
  destruct (Z.ltb_spec n 10).
  - split; [by constructor|]. rewrite Hv. by rewrite Z.mod_small by lia.
  - rewrite Nat2Z.inj_succ, Z.pow_succ_r in Hn by lia.
    destruct (IH (n / 10) ((48 + n mod 10) :: acc)) as [IH1 IH2]; [|by constructor|].
    { split; [apply Z.div_pos; lia|]. apply Z.div_lt_upper_bound; lia. }
    split; [done|]. rewrite IH2, Hv. cbn [length]. rewrite Nat2Z.inj_succ, Z.pow_succ_r by lia.
    rewrite (Z.div_mod n 10) at 3 by lia. lia.
Qed.

Lemma digits_spec n :
  0 <= n -> Forall (fun c => is_digit c = true) (digits n) /\ digits_value (digits n) = n.
Proof.
  intros Hn. unfold digits. destruct (digits_fuel_spec (S (Z.to_nat (Z.log2 n))) n []) as [H1 H2]; [|done|].
  - split; [done|]. rewrite Nat2Z.inj_succ, Z2Nat.id by apply Z.log2_nonneg.
    destruct (Z.eq_dec n 0) as [->|]; [vm_compute; done|]. apply Z.log2_spec. lia.
  - split; [done|]. rewrite H2. simpl. unfold digits_value. simpl. lia.
Qed.

Lemma digits_fuel_nonempty f n acc : digits_fuel (S f) n acc <> [].
Proof.
  revert n acc. induction f as [|f IH]; intros n acc.
  - cbn. by case_match.
  - cbn [digits_fuel]. case_match; [done|]. apply IH.
Qed.

(** ASCII text is its own UTF-8 encoding. *)
Lemma decode_from_ascii s :
  Forall (fun c => 0 <= c < 128) s -> decode_from Start s = s.
Proof.
  induction 1 as [|c s Hc _ IH]; [done|]. rewrite decode_start, decode_lead_1 by lia. simpl. by rewrite IH.
Qed.

Lemma utf8_decode_ascii s : Forall (fun c => 0 <= c < 128) s -> utf8_decode s = s.
Proof.
  intros H. unfold utf8_decode. rewrite decode_from_ascii by done. unfold units.
  induction H as [|c s Hc _ IH]; [done|]. rewrite bind_cons, IH. unfold units_of.
  by destruct (Z.ltb_spec c 0x10000); [|lia].
Qed.

(** A printed watermark reads back. *)
Lemma parseRedisWatermark_digits w :
  0 <= w <= MAX_SAFE_INTEGER -> parseRedisWatermark (digits w) = Some w.
Proof.
  intros Hw. destruct (digits_spec w) as [Hd Hv]; [lia|]. unfold parseRedisWatermark.
  rewrite utf8_decode_ascii.
  - rewrite bool_decide_eq_false_2 by apply digits_fuel_nonempty. cbn [negb andb].
    assert (forallb is_digit (digits w) = true) as -> by (by apply forallb_forall; apply List.Forall_forall).
    rewrite Hv. destruct (Z.leb_spec w MAX_SAFE_INTEGER); [done|lia].
  - eapply Forall_impl; [|exact Hd]. unfold is_digit. intros c. simpl. lia.
Qed.

Lemma forallb_digits_nonneg s : forallb is_digit s = true -> 0 <= digits_value s.
Proof.
  unfold digits_value. induction s as [|c s IH] using rev_ind; [done|].
  rewrite forallb_app, andb_true_iff. intros [H1 H2]. rewrite foldl_app. simpl in *.
  unfold is_digit in H2. specialize (IH H1). lia.
Qed.

Lemma parseRedisWatermark_range b w : parseRedisWatermark b = Some w -> 0 <= w <= MAX_SAFE_INTEGER.
Proof.
  unfold parseRedisWatermark. case_match eqn:E; [|done]. apply andb_true_iff in E as [_ E].
  apply forallb_digits_nonneg in E. case_match; [|done]. intros [= <-]. lia.
Qed.

(** ** Properties *)

(** An encoded frame as the two decoders see it. *)
Lemma decode_untracked_frame p t f :
  payload_ok p -> encodeRedisFrame p t = Ok f ->
  decodeRedisReadResult (ReplyBuffer f) = Ok (RedisFrame {| payload := p; createdAtMs := of_Z t |}).
Proof.
  intros Hp Hf. apply decodedRedisFrame_encode in Hf as (H1 & _ & H3); [|done].
  unfold decodeRedisReadResult. simpl. rewrite H1. simpl. by rewrite H3.
Qed.

Lemma decode_tracked_frame p t f w :
  payload_ok p -> 0 < t -> encodeRedisFrame p t = Ok f -> 0 <= w <= MAX_SAFE_INTEGER ->
  decodeTrackedRedisReadResult (ReplyBuffer f) (ReplyBuffer (digits w)) =
    Ok (if t <=? w then RedisReadMiss mr_watermark_fenced (Some w)
        else RedisFrame {| payload := p; createdAtMs := of_Z t |}) /\
  decodeTrackedRedisReadResult (ReplyBuffer f) ReplyNull =
    Ok (RedisFrame {| payload := p; createdAtMs := of_Z t |}).
Proof.
  intros Hp Ht Hf Hw. apply decodedRedisFrame_encode in Hf as (H1 & H2 & H3); [|done].
  unfold decodeTrackedRedisReadResult, decodeTrackedFrame. simpl.
  rewrite parseRedisWatermark_digits by done. rewrite H1, H2, H3. simpl.
  destruct (Z.eqb_spec t 0); [lia|]. by destruct (t <=? w).
Qed.

(** Round trip: a frame written by [encodeRedisFrame] is read back by
    [decodeRedisReadResult] with the same payload and the same creation time,
    for every binary payload and every well-formed string. *)
Theorem frame_roundtrip p t f :
  payload_ok p -> encodeRedisFrame p t = Ok f ->
  decodeRedisReadResult (ReplyBuffer f) = Ok (RedisFrame {| payload := p; createdAtMs := of_Z t |}).
Proof. apply decode_untracked_frame. Qed.

Lemma frame_roundtrip_witness :
  exists f, encodeRedisFrame (PBuffer [0; 255]) 1700000000000 = Ok f /\
    decodeRedisReadResult (ReplyBuffer f) =
      Ok (RedisFrame {| payload := PBuffer [0; 255]; createdAtMs := of_Z 1700000000000 |}).
Proof.
  eexists. split; [vm_compute; reflexivity|].
  apply (frame_roundtrip (PBuffer [0; 255]) 1700000000000); [exact I|vm_compute; reflexivity].
Defined.

(** The tracked decision: a frame stamped [t > 0] read together with the
    watermark [w] is fenced when [t <= w] (and the miss carries [w]) and is
    served unchanged when [t > w]; without a watermark it is served. *)
Theorem tracked_read_decision p t f w :
  payload_ok p -> 0 < t -> encodeRedisFrame p t = Ok f -> 0 <= w <= MAX_SAFE_INTEGER ->
  decodeTrackedRedisReadResult (ReplyBuffer f) (ReplyBuffer (digits w)) =
    Ok (if t <=? w then RedisReadMiss mr_watermark_fenced (Some w)
        else RedisFrame {| payload := p; createdAtMs := of_Z t |}) /\
  decodeTrackedRedisReadResult (ReplyBuffer f) ReplyNull =
    Ok (RedisFrame {| payload := p; createdAtMs := of_Z t |}).
Proof. apply decode_tracked_frame. Qed.

Lemma tracked_read_decision_witness :
  exists f, encodeRedisFrame (PBuffer [7]) 1000 = Ok f /\
    decodeTrackedRedisReadResult (ReplyBuffer f) (ReplyBuffer (digits 1000)) =
      Ok (RedisReadMiss mr_watermark_fenced (Some 1000)).
Proof.
  eexists. split; [vm_compute; reflexivity|].
  refine (proj1 (tracked_read_decision (PBuffer [7]) 1000 _ 1000 I _ _ _)); [lia|vm_compute; reflexivity|].
  vm_compute. split; discriminate.
Defined.

(** Fence soundness for arbitrary stored bytes: whenever a tracked read
    yields a frame, either there is no watermark or the watermark parses and
    is strictly below the frame's creation time. *)
Theorem tracked_frame_clears_watermark raw rawWatermark fr :
  decodeTrackedRedisReadResult raw rawWatermark = Ok (RedisFrame fr) ->
  rawWatermark = ReplyNull \/
  exists b w c, rawWatermark = ReplyBuffer b /\ parseRedisWatermark b = Some w /\
    createdAtMs fr = of_Z c /\ w < c.
Proof.
  unfold decodeTrackedRedisReadResult, decodeTrackedFrame, decodedRedisFrame.
  intros (f & Hf & (wf & Hwf & H)%result_bind_ok)%result_bind_ok.
  destruct rawWatermark; simplify_eq/=; [by left|]. right.
  destruct f as [f|]; [|done]. case_match; [done|].
  destruct (parseRedisWatermark b) as [w|] eqn:Ew; [|done].
  case_match; [done|]. case_match eqn:El; [done|]. inv_ok. simplify_eq.
  exists b, w, (readFrameCreatedAtMs f). repeat split; [done|]. apply Z.leb_gt in El. lia.
Qed.

Lemma tracked_frame_clears_watermark_witness :
  exists b w c, ReplyBuffer (digits 999) = ReplyBuffer b /\ parseRedisWatermark b = Some w /\ of_Z 1000 = of_Z c /\ w < c.
Proof.
  destruct (tracked_frame_clears_watermark (ReplyBuffer (1 :: be_bytes 8 1000 ++ [1; 7])) (ReplyBuffer (digits 999))
    {| payload := PBuffer [7]; createdAtMs := of_Z 1000 |}) as [E|(b & w & c & E1 & E2 & E3 & E4)];
    [vm_compute; reflexivity|discriminate E|]. exists b, w, c. auto.
Defined.
