(* ===== verification/Invalidation.v ===== *)
(** * Invalidation watermarks

    [internal/redis-scripts.ts] and [internal/redis-invalidation.ts]: the Lua
    script every invalidation runs, over an abstract Redis keyspace, and the
    lifetime argument behind the tracked-read fence: while a frame that an
    invalidation must hide can still be read, its watermark is still there. *)

From S2P Require Import Prelude JsValue Duration Utf8 Config Key Metrics Frame.

(** ** The Redis keyspace *)

(** A string value, or a value of another type. *)
Inductive stored := SString (b : bytes) | SOther.

(** Redis is a service outside the program: a store type with lookup of the
    live entry of a key (its value and absolute expiry, [None] when
    persistent) at a server time, and [SET key value [PX ms]]; the laws are
    the documented behaviour of SET, expiry and key isolation. *)
Class RedisStore (S : Type) := {
  rs_lookup : S -> Z -> jsstr -> option (stored * option Z);
  rs_set : S -> Z -> jsstr -> bytes -> option Z -> S;
  rs_lookup_set_same s now now' k v px :
    now <= now' ->
    rs_lookup (rs_set s now k v px) now' k =
      match px with
      | None => Some (SString v, None)
      | Some p => if now' <? now + p then Some (SString v, Some (now + p)) else None
      end;
  rs_lookup_set_other s now now' k k' v px :
    k <> k' -> now <= now' -> rs_lookup (rs_set s now k v px) now' k' = rs_lookup s now' k';
  rs_lookup_live s now k v e : rs_lookup s now k = Some (v, Some e) -> now < e;
  rs_lookup_stays s now now' k v e :
    rs_lookup s now k = Some (v, e) -> now <= now' ->
    (match e with Some t => now' < t | None => True end) -> rs_lookup s now' k = Some (v, e);
  rs_lookup_earlier s now now' k x : rs_lookup s now' k = Some x -> now <= now' -> rs_lookup s now k = Some x;
}.

(** [GET]: nil, the string, or the WRONGTYPE error. *)
Inductive get_reply := GetNil | GetString (b : bytes) | GetWrongType.

(** The watermark lifetime margin. *)
Definition WATERMARK_TTL_MARGIN_MS : Z := 60000.
Definition MIN_WATERMARK_TTL_MS : Z := 2 * MAX_TRACKED_REDIS_VALUE_TTL_MS.

(** [parse_safe_integer] of the script. *)
Definition parse_safe_integer (raw : bytes) : option Z :=
  if (negb (bool_decide (raw = []))) && forallb is_digit raw then
    let value := digits_value raw in
    if MAX_SAFE_INTEGER <? value then None else Some value
  else None.

(** [buildRedisInvalidationScriptArguments] *)
Definition buildRedisInvalidationScriptArguments (futureBufferMs invalidatedAtMs : Z) : jsstr * jsstr :=
  (String_of_Z futureBufferMs, String_of_Z invalidatedAtMs).

Section script.
  Context {S : Type} `{RedisStore S}.

Definition redis_get (s : S) (now : Z) (k : jsstr) : get_reply :=
  match rs_lookup s now k with
  | None => GetNil
  | Some (SString b, _) => GetString b
  | Some (SOther, _) => GetWrongType
  end.

(** [PTTL]: -2 absent, -1 persistent, the remaining milliseconds otherwise. *)
Definition redis_pttl (s : S) (now : Z) (k : jsstr) : Z :=
  match rs_lookup s now k with
  | None => -2
  | Some (_, None) => -1
  | Some (_, Some e) => e - now
  end.

(** [INVALIDATE_CACHE_SCRIPT] with KEYS[1] and ARGV, run at server time
    [now].  [getError] is a Redis read error other than WRONGTYPE, which the
    script returns unchanged. *)
Definition INVALIDATE_CACHE_SCRIPT (s : S) (now : Z) (key : jsstr) (argv1 argv2 : jsstr)
    (getError : option exn) : S * res redis_reply :=
  match parse_safe_integer argv1 with
  | None => (s, Err (PlainError "ERR invalid DialCache future buffer"))
  | Some future_buffer_ms =>
  if (future_buffer_ms <? 0) || (MAX_SUPPORTED_DURATION_MS <? future_buffer_ms)
  then (s, Err (PlainError "ERR invalid DialCache future buffer"))
  else
  match parse_safe_integer argv2 with
  | None => (s, Err (PlainError "ERR invalid DialCache invalidatedAtMs"))
  | Some invalidated_at_ms =>
  if MAX_SAFE_INTEGER - future_buffer_ms <? invalidated_at_ms
  then (s, Err (PlainError "ERR invalid DialCache invalidatedAtMs"))
  else
  match getError with
  | Some e => (s, Err e)
  | None =>
    let proposed_watermark := invalidated_at_ms + future_buffer_ms in
    let raw_watermark := match redis_get s now key with GetString b => Some b | _ => None end in
    let current_watermark :=
      match raw_watermark with Some b => default 0 (parse_safe_integer b) | None => 0 end in
    let watermark := Z.max current_watermark proposed_watermark in
    let current_ttl_ms := match raw_watermark with Some _ => redis_pttl s now key | None => -2 end in
    let desired_ttl_ms :=
      Z.max MIN_WATERMARK_TTL_MS
        (watermark - invalidated_at_ms + MAX_TRACKED_REDIS_VALUE_TTL_MS + WATERMARK_TTL_MARGIN_MS) in
    let desired_ttl_ms := if desired_ttl_ms <? current_ttl_ms then current_ttl_ms else desired_ttl_ms in
    let encoded_watermark := digits watermark in
    let s' := if current_ttl_ms =? -1 then rs_set s now key encoded_watermark None
              else rs_set s now key encoded_watermark (Some desired_ttl_ms) in
    (s', Ok (ReplyInteger 1))
  end end end.

(** The watermark a script sees: the parsed string value, or zero. *)
Definition current_watermark (s : S) (now : Z) (key : jsstr) : Z :=
  match redis_get s now key with GetString b => default 0 (parse_safe_integer b) | _ => 0 end.

(** Expiry times, [None] being never. *)
Definition expiry_le (a b : option Z) : Prop :=
  match a, b with
  | _, None => True
  | None, Some _ => False
  | Some x, Some y => x <= y
  end.

(** The watermark key holds watermark [w] until [e], at least. *)
Definition holds_watermark (s : S) (now : Z) (key : jsstr) (w : Z) (e : option Z) : Prop :=
  rs_lookup s now key = Some (SString (digits w), e).

(** ** Lemmas *)

Lemma parse_safe_integer_digits n : 0 <= n <= MAX_SAFE_INTEGER -> parse_safe_integer (digits n) = Some n.
Proof.
  intros Hn. destruct (digits_spec n) as [Hd Hv]; [lia|]. unfold parse_safe_integer.
  rewrite bool_decide_eq_false_2 by apply digits_fuel_nonempty. cbn [negb andb].
  assert (forallb is_digit (digits n) = true) as -> by (by apply forallb_forall; apply List.Forall_forall).
  rewrite Hv. destruct (Z.ltb_spec MAX_SAFE_INTEGER n); [lia|done].
Qed.

Lemma parse_safe_integer_range raw n : parse_safe_integer raw = Some n -> 0 <= n <= MAX_SAFE_INTEGER.
Proof.
  unfold parse_safe_integer. case_match eqn:E; [|done]. apply andb_true_iff in E as [_ E].
  apply forallb_digits_nonneg in E. destruct (Z.ltb_spec MAX_SAFE_INTEGER (digits_value raw)); [done|].
  intros [= <-]. lia.
Qed.

Lemma current_watermark_range s now key : 0 <= current_watermark s now key <= MAX_SAFE_INTEGER.
Proof.
  unfold current_watermark. destruct (redis_get s now key); try duration_lia.
  destruct (parse_safe_integer b) eqn:E; simpl; [by apply parse_safe_integer_range in E|duration_lia].
Qed.

(** The arguments an adapter sends are accepted in the domain it validates. *)
Lemma script_arguments fb inv :
  0 <= fb <= MAX_SUPPORTED_DURATION_MS -> 0 <= inv -> inv + fb <= MAX_SAFE_INTEGER ->
  let '(a1, a2) := buildRedisInvalidationScriptArguments fb inv in
  parse_safe_integer a1 = Some fb /\ parse_safe_integer a2 = Some inv.
Proof.
  intros Hf Hi Hs. unfold buildRedisInvalidationScriptArguments, String_of_Z.
  destruct (Z.ltb_spec fb 0); [lia|]. destruct (Z.ltb_spec inv 0); [lia|].
  rewrite !parse_safe_integer_digits by duration_lia. done.
Qed.

(** An accepted run, as one SET. *)
Lemma script_run s now key fb inv a1 a2 :
  parse_safe_integer a1 = Some fb -> parse_safe_integer a2 = Some inv ->
  fb <= MAX_SUPPORTED_DURATION_MS -> inv + fb <= MAX_SAFE_INTEGER ->
  let w := Z.max (current_watermark s now key) (inv + fb) in
  exists e s', INVALIDATE_CACHE_SCRIPT s now key a1 a2 None = (s', Ok (ReplyInteger 1)) /\
    (forall now', now <= now' -> match e with Some t => now' < t | None => True end ->
       holds_watermark s' now' key w e) /\
    (forall k now', k <> key -> now <= now' -> rs_lookup s' now' k = rs_lookup s now' k) /\
    expiry_le (Some (now + Z.max MIN_WATERMARK_TTL_MS
       (w - inv + MAX_TRACKED_REDIS_VALUE_TTL_MS + WATERMARK_TTL_MARGIN_MS))) e /\
    (forall b e0, rs_lookup s now key = Some (SString b, e0) -> expiry_le e0 e).
Proof.
  intros E1 E2 Hf Hs w. pose proof (parse_safe_integer_range _ _ E1). pose proof (parse_safe_integer_range _ _ E2).
  unfold INVALIDATE_CACHE_SCRIPT. rewrite E1, E2.
  destruct (Z.ltb_spec fb 0); [lia|]. destruct (Z.ltb_spec MAX_SUPPORTED_DURATION_MS fb); [lia|].
  destruct (Z.ltb_spec (MAX_SAFE_INTEGER - fb) inv); [lia|]. cbn [orb].
  set (cw := match _ with Some b => default 0 (parse_safe_integer b) | None => 0 end).
  assert (Z.max cw (inv + fb) = w) as ->.
  { subst w cw. unfold current_watermark. by destruct (redis_get s now key). }
  set (ttl := match _ with Some _ => redis_pttl s now key | None => -2 end).
  set (d0 := Z.max MIN_WATERMARK_TTL_MS _). set (d := if d0 <? ttl then ttl else d0).
  assert (d0 <= d /\ ttl <= d) as [Hd1 Hd2] by (subst d; destruct (Z.ltb_spec d0 ttl); lia).
  assert (forall b e0, rs_lookup s now key = Some (SString b, e0) ->
          ttl = match e0 with None => -1 | Some e => e - now end) as Httl.
  { intros b e0 Hl. subst ttl. unfold redis_get, redis_pttl. rewrite Hl. by destruct e0. }
  clearbody ttl d0 d. destruct (Z.eqb_spec ttl (-1)) as [Et|Et].
  - exists None. eexists. split; [done|]. split; [|split; [|split]].
    + intros now' Hn _. unfold holds_watermark. by rewrite rs_lookup_set_same.
    + intros k now' Hk Hn. by apply rs_lookup_set_other.
    + done.
    + by intros b [e|] _.
  - exists (Some (now + d)). eexists. split; [done|]. split; [|split; [|split]].
    + intros now' Hn Hlt. unfold holds_watermark. rewrite rs_lookup_set_same by done.
      by destruct (Z.ltb_spec now' (now + d)); [|lia].
    + intros k now' Hk Hn. by apply rs_lookup_set_other.
    + simpl. lia.
    + intros b [e|] Hl; apply Httl in Hl; simpl; lia.
Qed.
End script.

(** ** Histories of one tracked entity

    [wk] is the entity's watermark key and [vk] the value key of one of its
    entries.  An invalidation with buffer [fb] ran at server time [t0] and
    carried the invalidator's clock reading [inv].  Afterwards anything can
    happen to the keyspace except that no one but the script touches [wk],
    and that the writes to [vk] are complete frames with the tracked physical
    TTL, dispatched with bounded delay and skew: a frame stamped [c] that
    executes at server time [ts] satisfies
    [ts - t0 <= (c - inv) + WATERMARK_TTL_MARGIN_MS]. *)
Section coherence.
  Context {S : Type} `{RedisStore S}.
  Context (wk vk : jsstr) (Hkeys : wk <> vk).
  Context (t0 inv fb : Z).

Definition disciplined (ts c : Z) : Prop := ts - t0 <= (c - inv) + WATERMARK_TTL_MARGIN_MS.

Inductive deploy_step : S * Z -> S * Z -> Prop :=
| ds_time s now now' : now <= now' -> deploy_step (s, now) (s, now')
| ds_write s now p c px f :
    encodeRedisFrame p c = Ok f -> 0 < px <= MAX_TRACKED_REDIS_VALUE_TTL_MS -> disciplined now c ->
    deploy_step (s, now) (rs_set s now vk f (Some px), now)
| ds_other s now k v px : k <> wk -> k <> vk -> deploy_step (s, now) (rs_set s now k v px, now)
| ds_invalidate s now a1 a2 ge : deploy_step (s, now) ((INVALIDATE_CACHE_SCRIPT s now wk a1 a2 ge).1, now).

(** What a tracked MGET returns for a key. *)
Definition mget_reply (s : S) (now : Z) (k : jsstr) : redis_reply :=
  match rs_lookup s now k with
  | Some (SString b, _) => ReplyBuffer b
  | _ => ReplyNull
  end.

(** The stored value is a frame whose expiry respects the discipline. *)
Definition value_disciplined (s : S) (now : Z) : Prop :=
  forall b e, rs_lookup s now vk = Some (SString b, e) ->
  exists p c ts x, encodeRedisFrame p c = Ok b /\ e = Some x /\
    x <= ts + MAX_TRACKED_REDIS_VALUE_TTL_MS /\ disciplined ts c.

(** A watermark at least [w] that lives at least until [e]. *)
Definition fence_holds (s : S) (now w : Z) (e : option Z) : Prop :=
  exists w' e', holds_watermark s now wk w' e' /\ w <= w' <= MAX_SAFE_INTEGER /\ expiry_le e e'.

(** A run of the script with any arguments either changes nothing or is an
    accepted run. *)
Lemma script_cases s now key a1 a2 ge :
  (INVALIDATE_CACHE_SCRIPT s now key a1 a2 ge).1 = s \/
  exists fb' inv', parse_safe_integer a1 = Some fb' /\ parse_safe_integer a2 = Some inv' /\
    fb' <= MAX_SUPPORTED_DURATION_MS /\ inv' + fb' <= MAX_SAFE_INTEGER /\ ge = None.
Proof.
  unfold INVALIDATE_CACHE_SCRIPT.
  destruct (parse_safe_integer a1) as [f|] eqn:E1; [|by left].
  destruct (Z.ltb_spec f 0); [by left|].
  destruct (Z.ltb_spec MAX_SUPPORTED_DURATION_MS f); [by left|]. cbn [orb].
  destruct (parse_safe_integer a2) as [i|] eqn:E2; [|by left].
  destruct (Z.ltb_spec (MAX_SAFE_INTEGER - f) i); [by left|].
  destruct ge; [by left|]. right. exists f, i. repeat split; lia || done.
Qed.

Lemma holds_current_watermark s now w e :
  0 <= w <= MAX_SAFE_INTEGER -> holds_watermark s now wk w e -> current_watermark s now wk = w.
Proof.
  intros Hw Hh. unfold current_watermark, redis_get. rewrite Hh. simpl.
  by rewrite parse_safe_integer_digits.
Qed.

Lemma expiry_le_trans a b c : expiry_le a b -> expiry_le b c -> expiry_le a c.
Proof. destruct a, b, c; simpl; try done; lia. Qed.

Lemma deploy_step_time st st' : deploy_step st st' -> st.2 <= st'.2.
Proof. destruct 1; simpl; lia. Qed.

(** Before its expiry, the fence survives every step. *)
Lemma deploy_step_fence s now s' now' w e :
  0 <= w -> deploy_step (s, now) (s', now') -> now' < e ->
  fence_holds s now w (Some e) -> fence_holds s' now' w (Some e).
Proof.
  intros Hw0 Hstep He (w1 & e1 & Hh & Hw & Hle). inv Hstep.
  - exists w1, e1. split; [|done]. eapply rs_lookup_stays; [exact Hh|done|].
    destruct e1; simpl in *; [lia|done].
  - exists w1, e1. split; [|done]. unfold holds_watermark. rewrite rs_lookup_set_other; [exact Hh|done|lia].
  - exists w1, e1. split; [|done]. unfold holds_watermark. rewrite rs_lookup_set_other; [exact Hh|done|lia].
  - destruct (script_cases s now' wk a1 a2 ge) as [->|(f & i & E1 & E2 & Hf & Hs & ->)]; [by exists w1, e1|].
    destruct (script_run s now' wk f i a1 a2 E1 E2 Hf Hs) as (e2 & s2 & -> & Hh2 & _ & _ & Hmono).
    specialize (Hmono _ _ Hh). rewrite (holds_current_watermark s now' w1 e1) in Hh2 by (done || lia).
    pose proof (parse_safe_integer_range _ _ E1). pose proof (parse_safe_integer_range _ _ E2).
    exists (Z.max w1 (i + f)), e2. split; [|split; [lia|by eapply expiry_le_trans]].
    apply Hh2; [lia|]. pose proof (expiry_le_trans _ _ _ Hle Hmono). destruct e2; simpl in *; [lia|done].
Qed.

Lemma deploy_steps_time st st' : rtc deploy_step st st' -> st.2 <= st'.2.
Proof. induction 1 as [|x y z Hs _ IH]; [lia|]. apply deploy_step_time in Hs. lia. Qed.

Lemma deploy_steps_fence st st' w e :
  0 <= w -> rtc deploy_step st st' -> st'.2 < e ->
  fence_holds st.1 st.2 w (Some e) -> fence_holds st'.1 st'.2 w (Some e).
Proof.
  intros Hw. induction 1 as [|[s1 n1] [s2 n2] [s3 n3] Hstep Hrtc IH]; [done|].
  intros He Hf. apply IH; [done|]. apply deploy_steps_time in Hrtc. simpl in *.
  eapply deploy_step_fence; [done|done|lia|done].
Qed.

(** Every step keeps the discipline of the stored value. *)
Lemma value_disciplined_step s now s' now' :
  deploy_step (s, now) (s', now') -> value_disciplined s now -> value_disciplined s' now'.
Proof.
  intros Hstep Hv b e Hl. inv Hstep.
  - eapply Hv, rs_lookup_earlier; done.
  - rewrite rs_lookup_set_same in Hl by lia. destruct (Z.ltb_spec now' (now' + px)); [|lia].
    injection Hl as <- <-. exists p, c, now', (now' + px). repeat split; [done|lia|done].
  - rewrite rs_lookup_set_other in Hl; [by apply Hv|done|lia].
  - destruct (script_cases s now' wk a1 a2 ge) as [E|(f & i & E1 & E2 & Hf & Hs & ->)].
    { rewrite E in Hl. by apply Hv. }
    destruct (script_run s now' wk f i a1 a2 E1 E2 Hf Hs) as (e2 & s2 & E & _ & Ho & _).
    rewrite E in Hl. simpl in Hl. rewrite Ho in Hl; [by apply Hv|done|lia].
Qed.

Lemma value_disciplined_steps st st' :
  rtc deploy_step st st' -> value_disciplined st.1 st.2 -> value_disciplined st'.1 st'.2.
Proof.
  induction 1 as [|[s1 n1] [s2 n2] st3 Hstep _ IH]; [done|].
  intros Hv. apply IH. by eapply value_disciplined_step.
Qed.

(** A frame at or below the watermark is a miss that carries it. *)
Lemma fenced_frame_miss p c f w :
  encodeRedisFrame p c = Ok f -> c <= w -> 0 <= w <= MAX_SAFE_INTEGER ->
  exists r, decodeTrackedRedisReadResult (ReplyBuffer f) (ReplyBuffer (digits w)) = Ok (RedisReadMiss r (Some w)).
Proof.
  intros [H1 H2]%encodeRedisFrame_stamp Hcw Hw.
  unfold decodeTrackedRedisReadResult, decodeTrackedFrame. simpl.
  rewrite parseRedisWatermark_digits by done. rewrite H1, H2. simpl.
  destruct (c =? 0); [eauto|]. destruct (Z.leb_spec c w); [eauto|lia].
Qed.

(** A value that can still be read expires no later than the fence. *)
Lemma disciplined_expiry ts c x w e :
  disciplined ts c -> x <= ts + MAX_TRACKED_REDIS_VALUE_TTL_MS -> c <= w ->
  expiry_le (Some (t0 + Z.max MIN_WATERMARK_TTL_MS
     (w - inv + MAX_TRACKED_REDIS_VALUE_TTL_MS + WATERMARK_TTL_MARGIN_MS))) e ->
  expiry_le (Some x) e.
Proof. unfold disciplined. destruct e; simpl; [lia|done]. Qed.

End coherence.

(** ** A concrete keyspace

    A finite map of values with absolute expiry times; it shows that the laws
    can hold together and makes histories executable. *)

Definition mem_store : Type := gmap jsstr (stored * option Z).

Definition mem_lookup (m : mem_store) (now : Z) (k : jsstr) : option (stored * option Z) :=
  match (m : gmap jsstr (stored * option Z)) !! k with
  | Some (v, Some e) => if now <? e then Some (v, Some e) else None
  | Some (v, None) => Some (v, None)
  | None => None
  end.

Definition mem_set (m : mem_store) (now : Z) (k : jsstr) (v : bytes) (px : option Z) : mem_store :=
  <[k := (SString v, (fun p => now + p) <$> px)]> (m : gmap jsstr (stored * option Z)).

#[export] Program Instance mem_RedisStore : RedisStore mem_store := {
  rs_lookup := mem_lookup;
  rs_set := mem_set;
}.
Next Obligation.
  intros m now now' k v px Hn. unfold mem_lookup, mem_set. rewrite lookup_insert_eq.
  by destruct px.
Qed.
Next Obligation.
  intros m now now' k k' v px Hk Hn. unfold mem_lookup, mem_set. by rewrite lookup_insert_ne.
Qed.
Next Obligation.
  intros m now k v e. unfold mem_lookup. repeat case_match; try done.
  intros [= -> ->]. lia.
Qed.
Next Obligation.
  intros m now now' k v e. unfold mem_lookup. repeat case_match; naive_solver lia.
Qed.
Next Obligation.
  intros m now now' k x. unfold mem_lookup. repeat case_match; naive_solver lia.
Qed.

(** ** Properties *)

(** C8. An accepted invalidation sets the watermark to the maximum of the
    previous one and the invalidator's clock plus the buffer, leaves every
    other key alone, never shortens the watermark's lifetime (a persistent
    watermark stays persistent), and keeps it long enough to outlive the
    fenced window by one hour and the margin.  A rejected one changes
    nothing. *)
Theorem invalidation_advances_watermark {S} `{RedisStore S} (s : S) now key fb inv :
  0 <= fb <= MAX_SUPPORTED_DURATION_MS -> 0 <= inv -> inv + fb <= MAX_SAFE_INTEGER ->
  let '(a1, a2) := buildRedisInvalidationScriptArguments fb inv in
  let w := Z.max (current_watermark s now key) (inv + fb) in
  exists s' e,
    INVALIDATE_CACHE_SCRIPT s now key a1 a2 None = (s', Ok (ReplyInteger 1)) /\
    rs_lookup s' now key = Some (SString (digits w), e) /\
    (forall k, k <> key -> rs_lookup s' now k = rs_lookup s now k) /\
    expiry_le (Some (now + Z.max MIN_WATERMARK_TTL_MS
      (w - inv + MAX_TRACKED_REDIS_VALUE_TTL_MS + WATERMARK_TTL_MARGIN_MS))) e /\
    (forall b e0, rs_lookup s now key = Some (SString b, e0) -> expiry_le e0 e) /\
    (forall err, INVALIDATE_CACHE_SCRIPT s now key a1 a2 (Some err) = (s, Err err)).
Proof.
  intros Hf Hi Hs. pose proof (script_arguments fb inv Hf Hi Hs) as HA.
  destruct (buildRedisInvalidationScriptArguments fb inv) as [a1 a2]. destruct HA as [E1 E2]. intros w.
  destruct (script_run s now key fb inv a1 a2 E1 E2) as (e & s' & E & Hh & Ho & Hle & Hmono); [lia..|].
  exists s', e. split; [done|]. split; [|split; [|split; [done|split; [done|]]]].
  - apply Hh; [lia|]. fold w in Hle. destruct e; simpl in *; [|done].
    unfold MIN_WATERMARK_TTL_MS in *. duration_lia.
  - intros k Hk. by apply Ho.
  - intros err. unfold INVALIDATE_CACHE_SCRIPT. rewrite E1, E2.
    destruct (Z.ltb_spec fb 0); [lia|]. destruct (Z.ltb_spec MAX_SUPPORTED_DURATION_MS fb); [lia|].
    cbn [orb]. by destruct (Z.ltb_spec (MAX_SAFE_INTEGER - fb) inv); [lia|].
Qed.

Lemma invalidation_advances_watermark_witness :
  exists s' e, rs_lookup (RedisStore := mem_RedisStore) s' 5 (js "w") = Some (SString (digits 1250), e).
Proof.
  destruct (invalidation_advances_watermark (H := mem_RedisStore) (∅ : mem_store) 5 (js "w") 250 1000)
    as (s' & e & _ & Hl & _); [vm_compute; split; discriminate|lia|vm_compute; discriminate|].
  exists s', e. exact Hl.
Defined.

(** C1. The tracked-read fence: take any history that starts with an accepted
    invalidation at server time [t0] (invalidator clock [inv], buffer [fb]),
    in which only the script touches the watermark and every frame of the
    value key, stored before or written later, obeys the skew and delay bound
    [disciplined].  Whenever, in the state reached, the value key holds a
    frame stamped at or before [inv + fb], reading it together with the
    watermark is a miss, and the watermark read is at least [inv + fb].  What
    is fenced is the stamp, by the writer's clock, and not the moment of the
    write: a frame of a writer whose clock leads the invalidator's by more
    than the buffer is stamped later and is outside this theorem, as
    [docs/invalidation.md] warns under "Choosing futureBufferMs". *)
Theorem invalidated_frame_never_served {S} `{RedisStore S} (wk vk : jsstr) (s0 : S) t0 inv fb st p c f e :
  wk <> vk -> 0 <= fb <= MAX_SUPPORTED_DURATION_MS -> 0 <= inv -> inv + fb <= MAX_SAFE_INTEGER ->
  value_disciplined vk t0 inv s0 t0 ->
  let '(a1, a2) := buildRedisInvalidationScriptArguments fb inv in
  rtc (deploy_step wk vk t0 inv) ((INVALIDATE_CACHE_SCRIPT s0 t0 wk a1 a2 None).1, t0) st ->
  rs_lookup st.1 st.2 vk = Some (SString f, e) -> encodeRedisFrame p c = Ok f -> c <= inv + fb ->
  exists r w, decodeTrackedRedisReadResult (mget_reply st.1 st.2 vk) (mget_reply st.1 st.2 wk) =
    Ok (RedisReadMiss r (Some w)) /\ inv + fb <= w.
Proof.
  intros Hk Hf Hi Hs Hv0. pose proof (script_arguments fb inv Hf Hi Hs) as HA.
  destruct (buildRedisInvalidationScriptArguments fb inv) as [a1 a2]. destruct HA as [E1 E2].
  destruct (script_run s0 t0 wk fb inv a1 a2 E1 E2) as (e1 & s1 & E & Hh & Ho & Hle & _); [lia..|].
  rewrite E. simpl. intros Hrtc Hl Hp Hc.
  pose proof (current_watermark_range s0 t0 wk) as Hcw.
  set (w := Z.max (current_watermark s0 t0 wk) (inv + fb)) in *.
  assert (value_disciplined vk t0 inv s1 t0) as Hv1.
  { intros b x Hb. rewrite Ho in Hb by (done || lia). by apply Hv0. }
  destruct (value_disciplined_steps wk vk Hk t0 inv _ _ Hrtc Hv1 _ _ Hl) as (p' & c' & ts & x & Hp' & -> & Hx & Hts).
  assert (c' = c) as ->.
  { apply encodeRedisFrame_stamp in Hp as [_ <-], Hp' as [_ <-]. done. }
  pose proof (rs_lookup_live _ _ _ _ _ Hl) as Hlive.
  pose proof (disciplined_expiry t0 inv ts c x w e1 Hts Hx ltac:(lia) Hle) as Hxe.
  assert (fence_holds wk st.1 st.2 w (Some x)) as (w' & e' & Hw' & Hww & _).
  { apply (deploy_steps_fence wk vk Hk t0 inv (s1, t0) st); [lia|done|done|].
    exists w, e1. split; [|split; [lia|done]]. apply Hh; simpl; [lia|].
    destruct e1; simpl in *; [|done]. unfold MIN_WATERMARK_TTL_MS in *. duration_lia. }
  destruct (fenced_frame_miss p c f w' Hp) as [r Hr]; [lia..|].
  exists r, w'. split; [|lia]. unfold mget_reply. rewrite Hl, Hw'. done.
Qed.

(** One frame stamped before the invalidation was written after it. *)
Definition sample_frame_bytes : bytes := 1 :: be_bytes 8 900 ++ [1; 7].

Definition sample_history : mem_store :=
  rs_set (RedisStore := mem_RedisStore)
    (INVALIDATE_CACHE_SCRIPT (H := mem_RedisStore) (∅ : mem_store) 5 (js "w") (js "250") (js "1000") None).1
    5 (js "v") sample_frame_bytes (Some 60000).

Lemma invalidated_frame_never_served_witness :
  exists r w, decodeTrackedRedisReadResult (mget_reply (H := mem_RedisStore) sample_history 5 (js "v"))
    (mget_reply (H := mem_RedisStore) sample_history 5 (js "w")) = Ok (RedisReadMiss r (Some w)) /\ 1250 <= w.
Proof.
  refine (invalidated_frame_never_served (H := mem_RedisStore) (js "w") (js "v") (∅ : mem_store) 5 1000 250
    (sample_history, 5) (PBuffer [7]) 900 sample_frame_bytes (Some 60005) _ _ _ _ _ _ _ _ _).
  - vm_compute. discriminate.
  - vm_compute. split; discriminate.
  - lia.
  - vm_compute. discriminate.
  - intros b e Hl. vm_compute in Hl. discriminate Hl.
  - apply rtc_once. apply (ds_write (js "w") (js "v") 5 1000 _ 5 (PBuffer [7]) 900 60000).
    + vm_compute. reflexivity.
    + vm_compute. split; [reflexivity|discriminate].
    + vm_compute. discriminate.
  - vm_compute. reflexivity.
  - vm_compute. reflexivity.
  - lia.
Defined.
