(* ===== verification/Compression.v ===== *)
(** * The payload envelope

    [internal/compression.ts]: write-side compression with a one-byte marker,
    the escape prefix that keeps raw binary output distinguishable from a
    marker, and the read side that reverses both.  zstd itself is Node's
    [node:zlib]: the class [Zstd] holds the two calls the code makes and the
    documented fact it relies on, that a compressed buffer decompresses to
    the original when that fits the output limit. *)

From S2P Require Import Prelude JsValue Duration Utf8 Config Key Metrics Frame.

Inductive zstd_error := ERR_BUFFER_TOO_LARGE | ZstdRejected.

Class Zstd := {
  zstdCompressSync : Z -> bytes -> res bytes;
  zstdDecompressSync : bytes -> Z -> result zstd_error bytes;
}.

Class ZstdLaws `{Zstd} : Prop := {
  zstd_roundtrip level b c limit :
    zstdCompressSync level b = Ok c -> Z.of_nat (length b) <= limit ->
    zstdDecompressSync c limit = Ok b;
}.

Definition MARKER_ESCAPED_RAW : Z := 0.
Definition MARKER_ZSTD_UTF8 : Z := 1.
Definition MARKER_ZSTD_BINARY : Z := 2.
Definition DEFAULT_COMPRESSION_THRESHOLD_BYTES : Z := 4096.
Definition DEFAULT_ZSTD_LEVEL : Z := 3.
Definition MAX_DECOMPRESSED_BYTES : Z := 512 * 1024 * 1024.

Record CompressionConfig := { thresholdBytes : Z; level : Z }.

Inductive CompressionReadOutcome := cr_passthrough | cr_decompressed | cr_fallback_raw | cr_read_over_limit.

Record CompressPayloadResult := {
  cp_payload : RedisCachePayload;
  cp_outcome : CompressionOutcome;
  originalBytes : Z;
  storedBytes : Z;
}.

(** ** Policy *)

(** [supported] says whether the runtime's [node:zlib] has zstd. *)
Definition resolveCompressionConfig (supported : bool) (config : jsval) : res (option CompressionConfig) :=
  if is_bool config false then Ok None
  else
    _ ← throw_if (negb (is_undefined config) && (is_null config || negb (typeof_object config)))
          (TypeError "RedisConfig.compression must be an options object, false, or undefined");
    threshold ←
      match nullish (prop config "thresholdBytes") (JInt DEFAULT_COMPRESSION_THRESHOLD_BYTES) with
      | JNum n => match isSafeInteger n with
                  | Some z => if z <=? 0 then Err (TypeError "RedisConfig.compression.thresholdBytes must be a positive safe integer")
                              else Ok z
                  | None => Err (TypeError "RedisConfig.compression.thresholdBytes must be a positive safe integer")
                  end
      | _ => Err (TypeError "RedisConfig.compression.thresholdBytes must be a positive safe integer")
      end;
    lvl ←
      match nullish (prop config "level") (JInt DEFAULT_ZSTD_LEVEL) with
      | JNum n => match isSafeInteger n with
                  | Some z => if (z <? 1) || (22 <? z) then Err (TypeError "RedisConfig.compression.level must be an integer between 1 and 22")
                              else Ok z
                  | None => Err (TypeError "RedisConfig.compression.level must be an integer between 1 and 22")
                  end
      | _ => Err (TypeError "RedisConfig.compression.level must be an integer between 1 and 22")
      end;
    _ ← throw_if (negb supported) (TypeError "RedisConfig.compression requires zstd support in node:zlib (Node >= 22.15.0 or >= 23.8.0); set compression: false on older runtimes");
    Ok (Some {| thresholdBytes := threshold; level := lvl |}).

(** ** Writing *)

Definition escapeRawPayload (p : RedisCachePayload) : RedisCachePayload :=
  match p with
  | PString _ => p
  | PBuffer [] => p
  | PBuffer ((first :: _) as b) =>
      if MARKER_ZSTD_BINARY <? first then p else PBuffer (MARKER_ESCAPED_RAW :: b)
  end.

Definition rawResult (p : RedisCachePayload) (outcome : CompressionOutcome) (original : Z) :
    CompressPayloadResult :=
  let escaped := escapeRawPayload p in
  {| cp_payload := escaped; cp_outcome := outcome; originalBytes := original;
     storedBytes := match escaped with PBuffer b => Z.of_nat (length b) | PString _ => original end |}.

(** The bytes of a payload: what [Buffer.from(payload, "utf8")] gives for a
    string. *)
Definition payload_bytes (p : RedisCachePayload) : bytes :=
  match p with PBuffer b => b | PString s => utf8_encode s end.

(** [payloadSize], also the [originalBytes] of [compressPayload]. *)
Definition payloadSize (p : RedisCachePayload) : Z := Z.of_nat (length (payload_bytes p)).

Section zstd.
  Context `{Zstd}.

Definition compressPayload (p : RedisCachePayload) (config : CompressionConfig)
    (maxDecompressedBytes : Z) : res CompressPayloadResult :=
  let original := payloadSize p in
  if original <? thresholdBytes config then Ok (rawResult p co_below_threshold original)
  else if maxDecompressedBytes <? original then Ok (rawResult p co_write_over_limit original)
  else
    compressed ← zstdCompressSync (level config) (payload_bytes p);
    let raw := rawResult p co_not_smaller original in
    let markedBytes := 1 + Z.of_nat (length compressed) in
    if storedBytes raw <=? markedBytes then Ok raw
    else
      let marker := match p with PBuffer _ => MARKER_ZSTD_BINARY | PString _ => MARKER_ZSTD_UTF8 end in
      Ok {| cp_payload := PBuffer (marker :: compressed); cp_outcome := co_compressed;
            originalBytes := original; storedBytes := markedBytes |}.

(** ** Reading *)

Definition decompressPayload (p : RedisCachePayload) (maxDecompressedBytes : Z) :
    RedisCachePayload * CompressionReadOutcome :=
  match p with
  | PString _ => (p, cr_passthrough)
  | PBuffer [] => (p, cr_passthrough)
  | PBuffer (marker :: rest) =>
      if marker =? MARKER_ESCAPED_RAW then
        match rest with
        | next :: _ => if next <=? MARKER_ZSTD_BINARY then (PBuffer rest, cr_passthrough) else (p, cr_passthrough)
        | [] => (p, cr_passthrough)
        end
      else if negb (marker =? MARKER_ZSTD_UTF8) && negb (marker =? MARKER_ZSTD_BINARY) then (p, cr_passthrough)
      else
        match zstdDecompressSync rest maxDecompressedBytes with
        | Err ERR_BUFFER_TOO_LARGE => (p, cr_read_over_limit)
        | Err ZstdRejected => (p, cr_fallback_raw)
        | Ok decompressed =>
            (if marker =? MARKER_ZSTD_UTF8 then PString (utf8_decode decompressed) else PBuffer decompressed,
             cr_decompressed)
        end
  end.

(** What a write stores: [compressPayload] under a policy, the escape alone
    when compression is off. *)
Definition stored_payload (policy : option CompressionConfig) (p : RedisCachePayload) : res RedisCachePayload :=
  match policy with
  | Some config => c ← compressPayload p config MAX_DECOMPRESSED_BYTES; Ok (cp_payload c)
  | None => Ok (escapeRawPayload p)
  end.

(** ** Lemmas *)

Lemma escape_unescape p limit :
  (forall b, p = PBuffer b -> Forall is_byte b) -> decompressPayload (escapeRawPayload p) limit = (p, cr_passthrough).
Proof.
  intros Hp. destruct p as [s|[|first b]]; [done..|]. specialize (Hp _ eq_refl).
  apply Forall_cons_1 in Hp as [Hf _]. unfold is_byte in Hf. simpl. unfold MARKER_ZSTD_BINARY.
  destruct (Z.ltb_spec 2 first); simpl.
  - unfold MARKER_ESCAPED_RAW, MARKER_ZSTD_UTF8, MARKER_ZSTD_BINARY.
    destruct (Z.eqb_spec first 0), (Z.eqb_spec first 1), (Z.eqb_spec first 2); lia || done.
  - destruct (Z.leb_spec first MARKER_ZSTD_BINARY); [done|unfold MARKER_ZSTD_BINARY in *; lia].
Qed.

(** The four outcomes of a write, with the payload each one stores. *)
Lemma compressPayload_cases p config limit c :
  compressPayload p config limit = Ok c ->
  (cp_payload c = escapeRawPayload p /\ cp_outcome c <> co_compressed) \/
  (cp_outcome c = co_compressed /\ payloadSize p <= limit /\
   exists z, zstdCompressSync (level config) (payload_bytes p) = Ok z /\
     1 + Z.of_nat (length z) < payloadSize (escapeRawPayload p) /\
     cp_payload c = PBuffer (match p with PBuffer _ => MARKER_ZSTD_BINARY | PString _ => MARKER_ZSTD_UTF8 end :: z)).
Proof.
  unfold compressPayload.
  destruct (payloadSize p <? thresholdBytes config); [intros [= <-]; by left|].
  destruct (Z.ltb_spec limit (payloadSize p)); [intros [= <-]; by left|].
  intros Hc. apply result_bind_ok in Hc as (z & Hz & Hc). revert Hc.
  destruct (Z.leb_spec (storedBytes (rawResult p co_not_smaller (payloadSize p))) (1 + Z.of_nat (length z)));
    intros [= <-]; [by left|right].
  split; [done|]. split; [done|]. exists z. split; [done|]. split; [|done].
  eapply Z.lt_le_trans; [done|]. unfold rawResult. simpl. destruct p as [s|[|f b]]; simpl; try done.
  destruct (MARKER_ZSTD_BINARY <? f); unfold payloadSize; simpl; lia.
Qed.

(** A compressed payload decompresses to the original bytes. *)
Lemma decompress_compressed `{!ZstdLaws} p lvl z limit :
  payload_ok p -> zstdCompressSync lvl (payload_bytes p) = Ok z -> payloadSize p <= limit ->
  decompressPayload (PBuffer (match p with PBuffer _ => MARKER_ZSTD_BINARY | PString _ => MARKER_ZSTD_UTF8 end :: z)) limit
  = (p, cr_decompressed).
Proof.
  intros Hp Hz Hl. destruct p as [s|b]; simpl in *.
  - rewrite (zstd_roundtrip _ _ _ _ Hz Hl). destruct Hp. by rewrite utf8_decode_encode.
  - by rewrite (zstd_roundtrip _ _ _ _ Hz Hl).
Qed.
End zstd.

(** ** A concrete codec

    Runs of one byte are stored as the byte and a four-byte count; anything
    else is stored as it is.  It satisfies the law and shrinks runs. *)

Definition toy_run (b : bytes) : option (Z * Z) :=
  match b with
  | x :: _ =>
      let n := length b in
      if bool_decide (b = replicate n x) && (Z.of_nat n <? 2 ^ 32) then Some (x, Z.of_nat n) else None
  | [] => None
  end.

Definition toy_compress (b : bytes) : bytes :=
  match toy_run b with Some (x, n) => 1 :: x :: be_bytes 4 n | None => 0 :: b end.

Definition toy_decompress (c : bytes) : option bytes :=
  match c with
  | 0 :: b => Some b
  | 1 :: x :: n => Some (replicate (Z.to_nat (be_value n)) x)
  | _ => None
  end.

Definition toy_zstd : Zstd := {|
  zstdCompressSync _ b := Ok (toy_compress b);
  zstdDecompressSync c limit :=
    match toy_decompress c with
    | None => Err ZstdRejected
    | Some b => if limit <? Z.of_nat (length b) then Err ERR_BUFFER_TOO_LARGE else Ok b
    end;
|}.

Lemma toy_decompress_compress b : toy_decompress (toy_compress b) = Some b.
Proof.
  unfold toy_compress. destruct (toy_run b) as [[x n]|] eqn:E; [|done].
  assert (b = replicate (length b) x /\ n = Z.of_nat (length b) /\ n < 2 ^ 32) as (Hb & -> & Hn).
  { destruct b as [|y b]; [done|]. unfold toy_run in E.
    destruct (bool_decide _) eqn:Ed; [|done]. apply bool_decide_eq_true in Ed. simpl in E.
    destruct (Z.ltb_spec (Z.of_nat (S (length b))) (2 ^ 32)); [|done].
    injection E as -> <-. split; [exact Ed|]. split; [done|]. assumption. }
  cbn [toy_decompress]. rewrite be_value_bytes by lia. by rewrite Nat2Z.id, <- Hb.
Qed.

Lemma toy_zstd_laws : @ZstdLaws toy_zstd.
Proof.
  constructor. intros lvl b c limit [= <-] Hl. simpl. rewrite toy_decompress_compress.
  by destruct (Z.ltb_spec limit (Z.of_nat (length b))); [lia|].
Qed.

(** What a write stores is read back as it was. *)
Lemma stored_payload_decompress `{Zstd} `{!ZstdLaws} policy p stored :
  payload_ok p -> (forall b, p = PBuffer b -> Forall is_byte b) ->
  stored_payload policy p = Ok stored ->
  (decompressPayload stored MAX_DECOMPRESSED_BYTES).1 = p.
Proof.
  intros Hp Hb Hs. destruct policy as [config|]; simpl in Hs.
  - apply result_bind_ok in Hs as (c & Hc & [= <-]).
    apply compressPayload_cases in Hc as [[-> _]|(_ & Hl & z & Hz & _ & ->)].
    + by rewrite escape_unescape.
    + by rewrite (decompress_compressed p _ z _ Hp Hz Hl).
  - injection Hs as <-. by rewrite escape_unescape.
Qed.

(** The stored payload survives the wire too. *)
Lemma stored_payload_ok `{Zstd} policy p stored :
  payload_ok p -> stored_payload policy p = Ok stored -> payload_ok stored.
Proof.
  assert (payload_ok p -> payload_ok (escapeRawPayload p)) as He.
  { destruct p as [s|[|f b]]; simpl; try done. by case_match. }
  intros Hp Hs. destruct policy as [config|]; simpl in Hs; [|injection Hs as <-; by apply He].
  apply result_bind_ok in Hs as (c & Hc & [= <-]).
  apply compressPayload_cases in Hc as [[-> _]|(_ & _ & z & _ & _ & ->)]; [by apply He|done].
Qed.

(** ** Properties *)

(** Envelope round trip: whatever the policy, what a write stores is read
    back as the serializer's output: every string whose surrogates are paired
    and every byte buffer, whether it was compressed, kept raw because it was
    small, too large or incompressible, or escaped. *)
Theorem envelope_roundtrip `{Zstd} `{!ZstdLaws} policy p stored :
  payload_ok p -> (forall b, p = PBuffer b -> Forall is_byte b) ->
  stored_payload policy p = Ok stored ->
  (decompressPayload stored MAX_DECOMPRESSED_BYTES).1 = p.
Proof. apply stored_payload_decompress. Qed.

Lemma envelope_roundtrip_witness :
  exists stored, @stored_payload toy_zstd (Some {| thresholdBytes := 4; level := 3 |}) (PBuffer (replicate 40 2)) = Ok stored /\
    (@decompressPayload toy_zstd stored MAX_DECOMPRESSED_BYTES).1 = PBuffer (replicate 40 2).
Proof.
  eexists. split; [vm_compute; reflexivity|].
  apply (@envelope_roundtrip toy_zstd toy_zstd_laws (Some {| thresholdBytes := 4; level := 3 |})).
  - exact I.
  - intros b [= <-]. repeat constructor; done.
  - vm_compute. reflexivity.
Defined.

(** Compression never enlarges a stored value: the stored payload is at
    most one byte (the escape prefix) longer than the serializer's output,
    and strictly shorter than the raw form whenever the outcome is
    [compressed].  A value above the decompression limit is never stored
    compressed. *)
Theorem stored_payload_bounded `{Zstd} p config limit c :
  compressPayload p config limit = Ok c ->
  payloadSize (cp_payload c) <= payloadSize p + 1 /\
  (cp_outcome c = co_compressed ->
     payloadSize (cp_payload c) < payloadSize (escapeRawPayload p) /\ payloadSize p <= limit).
Proof.
  assert (payloadSize (escapeRawPayload p) <= payloadSize p + 1) as He.
  { destruct p as [s|[|f b]]; simpl; unfold payloadSize; try (simpl; lia). case_match; simpl; lia. }
  intros [[-> Hn]|(Ho & Hl & z & Hz & Hlt & ->)]%compressPayload_cases; [by split|].
  unfold payloadSize at 1 3. simpl. split; [lia|]. intros _. split; [lia|done].
Qed.

Lemma stored_payload_bounded_witness :
  exists c, @compressPayload toy_zstd (PBuffer (replicate 40 2)) {| thresholdBytes := 4; level := 3 |} 1000 = Ok c /\
    payloadSize (cp_payload c) < 41.
Proof.
  eexists. split; [vm_compute; reflexivity|].
  apply (@stored_payload_bounded toy_zstd (PBuffer (replicate 40 2)) {| thresholdBytes := 4; level := 3 |} 1000);
    vm_compute; reflexivity.
Defined.
