(* ===== verification/Json.v ===== *)
(** * JSON text

    The two standard-library functions the default serializer and the
    mismatch log call, [JSON.stringify] and [JSON.parse], on the values of
    [JsValue]: number text as [Number::toString] prints it (the shortest
    decimal that reads back as the same double), string quotation with its
    escapes, the dropped and nulled members, and a parser that accepts the
    whole grammar, with white space, escapes and repeated member names. *)

From S2P Require Import Prelude JsValue Duration Utf8 Config Key Metrics Frame.

(** Rationals are compared as the reduced fractions the parser builds. *)
#[export] Instance Q_eq_dec : EqDecision Q.
Proof. intros [a b] [c d]. unfold Decision. decide equality; solve_decision. Defined.

(** ** Decimal text to doubles *)

(** [n / d] rounded to the nearest integer, ties to even. *)
Definition round_half_even (n d : Z) : Z :=
  let m := n / d in
  let r := n mod d in
  if (d <? 2 * r) || ((2 * r =? d) && Z.odd m) then m + 1 else m.

Definition shift_up (x e : Z) : Z := if 0 <=? e then x * 2 ^ e else x.

(** The exponent [e] with [2^e <= n/d < 2^(e+1)]. *)
Definition ratio_log2 (n d : Z) : Z :=
  let e := Z.log2 n - Z.log2 d in
  if shift_up n (- e) <? shift_up d e then e - 1 else e.

(** The double nearest to [n / d], for [0 < n] and [0 < d]: 53 significant
    bits, fewer below the smallest normal exponent, infinite from [2^1024]. *)
Definition round_double (negative : bool) (n d : Z) : number :=
  let u := Z.max (ratio_log2 n d - 52) (-1074) in
  let m := round_half_even (shift_up n (- u)) (shift_up d u) in
  let v := shift_up m u in
  if (0 <=? u) && (2 ^ 1024 <=? v) then Infinity negative
  else Fin (Qred (Qmake (if negative then - v else v) (Z.to_pos (shift_up 1 (- u))))).

(** The longest prefix whose elements satisfy [p], and the rest. *)
Fixpoint span (p : Z -> bool) (s : jsstr) : jsstr * jsstr :=
  match s with
  | c :: r => if p c then let '(a, b) := span p r in (c :: a, b) else ([], s)
  | [] => ([], [])
  end.

(** The rest of a string after the code unit [c], when it starts with it. *)
Definition strip (c : Z) (s : jsstr) : option jsstr :=
  match s with
  | x :: r => if x =? c then Some r else None
  | [] => None
  end.

(** One or more digits. *)
Definition parse_digits (s : jsstr) : option (jsstr * jsstr) :=
  match span is_digit s with
  | ([], _) => None
  | (ds, rest) => Some (ds, rest)
  end.

(** The integer part has no leading zero. *)
Definition parse_int_part (s : jsstr) : option (jsstr * jsstr) :=
  '(ds, rest) ← parse_digits s;
  match strip 48 ds with
  | Some (_ :: _) => None
  | _ => Some (ds, rest)
  end.

Definition parse_fraction (s : jsstr) : option (jsstr * jsstr) :=
  match strip 46 s with
  | Some r => parse_digits r
  | None => Some ([], s)
  end.

Definition parse_sign (s : jsstr) : bool * jsstr :=
  match strip 43 s, strip 45 s with
  | Some r, _ => (false, r)
  | None, Some r => (true, r)
  | None, None => (false, s)
  end.

(** An optional exponent, at the end of the token. *)
Definition parse_exponent (s : jsstr) : option Z :=
  match s with
  | [] => Some 0
  | c :: r =>
      if (c =? 101) || (c =? 69) then
        let '(negative, r) := parse_sign r in
        '(ds, rest) ← parse_digits r;
        if bool_decide (rest = []) then
          Some (if negative then - digits_value ds else digits_value ds)
        else None
      else None
  end.

(** The number a complete number token denotes.  The two zeros are one
    number. *)
Definition parse_number (s : jsstr) : option number :=
  let '(negative, s) := match strip 45 s with Some r => (true, r) | None => (false, s) end in
  '(int, s) ← parse_int_part s;
  '(frac, s) ← parse_fraction s;
  exp ← parse_exponent s;
  let mantissa := digits_value (int ++ frac) in
  let scale := exp - Z.of_nat (length frac) in
  Some (if mantissa =? 0 then of_Z 0
        else if 0 <=? scale then round_double negative (mantissa * 10 ^ scale) 1
        else round_double negative mantissa (10 ^ (- scale))).

(** ** Doubles to decimal text *)

Definition zeros (n : Z) : jsstr := replicate (Z.to_nat n) 48.

(** [Number::toString] on the digits [ds] of the significand and the decimal
    exponent [n]: the value is [0.ds * 10^n]. *)
Definition number_layout (ds : jsstr) (n : Z) : jsstr :=
  let k := Z.of_nat (length ds) in
  if (k <=? n) && (n <=? 21) then ds ++ zeros (n - k)
  else if (0 <? n) && (n <=? 21) then take (Z.to_nat n) ds ++ 46 :: drop (Z.to_nat n) ds
  else if (-6 <? n) && (n <=? 0) then js "0." ++ zeros (- n) ++ ds
  else
    let e := n - 1 in
    let exponent := 101 :: (if e <? 0 then 45 else 43) :: digits (Z.abs e) in
    match ds with
    | [d] => d :: exponent
    | d :: r => d :: 46 :: r ++ exponent
    | [] => exponent
    end.

(** [10^n <= x < 10^(n+1)] for [x = n0 / d0]. *)
Definition ratio_log10 (n d : Z) : Z :=
  let ge e := if 0 <=? e then d * 10 ^ e <=? n else d <=? n * 10 ^ (- e) in
  let g := (ratio_log2 n d * 30103) / 100000 in
  if ge (g + 1) then g + 1 else if ge g then g else g - 1.

(** The decimals with [k] significant digits on both sides of [n / d], the
    nearer one first, as (digits, exponent). *)
Definition decimals_near (n d : Z) (k : Z) : list (jsstr * Z) :=
  let e := ratio_log10 n d + 1 in
  let sc := k - e in
  let n' := if 0 <=? sc then n * 10 ^ sc else n in
  let d' := if 0 <=? sc then d else d * 10 ^ (- sc) in
  let s := n' / d' in
  let dec s := if s =? 10 ^ k then (digits (10 ^ (k - 1)), e + 1) else (digits s, e) in
  if 2 * (n' mod d') <=? d' then [dec s; dec (s + 1)] else [dec (s + 1); dec s].

Definition signed (negative : bool) (t : jsstr) : jsstr := if negative then 45 :: t else t.

(** Candidate texts of a nonzero number, the shortest significand first.
    Seventeen digits identify every double. *)
Definition number_candidates (q : Q) : list jsstr :=
  let n := Z.abs (Qnum q) in
  let d := Zpos (Qden q) in
  k ← Z.of_nat <$> seq 1 17;
  '(ds, e) ← decimals_near n d k;
  [signed (Qnum q <? 0) (number_layout ds e)].

Definition reads_as (q : Q) (t : jsstr) : bool :=
  match parse_number t with
  | Some (Fin r) => bool_decide (r = q)
  | _ => false
  end.

(** The text of a number: the first candidate that reads back as it. *)
Definition number_text (q : Q) : option jsstr :=
  if Qnum q =? 0 then (if reads_as q (js "0") then Some (js "0") else None)
  else List.find (reads_as q) (number_candidates q).

(** The finite values a JavaScript number can have: those with a text. *)
Definition is_double (q : Q) : bool :=
  match number_text q with Some _ => true | None => false end.

Definition Number_toString (q : Q) : jsstr := default [] (number_text q).

(** ** [JSON.stringify] *)

(** Lower-case hexadecimal, four digits. *)
Definition hex_lower (n : Z) : Z := if n <? 10 then 48 + n else 87 + n.

Definition unicode_escape (c : Z) : jsstr :=
  [92; 117; hex_lower (c / 4096); hex_lower ((c / 256) mod 16); hex_lower ((c / 16) mod 16); hex_lower (c mod 16)].

Definition quote_point (c : Z) : jsstr :=
  if c =? 8 then [92; 98]
  else if c =? 9 then [92; 116]
  else if c =? 10 then [92; 110]
  else if c =? 12 then [92; 102]
  else if c =? 13 then [92; 114]
  else if c =? 34 then [92; 34]
  else if c =? 92 then [92; 92]
  else if (c <? 32) || is_surrogate c then unicode_escape c
  else units_of c.

Definition QuoteJSONString (s : jsstr) : jsstr := 34 :: (code_points s ≫= quote_point) ++ [34].

Fixpoint join (sep : jsstr) (l : list jsstr) : jsstr :=
  match l with
  | [] => []
  | [x] => x
  | x :: r => x ++ sep ++ join sep r
  end.

(** [SerializeJSONProperty] on a value without [toJSON] methods; [None] is
    [undefined]. *)
Fixpoint SerializeJSONProperty (v : jsval) : option jsstr :=
  match v with
  | JUndefined | JFun => None
  | JNull => Some (js "null")
  | JBool b => Some (js (if b then "true" else "false"))
  | JNum (Fin q) => Some (Number_toString q)
  | JNum _ => Some (js "null")
  | JStr s => Some (QuoteJSONString s)
  | JArr items =>
      Some ([91] ++ join [44] (List.map (fun x => default (js "null") (SerializeJSONProperty x)) items) ++ [93])
  | JObj members =>
      Some ([123] ++
            join [44] (flat_map (fun '(name, x) =>
                                   match SerializeJSONProperty x with
                                   | Some t => [QuoteJSONString name ++ 58 :: t]
                                   | None => []
                                   end) members) ++ [125])
  end.

(** Whether serialization reaches an object with a [toJSON] method. *)
Fixpoint calls_toJSON (v : jsval) : bool :=
  match v with
  | JArr items => existsb calls_toJSON items
  | JObj members =>
      (match assoc (js "toJSON") members with Some JFun => true | _ => false end)
      || existsb (fun '(_, x) => calls_toJSON x) members
  | _ => false
  end.

(** [app] is what [JSON.stringify] does when it runs application code. *)
Definition JSON_stringify (app : jsval -> res (option jsstr)) (v : jsval) : res (option jsstr) :=
  if calls_toJSON v then app v else Ok (SerializeJSONProperty v).

(** ** [JSON.parse] *)

Definition is_space (c : Z) : bool := (c =? 32) || (c =? 9) || (c =? 10) || (c =? 13).

Fixpoint skip_ws (s : jsstr) : jsstr :=
  match s with
  | c :: r => if is_space c then skip_ws r else s
  | [] => []
  end.

Definition hex_digit_value (c : Z) : option Z :=
  if is_digit c then Some (c - 48)
  else if (97 <=? c) && (c <=? 102) then Some (c - 87)
  else if (65 <=? c) && (c <=? 70) then Some (c - 55)
  else None.

Definition simple_escape (c : Z) : option Z :=
  if (c =? 34) || (c =? 92) || (c =? 47) then Some c
  else if c =? 98 then Some 8
  else if c =? 102 then Some 12
  else if c =? 110 then Some 10
  else if c =? 114 then Some 13
  else if c =? 116 then Some 9
  else None.

Definition unicode_value (a b c d : Z) : option Z :=
  a ← hex_digit_value a; b ← hex_digit_value b; c ← hex_digit_value c; d ← hex_digit_value d;
  Some (a * 4096 + b * 256 + c * 16 + d).

Definition push {B} (c : Z) (r : option (jsstr * B)) : option (jsstr * B) :=
  '(s, rest) ← r; Some (c :: s, rest).

(** A string after its opening quotation mark. *)
Fixpoint parse_string (s : jsstr) : option (jsstr * jsstr) :=
  match s with
  | [] => None
  | c :: r =>
      if c =? 34 then Some ([], r)
      else if c =? 92 then
        match r with
        | [] => None
        | e :: r' =>
            if e =? 117 then
              match r' with
              | h1 :: h2 :: h3 :: h4 :: r'' =>
                  u ← unicode_value h1 h2 h3 h4; push u (parse_string r'')
              | _ => None
              end
            else u ← simple_escape e; push u (parse_string r')
        end
      else if c <? 32 then None
      else push c (parse_string r)
  end.

(** The characters of a number token. *)
Definition is_number_char (c : Z) : bool :=
  is_digit c || (c =? 43) || (c =? 45) || (c =? 46) || (c =? 69) || (c =? 101).

Fixpoint strip_prefix (p s : jsstr) : option jsstr :=
  match p with
  | [] => Some s
  | c :: p' => r ← strip c s; strip_prefix p' r
  end.

Definition parse_literal (s : jsstr) : option (jsval * jsstr) :=
  match strip_prefix (js "null") s, strip_prefix (js "true") s, strip_prefix (js "false") s with
  | Some r, _, _ => Some (JNull, r)
  | _, Some r, _ => Some (JBool true, r)
  | _, _, Some r => Some (JBool false, r)
  | None, None, None => None
  end.

(** The order of own property names: array indices in ascending order, then
    the other names in the order they were created. *)
Definition array_index (name : jsstr) : option Z :=
  let n := digits_value name in
  if negb (bool_decide (name = [])) && forallb is_digit name && bool_decide (digits n = name) && (n <? 2 ^ 32 - 1)
  then Some n else None.

Definition comes_before (a b : jsstr) : bool :=
  match array_index a, array_index b with
  | Some i, Some j => i <? j
  | Some _, None => true
  | None, _ => false
  end.

(** Creating a data property, or overwriting the one of that name. *)
Fixpoint set_property (name : jsstr) (v : jsval) (members : list (jsstr * jsval)) : list (jsstr * jsval) :=
  match members with
  | [] => [(name, v)]
  | (n, x) :: rest =>
      if str_eqb n name then (name, v) :: rest
      else if comes_before name n then (name, v) :: members
      else (n, x) :: set_property name v rest
  end.

(** After a member or element: a comma and more, or the closing bracket. *)
Inductive separator := MoreItems (rest : jsstr) | ClosedBy (rest : jsstr) | BadSeparator.

Definition parse_separator (close : Z) (s : jsstr) : separator :=
  match skip_ws s with
  | c :: r => if c =? 44 then MoreItems r else if c =? close then ClosedBy r else BadSeparator
  | [] => BadSeparator
  end.

(** A member name with its colon. *)
Definition parse_name (s : jsstr) : option (jsstr * jsstr) :=
  r ← strip 34 (skip_ws s);
  '(name, r) ← parse_string r;
  r ← strip 58 (skip_ws r);
  Some (name, r).

(** [acc] holds the members, or the elements in reverse, read so far. *)
Fixpoint parse_value (fuel : nat) (s : jsstr) : option (jsval * jsstr) :=
  match fuel with
  | O => None
  | S f =>
      match skip_ws s with
      | [] => None
      | c :: r =>
          if c =? 123 then
            match strip 125 (skip_ws r) with
            | Some r' => Some (JObj [], r')
            | None => parse_members f [] r
            end
          else if c =? 91 then
            match strip 93 (skip_ws r) with
            | Some r' => Some (JArr [], r')
            | None => parse_elements f [] r
            end
          else if c =? 34 then '(t, rest) ← parse_string r; Some (JStr t, rest)
          else if is_digit c || (c =? 45) then
            let '(t, rest) := span is_number_char (c :: r) in
            n ← parse_number t; Some (JNum n, rest)
          else parse_literal (c :: r)
      end
  end
with parse_members (fuel : nat) (acc : list (jsstr * jsval)) (s : jsstr) : option (jsval * jsstr) :=
  match fuel with
  | O => None
  | S f =>
      '(name, r) ← parse_name s;
      '(v, r) ← parse_value f r;
      let acc' := set_property name v acc in
      match parse_separator 125 r with
      | MoreItems r' => parse_members f acc' r'
      | ClosedBy r' => Some (JObj acc', r')
      | BadSeparator => None
      end
  end
with parse_elements (fuel : nat) (acc : list jsval) (s : jsstr) : option (jsval * jsstr) :=
  match fuel with
  | O => None
  | S f =>
      '(v, r) ← parse_value f s;
      match parse_separator 93 r with
      | MoreItems r' => parse_elements f (v :: acc) r'
      | ClosedBy r' => Some (JArr (rev (v :: acc)), r')
      | BadSeparator => None
      end
  end.

(** Every call consumes text, except that the first item of an array starts
    where the array call does: two levels per code unit are enough. *)
Definition parse_fuel (s : jsstr) : nat := 2 * length s + 2.

Definition JSON_parse (s : jsstr) : res jsval :=
  match parse_value (parse_fuel s) s with
  | Some (v, rest) => if bool_decide (skip_ws rest = []) then Ok v else Err SyntaxError
  | None => Err SyntaxError
  end.

(** ** The values JSON can represent *)

(** Own property names in the order an object keeps them, without
    repetitions. *)
Fixpoint names_ordered (names : list jsstr) : bool :=
  match names with
  | [] => true
  | n :: rest => forallb (fun m => negb (str_eqb n m) && negb (comes_before m n)) rest && names_ordered rest
  end.

Definition is_string (s : jsstr) : bool := forallb (fun c => bool_decide (code_unit c)) s.

(** No [undefined], function, infinite number or NaN anywhere. *)
Fixpoint json_ok (v : jsval) : bool :=
  match v with
  | JUndefined | JFun => false
  | JNull | JBool _ => true
  | JNum (Fin q) => is_double q
  | JNum _ => false
  | JStr s => is_string s
  | JArr items => forallb json_ok items
  | JObj members =>
      names_ordered (List.map fst members)
      && forallb (fun '(name, x) => is_string name && json_ok x) members
  end.

(** ** Lemmas on scanning *)

Lemma span_app (p : Z -> bool) a b :
  Forall (fun c => p c = true) a -> match b with c :: _ => p c = false | [] => True end ->
  span p (a ++ b) = (a, b).
Proof.
  intros Ha Hb. induction Ha as [|c a Hc _ IH]; simpl.
  - destruct b as [|c b]; simpl; [done|]. by rewrite Hb.
  - by rewrite Hc, IH.
Qed.

Lemma span_split (p : Z -> bool) s a b : span p s = (a, b) -> s = a ++ b /\ Forall (fun c => p c = true) a.
Proof.
  revert a b. induction s as [|c s IH]; simpl; intros a b E; [by simplify_eq|].
  destruct (p c) eqn:Hc; [|by simplify_eq]. destruct (span p s) as [a' b'] eqn:Es. simplify_eq.
  destruct (IH _ _ eq_refl) as [-> ?]. split; [done|by constructor].
Qed.

Lemma strip_Some c s r : strip c s = Some r <-> s = c :: r.
Proof.
  destruct s as [|x s]; simpl; [naive_solver|]. destruct (Z.eqb_spec x c); naive_solver.
Qed.

Lemma skip_ws_nonspace c r : is_space c = false -> skip_ws (c :: r) = c :: r.
Proof. intros H. simpl. by rewrite H. Qed.

Lemma skip_ws_length s : (length (skip_ws s) <= length s)%nat.
Proof. induction s as [|c s IH]; simpl; [lia|]. destruct (is_space c); simpl; lia. Qed.

Lemma parse_digits_Some s ds rest :
  parse_digits s = Some (ds, rest) -> s = ds ++ rest /\ ds <> [] /\ Forall (fun c => is_digit c = true) ds.
Proof.
  unfold parse_digits. destruct (span is_digit s) as [a b] eqn:E. apply span_split in E as [-> ?].
  destruct a; intros; by simplify_eq.
Qed.

Lemma digit_number_char ds :
  Forall (fun c => is_digit c = true) ds -> Forall (fun c => is_number_char c = true) ds.
Proof. intros H. eapply list.Forall_impl; [exact H|]. intros c Hc. unfold is_number_char. by rewrite Hc. Qed.

Lemma parse_fraction_Some s frac rest :
  parse_fraction s = Some (frac, rest) ->
  exists pre, s = pre ++ rest /\ Forall (fun c => is_number_char c = true) pre.
Proof.
  unfold parse_fraction. destruct (strip 46 s) as [r|] eqn:E.
  - apply strip_Some in E as ->. intros (-> & _ & Hd)%parse_digits_Some. exists (46 :: frac).
    split; [done|]. constructor; [done|]. by apply digit_number_char.
  - intros [= <- ->]. by exists [].
Qed.

Lemma parse_sign_split s neg r :
  parse_sign s = (neg, r) -> exists pre, s = pre ++ r /\ Forall (fun c => is_number_char c = true) pre.
Proof.
  unfold parse_sign. destruct (strip 43 s) as [r1|] eqn:E1; [|destruct (strip 45 s) as [r2|] eqn:E2].
  - apply strip_Some in E1 as ->. intros [= _ <-]. exists [43]. split; [done|]. by repeat constructor.
  - apply strip_Some in E2 as ->. intros [= _ <-]. exists [45]. split; [done|]. by repeat constructor.
  - intros [= _ <-]. by exists [].
Qed.

Lemma parse_exponent_chars s e :
  parse_exponent s = Some e -> Forall (fun c => is_number_char c = true) s.
Proof.
  unfold parse_exponent. destruct s as [|c r]; [by constructor|].
  destruct ((c =? 101) || (c =? 69)) eqn:Ec; [|done].
  destruct (parse_sign r) as [neg r'] eqn:Es. apply parse_sign_split in Es as (pre & -> & Hpre).
  destruct (parse_digits r') as [[ds rest]|] eqn:Ep; [|done]. simpl. case_bool_decide; [|done]. subst.
  apply parse_digits_Some in Ep as (-> & _ & Hds). rewrite app_nil_r. intros _.
  constructor; [unfold is_number_char; lia|]. apply Forall_app. split; [done|]. by apply digit_number_char.
Qed.

Lemma parse_int_part_Some s ds rest :
  parse_int_part s = Some (ds, rest) -> s = ds ++ rest /\ ds <> [] /\ Forall (fun c => is_digit c = true) ds.
Proof.
  unfold parse_int_part. destruct (parse_digits s) as [[ds' rest']|] eqn:E; [|done]. simpl. intros H.
  apply parse_digits_Some. rewrite E. by repeat case_match; simplify_eq.
Qed.

(** A number token consists of number characters and starts with a digit or
    a minus sign. *)
Lemma parse_number_chars t n :
  parse_number t = Some n ->
  Forall (fun c => is_number_char c = true) t /\
  exists c r, t = c :: r /\ (is_digit c || (c =? 45)) = true.
Proof.
  unfold parse_number.
  assert (exists pre s', t = pre ++ s' /\ Forall (fun c => is_number_char c = true) pre /\
    (pre = [] \/ pre = [45]) /\ (match strip 45 t with Some r => (true, r) | None => (false, t) end).2 = s')
    as (pre & s' & -> & Hpre & Hcase & Es).
  { destruct (strip 45 t) eqn:E.
    - apply strip_Some in E as ->. exists [45]. eexists. split; [done|]. split; [by repeat constructor|]. auto.
    - exists []. eexists. repeat split; auto. }
  destruct (match strip 45 (pre ++ s') with Some r => _ | None => _ end) as [neg s1]. simpl in Es. subst s1.
  destruct (parse_int_part s') as [[int s2]|] eqn:E1; [|done]. simpl.
  apply parse_int_part_Some in E1 as (-> & Hne & Hint).
  destruct (parse_fraction s2) as [[frac s3]|] eqn:E2; [|done]. simpl.
  apply parse_fraction_Some in E2 as (fr & -> & Hfr).
  destruct (parse_exponent s3) as [e|] eqn:E3; [|done]. apply parse_exponent_chars in E3. intros _. split.
  - rewrite !Forall_app. repeat split; try done. by apply digit_number_char.
  - destruct int as [|d int]; [done|]. apply Forall_cons_1 in Hint as [Hd _].
    destruct Hcase as [-> | ->]; simpl; eexists _, _; (split; [done|]); [by rewrite Hd|done].
Qed.

(** ** Lemmas on number and string tokens *)

Lemma reads_as_spec q t : reads_as q t = true -> parse_number t = Some (Fin q).
Proof.
  unfold reads_as. destruct (parse_number t) as [[| |r]|]; try done. by intros ->%bool_decide_eq_true.
Qed.

(** A double is read back from its text. *)
Lemma parse_Number_toString q : is_double q = true -> parse_number (Number_toString q) = Some (Fin q).
Proof.
  unfold is_double, Number_toString. destruct (number_text q) as [t|] eqn:E; [|done]. intros _. simpl.
  apply reads_as_spec. unfold number_text in E. destruct (Qnum q =? 0).
  - case_match; by simplify_eq.
  - by apply find_some in E as [_ ?].
Qed.

Lemma hex_digit_value_lower n : 0 <= n < 16 -> hex_digit_value (hex_lower n) = Some n.
Proof.
  intros Hn. unfold hex_digit_value, hex_lower, is_digit. destruct (Z.ltb_spec n 10).
  - destruct ((48 <=? 48 + n) && (48 + n <=? 57)) eqn:E; [f_equal; lia|lia].
  - destruct ((48 <=? 87 + n) && (87 + n <=? 57)) eqn:E; [lia|].
    destruct ((97 <=? 87 + n) && (87 + n <=? 102)) eqn:E'; [f_equal; lia|lia].
Qed.

Lemma parse_string_unicode c r :
  code_unit c -> parse_string (unicode_escape c ++ r) = push c (parse_string r).
Proof.
  intros Hc. unfold code_unit in Hc. unfold unicode_escape. simpl. unfold unicode_value.
  rewrite !hex_digit_value_lower by zdm. simpl. f_equal. zdm.
Qed.

Lemma parse_string_plain c r :
  32 <= c -> c <> 34 -> c <> 92 -> parse_string (c :: r) = push c (parse_string r).
Proof.
  intros. simpl. destruct (Z.eqb_spec c 34); [done|]. destruct (Z.eqb_spec c 92); [done|].
  by destruct (Z.ltb_spec c 32); [lia|].
Qed.

(** One quoted code point reads back as its code units. *)
Lemma parse_string_quote_point c r :
  0 <= c <= 0x10FFFF ->
  parse_string (quote_point c ++ r) = foldr push (parse_string r) (units_of c).
Proof.
  intros Hc. unfold quote_point.
  repeat match goal with |- context [if c =? ?n then _ else _] => destruct (Z.eqb_spec c n); [by subst|] end.
  destruct ((c <? 32) || is_surrogate c) eqn:E.
  - unfold is_surrogate in E. rewrite parse_string_unicode by (unfold code_unit; lia).
    unfold units_of. destruct (Z.ltb_spec c 0x10000); [done|lia].
  - unfold is_surrogate in E. unfold units_of. destruct (Z.ltb_spec c 0x10000); cbn [app foldr].
    + apply parse_string_plain; lia.
    + rewrite !parse_string_plain by zdm. done.
Qed.

Lemma foldr_push (B : Type) u (s : jsstr) (rest : B) :
  foldr push (Some (s, rest)) u = Some (u ++ s, rest).
Proof. induction u as [|c u IH]; simpl; [done|]. by rewrite IH. Qed.

(** A quoted string reads back as itself. *)
Lemma parse_string_quote s r :
  Forall code_unit s -> parse_string ((code_points s ≫= quote_point) ++ 34 :: r) = Some (s, r).
Proof.
  intros Hs. rewrite <- (units_code_points s Hs) at 2. pose proof (code_points_bound s Hs) as Hb.
  unfold units. induction Hb as [|c cs Hc _ IH]; [done|].
  rewrite !bind_cons, <- app_assoc, parse_string_quote_point, IH by done. apply foldr_push.
Qed.

(** ** Lemmas on values *)

(** Induction that reaches the items of arrays and the members of objects. *)
Lemma jsval_deep_ind (P : jsval -> Prop) :
  (forall v, match v with JArr _ | JObj _ => False | _ => True end -> P v) ->
  (forall items, Forall P items -> P (JArr items)) ->
  (forall members, Forall (fun m => P m.2) members -> P (JObj members)) ->
  forall v, P v.
Proof.
  intros H0 Ha Ho. fix IH 1. intros [| |b|n|s|items|members|]; try (apply H0; exact I).
  - apply Ha. induction items as [|x items IHi]; constructor; [apply IH|exact IHi].
  - apply Ho. induction members as [|[n x] members IHm]; constructor; [apply IH|exact IHm].
Qed.

Lemma is_string_spec s : is_string s = true -> Forall code_unit s.
Proof.
  intros H. apply list.Forall_forall. intros c Hc. apply list_elem_of_In in Hc.
  unfold is_string in H. rewrite forallb_forall in H. by apply H, bool_decide_eq_true in Hc.
Qed.

(** A representable value has a text. *)
Lemma json_ok_text v : json_ok v = true -> exists t, SerializeJSONProperty v = Some t.
Proof. destruct v as [| | |[]| | | |]; simpl; naive_solver. Qed.

(** How the text of a representable value starts: never with white space or
    a closing bracket. *)
Lemma json_text_starts v t :
  json_ok v = true -> SerializeJSONProperty v = Some t ->
  exists c r, t = c :: r /\ is_space c = false /\ c <> 93.
Proof.
  destruct v as [| |[]|[]| | | |]; simpl; intros Hv [= <-]; try done; try by eexists _, _.
  apply parse_Number_toString, parse_number_chars in Hv as (_ & c & r & -> & Hc).
  exists c, r. split; [done|]. unfold is_space, is_digit in *. lia.
Qed.

(** What may follow the text of a value inside a document. *)
Definition ends_token (rest : jsstr) : Prop :=
  match rest with c :: _ => is_number_char c = false | [] => True end.

(** Side conditions of reading one item: tokens that end, enough fuel. *)
Ltac token := first [done | exact eq_refl | lia].

(** [v] reads back from its text with fuel for its length. *)
Definition reads_back (v : jsval) : Prop :=
  forall t rest f, json_ok v = true -> SerializeJSONProperty v = Some t -> ends_token rest ->
  (2 * length t + 1 <= f)%nat -> parse_value f (t ++ rest) = Some (v, rest).

Lemma reads_back_number q : reads_back (JNum (Fin q)).
Proof.
  intros t rest f Hv [= <-] Hrest Hf. simpl in Hv.
  pose proof (parse_Number_toString q Hv) as Hp. pose proof (parse_number_chars _ _ Hp) as (Hall & c & r & E & Hc).
  destruct f as [|f]; [lia|]. rewrite E in *. cbn [parse_value app].
  rewrite skip_ws_nonspace by (unfold is_space, is_digit in *; lia).
  repeat match goal with |- context [if c =? ?n then _ else _] =>
    destruct (Z.eqb_spec c n); [subst c; discriminate Hc|] end.
  rewrite Hc. rewrite (app_comm_cons r rest c : c :: r ++ rest = (c :: r) ++ rest).
  rewrite span_app by done. by rewrite Hp.
Qed.

Lemma reads_back_leaf v : match v with JArr _ | JObj _ => False | _ => True end -> reads_back v.
Proof.
  destruct v as [| |b|n|s| | |]; intros Hleaf; try done.
  - intros t rest f _ [= <-] _ Hf. by destruct f as [|f]; [lia|].
  - intros t rest f _ [= <-] _ Hf. by destruct f as [|f]; [lia|]; destruct b.
  - destruct n; [done..|]. apply reads_back_number.
  - intros t rest f Hv [= <-] _ Hf. destruct f as [|f]; [simpl in Hf; lia|]. simpl in Hv.
    cbn [parse_value app QuoteJSONString]. rewrite skip_ws_nonspace by done. cbn -[parse_string].
    rewrite <- app_assoc. cbn [app]. by rewrite parse_string_quote by (by apply is_string_spec).
Qed.

Lemma join_texts_cons sep x l : l <> [] -> join sep (x :: l) = x ++ sep ++ join sep l.
Proof. by destruct l. Qed.

(** The elements of an array read back after those already read. *)
Lemma reads_back_elements items :
  Forall reads_back items -> forallb json_ok items = true -> items <> [] ->
  forall acc rest f,
  let body := join [44] (List.map (fun x => default (js "null") (SerializeJSONProperty x)) items) in
  (2 * length body + 2 <= f)%nat ->
  parse_elements f acc (body ++ 93 :: rest) = Some (JArr (rev acc ++ items), rest).
Proof.
  intros HF Hok Hnil. induction HF as [|v items Hv HF IH]; [done|]. intros acc rest f body Hf.
  simpl in Hok. apply andb_true_iff in Hok as [Hokv Hok].
  destruct (json_ok_text _ Hokv) as [t Et].
  assert (default (js "null") (SerializeJSONProperty v) = t) as Et' by (by rewrite Et). destruct f as [|f]; [lia|].
  destruct (decide (items = [])) as [->|Hne].
  - subst body. cbn [List.map join] in *. rewrite Et' in *. cbn [parse_elements].
    rewrite (Hv t (93 :: rest)) by token. simpl. done.
  - subst body. cbn [List.map] in *. rewrite join_texts_cons in * by (by destruct items).
    rewrite Et' in *. rewrite !length_app in Hf. simpl length in Hf.
    cbn [parse_elements]. rewrite <- !app_assoc. cbn [app].
    rewrite (Hv t) by token. cbn [mbind option_bind].
    change (parse_separator 93 (44 :: ?r)) with (MoreItems r). cbn beta iota. rewrite IH by token.
    cbn [rev]. by rewrite <- app_assoc.
Qed.

Lemma set_property_snoc name v members :
  Forall (fun m => str_eqb m.1 name = false /\ comes_before name m.1 = false) members ->
  set_property name v members = members ++ [(name, v)].
Proof.
  induction 1 as [|[n x] members [H1 H2] _ IH]; simpl in *; [done|]. by rewrite H1, H2, IH.
Qed.

Lemma names_ordered_app a n b :
  names_ordered (a ++ n :: b) = true ->
  Forall (fun m => str_eqb m n = false /\ comes_before n m = false) a.
Proof.
  induction a as [|m a IH]; simpl; [by constructor|]. rewrite andb_true_iff. intros [H1 H2].
  constructor; [|by apply IH]. rewrite forallb_app in H1. simpl in H1. rewrite !andb_true_iff, !negb_true_iff in H1.
  tauto.
Qed.

Definition member_text : jsstr * jsval -> list jsstr :=
  fun '(name, x) => match SerializeJSONProperty x with Some t => [QuoteJSONString name ++ 58 :: t] | None => [] end.

Lemma parse_name_quote name r :
  is_string name = true -> parse_name (QuoteJSONString name ++ 58 :: r) = Some (name, r).
Proof.
  intros Hname. unfold parse_name, QuoteJSONString. cbn [app]. rewrite skip_ws_nonspace by done.
  cbn -[parse_string]. rewrite <- app_assoc. cbn [app]. by rewrite parse_string_quote by (by apply is_string_spec).
Qed.

(** One member reads back: its name, the colon, and its value. *)
Lemma parse_members_step name v t acc f tail :
  reads_back v -> is_string name = true -> json_ok v = true -> SerializeJSONProperty v = Some t ->
  set_property name v acc = acc ++ [(name, v)] -> ends_token tail -> (2 * length t + 1 <= f)%nat ->
  parse_members (S f) acc ((QuoteJSONString name ++ 58 :: t) ++ tail) =
  match parse_separator 125 tail with
  | MoreItems r => parse_members f (acc ++ [(name, v)]) r
  | ClosedBy r => Some (JObj (acc ++ [(name, v)]), r)
  | BadSeparator => None
  end.
Proof.
  intros Hv Hname Hok Et Hset Htail Hf. cbn [parse_members].
  rewrite <- app_assoc. cbn [app]. rewrite parse_name_quote by done. cbn [mbind option_bind].
  rewrite (Hv t) by token. cbn [mbind option_bind]. by rewrite Hset.
Qed.

(** The members of an object read back after those already read. *)
Lemma reads_back_members members :
  Forall (fun m => reads_back m.2) members ->
  forallb (fun '(name, x) => is_string name && json_ok x) members = true -> members <> [] ->
  forall acc rest f,
  names_ordered (List.map fst (acc ++ members)) = true ->
  let body := join [44] (flat_map member_text members) in
  (2 * length body + 2 <= f)%nat ->
  parse_members f acc (body ++ 125 :: rest) = Some (JObj (acc ++ members), rest).
Proof.
  intros HF Hok Hnil. induction HF as [|[name v] members Hv HF IH]; [done|]. intros acc rest f Hord body Hf.
  simpl in Hok. rewrite !andb_true_iff in Hok. destruct Hok as [[Hname Hokv] Hok].
  destruct (json_ok_text _ Hokv) as [t Et].
  assert (set_property name v acc = acc ++ [(name, v)]) as Hset.
  { apply set_property_snoc. rewrite map_app in Hord. apply names_ordered_app in Hord.
    by apply Forall_map in Hord. }
  destruct f as [|f]; [lia|]. subst body. cbn [flat_map] in *. unfold member_text at 1. unfold member_text at 1 in Hf.
  rewrite Et in *. cbn [app] in *. destruct (decide (members = [])) as [->|Hne].
  - cbn [flat_map join] in *. rewrite length_app in Hf. simpl length in Hf.
    by rewrite (parse_members_step _ v) by token.
  - rewrite join_texts_cons in *.
    2,3: destruct members as [|[n' v'] members]; [done|]; simpl; simpl in Hok; rewrite !andb_true_iff in Hok;
         destruct (json_ok_text v') as [t' ->]; tauto || done.
    rewrite !length_app in Hf. simpl length in Hf. rewrite <- app_assoc, (parse_members_step _ v) by token.
    rewrite <- app_assoc. change (parse_separator 125 ([44] ++ ?r)) with (MoreItems r). cbn beta iota.
    rewrite IH; try done; [|by rewrite <- app_assoc|lia]. by rewrite <- app_assoc.
Qed.

Lemma parse_value_array f c r :
  is_space c = false -> c <> 93 -> parse_value (S f) (91 :: c :: r) = parse_elements f [] (c :: r).
Proof.
  intros H1 H2. cbn -[parse_elements skip_ws]. rewrite skip_ws_nonspace by done. cbn -[parse_elements skip_ws].
  rewrite skip_ws_nonspace by done. simpl strip. by apply Z.eqb_neq in H2 as ->.
Qed.

Lemma parse_value_object f r : parse_value (S f) (123 :: 34 :: r) = parse_members f [] (34 :: r).
Proof. done. Qed.

(** Every representable value reads back from its text, wherever the text
    stands in a document. *)
Lemma json_reads_back v : reads_back v.
Proof.
  induction v as [v Hv|items HF|members HF] using jsval_deep_ind; [by apply reads_back_leaf|..];
    intros t rest f Hok Et Hrest Hf; injection Et as <-; (destruct f as [|f]; [simpl in Hf; lia|]).
  - destruct items as [|v items]; [done|]. cbn [app] in Hf; rewrite length_cons, length_app in Hf.
    pose proof (reads_back_elements (v :: items) HF Hok ltac:(done) [] rest f ltac:(simpl length in *; lia)) as Hel.
    simpl in Hok. apply andb_true_iff in Hok as [Hv Hok].
    pose proof (json_ok_text _ Hv) as [t Et]. pose proof (json_text_starts _ _ Hv Et) as (c & r & -> & Hc1 & Hc2).
    cbn [List.map] in *. rewrite Et in *. cbn [app]. rewrite <- app_assoc. cbn [app].
    destruct (List.map _ items); cbn -[parse_value parse_elements] in Hel |- *; rewrite parse_value_array by done; exact Hel.
  - destruct members as [|[name v] members]; [done|]. cbn [app] in Hf; rewrite length_cons, length_app in Hf.
    apply andb_true_iff in Hok as [Hord Hok].
    pose proof (reads_back_members _ HF Hok ltac:(done) [] rest f Hord ltac:(unfold member_text; simpl length in *; lia)) as Hm.
    simpl in Hok. rewrite !andb_true_iff in Hok. destruct Hok as [[_ Hv] _].
    destruct (json_ok_text _ Hv) as [t Et]. unfold member_text in Hm. cbn [flat_map] in *. rewrite Et in *.
    cbn [app] in *. rewrite <- app_assoc. cbn [app].
    destruct (flat_map _ members); cbn -[parse_value parse_members] in Hm |- *; rewrite parse_value_object; exact Hm.
Qed.

(** [JSON.parse] undoes [JSON.stringify] on the representable values. *)
Lemma JSON_parse_stringify v t :
  json_ok v = true -> SerializeJSONProperty v = Some t -> JSON_parse t = Ok v.
Proof.
  intros Hv Et. unfold JSON_parse. rewrite <- (app_nil_r t) at 2.
  by rewrite (json_reads_back v t [] (parse_fuel t)) by (done || (unfold parse_fuel; lia)).
Qed.
