(* ===== verification/JsonText.v ===== *)
(** * Facts about JSON text

    The parser of [Json] never runs out of fuel, the text of a value is
    well-formed UTF-16, and parsing a string produces strings. *)

From S2P Require Import Prelude JsValue Duration Utf8 Config Key Metrics Frame Json.

(** ** The parser's fuel *)

Lemma parse_string_length s t r : parse_string s = Some (t, r) -> (length r < length s)%nat.
Proof.
  remember (length s) as n eqn:Hn. revert s t Hn.
  induction n as [n IH] using (well_founded_induction Nat.lt_wf_0). intros s t ->.
  destruct s as [|c s]; [done|]. cbn [parse_string length].
  assert (forall u s', (length s' <= length s)%nat -> push u (parse_string s') = Some (t, r) ->
            (length r < S (length s))%nat) as Hpush.
  { intros u s' Hs'. destruct (parse_string s') as [[t' r']|] eqn:E; [|done]. cbn. intros [= _ <-].
    specialize (IH (length s') ltac:(simpl; lia) s' t' eq_refl E). lia. }
  destruct (c =? 34); [intros [= _ <-]; lia|]. destruct (c =? 92).
  - destruct s as [|e s]; [done|]. destruct (e =? 117).
    + destruct s as [|h1 [|h2 [|h3 [|h4 s]]]]; try done. destruct (unicode_value h1 h2 h3 h4) as [u|]; [|done].
      cbn [mbind option_bind]. apply Hpush. simpl. lia.
    + destruct (simple_escape e) as [u|]; [|done]. cbn [mbind option_bind]. apply Hpush. simpl. lia.
  - destruct (c <? 32); [done|]. by apply Hpush.
Qed.

Lemma strip_length c s r : strip c s = Some r -> length s = S (length r).
Proof. by intros ->%strip_Some. Qed.

Lemma parse_name_length s name r : parse_name s = Some (name, r) -> (length r < length s)%nat.
Proof.
  unfold parse_name. pose proof (skip_ws_length s) as Hs.
  destruct (strip 34 (skip_ws s)) as [s1|] eqn:E1; [|done]. apply strip_length in E1. cbn [mbind option_bind].
  destruct (parse_string s1) as [[n s2]|] eqn:E2; [|done]. apply parse_string_length in E2. cbn [mbind option_bind].
  pose proof (skip_ws_length s2) as Hs2.
  destruct (strip 58 (skip_ws s2)) as [s3|] eqn:E3; [|done]. apply strip_length in E3. intros [= _ <-]. lia.
Qed.

Lemma strip_prefix_length p s r : strip_prefix p s = Some r -> (length s = length p + length r)%nat.
Proof.
  revert s. induction p as [|c p IH]; simpl; intros s; [by intros [= ->]|].
  destruct (strip c s) as [s'|] eqn:E; [|done]. cbn. intros H. apply strip_length in E. apply IH in H. lia.
Qed.

Lemma parse_separator_length close s :
  match parse_separator close s with
  | MoreItems r | ClosedBy r => (length r < length s)%nat
  | BadSeparator => True
  end.
Proof.
  unfold parse_separator. pose proof (skip_ws_length s) as H. destruct (skip_ws s) as [|c r]; [done|].
  simpl in H. destruct (c =? 44); [lia|]. destruct (c =? close); [lia|done].
Qed.

Lemma parse_literal_length s v r : parse_literal s = Some (v, r) -> (length r < length s)%nat.
Proof.
  unfold parse_literal. intros E. repeat case_match; simplify_eq;
    match goal with H : strip_prefix _ _ = Some _ |- _ => apply strip_prefix_length in H; simpl in H; lia end.
Qed.

(** Every parse consumes text. *)
Lemma parse_consumes f :
  (forall s v r, parse_value f s = Some (v, r) -> (length r < length s)%nat) /\
  (forall acc s v r, parse_members f acc s = Some (v, r) -> (length r < length s)%nat) /\
  (forall acc s v r, parse_elements f acc s = Some (v, r) -> (length r < length s)%nat).
Proof.
  induction f as [|f (IHv & IHm & IHe)]; [done|]. split; [|split].
  - intros s v r. cbn [parse_value]. pose proof (skip_ws_length s) as Hs.
    destruct (skip_ws s) as [|c s'] eqn:Es; [done|]. simpl in Hs. pose proof (skip_ws_length s') as Hs'.
    destruct (c =? 123).
    { destruct (strip 125 (skip_ws s')) eqn:E; [apply strip_length in E; intros [= _ <-]; lia|].
      intros H%IHm. lia. }
    destruct (c =? 91).
    { destruct (strip 93 (skip_ws s')) eqn:E; [apply strip_length in E; intros [= _ <-]; lia|].
      intros H%IHe. lia. }
    destruct (c =? 34).
    { destruct (parse_string s') as [[t r']|] eqn:E; [|done]. apply parse_string_length in E. intros [= _ <-]. lia. }
    destruct (is_digit c || (c =? 45)).
    { destruct (span is_number_char (c :: s')) as [t rest] eqn:E. apply span_split in E as [E _].
      destruct (parse_number t) as [n|] eqn:En; [|done]. apply parse_number_chars in En as (_ & c' & r' & -> & _).
      apply (f_equal length) in E. rewrite length_app in E. simpl in E. intros [= _ <-]. lia. }
    intros H%parse_literal_length. simpl in H. lia.
  - intros acc s v r. cbn [parse_members].
    destruct (parse_name s) as [[name s3]|] eqn:En; [|done]. apply parse_name_length in En. cbn [mbind option_bind].
    destruct (parse_value f s3) as [[x s4]|] eqn:E4; [|done]. apply IHv in E4. cbn [mbind option_bind].
    pose proof (parse_separator_length 125 s4). destruct (parse_separator 125 s4); [intros H'%IHm; lia| |done].
    intros [= _ <-]. lia.
  - intros acc s v r. cbn [parse_elements].
    destruct (parse_value f s) as [[x s4]|] eqn:E4; [|done]. apply IHv in E4. cbn [mbind option_bind].
    pose proof (parse_separator_length 93 s4). destruct (parse_separator 93 s4); [intros H'%IHe; lia| |done].
    intros [= _ <-]. lia.
Qed.

(** More fuel than the length asks for changes nothing: [None] always means
    that the text is not a value. *)
Lemma parse_fuel_enough f :
  (forall s f', (2 * length s + 1 <= f <= f')%nat -> parse_value f' s = parse_value f s) /\
  (forall acc s f', (2 * length s + 2 <= f <= f')%nat -> parse_members f' acc s = parse_members f acc s) /\
  (forall acc s f', (2 * length s + 2 <= f <= f')%nat -> parse_elements f' acc s = parse_elements f acc s).
Proof.
  induction f as [|f (IHv & IHm & IHe)]; [split; [|split]; intros; lia|]. split; [|split].
  - intros s [|f'] Hf; [lia|]. cbn [parse_value]. pose proof (skip_ws_length s) as Hs.
    destruct (skip_ws s) as [|c s'] eqn:Es; [done|]. simpl in Hs.
    rewrite (IHm [] s' f'), (IHe [] s' f') by lia. done.
  - intros acc s [|f'] Hf; [lia|]. cbn [parse_members].
    destruct (parse_name s) as [[name s3]|] eqn:En; [|done]. apply parse_name_length in En. cbn [mbind option_bind].
    rewrite (IHv s3 f') by lia. destruct (parse_value f s3) as [[x s4]|] eqn:E4; [|done].
    apply parse_consumes in E4. cbn [mbind option_bind].
    pose proof (parse_separator_length 125 s4). destruct (parse_separator 125 s4); try done. apply IHm. lia.
  - intros acc s [|f'] Hf; [lia|]. cbn [parse_elements].
    rewrite (IHv s f') by lia. destruct (parse_value f s) as [[x s4]|] eqn:E4; [|done].
    apply parse_consumes in E4. cbn [mbind option_bind].
    pose proof (parse_separator_length 93 s4). destruct (parse_separator 93 s4); try done. apply IHe. lia.
Qed.

(** ** The text is well-formed UTF-16 *)

(** A string of paired code units only, closed under concatenation. *)
Definition scalar_text (s : jsstr) : Prop := exists cs, Forall scalar cs /\ s = units cs.

Lemma code_points_units cs : Forall scalar cs -> code_points (units cs) = cs.
Proof.
  unfold units. induction 1 as [|c cs [Hc Hs] _ IH]; [done|]. rewrite bind_cons. unfold units_of at 1.
  apply is_surrogate_false in Hs. destruct (Z.ltb_spec c 0x10000); cbn [app].
  - destruct (cs ≫= units_of) as [|d r] eqn:E; [by rewrite <- IH|]. rewrite code_points_cons2.
    assert (is_high c = false) as -> by (unfold is_high; lia). by rewrite andb_false_l, IH.
  - rewrite code_points_cons2.
    assert (is_high (0xD800 + (c - 0x10000) / 0x400) && is_low (0xDC00 + (c - 0x10000) mod 0x400) = true) as ->.
    { unfold is_high, is_low. zdm. }
    rewrite IH. f_equal. zdm.
Qed.

Lemma scalar_text_ok s : scalar_text s -> Forall code_unit s /\ well_formed s.
Proof.
  intros (cs & Hcs & ->). split; [|unfold well_formed; by rewrite code_points_units].
  unfold units. induction Hcs as [|c cs [Hc _] _ IH]; [constructor|]. rewrite bind_cons. apply Forall_app.
  split; [|done]. unfold units_of, code_unit. cmp; repeat constructor; zdm.
Qed.

Lemma scalar_text_app a b : scalar_text a -> scalar_text b -> scalar_text (a ++ b).
Proof.
  intros (ca & Ha & ->) (cb & Hb & ->). exists (ca ++ cb). split; [by apply Forall_app|].
  unfold units. by rewrite bind_app.
Qed.

Lemma scalar_text_ascii_points s : Forall (fun c => 0 <= c < 128) s -> Forall scalar s.
Proof.
  intros Hs. eapply list.Forall_impl; [exact Hs|]. simpl. intros c Hc. split; [lia|]. apply is_surrogate_false. lia.
Qed.

Lemma scalar_text_ascii s : Forall (fun c => 0 <= c < 128) s -> scalar_text s.
Proof.
  intros Hs. exists s. split; [by apply scalar_text_ascii_points|].
  induction Hs as [|c s Hc _ IH]; [done|]. unfold units. rewrite bind_cons. fold (units s). rewrite <- IH.
    unfold units_of. by destruct (Z.ltb_spec c 0x10000); [|lia].
Qed.

Lemma scalar_text_cons c s : 0 <= c < 128 -> scalar_text s -> scalar_text (c :: s).
Proof. intros Hc Hs. apply (scalar_text_app [c]); [|done]. apply scalar_text_ascii. by apply Forall_singleton. Qed.

Lemma scalar_text_nil : scalar_text [].
Proof. by exists []. Qed.

Create HintDb json.
#[export] Hint Resolve scalar_text_app scalar_text_cons scalar_text_nil : json.
#[export] Hint Extern 2 (_ <= _ < _) => lia : json.

Lemma scalar_text_quote_point c : 0 <= c <= 0x10FFFF -> scalar_text (quote_point c).
Proof.
  intros Hc. unfold quote_point.
  repeat match goal with |- context [if c =? ?n then _ else _] => destruct (c =? n); [eauto with json|] end.
  destruct ((c <? 32) || is_surrogate c) eqn:E.
  - apply scalar_text_ascii. unfold is_surrogate in E. unfold unicode_escape, hex_lower.
    repeat constructor; try lia; cmp; zdm.
  - exists [c]. split; [|unfold units; by rewrite bind_cons, app_nil_r].
    apply orb_false_iff in E as [_ E]. by repeat constructor; try lia.
Qed.

Lemma scalar_text_quote s : Forall code_unit s -> scalar_text (QuoteJSONString s).
Proof.
  intros Hs%code_points_bound. unfold QuoteJSONString. apply scalar_text_cons; [lia|].
  apply scalar_text_app; [|eauto with json].
  induction Hs as [|c cs Hc _ IH]; [eauto with json|]. rewrite bind_cons.
  apply scalar_text_app; [by apply scalar_text_quote_point|done].
Qed.

(** ** Texts and values consist of code units *)

(** Every string and member name of a value is a string. *)
Fixpoint strings_ok (v : jsval) : bool :=
  match v with
  | JStr s => is_string s
  | JArr items => forallb strings_ok items
  | JObj members => forallb (fun '(name, x) => is_string name && strings_ok x) members
  | _ => true
  end.

Lemma is_string_true s : Forall code_unit s -> is_string s = true.
Proof.
  intros Hs. apply forallb_forall. intros c Hc. apply bool_decide_eq_true.
  rewrite list.Forall_forall in Hs. by apply Hs, list_elem_of_In.
Qed.

Lemma scalar_text_units s : scalar_text s -> Forall code_unit s.
Proof. by intros [? _]%scalar_text_ok. Qed.

Lemma Number_toString_chars q : Forall (fun c => is_number_char c = true) (Number_toString q).
Proof.
  destruct (is_double q) eqn:E; [by apply parse_Number_toString, parse_number_chars in E as [Hc _]|].
  unfold is_double in E. unfold Number_toString. by destruct (number_text q).
Qed.

Lemma number_char_printable c : is_number_char c = true -> 32 <= c < 128.
Proof. unfold is_number_char, is_digit. lia. Qed.

Lemma Number_toString_scalar q : scalar_text (Number_toString q).
Proof.
  apply scalar_text_ascii. eapply list.Forall_impl; [apply Number_toString_chars|]. simpl.
  intros c Hc%number_char_printable. lia.
Qed.

Lemma printable_quote_point c : 0 <= c <= 0x10FFFF -> Forall (fun x => 32 <= x) (quote_point c).
Proof.
  intros Hc. unfold quote_point.
  repeat match goal with |- context [if c =? ?n then _ else _] => destruct (c =? n); [by repeat constructor|] end.
  destruct ((c <? 32) || is_surrogate c) eqn:E.
  - unfold unicode_escape, hex_lower. repeat constructor; try lia; cmp; zdm.
  - apply orb_false_iff in E as [E%Z.ltb_ge _]. unfold units_of. cmp; repeat constructor; zdm.
Qed.

(** What holds of strings of printable characters and of quoted strings holds
    of the text of every value. *)
Section text_closed.
  Context (P : jsstr -> Prop) (Papp : forall a b, P a -> P b -> P (a ++ b)).
  Context (Pascii : forall s, Forall (fun c => 32 <= c < 128) s -> P s) (Pquote : forall s, Forall code_unit s -> P (QuoteJSONString s)).

Lemma closed_cons c s : 32 <= c < 128 -> P s -> P (c :: s).
Proof. intros Hc Hs. apply (Papp [c]); [|done]. apply Pascii. by apply Forall_singleton. Qed.

Lemma closed_join l : Forall P l -> P (join [44] l).
Proof.
  induction 1 as [|x [|y l] Hx Hl IH]; [by apply Pascii|done|]. rewrite join_texts_cons by done.
  apply Papp; [done|]. by apply closed_cons; [lia|].
Qed.

Lemma closed_text v t : strings_ok v = true -> SerializeJSONProperty v = Some t -> P t.
Proof.
  assert (P (js "null")) as Hnull by (apply Pascii; by repeat constructor).
  assert (P [93] /\ P [125]) as [H93 H125] by (split; apply Pascii; by repeat constructor).
  revert t. induction v as [v Hv|items HF|members HF] using jsval_deep_ind; intros t Hok Et.
  - destruct v as [| |[]|[]|s| | |]; simpl in *; try done; injection Et as <-; try done.
    1-2: apply Pascii; by repeat constructor.
    + apply Pascii. eapply list.Forall_impl; [apply Number_toString_chars|]. simpl. apply number_char_printable.
    + by apply Pquote, is_string_spec.
  - injection Et as <-. cbn [app]. apply closed_cons; [lia|]. apply Papp; [|done].
    apply closed_join. apply Forall_map. rewrite list.Forall_forall in HF |- *. intros x Hx.
    simpl in Hok. rewrite forallb_forall in Hok. specialize (Hok x ltac:(by apply list_elem_of_In)).
    destruct (SerializeJSONProperty x) as [t|] eqn:Et; [by apply (HF x Hx)|done].
  - injection Et as <-. cbn [app]. apply closed_cons; [lia|]. apply Papp; [|done].
    apply closed_join. simpl in Hok.
    induction HF as [|[name x] members Hx _ IH]; [constructor|]. simpl in Hok. rewrite !andb_true_iff in Hok.
    destruct Hok as [[Hn Hokx] Hok]. simpl. destruct (SerializeJSONProperty x) as [t|] eqn:Et; [|by apply IH].
    constructor; [|by apply IH]. change (P (QuoteJSONString name ++ 58 :: t)).
    apply Papp; [by apply Pquote, is_string_spec|].
    apply closed_cons; [lia|]. by apply (Hx t).
Qed.
End text_closed.

(** The text of any value is well-formed. *)
Lemma text_scalar v t : strings_ok v = true -> SerializeJSONProperty v = Some t -> scalar_text t.
Proof.
  apply closed_text; [apply scalar_text_app| |apply scalar_text_quote].
  intros s Hs. apply scalar_text_ascii. eapply list.Forall_impl; [exact Hs|]. simpl. lia.
Qed.

(** The text of any value has no control characters. *)
Lemma text_printable v t :
  strings_ok v = true -> SerializeJSONProperty v = Some t -> Forall (fun c => 32 <= c) t.
Proof.
  apply closed_text.
  - intros a b Ha Hb. by apply Forall_app.
  - intros s Hs. eapply list.Forall_impl; [exact Hs|]. simpl. lia.
  - intros s Hs%code_points_bound. unfold QuoteJSONString. constructor; [lia|]. apply Forall_app. split; [|by repeat constructor].
    induction Hs as [|c cs Hc _ IH]; [constructor|]. rewrite bind_cons. apply Forall_app. split; [|done].
    apply printable_quote_point. lia.
Qed.

Lemma json_ok_strings v : json_ok v = true -> strings_ok v = true.
Proof.
  induction v as [v Hv|items HF|members HF] using jsval_deep_ind; intros Hok.
  - by destruct v.
  - simpl in *. rewrite forallb_forall in *. rewrite list.Forall_forall in HF. intros x Hx.
    apply HF; [by apply list_elem_of_In|by apply Hok].
  - simpl in *. apply andb_true_iff in Hok as [_ Hok]. rewrite forallb_forall in *. rewrite list.Forall_forall in HF.
    intros [name x] Hx. specialize (Hok _ Hx). simpl in Hok. apply andb_true_iff in Hok as [-> Hok].
    apply (HF (name, x)); [by apply list_elem_of_In|done].
Qed.

(** The text of a representable value has no unpaired surrogate. *)
Lemma json_text_scalar v t : json_ok v = true -> SerializeJSONProperty v = Some t -> scalar_text t.
Proof. intros Hv. by apply text_scalar, json_ok_strings. Qed.

(** *** Parsed values *)

Lemma hex_digit_value_range c n : hex_digit_value c = Some n -> 0 <= n < 16.
Proof. unfold hex_digit_value, is_digit. repeat case_match; naive_solver lia. Qed.

Lemma unicode_value_range a b c d u : unicode_value a b c d = Some u -> code_unit u.
Proof.
  unfold unicode_value. destruct (hex_digit_value a) as [a'|] eqn:Ea; [|done]. cbn [mbind option_bind].
  destruct (hex_digit_value b) as [b'|] eqn:Eb; [|done]. cbn [mbind option_bind].
  destruct (hex_digit_value c) as [c'|] eqn:Ec; [|done]. cbn [mbind option_bind].
  destruct (hex_digit_value d) as [d'|] eqn:Ed; [|done]. cbn [mbind option_bind]. intros [= <-].
  apply hex_digit_value_range in Ea, Eb, Ec, Ed. unfold code_unit. lia.
Qed.

Lemma simple_escape_unit e u : simple_escape e = Some u -> code_unit e -> code_unit u.
Proof. unfold simple_escape, code_unit. repeat case_match; naive_solver lia. Qed.

Lemma push_Some {B} u (r : option (jsstr * B)) t rest :
  push u r = Some (t, rest) -> exists t', r = Some (t', rest) /\ t = u :: t'.
Proof. unfold push. destruct r as [[t' r']|]; [|done]. simpl. intros [= <- <-]. eauto. Qed.

(** A parsed string and the rest of the text are strings. *)
Lemma parse_string_units s t r :
  Forall code_unit s -> parse_string s = Some (t, r) -> Forall code_unit t /\ Forall code_unit r.
Proof.
  remember (length s) as n eqn:Hn. revert s t Hn.
  induction n as [n IH] using (well_founded_induction Nat.lt_wf_0). intros s t -> Hs.
  destruct s as [|c s]; [done|]. apply Forall_cons_1 in Hs as [Hc Hs]. cbn [parse_string].
  assert (forall u s', code_unit u -> Forall code_unit s' -> (length s' <= length s)%nat ->
            push u (parse_string s') = Some (t, r) -> Forall code_unit t /\ Forall code_unit r) as Hpush.
  { intros u s' Hu Hs' Hl (t' & E & ->)%push_Some.
    destruct (IH (length s') ltac:(simpl; lia) s' t' eq_refl Hs' E). split; [by constructor|done]. }
  destruct (c =? 34); [intros [= <- <-]; by split|]. destruct (c =? 92).
  - destruct s as [|e s]; [done|]. apply Forall_cons_1 in Hs as [He Hs]. destruct (e =? 117).
    + destruct s as [|h1 [|h2 [|h3 [|h4 s]]]]; try done. destruct (unicode_value h1 h2 h3 h4) as [u|] eqn:Eu; [|done].
      cbn [mbind option_bind]. do 4 apply Forall_cons_1 in Hs as [_ Hs].
      apply Hpush; [by eapply unicode_value_range|done|simpl; lia].
    + destruct (simple_escape e) as [u|] eqn:Eu; [|done]. cbn [mbind option_bind].
      apply Hpush; [by eapply simple_escape_unit|done|simpl; lia].
  - destruct (c <? 32); [done|]. by apply Hpush.
Qed.

Lemma strip_units c s r : Forall code_unit s -> strip c s = Some r -> Forall code_unit r.
Proof. intros Hs ->%strip_Some. by apply Forall_cons_1 in Hs as [_ ?]. Qed.

Lemma skip_ws_units s : Forall code_unit s -> Forall code_unit (skip_ws s).
Proof. induction 1 as [|c s Hc Hs IH]; simpl; [done|]. case_match; [done|by constructor]. Qed.

Lemma strip_prefix_units p s r : Forall code_unit s -> strip_prefix p s = Some r -> Forall code_unit r.
Proof.
  revert s. induction p as [|c p IH]; simpl; intros s Hs; [by intros [= <-]|].
  destruct (strip c s) as [s'|] eqn:E; [|done]. cbn. intros H. eapply IH; [|exact H]. by eapply strip_units.
Qed.

Lemma set_property_strings name v m :
  is_string name = true -> strings_ok v = true -> strings_ok (JObj m) = true ->
  strings_ok (JObj (set_property name v m)) = true.
Proof.
  intros Hn Hv. induction m as [|[n x] m IH]; simpl; [by rewrite Hn, Hv|].
  rewrite !andb_true_iff. intros [[H1 H2] H3]. simpl in IH.
  destruct (str_eqb n name); simpl; rewrite ?Hn, ?Hv; [done|].
  destruct (comes_before name n); simpl; rewrite ?Hn, ?Hv, ?H1, ?H2; [done|]. by apply IH.
Qed.

Lemma parse_separator_units close s :
  Forall code_unit s ->
  match parse_separator close s with MoreItems r | ClosedBy r => Forall code_unit r | BadSeparator => True end.
Proof.
  intros Hs%skip_ws_units. unfold parse_separator. destruct (skip_ws s) as [|c r]; [done|].
  apply Forall_cons_1 in Hs as [_ Hr]. destruct (c =? 44); [done|]. by destruct (c =? close).
Qed.

Lemma parse_name_units s name r :
  Forall code_unit s -> parse_name s = Some (name, r) -> is_string name = true /\ Forall code_unit r.
Proof.
  intros Hs%skip_ws_units. unfold parse_name.
  destruct (strip 34 (skip_ws s)) as [s1|] eqn:E1; [|done]. apply strip_units in E1; [|done]. cbn [mbind option_bind].
  destruct (parse_string s1) as [[n s2]|] eqn:E2; [|done]. apply parse_string_units in E2 as [H1 H2]; [|done].
  cbn [mbind option_bind]. destruct (strip 58 (skip_ws s2)) as [s3|] eqn:E3; [|done]. intros [= <- <-].
  split; [by apply is_string_true|]. eapply strip_units; [|exact E3]. by apply skip_ws_units.
Qed.

Lemma parse_literal_units s v r :
  Forall code_unit s -> parse_literal s = Some (v, r) -> strings_ok v = true /\ Forall code_unit r.
Proof.
  intros Hs. unfold parse_literal. intros E. repeat case_match; simplify_eq; (split; [done|]);
    by eapply strip_prefix_units.
Qed.

(** Parsing produces strings from strings. *)
Lemma parse_units f :
  (forall s v r, Forall code_unit s -> parse_value f s = Some (v, r) -> strings_ok v = true /\ Forall code_unit r) /\
  (forall acc s v r, strings_ok (JObj acc) = true -> Forall code_unit s -> parse_members f acc s = Some (v, r) ->
     strings_ok v = true /\ Forall code_unit r) /\
  (forall acc s v r, forallb strings_ok acc = true -> Forall code_unit s -> parse_elements f acc s = Some (v, r) ->
     strings_ok v = true /\ Forall code_unit r).
Proof.
  induction f as [|f (IHv & IHm & IHe)]; [done|]. split; [|split].
  - intros s v r Hs%skip_ws_units. cbn [parse_value].
    destruct (skip_ws s) as [|c s'] eqn:Es; [done|]. pose proof Hs as [Hc Hs']%Forall_cons_1.
    pose proof (skip_ws_units s' Hs') as Hw. destruct (c =? 123).
    { destruct (strip 125 (skip_ws s')) eqn:E; [apply strip_units in E; [|done]; by intros [= <- <-]|].
      by apply IHm. }
    destruct (c =? 91).
    { destruct (strip 93 (skip_ws s')) eqn:E; [apply strip_units in E; [|done]; by intros [= <- <-]|].
      by apply IHe. }
    destruct (c =? 34).
    { destruct (parse_string s') as [[t r']|] eqn:E; [|done]. apply parse_string_units in E as [H1 H2]; [|done].
      intros [= <- <-]. split; [by apply is_string_true|done]. }
    destruct (is_digit c || (c =? 45)).
    { destruct (span is_number_char (c :: s')) as [t rest] eqn:E. apply span_split in E as [E _].
      destruct (parse_number t) as [n|] eqn:En; [|done]. intros [= <- <-]. split; [done|].
      rewrite E in Hs. by apply Forall_app in Hs as [_ ?]. }
    by apply parse_literal_units.
  - intros acc s v r Hacc Hs. cbn [parse_members].
    destruct (parse_name s) as [[name s3]|] eqn:En; [|done]. apply parse_name_units in En as [Hn H3]; [|done].
    cbn [mbind option_bind]. destruct (parse_value f s3) as [[x s4]|] eqn:E4; [|done].
    apply IHv in E4 as [Hx H4]; [|done]. cbn [mbind option_bind].
    pose proof (set_property_strings _ _ _ Hn Hx Hacc) as Hset.
    pose proof (parse_separator_units 125 s4 H4). destruct (parse_separator 125 s4); [by apply IHm| |done].
    by intros [= <- <-].
  - intros acc s v r Hacc Hs. cbn [parse_elements].
    destruct (parse_value f s) as [[x s4]|] eqn:E4; [|done]. apply IHv in E4 as [Hx H4]; [|done].
    cbn [mbind option_bind].
    pose proof (parse_separator_units 93 s4 H4). destruct (parse_separator 93 s4); [|..|done].
    + apply IHe; [|done]. simpl. by rewrite Hx.
    + intros [= <- <-]. split; [|done]. cbn [strings_ok]. rewrite forallb_forall in Hacc |- *. intros y Hy.
      apply (in_rev (x :: acc)) in Hy as [<-|Hy]; [done|by apply Hacc].
Qed.

Lemma JSON_parse_strings s v : Forall code_unit s -> JSON_parse s = Ok v -> strings_ok v = true.
Proof.
  intros Hs. unfold JSON_parse. destruct (parse_value _ s) as [[x r]|] eqn:E; [|done].
  case_bool_decide; [|done]. intros [= <-]. by apply (proj1 (parse_units _) _ _ _ Hs E).
Qed.

Lemma names_ordered_NoDup names : names_ordered names = true -> NoDup names.
Proof.
  induction names as [|n names IH]; simpl; [constructor|]. rewrite andb_true_iff, forallb_forall. intros [H1 H2].
  apply list.NoDup_cons. split; [|by apply IH]. intros Hin%list_elem_of_In. specialize (H1 _ Hin).
  assert (str_eqb n n = true) as E by (by apply str_eqb_eq). rewrite E in H1. done.
Qed.
