(* ===== verification/Serializer.v ===== *)
(** * The default serializer

    [serializer.ts]: [JsonSerializer.dump] and [load], with the sentinel that
    stands for [undefined], and what a value looks like after the trip
    through JSON. *)

From S2P Require Import Prelude JsValue Duration Utf8 Config Key Metrics Frame Compression Json JsonText.

Definition JSON_UNDEFINED_SENTINEL : jsstr := js "__dialcache_json_undefined_v1__".

(** [app] is the behaviour of [JSON.stringify] on values with [toJSON]
    methods of the application. *)
Definition JsonSerializer_dump (app : jsval -> res (option jsstr)) (value : jsval) : res RedisCachePayload :=
  if is_undefined value then Ok (PString JSON_UNDEFINED_SENTINEL)
  else
    payload ← JSON_stringify app value;
    match payload with
    | None => Err (PlainError "DialCache JSON serializer cannot serialize this value")
    | Some t => Ok (PString t)
    end.

Definition JsonSerializer_load (value : RedisCachePayload) : res jsval :=
  let payload := match value with PBuffer b => utf8_decode b | PString s => s end in
  if str_eqb payload JSON_UNDEFINED_SENTINEL then Ok JUndefined else JSON_parse payload.

(** ** What JSON keeps of a value *)

(** A JavaScript value of this model: its finite numbers are doubles, its
    strings code units, its property names in the order objects keep. *)
Fixpoint js_value (v : jsval) : bool :=
  match v with
  | JNum (Fin q) => is_double q
  | JStr s => is_string s
  | JArr items => forallb js_value items
  | JObj members =>
      names_ordered (List.map fst members)
      && forallb (fun '(name, x) => is_string name && js_value x) members
  | _ => true
  end.

Definition has_no_text (v : jsval) : bool := match v with JUndefined | JFun => true | _ => false end.

(** Numbers that are not finite become [null], members without a text are
    dropped, elements without a text become [null]. *)
Fixpoint json_view (v : jsval) : jsval :=
  match v with
  | JNum (Fin q) => v
  | JNum _ => JNull
  | JArr items => JArr (List.map (fun x => if has_no_text x then JNull else json_view x) items)
  | JObj members =>
      JObj (flat_map (fun '(name, x) => if has_no_text x then [] else [(name, json_view x)]) members)
  | _ => v
  end.

(** ** Lemmas *)

Lemma undefined_or_not v : v = JUndefined \/ v <> JUndefined.
Proof. destruct v; auto. Qed.

Lemma has_no_text_spec v : has_no_text v = true <-> SerializeJSONProperty v = None.
Proof. by destruct v as [| | |[]| | | |]. Qed.

Lemma json_view_text v : has_no_text v = false -> SerializeJSONProperty (json_view v) = SerializeJSONProperty v.
Proof.
  induction v as [v Hv|items HF|members HF] using jsval_deep_ind; intros Ht.
  - by destruct v as [| | |[]| | | |].
  - simpl. do 4 f_equal. rewrite List.map_map. apply map_ext_Forall.
    eapply list.Forall_impl; [exact HF|]. simpl. intros x Hx. destruct (has_no_text x) eqn:E.
    + apply has_no_text_spec in E. by rewrite E.
    + by rewrite Hx.
  - simpl. do 4 f_equal. clear Ht. induction HF as [|[name x] members Hx _ IH]; [done|]. simpl.
    destruct (has_no_text x) eqn:E; simpl; rewrite IH.
    + apply has_no_text_spec in E. by rewrite E.
    + simpl in Hx. by rewrite Hx.
Qed.

Lemma names_ordered_sublist (a b : list jsstr) : sublist a b -> names_ordered b = true -> names_ordered a = true.
Proof.
  induction 1 as [|x a b H IH|x a b H IH]; simpl; [done|..]; rewrite ?andb_true_iff; intros [H1 H2]; [|by apply IH].
  split; [|by apply IH]. rewrite forallb_forall in H1 |- *. intros m Hm. apply H1.
  apply list_elem_of_In in Hm. apply list_elem_of_In. by eapply elem_of_submseteq; [|apply sublist_submseteq].
Qed.

Lemma json_view_names members :
  sublist (A:=jsstr) (List.map fst (flat_map (fun '(name, x) => if has_no_text x then [] else [(name, json_view x)]) members))
          (List.map fst members).
Proof.
  induction members as [|[name x] members IH]; simpl; [constructor|].
  destruct (has_no_text x); simpl; by constructor.
Qed.

(** The view is representable, and a representable value is its own view. *)
Lemma json_view_ok v : js_value v = true -> has_no_text v = false -> json_ok (json_view v) = true.
Proof.
  induction v as [v Hv|items HF|members HF] using jsval_deep_ind; intros Hj Ht.
  - by destruct v as [| | |[]| | | |].
  - simpl in Hj |- *. rewrite forallb_forall in Hj. apply forallb_forall. intros y Hy.
    apply in_map_iff in Hy as (x & <- & Hx). rewrite list.Forall_forall in HF.
    destruct (has_no_text x) eqn:E; [done|]. apply HF; [by apply list_elem_of_In|by apply Hj|done].
  - simpl in Hj |- *. apply andb_true_iff in Hj as [Hord Hj]. apply andb_true_iff. split.
    { by eapply names_ordered_sublist; [apply json_view_names|]. }
    clear Hord Ht. induction HF as [|[name x] members Hx _ IH]; [done|]. simpl in Hj |- *.
    rewrite !andb_true_iff in Hj. destruct Hj as [[Hn Hjx] Hj]. simpl in Hx.
    destruct (has_no_text x) eqn:E; simpl; [by apply IH|]. rewrite Hn, Hx by done. by apply IH.
Qed.

Lemma json_ok_value v : json_ok v = true -> js_value v = true /\ has_no_text v = false /\ json_view v = v.
Proof.
  induction v as [v Hv|items HF|members HF] using jsval_deep_ind; intros Hok.
  - by destruct v as [| | |[]| | | |].
  - simpl in Hok |- *. rewrite forallb_forall in Hok.
    assert (Forall (fun x => js_value x = true /\ has_no_text x = false /\ json_view x = x) items) as HF'.
    { rewrite list.Forall_forall in HF |- *. intros x Hx. apply HF; [done|]. by apply Hok, list_elem_of_In. }
    repeat split; [apply forallb_forall; intros x Hx; rewrite list.Forall_forall in HF'; by apply HF', list_elem_of_In|].
    f_equal. clear -HF'. induction HF' as [|x items (_ & H1 & H2) _ IH]; simpl; [done|]. by rewrite H1, H2, IH.
  - simpl in Hok |- *. apply andb_true_iff in Hok as [-> Hok].
    assert (forallb (fun '(name, x) => is_string name && js_value x) members = true /\
            flat_map (fun '(name, x) => if has_no_text x then [] else [(name, json_view x)]) members = members) as [-> ->]; [|done].
    induction HF as [|[name x] members Hx _ IH]; [done|]. simpl in Hok |- *. rewrite !andb_true_iff in Hok.
    destruct Hok as [[-> Hokx] Hok]. simpl in Hx. destruct (Hx Hokx) as (-> & -> & ->). destruct (IH Hok) as [-> ->]. done.
Qed.

(** The first code unit of a JSON text is never an underscore. *)
Lemma text_not_sentinel v : SerializeJSONProperty v <> Some JSON_UNDEFINED_SENTINEL.
Proof.
  destruct v as [| |[]|[| |q]|s| | |]; try done. simpl. unfold Number_toString.
  destruct (number_text q) as [t|] eqn:E; [|done]. simpl. intros [= ->].
  assert (is_double q = true) as Hq by (unfold is_double; by rewrite E).
  apply parse_Number_toString in Hq. unfold Number_toString in Hq. rewrite E in Hq. done.
Qed.

(** The payload of a value that has a text. *)
Lemma dump_text app v :
  v <> JUndefined -> calls_toJSON v = false ->
  JsonSerializer_dump app v =
  match SerializeJSONProperty v with
  | None => Err (PlainError "DialCache JSON serializer cannot serialize this value")
  | Some t => Ok (PString t)
  end.
Proof. intros Hv Hc. unfold JsonSerializer_dump, JSON_stringify. rewrite Hc. by destruct v. Qed.

Lemma load_text t v :
  t <> JSON_UNDEFINED_SENTINEL -> JSON_parse t = Ok v -> JsonSerializer_load (PString t) = Ok v.
Proof.
  intros Ht Hp. unfold JsonSerializer_load. destruct (str_eqb t JSON_UNDEFINED_SENTINEL) eqn:E; [|done].
  by apply str_eqb_eq in E.
Qed.

(** A well-formed string payload loads the same from its UTF-8 bytes. *)
Lemma load_bytes s :
  Forall code_unit s -> well_formed s ->
  JsonSerializer_load (PBuffer (utf8_encode s)) = JsonSerializer_load (PString s).
Proof. intros H1 H2. unfold JsonSerializer_load. by rewrite utf8_decode_encode. Qed.

(** The serializer's trip, on every value of the model it accepts: the
    payload it writes, and what reading it gives. *)
Lemma dump_load app v :
  js_value v = true -> calls_toJSON v = false -> v <> JFun ->
  exists s, JsonSerializer_dump app v = Ok (PString s) /\ Forall code_unit s /\ well_formed s /\
    JsonSerializer_load (PString s) = Ok (json_view v).
Proof.
  intros Hv Hc Hf. destruct (undefined_or_not v) as [->|Hu].
  - exists JSON_UNDEFINED_SENTINEL. split; [done|].
    destruct (scalar_text_ok JSON_UNDEFINED_SENTINEL); [|done].
    apply scalar_text_ascii. apply (bool_decide_eq_true_1 _). vm_compute. reflexivity.
  - assert (has_no_text v = false) as Ht by (by destruct v).
    pose proof (json_view_ok v Hv Ht) as Hok. destruct (json_ok_text _ Hok) as [t Et].
    pose proof Et as Et'. rewrite json_view_text in Et' by done.
    rewrite dump_text, Et' by done. exists t. split; [done|].
    destruct (scalar_text_ok t) as [H1 H2]; [by eapply json_text_scalar|]. split; [done|]. split; [done|].
    apply load_text; [intros ->; by apply text_not_sentinel in Et'|by apply JSON_parse_stringify].
Qed.

(** ** Properties *)


(** A record with a number, a string with a lone surrogate, a nested list
    with [undefined], and an index key. *)
Definition sample_value : jsval :=
  JObj [(js "7", JNum (Fin (1 # 2))); (js "name", JStr [0x41; 0xD83D; 0x22; 0xD83D; 0xDE00]);
        (js "gone", JUndefined); (js "list", JArr [JNull; JUndefined; JBool true; JNum NaN; JInt (-42)])].


(** The sentinel is unambiguous and failures are exact: among values
    without [toJSON] methods, only [undefined] is written as the sentinel,
    only a function is refused, and every text [load] refuses is a
    [SyntaxError]. *)
Theorem serializer_sentinel_unambiguous app v :
  calls_toJSON v = false ->
  (JsonSerializer_dump app v = Ok (PString JSON_UNDEFINED_SENTINEL) <-> v = JUndefined) /\
  (is_ok (JsonSerializer_dump app v) = false <-> v = JFun) /\
  (forall p e, JsonSerializer_load p = Err e -> e = SyntaxError).
Proof.
  intros Hc. destruct (undefined_or_not v) as [->|Hu].
  { split; [done|]. split; [done|]. intros p e. unfold JsonSerializer_load, JSON_parse. repeat case_match; naive_solver. }
  rewrite dump_text by done. split; [|split].
  - split; [|done]. case_match eqn:E; [|done]. intros [= ->]. by apply text_not_sentinel in E.
  - by destruct v as [| | |[]| | | |].
  - intros p e. unfold JsonSerializer_load, JSON_parse. repeat case_match; naive_solver.
Qed.

Lemma serializer_sentinel_unambiguous_witness :
  is_ok (JsonSerializer_dump (fun _ => Ok None) JFun) = false.
Proof. apply (serializer_sentinel_unambiguous (fun _ => Ok None) JFun); reflexivity. Defined.
