(* ===== verification/JsonTypes.v ===== *)
(** * Which result types may use the default serializer

    The compile-time part of [dialcache.ts]: [IsJsonCompatible] and its
    helpers decide from the declared type of a cached value whether the
    [serializer] option may be left out ([SerializerOption]). The types here
    are the TypeScript types the predicate distinguishes, as data; [inhabits]
    says which of the values of [jsval] a type declares, and the theorem is the
    promise of the predicate's own comment, that decoded JSON remains
    assignable to the declared type.  [jsval] has no bigint, symbol or cyclic
    value, so nothing inhabits [TBigint] and [TSymbol], and the extra members
    of an object are never such values either. *)

From S2P Require Import Prelude JsValue Duration Utf8 Config Key Metrics Frame Compression Json JsonText Serializer.

(** ** Types *)

(** The name of a property: its text, or a symbol (which JSON never
    writes). *)
Inductive prop_key :=
| StringKey (name : jsstr)
| NumberKey (name : jsstr)
| SymbolKey.

(** Intersections, generics and conditional types are resolved before the
    predicate looks, and built-in classes are interfaces with methods. An
    interface is a reference to its declared members, so types may be
    recursive. *)
Inductive ty :=
| TAny
| TUnknown
| TNever
| TVoid
| TUndefined
| TNull
| TString
| TNumber
| TBoolean
| TLiteral (v : jsval)
| TBigint
| TSymbol
| TFunction
| TArray (item : ty)
| TTuple (items : list ty)
| TObject (props : list (prop_key * bool * ty))
| TInterface (name : nat)
| TRecord (value : ty)
| TUnion (members : list ty).

(** A property: its key, whether it is optional, its type. *)
Definition property : Type := prop_key * bool * ty.

(** The members a union is distributed over; [never] has none. *)
Fixpoint constituents (t : ty) : list ty :=
  match t with
  | TNever => []
  | TUnion members => flat_map constituents members
  | _ => [t]
  end.

(** ** The predicate *)

(** [any] absorbs every union it is in, and [unknown] every other union. *)
Definition IsAny (t : ty) : bool :=
  existsb (fun c => match c with TAny => true | _ => false end) (constituents t).

Definition IsUnknown (t : ty) : bool :=
  if IsAny t then false
  else existsb (fun c => match c with TUnknown => true | _ => false end) (constituents t).

Definition is_never (t : ty) : bool := match constituents t with [] => true | _ => false end.

Definition AllTrue (results : list bool) : bool := forallb id results.

(** [Exclude<T, undefined>]. *)
Definition ExcludeUndefined (t : ty) : ty :=
  TUnion (List.filter (fun c => match c with TUndefined => false | _ => true end) (constituents t)).

(** [[T] extends [string | number | boolean | null]], of one member. *)
Definition is_json_primitive (t : ty) : bool :=
  match t with
  | TString | TNumber | TBoolean | TNull => true
  | TLiteral (JStr _ | JNum _ | JBool _) => true
  | _ => false
  end.

(** One entry of [IsJsonObject]'s mapped type: [{} extends Pick<T, Key>] holds
    of an optional property. [compatible] is [IsJsonCompatible] one level
    deeper, below the top. *)
Definition IsJsonProperty (compatible : ty -> bool) '((key, optional, t) : property) : bool :=
  match key with
  | SymbolKey => false
  | StringKey _ | NumberKey _ => if optional then compatible (ExcludeUndefined t) else compatible t
  end.

Definition IsJsonObject (compatible : ty -> bool) (props : list property) : bool :=
  match props with
  | [] => true
  | _ => AllTrue (List.map (IsJsonProperty compatible) props)
  end.

Definition IsJsonMember (env : nat -> list property) (compatible : ty -> bool) (TopLevel : bool) (t : ty) : bool :=
  if is_json_primitive t then true
  else
    match t with
    | TVoid | TUndefined => TopLevel
    | TFunction => false
    | TArray item => compatible item
    | TTuple items => compatible (TUnion items)
    | TObject props => IsJsonObject compatible props
    | TInterface name => IsJsonObject compatible (env name)
    | TRecord value => compatible (ExcludeUndefined value)
    | _ => false
    end.

(** [room] is what [Depth] leaves of its eight levels: [8 - Depth.length]. *)
Fixpoint IsJsonCompatible (env : nat -> list property) (room : nat) (TopLevel : bool) (t : ty) : bool :=
  if IsAny t then false
  else if IsUnknown t then false
  else if is_never t then true
  else
    match room with
    | O => false
    | S room => AllTrue (List.map (IsJsonMember env (IsJsonCompatible env room false) TopLevel) (constituents t))
    end.

Inductive serializer_option := SerializerOptional | SerializerRequired.

(** [IsJsonCompatible<Value>] with its defaults: at the top, at depth 0. *)
Definition SerializerOption (env : nat -> list property) (value : ty) : serializer_option :=
  if IsJsonCompatible env 8 true value then SerializerOptional else SerializerRequired.

(** ** The values of a type *)

Definition is_nullish (v : jsval) : bool := match v with JUndefined | JNull => true | _ => false end.

Definition key_is (key : prop_key) (name : jsstr) : bool :=
  match key with StringKey s | NumberKey s => str_eqb s name | SymbolKey => false end.

(** The empty object type holds everything but [null] and [undefined];
    an object type with members holds the objects with those members,
    whatever else they have. An optional member may be absent or
    [undefined]. *)
Definition has_prop (inhabits : ty -> jsval -> bool) (members : list (jsstr * jsval)) '((key, optional, t) : property) : bool :=
  (optional || existsb (fun '(name, _) => key_is key name) members)
  && forallb (fun '(name, x) => negb (key_is key name) || inhabits t x || (optional && is_undefined x)) members.

Definition has_props (inhabits : ty -> jsval -> bool) (props : list property) (v : jsval) : bool :=
  match props, v with
  | [], _ => negb (is_nullish v)
  | _, JObj members => forallb (has_prop inhabits members) props
  | _, _ => false
  end.

Fixpoint zip_all (f : ty -> jsval -> bool) (ts : list ty) (vs : list jsval) : bool :=
  match ts, vs with
  | [], [] => true
  | t :: ts, v :: vs => f t v && zip_all f ts vs
  | _, _ => false
  end.

(** [fuel] bounds the nesting of type constructors the judgement unfolds. *)
Fixpoint inhabits (env : nat -> list property) (fuel : nat) (t : ty) (v : jsval) : bool :=
  match fuel with
  | O => false
  | S fuel =>
      match t, v with
      | (TAny | TUnknown), _ => true
      | (TVoid | TUndefined), JUndefined => true
      | TNull, JNull => true
      | TString, JStr _ => true
      | TNumber, JNum _ => true
      | TBoolean, JBool _ => true
      | TLiteral (JStr a), JStr b => str_eqb a b
      | TLiteral (JNum a), JNum b => num_eqb a b
      | TLiteral (JBool a), JBool b => Bool.eqb a b
      | TFunction, JFun => true
      | TArray item, JArr items => forallb (inhabits env fuel item) items
      | TTuple ts, JArr items => zip_all (inhabits env fuel) ts items
      | TObject props, _ => has_props (inhabits env fuel) props v
      | TInterface name, _ => has_props (inhabits env fuel) (env name) v
      | TRecord value, JObj members => forallb (fun '(_, x) => inhabits env fuel value x) members
      | TUnion ts, _ => existsb (fun t => inhabits env fuel t v) ts
      | _, _ => false
      end
  end.

(** Plain data: no function anywhere, every number finite. The type system
    sees neither restriction: a function is a value of the empty object type,
    and [NaN] is a [number]. *)
Fixpoint plain_data (v : jsval) : bool :=
  match v with
  | JNum (Fin _) => true
  | JNum _ | JFun => false
  | JArr items => forallb plain_data items
  | JObj members => forallb (fun '(_, x) => plain_data x) members
  | _ => true
  end.

(** ** Lemmas *)

Lemma ty_union_ind (P : ty -> Prop) :
  (forall t, match t with TUnion _ => False | _ => True end -> P t) ->
  (forall members, Forall P members -> P (TUnion members)) ->
  forall t, P t.
Proof.
  intros H0 Hu. fix IH 1. intros [| | | | | | | | | | | | | | | | | |members]; try (apply H0; exact I).
  apply Hu. induction members as [|t members IHm]; constructor; [apply IH|exact IHm].
Qed.

(** A member of a distributed union is a union of one. *)
Lemma constituents_single t c : In c (constituents t) -> constituents c = [c].
Proof.
  induction t as [t Ht|members HF] using ty_union_ind.
  - destruct t; simpl in Ht |- *; try contradiction; intros [<-|[]]; reflexivity.
  - simpl. intros (m & Hm & Hc)%in_flat_map. rewrite List.Forall_forall in HF. exact (HF m Hm Hc).
Qed.

Lemma constituents_of_singles cs :
  Forall (fun c => constituents c = [c]) cs -> constituents (TUnion cs) = cs.
Proof. simpl. induction 1 as [|c cs Hc _ IH]; simpl; [reflexivity|]. rewrite Hc, IH. reflexivity. Qed.

Lemma ExcludeUndefined_constituents t :
  constituents (ExcludeUndefined t) =
  List.filter (fun c => match c with TUndefined => false | _ => true end) (constituents t).
Proof.
  apply constituents_of_singles, List.Forall_forall. intros c [Hc _]%filter_In. exact (constituents_single t c Hc).
Qed.

Lemma existsb_single (f : ty -> bool) cs c : existsb f cs = false -> In c cs -> existsb f [c] = false.
Proof.
  intros Hf Hc. simpl. rewrite orb_false_r. apply not_true_is_false. intros Ht.
  assert (existsb f cs = true) by (apply existsb_exists; eauto). congruence.
Qed.

Section Compatible.
Context (env : nat -> list property).

(** The predicate distributes: what it accepts, it accepts member by
    member. *)
Lemma compatible_members room top t c :
  IsJsonCompatible env room top t = true -> In c (constituents t) -> IsJsonCompatible env room top c = true.
Proof.
  intros H Hc. pose proof (constituents_single t c Hc) as Hs.
  destruct room as [|room]; simpl in H |- *; unfold IsUnknown, IsAny, is_never in *; rewrite Hs;
    destruct (existsb _ (constituents t)) eqn:Ea; try discriminate H; rewrite (existsb_single _ _ _ Ea Hc);
    destruct (existsb _ (constituents t)) eqn:Eu in H; try discriminate H; rewrite (existsb_single _ _ _ Eu Hc);
    destruct (constituents t) as [|c' cs] eqn:Et; try (destruct Hc; fail); try discriminate H.
  unfold AllTrue in *. rewrite forallb_forall in H. simpl. rewrite andb_true_r.
  apply H, in_map_iff. eauto.
Qed.

Lemma compatible_single room top t :
  constituents t = [t] -> IsJsonCompatible env room top t = true ->
  exists room', IsJsonMember env (IsJsonCompatible env room' false) top t = true.
Proof.
  intros Hs H. destruct room as [|room]; simpl in H; unfold is_never in H; rewrite Hs in H;
    destruct (IsAny t), (IsUnknown t); try discriminate H.
  exists room. unfold AllTrue in H. simpl in H. rewrite andb_true_r in H. exact H.
Qed.

(** What the predicate establishes of a member [c] of a type when the value
    at hand is [v]: [c] is accepted, or it is the [undefined] an optional
    property was stripped of, and [v] is not [undefined]. *)
Definition accepted (room : nat) (top : bool) (v : jsval) (t : ty) : Prop :=
  forall c, In c (constituents t) ->
  IsJsonCompatible env room top c = true \/ (c = TUndefined /\ v <> JUndefined).

Lemma accepted_compatible room top v t : IsJsonCompatible env room top t = true -> accepted room top v t.
Proof. intros H c Hc. left. exact (compatible_members _ _ _ _ H Hc). Qed.

Lemma accepted_optional room top v t :
  IsJsonCompatible env room top (ExcludeUndefined t) = true -> v <> JUndefined -> accepted room top v t.
Proof.
  intros H Hv c Hc. destruct c; try (right; split; [reflexivity|exact Hv]); left;
    (apply (compatible_members _ _ _ _ H); rewrite ExcludeUndefined_constituents; apply filter_In; split; [exact Hc|reflexivity]).
Qed.

Lemma accepted_member room top v members t :
  In t members -> accepted room top v (TUnion members) -> accepted room top v t.
Proof. intros Ht H c Hc. apply H. simpl. apply in_flat_map. eauto. Qed.

Lemma accepted_single room top v t :
  constituents t = [t] -> t <> TUndefined -> accepted room top v t ->
  exists room', IsJsonMember env (IsJsonCompatible env room' false) top t = true.
Proof.
  intros Hs Ht H. destruct (H t) as [Hc|[Hu _]]; [rewrite Hs; left; reflexivity| |contradiction].
  exact (compatible_single _ _ _ Hs Hc).
Qed.

Lemma accepted_undefined room top : accepted room top JUndefined TUndefined -> top = true.
Proof.
  intros H. destruct (H TUndefined) as [Hc|[_ Hu]]; [left; reflexivity| |contradiction].
  apply compatible_single in Hc as [room' Hm]; [exact Hm|reflexivity].
Qed.
End Compatible.

(** One level of the trip: what holds of the parts of a value holds of its
    elements and members after the trip. *)
Section Level.
Context (f : ty -> jsval -> bool) (compatible : ty -> bool).

(** A value of the type that JSON writes, and reads back as one. *)
Definition keeps (t : ty) (x : jsval) : Prop :=
  f t x = true -> plain_data x = true -> f t (json_view x) = true /\ has_no_text x = false.

Hypothesis compatible_keeps : forall t x, compatible t = true -> keeps t x.
Hypothesis optional_keeps : forall t x, compatible (ExcludeUndefined t) = true -> x <> JUndefined -> keeps t x.

Lemma elements_keep t items :
  compatible t = true -> forallb (f t) items = true -> forallb plain_data items = true ->
  forallb (f t) (List.map (fun x => if has_no_text x then JNull else json_view x) items) = true.
Proof.
  intros Hc Hf Hp. rewrite forallb_forall in Hf, Hp. apply forallb_forall. intros y (x & <- & Hx)%in_map_iff.
  destruct (compatible_keeps t x Hc (Hf x Hx) (Hp x Hx)) as [Hk ->]. exact Hk.
Qed.

Lemma tuple_keeps ts items :
  (forall t x, In t ts -> keeps t x) -> zip_all f ts items = true -> forallb plain_data items = true ->
  zip_all f ts (List.map (fun x => if has_no_text x then JNull else json_view x) items) = true.
Proof.
  revert items. induction ts as [|t ts IH]; intros [|x items] Hk Hz Hp; simpl in Hz, Hp |- *; try congruence.
  apply andb_true_iff in Hz as [Hx Hz]. apply andb_true_iff in Hp as [Hpx Hp].
  destruct (Hk t x (or_introl eq_refl) Hx Hpx) as [Hv ->]. rewrite Hv. simpl.
  apply IH; [|exact Hz|exact Hp]. intros t' x' Ht'. apply Hk. right. exact Ht'.
Qed.

(** The members that the trip leaves in an object. *)
Lemma view_members_in (members : list (jsstr * jsval)) (name : jsstr) (y : jsval) :
  In (name, y) (flat_map (fun '(name, x) => if has_no_text x then [] else [(name, json_view x)]) members) <->
  exists x, In (name, x) members /\ has_no_text x = false /\ y = json_view x.
Proof.
  rewrite in_flat_map. split.
  - intros ([n x] & Hin & Hy). destruct (has_no_text x) eqn:E; [destruct Hy|].
    destruct Hy as [[= <- <-]|[]]. eauto.
  - intros (x & Hin & E & ->). exists (name, x). split; [exact Hin|]. rewrite E. left. reflexivity.
Qed.

Lemma record_keeps t (members : list (jsstr * jsval)) :
  compatible (ExcludeUndefined t) = true ->
  forallb (fun '(_, x) => f t x) members = true -> forallb (fun '(_, x) => plain_data x) members = true ->
  forallb (fun '(_, x) => f t x)
    (flat_map (fun '(name, x) => if has_no_text x then [] else [(name, json_view x)]) members) = true.
Proof.
  intros Hc Hf Hp. rewrite forallb_forall in Hf, Hp. apply forallb_forall.
  intros [name y] (x & Hin & E & ->)%view_members_in.
  apply (optional_keeps t x Hc); [intros ->; discriminate E|exact (Hf _ Hin)|exact (Hp _ Hin)].
Qed.

Lemma property_keeps members (p : property) :
  IsJsonProperty compatible p = true -> has_prop f members p = true ->
  forallb (fun '(_, x) => plain_data x) members = true ->
  has_prop f (flat_map (fun '(name, x) => if has_no_text x then [] else [(name, json_view x)]) members) p = true.
Proof.
  destruct p as [[key optional] t]. unfold has_prop. simpl.
  intros Hc [Hex Hall]%andb_true_iff Hp. rewrite forallb_forall in Hall, Hp.
  assert (forall name x, In (name, x) members -> key_is key name = true ->
            (optional = true /\ x = JUndefined) \/ (f t (json_view x) = true /\ has_no_text x = false)) as Hx.
  { intros name x Hin Hk. specialize (Hall _ Hin). specialize (Hp _ Hin). simpl in Hall, Hp. rewrite Hk in Hall. simpl in Hall.
    destruct (undefined_or_not x) as [->|Hu], optional; rewrite ?andb_false_r, ?orb_false_r in Hall; eauto.
    all: right; destruct key; try discriminate Hk.
    all: try (apply compatible_keeps; assumption).
    all: apply orb_true_iff in Hall as [Hf|Hf]; [apply optional_keeps; assumption|destruct x; try discriminate Hf; congruence]. }
  apply andb_true_iff. split.
  - destruct optional; [reflexivity|]. simpl in Hex |- *. apply existsb_exists in Hex as ([name x] & Hin & Hk).
    destruct (Hx name x Hin Hk) as [[[=] _]|[_ E]].
    apply existsb_exists. exists (name, json_view x). split; [|exact Hk]. apply view_members_in. eauto.
  - apply forallb_forall. intros [name y] (x & Hin & E & ->)%view_members_in.
    destruct (key_is key name) eqn:Hk; [simpl|reflexivity].
    destruct (Hx name x Hin Hk) as [[_ ->]|[-> _]]; [discriminate E|reflexivity].
Qed.

Lemma object_keeps props v :
  IsJsonObject compatible props = true -> has_props f props v = true -> plain_data v = true ->
  has_props f props (json_view v) = true /\ has_no_text v = false.
Proof.
  intros Hc Hv Hp. destruct props as [|p props].
  - destruct v as [| |b|[| |q]|s|items|members|]; try discriminate; split; reflexivity.
  - destruct v as [| |b|n|s|items|members|]; try discriminate Hv. split; [|reflexivity].
    unfold has_props in Hv. cbn [json_view has_props]. rewrite forallb_forall in Hv. apply forallb_forall. intros q Hq.
    apply property_keeps; [|exact (Hv q Hq)|exact Hp].
    unfold IsJsonObject, AllTrue in Hc. rewrite forallb_forall in Hc. exact (Hc _ (in_map _ _ _ Hq)).
Qed.
End Level.

(** The values of the types without parts are themselves after the trip. *)
Definition has_parts (t : ty) : bool :=
  match t with
  | TArray _ | TTuple _ | TObject _ | TInterface _ | TRecord _ | TUnion _ => true
  | _ => false
  end.

Lemma leaf_inhabits env fuel room top t v :
  has_parts t = false -> accepted env room top v t -> inhabits env (S fuel) t v = true -> plain_data v = true ->
  json_view v = v /\ (top = false -> has_no_text v = false).
Proof.
  intros Hl Ha Hi Hp.
  assert (v = JUndefined \/ exists room', IsJsonMember env (IsJsonCompatible env room' false) top t = true) as Hm.
  { destruct t; try discriminate Hl; try discriminate Hi;
      try (right; apply (accepted_single env room top v); [reflexivity|discriminate|exact Ha]).
    destruct v; try discriminate Hi. left. reflexivity. }
  destruct Hm as [->|[room' Hm]]; [split; [reflexivity|intros ->]|].
  - destruct t as [| | | | | | | | |l| | | | | | | | |]; try (destruct l); try discriminate Hl; try discriminate Hi.
    4: discriminate (accepted_undefined env room false Ha).
    all: apply accepted_single in Ha as [room' Hm]; [discriminate Hm|reflexivity|discriminate].
  - destruct t as [| | | | | | | | |l| | | | | | | | |]; try discriminate Hl; try discriminate Hm;
      try (destruct l; try discriminate Hi); destruct v as [| | |[]| | | |]; try discriminate Hi; try discriminate Hp;
      (split; [reflexivity|intros ->]); try reflexivity; discriminate Hm.
Qed.

(** The trip keeps a value in every type the predicate accepts. Below the
    top, such a value always has a JSON text. *)
Lemma view_inhabits env fuel : forall room top t v,
  accepted env room top v t -> inhabits env fuel t v = true -> plain_data v = true ->
  inhabits env fuel t (json_view v) = true /\ (top = false -> has_no_text v = false).
Proof.
  induction fuel as [|fuel IH]; intros room top t v Ha Hi Hp; [discriminate Hi|].
  destruct (has_parts t) eqn:Hl.
  2: { destruct (leaf_inhabits env fuel room top t v Hl Ha Hi Hp) as [-> Ht]. split; [exact Hi|exact Ht]. }
  assert (forall room' t x, IsJsonCompatible env room' false t = true -> keeps (inhabits env fuel) t x) as Hcomp.
  { intros room' t' x Hc Hx Hpx. destruct (IH room' false t' x) as [H1 H2]; auto. exact (accepted_compatible _ _ _ _ _ Hc). }
  assert (forall room' t x, IsJsonCompatible env room' false (ExcludeUndefined t) = true -> x <> JUndefined ->
            keeps (inhabits env fuel) t x) as Hopt.
  { intros room' t' x Hc Hu Hx Hpx. destruct (IH room' false t' x) as [H1 H2]; auto. exact (accepted_optional _ _ _ _ _ Hc Hu). }
  destruct t as [| | | | | | | | |l| | | |item|ts|props|name|value|ts]; try discriminate Hl.
  6: { simpl in Hi |- *. apply existsb_exists in Hi as (t & Ht & Hi).
       destruct (IH room top t v (accepted_member env room top v ts t Ht Ha) Hi Hp) as [Hv Htext].
       split; [|exact Htext]. apply existsb_exists. eauto. }
  all: apply accepted_single in Ha as [room' Hm]; [|reflexivity|discriminate].
  - destruct v; try discriminate Hi. split; [|reflexivity].
    exact (elements_keep _ _ (Hcomp room') item items Hm Hi Hp).
  - destruct v; try discriminate Hi. split; [|reflexivity].
    apply (tuple_keeps (inhabits env fuel)); [|exact Hi|exact Hp].
    intros t x Ht Hx Hpx. destruct (IH room' false t x) as [H1 H2]; auto.
    apply (accepted_member env room' false x ts t Ht). exact (accepted_compatible _ _ _ _ _ Hm).
  - destruct (object_keeps _ _ (Hcomp room') (Hopt room') props v Hm Hi Hp) as [H1 H2]. auto.
  - destruct (object_keeps _ _ (Hcomp room') (Hopt room') (env name) v Hm Hi Hp) as [H1 H2]. auto.
  - destruct v; try discriminate Hi. split; [|reflexivity].
    exact (record_keeps _ _ (Hopt room') value members Hm Hi Hp).
Qed.

(** Plain data calls no [toJSON] method. *)
Lemma plain_calls_nothing v : plain_data v = true -> calls_toJSON v = false.
Proof.
  induction v as [v Hv|items HF|members HF] using jsval_deep_ind; intros Hp.
  - destruct v; try contradiction; reflexivity.
  - simpl in Hp |- *. induction HF as [|x items Hx _ IH]; [reflexivity|]. simpl in Hp |- *.
    apply andb_true_iff in Hp as [Hpx Hp]. rewrite (Hx Hpx). exact (IH Hp).
  - assert (forall name, assoc name members <> Some JFun) as Hf.
    { intros name. simpl in Hp. clear HF. induction members as [|[n x] members IH]; [discriminate|].
      simpl in Hp |- *. apply andb_true_iff in Hp as [Hpx Hp]. case_match; [|exact (IH Hp)].
      intros [= ->]. discriminate Hpx. }
    simpl in Hp |- *. specialize (Hf (js "toJSON")). destruct (assoc _ members) as [[]|]; try contradiction; simpl.
    all: clear Hf; induction HF as [|[key x] members Hx _ IH]; [reflexivity|]; simpl in Hp, Hx |- *;
      apply andb_true_iff in Hp as [Hpx Hp]; rewrite (Hx Hpx); exact (IH Hp).
Qed.

(** ** Properties *)


(** The record type of the package's type tests, with its optional member
    widened by [undefined], and a value that leaves [undefined] in it. *)
Definition no_interfaces : nat -> list property := fun _ => [].

Definition JsonCompatibleRecord : ty :=
  TObject [(StringKey (js "id"), false, TString);
           (StringKey (js "nested"), false,
             TObject [(StringKey (js "enabled"), false, TBoolean); (StringKey (js "scores"), false, TArray TNumber)]);
           (StringKey (js "nickname"), true, TUnion [TString; TUndefined])].

Definition json_record : jsval :=
  JObj [(js "id", JStr (js "7"));
        (js "nested", JObj [(js "enabled", JBool true); (js "scores", JArr [JInt 1; JInt 2])]);
        (js "nickname", JUndefined)].


(** A type that mentions itself always asks for a serializer: the predicate
    gives up after eight levels. *)
Theorem recursive_type_needs_serializer env name key optional t :
  In (key, optional, t) (env name) -> In (TInterface name) (constituents t) ->
  SerializerOption env (TInterface name) = SerializerRequired.
Proof.
  intros Hin Ht. unfold SerializerOption.
  assert (forall room top, IsJsonCompatible env room top (TInterface name) = false) as H; [|rewrite H; reflexivity].
  induction room as [|room IH]; intros top; [reflexivity|].
  apply not_true_is_false. intros Hc. simpl in Hc. rewrite andb_true_r in Hc. unfold id in Hc.
  unfold IsJsonMember, IsJsonObject in Hc. simpl in Hc. destruct (env name) as [|p props] eqn:E; [destruct Hin|].
  rewrite <- E in *. unfold AllTrue in Hc. rewrite forallb_forall in Hc.
  specialize (Hc _ (in_map (IsJsonProperty _) _ _ Hin)). unfold IsJsonProperty, id in Hc.
  assert (IsJsonCompatible env room false (TInterface name) = true) as Hself; [|rewrite IH in Hself; discriminate Hself].
  destruct key; try discriminate Hc; destruct optional; apply (compatible_members env room false _ _ Hc); try exact Ht;
    rewrite ExcludeUndefined_constituents; apply filter_In; auto.
Qed.

(** The cases the package's type tests list. *)
Lemma type_tests :
  List.map (SerializerOption no_interfaces)
    [JsonCompatibleRecord; TObject []; TUndefined; TVoid; TNever; TRecord (TUnion [TNumber; TUndefined])]
  = List.repeat SerializerOptional 6 /\
  List.map (SerializerOption no_interfaces)
    [TBigint; TFunction; TSymbol; TUnknown; TAny; TUnion [TAny; TString];
     TObject [(StringKey (js "value"), false, TUnion [TString; TUndefined])];
     TArray TUndefined; TObject [(SymbolKey, false, TString)];
     TObject [(StringKey (js "id"), false, TString); (StringKey (js "label"), false, TFunction)];
     TArray (TArray (TArray (TArray (TArray (TArray (TArray (TArray TString)))))))]
  = List.repeat SerializerRequired 11.
Proof. split; vm_compute; reflexivity. Qed.
