(* ===== verification/LogText.v ===== *)
(** * Bounded log text

    The text helpers of [internal/shadow-log-json.ts]: the UTF-8 clamp every
    logged field goes through, and the JSON pointers of the mismatch
    entries, built no further than the clamp can keep. *)

From S2P Require Import Prelude JsValue Duration Utf8 Config Key Metrics Frame Json JsonText.

(** ** Limits *)

Definition SHADOW_LOG_KEY_MAX_BYTES : Z := 2 * 1024.
Definition SHADOW_LOG_VALUE_MAX_BYTES : Z := 8 * 1024.
Definition SHADOW_LOG_DIFF_MAX_BYTES : Z := 8 * 1024.
Definition SHADOW_MISMATCH_MAX_ENTRIES : nat := 64.
Definition SHADOW_MISMATCH_PATH_MAX_BYTES : Z := 512.
Definition SHADOW_MISMATCH_SIDE_MAX_BYTES : Z := 1024.
Definition SHADOW_MISMATCH_MAX_DEPTH : nat := 32.
Definition SHADOW_LOG_TRUNCATION_MARKER : jsstr := js "...[truncated]".

(** [UTF8_ENCODER.encode] of the marker. *)
Definition TRUNCATION_MARKER_BYTES : bytes := utf8_encode SHADOW_LOG_TRUNCATION_MARKER.

(** ** The clamp *)

(** [TextEncoder.encodeInto]: the code points that fit into [room] bytes, in
    order; an unpaired surrogate is written as U+FFFD. *)
Fixpoint encodeInto (cs : list Z) (room : Z) : list Z :=
  match cs with
  | [] => []
  | c :: r =>
      let n := Z.of_nat (length (utf8_code_point c)) in
      if n <=? room then c :: encodeInto r (room - n) else []
  end.

(** [TextDecoder("utf-8", { fatal: true }).decode] on valid UTF-8: a leading
    byte order mark is dropped. *)
Definition UTF8_DECODER_decode (bs : bytes) : jsstr :=
  utf8_decode (if bool_decide (take 3 bs = [239; 187; 191]) then drop 3 bs else bs).

Definition clampUtf8 (value : jsstr) (maxBytes : Z) : jsstr :=
  let encoded := encodeInto (code_points value) maxBytes in
  if (length (units encoded) =? length value)%nat then value
  else
    let content := encodeInto (code_points value) (maxBytes - Z.of_nat (length TRUNCATION_MARKER_BYTES)) in
    UTF8_DECODER_decode ((content ≫= utf8_code_point) ++ TRUNCATION_MARKER_BYTES).

Definition previewShadowLogKey (value : jsstr) : jsstr := clampUtf8 value SHADOW_LOG_KEY_MAX_BYTES.

(** ** JSON pointers *)

(** A reference token: an array index or a member name. *)
Inductive token := TIndex (i : nat) | TName (name : jsstr).

(** [s.replaceAll(c, r)] for a one-unit pattern. *)
Definition replaceAll (c : Z) (r s : jsstr) : jsstr := s ≫= fun x => if x =? c then r else [x].

Definition escapePointerToken (name : jsstr) : jsstr :=
  replaceAll 47 (js "~1") (replaceAll 126 (js "~0") name).

Definition keptToken (t : token) : jsstr :=
  match t with
  | TIndex i => 47 :: String_of_Z (Z.of_nat i)
  | TName name => 47 :: escapePointerToken (take (Z.to_nat SHADOW_MISMATCH_PATH_MAX_BYTES) name)
  end.

Fixpoint kept_from (path : jsstr) (tokens : list token) : jsstr :=
  match tokens with
  | [] => path
  | t :: rest =>
      if SHADOW_MISMATCH_PATH_MAX_BYTES <? Z.of_nat (length path) then path
      else kept_from (path ++ keptToken t) rest
  end.

Definition keptPointer (tokens : list token) : jsstr := kept_from [] tokens.

Definition clampPointer (path : jsstr) : jsstr := clampUtf8 path SHADOW_MISMATCH_PATH_MAX_BYTES.

(** The whole pointer, as RFC 6901 writes it. *)
Definition fullToken (t : token) : jsstr :=
  match t with
  | TIndex i => 47 :: String_of_Z (Z.of_nat i)
  | TName name => 47 :: escapePointerToken name
  end.

Definition fullPointer (tokens : list token) : jsstr := tokens ≫= fullToken.

(** ** Lemmas on the clamp *)

Definition point_bytes (cs : list Z) : Z := Z.of_nat (length (cs ≫= utf8_code_point)).

Lemma point_bytes_cons c cs : point_bytes (c :: cs) = Z.of_nat (length (utf8_code_point c)) + point_bytes cs.
Proof. unfold point_bytes. rewrite bind_cons, length_app. lia. Qed.

Lemma byteLength_points s : byteLength s = point_bytes (code_points s).
Proof. done. Qed.

Lemma utf8_code_point_length c : (1 <= length (utf8_code_point c) <= 4)%nat.
Proof. unfold utf8_code_point, utf8_scalar, is_surrogate. cmp; simpl; lia. Qed.

(** A code point takes at least as many bytes as code units. *)
Lemma units_of_length c : (1 <= length (units_of c) <= length (utf8_code_point c))%nat.
Proof.
  unfold units_of, utf8_code_point, utf8_scalar, is_surrogate. cmp; simpl; lia.
Qed.

Lemma units_cons c cs : units (c :: cs) = units_of c ++ units cs.
Proof. unfold units. by rewrite bind_cons. Qed.

Lemma units_length_bytes cs : Z.of_nat (length (units cs)) <= point_bytes cs.
Proof.
  induction cs as [|c cs IH]; [done|]. rewrite units_cons, length_app, point_bytes_cons.
  pose proof (units_of_length c). lia.
Qed.

Lemma encodeInto_prefix cs room : encodeInto cs room `prefix_of` cs.
Proof.
  revert room. induction cs as [|c cs IH]; intros room; simpl; [done|].
  case_match; [by apply prefix_cons|apply prefix_nil].
Qed.

Lemma encodeInto_bytes cs room : 0 <= room -> point_bytes (encodeInto cs room) <= room.
Proof.
  revert room. induction cs as [|c cs IH]; intros room Hr; simpl; [done|].
  case_match eqn:E; [|done]. rewrite point_bytes_cons. specialize (IH (room - Z.of_nat (length (utf8_code_point c)))).
  lia.
Qed.

(** Everything fits exactly when the bytes do. *)
Lemma encodeInto_all cs room : point_bytes cs <= room -> encodeInto cs room = cs.
Proof.
  revert room. induction cs as [|c cs IH]; intros room Hb; simpl; [done|]. rewrite point_bytes_cons in Hb.
  assert (0 <= point_bytes cs) by (unfold point_bytes; lia).
  destruct (Z.leb_spec (Z.of_nat (length (utf8_code_point c))) room); [|lia]. rewrite IH by lia. done.
Qed.

(** The points taken depend only on what is before the first that does not
    fit. *)
Lemma encodeInto_app a b room : room < point_bytes a -> encodeInto (a ++ b) room = encodeInto a room.
Proof.
  revert room. induction a as [|c a IH]; intros room Hb; simpl.
  - assert (room < 0) by (unfold point_bytes in Hb; simpl in Hb; lia). destruct b as [|c b]; [done|]. simpl.
    by destruct (Z.leb_spec (Z.of_nat (length (utf8_code_point c))) room); [lia|].
  - rewrite point_bytes_cons in Hb. case_match; [|done]. rewrite IH by lia. done.
Qed.

(** All code units were read exactly when the bytes fit. *)
Lemma encodeInto_read s room :
  0 <= room -> Forall code_unit s ->
  (length (units (encodeInto (code_points s) room)) =? length s)%nat = bool_decide (byteLength s <= room).
Proof.
  intros Hr Hs. rewrite byteLength_points. destruct (encodeInto_prefix (code_points s) room) as [rest E].
  assert (length s = length (units (encodeInto (code_points s) room)) + length (units rest))%nat as Hlen.
  { rewrite <- (units_code_points s Hs) at 1. rewrite E at 1. unfold units. by rewrite bind_app, length_app. }
  case_bool_decide as Hb.
  - rewrite encodeInto_all by done. rewrite units_code_points by done. apply Nat.eqb_refl.
  - apply Nat.eqb_neq. intros Heq. destruct rest as [|c rest].
    + apply Hb. rewrite E, app_nil_r. by apply encodeInto_bytes.
    + rewrite units_cons, length_app in Hlen. pose proof (units_of_length c). lia.
Qed.

(** The scalar values a decoder sees after [encodeInto]. *)
Definition to_scalar (c : Z) : Z := if is_surrogate c then 0xFFFD else c.

Lemma to_scalar_scalar c : 0 <= c <= 0x10FFFF -> scalar (to_scalar c).
Proof. intros Hc. unfold to_scalar. destruct (is_surrogate c) eqn:E; by split. Qed.

Lemma utf8_to_scalar c : utf8_code_point c = utf8_scalar (to_scalar c).
Proof. unfold utf8_code_point, to_scalar. by destruct (is_surrogate c). Qed.

Lemma utf8_to_scalars cs : (cs ≫= utf8_code_point) = ((to_scalar <$> cs) ≫= utf8_scalar).
Proof.
  induction cs as [|c cs IH]; [done|]. rewrite fmap_cons, !bind_cons, IH. by rewrite utf8_to_scalar.
Qed.

(** A leading byte order mark, as a code point. *)
Definition drop_bom (cs : list Z) : list Z :=
  match cs with c :: r => if c =? 0xFEFF then r else cs | [] => [] end.

Lemma bom_bytes c r :
  scalar c -> bool_decide (take 3 (utf8_scalar c ++ r) = [239; 187; 191]) = true -> c = 0xFEFF.
Proof.
  intros [Hc Hs] Hb. apply bool_decide_eq_true in Hb. apply is_surrogate_false in Hs. unfold utf8_scalar in Hb.
  revert Hb. cmp; simpl; intros [=]; zdm.
Qed.

Lemma decode_scalars cs :
  Forall scalar cs -> UTF8_DECODER_decode (cs ≫= utf8_scalar) = units (drop_bom cs).
Proof.
  assert (forall l, Forall scalar l -> utf8_decode (l ≫= utf8_scalar) = units l) as Hd.
  { intros l Hl. unfold utf8_decode. rewrite <- (app_nil_r (l ≫= utf8_scalar)), decode_utf8_scalars by done.
    simpl. by rewrite app_nil_r. }
  intros Hcs. unfold UTF8_DECODER_decode. destruct Hcs as [|c cs Hc Hcs]; [done|]. rewrite bind_cons.
  destruct (bool_decide _) eqn:E.
  - apply bom_bytes in E as ->; [|done]. simpl. by apply Hd.
  - unfold drop_bom. destruct (Z.eqb_spec c 0xFEFF) as [->|Hne]; [discriminate E|].
    rewrite <- bind_cons. apply Hd. by constructor.
Qed.

Lemma marker_bytes : (SHADOW_LOG_TRUNCATION_MARKER ≫= utf8_scalar) = TRUNCATION_MARKER_BYTES.
Proof. by vm_compute. Qed.

Lemma marker_scalar : Forall scalar SHADOW_LOG_TRUNCATION_MARKER.
Proof.
  apply scalar_text_ascii_points. apply (bool_decide_eq_true_1 _). by vm_compute.
Qed.

Lemma encodeInto_scalars s room :
  Forall code_unit s -> Forall scalar (to_scalar <$> encodeInto (code_points s) room).
Proof.
  intros Hs%code_points_bound. apply list.Forall_forall. intros c Hc.
  apply list_elem_of_fmap in Hc as (x & -> & Hx). apply to_scalar_scalar. rewrite list.Forall_forall in Hs.
  apply Hs. destruct (encodeInto_prefix (code_points s) room) as [rest ->]. apply elem_of_app. by left.
Qed.

(** What a truncated text keeps: the points that fit before the marker. *)
Definition kept_points (s : jsstr) (maxBytes : Z) : list Z :=
  drop_bom (to_scalar <$> encodeInto (code_points s) (maxBytes - 14)).

Lemma drop_bom_app cs m : match m with c :: _ => c <> 0xFEFF | [] => True end -> drop_bom (cs ++ m) = drop_bom cs ++ m.
Proof.
  intros Hm. destruct cs as [|c cs]; simpl; [|by destruct (c =? 0xFEFF)].
  destruct m as [|c m]; [done|]. simpl. by apply Z.eqb_neq in Hm as ->.
Qed.

(** The clamp, by cases. *)
Lemma clampUtf8_cases s maxBytes :
  0 <= maxBytes -> Forall code_unit s ->
  (byteLength s <= maxBytes /\ clampUtf8 s maxBytes = s) \/
  (maxBytes < byteLength s /\
   clampUtf8 s maxBytes = units (kept_points s maxBytes) ++ SHADOW_LOG_TRUNCATION_MARKER).
Proof.
  intros Hm Hs. unfold clampUtf8. rewrite encodeInto_read by done. case_bool_decide; [by left|right]. split; [lia|].
  rewrite utf8_to_scalars, <- marker_bytes, <- bind_app, decode_scalars.
  2: { apply Forall_app. split; [by apply encodeInto_scalars|apply marker_scalar]. }
  rewrite drop_bom_app by done. unfold units at 1. rewrite bind_app. f_equal.
Qed.

Lemma point_bytes_app a b : point_bytes (a ++ b) = point_bytes a + point_bytes b.
Proof. unfold point_bytes. rewrite bind_app, length_app. lia. Qed.

Lemma point_bytes_to_scalar cs : point_bytes (to_scalar <$> cs) = point_bytes cs.
Proof.
  induction cs as [|c cs IH]; [done|]. rewrite fmap_cons, !point_bytes_cons, IH. f_equal. f_equal. f_equal.
  unfold utf8_code_point, to_scalar. by destruct (is_surrogate c) eqn:E; rewrite ?E.
Qed.

Lemma drop_bom_bytes cs : point_bytes (drop_bom cs) <= point_bytes cs.
Proof. destruct cs as [|c cs]; simpl; [lia|]. case_match; [rewrite point_bytes_cons; lia|lia]. Qed.

Lemma drop_bom_scalars cs : Forall scalar cs -> Forall scalar (drop_bom cs).
Proof. destruct 1; simpl; [done|]. case_match; [done|by constructor]. Qed.

Lemma kept_points_scalars s maxBytes : Forall code_unit s -> Forall scalar (kept_points s maxBytes).
Proof. intros Hs. by apply drop_bom_scalars, encodeInto_scalars. Qed.

(** A clamped text fits. *)
Lemma clampUtf8_bytes s maxBytes :
  14 <= maxBytes -> Forall code_unit s -> byteLength (clampUtf8 s maxBytes) <= maxBytes.
Proof.
  intros Hm Hs. destruct (clampUtf8_cases s maxBytes) as [[Hb ->]|[_ ->]]; [lia|done|done|].
  change SHADOW_LOG_TRUNCATION_MARKER with (units SHADOW_LOG_TRUNCATION_MARKER) at 1.
  unfold units. rewrite <- bind_app. fold (units (kept_points s maxBytes ++ SHADOW_LOG_TRUNCATION_MARKER)).
  rewrite byteLength_points, code_points_units by (apply Forall_app; split; [by apply kept_points_scalars|apply marker_scalar]).
  rewrite point_bytes_app. change (point_bytes SHADOW_LOG_TRUNCATION_MARKER) with 14.
  unfold kept_points. pose proof (drop_bom_bytes (to_scalar <$> encodeInto (code_points s) (maxBytes - 14))) as Hd.
  rewrite point_bytes_to_scalar in Hd. pose proof (encodeInto_bytes (code_points s) (maxBytes - 14)). lia.
Qed.

Lemma clampUtf8_units s maxBytes :
  0 <= maxBytes -> Forall code_unit s -> Forall code_unit (clampUtf8 s maxBytes).
Proof.
  intros Hm Hs. destruct (clampUtf8_cases s maxBytes) as [[_ ->]|[_ ->]]; [done..|].
  apply Forall_app. split; [|by apply (bool_decide_eq_true_1 _); vm_compute].
  apply scalar_text_ok. eexists. split; [by apply kept_points_scalars|done].
Qed.

(** ** Lemmas on pointers *)

(** The code points of a prefix, up to a surrogate cut at its end. *)
Lemma code_points_prefix k r :
  Forall code_unit k ->
  exists a x y, code_points k = a ++ x /\ code_points (k ++ r) = a ++ y /\ (length k <= length (units a) + 1)%nat.
Proof.
  induction k as [|c|c d k IH1 IH2] using jsstr_ind2; intros Hk.
  - exists [], [], (code_points r). simpl. repeat split; lia.
  - exists [], [c], (code_points (c :: r)). simpl. repeat split; lia.
  - apply Forall_cons_1 in Hk as [Hc Hk]. pose proof Hk as [Hd Hk']%Forall_cons_1. unfold code_unit in *.
    change ((c :: d :: k) ++ r) with (c :: d :: k ++ r). rewrite !code_points_cons2.
    destruct (is_high c && is_low d) eqn:E.
    + destruct (IH1 Hk') as (a & x & y & -> & -> & Hl). eexists (_ :: a), x, y. split; [done|]. split; [done|].
      rewrite units_cons, length_app. unfold is_high, is_low in E. unfold units_of.
      destruct (Z.ltb_spec (0x10000 + (c - 0xD800) * 0x400 + (d - 0xDC00)) 0x10000); simpl; lia.
    + destruct (IH2 Hk) as (a & x & y & Ek & Ef & Hl). exists (c :: a), x, y. change ((d :: k) ++ r) with (d :: k ++ r) in Ef. rewrite Ek, Ef.
      split; [done|]. split; [done|]. rewrite units_cons, length_app. pose proof (units_of_length c). simpl in *. lia.
Qed.

(** Long texts that agree on their first code units are clamped alike. *)
Lemma clampUtf8_prefix k r maxBytes :
  14 <= maxBytes -> Forall code_unit (k ++ r) -> maxBytes < Z.of_nat (length k) ->
  clampUtf8 k maxBytes = clampUtf8 (k ++ r) maxBytes.
Proof.
  intros Hm Hs Hl. pose proof Hs as [Hk _]%Forall_app.
  destruct (code_points_prefix k r Hk) as (a & x & y & Ek & Ef & Ha).
  pose proof (units_length_bytes a) as Hab.
  assert (forall s, Forall code_unit s -> Z.of_nat (length s) <= byteLength s) as Hlen.
  { intros s Hs'. rewrite <- (units_code_points s Hs') at 1. apply units_length_bytes. }
  pose proof (Hlen k Hk). pose proof (Hlen (k ++ r) Hs) as Hf. rewrite length_app in Hf.
  destruct (clampUtf8_cases k maxBytes) as [[? _]|[_ ->]]; [lia|done|lia|].
  destruct (clampUtf8_cases (k ++ r) maxBytes) as [[? _]|[_ ->]]; [lia|done|lia|].
  f_equal. f_equal. unfold kept_points. f_equal. f_equal.
  rewrite Ek, Ef, !encodeInto_app by lia. done.
Qed.

(** Escaping works one code unit at a time. *)
Definition escape_unit (c : Z) : jsstr := if c =? 126 then js "~0" else if c =? 47 then js "~1" else [c].

Lemma escapePointerToken_units name : escapePointerToken name = name ≫= escape_unit.
Proof.
  unfold escapePointerToken, replaceAll. induction name as [|c name IH]; [done|].
  rewrite !bind_cons, bind_app, IH. f_equal. unfold escape_unit.
  destruct (Z.eqb_spec c 126) as [->|]; [done|]. simpl. by destruct (c =? 47).
Qed.

Lemma escape_unit_length c : (1 <= length (escape_unit c) <= 2)%nat.
Proof. unfold escape_unit. repeat case_match; simpl; lia. Qed.

Lemma escapePointerToken_length name :
  (length name <= length (escapePointerToken name) <= 2 * length name)%nat.
Proof.
  rewrite escapePointerToken_units. induction name as [|c name IH]; [simpl; lia|].
  rewrite bind_cons, length_app. pose proof (escape_unit_length c). simpl. lia.
Qed.

Lemma escapePointerToken_app a b :
  escapePointerToken (a ++ b) = escapePointerToken a ++ escapePointerToken b.
Proof. rewrite !escapePointerToken_units. apply bind_app. Qed.

(** A kept token is the whole token, or a prefix too long for the clamp. *)
Lemma keptToken_cases t :
  keptToken t = fullToken t \/
  exists r, fullToken t = keptToken t ++ r /\ SHADOW_MISMATCH_PATH_MAX_BYTES < Z.of_nat (length (keptToken t)).
Proof.
  destruct t as [i|name]; [by left|]. unfold keptToken, fullToken.
  set (n := Z.to_nat SHADOW_MISMATCH_PATH_MAX_BYTES).
  destruct (decide (length name <= n)%nat) as [Hle|Hgt]; [left; by rewrite take_ge|right].
  exists (escapePointerToken (drop n name)). split.
  - rewrite <- (take_drop n name) at 1. by rewrite escapePointerToken_app.
  - pose proof (escapePointerToken_length (take n name)) as Hl. rewrite length_take in Hl.
    rewrite length_cons. subst n. change (Z.to_nat SHADOW_MISMATCH_PATH_MAX_BYTES) with 512%nat in *.
    unfold SHADOW_MISMATCH_PATH_MAX_BYTES. lia.
Qed.

Lemma kept_from_long path tokens :
  SHADOW_MISMATCH_PATH_MAX_BYTES < Z.of_nat (length path) -> kept_from path tokens = path.
Proof. intros Hl. destruct tokens; [done|]. simpl. by apply Z.ltb_lt in Hl as ->. Qed.

(** The kept pointer is the whole pointer, or a prefix too long for the
    clamp. *)
Lemma kept_from_cases path tokens :
  kept_from path tokens = path ++ fullPointer tokens \/
  exists r, path ++ fullPointer tokens = kept_from path tokens ++ r /\
    SHADOW_MISMATCH_PATH_MAX_BYTES < Z.of_nat (length (kept_from path tokens)).
Proof.
  revert path. induction tokens as [|t tokens IH]; intros path; [left; by rewrite app_nil_r|].
  unfold fullPointer. rewrite bind_cons. fold (fullPointer tokens). simpl kept_from.
  destruct (Z.ltb_spec SHADOW_MISMATCH_PATH_MAX_BYTES (Z.of_nat (length path))); [right; eauto|].
  destruct (keptToken_cases t) as [->|(r & -> & Hl)].
  - rewrite app_assoc. apply IH.
  - right. rewrite kept_from_long by (rewrite length_app; lia).
    exists (r ++ fullPointer tokens). rewrite length_app, <- !app_assoc. split; [done|lia].
Qed.

Definition token_ok (t : token) : Prop := match t with TIndex _ => True | TName name => Forall code_unit name end.

Lemma digits_units n : 0 <= n -> Forall code_unit (digits n).
Proof.
  intros Hn. destruct (digits_spec n Hn) as [Hd _]. eapply list.Forall_impl; [exact Hd|]. simpl.
  intros c Hc. unfold is_digit in Hc. unfold code_unit. lia.
Qed.

Lemma escapePointerToken_ok name : Forall code_unit name -> Forall code_unit (escapePointerToken name).
Proof.
  intros Hn. rewrite escapePointerToken_units. induction Hn as [|c name Hc _ IH]; [constructor|].
  rewrite bind_cons. apply Forall_app. split; [|done]. unfold escape_unit.
  repeat case_match; repeat constructor; (done || unfold code_unit in *; lia).
Qed.

Lemma fullPointer_ok tokens : Forall token_ok tokens -> Forall code_unit (fullPointer tokens).
Proof.
  unfold fullPointer. induction 1 as [|t tokens Ht _ IH]; [constructor|]. rewrite bind_cons. apply Forall_app.
  split; [|done]. destruct t as [i|name]; simpl; (constructor; [done|]).
  - unfold String_of_Z. destruct (Z.ltb_spec (Z.of_nat i) 0); [lia|]. apply digits_units. lia.
  - by apply escapePointerToken_ok.
Qed.

Lemma digits_fuel_length f n acc : (length (digits_fuel f n acc) <= f + length acc)%nat.
Proof.
  revert n acc. induction f as [|f IH]; intros n acc; [done|]. cbn [digits_fuel]. case_match; [simpl; lia|].
  etransitivity; [apply IH|]. simpl. lia.
Qed.

Lemma digits_length n : (length (digits n) <= S (Z.to_nat (Z.log2 n)))%nat.
Proof. unfold digits. etransitivity; [apply digits_fuel_length|]. simpl. lia. Qed.

Lemma keptToken_length i_max t :
  match t with TIndex i => (length (String_of_Z (Z.of_nat i)) <= i_max)%nat | TName _ => True end ->
  (length (keptToken t) <= 1 + Nat.max i_max (2 * 512))%nat.
Proof.
  destruct t as [i|name]; simpl keptToken; rewrite length_cons; [lia|]. intros _.
  pose proof (escapePointerToken_length (take 512 name)) as Hl. rewrite length_take in Hl.
  change (Z.to_nat SHADOW_MISMATCH_PATH_MAX_BYTES) with 512%nat. lia.
Qed.

(** A kept pointer overshoots the cap by at most one token. *)
Lemma kept_from_length path tokens :
  Forall (fun t => (length (keptToken t) <= 1025)%nat) tokens -> (length path <= 512 + 1025)%nat ->
  (length (kept_from path tokens) <= 512 + 1025)%nat.
Proof.
  intros Ht. revert path. induction Ht as [|t tokens Hl _ IH]; intros path Hp; [done|]. simpl.
  destruct (Z.ltb_spec SHADOW_MISMATCH_PATH_MAX_BYTES (Z.of_nat (length path))); [done|].
  apply IH. rewrite length_app. unfold SHADOW_MISMATCH_PATH_MAX_BYTES in *. lia.
Qed.

(** ** Properties *)

(** Log fields are bounded: a text is clamped to at most [maxBytes] bytes of
    UTF-8; one that fits is logged unchanged, and one that does not is
    logged as a well-formed text that ends with the truncation marker. *)
Theorem clamp_bounds_text s maxBytes :
  Forall code_unit s -> 14 <= maxBytes ->
  byteLength (clampUtf8 s maxBytes) <= maxBytes /\
  (byteLength s <= maxBytes -> clampUtf8 s maxBytes = s) /\
  (maxBytes < byteLength s ->
     well_formed (clampUtf8 s maxBytes) /\
     exists content, clampUtf8 s maxBytes = content ++ SHADOW_LOG_TRUNCATION_MARKER).
Proof.
  intros Hs Hm. split; [by apply clampUtf8_bytes|].
  destruct (clampUtf8_cases s maxBytes) as [[Hb ->]|[Hb ->]]; [lia|done|split; [done|lia]|].
  split; [lia|]. intros _. split; [|by eexists]. apply scalar_text_ok. apply scalar_text_app.
  - eexists. split; [by apply kept_points_scalars|done].
  - apply scalar_text_ascii. apply (bool_decide_eq_true_1 _). by vm_compute.
Qed.

(** A surrogate pair that would straddle the limit is left out whole. *)
Lemma clamp_bounds_text_witness :
  byteLength (clampUtf8 (js "abcd" ++ [0xD83D; 0xDE00] ++ js "0123456789abc") 20) <= 20 /\
  clampUtf8 (js "abcd" ++ [0xD83D; 0xDE00] ++ js "0123456789abc") 20 = js "abcd...[truncated]".
Proof.
  split; [|vm_compute; reflexivity].
  apply (clamp_bounds_text (js "abcd" ++ [0xD83D; 0xDE00] ++ js "0123456789abc") 20); [|lia].
  apply (bool_decide_eq_true_1 _). vm_compute. reflexivity.
Defined.

(** The pointer that is built for an entry ([keptPointer], which stops early
    and cuts long names before escaping) is clamped to the same text as the
    full RFC 6901 pointer: the optimisation never shows in the log. *)
Theorem kept_pointer_clamps_like_full tokens :
  Forall token_ok tokens -> clampPointer (keptPointer tokens) = clampPointer (fullPointer tokens).
Proof.
  intros Hok. unfold clampPointer, keptPointer.
  destruct (kept_from_cases [] tokens) as [->|(r & E & Hl)]; [done|]. simpl in E. rewrite E.
  apply clampUtf8_prefix; [by unfold SHADOW_MISMATCH_PATH_MAX_BYTES| |done].
  rewrite <- E. by apply fullPointer_ok.
Qed.

Lemma kept_pointer_clamps_like_full_witness :
  clampPointer (keptPointer [TName (js "a/b"); TIndex 3; TName (replicate 600 126)]) =
  clampPointer (fullPointer [TName (js "a/b"); TIndex 3; TName (replicate 600 126)]) /\
  length (keptPointer [TName (js "a/b"); TIndex 3; TName (replicate 600 126)]) <>
  length (fullPointer [TName (js "a/b"); TIndex 3; TName (replicate 600 126)]).
Proof.
  split; [|vm_compute; discriminate].
  apply kept_pointer_clamps_like_full.
  constructor; [|constructor; [exact I|constructor; [|constructor]]];
    apply (bool_decide_eq_true_1 _); vm_compute; reflexivity.
Defined.

(** The pointer built for an entry is at most one code unit longer than three
    times the cap, whatever the depth and the member names. *)
Lemma kept_pointer_length tokens :
  Forall (fun t => match t with TIndex i => Z.of_nat i < 2 ^ 32 | TName _ => True end) tokens ->
  Z.of_nat (length (keptPointer tokens)) <= 3 * SHADOW_MISMATCH_PATH_MAX_BYTES + 1.
Proof.
  intros Ht. unfold keptPointer, SHADOW_MISMATCH_PATH_MAX_BYTES.
  enough (length (kept_from [] tokens) <= 512 + 1025)%nat by lia. apply kept_from_length; [|simpl; lia].
  eapply list.Forall_impl; [exact Ht|]. intros t Htok.
  enough (length (keptToken t) <= 1 + Nat.max 64 (2 * 512))%nat by lia.
  apply keptToken_length. destruct t as [i|]; [|done]. unfold String_of_Z.
  destruct (Z.ltb_spec (Z.of_nat i) 0); [lia|]. pose proof (digits_length (Z.of_nat i)) as Hd.
  assert (Z.log2 (Z.of_nat i) <= 32).
  { destruct (Z.eq_dec (Z.of_nat i) 0) as [->|]; [done|]. apply Z.lt_le_incl, Z.log2_lt_pow2; lia. }
  lia.
Qed.

(** The bound is attained: a path of exactly the cap, then a name of escaped
    units. *)
Lemma kept_pointer_exceeds_three_caps :
  length (keptPointer [TName (replicate 511 97); TName (replicate 512 126)]) = 1537%nat.
Proof. vm_compute. reflexivity. Qed.
