(* ===== verification/JsonDiff.v ===== *)
(** * The built-in mismatch computation

    The walk over two JSON values of [internal/shadow-log-json.ts]:
    [jsonValuesEqual], an iterative comparison with an explicit stack, and
    [walkJson], which reports the differing positions in member-name order
    with a depth cap and an entry cap. *)

From S2P Require Import Prelude JsValue Duration Utf8 Config Key Metrics Frame Json JsonText LogText.

(** ** Kinds and primitive equality *)

Inductive json_kind := KArray | KObject | KPrimitive.

#[export] Instance json_kind_eq_dec : EqDecision json_kind.
Proof. solve_decision. Defined.

Definition jsonKind (value : jsval) : json_kind :=
  match value with
  | JArr _ => KArray
  | JObj _ => KObject
  | _ => KPrimitive
  end.

(** [left === right] on primitives. *)
Definition strict_eq (left right : jsval) : bool :=
  match left, right with
  | JUndefined, JUndefined | JNull, JNull => true
  | JBool a, JBool b => Bool.eqb a b
  | JNum a, JNum b => num_eqb a b
  | JStr a, JStr b => str_eqb a b
  | _, _ => false
  end.

(** [Array.isArray] and object views; the walk uses them only at their kind. *)
Definition items_of (v : jsval) : list jsval := match v with JArr l => l | _ => [] end.
Definition members_of (v : jsval) : list (jsstr * jsval) := match v with JObj m => m | _ => [] end.
Definition Object_keys (m : list (jsstr * jsval)) : list jsstr := List.map fst m.
Definition has_member (m : list (jsstr * jsval)) (name : jsstr) : bool :=
  match assoc name m with Some _ => true | None => false end.

(** ** [jsonValuesEqual] *)

(** The pairs to push for the members of [left], in order, when [right] has
    them all. *)
Fixpoint member_pairs (leftMembers rightMembers : list (jsstr * jsval)) : option (list (jsval * jsval)) :=
  match leftMembers with
  | [] => Some []
  | (name, x) :: rest =>
      y ← assoc name rightMembers;
      pairs ← member_pairs rest rightMembers;
      Some ((x, y) :: pairs)
  end.

(** One iteration: the verdict, or the pairs to push. *)
Definition equal_step (left right : jsval) : option (list (jsval * jsval)) :=
  if negb (bool_decide (jsonKind left = jsonKind right)) then None
  else match jsonKind left with
  | KPrimitive => if strict_eq left right then Some [] else None
  | KArray =>
      if (length (items_of left) =? length (items_of right))%nat
      then Some (zip (items_of left) (items_of right)) else None
  | KObject =>
      if (length (Object_keys (members_of left)) =? length (Object_keys (members_of right)))%nat
      then member_pairs (members_of left) (members_of right) else None
  end.

(** The loop; the top of the stack is the head of [pending], so pairs are
    pushed in reverse.  [None] is a loop that did not finish. *)
Fixpoint equal_loop (fuel : nat) (pending : list (jsval * jsval)) : option bool :=
  match fuel with
  | O => None
  | S f =>
      match pending with
      | [] => Some true
      | (l, r) :: rest =>
          match equal_step l r with
          | None => Some false
          | Some pairs => equal_loop f (rev pairs ++ rest)
          end
      end
  end.

(** The number of values in a value, itself included. *)
Fixpoint json_size (v : jsval) : nat :=
  match v with
  | JArr items => S (list_sum (List.map json_size items))
  | JObj members => S (list_sum (List.map (fun '(_, x) => json_size x) members))
  | _ => 1
  end.

(** One iteration per value of the left side, and one to see the stack
    empty. *)
Definition jsonValuesEqual (cached source : jsval) : option bool :=
  equal_loop (S (json_size cached)) [(cached, source)].

(** Structural equality, the reference: members by name, in any order. *)
Fixpoint json_eqb (left right : jsval) : bool :=
  match left, right with
  | JArr l, JArr r =>
      (length l =? length r)%nat && forallb (fun '(f, y) => f y) (zip (List.map json_eqb l) r)
  | JObj l, JObj r =>
      (length l =? length r)%nat
      && forallb (fun '(name, f) => match assoc name r with Some y => f y | None => false end)
           (List.map (fun '(name, x) => (name, json_eqb x)) l)
  | _, _ => strict_eq left right
  end.

(** ** [walkJson] *)

(** The sides of an entry; an absent side is [None]. *)
Record sides := { cached_side : option jsval; source_side : option jsval }.

Record RawMismatchEntry := { entry_path : jsstr; entry_sides : sides }.

(** The entries kept so far, in order, and the uncut count. *)
Record RawMismatchDiff := { diff_entries : list RawMismatchEntry; diff_count : nat }.

Definition report (tokens : list token) (s : sides) (d : RawMismatchDiff) : RawMismatchDiff :=
  {| diff_count := diff_count d + 1;
     diff_entries :=
       if (length (diff_entries d) <? SHADOW_MISMATCH_MAX_ENTRIES)%nat
       then diff_entries d ++ [{| entry_path := keptPointer tokens; entry_sides := s |}]
       else diff_entries d |}.

Definition both_sides (l r : jsval) : sides := {| cached_side := Some l; source_side := Some r |}.
Definition cached_only (l : jsval) : sides := {| cached_side := Some l; source_side := None |}.
Definition source_only (r : jsval) : sides := {| cached_side := None; source_side := Some r |}.

(** [names.sort()]: ascending UTF-16 code units. *)
Fixpoint insert_name (x : jsstr) (l : list jsstr) : list jsstr :=
  match l with
  | [] => [x]
  | y :: r => if str_ltb y x then y :: insert_name x r else x :: l
  end.

Definition sort_names (l : list jsstr) : list jsstr := foldr insert_name [] l.

(** The names of either object, sorted. *)
Definition union_names (leftMembers rightMembers : list (jsstr * jsval)) : list jsstr :=
  sort_names (Object_keys leftMembers
    ++ List.filter (fun name => negb (has_member leftMembers name)) (Object_keys rightMembers)).

(** A loop over positions with a running index. *)
Fixpoint walk_items (f : nat -> jsval -> jsval -> RawMismatchDiff -> RawMismatchDiff) (index : nat)
    (l r : list jsval) (d : RawMismatchDiff) : RawMismatchDiff :=
  match l, r with
  | x :: l', y :: r' => walk_items f (S index) l' r' (f index x y d)
  | _, _ => d
  end.

(** [walk]; [room] is how many more tokens the depth cap allows, that is
    [SHADOW_MISMATCH_MAX_DEPTH - tokens.length].  A comparison that does not
    finish would leave the pair unreported; [jsonValuesEqual] always
    finishes. *)
Fixpoint walk (room : nat) (tokens : list token) (l r : jsval) (d : RawMismatchDiff) : RawMismatchDiff :=
  let kind := jsonKind l in
  if negb (bool_decide (kind = jsonKind r)) || bool_decide (kind = KPrimitive) then
    if strict_eq l r then d else report tokens (both_sides l r) d
  else
    match room with
    | O =>
        match jsonValuesEqual l r with
        | Some false => report tokens (both_sides l r) d
        | _ => d
        end
    | S room' =>
        match kind with
        | KArray =>
            if (length (items_of l) =? length (items_of r))%nat then
              walk_items (fun i x y => walk room' (tokens ++ [TIndex i]) x y) 0 (items_of l) (items_of r) d
            else report tokens (both_sides l r) d
        | _ =>
            foldl (fun d name =>
                     let tokens := tokens ++ [TName name] in
                     match assoc name (members_of l), assoc name (members_of r) with
                     | Some x, None => report tokens (cached_only x) d
                     | None, Some y => report tokens (source_only y) d
                     | Some x, Some y => walk room' tokens x y d
                     | None, None => d
                     end) d (union_names (members_of l) (members_of r))
        end
    end.

Definition walkJson (cached source : jsval) : RawMismatchDiff :=
  walk SHADOW_MISMATCH_MAX_DEPTH [] cached source {| diff_entries := []; diff_count := 0 |}.

(** ** The loop terminates with structural equality *)

Definition pair_eqb (p : jsval * jsval) : bool := json_eqb p.1 p.2.
Definition pair_size (p : jsval * jsval) : nat := json_size p.1.

Lemma json_eqb_zip l r :
  forallb (fun '(f, y) => f y) (zip (List.map json_eqb l) r) = forallb pair_eqb (zip l r).
Proof. revert r. induction l as [|x l IH]; intros [|y r]; simpl; [done..|]. by rewrite IH. Qed.

Lemma member_pairs_eqb l r pairs :
  member_pairs l r = Some pairs ->
  forallb (fun '(name, f) => match assoc name r with Some y => f y | None => false end)
    (List.map (fun '(name, x) => (name, json_eqb x)) l) = forallb pair_eqb pairs /\
  list_sum (List.map pair_size pairs) = list_sum (List.map (fun '(_, x) => json_size x) l).
Proof.
  revert pairs. induction l as [|[name x] l IH]; simpl; intros pairs; [by intros [= <-]|].
  destruct (assoc name r) as [y|]; [|done]. simpl. destruct (member_pairs l r) as [ps|]; [|done].
  intros [= <-]. destruct (IH ps eq_refl) as [-> E]. simpl. unfold list_sum in *. simpl. by rewrite E.
Qed.

Lemma member_pairs_None l r :
  member_pairs l r = None ->
  forallb (fun '(name, f) => match assoc name r with Some y => f y | None => false end)
    (List.map (fun '(name, x) => (name, json_eqb x)) l) = false.
Proof.
  induction l as [|[name x] l IH]; simpl; [done|]. destruct (assoc name r) as [y|]; [|done]. simpl.
  destruct (member_pairs l r); [done|]. intros _. rewrite IH by done. apply andb_false_r.
Qed.

Lemma zip_sizes l r :
  length l = length r -> list_sum (List.map pair_size (zip l r)) = list_sum (List.map json_size l).
Proof.
  revert r. induction l as [|x l IH]; intros [|y r]; simpl; try done. intros [= E]. specialize (IH r E).
  unfold list_sum in *. by rewrite IH.
Qed.

(** One iteration either decides the pair or replaces it by smaller ones. *)
Lemma equal_step_spec l r :
  match equal_step l r with
  | None => json_eqb l r = false
  | Some pairs =>
      json_eqb l r = forallb pair_eqb pairs /\ S (list_sum (List.map pair_size pairs)) = json_size l
  end.
Proof.
  unfold equal_step. destruct l as [| |b|n|s|l|l|], r as [| |b'|n'|s'|r|r|]; simpl; try done.
  - by destruct (Bool.eqb b b').
  - by destruct (num_eqb n n').
  - by destruct (str_eqb s s').
  - destruct (Nat.eqb_spec (length l) (length r)); [|done]. rewrite json_eqb_zip, zip_sizes by done. done.
  - unfold Object_keys. rewrite !List.length_map. destruct (length l =? length r)%nat; [|done].
    destruct (member_pairs l r) as [pairs|] eqn:E; simpl; [|by apply member_pairs_None].
    apply member_pairs_eqb in E as [-> ->]. done.
Qed.

Lemma forallb_rev {A} (p : A -> bool) l : forallb p (rev l) = forallb p l.
Proof.
  induction l as [|x l IH]; simpl; [done|]. rewrite forallb_app, IH. simpl. by rewrite andb_true_r, andb_comm.
Qed.

Lemma list_sum_rev l : list_sum (rev l) = list_sum l.
Proof. induction l as [|x l IH]; simpl; [done|]. rewrite list_sum_app, IH. simpl. lia. Qed.

Lemma json_size_pos v : (1 <= json_size v)%nat.
Proof. destruct v; simpl; lia. Qed.

(** With fuel for the values still on the stack, the loop decides them all. *)
Lemma equal_loop_spec fuel pending :
  (list_sum (List.map pair_size pending) < fuel)%nat ->
  equal_loop fuel pending = Some (forallb pair_eqb pending).
Proof.
  revert pending. induction fuel as [|fuel IH]; intros pending Hf; [lia|]. simpl.
  destruct pending as [|[l r] rest]; [done|]. simpl in Hf. unfold pair_size at 1 in Hf. simpl in Hf.
  fold (list_sum (List.map pair_size rest)) in Hf.
  pose proof (equal_step_spec l r) as Hs. unfold forallb at 1, pair_eqb at 1. simpl.
  destruct (equal_step l r) as [pairs|]; [|by rewrite Hs]. destruct Hs as [-> Hsize].
  rewrite IH.
  - f_equal. rewrite forallb_app. f_equal. apply forallb_rev.
  - rewrite List.map_app, list_sum_app, List.map_rev, list_sum_rev. lia.
Qed.

(** ** The walk against a reference list *)

(** A difference at its position, below the pair it was found in. *)
Abbreviation difference := (list token * sides)%type.

Definition below (t : token) (ds : list difference) : list difference :=
  List.map (fun '(ts, s) => (t :: ts, s)) ds.

Fixpoint item_differences (f : jsval -> jsval -> list difference) (index : nat) (l r : list jsval) :
    list difference :=
  match l, r with
  | x :: l', y :: r' => below (TIndex index) (f x y) ++ item_differences f (S index) l' r'
  | _, _ => []
  end.

(** All differences of two values, uncut, with positions relative to them. *)
Fixpoint differences (room : nat) (l r : jsval) : list difference :=
  if negb (bool_decide (jsonKind l = jsonKind r)) || bool_decide (jsonKind l = KPrimitive) then
    if strict_eq l r then [] else [([], both_sides l r)]
  else
    match room with
    | O => if json_eqb l r then [] else [([], both_sides l r)]
    | S room' =>
        match jsonKind l with
        | KArray =>
            if (length (items_of l) =? length (items_of r))%nat
            then item_differences (differences room') 0 (items_of l) (items_of r)
            else [([], both_sides l r)]
        | _ =>
            flat_map (fun name =>
                        below (TName name)
                          match assoc name (members_of l), assoc name (members_of r) with
                          | Some x, None => [([], cached_only x)]
                          | None, Some y => [([], source_only y)]
                          | Some x, Some y => differences room' x y
                          | None, None => []
                          end) (union_names (members_of l) (members_of r))
        end
    end.

(** Reporting a list of differences found below [tokens]. *)
Definition report_all (tokens : list token) (ds : list difference) (d : RawMismatchDiff) : RawMismatchDiff :=
  foldl (fun d '(ts, s) => report (tokens ++ ts) s d) d ds.

Lemma report_all_app tokens a b d : report_all tokens (a ++ b) d = report_all tokens b (report_all tokens a d).
Proof. unfold report_all. by rewrite foldl_app. Qed.

Lemma report_all_below tokens t ds d :
  report_all tokens (below t ds) d = report_all (tokens ++ [t]) ds d.
Proof.
  unfold report_all, below. revert d. induction ds as [|[ts s] ds IH]; intros d; simpl; [done|].
  by rewrite <- app_assoc, IH.
Qed.

Lemma report_all_here tokens s d : report_all tokens [([], s)] d = report tokens s d.
Proof. unfold report_all. simpl. by rewrite app_nil_r. Qed.

Lemma walk_items_differences tokens (w : nat -> jsval -> jsval -> RawMismatchDiff -> RawMismatchDiff) f :
  (forall i x y d, w i x y d = report_all (tokens ++ [TIndex i]) (f x y) d) ->
  forall l r i d, walk_items w i l r d = report_all tokens (item_differences f i l r) d.
Proof.
  intros Hw l. induction l as [|x l IH]; intros [|y r] i d; simpl; [done..|].
  by rewrite IH, Hw, report_all_app, report_all_below.
Qed.

Lemma walk_members_differences tokens (w : RawMismatchDiff -> jsstr -> RawMismatchDiff) (f : jsstr -> list difference) :
  (forall name d, w d name = report_all (tokens ++ [TName name]) (f name) d) ->
  forall names d, foldl w d names = report_all tokens (flat_map (fun name => below (TName name) (f name)) names) d.
Proof.
  intros Hw names. induction names as [|name names IH]; intros d; simpl; [done|].
  by rewrite IH, Hw, report_all_app, report_all_below.
Qed.

Lemma jsonValuesEqual_eqb l r : jsonValuesEqual l r = Some (json_eqb l r).
Proof.
  unfold jsonValuesEqual. rewrite equal_loop_spec.
  - simpl. by rewrite andb_true_r.
  - simpl. unfold pair_size. simpl. lia.
Qed.

(** The walk reports the reference differences, in order. *)
Lemma walk_differences room tokens l r d :
  walk room tokens l r d = report_all tokens (differences room l r) d.
Proof.
  revert tokens l r d. induction room as [|room IH]; intros tokens l r d; cbn [walk differences].
  - destruct (negb _ || _); [by destruct (strict_eq l r); rewrite ?report_all_here|].
    rewrite jsonValuesEqual_eqb. by destruct (json_eqb l r); rewrite ?report_all_here.
  - destruct (negb _ || _); [by destruct (strict_eq l r); rewrite ?report_all_here|].
    assert (forall names, foldl (fun d name =>
        match assoc name (members_of l), assoc name (members_of r) with
        | Some x, None => report (tokens ++ [TName name]) (cached_only x) d
        | None, Some y => report (tokens ++ [TName name]) (source_only y) d
        | Some x, Some y => walk room (tokens ++ [TName name]) x y d
        | None, None => d
        end) d names = report_all tokens (flat_map (fun name => below (TName name)
          match assoc name (members_of l), assoc name (members_of r) with
          | Some x, None => [([], cached_only x)]
          | None, Some y => [([], source_only y)]
          | Some x, Some y => differences room x y
          | None, None => []
          end) names) d) as Hm.
    { intros names. apply walk_members_differences. intros name d0.
      destruct (assoc name (members_of l)), (assoc name (members_of r)); by rewrite ?report_all_here, ?IH. }
    destruct (jsonKind l); [|apply Hm..].
    destruct (length (items_of l) =? length (items_of r))%nat; [|by rewrite report_all_here].
    apply walk_items_differences. intros i x y d0. apply IH.
Qed.

(** Reporting keeps the first entries up to the cap and counts them all. *)
Lemma report_all_cut ds d :
  (length (diff_entries d) <= SHADOW_MISMATCH_MAX_ENTRIES)%nat ->
  diff_entries (report_all [] ds d) =
    take SHADOW_MISMATCH_MAX_ENTRIES
      (diff_entries d ++ List.map (fun '(ts, s) => {| entry_path := keptPointer ts; entry_sides := s |}) ds) /\
  diff_count (report_all [] ds d) = (diff_count d + length ds)%nat.
Proof.
  revert d. induction ds as [|[ts s] ds IH]; intros d Hd.
  { simpl. rewrite app_nil_r, take_ge by done. split; [done|lia]. }
  change (report_all [] ((ts, s) :: ds) d) with (report_all [] ds (report ts s d)).
  assert (length (diff_entries (report ts s d)) <= SHADOW_MISMATCH_MAX_ENTRIES)%nat as Hd'.
  { unfold report. simpl. destruct (Nat.ltb_spec (length (diff_entries d)) SHADOW_MISMATCH_MAX_ENTRIES); [|done].
    rewrite length_app. simpl. lia. }
  destruct (IH _ Hd') as [-> ->]. unfold report. cbn [diff_entries diff_count List.map].
  destruct (Nat.ltb_spec (length (diff_entries d)) SHADOW_MISMATCH_MAX_ENTRIES) as [Hlt|Hge].
  - rewrite <- app_assoc. split; [done|]. simpl. lia.
  - rewrite !take_app_le by done. split; [done|]. simpl. lia.
Qed.

(** ** What the differences mean *)

(** The value at a position. *)
Fixpoint resolve (v : jsval) (tokens : list token) : option jsval :=
  match tokens with
  | [] => Some v
  | TIndex i :: rest => x ← items_of v !! i; resolve x rest
  | TName name :: rest => x ← assoc name (members_of v); resolve x rest
  end.

Definition sides_differ (s : sides) : Prop :=
  match cached_side s, source_side s with
  | Some x, Some y => json_eqb x y = false
  | None, None => False
  | _, _ => True
  end.

(** A difference is sound for a pair of values: the sides are what the values
    hold at the position, and they differ. *)
Definition sound (l r : jsval) (d : difference) : Prop :=
  resolve l d.1 = cached_side d.2 /\ resolve r d.1 = source_side d.2 /\ sides_differ d.2.

Lemma json_eqb_primitive l r :
  negb (bool_decide (jsonKind l = jsonKind r)) || bool_decide (jsonKind l = KPrimitive) = true ->
  json_eqb l r = strict_eq l r.
Proof. by destruct l, r. Qed.

Lemma sound_here l r : json_eqb l r = false -> sound l r ([], both_sides l r).
Proof. by intros H. Qed.

Lemma sound_item l r i x y d :
  items_of l !! i = Some x -> items_of r !! i = Some y -> sound x y d -> sound l r (TIndex i :: d.1, d.2).
Proof. intros Hl Hr (H1 & H2 & H3). unfold sound. simpl. by rewrite Hl, Hr. Qed.

Lemma sound_member l r name x y d :
  assoc name (members_of l) = Some x -> assoc name (members_of r) = Some y ->
  sound x y d -> sound l r (TName name :: d.1, d.2).
Proof. intros Hl Hr (H1 & H2 & H3). unfold sound. simpl. by rewrite Hl, Hr. Qed.

Lemma elem_of_below t ds d : d ∈ below t ds -> exists ts s, d = (t :: ts, s) /\ (ts, s) ∈ ds.
Proof.
  unfold below. intros Hd. apply list_elem_of_In, in_map_iff in Hd as ([ts s] & <- & Hin).
  exists ts, s. split; [done|]. by apply list_elem_of_In.
Qed.

Lemma elem_of_item_differences f l r i d :
  d ∈ item_differences f i l r ->
  exists j x y ts s, l !! j = Some x /\ r !! j = Some y /\ d = (TIndex (i + j) :: ts, s) /\ (ts, s) ∈ f x y.
Proof.
  revert r i. induction l as [|x l IH]; intros [|y r] i; simpl; try (intros Hd; by apply not_elem_of_nil in Hd).
  intros [Hd|Hd]%elem_of_app.
  - apply elem_of_below in Hd as (ts & s & -> & Hd). exists 0%nat, x, y, ts, s. rewrite Nat.add_0_r. done.
  - apply IH in Hd as (j & x' & y' & ts & s & Hl & Hr & -> & Hd). exists (S j), x', y', ts, s.
    rewrite Nat.add_succ_r. done.
Qed.

(** Every difference is sound. *)
Lemma differences_sound room l r d : d ∈ differences room l r -> sound l r d.
Proof.
  revert l r d. induction room as [|room IH]; intros l r d; cbn [differences].
  all: destruct (negb _ || _) eqn:Ek;
    [rewrite <- (json_eqb_primitive _ _ Ek); destruct (json_eqb l r) eqn:E; intros Hd;
      [by apply not_elem_of_nil in Hd|apply list_elem_of_singleton in Hd as ->; by apply sound_here]|].
  - destruct (json_eqb l r) eqn:E; intros Hd; [by apply not_elem_of_nil in Hd|].
    apply list_elem_of_singleton in Hd as ->. by apply sound_here.
  - assert (forall names, d ∈ flat_map (fun name => below (TName name)
          match assoc name (members_of l), assoc name (members_of r) with
          | Some x, None => [([], cached_only x)]
          | None, Some y => [([], source_only y)]
          | Some x, Some y => differences room x y
          | None, None => []
          end) names -> sound l r d) as Hm.
    { intros names Hd. apply list_elem_of_In, in_flat_map in Hd as (name & _ & Hd). apply list_elem_of_In, elem_of_below in Hd as (ts & s & -> & Hd).
      destruct (assoc name (members_of l)) as [x|] eqn:El, (assoc name (members_of r)) as [y|] eqn:Er.
      - by apply (sound_member _ _ _ x y (ts, s)), IH.
      - apply list_elem_of_singleton in Hd as [= -> ->]. unfold sound. simpl. by rewrite El, Er.
      - apply list_elem_of_singleton in Hd as [= -> ->]. unfold sound. simpl. by rewrite El, Er.
      - by apply not_elem_of_nil in Hd. }
    destruct (jsonKind l) eqn:Ekl; [|apply Hm..].
    destruct (Nat.eqb_spec (length (items_of l)) (length (items_of r))) as [|Hne]; intros Hd.
    + apply elem_of_item_differences in Hd as (j & x & y & ts & s & Hl & Hr & -> & Hd).
      by apply (sound_item _ _ _ x y (ts, s)), IH.
    + apply list_elem_of_singleton in Hd as ->. apply sound_here. destruct l, r; try done. simpl in *.
      by apply Nat.eqb_neq in Hne as ->.
Qed.

(** No object has two members of one name. *)
Fixpoint distinct_names (v : jsval) : bool :=
  match v with
  | JArr items => forallb distinct_names items
  | JObj members =>
      bool_decide (NoDup (List.map fst members)) && forallb (fun '(_, x) => distinct_names x) members
  | _ => true
  end.

Lemma assoc_In name m x : assoc name m = Some x -> In (name, x) m.
Proof.
  induction m as [|[n y] m IH]; simpl; [done|]. destruct (str_eqb n name) eqn:E; [|auto].
  apply str_eqb_eq in E as ->. intros [= ->]. by left.
Qed.

Lemma assoc_name name m : In name (Object_keys m) <-> exists x, assoc name m = Some x.
Proof.
  unfold Object_keys. split.
  - induction m as [|[n y] m IH]; simpl; [done|]. destruct (str_eqb n name) eqn:E; [eauto|].
    intros [->|Hin]; [|auto]. assert (str_eqb name name = true) by (by apply str_eqb_eq). congruence.
  - intros [x Hx%assoc_In]. apply in_map_iff. by exists (name, x).
Qed.

Lemma In_assoc name m x : NoDup (List.map fst m) -> In (name, x) m -> assoc name m = Some x.
Proof.
  induction m as [|[n y] m IH]; simpl; [done|]. intros [Hn Hd]%list.NoDup_cons [[= -> ->]|Hin].
  - assert (str_eqb name name = true) as -> by (by apply str_eqb_eq). done.
  - destruct (str_eqb n name) eqn:E; [|by apply IH]. apply str_eqb_eq in E as ->. destruct Hn.
    apply list_elem_of_In, in_map_iff. by exists (name, x).
Qed.

Lemma insert_name_perm x l : insert_name x l ≡ₚ x :: l.
Proof. induction l as [|y l IH]; simpl; [done|]. case_match; [|done]. rewrite IH. apply Permutation_swap. Qed.

Lemma sort_names_perm l : sort_names l ≡ₚ l.
Proof. induction l as [|x l IH]; simpl; [done|]. by rewrite insert_name_perm, IH. Qed.

(** The walk visits the names of either object, and no other. *)
Lemma union_names_In name l r :
  In name (union_names l r) <-> In name (Object_keys l) \/ In name (Object_keys r).
Proof.
  unfold union_names. rewrite <- list_elem_of_In, sort_names_perm, list_elem_of_In, in_app_iff, filter_In.
  unfold has_member. split; [tauto|]. intros [Hl|Hr]; [by left|].
  destruct (assoc name l) as [x|] eqn:E; [|by right]. left. apply assoc_name. eauto.
Qed.

Lemma below_nil t ds : below t ds = [] <-> ds = [].
Proof. by destruct ds. Qed.

Lemma flat_map_nil {A B} (f : A -> list B) l : flat_map f l = [] <-> forall x, In x l -> f x = [].
Proof.
  induction l as [|y l IH]; simpl; [naive_solver|]. rewrite app_nil, IH. naive_solver.
Qed.

Lemma item_differences_nil f l r i :
  length l = length r ->
  item_differences f i l r = [] <-> forall x y, In (x, y) (zip l r) -> f x y = [].
Proof.
  revert r i. induction l as [|x l IH]; intros [|y r] i E; try discriminate E; [done|].
  injection E as E. simpl. rewrite app_nil, below_nil, IH by done. naive_solver.
Qed.

(** Equality of objects, by lookup. *)
Lemma json_eqb_objects l r :
  NoDup (List.map fst l) -> NoDup (List.map fst r) ->
  json_eqb (JObj l) (JObj r) = true <->
  (forall name, In name (union_names l r) ->
     match assoc name l, assoc name r with Some x, Some y => json_eqb x y = true | _, _ => False end).
Proof.
  intros Hl Hr. simpl. rewrite andb_true_iff, Nat.eqb_eq, forallb_forall. split.
  - intros [Hlen Hall].
    assert (forall name x, In (name, x) l -> exists y, assoc name r = Some y /\ json_eqb x y = true) as Hin.
    { intros name x Hx. specialize (Hall (name, json_eqb x)
        (proj2 (in_map_iff _ _ _) (ex_intro _ (name, x) (conj eq_refl Hx)))). simpl in Hall.
      destruct (assoc name r) as [y|]; [eauto|done]. }
    assert (incl (Object_keys r) (Object_keys l)) as Hincl.
    { apply NoDup_length_incl.
      - by apply NoDup_ListNoDup.
      - unfold Object_keys. rewrite !List.length_map. lia.
      - intros name [[n x] [<- Hx]]%in_map_iff. apply Hin in Hx as (y & Hy & _). apply assoc_name. eauto. }
    intros name [Hn|Hn]%union_names_In; [|apply Hincl in Hn]; apply assoc_name in Hn as [x Hx]; rewrite Hx;
      apply assoc_In, Hin in Hx as (y & -> & Hy); done.
  - intros Hall. assert (Object_keys l ≡ₚ Object_keys r) as Hp.
    { apply NoDup_Permutation; [done..|]. intros name. rewrite !list_elem_of_In, !assoc_name.
      assert (forall x y, assoc name l = x -> assoc name r = y -> is_Some x \/ is_Some y -> is_Some x /\ is_Some y) as H2.
      { intros x y E1 E2 Hs. specialize (Hall name). rewrite union_names_In, !assoc_name, E1, E2 in Hall.
        destruct x, y; try done; exfalso; apply Hall; destruct Hs as [[? [=]]|[? [=]]]; eauto. }
      specialize (H2 _ _ eq_refl eq_refl). unfold is_Some in H2. tauto. }
    split; [apply Permutation_length in Hp; unfold Object_keys in Hp; by rewrite !List.length_map in Hp|].
    intros [name f] [[n x] [[= <- <-] Hx]]%in_map_iff. specialize (Hall n).
    rewrite union_names_In in Hall. specialize (Hall (or_introl (in_map fst l (n, x) Hx))).
    rewrite (In_assoc _ _ x) in Hall by done. by destruct (assoc n r).
Qed.

Lemma distinct_items l i x : distinct_names l = true -> items_of l !! i = Some x -> distinct_names x = true.
Proof.
  destruct l; simpl; try done. rewrite forallb_forall. intros H Hx. apply H, list_elem_of_In.
  by eapply list_elem_of_lookup_2.
Qed.

Lemma distinct_members l name x :
  distinct_names (JObj l) = true -> assoc name l = Some x -> distinct_names x = true.
Proof.
  simpl. rewrite andb_true_iff, forallb_forall. intros [_ H] Hx%assoc_In. exact (H _ Hx).
Qed.

Lemma json_eqb_arrays l r :
  json_eqb (JArr l) (JArr r) = true <->
  length l = length r /\ forall x y, In (x, y) (zip l r) -> json_eqb x y = true.
Proof.
  simpl. rewrite andb_true_iff, Nat.eqb_eq, json_eqb_zip, forallb_forall. unfold pair_eqb. split.
  - intros [Hl Ha]. split; [done|]. intros x y Hin. exact (Ha _ Hin).
  - intros [Hl Ha]. split; [done|]. intros [x y] Hin. by apply Ha.
Qed.

Lemma zip_In_lookup {A B} (l : list A) (r : list B) x y :
  In (x, y) (zip l r) -> exists i, l !! i = Some x /\ r !! i = Some y.
Proof.
  intros Hin. apply list_elem_of_In, list_elem_of_lookup in Hin as [i Hi].
  rewrite lookup_zip_with in Hi. exists i. destruct (l !! i), (r !! i); simpl in Hi; naive_solver.
Qed.

(** There is no difference exactly between equal values. *)
Lemma differences_nil room l r :
  distinct_names l = true -> distinct_names r = true ->
  differences room l r = [] <-> json_eqb l r = true.
Proof.
  revert l r. induction room as [|room IH]; intros l r Hl Hr; cbn [differences].
  all: destruct (negb _ || _) eqn:Ek;
    [rewrite <- (json_eqb_primitive _ _ Ek); by destruct (json_eqb l r)|].
  { by destruct (json_eqb l r). }
  destruct l as [| | | | |l|l|], r as [| | | | |r|r|]; try discriminate Ek; cbn [jsonKind items_of members_of].
  - rewrite json_eqb_arrays. destruct (Nat.eqb_spec (length l) (length r)) as [E|E]; [|naive_solver].
    rewrite item_differences_nil by done. split.
    + intros Ha. split; [done|]. intros x y Hin. pose proof (zip_In_lookup _ _ _ _ Hin) as (i & Hx & Hy).
      apply IH; [by eapply (distinct_items (JArr l))|by eapply (distinct_items (JArr r))|by apply Ha].
    + intros [_ Ha] x y Hin. pose proof (zip_In_lookup _ _ _ _ Hin) as (i & Hx & Hy).
      apply IH; [by eapply (distinct_items (JArr l))|by eapply (distinct_items (JArr r))|by apply Ha].
  - rewrite flat_map_nil.
    assert (NoDup (List.map fst l) /\ NoDup (List.map fst r)) as [Nl Nr].
    { simpl in Hl, Hr. rewrite !andb_true_iff, !bool_decide_eq_true in *. tauto. }
    rewrite json_eqb_objects by done. split; intros Ha name Hin; specialize (Ha name Hin); revert Ha.
    all: rewrite ?below_nil; destruct (assoc name l) as [x|] eqn:Ex, (assoc name r) as [y|] eqn:Ey; try done.
    + intros Ha. apply IH; [exact (distinct_members l name x Hl Ex)|exact (distinct_members r name y Hr Ey)|done].
    + intros _. apply union_names_In in Hin as [Hin|Hin]; apply assoc_name in Hin as [z Hz]; congruence.
    + intros Ha. apply IH; [exact (distinct_members l name x Hl Ex)|exact (distinct_members r name y Hr Ey)|done].
Qed.

(** ** Properties *)

(** The iterative comparison terminates, within one iteration per value of
    the cached side and one more, and its verdict is structural equality:
    arrays by position, objects by member name in any order. *)
Theorem jsonValuesEqual_terminates cached source :
  (forall fuel, (json_size cached < fuel)%nat ->
     equal_loop fuel [(cached, source)] = Some (json_eqb cached source)) /\
  jsonValuesEqual cached source = Some (json_eqb cached source).
Proof.
  split; [|apply jsonValuesEqual_eqb]. intros fuel Hf. rewrite equal_loop_spec.
  - simpl. by rewrite andb_true_r.
  - simpl. unfold pair_size. simpl. lia.
Qed.

(** C22. The built-in difference is exact: the count is the number of differing
    positions, it is zero exactly for structurally equal values (whatever the
    depth cap), the entries are the first 64 of them in walk order, and each
    one's sides are what the two values hold at its position, where they
    differ. *)
Theorem walkJson_exact cached source :
  distinct_names cached = true -> distinct_names source = true ->
  let ds := differences SHADOW_MISMATCH_MAX_DEPTH cached source in
  diff_count (walkJson cached source) = length ds /\
  diff_entries (walkJson cached source) =
    List.map (fun '(ts, s) => {| entry_path := keptPointer ts; entry_sides := s |})
      (take SHADOW_MISMATCH_MAX_ENTRIES ds) /\
  (diff_count (walkJson cached source) = 0%nat <-> json_eqb cached source = true) /\
  Forall (sound cached source) ds.
Proof.
  intros Hc Hs ds. unfold walkJson. rewrite walk_differences.
  pose proof (differences_nil SHADOW_MISMATCH_MAX_DEPTH cached source Hc Hs) as Hnil.
  pose proof (differences_sound SHADOW_MISMATCH_MAX_DEPTH cached source) as Hsound.
  fold ds in Hnil, Hsound |- *. clearbody ds.
  destruct (report_all_cut ds {| diff_entries := []; diff_count := 0 |}) as [-> ->]; [simpl; lia|].
  split; [reflexivity|]. split; [apply firstn_map|]. split.
  - rewrite <- Hnil. apply length_zero_iff_nil.
  - by apply list.Forall_forall.
Qed.

Lemma walkJson_exact_witness :
  diff_count (walkJson
    (JObj [(js "b", JInt 1); (js "a", JArr [JNull; JStr (js "x")])])
    (JObj [(js "a", JArr [JNull; JStr (js "y")]); (js "b", JInt 1); (js "c", JBool true)])) = 2%nat /\
  json_eqb (JObj [(js "b", JInt 1); (js "a", JArr [])]) (JObj [(js "a", JArr []); (js "b", JInt 1)]) = true.
Proof.
  split.
  - rewrite (proj1 (walkJson_exact
      (JObj [(js "b", JInt 1); (js "a", JArr [JNull; JStr (js "x")])])
      (JObj [(js "a", JArr [JNull; JStr (js "y")]); (js "b", JInt 1); (js "c", JBool true)])
      ltac:(vm_compute; reflexivity) ltac:(vm_compute; reflexivity))).
    vm_compute. reflexivity.
  - vm_compute. reflexivity.
Defined.
