(* ===== verification/ShadowLog.v ===== *)
(** * Content of a shadow mismatch warning

    The rest of [internal/shadow-log-json.ts], with the promise test of
    [internal/thenable.ts]: the use case's own difference hook, the bounded
    entries, and [renderShadowMismatchLog], which builds the fields a plan
    requests and fails them closed to [null]. *)

From S2P Require Import Prelude JsValue Duration Utf8 Config Key Ramp Metrics RuntimeConfig Frame Json JsonText Serializer LogText JsonDiff.

(** ** Data *)

(** The leaves captured at admission of a shadow job. *)
Record ShadowMismatchLogPlan := { lp_value : bool; lp_diff : ShadowMismatchDiffLevel }.

(** A field is absent, [null] ([Some None]), or rendered. *)
Record ShadowMismatchLogFields := {
  mismatchPaths : option (option (list jsstr));
  mismatchPathCount : option (option nat);
  diffJson : option (option jsstr);
  cachedValueJson : option (option jsstr);
  sourceValueJson : option (option jsstr);
}.

Inductive ShadowMismatchLogFailure := hook_error | render_error.

Record ShadowMismatchLogContent := {
  content_fields : ShadowMismatchLogFields;
  content_failure : option ShadowMismatchLogFailure;
}.

(** ** Promises *)

(** Whether a value has a callable [then]. *)
Definition isPromiseLike (value : jsval) : bool :=
  match value with
  | JObj _ => match prop value "then" with JFun => true | _ => false end
  | _ => false
  end.

Section render.
  (** What application code does when [JSON.stringify] reaches a [toJSON]
      method, and when [String(v)] converts an object or a function. *)
  Context (app : jsval -> res (option jsstr)) (app_string : jsval -> res jsstr).

(** [String(v)] *)
Definition String_of (v : jsval) : res jsstr :=
  match v with
  | JUndefined => Ok (js "undefined")
  | JNull => Ok (js "null")
  | JBool b => Ok (js (if b then "true" else "false"))
  | JNum (Fin q) => Ok (Number_toString q)
  | JNum NaN => Ok (js "NaN")
  | JNum (Infinity negative) => Ok (js (if negative then "-Infinity" else "Infinity"))
  | JStr s => Ok s
  | _ => app_string v
  end.

(** [null] when the value has no JSON text or rendering throws. *)
Definition renderJson (value : jsval) : option jsstr :=
  match JSON_stringify app value with
  | Ok (Some json) => Some json
  | Ok None | Err _ => None
  end.

(** [cached === undefined ? {} : { cached }] *)
Definition present (v : jsval) : option jsval := if is_undefined v then None else Some v.

(** [const { path, cached, source } = member; ...] *)
Definition hookEntry (member : jsval) : res RawMismatchEntry :=
  _ ← throw_if (is_undefined member || is_null member) (TypeError "Cannot destructure property 'path'");
  path ← String_of (prop member "path");
  Ok {| entry_path := path;
        entry_sides := {| cached_side := present (prop member "cached"); source_side := present (prop member "source") |} |}.

Fixpoint hookEntries (members : list jsval) : res (list RawMismatchEntry) :=
  match members with
  | [] => Ok []
  | m :: rest => e ← hookEntry m; es ← hookEntries rest; Ok (e :: es)
  end.

(** [hook] is the outcome of calling the use case's hook. *)
Definition runShadowMismatchHook (hook : res jsval) : option RawMismatchDiff :=
  match hook with
  | Err _ => None
  | Ok result =>
      if isPromiseLike result then None
      else match result with
      | JArr members =>
          match hookEntries (take SHADOW_MISMATCH_MAX_ENTRIES members) with
          | Ok entries => Some {| diff_entries := entries; diff_count := length members |}
          | Err _ => None
          end
      | _ => None
      end
  end.

(** ** Bounded entries *)

(** [bounded[side] = ...], skipping an absent side; [None] is a side without
    a rendering. *)
Definition boundSide (side : option jsval) : res (option (option jsval)) :=
  match side with
  | None => Ok (Some None)
  | Some v =>
      match renderJson v with
      | None => Ok None
      | Some json =>
          let clamped := clampUtf8 json SHADOW_MISMATCH_SIDE_MAX_BYTES in
          if str_eqb clamped json then v ← JSON_parse json; Ok (Some (Some v))
          else Ok (Some (Some (JStr clamped)))
      end
  end.

(** The bounded entry as the object that is logged. *)
Definition entry_object (path : jsstr) (cached source : option jsval) : jsval :=
  JObj ([(js "path", JStr path)]
        ++ match cached with Some v => [(js "cached", v)] | None => [] end
        ++ match source with Some v => [(js "source", v)] | None => [] end).

Definition boundEntry (entry : RawMismatchEntry) : res (option jsval) :=
  let path := clampPointer (entry_path entry) in
  cached ← boundSide (cached_side (entry_sides entry));
  match cached with
  | None => Ok None
  | Some cached =>
      source ← boundSide (source_side (entry_sides entry));
      match source with
      | None => Ok None
      | Some source => Ok (Some (entry_object path cached source))
      end
  end.

(** The bounded entries, up to the first that has none. *)
Fixpoint boundEntries (entries : list RawMismatchEntry) : res (option (list jsval)) :=
  match entries with
  | [] => Ok (Some [])
  | e :: rest =>
      next ← boundEntry e;
      match next with
      | None => Ok None
      | Some b => bs ← boundEntries rest; Ok (match bs with Some bs => Some (b :: bs) | None => None end)
      end
  end.

Definition renderDiffJson (entries : list RawMismatchEntry) : res (option jsstr) :=
  bounded ← boundEntries entries;
  match bounded with
  | None => Ok None
  | Some bounded =>
      json ← JSON_stringify app (JArr bounded);
      Ok (Some (clampUtf8 (default [] json) SHADOW_LOG_DIFF_MAX_BYTES))
  end.

(** The built-in difference with its entries bounded. *)
Definition diffShadowMismatchJson (cached source : jsval) : res (nat * option (list jsval)) :=
  let diff := walkJson cached source in
  entries ← boundEntries (diff_entries diff);
  Ok (diff_count diff, entries).

(** ** [renderShadowMismatchLog] *)

(** [None] is an absent side. *)
Definition walkRenderedJson (cachedJson sourceJson : option jsstr) : res RawMismatchDiff :=
  let root s := {| diff_entries := [{| entry_path := []; entry_sides := s |}]; diff_count := 1 |} in
  if bool_decide (cachedJson = sourceJson) then Ok {| diff_entries := []; diff_count := 0 |}
  else match cachedJson, sourceJson with
  | None, Some s => source ← JSON_parse s; Ok (root (source_only source))
  | Some c, None => cached ← JSON_parse c; Ok (root (cached_only cached))
  | Some c, Some s => cached ← JSON_parse c; source ← JSON_parse s; Ok (walkJson cached source)
  | None, None => Ok {| diff_entries := []; diff_count := 0 |}
  end.

Definition is_off (d : ShadowMismatchDiffLevel) : bool := bool_decide (d = DiffOff).
Definition is_values (d : ShadowMismatchDiffLevel) : bool := bool_decide (d = DiffValues).

(** [...(cond ? { field } : {})] *)
Definition field_if {A} (cond : bool) (value : A) : option A := if cond then Some value else None.

Definition no_fields : ShadowMismatchLogFields := {|
  mismatchPaths := None; mismatchPathCount := None; diffJson := None; cachedValueJson := None; sourceValueJson := None;
|}.

(** The difference fields, and whether the hook and the rendering failed. *)
Definition renderDiff (plan : ShadowMismatchLogPlan) (cachedJson sourceJson : option jsstr)
    (renderFailed : bool) (hook : option (res jsval)) : res (ShadowMismatchLogFields * bool * bool) :=
  if is_off (lp_diff plan) then Ok (no_fields, false, renderFailed)
  else
    let withValues := is_values (lp_diff plan) in
    diff ← match hook with
           | Some outcome => Ok (runShadowMismatchHook outcome)
           | None => if renderFailed then Ok None
                     else d ← walkRenderedJson cachedJson sourceJson; Ok (Some d)
           end;
    let diffFailed := match hook, diff with Some _, None => true | _, _ => false end in
    match diff with
    | None =>
        Ok ({| mismatchPaths := Some None; mismatchPathCount := Some None; diffJson := field_if withValues None;
               cachedValueJson := None; sourceValueJson := None |}, diffFailed, renderFailed)
    | Some d =>
        json ← (if withValues then renderDiffJson (diff_entries d) else Ok None);
        let renderFailed := renderFailed || (withValues && match json with None => true | Some _ => false end) in
        Ok ({| mismatchPaths := Some (Some (List.map (fun e => clampPointer (entry_path e)) (diff_entries d)));
               mismatchPathCount := Some (Some (diff_count d)); diffJson := field_if withValues json;
               cachedValueJson := None; sourceValueJson := None |}, diffFailed, renderFailed)
    end.

Definition renderShadowMismatchLog (plan : ShadowMismatchLogPlan) (cachedValue sourceValue : jsval)
    (hook : option (res jsval)) : res ShadowMismatchLogContent :=
  let renderSides := lp_value plan
    || (negb (is_off (lp_diff plan)) && match hook with None => true | Some _ => false end) in
  let cachedJson := if renderSides then renderJson cachedValue else None in
  let sourceJson := if renderSides then renderJson sourceValue else None in
  let missing json value := bool_decide (json = None) && negb (is_undefined value) in
  let renderFailed := renderSides && (missing cachedJson cachedValue || missing sourceJson sourceValue) in
  '(diffFields, diffFailed, renderFailed) ← renderDiff plan cachedJson sourceJson renderFailed hook;
  let clamp json := (fun t => clampUtf8 t SHADOW_LOG_VALUE_MAX_BYTES) <$> (json : option jsstr) in
  Ok {| content_fields := {|
          mismatchPaths := mismatchPaths diffFields;
          mismatchPathCount := mismatchPathCount diffFields;
          diffJson := diffJson diffFields;
          cachedValueJson := field_if (lp_value plan) (clamp cachedJson);
          sourceValueJson := field_if (lp_value plan) (clamp sourceJson) |};
        content_failure := if diffFailed : bool then Some hook_error
                           else if renderFailed : bool then Some render_error else None |}.
End render.

(** Every field the plan requests, failed closed to [null]. *)
Definition failedShadowMismatchLogFields (plan : ShadowMismatchLogPlan) : ShadowMismatchLogFields := {|
  mismatchPaths := if is_off (lp_diff plan) then None else Some None;
  mismatchPathCount := if is_off (lp_diff plan) then None else Some None;
  diffJson := field_if (is_values (lp_diff plan)) None;
  cachedValueJson := field_if (lp_value plan) None;
  sourceValueJson := field_if (lp_value plan) None;
|}.

(** ** Lemmas: everything that is logged consists of code units *)

Lemma strings_ok_member name m x :
  strings_ok (JObj m) = true -> assoc name m = Some x -> is_string name = true /\ strings_ok x = true.
Proof.
  simpl. rewrite forallb_forall. intros Hm Hx%assoc_In. specialize (Hm _ Hx). simpl in Hm.
  by apply andb_true_iff in Hm.
Qed.

Lemma resolve_strings v tokens x :
  strings_ok v = true -> resolve v tokens = Some x -> Forall token_ok tokens /\ strings_ok x = true.
Proof.
  revert v. induction tokens as [|[i|name] tokens IH]; simpl; intros v Hv; [intros [= <-]; by split|..].
  - destruct (items_of v !! i) as [y|] eqn:Ey; [|done]. simpl. intros Hx.
    destruct (IH y) as [H1 H2]; [|done|split; [by constructor|done]].
    destruct v; simpl in *; try done. rewrite forallb_forall in Hv. apply Hv, list_elem_of_In.
    by eapply list_elem_of_lookup_2.
  - destruct (assoc name (members_of v)) as [y|] eqn:Ey; [|done]. simpl. intros Hx.
    destruct v; try done. apply (strings_ok_member _ _ _ Hv) in Ey as [Hn Hy].
    destruct (IH y Hy Hx) as [H1 H2]. split; [constructor; [by apply is_string_spec|done]|done].
Qed.

Lemma keptPointer_ok tokens : Forall token_ok tokens -> Forall code_unit (keptPointer tokens).
Proof.
  intros Hok%fullPointer_ok. unfold keptPointer.
  destruct (kept_from_cases [] tokens) as [->|(r & E & _)]; [done|]. simpl in E. rewrite E in Hok.
  by apply Forall_app in Hok as [? _].
Qed.

(** An entry whose pointer and sides are strings. *)
Definition entry_ok (e : RawMismatchEntry) : Prop :=
  Forall code_unit (entry_path e) /\
  (forall v, cached_side (entry_sides e) = Some v -> strings_ok v = true) /\
  (forall v, source_side (entry_sides e) = Some v -> strings_ok v = true).

Lemma sound_entry_ok l r ts s :
  strings_ok l = true -> strings_ok r = true -> sound l r (ts, s) ->
  entry_ok {| entry_path := keptPointer ts; entry_sides := s |}.
Proof.
  intros Hl Hr (H1 & H2 & Hd). simpl in *. split; [|split]; simpl.
  - apply keptPointer_ok. unfold sides_differ in Hd.
    destruct (cached_side s) as [x|]; [by eapply resolve_strings in H1 as [? _]|].
    destruct (source_side s) as [y|]; [by eapply resolve_strings in H2 as [? _]|done].
  - intros v E. rewrite E in H1. by eapply resolve_strings in H1 as [_ ?].
  - intros v E. rewrite E in H2. by eapply resolve_strings in H2 as [_ ?].
Qed.

(** Entries of a difference: bounded in number, and strings. *)
Definition diff_ok (d : RawMismatchDiff) : Prop :=
  (length (diff_entries d) <= SHADOW_MISMATCH_MAX_ENTRIES)%nat /\ Forall entry_ok (diff_entries d).

Lemma walkJson_ok l r : strings_ok l = true -> strings_ok r = true -> diff_ok (walkJson l r).
Proof.
  intros Hl Hr. unfold walkJson. rewrite walk_differences.
  pose proof (differences_sound SHADOW_MISMATCH_MAX_DEPTH l r) as Hsound.
  set (ds := differences SHADOW_MISMATCH_MAX_DEPTH l r) in *. clearbody ds. unfold diff_ok.
  destruct (report_all_cut ds {| diff_entries := []; diff_count := 0 |}) as [-> _]; [simpl; lia|].
  split; [apply firstn_le_length|]. cbn [diff_entries app]. apply Forall_take, Forall_map, list.Forall_forall.
  intros [ts s] Hd. by eapply sound_entry_ok; [..|apply Hsound].
Qed.

Lemma walkRenderedJson_ok cachedJson sourceJson d :
  (forall t, cachedJson = Some t -> Forall code_unit t) -> (forall t, sourceJson = Some t -> Forall code_unit t) ->
  walkRenderedJson cachedJson sourceJson = Ok d -> diff_ok d.
Proof.
  intros Hc Hs. unfold walkRenderedJson. case_bool_decide; [intros [= <-]; split; [simpl; lia|constructor]|].
  destruct cachedJson as [c|], sourceJson as [s|].
  - intros (cv & E1 & (sv & E2 & [= <-])%result_bind_ok)%result_bind_ok.
    apply walkJson_ok; [by eapply JSON_parse_strings; [apply Hc|]|by eapply JSON_parse_strings; [apply Hs|]].
  - intros (cv & E1 & [= <-])%result_bind_ok. apply JSON_parse_strings in E1; [|by apply Hc].
    split; [unfold SHADOW_MISMATCH_MAX_ENTRIES; simpl; lia|]. repeat constructor; simpl; [|done]. by intros v [= <-].
  - intros (sv & E2 & [= <-])%result_bind_ok. apply JSON_parse_strings in E2; [|by apply Hs].
    split; [unfold SHADOW_MISMATCH_MAX_ENTRIES; simpl; lia|]. repeat constructor; simpl; [done|]. by intros v [= <-].
  - done.
Qed.

Section bounded.
  Context (app : jsval -> res (option jsstr)) (app_string : jsval -> res jsstr).
  (** Texts that application code produces are strings. *)
  Context (app_ok : forall v t, app v = Ok (Some t) -> Forall code_unit t)
          (app_string_ok : forall v s, app_string v = Ok s -> Forall code_unit s).

Lemma renderJson_ok v t : strings_ok v = true -> renderJson app v = Some t -> Forall code_unit t.
Proof.
  intros Hv. unfold renderJson, JSON_stringify. destruct (calls_toJSON v).
  - destruct (app v) as [[j|]|] eqn:E; [|done..]. intros [= <-]. by apply app_ok in E.
  - destruct (SerializeJSONProperty v) as [j|] eqn:E; [|done]. intros [= <-].
    by eapply scalar_text_units, text_scalar.
Qed.

Lemma prop_strings v name : strings_ok v = true -> strings_ok (prop v name) = true.
Proof.
  intros Hv. destruct v; try done. simpl prop. destruct (assoc (js name) members) eqn:E; [|done].
  by apply (strings_ok_member _ _ _ Hv) in E as [_ ?].
Qed.

Lemma String_of_ok v s : strings_ok v = true -> String_of app_string v = Ok s -> Forall code_unit s.
Proof.
  assert (forall t, Forall (fun c => 0 <= c < 128) (js t) -> Forall code_unit (js t)) as Hjs.
  { intros t Ht. by apply scalar_text_units, scalar_text_ascii. }
  intros Hv. destruct v as [| |[]|[|[]|q]|t| | |]; simpl; intros E; try (by eapply app_string_ok); injection E as <-.
  1-7: apply Hjs; by repeat constructor.
  - apply scalar_text_units, Number_toString_scalar.
  - by apply is_string_spec.
Qed.

Lemma hookEntry_ok m e : strings_ok m = true -> hookEntry app_string m = Ok e -> entry_ok e.
Proof.
  intros Hm. unfold hookEntry, throw_if. destruct (_ || _); [done|]. cbn [mbind result_bind].
  intros (path & Hp & [= <-])%result_bind_ok. unfold entry_ok, present. simpl.
  split; [eapply String_of_ok; [|exact Hp]; by apply prop_strings|].
  split; intros v; case_match; try done; intros [= <-]; by apply prop_strings.
Qed.

Lemma hookEntries_ok ms es :
  forallb strings_ok ms = true -> hookEntries app_string ms = Ok es -> length es = length ms /\ Forall entry_ok es.
Proof.
  revert es. induction ms as [|m ms IH]; simpl; intros es Hm; [intros [= <-]; split; [done|constructor]|].
  apply andb_true_iff in Hm as [Hm Hms]. intros (e & He & (es' & Hes & [= <-])%result_bind_ok)%result_bind_ok.
  destruct (IH es' Hms Hes) as [Hl HF]. split; [simpl; lia|]. constructor; [by eapply hookEntry_ok|done].
Qed.

Lemma runShadowMismatchHook_ok hook d :
  (forall v, hook = Ok v -> strings_ok v = true) -> runShadowMismatchHook app_string hook = Some d -> diff_ok d.
Proof.
  intros Hh. unfold runShadowMismatchHook. destruct hook as [v|]; [|done]. specialize (Hh v eq_refl).
  destruct (isPromiseLike v); [done|]. destruct v as [| | | | |ms| |]; try done.
  destruct (hookEntries app_string (take SHADOW_MISMATCH_MAX_ENTRIES ms)) as [es|] eqn:E; [|done]. intros [= <-].
  apply hookEntries_ok in E as [Hl HF].
  - split; [simpl; rewrite Hl; apply firstn_le_length|done].
  - simpl in Hh. rewrite forallb_forall in Hh |- *. intros x Hx. apply Hh. apply list_elem_of_In.
    apply list_elem_of_In in Hx. apply elem_of_take in Hx as (i & Hi & _). by eapply list_elem_of_lookup_2.
Qed.

Lemma clamp_ok s maxBytes :
  14 <= maxBytes -> Forall code_unit s ->
  byteLength (clampUtf8 s maxBytes) <= maxBytes /\ Forall code_unit (clampUtf8 s maxBytes).
Proof. intros Hm Hs. split; [by apply clampUtf8_bytes|by apply clampUtf8_units; [lia|]]. Qed.

Lemma boundSide_ok side v :
  (forall x, side = Some x -> strings_ok x = true) -> boundSide app side = Ok (Some (Some v)) -> strings_ok v = true.
Proof.
  intros Hside. unfold boundSide. destruct side as [x|]; [|done].
  destruct (renderJson app x) as [json|] eqn:Ej; [|done]. apply renderJson_ok in Ej; [|by apply Hside].
  case_match.
  - intros (y & Hy & [= <-])%result_bind_ok. by eapply JSON_parse_strings.
  - intros [= <-]. simpl. by apply is_string_true, clamp_ok.
Qed.

Lemma boundEntry_ok e b : entry_ok e -> boundEntry app e = Ok (Some b) -> strings_ok b = true.
Proof.
  intros (Hp & Hc & Hs). unfold boundEntry.
  intros (c & Ec & Hb)%result_bind_ok. destruct c as [c|]; [|done].
  apply result_bind_ok in Hb as (s & Es & Hb). destruct s as [s|]; [|done]. injection Hb as <-.
  assert (is_string (clampPointer (entry_path e)) = true) as Hpath by (by apply is_string_true, clamp_ok).
  unfold entry_object.
  destruct c as [c|]; [apply boundSide_ok in Ec; [|done]|clear Ec];
    (destruct s as [s|]; [apply boundSide_ok in Es; [|done]|clear Es]); simpl; rewrite Hpath, ?Ec, ?Es; done.
Qed.

Lemma boundEntries_ok es bs :
  Forall entry_ok es -> boundEntries app es = Ok (Some bs) -> forallb strings_ok bs = true.
Proof.
  intros HF. revert bs. induction HF as [|e es He _ IH]; simpl; intros bs; [by intros [= <-]|].
  intros (next & Hn & Hb)%result_bind_ok. destruct next as [b|]; [|done].
  apply result_bind_ok in Hb as (bs' & Hbs & Hb). destruct bs' as [bs'|]; [|done]. injection Hb as <-.
  simpl. rewrite (boundEntry_ok _ _ He Hn). by apply IH.
Qed.

Lemma renderDiffJson_ok es t :
  Forall entry_ok es -> renderDiffJson app es = Ok (Some t) -> byteLength t <= SHADOW_LOG_DIFF_MAX_BYTES.
Proof.
  intros HF. unfold renderDiffJson. intros (bs & Hbs & Hb)%result_bind_ok. destruct bs as [bs|]; [|done].
  apply boundEntries_ok in Hbs; [|done]. apply result_bind_ok in Hb as (json & Hj & [= <-]).
  apply clamp_ok; [by unfold SHADOW_LOG_DIFF_MAX_BYTES|]. destruct json as [j|]; simpl; [|constructor].
  apply (renderJson_ok (JArr bs)); [done|]. unfold renderJson. by rewrite Hj.
Qed.

(** The limits of the rendered fields. *)
Definition fields_bounded (f : ShadowMismatchLogFields) : Prop :=
  (forall ps, mismatchPaths f = Some (Some ps) ->
     (length ps <= SHADOW_MISMATCH_MAX_ENTRIES)%nat /\
     Forall (fun p => byteLength p <= SHADOW_MISMATCH_PATH_MAX_BYTES) ps) /\
  (forall t, diffJson f = Some (Some t) -> byteLength t <= SHADOW_LOG_DIFF_MAX_BYTES) /\
  (forall t, cachedValueJson f = Some (Some t) -> byteLength t <= SHADOW_LOG_VALUE_MAX_BYTES) /\
  (forall t, sourceValueJson f = Some (Some t) -> byteLength t <= SHADOW_LOG_VALUE_MAX_BYTES).

Lemma renderDiff_bounded plan cachedJson sourceJson rf hook f df rf' :
  (forall t, cachedJson = Some t -> Forall code_unit t) -> (forall t, sourceJson = Some t -> Forall code_unit t) ->
  (forall v, hook = Some (Ok v) -> strings_ok v = true) ->
  renderDiff app app_string plan cachedJson sourceJson rf hook = Ok (f, df, rf') -> fields_bounded f.
Proof.
  intros Hc Hs Hh. unfold renderDiff. destruct (is_off (lp_diff plan)).
  { intros [= <- _ _]. by repeat split. }
  intros (diff & Hdiff & Hf)%result_bind_ok.
  assert (forall d, diff = Some d -> diff_ok d) as Hd.
  { intros d ->. destruct hook as [outcome|].
    - injection Hdiff as Hd. eapply runShadowMismatchHook_ok; [|exact Hd]. intros v ->. by apply Hh.
    - destruct rf; [done|]. apply result_bind_ok in Hdiff as (d' & Hw & [= <-]). by apply (walkRenderedJson_ok cachedJson sourceJson). }
  clear Hdiff. destruct diff as [d|].
  - destruct (Hd d eq_refl) as [Hl HF]. apply result_bind_ok in Hf as (json & Hj & [= <- _ _]).
    split; [|split; [|by split]]; simpl.
    + intros ps [= <-]. rewrite List.length_map. split; [done|]. apply Forall_map.
      eapply list.Forall_impl; [exact HF|]. intros e (Hp & _). by apply clamp_ok.
    + intros t. unfold field_if. destruct (is_values (lp_diff plan)); [|done]. intros [= ->].
      by eapply renderDiffJson_ok.
  - injection Hf as <- _ _. repeat split; simpl; try done. intros t. unfold field_if. by case_match.
Qed.

Lemma render_bounded plan cachedValue sourceValue hook content :
  strings_ok cachedValue = true -> strings_ok sourceValue = true ->
  (forall v, hook = Some (Ok v) -> strings_ok v = true) ->
  renderShadowMismatchLog app app_string plan cachedValue sourceValue hook = Ok content ->
  fields_bounded (content_fields content).
Proof.
  intros Hc Hs Hh. unfold renderShadowMismatchLog.
  set (rs := lp_value plan || _). set (cj := if rs then renderJson app cachedValue else None).
  set (sj := if rs then renderJson app sourceValue else None).
  assert (forall t, cj = Some t -> Forall code_unit t) as Hcj.
  { intros t. subst cj. destruct rs; [|done]. by apply renderJson_ok. }
  assert (forall t, sj = Some t -> Forall code_unit t) as Hsj.
  { intros t. subst sj. destruct rs; [|done]. by apply renderJson_ok. }
  clearbody cj sj. intros ([[f df] rf] & Hf & [= <-])%result_bind_ok.
  destruct (renderDiff_bounded _ _ _ _ _ _ _ _ Hcj Hsj Hh Hf) as (H1 & H2 & _).
  split; [done|]. split; [done|]. simpl. unfold field_if. split; intros t; case_match; try done; intros E.
  - destruct cj as [j|]; [|done]. injection E as <-. by apply clamp_ok; [|apply Hcj].
  - destruct sj as [j|]; [|done]. injection E as <-. by apply clamp_ok; [|apply Hsj].
Qed.
End bounded.

(** ** Lemmas: rendering representable values *)

Lemma existsb_false_forall {A} (p : A -> bool) l : (forall x, In x l -> p x = false) -> existsb p l = false.
Proof.
  intros Hp. induction l as [|x l IH]; simpl; [done|]. rewrite Hp by (by left). apply IH. intros y Hy. apply Hp. by right.
Qed.

Lemma json_ok_no_toJSON v : json_ok v = true -> calls_toJSON v = false.
Proof.
  induction v as [v Hv|items HF|members HF] using jsval_deep_ind; intros Hok.
  - by destruct v.
  - simpl in *. apply existsb_false_forall. intros x Hx. rewrite forallb_forall in Hok.
    rewrite list.Forall_forall in HF. apply HF; [by apply list_elem_of_In|by apply Hok].
  - simpl in *. apply andb_true_iff in Hok as [_ Hok]. rewrite forallb_forall in Hok. rewrite list.Forall_forall in HF.
    apply orb_false_iff. split.
    + destruct (assoc (js "toJSON") members) as [x|] eqn:E; [|done]. apply assoc_In in E. specialize (Hok _ E).
      simpl in Hok. by destruct x.
    + apply existsb_false_forall. intros [name x] Hx. specialize (Hok _ Hx). simpl in Hok.
      apply andb_true_iff in Hok as [_ Hok]. apply (HF (name, x)); [by apply list_elem_of_In|done].
Qed.

Lemma json_ok_distinct v : json_ok v = true -> distinct_names v = true.
Proof.
  induction v as [v Hv|items HF|members HF] using jsval_deep_ind; intros Hok.
  - by destruct v.
  - simpl in *. rewrite forallb_forall in *. rewrite list.Forall_forall in HF. intros x Hx.
    apply HF; [by apply list_elem_of_In|by apply Hok].
  - simpl in *. apply andb_true_iff in Hok as [Ho Hok]. apply andb_true_iff.
    split; [apply bool_decide_eq_true; by apply names_ordered_NoDup|]. rewrite forallb_forall in *.
    rewrite list.Forall_forall in HF. intros [name x] Hx. specialize (Hok _ Hx). simpl in Hok.
    apply andb_true_iff in Hok as [_ Hok]. apply (HF (name, x)); [by apply list_elem_of_In|done].
Qed.

Lemma json_eqb_refl v : json_ok v = true -> json_eqb v v = true.
Proof.
  induction v as [v Hv|items HF|members HF] using jsval_deep_ind; intros Hok.
  - destruct v as [| |[]|[| |q]|s| | |]; try done; simpl.
    + unfold num_eqb. apply Qeq_bool_refl.
    + by apply str_eqb_eq.
  - rewrite json_eqb_arrays. split; [done|]. intros x y Hin. simpl in Hok. rewrite forallb_forall in Hok.
    pose proof (zip_In_lookup _ _ _ _ Hin) as (i & Hx & Hy). rewrite Hx in Hy. injection Hy as <-.
    apply list_elem_of_lookup_2 in Hx. rewrite list.Forall_forall in HF. apply HF; [done|].
    by apply Hok, list_elem_of_In.
  - pose proof (json_ok_distinct _ Hok) as Hd. simpl in Hd. rewrite andb_true_iff, bool_decide_eq_true in Hd.
    destruct Hd as [Hd _]. rewrite json_eqb_objects by done. intros name Hin.
    assert (exists x, assoc name members = Some x) as [x E].
    { apply union_names_In in Hin as [Hin|Hin]; by apply assoc_name. }
    rewrite E. apply assoc_In in E. simpl in Hok. apply andb_true_iff in Hok as [_ Hok].
    rewrite forallb_forall in Hok. specialize (Hok _ E). simpl in Hok. apply andb_true_iff in Hok as [_ Hok].
    rewrite list.Forall_forall in HF. apply (HF (name, x)); [by apply list_elem_of_In|done].
Qed.

Lemma resolve_json_ok v tokens x : json_ok v = true -> resolve v tokens = Some x -> json_ok x = true.
Proof.
  revert v. induction tokens as [|[i|name] tokens IH]; simpl; intros v Hv; [by intros [= <-]|..].
  - destruct (items_of v !! i) as [y|] eqn:Ey; [|done]. simpl. apply IH. destruct v; simpl in *; try done.
    rewrite forallb_forall in Hv. apply Hv, list_elem_of_In. by eapply list_elem_of_lookup_2.
  - destruct (assoc name (members_of v)) as [y|] eqn:Ey; [|done]. simpl. apply IH. destruct v; try done.
    simpl in *. apply andb_true_iff in Hv as [_ Hv]. apply assoc_In in Ey. rewrite forallb_forall in Hv.
    specialize (Hv _ Ey). simpl in Hv. by apply andb_true_iff in Hv as [_ ?].
Qed.

(** Entries whose sides JSON can represent. *)
Definition entry_json (e : RawMismatchEntry) : Prop :=
  (forall v, cached_side (entry_sides e) = Some v -> json_ok v = true) /\
  (forall v, source_side (entry_sides e) = Some v -> json_ok v = true).

Lemma walkJson_json l r : json_ok l = true -> json_ok r = true -> Forall entry_json (diff_entries (walkJson l r)).
Proof.
  intros Hl Hr. unfold walkJson. rewrite walk_differences.
  pose proof (differences_sound SHADOW_MISMATCH_MAX_DEPTH l r) as Hsound.
  set (ds := differences SHADOW_MISMATCH_MAX_DEPTH l r) in *. clearbody ds.
  destruct (report_all_cut ds {| diff_entries := []; diff_count := 0 |}) as [-> _]; [simpl; lia|].
  cbn [diff_entries app]. apply Forall_take, Forall_map, list.Forall_forall.
  intros [ts s] (H1 & H2 & _)%Hsound. simpl in *. split; simpl; intros v E; [rewrite E in H1|rewrite E in H2].
  - by eapply (resolve_json_ok l).
  - by eapply (resolve_json_ok r).
Qed.

Section total.
  Context (app : jsval -> res (option jsstr)) (app_string : jsval -> res jsstr).

Lemma renderJson_view v :
  js_value v = true -> calls_toJSON v = false ->
  if has_no_text v then renderJson app v = None
  else exists t, renderJson app v = Some t /\ JSON_parse t = Ok (json_view v) /\ json_ok (json_view v) = true.
Proof.
  intros Hv Hn. unfold renderJson, JSON_stringify. rewrite Hn. destruct (has_no_text v) eqn:E.
  - apply has_no_text_spec in E. by rewrite E.
  - pose proof (json_view_ok v Hv E) as Hok. destruct (json_ok_text _ Hok) as [t Et].
    rewrite <- json_view_text, Et by done. exists t. split; [done|]. split; [|done]. by apply JSON_parse_stringify.
Qed.

Lemma boundSide_total side :
  (forall v, side = Some v -> json_ok v = true) ->
  exists b, boundSide app side = Ok (Some b) /\ forall v, b = Some v -> calls_toJSON v = false.
Proof.
  intros Hs. destruct side as [v|]; [|by exists None]. simpl. specialize (Hs v eq_refl).
  destruct (json_ok_value v Hs) as (Hv & Ht & Hview).
  pose proof (renderJson_view v Hv (json_ok_no_toJSON v Hs)) as Hr. rewrite Ht, Hview in Hr.
  destruct Hr as (t & -> & Hp & _). case_match.
  - rewrite Hp. simpl. exists (Some v). split; [done|]. intros v' [= <-]. by apply json_ok_no_toJSON.
  - eexists. split; [done|]. by intros v' [= <-].
Qed.

Lemma boundEntries_total es :
  Forall entry_json es -> exists bs, boundEntries app es = Ok (Some bs) /\ calls_toJSON (JArr bs) = false.
Proof.
  induction 1 as [|e es [Hc Hs] _ IH]; [by exists []|]. destruct IH as (bs & Hbs & Hn).
  destruct (boundSide_total _ Hc) as (c & Ec & Hc'). destruct (boundSide_total _ Hs) as (s & Es & Hs').
  eexists. simpl. unfold boundEntry. rewrite Ec. cbn [mbind result_bind]. rewrite Es. cbn [mbind result_bind].
  rewrite Hbs. cbn [mbind result_bind]. split; [done|]. simpl in Hn |- *. rewrite Hn, orb_false_r.
  destruct c as [c|], s as [s|]; simpl; rewrite ?(Hc' _ eq_refl), ?(Hs' _ eq_refl); done.
Qed.

Lemma renderDiffJson_total es :
  Forall entry_json es -> exists t, renderDiffJson app es = Ok (Some t).
Proof.
  intros HF. destruct (boundEntries_total es HF) as (bs & Hbs & Hn). unfold renderDiffJson. rewrite Hbs. simpl.
  unfold JSON_stringify. rewrite Hn. simpl. by eexists.
Qed.
End total.

(** The built-in difference of two sides that have a text. *)
Lemma walkRenderedJson_views app c s cj sj :
  js_value c = true -> calls_toJSON c = false -> has_no_text c = false ->
  js_value s = true -> calls_toJSON s = false -> has_no_text s = false ->
  renderJson app c = Some cj -> renderJson app s = Some sj ->
  exists d, walkRenderedJson (Some cj) (Some sj) = Ok d /\ Forall entry_json (diff_entries d) /\
    (diff_count d = 0%nat <-> json_eqb (json_view c) (json_view s) = true).
Proof.
  intros Hc Hnc Htc Hs Hns Hts Ec Es.
  pose proof (renderJson_view app c Hc Hnc) as Hrc. rewrite Htc in Hrc. destruct Hrc as (t & Et & Hpc & Hokc).
  rewrite Ec in Et. injection Et as <-.
  pose proof (renderJson_view app s Hs Hns) as Hrs. rewrite Hts in Hrs. destruct Hrs as (t & Et & Hps & Hoks).
  rewrite Es in Et. injection Et as <-. unfold walkRenderedJson. case_bool_decide as Heq.
  - injection Heq as ->. rewrite Hpc in Hps. injection Hps as <-.
    eexists. split; [done|]. split; [constructor|]. simpl. by rewrite json_eqb_refl.
  - rewrite Hpc, Hps. simpl. eexists. split; [done|]. split; [by apply walkJson_json|].
    unfold walkJson. rewrite walk_differences.
    pose proof (differences_nil SHADOW_MISMATCH_MAX_DEPTH _ _ (json_ok_distinct _ Hokc) (json_ok_distinct _ Hoks)) as Hnil.
    set (ds := differences SHADOW_MISMATCH_MAX_DEPTH _ _) in *. clearbody ds.
    destruct (report_all_cut ds {| diff_entries := []; diff_count := 0 |}) as [_ ->]; [simpl; lia|].
    rewrite <- Hnil. apply length_zero_iff_nil.
Qed.

(** Rendering requests and fails exactly the fields of the plan. *)
Lemma render_fields_follow_plan app app_string plan cachedValue sourceValue hook content :
  renderShadowMismatchLog app app_string plan cachedValue sourceValue hook = Ok content ->
  let f := content_fields content in
  let failed := failedShadowMismatchLogFields plan in
  (is_Some (mismatchPaths f) <-> is_Some (mismatchPaths failed)) /\
  (is_Some (mismatchPathCount f) <-> is_Some (mismatchPathCount failed)) /\
  (is_Some (diffJson f) <-> is_Some (diffJson failed)) /\
  (is_Some (cachedValueJson f) <-> is_Some (cachedValueJson failed)) /\
  (is_Some (sourceValueJson f) <-> is_Some (sourceValueJson failed)) /\
  (forall outcome, hook = Some outcome -> lp_diff plan <> DiffOff ->
     runShadowMismatchHook app_string outcome = None ->
     mismatchPaths f = Some None /\ mismatchPathCount f = Some None /\ content_failure content = Some hook_error).
Proof.
  unfold renderShadowMismatchLog. intros ([[f df] rf] & Hf & [= <-])%result_bind_ok. cbn zeta. simpl.
  unfold renderDiff in Hf. unfold is_off in *. destruct (bool_decide_reflect (lp_diff plan = DiffOff)) as [Hoff|Hon].
  - injection Hf as <- _ _. rewrite Hoff. simpl. unfold field_if, is_values.
    destruct (lp_value plan); repeat split; try done; by eexists.
  - apply result_bind_ok in Hf as (diff & Hdiff & Hf). unfold is_values in *.
    assert (forall outcome, hook = Some outcome -> runShadowMismatchHook app_string outcome = None -> diff = None) as Hnone.
    { intros outcome ->. by injection Hdiff as <-. }
    destruct diff as [d|].
    + apply result_bind_ok in Hf as (json & Hj & [= <- <- _]). simpl. unfold field_if.
      split; [|split; [|split; [|split; [|split]]]]; try (split; intros _; by eexists).
      * destruct (bool_decide (lp_diff plan = DiffValues)); split; intros [? [=]]; by eexists.
      * destruct (lp_value plan); split; intros [? [=]]; by eexists.
      * destruct (lp_value plan); split; intros [? [=]]; by eexists.
      * intros outcome Ho _ Hr. by specialize (Hnone _ Ho Hr).
    + injection Hf as <- <- _. simpl. unfold field_if.
      split; [|split; [|split; [|split; [|split]]]]; try (split; intros _; by eexists).
      * destruct (bool_decide (lp_diff plan = DiffValues)); split; intros [? [=]]; by eexists.
      * destruct (lp_value plan); split; intros [? [=]]; by eexists.
      * destruct (lp_value plan); split; intros [? [=]]; by eexists.
      * intros outcome -> _ _. done.
Qed.

(** ** Properties *)

(** C25. Every logged content field is bounded, whatever the values, the
    application's [toJSON] methods and the use case's hook produce: at most
    64 pointers of at most 512 bytes, and at most 8 KiB for the rendered
    difference and for each rendered side. *)
Theorem mismatch_log_is_bounded app app_string plan cachedValue sourceValue hook content :
  (forall v t, app v = Ok (Some t) -> Forall code_unit t) ->
  (forall v s, app_string v = Ok s -> Forall code_unit s) ->
  strings_ok cachedValue = true -> strings_ok sourceValue = true ->
  (forall v, hook = Some (Ok v) -> strings_ok v = true) ->
  renderShadowMismatchLog app app_string plan cachedValue sourceValue hook = Ok content ->
  fields_bounded (content_fields content).
Proof. intros Ha Hst. by apply render_bounded. Qed.

Definition sample_plan : ShadowMismatchLogPlan := {| lp_value := true; lp_diff := DiffValues |}.

Lemma mismatch_log_is_bounded_witness :
  exists content,
    renderShadowMismatchLog (fun _ => Err (Raised 0)) (fun _ => Err (Raised 0)) sample_plan
      (JObj [(js "a", JInt 1)]) (JObj [(js "a", JInt 2)]) None = Ok content /\
    fields_bounded (content_fields content) /\
    diffJson (content_fields content) = Some (Some (js "[{" ++ QuoteJSONString (js "path") ++ js ":" ++ QuoteJSONString (js "/a") ++ js ","
      ++ QuoteJSONString (js "cached") ++ js ":1," ++ QuoteJSONString (js "source") ++ js ":2}]")).
Proof.
  eexists. split; [vm_compute; reflexivity|]. split; [|vm_compute; reflexivity].
  apply (mismatch_log_is_bounded (fun _ => Err (Raised 0)) (fun _ => Err (Raised 0)) sample_plan
    (JObj [(js "a", JInt 1)]) (JObj [(js "a", JInt 2)]) None); try discriminate; vm_compute; reflexivity.
Defined.

(** The plan alone decides which content fields a warning has: a rendered
    warning has exactly the fields of the fail-closed one, so pointers never
    bring values along and a failure never adds a field; a failing or
    promise-returning hook nulls the difference, is reported as [hook_error],
    and never falls back to the built-in computation. *)
Theorem mismatch_log_fields_follow_plan app app_string plan cachedValue sourceValue hook content :
  renderShadowMismatchLog app app_string plan cachedValue sourceValue hook = Ok content ->
  let f := content_fields content in
  let failed := failedShadowMismatchLogFields plan in
  (is_Some (mismatchPaths f) <-> is_Some (mismatchPaths failed)) /\
  (is_Some (mismatchPathCount f) <-> is_Some (mismatchPathCount failed)) /\
  (is_Some (diffJson f) <-> is_Some (diffJson failed)) /\
  (is_Some (cachedValueJson f) <-> is_Some (cachedValueJson failed)) /\
  (is_Some (sourceValueJson f) <-> is_Some (sourceValueJson failed)) /\
  (forall outcome, hook = Some outcome -> lp_diff plan <> DiffOff ->
     runShadowMismatchHook app_string outcome = None ->
     mismatchPaths f = Some None /\ mismatchPathCount f = Some None /\ content_failure content = Some hook_error).
Proof. apply render_fields_follow_plan. Qed.

Lemma mismatch_log_fields_follow_plan_witness :
  exists content,
    renderShadowMismatchLog (fun _ => Err (Raised 0)) (fun _ => Err (Raised 0)) {| lp_value := false; lp_diff := DiffPaths |}
      (JObj [(js "a", JInt 1)]) (JObj [(js "a", JInt 2)]) (Some (Ok (JObj [(js "then", JFun)]))) = Ok content /\
    mismatchPaths (content_fields content) = Some None /\ content_failure content = Some hook_error.
Proof.
  eexists. split; [vm_compute; reflexivity|].
  destruct (mismatch_log_fields_follow_plan (fun _ => Err (Raised 0)) (fun _ => Err (Raised 0))
    {| lp_value := false; lp_diff := DiffPaths |} (JObj [(js "a", JInt 1)]) (JObj [(js "a", JInt 2)])
    (Some (Ok (JObj [(js "then", JFun)]))) _ ltac:(vm_compute; reflexivity)) as (_ & _ & _ & _ & _ & H).
  destruct (H (Ok (JObj [(js "then", JFun)])) eq_refl ltac:(discriminate) ltac:(vm_compute; reflexivity)) as (H1 & _ & H2).
  split; [exact H1|exact H2].
Defined.

(** The built-in warning always renders for values with a JSON text: no
    failure is reported, and the logged path count is zero exactly when the
    two values are the same JSON value up to member order. *)
Theorem mismatch_log_renders_exactly app app_string plan c s :
  js_value c = true -> calls_toJSON c = false -> has_no_text c = false ->
  js_value s = true -> calls_toJSON s = false -> has_no_text s = false ->
  lp_diff plan <> DiffOff ->
  exists content n,
    renderShadowMismatchLog app app_string plan c s None = Ok content /\ content_failure content = None /\
    mismatchPathCount (content_fields content) = Some (Some n) /\
    (n = 0%nat <-> json_eqb (json_view c) (json_view s) = true).
Proof.
  intros Hc Hnc Htc Hs Hns Hts Hon. unfold renderShadowMismatchLog, renderDiff.
  unfold is_off. rewrite bool_decide_eq_false_2 by done. rewrite orb_true_r. cbn [negb andb].
  pose proof (renderJson_view app c Hc Hnc) as Hrc. rewrite Htc in Hrc. destruct Hrc as (cj & Ecj & _).
  pose proof (renderJson_view app s Hs Hns) as Hrs. rewrite Hts in Hrs. destruct Hrs as (sj & Esj & _).
  destruct (walkRenderedJson_views app c s cj sj) as (d & Hd & Hj & Hn); [done..|].
  rewrite Ecj, Esj. cbn [bool_decide orb andb]. rewrite !bool_decide_eq_false_2 by done. cbn [orb andb].
  rewrite Hd. cbn [mbind result_bind].
  assert (exists json, (if is_values (lp_diff plan) then renderDiffJson app (diff_entries d) else Ok None) = Ok json /\
    is_values (lp_diff plan) && match json with None => true | Some _ => false end = false) as (json & -> & Hv).
  { destruct (is_values (lp_diff plan)); [|by exists None].
    destruct (renderDiffJson_total app _ Hj) as [t ->]. by exists (Some t). }
  cbn [mbind result_bind]. rewrite Hv. eexists _, (diff_count d). split; [done|]. split; [done|]. split; [done|]. exact Hn.
Qed.

Lemma mismatch_log_renders_exactly_witness :
  exists content n,
    renderShadowMismatchLog (fun _ => Err (Raised 0)) (fun _ => Err (Raised 0)) sample_plan
      (JObj [(js "a", JInt 1); (js "b", JNull)]) (JObj [(js "b", JNull); (js "a", JInt 1)]) None = Ok content /\
    mismatchPathCount (content_fields content) = Some (Some n) /\ n = 0%nat.
Proof.
  destruct (mismatch_log_renders_exactly (fun _ => Err (Raised 0)) (fun _ => Err (Raised 0)) sample_plan
    (JObj [(js "a", JInt 1); (js "b", JNull)]) (JObj [(js "b", JNull); (js "a", JInt 1)]))
    as (content & n & H1 & _ & H2 & H3); try (vm_compute; reflexivity); [discriminate|].
  exists content, n. split; [exact H1|]. split; [exact H2|]. apply H3. vm_compute. reflexivity.
Defined.
