(* ===== verification/Effects.v ===== *)
(** * Effectful programs

    The asynchronous methods of [DialCache] and [RedisCache] are programs
    that exchange events with their environment: clocks, the application's
    callbacks, observers, the Redis client, the serializer, and the shared
    tables of the instance.  A program is a finite tree with one node per
    event; [await] is an ordinary bind and a rejection is an exception.

    The environment may answer every event with any value of the answer type.
    Between two events of one operation, any other operation can run; since
    the answers are unconstrained, a statement about every trace of a program
    covers every interleaving with other operations. *)

From S2P Require Import Prelude JsValue Duration Utf8 Config Key Ramp Metrics RuntimeConfig Frame ShadowLog.

(** ** Requests *)

Record RedisReadRequest := {
  rq_valueKey : jsstr;
  rq_watermarkKey : option jsstr;
  rq_timeoutMs : Z;
}.

Record RedisWriteRequest := {
  wq_valueKey : jsstr;
  wq_cacheTtlMs : Z;
  wq_value : RedisCachePayload;
  wq_createdAtMs : option Z;
}.

Record RedisInvalidationRequest := {
  iq_watermarkKey : jsstr;
  iq_futureBufferMs : Z;
}.

(** What a semantic Redis client may resolve a read with: core treats it as
    unknown.  [CR_Trap] is an object whose properties throw when read. *)
Inductive client_result :=
| CR_Miss (reason observedWatermarkMs : jsval)
| CR_Frame (frame : DecodedRedisFrame)
| CR_NotObject
| CR_Trap.

(** How an operation under [withMonotonicDeadline] settles ([Deadline.v]). *)
Inductive settlement (A : Type) :=
| Settles (r : res A)
| DeadlineExpired.
Arguments Settles {A} r.
Arguments DeadlineExpired {A}.

(** What an injected observer (metrics adapter, logger) does when called. *)
Inductive observer_reply := ObserverReturned | ObserverThrew | ObserverPromise (fulfilled : bool).

(** What a synchronous application predicate does when called. *)
Inductive predicate_reply := PredicateThrew | PredicateBool (b : bool) | PredicateOther.

Inductive log_level := LogDebug | LogWarn | LogError.

(** What a lookup in [processFlights] finds: a flight by its identity, with
    whether its promise is already set. *)
Record process_flight := { pf_id : nat; pf_has_promise : bool }.

(** How a shadow job starts: from the frame that was served, or from a fresh
    Redis read compared with the caller's own source call. *)
Inductive ShadowValidationStart :=
| StartRetained (frame : DecodedRedisFrame)
| StartRedis (remoteConfig : ResolvedRemoteLayerConfig) (startedAtMs : option Q).

Record shadow_job := {
  sj_key : DialCacheKey;
  sj_start : ShadowValidationStart;
  sj_flightStartedAtMs : Q;
  sj_timeoutMs : Z;
  sj_readTimeoutMs : Z;
  sj_logPlan : option ShadowMismatchLogPlan;
}.

(** The context object of a mismatch warning. *)
Record mismatch_warning := {
  mw_cacheNamespace : jsstr;
  mw_useCase : jsstr;
  mw_keyType : jsstr;
  mw_cachedValueAgeSeconds : option Q;
  mw_cacheKey : jsstr;
  mw_fields : ShadowMismatchLogFields;
  mw_loggingOutcome : option ShadowMismatchLogFailure;
}.

(** ** Events and their answers *)

Inductive ev :=
| EIsEnabled                                     (** [this.isEnabled()] *)
| EPerfNow                                       (** [performance.now()] *)
| EDateNow                                       (** [Date.now()] *)
| EMetric (m : metric)
| ELog (l : log_level) (message : string)
| ESelectKey                                     (** the application's key selector *)
| EConfigProvider (key : DialCacheKey)
| ELoadStart                                     (** the loader is started *)
| ELoadAwait                                     (** awaiting it without a deadline *)
| ELoadAwaitDeadline (timeoutMs : Z)             (** awaiting it under a deadline *)
| EStalePredicate (error : exn)                  (** an application recovery predicate *)
| ERequestLocalCache                             (** [getOrCreateRequestLocalCache] *)
| ERequestLocalRead (cache : nat) (urn : jsstr)
| ERequestLocalSet (cache : nat) (urn : jsstr) (value : jsval)
| ERequestFlightGet (cache : nat) (urn : jsstr)
| ERequestFlightSet (cache : nat) (urn : jsstr)  (** [inFlight.set] of the new promise *)
| ERequestFlightClear (cache : nat) (urn : jsstr) (flight : nat)
| ELocalGet (urn : jsstr)                        (** [LRUCache.get] *)
| ELocalSet (urn : jsstr) (value : jsval) (ttlMs : Z)
| EFlightGet (urn : jsstr)                       (** [processFlights.get] *)
| EFlightOpen (urn : jsstr) (startedAtMs : Q)    (** [processFlights.set] of a new flight *)
| EFlightPublish (flight : nat)                  (** [flight.promise = promise] *)
| EFlightJoin (flight : nat)                     (** both follower counters *)
| EFlightClear (urn : jsstr) (flight : nat)
| EAwaitFlight (flight : nat)
| EClientRead (request : RedisReadRequest)       (** under the read deadline *)
| EClientWrite (request : RedisWriteRequest)
| EClientInvalidate (request : RedisInvalidationRequest)
| EDump (serializer : option nat) (value : jsval)
| ELoadPayload (serializer : option nat) (p : RedisCachePayload)
| EShadowHas (urn : jsstr)
| EShadowSize
| EShadowAdd (urn : jsstr)
| EDeferShadow (job : shadow_job)
| EJobAbandoned                                  (** [flight.abandoned] of the running shadow job *)
| EJobAbandon                                    (** [abandoned = true], [cachedFrame = null] *)
| EJobFrame                                      (** [flight.cachedFrame] *)
| EJobSetFrame (frame : DecodedRedisFrame)
| EJobSource                                     (** the job's own source call, caching disabled *)
| EJobSharedSource                               (** the caller's source call, raced with the job's timeout *)
| EJobCallerTimedOut                             (** [plan.didCallerFallbackTimeout()] *)
| EYieldImmediate
| ECompare (cachedValue sourceValue : jsval)     (** the application's comparator *)
| EAwaitFulfills                                 (** [await fulfills(result)] *)
| EJobFinished                                   (** [finishOperation()] *)
| EMismatchHook (cachedValue sourceValue : jsval) (** the use case's difference hook, if it has one *)
| EAppText                                       (** the [toJSON] and [toString] methods of the application *)
| EWarnMismatch (context : mismatch_warning).    (** [logger.warn(SHADOW_MISMATCH_WARNING, context)] *)

Definition ans (e : ev) : Type :=
  match e with
  | EIsEnabled => bool
  | EPerfNow => Q
  | EDateNow => Z
  | EMetric _ | ELog _ _ => observer_reply
  | ESelectKey => res CacheKeySpec
  | EConfigProvider _ => res jsval
  | ELoadStart => unit
  | ELoadAwait => res jsval
  | ELoadAwaitDeadline _ => settlement jsval
  | EStalePredicate _ => predicate_reply
  | ERequestLocalCache => option nat
  | ERequestLocalRead _ _ => option jsval
  | ERequestLocalSet _ _ _ => unit
  | ERequestFlightGet _ _ => option nat
  | ERequestFlightSet _ _ => nat
  | ERequestFlightClear _ _ _ => unit
  | ELocalGet _ => res (option jsval)
  | ELocalSet _ _ _ => res unit
  | EFlightGet _ => option process_flight
  | EFlightOpen _ _ => nat
  | EFlightPublish _ | EFlightJoin _ | EFlightClear _ _ => unit
  | EAwaitFlight _ => res jsval
  | EClientRead _ => settlement client_result
  | EClientWrite _ | EClientInvalidate _ => res unit
  | EDump _ _ => res RedisCachePayload
  | ELoadPayload _ _ => res jsval
  | EShadowHas _ => bool
  | EShadowSize => Z
  | EShadowAdd _ | EDeferShadow _ => unit
  | EJobAbandoned => bool
  | EJobAbandon | EJobSetFrame _ | EYieldImmediate | EAwaitFulfills | EJobFinished => unit
  | EJobFrame => option DecodedRedisFrame
  | EJobSource => res jsval
  | EJobSharedSource => settlement jsval
  | EJobCallerTimedOut => bool
  | ECompare _ _ => predicate_reply
  | EMismatchHook _ _ => option (res jsval)
  | EAppText => (jsval -> res (option jsstr)) * (jsval -> res jsstr)
  | EWarnMismatch _ => observer_reply
  end.

(** An event with the answer it got. *)
Inductive obs := Obs (e : ev) (x : ans e).

(** ** Programs *)

Inductive prog (A : Type) :=
| Ret (a : A)
| Throw (e : exn)
| Vis (e : ev) (k : ans e -> prog A).
Arguments Ret {A} a.
Arguments Throw {A} e.
Arguments Vis {A} e k.

Definition perform (e : ev) : prog (ans e) := Vis e Ret.

#[export] Instance prog_ret : MRet prog := fun A a => Ret a.

#[export] Instance prog_bind : MBind prog :=
  fun A B f =>
    fix go (p : prog A) : prog B :=
      match p with
      | Ret a => f a
      | Throw e => Throw e
      | Vis e k => Vis e (fun x => go (k x))
      end.

(** The outcome of a program as a value; [try]/[catch]/[finally] are built
    from it. *)
Fixpoint attempt {A} (p : prog A) : prog (res A) :=
  match p with
  | Ret a => Ret (Ok a)
  | Throw e => Ret (Err e)
  | Vis e k => Vis e (fun x => attempt (k x))
  end.

Definition of_res {A} (r : res A) : prog A := match r with Ok a => Ret a | Err e => Throw e end.

(** [try { p } catch (error) { h(error) }] *)
Definition try_catch {A} (p : prog A) (h : exn -> prog A) : prog A :=
  r ← attempt p; match r with Ok a => Ret a | Err e => h e end.

(** [try { p } finally { f }] for a finalizer that does not throw *)
Definition try_finally {A} (p : prog A) (f : prog unit) : prog A :=
  r ← attempt p; _ ← f; of_res r.

(** ** Observers *)

(** Whether the observer succeeded: [callObserver].  A throw is swallowed; a
    promise is awaited only by the code that asks for it. *)
Definition callObserver (r : observer_reply) : bool :=
  match r with ObserverReturned => true | ObserverThrew => false | ObserverPromise b => b end.

(** [this.metrics?.method(labels)]; [adapter] is [None] without metrics, and
    otherwise says whether the adapter has [shadowValidation]. *)
Definition emit (adapter : option bool) (m : metric) : prog unit :=
  match adapter with
  | None => Ret tt
  | Some _ => _ ← perform (EMetric m); Ret tt
  end.

(** A metric whose arguments are computed by effects: they are evaluated only
    when there is an adapter. *)
Definition recordMetric (adapter : option bool) (record : prog metric) : prog unit :=
  match adapter with
  | None => Ret tt
  | Some _ => m ← record; _ ← perform (EMetric m); Ret tt
  end.

Definition log (l : log_level) (message : string) : prog unit :=
  _ ← perform (ELog l message); Ret tt.

(** [Math.max((performance.now() - startMs) / 1000, 0)] *)
Definition elapsedSeconds (startMs : Q) : prog Q :=
  now ← perform EPerfNow;
  let d := ((now - startMs) / 1000)%Q in
  Ret (if Qle_bool 0 d then d else 0%Q).

(** [this.metrics?.observe...(labels, elapsedSeconds(start))] *)
Definition observe (adapter : option bool) (startMs : Q) (record : Q -> metric) : prog unit :=
  recordMetric adapter (seconds ← elapsedSeconds startMs; Ret (record seconds)).

(** ** Semantics *)

(** [runs p tr r]: with the answers recorded in [tr], [p] ends with [r]. *)
Fixpoint runs {A} (p : prog A) (tr : list obs) (r : res A) : Prop :=
  match p with
  | Ret a => tr = [] /\ r = Ok a
  | Throw e => tr = [] /\ r = Err e
  | Vis e k => exists x tr', tr = Obs e x :: tr' /\ runs (k x) tr' r
  end.

(** A handler gives every event an answer and a new world. *)
Fixpoint interp {W A} (h : W -> forall e, W * ans e) (p : prog A) (w : W) : W * list obs * res A :=
  match p with
  | Ret a => (w, [], Ok a)
  | Throw e => (w, [], Err e)
  | Vis e k =>
      let '(w', x) := h w e in
      let '(w'', tr, r) := interp h (k x) w' in
      (w'', Obs e x :: tr, r)
  end.

(** The events whose answers or arguments matter beyond observability. *)
Definition data (e : ev) : bool :=
  match e with EPerfNow | EMetric _ | ELog _ _ => false | _ => true end.

Definition obs_event (o : obs) : ev := let 'Obs e _ := o in e.

Definition data_trace (tr : list obs) : list obs := List.filter (fun o => data (obs_event o)) tr.

(** The weakest precondition of a postcondition on the data trace and the
    outcome, over every behaviour of the environment. *)
Fixpoint wp {A} (p : prog A) (Φ : list obs -> res A -> Prop) : Prop :=
  match p with
  | Ret a => Φ [] (Ok a)
  | Throw e => Φ [] (Err e)
  | Vis e k => forall x, wp (k x) (fun d r => Φ (if data e then Obs e x :: d else d) r)
  end.

(** ** Rules *)

Lemma wp_mono {A} (p : prog A) Φ Ψ : wp p Φ -> (forall d r, Φ d r -> Ψ d r) -> wp p Ψ.
Proof. revert Φ Ψ. induction p as [| |e k IH]; simpl; intros Φ Ψ H HΦ; eauto. Qed.

Lemma wp_bind {A B} (p : prog A) (f : A -> prog B) Φ :
  wp p (fun d r => match r with
                   | Ok a => wp (f a) (fun d' r' => Φ (d ++ d') r')
                   | Err e => Φ d (Err e)
                   end) ->
  wp (p ≫= f) Φ.
Proof.
  unfold mbind, prog_bind. revert Φ. induction p as [a|e|e k IH]; simpl; intros Φ H; [done..|].
  intros x. apply IH. eapply wp_mono; [apply H|]. simpl. intros d [a|err] Ha; [|done].
  eapply wp_mono; [exact Ha|]. intros d' r' Hr. by destruct (data e).
Qed.

Lemma wp_attempt {A} (p : prog A) Φ : wp p (fun d r => Φ d (Ok r)) -> wp (attempt p) Φ.
Proof. revert Φ. induction p as [| |e k IH]; simpl; intros Φ H; [done..|]. intros x. by apply IH. Qed.

Lemma wp_try_catch {A} (p : prog A) h Φ :
  wp p (fun d r => match r with
                   | Ok a => Φ d (Ok a)
                   | Err e => wp (h e) (fun d' r' => Φ (d ++ d') r')
                   end) ->
  wp (try_catch p h) Φ.
Proof.
  intros H. apply wp_bind, wp_attempt. eapply wp_mono; [exact H|].
  intros d [a|e] Ha; simpl; [by rewrite app_nil_r|done].
Qed.

Lemma wp_try_finally {A} (p : prog A) f Φ :
  wp p (fun d r => wp f (fun d' r' => r' = Ok tt /\ Φ (d ++ d') r)) -> wp (try_finally p f) Φ.
Proof.
  intros H. apply wp_bind, wp_attempt. eapply wp_mono; [exact H|]. clear H.
  intros d r H. simpl. apply wp_bind. eapply wp_mono; [exact H|]. clear H. intros d' r' [-> H].
  by destruct r; simpl; rewrite app_nil_r.
Qed.

(** Soundness: the precondition speaks about every run. *)
Lemma wp_runs {A} (p : prog A) Φ : wp p Φ <-> forall tr r, runs p tr r -> Φ (data_trace tr) r.
Proof.
  revert Φ. induction p as [a|e|e k IH]; simpl; intros Φ.
  - split; [by intros H tr r [-> ->]|]. intros H. by apply (H [] (Ok a)).
  - split; [by intros H tr r [-> ->]|]. intros H. by apply (H [] (Err e)).
  - split.
    + intros H tr r (x & tr' & -> & Hr). specialize (H x). rewrite IH in H. specialize (H _ _ Hr).
      simpl. by destruct (data e).
    + intros H x. apply IH. intros tr r Hr. specialize (H (Obs e x :: tr) r). simpl in H.
      destruct (data e); apply H; eauto.
Qed.

(** Progress: under any handler a program ends with an outcome, and the trace
    it leaves is one of its runs. *)
Lemma interp_runs {W A} (h : W -> forall e, W * ans e) (p : prog A) w :
  runs p (interp h p w).1.2 (interp h p w).2.
Proof.
  revert w. induction p as [a|e|e k IH]; simpl; intros w; [done..|].
  destruct (h w e) as [w' x]. specialize (IH x w').
  destruct (interp h (k x) w') as [[w'' tr] r]. simpl in *. eauto.
Qed.

Lemma emit_wp adapter m Φ : Φ [] (Ok tt) -> wp (emit adapter m) Φ.
Proof. intros H. by destruct adapter; simpl. Qed.

Lemma observe_wp adapter t f Φ : Φ [] (Ok tt) -> wp (observe adapter t f) Φ.
Proof. intros H. by destruct adapter; simpl. Qed.

Lemma log_wp l m Φ : Φ [] (Ok tt) -> wp (log l m) Φ.
Proof. by simpl. Qed.

Lemma elapsedSeconds_wp t Φ : (forall q, Φ [] (Ok q)) -> wp (elapsedSeconds t) Φ.
Proof. by simpl. Qed.

Lemma wp_ret {A} (a : A) Φ : Φ [] (Ok a) -> wp (Ret a) Φ.
Proof. done. Qed.

Lemma wp_throw {A} e (Φ : list obs -> res A -> Prop) : Φ [] (Err e) -> wp (Throw e) Φ.
Proof. done. Qed.

Lemma wp_of_res {A} (m : res A) Φ : Φ [] m -> wp (of_res m) Φ.
Proof. by destruct m. Qed.

Lemma wp_perform e Φ : (forall x, Φ (if data e then [Obs e x] else []) (Ok x)) -> wp (perform e) Φ.
Proof. done. Qed.

(** Helpers that are transparent to the walk below. *)
Create HintDb effects.

(** Walks through a program: one application decomposes the outermost
    construct of the goal, unfolding the helpers registered in [effects]. *)
Ltac wp_step :=
  lazymatch goal with
  | |- wp (mbind _ _) _ => apply wp_bind
  | |- wp (try_catch _ _) _ => apply wp_try_catch
  | |- wp (try_finally _ _) _ => apply wp_try_finally
  | |- wp (attempt _) _ => apply wp_attempt
  | |- wp (emit _ _) _ => apply emit_wp
  | |- wp (observe _ _ _) _ => apply observe_wp
  | |- wp (log _ _) _ => apply log_wp
  | |- wp (elapsedSeconds _) _ => apply elapsedSeconds_wp; intros ?
  | |- wp (perform _) _ => apply wp_perform; intros ?
  | |- wp (of_res _) _ => apply wp_of_res
  | |- wp (Ret _) _ => apply wp_ret
  | |- wp (Throw _) _ => apply wp_throw
  | |- wp _ _ => progress autounfold with effects
  end; cbn beta iota delta [app data negb].

Ltac wp_steps := cbn beta iota delta [app data negb]; repeat wp_step.
