(* ===== verification/RedisCache.v ===== *)
(** * The Redis layer

    [internal/redis-cache.ts] and [internal/cache-result.ts]: the bounded
    read with its age classification, recovery of a retained candidate, the
    fenced write, invalidation, and the reads and writes of shadow work.

    Each operation comes with an abstract description of what it may do to
    its environment (a relation between the data events and the outcome) and
    a lemma that the operation refines it. *)

From S2P Require Import Prelude JsValue Duration Utf8 Config Key Ramp Metrics RuntimeConfig Frame Compression Effects.

(** ** Results *)

Inductive CacheGetResult :=
| CG_Hit (value : jsval)
| CG_Miss (config : ResolvedLayerConfig)
| CG_Disabled (reason : DisabledReason) (skipCacheWrite : bool).

Inductive RedisCacheMissReason := cache_miss | deserialization_error.

#[export] Instance RedisCacheMissReason_eq_dec : EqDecision RedisCacheMissReason.
Proof. solve_decision. Defined.

Inductive RedisCacheGetResult :=
| RG_Hit (value : jsval) (frame : DecodedRedisFrame)
| RG_Retained (frame : DecodedRedisFrame) (config : ResolvedRemoteLayerConfig)
| RG_Miss (config : ResolvedRemoteLayerConfig) (reason : RedisCacheMissReason)
    (observedWatermarkMs : option Z).

Inductive RemoteCacheGetResult :=
| RR_Redis (r : RedisCacheGetResult)
| RR_Disabled (reason : DisabledReason) (skipCacheWrite : bool)
| RR_Error.

Inductive FutureFramePolicy := RejectFuture | RetainFuture.

Inductive FrameAgeResult := AgeValid (ageMs : Z) | AgeFuture | AgeInvalid.

(** [rd_serializer = None] is the default [JsonSerializer]. *)
Record RedisCache := {
  rd_metrics : option bool;
  rd_serializer : option nat;
  rd_compression : option CompressionConfig;
  rd_readTimeoutMs : Z;
}.

Definition retentionTtlSecFor (config : ResolvedRemoteLayerConfig) : Z :=
  default (rc_ttlSec config) (rc_staleOnErrorMaxAgeSec config).

(** ** Private helpers *)

Section redis.
  Context `{Zstd} (this : RedisCache).

Definition recordError (key : DialCacheKey) (layer : MetricLayer) (kind : MetricErrorKind) : prog unit :=
  emit (rd_metrics this) (m_error (labelsFor key layer) kind false).

Definition recordMiss (key : DialCacheKey) (layer : MetricLayer) (reason : CacheMissReason) : prog unit :=
  emit (rd_metrics this) (m_miss (labelsFor key layer) reason).

Definition recordStaleRecovery (key : DialCacheKey) (outcome : StaleRecoveryOutcome)
    (valueAgeSeconds : option Q) : prog unit :=
  _ ← emit (rd_metrics this) (m_staleRecovery (namespace key) (useCase key) (keyType key) outcome);
  match valueAgeSeconds with
  | None => Ret tt
  | Some seconds =>
      emit (rd_metrics this)
        (m_observeStaleRecoveryValueAge (namespace key) (useCase key) (keyType key) outcome seconds)
  end.

Definition serializerFor (key : DialCacheKey) : option nat :=
  match serializer key with Some s => Some s | None => rd_serializer this end.

Definition sampleWriteTimestamp (key : DialCacheKey) (layer : MetricLayer) : prog Z :=
  createdAtMs ← perform EDateNow;
  match assertValidRedisTimestampMs createdAtMs with
  | Ok _ => Ret createdAtMs
  | Err error => _ ← recordError key layer ek_cache_write; Throw error
  end.

(** The trust boundary for adapter results. *)
Definition validateReadResult (key : DialCacheKey) (result : client_result) : RedisReadResult :=
  match result with
  | CR_Miss claimedReason claimedWatermark =>
      let reason := default mr_unclassified (isCacheMissReason claimedReason) in
      let observed := if trackForInvalidation key then isValidRedisTimestampMs claimedWatermark else None in
      redisReadMiss
        (if bool_decide (reason = mr_watermark_fenced) && is_none observed then mr_unclassified else reason)
        observed
  | CR_Frame frame => RedisFrame frame
  | CR_NotObject | CR_Trap => redisReadMiss mr_unclassified None
  end.

Definition frameAge (key : DialCacheKey) (frame : DecodedRedisFrame) (layer : MetricLayer) : prog FrameAgeResult :=
  match isValidRedisTimestampMs (JNum (createdAtMs frame)) with
  | None => Ret AgeInvalid
  | Some createdAt =>
      readerNowMs ← perform EDateNow;
      if readerNowMs <? createdAt then
        _ ← emit (rd_metrics this)
              (m_observeFutureTimestampOffset (labelsFor key layer) (inject_Z (createdAt - readerNowMs) / 1000));
        Ret AgeFuture
      else Ret (AgeValid (readerNowMs - createdAt))
  end.

Definition read_outcome_metric (o : CompressionReadOutcome) : option CompressionOutcome :=
  match o with
  | cr_passthrough => None
  | cr_decompressed => Some co_decompressed
  | cr_fallback_raw => Some co_fallback_raw
  | cr_read_over_limit => Some co_read_over_limit
  end.

Definition deserializePayload (key : DialCacheKey) (p : RedisCachePayload) (layer : MetricLayer) : prog jsval :=
  decompressStart ← perform EPerfNow;
  let '(decompressed, outcome) := decompressPayload p MAX_DECOMPRESSED_BYTES in
  _ ← match read_outcome_metric outcome with
      | None => Ret tt
      | Some o =>
          _ ← emit (rd_metrics this) (m_compression (labelsFor key layer) o);
          observe (rd_metrics this) decompressStart (m_observeCompression (labelsFor key layer) false)
      end;
  start ← perform EPerfNow;
  try_finally
    (try_catch
       (r ← perform (ELoadPayload (serializerFor key) decompressed); of_res r)
       (fun error => _ ← recordError key layer ek_serialization_load; Throw error))
    (observe (rd_metrics this) start (m_observeSerialization (labelsFor key layer) false)).

(** ** Reads *)

(** The client call under the read deadline, through the trust boundary.  A
    request that cannot be built rejects like the call itself. *)
Definition startRawPayloadRead (key : DialCacheKey) (readTimeoutMs : Z) : prog RedisReadResult :=
  watermarkKey ← (if trackForInvalidation key
                  then w ← of_res (redisWatermarkKeyFromKey key); Ret (Some w)
                  else Ret None);
  s ← perform (EClientRead {| rq_valueKey := redisKey key; rq_watermarkKey := watermarkKey;
                              rq_timeoutMs := readTimeoutMs |});
  match s with
  | DeadlineExpired => Throw (RedisReadTimeoutError (useCase key) readTimeoutMs)
  | Settles (Err error) => Throw error
  | Settles (Ok result) => Ret (validateReadResult key result)
  end.

Definition read_error_kind (error : exn) : MetricErrorKind :=
  match error with RedisReadTimeoutError _ _ => ek_cache_read_timeout | _ => ek_cache_read end.

Definition getWithResolvedConfig (key : DialCacheKey) (layerConfig : ResolvedRemoteLayerConfig)
    (readTimeoutMs : Z) : prog RedisCacheGetResult :=
  freshAgeMs ← of_res (cacheTtlSecToMs (rc_ttlSec layerConfig));
  maximumAgeMs ← of_res (cacheTtlSecToMs (default (rc_ttlSec layerConfig) (rc_staleOnErrorMaxAgeSec layerConfig)));
  let metricLayer := Layer REMOTE in
  start ← perform EPerfNow;
  _ ← emit (rd_metrics this) (m_request (labelsFor key metricLayer));
  try_finally
    (result ← try_catch (startRawPayloadRead key readTimeoutMs)
                (fun error => _ ← recordError key metricLayer (read_error_kind error); Throw error);
     match result with
     | RedisReadMiss reason observedWatermarkMs =>
         _ ← recordMiss key metricLayer reason;
         Ret (RG_Miss layerConfig cache_miss observedWatermarkMs)
     | RedisFrame frame =>
         age ← frameAge key frame metricLayer;
         match age with
         | AgeFuture | AgeInvalid =>
             _ ← recordMiss key metricLayer mr_unclassified;
             Ret (RG_Miss layerConfig cache_miss None)
         | AgeValid ageMs =>
             if maximumAgeMs <=? ageMs then
               _ ← recordMiss key metricLayer mr_expired;
               Ret (RG_Miss layerConfig cache_miss None)
             else if freshAgeMs <=? ageMs then
               _ ← recordMiss key metricLayer mr_expired;
               Ret (RG_Retained frame layerConfig)
             else
               try_catch
                 (value ← deserializePayload key (payload frame) metricLayer; Ret (RG_Hit value frame))
                 (fun _ => _ ← recordMiss key metricLayer mr_unclassified;
                           Ret (RG_Miss layerConfig deserialization_error None))
         end
     end)
    (observe (rd_metrics this) start (m_observeGet (labelsFor key metricLayer))).

(** The recovered value, or [None] for a miss. *)
Definition recoverRetainedCandidate (key : DialCacheKey) (frame : option DecodedRedisFrame) (maxAgeSec : Z) :
    prog (option jsval) :=
  match frame with
  | None => _ ← recordStaleRecovery key sr_miss None; Ret None
  | Some frame =>
      maximumAgeMs ← of_res (cacheTtlSecToMs maxAgeSec);
      initialAge ← frameAge key frame (Layer REMOTE);
      match initialAge with
      | AgeValid age0 =>
          if maximumAgeMs <=? age0 then _ ← recordStaleRecovery key sr_miss None; Ret None
          else
            loaded ← attempt (deserializePayload key (payload frame) (Layer REMOTE));
            match loaded with
            | Err _ => _ ← recordStaleRecovery key sr_deserialization_error None; Ret None
            | Ok value =>
                servingAge ← frameAge key frame (Layer REMOTE);
                match servingAge with
                | AgeValid age1 =>
                    if maximumAgeMs <=? age1 then _ ← recordStaleRecovery key sr_miss None; Ret None
                    else _ ← recordStaleRecovery key sr_served (Some (inject_Z age1 / 1000)%Q); Ret (Some value)
                | _ => _ ← recordStaleRecovery key sr_miss None; Ret None
                end
            end
      | _ => _ ← recordStaleRecovery key sr_miss None; Ret None
      end
  end.

(** ** Shadow reads *)

Definition validateFrameAge (key : DialCacheKey) (result : RedisReadResult) (maxAgeMs : option Z)
    (layer : MetricLayer) (futureFramePolicy : FutureFramePolicy) : prog RedisReadResult :=
  match result with
  | RedisReadMiss _ _ => Ret result
  | RedisFrame frame =>
      age ← frameAge key frame layer;
      match age with
      | AgeFuture =>
          Ret match futureFramePolicy with
              | RejectFuture => redisReadMiss mr_unclassified None
              | RetainFuture => result
              end
      | AgeInvalid => Ret (redisReadMiss mr_unclassified None)
      | AgeValid ageMs =>
          Ret match maxAgeMs with
              | None => result
              | Some m => if ageMs <? m then result else redisReadMiss mr_expired None
              end
      end
  end.

(** The [result] side of [startPayloadRead]; [settled] is the client's own
    promise. *)
Definition startPayloadRead (key : DialCacheKey) (maxAgeMs : option Z) (readTimeoutMs : Z)
    (layer : MetricLayer) (futureFramePolicy : FutureFramePolicy) : prog RedisReadResult :=
  frame ← startRawPayloadRead key readTimeoutMs;
  validateFrameAge key frame maxAgeMs layer futureFramePolicy.

Definition startMeasuredPayloadRead (key : DialCacheKey) (maxAgeMs : option Z) (readTimeoutMs : Z)
    (layer : MetricLayer) (futureFramePolicy : FutureFramePolicy) : prog RedisReadResult :=
  start ← perform EPerfNow;
  _ ← emit (rd_metrics this) (m_request (labelsFor key layer));
  try_finally
    (outcome ← attempt (startPayloadRead key maxAgeMs readTimeoutMs layer futureFramePolicy);
     match outcome with
     | Ok ((RedisReadMiss reason _) as result) => _ ← recordMiss key layer reason; Ret result
     | Ok result => Ret result
     | Err error => _ ← recordError key layer (read_error_kind error); Throw error
     end)
    (observe (rd_metrics this) start (m_observeGet (labelsFor key layer))).

Definition startPayloadReadForShadow (key : DialCacheKey) (maxAgeSec : option Z) (readTimeoutMs : Z)
    (futureFramePolicy : FutureFramePolicy) : prog RedisReadResult :=
  maxAgeMs ← match maxAgeSec with
             | None => Ret None
             | Some sec => ms ← of_res (cacheTtlSecToMs sec); Ret (Some ms)
             end;
  startMeasuredPayloadRead key maxAgeMs readTimeoutMs RemoteShadowLayer futureFramePolicy.

Definition deserializeForShadow (key : DialCacheKey) (p : RedisCachePayload) : prog jsval :=
  deserializePayload key p RemoteShadowLayer.

(** ** Writes *)

(** The payload to store, with the size and compression observations. *)
Definition encodeForStorage (key : DialCacheKey) (layer : MetricLayer) (serialized : RedisCachePayload) :
    prog RedisCachePayload :=
  match rd_compression this with
  | None => Ret (escapeRawPayload serialized)
  | Some config =>
      compressStart ← perform EPerfNow;
      match compressPayload serialized config MAX_DECOMPRESSED_BYTES with
      | Err error => _ ← recordError key layer ek_compression; Throw error
      | Ok c =>
          _ ← emit (rd_metrics this) (m_compression (labelsFor key layer) (cp_outcome c));
          _ ← match cp_outcome c with
              | co_compressed | co_not_smaller =>
                  observe (rd_metrics this) compressStart (m_observeCompression (labelsFor key layer) true)
              | _ => Ret tt
              end;
          _ ← match cp_outcome c with
              | co_compressed =>
                  emit (rd_metrics this)
                    (m_observeCompressionRatio (labelsFor key layer)
                       (inject_Z (storedBytes c) / inject_Z (originalBytes c)))
              | _ => Ret tt
              end;
          Ret (cp_payload c)
      end
  end.

Definition putWithLayer (key : DialCacheKey) (value : jsval) (ttlSec : Z) (layer : MetricLayer)
    (shouldWrite : option (prog bool)) (fenceMs : option Z) : prog bool :=
  configuredTtlMs ← of_res (cacheTtlSecToMs ttlSec);
  let cacheTtlMs := if trackForInvalidation key then Z.min configuredTtlMs MAX_TRACKED_REDIS_VALUE_TTL_MS
                    else configuredTtlMs in
  let observedWatermarkMs := if trackForInvalidation key then fenceMs else None in
  early ← match observedWatermarkMs with
          | None => Ret false
          | Some w => t ← sampleWriteTimestamp key layer; Ret (t <=? w)
          end;
  if (early : bool) then Ret false
  else
    start ← perform EPerfNow;
    serialized ← try_finally
      (try_catch (r ← perform (EDump (serializerFor key) value); of_res r)
         (fun error => _ ← recordError key layer ek_serialization_dump; Throw error))
      (observe (rd_metrics this) start (m_observeSerialization (labelsFor key layer) true));
    _ ← emit (rd_metrics this) (m_observeSize (labelsFor key layer) (payloadSize serialized));
    stored ← encodeForStorage key layer serialized;
    _ ← emit (rd_metrics this) (m_observeStoredSize (labelsFor key layer) (payloadSize stored));
    admitted ← match shouldWrite with None => Ret true | Some check => check end;
    if negb admitted then Ret false
    else
      stamp ← match observedWatermarkMs with
              | None => Ret (Some None)
              | Some w =>
                  createdAtMs ← sampleWriteTimestamp key layer;
                  Ret (if createdAtMs <=? w then None else Some (Some createdAtMs))
              end;
      match stamp with
      | None => Ret false
      | Some createdAt =>
          _ ← (if cacheTtlMs <? configuredTtlMs then recordError key layer ek_tracked_ttl_clamped else Ret tt);
          _ ← try_catch
                (r ← perform (EClientWrite {| wq_valueKey := redisKey key; wq_cacheTtlMs := cacheTtlMs;
                                              wq_value := stored; wq_createdAtMs := createdAt |});
                 of_res r)
                (fun error => _ ← recordError key layer ek_cache_write; Throw error);
          Ret true
      end.

Definition put (key : DialCacheKey) (value : jsval) (config : ResolvedRemoteLayerConfig)
    (observedWatermarkMs : option Z) : prog unit :=
  _ ← putWithLayer key value (retentionTtlSecFor config) (Layer REMOTE) None observedWatermarkMs; Ret tt.

Definition putForShadow (key : DialCacheKey) (value : jsval) (config : ResolvedRemoteLayerConfig)
    (shouldWrite : prog bool) (observedWatermarkMs : option Z) : prog bool :=
  putWithLayer key value (retentionTtlSecFor config) RemoteShadowLayer (Some shouldWrite) observedWatermarkMs.

Definition invalidate (kt id : jsstr) (futureBufferMs : Z) (ns : jsstr) : prog unit :=
  watermarkKey ← of_res (redisWatermarkKey ns kt id);
  r ← perform (EClientInvalidate {| iq_watermarkKey := watermarkKey; iq_futureBufferMs := futureBufferMs |});
  of_res r.

End redis.

#[export] Hint Unfold recordError recordMiss recordStaleRecovery : effects.

(** ** Abstract description of the operations *)

(** The read request of a key; only a tracked key has a watermark. *)
Definition read_request (key : DialCacheKey) (readTimeoutMs : Z) : res RedisReadRequest :=
  let rq w := {| rq_valueKey := redisKey key; rq_watermarkKey := w; rq_timeoutMs := readTimeoutMs |} in
  if trackForInvalidation key then w ← redisWatermarkKeyFromKey key; Ok (rq (Some w)) else Ok (rq None).

Definition stamp_of (f : DecodedRedisFrame) : option Z := isValidRedisTimestampMs (JNum (createdAtMs f)).

(** A remote policy that resolution can produce. *)
Definition remote_config_ok (lc : ResolvedRemoteLayerConfig) : Prop :=
  0 < rc_ttlSec lc <= MAX_CACHE_TTL_SEC /\
  forall m, rc_staleOnErrorMaxAgeSec lc = Some m -> rc_ttlSec lc < m <= MAX_CACHE_TTL_SEC.

Section spec.
  Context `{Zstd} (this : RedisCache).

(** The event of loading the payload of a frame. *)
Definition load_event (key : DialCacheKey) (f : DecodedRedisFrame) : ev :=
  ELoadPayload (serializerFor this key) (decompressPayload (payload f) MAX_DECOMPRESSED_BYTES).1.

(** A serving read: at most one client read, one clock sample and one load,
    in this order; which of them happen and what the outcome is. *)
Inductive remote_read (key : DialCacheKey) (lc : ResolvedRemoteLayerConfig) (t : Z) :
    list obs -> res RedisCacheGetResult -> Prop :=
| rr_unbuilt e : read_request key t = Err e -> remote_read key lc t [] (Err e)
| rr_rejected rq e :
    read_request key t = Ok rq ->
    remote_read key lc t [Obs (EClientRead rq) (Settles (Err e))] (Err e)
| rr_timeout rq :
    read_request key t = Ok rq ->
    remote_read key lc t [Obs (EClientRead rq) DeadlineExpired] (Err (RedisReadTimeoutError (useCase key) t))
| rr_miss rq c reason w :
    read_request key t = Ok rq -> validateReadResult key c = RedisReadMiss reason w ->
    remote_read key lc t [Obs (EClientRead rq) (Settles (Ok c))] (Ok (RG_Miss lc cache_miss w))
| rr_invalid rq f :
    read_request key t = Ok rq -> stamp_of f = None ->
    remote_read key lc t [Obs (EClientRead rq) (Settles (Ok (CR_Frame f)))] (Ok (RG_Miss lc cache_miss None))
| rr_unusable rq f now c :
    read_request key t = Ok rq -> stamp_of f = Some c ->
    now < c \/ retentionTtlSecFor lc * 1000 <= now - c ->
    remote_read key lc t [Obs (EClientRead rq) (Settles (Ok (CR_Frame f))); Obs EDateNow now]
      (Ok (RG_Miss lc cache_miss None))
| rr_retained rq f now c :
    read_request key t = Ok rq -> stamp_of f = Some c ->
    rc_ttlSec lc * 1000 <= now - c < retentionTtlSecFor lc * 1000 ->
    remote_read key lc t [Obs (EClientRead rq) (Settles (Ok (CR_Frame f))); Obs EDateNow now]
      (Ok (RG_Retained f lc))
| rr_hit rq f now c (r : res jsval) :
    read_request key t = Ok rq -> stamp_of f = Some c ->
    0 <= now - c < rc_ttlSec lc * 1000 ->
    remote_read key lc t
      [Obs (EClientRead rq) (Settles (Ok (CR_Frame f))); Obs EDateNow now; Obs (load_event key f) r]
      (Ok match r with Ok v => RG_Hit v f | Err _ => RG_Miss lc deserialization_error None end).

(** Recovery: no client event at all; a value is served only if the frame is
    below the ceiling both before and after it was loaded. *)
Inductive recovery (key : DialCacheKey) (maxAgeMs : Z) : option DecodedRedisFrame -> list obs -> option jsval -> Prop :=
| rec_none : recovery key maxAgeMs None [] None
| rec_invalid f : stamp_of f = None -> recovery key maxAgeMs (Some f) [] None
| rec_old f c now :
    stamp_of f = Some c -> now < c \/ maxAgeMs <= now - c ->
    recovery key maxAgeMs (Some f) [Obs EDateNow now] None
| rec_load_error f c now e :
    stamp_of f = Some c -> 0 <= now - c < maxAgeMs ->
    recovery key maxAgeMs (Some f) [Obs EDateNow now; Obs (load_event key f) (Err e)] None
| rec_loaded_old f c now v now' :
    stamp_of f = Some c -> 0 <= now - c < maxAgeMs -> now' < c \/ maxAgeMs <= now' - c ->
    recovery key maxAgeMs (Some f)
      [Obs EDateNow now; Obs (load_event key f) (Ok v); Obs EDateNow now'] None
| rec_served f c now v now' :
    stamp_of f = Some c -> 0 <= now - c < maxAgeMs -> 0 <= now' - c < maxAgeMs ->
    recovery key maxAgeMs (Some f)
      [Obs EDateNow now; Obs (load_event key f) (Ok v); Obs EDateNow now'] (Some v).

(** The fence a write respects: none for an untracked key. *)
Definition write_fence (key : DialCacheKey) (fenceMs : option Z) : option Z :=
  if trackForInvalidation key then fenceMs else None.

Definition physical_ttl (key : DialCacheKey) (ttlMs : Z) : Z :=
  if trackForInvalidation key then Z.min ttlMs MAX_TRACKED_REDIS_VALUE_TTL_MS else ttlMs.

(** How long a source value is kept in Redis under a resolved remote policy:
    for the stale ceiling if recovery is on and for the TTL otherwise, and for
    a tracked key at most the hour its watermark outlives. *)
Definition refill_lifetime_ms (key : DialCacheKey) (lc : ResolvedRemoteLayerConfig) : Z :=
  let sec := match rc_staleOnErrorMaxAgeSec lc with Some m => m | None => rc_ttlSec lc end in
  if trackForInvalidation key then Z.min (sec * 1000) MAX_TRACKED_REDIS_VALUE_TTL_MS else sec * 1000.

Lemma refill_lifetime key lc : physical_ttl key (retentionTtlSecFor lc * 1000) = refill_lifetime_ms key lc.
Proof.
  unfold refill_lifetime_ms, physical_ttl, retentionTtlSecFor, default. by destruct (rc_staleOnErrorMaxAgeSec lc).
Qed.

(** One clock sample that clears the fence, with the stamp it yields. *)
Inductive cleared : option Z -> list obs -> option Z -> Prop :=
| cleared_none : cleared None [] None
| cleared_sample w now :
    assertValidRedisTimestampMs now = Ok tt -> w < now -> cleared (Some w) [Obs EDateNow now] (Some now).

(** One clock sample that does not. *)
Inductive stopped : option Z -> list obs -> res bool -> Prop :=
| stopped_fenced w now :
    assertValidRedisTimestampMs now = Ok tt -> now <= w -> stopped (Some w) [Obs EDateNow now] (Ok false)
| stopped_clock w now e :
    assertValidRedisTimestampMs now = Err e -> stopped (Some w) [Obs EDateNow now] (Err e).

(** A write: the fence is checked before serialization and again just before
    dispatch; the frame stamp is the second sample.  [check] describes the
    behaviour of [shouldWrite]. *)
Inductive remote_put (key : DialCacheKey) (value : jsval) (ttlMs : Z) (fence : option Z)
    (check : list obs -> res bool -> Prop) : list obs -> res bool -> Prop :=
| rp_stopped d r : stopped fence d r -> remote_put key value ttlMs fence check d r
| rp_dump_failed pre t e :
    cleared fence pre t ->
    remote_put key value ttlMs fence check (pre ++ [Obs (EDump (serializerFor this key) value) (Err e)]) (Err e)
| rp_encode_failed pre t p e :
    cleared fence pre t -> stored_payload (rd_compression this) p = Err e ->
    remote_put key value ttlMs fence check (pre ++ [Obs (EDump (serializerFor this key) value) (Ok p)]) (Err e)
| rp_not_admitted pre t p stored chk r :
    cleared fence pre t -> stored_payload (rd_compression this) p = Ok stored ->
    check chk r -> r <> Ok true ->
    remote_put key value ttlMs fence check (pre ++ Obs (EDump (serializerFor this key) value) (Ok p) :: chk) r
| rp_stopped_late pre t p stored chk d r :
    cleared fence pre t -> stored_payload (rd_compression this) p = Ok stored ->
    check chk (Ok true) -> stopped fence d r ->
    remote_put key value ttlMs fence check (pre ++ Obs (EDump (serializerFor this key) value) (Ok p) :: chk ++ d) r
| rp_written pre t p stored chk post stamp (r : res unit) :
    cleared fence pre t -> stored_payload (rd_compression this) p = Ok stored ->
    check chk (Ok true) -> cleared fence post stamp ->
    remote_put key value ttlMs fence check
      (pre ++ Obs (EDump (serializerFor this key) value) (Ok p) :: chk ++ post ++
         [Obs (EClientWrite {| wq_valueKey := redisKey key; wq_cacheTtlMs := physical_ttl key ttlMs;
                               wq_value := stored; wq_createdAtMs := stamp |}) r])
      match r with Ok _ => Ok true | Err e => Err e end.

(** ** Refinement *)

Lemma startRawPayloadRead_wp key t Φ :
  (forall e, read_request key t = Err e -> Φ [] (Err e)) ->
  (forall rq s, read_request key t = Ok rq ->
     Φ [Obs (EClientRead rq) s]
       match s with
       | DeadlineExpired => Err (RedisReadTimeoutError (useCase key) t)
       | Settles (Err e) => Err e
       | Settles (Ok c) => Ok (validateReadResult key c)
       end) ->
  wp (startRawPayloadRead key t) Φ.
Proof.
  unfold startRawPayloadRead, read_request. intros H1 H2.
  destruct (trackForInvalidation key); wp_steps.
  - destruct (redisWatermarkKeyFromKey key) as [w|e]; wp_steps; [|by apply H1].
    specialize (H2 _ x eq_refl). destruct x as [[|]|]; wp_steps; exact H2.
  - specialize (H2 _ x eq_refl). destruct x as [[|]|]; wp_steps; exact H2.
Qed.

(** How a frame is classified against one clock sample. *)
Definition age_result (now c : Z) : FrameAgeResult := if now <? c then AgeFuture else AgeValid (now - c).

Lemma frameAge_wp key f layer Φ :
  match stamp_of f with
  | None => Φ [] (Ok AgeInvalid)
  | Some c => forall now, Φ [Obs EDateNow now] (Ok (age_result now c))
  end ->
  wp (frameAge this key f layer) Φ.
Proof.
  unfold frameAge, stamp_of, age_result. destruct (isValidRedisTimestampMs _) as [c|]; intros H0; wp_steps; [|done].
  specialize (H0 x). destruct (x <? c); wp_steps; done.
Qed.

Lemma deserializePayload_wp key f layer Φ :
  (forall r, Φ [Obs (load_event key f) r] r) -> wp (deserializePayload this key (payload f) layer) Φ.
Proof.
  unfold deserializePayload, load_event. intros HΦ. wp_steps.
  destruct (decompressPayload (payload f) MAX_DECOMPRESSED_BYTES) as [p o]; cbn [fst] in HΦ.
  wp_steps. destruct o; cbn [read_outcome_metric]; wp_steps;
    match goal with |- context [match ?r with Ok _ => _ | Err _ => _ end] => destruct r end;
    wp_steps; (split; [done|]); apply HΦ.
Qed.

Lemma retention_range lc : remote_config_ok lc -> 0 < retentionTtlSecFor lc <= MAX_CACHE_TTL_SEC.
Proof.
  unfold retentionTtlSecFor. intros [Ht Hm]. destruct (rc_staleOnErrorMaxAgeSec lc) as [m|]; simpl; [|done].
  specialize (Hm m eq_refl). lia.
Qed.

Lemma retention_ms lc :
  remote_config_ok lc -> cacheTtlSecToMs (rc_ttlSec lc) = Ok (rc_ttlSec lc * 1000) /\
  cacheTtlSecToMs (retentionTtlSecFor lc) = Ok (retentionTtlSecFor lc * 1000) /\
  rc_ttlSec lc <= retentionTtlSecFor lc.
Proof.
  unfold retentionTtlSecFor. intros [Ht Hm]. destruct (rc_staleOnErrorMaxAgeSec lc) as [m|]; simpl.
  - specialize (Hm m eq_refl). rewrite !cacheTtlSecToMs_ok by lia. repeat split; lia.
  - rewrite !cacheTtlSecToMs_ok by lia. repeat split; lia.
Qed.

Lemma get_refines key lc t :
  remote_config_ok lc -> wp (getWithResolvedConfig this key lc t) (remote_read key lc t).
Proof.
  intros (E1 & E2 & Hle)%retention_ms. unfold getWithResolvedConfig. fold (retentionTtlSecFor lc).
  rewrite E1, E2. wp_steps. apply startRawPayloadRead_wp; [by intros e He; wp_steps; split; [done|constructor]|].
  intros rq [[c|e]|] Hrq; cbn beta iota; [|by wp_steps; split; [done|econstructor]..].
  destruct (validateReadResult key c) as [reason w|f] eqn:Ec; cbn beta iota.
  { wp_steps. split; [done|]. by econstructor. }
  assert (c = CR_Frame f) as -> by (destruct c; unfold validateReadResult, redisReadMiss in Ec; congruence).
  wp_steps. apply frameAge_wp. destruct (stamp_of f) as [s|] eqn:Es; [|wp_steps; split; [done|by econstructor]].
  intros now. unfold age_result. destruct (Z.ltb_spec now s); cbn beta iota.
  { wp_steps. split; [done|]. eapply rr_unusable; eauto. }
  destruct (Z.leb_spec (retentionTtlSecFor lc * 1000) (now - s)).
  { wp_steps. split; [done|]. eapply rr_unusable; eauto. }
  destruct (Z.leb_spec (rc_ttlSec lc * 1000) (now - s)).
  { wp_steps. split; [done|]. by eapply rr_retained. }
  wp_steps. apply deserializePayload_wp. intros r.
  pose proof (rr_hit key lc t rq f now s r Hrq Es ltac:(lia)) as Hhit.
  destruct r; wp_steps; split; done.
Qed.

Lemma recover_refines key frame maxAgeSec :
  0 < maxAgeSec <= MAX_CACHE_TTL_SEC ->
  wp (recoverRetainedCandidate this key frame maxAgeSec)
     (fun d r => exists o, r = Ok o /\ recovery key (maxAgeSec * 1000) frame d o).
Proof.
  intros Hm. unfold recoverRetainedCandidate. destruct frame as [f|]; [|wp_steps; eexists; split; [done|constructor]].
  rewrite cacheTtlSecToMs_ok by done. wp_steps. apply frameAge_wp.
  destruct (stamp_of f) as [c|] eqn:Ec; [|wp_steps; eexists; split; [done|by constructor]].
  intros now. unfold age_result at 1. destruct (Z.ltb_spec now c); cbn beta iota.
  { wp_steps. eexists; split; [done|]. by eapply rec_old; eauto. }
  destruct (Z.leb_spec (maxAgeSec * 1000) (now - c)).
  { wp_steps. eexists; split; [done|]. by eapply rec_old; eauto. }
  wp_steps. apply deserializePayload_wp. intros [v|e]; cbn beta iota;
    [|by wp_steps; eexists; split; [done|]; eapply rec_load_error; eauto; lia].
  wp_steps. apply frameAge_wp. rewrite Ec. intros now'. unfold age_result.
  destruct (Z.ltb_spec now' c); cbn beta iota.
  { wp_steps. eexists; split; [done|]. eapply rec_loaded_old; eauto; lia. }
  destruct (Z.leb_spec (maxAgeSec * 1000) (now' - c)); wp_steps; eexists; (split; [done|]).
  - eapply rec_loaded_old; eauto; lia.
  - eapply rec_served; eauto; lia.
Qed.

Lemma sampleWriteTimestamp_wp key layer Φ :
  (forall now, Φ [Obs EDateNow now]
     match assertValidRedisTimestampMs now with Ok _ => Ok now | Err e => Err e end) ->
  wp (sampleWriteTimestamp this key layer) Φ.
Proof.
  intros HΦ. unfold sampleWriteTimestamp. wp_steps. specialize (HΦ x). revert HΦ.
  destruct (assertValidRedisTimestampMs x); intros HΦ; wp_steps; done.
Qed.

Lemma encodeForStorage_wp key layer p Φ :
  Φ [] (stored_payload (rd_compression this) p) -> wp (encodeForStorage this key layer p) Φ.
Proof.
  unfold encodeForStorage, stored_payload. intros HΦ. destruct (rd_compression this) as [config|]; wp_steps; [|done].
  revert HΦ. destruct (compressPayload p config MAX_DECOMPRESSED_BYTES) as [c|e]; intros HΦ; wp_steps; [|done].
  destruct (cp_outcome c); wp_steps; done.
Qed.

(** The fence decision of a write, before or after serialization. *)
Lemma fence_wp key layer fence (Φ : list obs -> res (option (option Z)) -> Prop) :
  (forall d t, cleared fence d t -> Φ d (Ok (Some t))) ->
  (forall d, stopped fence d (Ok false) -> Φ d (Ok None)) ->
  (forall d e, stopped fence d (Err e) -> Φ d (Err e)) ->
  wp match fence with
     | None => Ret (Some None)
     | Some w => createdAtMs ← sampleWriteTimestamp this key layer;
                 Ret (if createdAtMs <=? w then None else Some (Some createdAtMs))
     end Φ.
Proof.
  intros H1 H2 H3. destruct fence as [w|]; wp_steps; [|apply H1; constructor].
  apply sampleWriteTimestamp_wp. intros now. destruct (assertValidRedisTimestampMs now) as [[]|e] eqn:E; wp_steps.
  - destruct (Z.leb_spec now w); [apply H2|apply H1]; by constructor.
  - apply H3. by constructor.
Qed.

Lemma early_fence_wp key layer fence (Φ : list obs -> res bool -> Prop) :
  (forall d t, cleared fence d t -> Φ d (Ok false)) ->
  (forall d, stopped fence d (Ok false) -> Φ d (Ok true)) ->
  (forall d e, stopped fence d (Err e) -> Φ d (Err e)) ->
  wp match fence with
     | None => Ret false
     | Some w => t ← sampleWriteTimestamp this key layer; Ret (t <=? w)
     end Φ.
Proof.
  intros H1 H2 H3. destruct fence as [w|]; wp_steps; [|eapply H1; constructor].
  apply sampleWriteTimestamp_wp. intros now. destruct (assertValidRedisTimestampMs now) as [[]|e] eqn:E; wp_steps.
  - destruct (Z.leb_spec now w); [apply H2|eapply H1]; by constructor.
  - apply H3. by constructor.
Qed.

(** The behaviour of an absent [shouldWrite]. *)
Definition always (d : list obs) (r : res bool) : Prop := d = [] /\ r = Ok true.

Definition check_spec (shouldWrite : option (prog bool)) (check : list obs -> res bool -> Prop) : Prop :=
  match shouldWrite with None => check [] (Ok true) | Some p => wp p check end.

Lemma put_refines key value ttlSec layer shouldWrite fenceMs check :
  0 < ttlSec <= MAX_CACHE_TTL_SEC -> check_spec shouldWrite check ->
  wp (putWithLayer this key value ttlSec layer shouldWrite fenceMs)
     (remote_put key value (ttlSec * 1000) (write_fence key fenceMs) check).
Proof.
  intros Ht Hc. unfold putWithLayer. rewrite cacheTtlSecToMs_ok by done.
  fold (write_fence key fenceMs). wp_steps.
  apply early_fence_wp; [|intros d Hd; wp_steps; rewrite app_nil_r; by constructor|by intros d e Hd; constructor].
  intros pre t Hpre. cbn beta iota. wp_steps. destruct x0 as [p|e]; wp_steps;
    (split; [done|]); wp_steps; [|by eapply rp_dump_failed].
  apply encodeForStorage_wp. destruct (stored_payload (rd_compression this) p) as [stored|e] eqn:Es; cbn beta iota;
    [|by eapply rp_encode_failed].
  wp_steps.
  assert (wp match shouldWrite with Some c => c | None => Ret true end check) as Hchk by by destruct shouldWrite.
  eapply wp_mono; [exact Hchk|]. intros chk [[|]|e] Hck; cbn beta iota delta [negb];
    [|wp_steps; rewrite ?app_nil_r; by eapply rp_not_admitted..].
  wp_steps. apply fence_wp.
  - intros post stamp Hpost. wp_steps. fold (physical_ttl key (ttlSec * 1000)).
    destruct (physical_ttl key (ttlSec * 1000) <? ttlSec * 1000); wp_steps;
      pose proof (rp_written key value (ttlSec * 1000) _ check pre t p stored chk post stamp x0 Hpre Es Hck Hpost);
      destruct x0; wp_steps; done.
  - intros d Hd. wp_steps. rewrite app_nil_r. by eapply rp_stopped_late.
  - intros d e Hd. by eapply rp_stopped_late.
Qed.
End spec.
