(* ===== verification/Core.v ===== *)
(** * The cache chain

    The operation path of [dialcache.ts]: [executeCacheOperation] and the
    layer traversal it drives (request-local, process-local, Redis, source),
    single-flight coalescing, publication after the source call, stale
    recovery, admission of shadow work, and [invalidateRemote]. *)

From S2P Require Import Prelude JsValue Duration Utf8 Config Key Ramp Metrics RuntimeConfig Frame Compression ShadowLog Effects RedisCache.

(** ** The instance and the operation *)

(** [DefaultPredicate] is [error instanceof FallbackTimeoutError]. *)
Inductive StaleRecoveryPredicate := DefaultPredicate | AppPredicate.

(** [dc_metrics] is [None] without an adapter and otherwise says whether the
    adapter has [shadowValidation]; [dc_local] is false for
    [localMaxSize = 0]. *)
Record DialCache := {
  dc_namespace : jsstr;
  dc_metrics : option bool;
  dc_local : bool;
  dc_redis : option RedisCache;
  dc_staleRecoveryPredicate : StaleRecoveryPredicate;
  dc_shadowMaxInFlight : Z;
}.

(** What [cached] and [getOrLoad] fix for an invocation. *)
Record operation := {
  op_options : KeyOptions;
  op_defaultConfig : option DialCacheKeyConfig;
  op_fallbackTimeoutMs : option Z;
  op_staleRecoveryPredicate : StaleRecoveryPredicate;
}.

Definition DEFAULT_FALLBACK_TIMEOUT_MS : Z := 60000.

(** [remoteLayer] of the source: a remote resolution, or the catch branch
    that also suppresses cache writes for tracked keys. *)
Inductive remote_layer :=
| RL_Enabled (config : ResolvedRemoteLayerConfig)
| RL_RampedDown (config : ResolvedRemoteLayerConfig)
| RL_Disabled (reason : DisabledReason) (skipCacheWrite : bool).

Section core.
  Context `{Zstd} (Number_toString : number -> jsstr) (this : DialCache).

Local Abbreviation metrics := (dc_metrics this).

(** ** The source call *)

(** [withFallbackTimeout(rawFallback, useCase, timeoutMs, ...)], awaited. *)
Definition await_fallback (op : operation) : prog jsval :=
  match op_fallbackTimeoutMs op with
  | None => r ← perform ELoadAwait; of_res r
  | Some timeoutMs =>
      s ← perform (ELoadAwaitDeadline timeoutMs);
      match s with
      | Settles r => of_res r
      | DeadlineExpired => Throw (FallbackTimeoutError (opt_useCase (op_options op)) timeoutMs)
      end
  end.

Definition rawFallback : prog jsval :=
  _ ← perform ELoadStart; r ← perform ELoadAwait; of_res r.

(** [callFallback] up to its first [await]: the promise it returns. *)
Definition callFallback_start : prog Q :=
  start ← perform EPerfNow; _ ← perform ELoadStart; Ret start.

Definition callFallback_await (labels : CacheMetricLabels) (op : operation) (start : Q) : prog jsval :=
  try_finally
    (try_catch (await_fallback op)
       (fun error => _ ← emit metrics (m_error labels ek_fallback true); Throw error))
    (observe metrics start (m_observeFallback labels)).

Definition callFallback (labels : CacheMetricLabels) (op : operation) : prog jsval :=
  start ← callFallback_start; callFallback_await labels op start.

(** ** Errors *)

Definition recordError (key : DialCacheKey) (layer : MetricLayer) (kind : MetricErrorKind) : prog unit :=
  emit metrics (m_error (labelsFor key layer) kind false).

Definition recordInvalidLeaf (key : DialCacheKey) (layer : MetricLayer) (reason : DisabledReason) : prog unit :=
  match reason with
  | dr_invalid_ttl | dr_invalid_ramp => recordError key layer ek_config_resolution
  | _ => Ret tt
  end.

(** ** The local layer *)

(** Resolution is total on a configuration that passed the merge, and an
    observer never throws, so neither catch branch below is taken: the
    refinement of [CoreSpec.v] derives it. *)
Definition resolveLocalLayerConfig (key : DialCacheKey) (keyConfig : option DialCacheKeyConfig) :
    prog (LayerConfigResolution ResolvedLayerConfig) :=
  try_catch
    (let result := resolveLayerConfigResult keyConfig key LOCAL in
     _ ← match reason_of result with
         | None => Ret tt
         | Some reason =>
             _ ← emit metrics (m_disabled (labelsFor key (Layer LOCAL)) reason);
             recordInvalidLeaf key (Layer LOCAL) reason
         end;
     Ret result)
    (fun _ =>
       _ ← log LogError "Error resolving local cache config";
       _ ← recordError key (Layer LOCAL) ek_config_resolution;
       _ ← emit metrics (m_disabled (labelsFor key (Layer LOCAL)) dr_config_error);
       Ret (DisabledFor dr_config_error)).

(** [LocalCache.getWithResolvedConfig] *)
Definition localCache_get (key : DialCacheKey) (layerConfig : ResolvedLayerConfig) : prog CacheGetResult :=
  hit ← (if dc_local this then r ← perform (ELocalGet (urn key)); of_res r else Ret None);
  Ret match hit with Some value => CG_Hit value | None => CG_Miss layerConfig end.

(** [LocalCache.put] *)
Definition localCache_put (key : DialCacheKey) (value : jsval) (config : ResolvedLayerConfig) : prog unit :=
  ms ← of_res (cacheTtlSecToMs (lc_ttlSec config));
  if dc_local this then r ← perform (ELocalSet (urn key) value (ms - 1)); of_res r else Ret tt.

Definition readLocalWithResolvedConfig (key : DialCacheKey) (layerConfig : ResolvedLayerConfig) :
    prog CacheGetResult :=
  start ← perform EPerfNow;
  try_catch
    (result ← localCache_get key layerConfig;
     _ ← emit metrics (m_request (labelsFor key (Layer LOCAL)));
     _ ← observe metrics start (m_observeGet (labelsFor key (Layer LOCAL)));
     _ ← match result with
         | CG_Miss _ => emit metrics (m_miss (labelsFor key (Layer LOCAL)) mr_value_absent)
         | _ => Ret tt
         end;
     Ret result)
    (fun _ =>
       _ ← log LogError "Error getting value from local cache";
       _ ← recordError key (Layer LOCAL) ek_cache_read;
       _ ← emit metrics (m_disabled (labelsFor key (Layer LOCAL)) dr_config_error);
       Ret (CG_Disabled dr_config_error false)).

Definition putLocalFailOpen (key : DialCacheKey) (value : jsval) (config : ResolvedLayerConfig) : prog unit :=
  try_catch (localCache_put key value config)
    (fun _ =>
       _ ← log LogWarn "Error putting value in local cache";
       recordError key (Layer LOCAL) ek_cache_write).

(** [if (local.status === "miss") await this.putLocalFailOpen(...)] *)
Definition putLocalOnMiss (key : DialCacheKey) (value : jsval) (local : CacheGetResult) : prog unit :=
  match local with CG_Miss config => putLocalFailOpen key value config | _ => Ret tt end.

(** ** The remote layer *)

Definition resolveRemoteLayerConfig (key : DialCacheKey) (keyConfig : option DialCacheKeyConfig) :
    prog remote_layer :=
  try_catch
    (let result := resolveRemoteLayerConfigResult keyConfig key in
     _ ← (if rr_staleOnErrorConfigError result then recordError key (Layer REMOTE) ek_config_resolution else Ret tt);
     _ ← match reason_of (rr_resolution result) with
         | None => Ret tt
         | Some reason =>
             _ ← emit metrics (m_disabled (labelsFor key (Layer REMOTE)) reason);
             recordInvalidLeaf key (Layer REMOTE) reason
         end;
     Ret match rr_resolution result with
         | Enabled c => RL_Enabled c
         | RampedDown c => RL_RampedDown c
         | DisabledFor reason => RL_Disabled reason false
         end)
    (fun _ =>
       _ ← log LogWarn "Error resolving Redis cache config";
       _ ← recordError key (Layer REMOTE) ek_config_resolution;
       _ ← emit metrics (m_disabled (labelsFor key (Layer REMOTE)) dr_config_error);
       Ret (RL_Disabled dr_config_error (trackForInvalidation key))).

Definition readRemoteWithResolvedConfig (redis : RedisCache) (key : DialCacheKey)
    (layerConfig : ResolvedRemoteLayerConfig) (readTimeoutMs : Z) : prog RemoteCacheGetResult :=
  try_catch
    (r ← getWithResolvedConfig redis key layerConfig readTimeoutMs; Ret (RR_Redis r))
    (fun _ => _ ← log LogWarn "Error getting value from Redis cache"; Ret RR_Error).

(** [keyConfig?.remoteReadTimeoutMs ?? redisCache.readTimeoutMs] *)
Definition readTimeoutFor (redis : RedisCache) (keyConfig : option DialCacheKeyConfig) : Z :=
  match field_of keyConfig kc_remoteReadTimeoutMs with
  | JNum n => default (rd_readTimeoutMs redis) (to_int n)
  | _ => rd_readTimeoutMs redis
  end.

(** ** Stale recovery *)

Definition is_fallback_timeout (e : exn) : bool :=
  match e with FallbackTimeoutError _ _ => true | _ => false end.

Definition shouldAttemptStaleRecovery (predicate : StaleRecoveryPredicate) (fallbackError : exn) : prog bool :=
  reply ← match predicate with
          | DefaultPredicate => Ret (PredicateBool (is_fallback_timeout fallbackError))
          | AppPredicate => perform (EStalePredicate fallbackError)
          end;
  match reply with
  | PredicateThrew =>
      _ ← log LogWarn "DialCache stale recovery predicate threw; recovery was denied"; Ret false
  | PredicateOther =>
      _ ← log LogWarn "DialCache stale recovery predicate returned a non-boolean; recovery was denied"; Ret false
  | PredicateBool b => Ret b
  end.

(** ** Admission of shadow work *)

Definition recordShadowDropped (key : DialCacheKey) : prog unit :=
  match metrics with
  | Some true => emit metrics (m_shadowValidation (namespace key) (useCase key) (keyType key) so_dropped)
  | _ => Ret tt
  end.

(** The leaves captured at admission; [None] when both are off. *)
Definition resolveShadowLogging (key : DialCacheKey) (shadowConfig : jsval) : prog (option ShadowMismatchLogPlan) :=
  let r := resolveMismatchLogging shadowConfig in
  _ ← (if res_invalid r then recordError key (Layer REMOTE) ek_config_resolution else Ret tt);
  Ret (if res_value r || negb (bool_decide (res_diff r = DiffOff))
       then Some {| lp_value := res_value r; lp_diff := res_diff r |} else None).

Definition scheduleShadowValidation (key : DialCacheKey) (keyConfig : option DialCacheKeyConfig)
    (start : ShadowValidationStart) (timeoutMs readTimeoutMs : Z) : prog unit :=
  let shadowConfig := field_of keyConfig kc_shadow in
  if not_plain_object shadowConfig then
    if is_undefined shadowConfig then Ret tt else recordError key (Layer REMOTE) ek_config_resolution
  else
    let shadowPercentage := prop shadowConfig "ramp" in
    if is_undefined shadowPercentage || is_int shadowPercentage 0 then Ret tt
    else
      match shadowPercentage with
      | JNum (Fin percentage) =>
          if Qltb percentage 0 || Qltb 100 percentage then recordError key (Layer REMOTE) ek_config_resolution
          else
            match metrics with
            | Some true =>
                if Qltb percentage 100 && Qle_bool percentage (deterministicShadowRampSample key) then Ret tt
                else
                  already ← perform (EShadowHas (urn key));
                  if (already : bool) then recordShadowDropped key
                  else
                    size ← perform EShadowSize;
                    if dc_shadowMaxInFlight this <=? size then recordShadowDropped key
                    else
                      logPlan ← resolveShadowLogging key shadowConfig;
                      startedAtMs ← match start with
                                    | StartRedis _ (Some t) => Ret t
                                    | _ => perform EPerfNow
                                    end;
                      _ ← perform (EShadowAdd (urn key));
                      _ ← perform (EDeferShadow
                            {| sj_key := key; sj_start := start; sj_flightStartedAtMs := startedAtMs;
                               sj_timeoutMs := timeoutMs; sj_readTimeoutMs := readTimeoutMs;
                               sj_logPlan := logPlan |});
                      Ret tt
            | _ => Ret tt
            end
      | _ => recordError key (Layer REMOTE) ek_config_resolution
      end.

(** [shadowValidation.timeoutMs] *)
Definition shadowTimeoutMs (op : operation) : Z := default DEFAULT_FALLBACK_TIMEOUT_MS (op_fallbackTimeoutMs op).

(** ** Finishing an invocation *)

Definition finishLocalOnly (key : DialCacheKey) (local : CacheGetResult) (op : operation) : prog jsval :=
  value ← callFallback (labelsFor key (Layer LOCAL)) op;
  _ ← putLocalOnMiss key value local;
  Ret value.

Definition finishRampedDownRemote (redis : RedisCache) (key : DialCacheKey)
    (keyConfig : option DialCacheKeyConfig) (local : option CacheGetResult)
    (remoteConfig : ResolvedRemoteLayerConfig) (fallbackLabels : CacheMetricLabels) (op : operation) : prog jsval :=
  let ramp := prop (field_of keyConfig kc_shadow) "ramp" in
  shadowStartedAtMs ← (if is_undefined ramp || is_int ramp 0 then Ret None
                       else t ← perform EPerfNow; Ret (Some t));
  start ← callFallback_start;
  _ ← scheduleShadowValidation key keyConfig (StartRedis remoteConfig shadowStartedAtMs)
        (shadowTimeoutMs op) (readTimeoutFor redis keyConfig);
  value ← callFallback_await fallbackLabels op start;
  _ ← match local with Some l => putLocalOnMiss key value l | None => Ret tt end;
  Ret value.

(** The remote policy a source value is written back under. *)
Definition remoteWriteConfig (remote : RemoteCacheGetResult) : option ResolvedRemoteLayerConfig :=
  match remote with
  | RR_Redis (RG_Miss config _ _) | RR_Redis (RG_Retained _ config) => Some config
  | _ => None
  end.

(** The ceiling under which a source rejection may be recovered. *)
Definition staleRecoveryMaxAgeSec (remote : RemoteCacheGetResult) : option Z :=
  match remote with
  | RR_Redis (RG_Retained _ config) | RR_Redis (RG_Miss config cache_miss _) => rc_staleOnErrorMaxAgeSec config
  | _ => None
  end.

Definition retainedFrame (remote : RemoteCacheGetResult) : option DecodedRedisFrame :=
  match remote with RR_Redis (RG_Retained frame _) => Some frame | _ => None end.

Definition fenceOf (remote : RemoteCacheGetResult) : option Z :=
  match remote with RR_Redis (RG_Miss _ _ observed) => observed | _ => None end.

(** [remote.status === "disabled" && remote.reason === "config_error"] or a
    remote miss or retained frame: the labels of the source call. *)
Definition fallbackLayer (remote : RemoteCacheGetResult) : CacheLayer :=
  match remote with
  | RR_Redis _ | RR_Disabled dr_config_error _ => REMOTE
  | _ => LOCAL
  end.

Definition suppressLocalWrite (key : DialCacheKey) (remote : RemoteCacheGetResult) : bool :=
  match remote with
  | RR_Disabled _ skip => skip
  | _ => negb (is_none (remoteWriteConfig remote)) && trackForInvalidation key
  end.

(** The catch branch of [finishRedisChain]: serve the retained candidate if
    policy and predicate allow it, otherwise rethrow the source error. *)
Definition recoverOrRethrow (redis : RedisCache) (key : DialCacheKey) (remote : RemoteCacheGetResult)
    (op : operation) (fallbackError : exn) : prog jsval :=
  match staleRecoveryMaxAgeSec remote with
  | None => Throw fallbackError
  | Some maxAgeSec =>
      attemptIt ← shouldAttemptStaleRecovery (op_staleRecoveryPredicate op) fallbackError;
      if negb attemptIt then Throw fallbackError
      else
        recovered ← try_catch (recoverRetainedCandidate redis key (retainedFrame remote) maxAgeSec)
          (fun _ => _ ← log LogWarn "Error using retained Redis value during stale recovery"; Ret None);
        match recovered with
        | Some value => Ret value
        | None => Throw fallbackError
        end
  end.

Definition finishRedisChain (redis : RedisCache) (key : DialCacheKey) (keyConfig : option DialCacheKeyConfig)
    (local : CacheGetResult) (remote : RemoteCacheGetResult) (op : operation) : prog jsval :=
  match remote with
  | RR_Redis (RG_Hit value frame) =>
      _ ← putLocalOnMiss key value local;
      _ ← scheduleShadowValidation key keyConfig (StartRetained frame)
            (shadowTimeoutMs op) (readTimeoutFor redis keyConfig);
      Ret value
  | RR_Error =>
      value ← callFallback (labelsFor key (Layer REMOTE)) op;
      _ ← (if trackForInvalidation key then Ret tt else putLocalOnMiss key value local);
      Ret value
  | _ =>
      outcome ← attempt (callFallback (labelsFor key (Layer (fallbackLayer remote))) op);
      match outcome with
      | Err fallbackError => recoverOrRethrow redis key remote op fallbackError
      | Ok value =>
          _ ← match remoteWriteConfig remote with
              | None => Ret tt
              | Some config =>
                  try_catch (put redis key value config (fenceOf remote))
                    (fun _ => log LogWarn "Error putting value in Redis cache")
              end;
          _ ← (if suppressLocalWrite key remote then Ret tt else putLocalOnMiss key value local);
          Ret value
      end
  end.

(** ** Single flight

    [run] is started between opening the flight and publishing its promise.
    Its synchronous prefix never reaches the flight table, so the publication
    is placed before it; [Coalescing.v] keeps the two apart. *)

Definition singleFlightProcess (key : DialCacheKey) (run : prog jsval) : prog jsval :=
  existing ← perform (EFlightGet (urn key));
  match existing with
  | Some flight =>
      if negb (pf_has_promise flight)
      then Throw (PlainError "DialCache process flight was joined before initialization")
      else
        _ ← perform (EFlightJoin (pf_id flight));
        _ ← emit metrics (m_coalesced (namespace key) (useCase key) (keyType key) ScopeProcess);
        r ← perform (EAwaitFlight (pf_id flight));
        of_res r
  | None =>
      startedAtMs ← perform EPerfNow;
      flight ← perform (EFlightOpen (urn key) startedAtMs);
      _ ← perform (EFlightPublish flight);
      try_finally run (perform (EFlightClear (urn key) flight))
  end.

Definition singleFlightRequestLocal (cache : nat) (key : DialCacheKey) (run : prog jsval) : prog jsval :=
  existing ← perform (ERequestFlightGet cache (urn key));
  match existing with
  | Some flight =>
      _ ← emit metrics (m_coalesced (namespace key) (useCase key) (keyType key) ScopeRequestLocal);
      r ← perform (EAwaitFlight flight);
      of_res r
  | None =>
      flight ← perform (ERequestFlightSet cache (urn key));
      try_finally run (perform (ERequestFlightClear cache (urn key) flight))
  end.

(** ** The traversal *)

Definition getThroughActiveLocal (key : DialCacheKey) (keyConfig : option DialCacheKeyConfig)
    (localConfig : ResolvedLayerConfig) (op : operation) : prog jsval :=
  local ← readLocalWithResolvedConfig key localConfig;
  match local with
  | CG_Hit value => Ret value
  | _ =>
      match dc_redis this with
      | None => finishLocalOnly key local op
      | Some redis =>
          remoteLayer ← resolveRemoteLayerConfig key keyConfig;
          match remoteLayer with
          | RL_RampedDown config =>
              finishRampedDownRemote redis key keyConfig (Some local) config (labelsFor key (Layer LOCAL)) op
          | RL_Disabled reason skip =>
              finishRedisChain redis key keyConfig local (RR_Disabled reason skip) op
          | RL_Enabled config =>
              remote ← readRemoteWithResolvedConfig redis key config (readTimeoutFor redis keyConfig);
              finishRedisChain redis key keyConfig local remote op
          end
      end
  end.

Definition getThroughSharedLayers (key : DialCacheKey) (keyConfig : option DialCacheKeyConfig)
    (op : operation) (fallbackMetricLayer : MetricLayer) : prog jsval :=
  let coalesce := negb (is_bool (field_of keyConfig kc_coalesce) false) in
  localLayer ← resolveLocalLayerConfig key keyConfig;
  match localLayer with
  | Enabled localConfig =>
      let run := getThroughActiveLocal key keyConfig localConfig op in
      if coalesce then singleFlightProcess key run else run
  | _ =>
      match dc_redis this with
      | None => callFallback (labelsFor key fallbackMetricLayer) op
      | Some redis =>
          remoteLayer ← resolveRemoteLayerConfig key keyConfig;
          match remoteLayer with
          | RL_RampedDown config =>
              finishRampedDownRemote redis key keyConfig None config (labelsFor key fallbackMetricLayer) op
          | RL_Disabled reason _ =>
              let layer := match reason with dr_config_error => Layer REMOTE | _ => fallbackMetricLayer end in
              callFallback (labelsFor key layer) op
          | RL_Enabled config =>
              let local := CG_Disabled (default dr_config_error (reason_of localLayer)) false in
              let run :=
                remote ← readRemoteWithResolvedConfig redis key config (readTimeoutFor redis keyConfig);
                finishRedisChain redis key keyConfig local remote op in
              if coalesce then singleFlightProcess key run else run
          end
      end
  end.

Definition getThroughRequestLocal (cache : nat) (key : DialCacheKey) (keyConfig : DialCacheKeyConfig)
    (op : operation) : prog jsval :=
  let run :=
    start ← perform EPerfNow;
    result ← perform (ERequestLocalRead cache (urn key));
    _ ← emit metrics (m_request (labelsFor key RequestLocalLayer));
    _ ← observe metrics start (m_observeGet (labelsFor key RequestLocalLayer));
    match result with
    | Some value => Ret value
    | None =>
        _ ← emit metrics (m_miss (labelsFor key RequestLocalLayer) mr_value_absent);
        value ← getThroughSharedLayers key (Some keyConfig) op RequestLocalLayer;
        _ ← perform (ERequestLocalSet cache (urn key) value);
        Ret value
    end in
  if is_bool (kc_coalesce keyConfig) false then run else singleFlightRequestLocal cache key run.

Definition noLayerLabels (op : operation) : CacheMetricLabels :=
  {| cacheNamespace := dc_namespace this; ml_useCase := opt_useCase (op_options op);
     ml_keyType := opt_keyType (op_options op); ml_layer := NoLayer |}.

Definition executeCacheOperation (op : operation) : prog jsval :=
  enabled ← perform EIsEnabled;
  if negb enabled then
    _ ← emit metrics (m_disabled (noLayerLabels op) dr_context);
    rawFallback
  else
    built ← attempt (spec ← perform ESelectKey; cacheKey ← of_res spec;
                     of_res (buildKey Number_toString (dc_namespace this) (op_options op) cacheKey (op_defaultConfig op)));
    match built with
    | Err _ =>
        _ ← log LogError "Could not construct DialCache key";
        _ ← emit metrics (m_error (noLayerLabels op) ek_key_construction false);
        callFallback (noLayerLabels op) op
    | Ok key =>
        fetched ← attempt (r ← perform (EConfigProvider key); runtimeConfig ← of_res r;
                           of_res (fetchKeyConfig key runtimeConfig));
        match fetched with
        | Err _ =>
            _ ← log LogWarn "Could not resolve DialCache key config";
            _ ← recordError key NoLayer ek_config_resolution;
            _ ← emit metrics (m_disabled (noLayerLabels op) dr_config_error);
            callFallback (noLayerLabels op) op
        | Ok keyConfig =>
            stillEnabled ← perform EIsEnabled;
            if negb stillEnabled then
              _ ← emit metrics (m_disabled (noLayerLabels op) dr_context);
              callFallback (noLayerLabels op) op
            else
              match keyConfig with
              | Some config =>
                  if is_bool (kc_requestLocal config) true then
                    cache ← perform ERequestLocalCache;
                    match cache with
                    | Some c => getThroughRequestLocal c key config op
                    | None => getThroughSharedLayers key keyConfig op (Layer LOCAL)
                    end
                  else getThroughSharedLayers key keyConfig op (Layer LOCAL)
              | None => getThroughSharedLayers key keyConfig op (Layer LOCAL)
              end
        end
    end.

(** ** Remote invalidation *)

Definition invalidateRemote (kt : jsstr) (id : key_arg) (futureBufferMs : jsval) : prog unit :=
  buffer ← of_res (assertSupportedFutureBufferMs futureBufferMs);
  _ ← emit metrics (m_invalidation (dc_namespace this) kt REMOTE);
  try_catch
    match dc_redis this with
    | None => Throw (TypeError "DialCache invalidateRemote requires a configured Redis client")
    | Some redis => invalidate kt (String_of_arg Number_toString id) buffer (dc_namespace this)
    end
    (fun error =>
       _ ← log LogWarn "Error writing DialCache invalidation watermark";
       _ ← emit metrics
             (m_error {| cacheNamespace := dc_namespace this; ml_useCase := js "watermark";
                         ml_keyType := kt; ml_layer := Layer REMOTE |} ek_invalidation false);
       Throw error).

End core.

#[export] Hint Unfold recordError recordInvalidLeaf callFallback_start rawFallback : effects.
