(* ===== verification/Scenario.v ===== *)
(** * Concrete environments

    A handler that answers every event from a fixed table.  Programs run
    against it by evaluation; the properties of the chain are instantiated on
    such runs. *)

From S2P Require Import Prelude JsValue Duration Utf8 Config Key Ramp Metrics RuntimeConfig Frame Compression ShadowLog Effects RedisCache Core.

Record scenario := {
  sc_enabled : bool;
  sc_config : jsval;
  sc_source : settlement jsval;
  sc_local : option jsval;
  sc_read : settlement client_result;
  sc_now : Z;
  sc_loaded : res jsval;
  sc_write : res unit;
}.

(** The application's key selector answers with the id ["42"]; observers
    return, the serializer dumps to the text ["1"], the comparator
    compares numbers, no flight is in progress
    and there are free shadow slots. *)
Definition answer (s : scenario) (e : ev) : ans e :=
  match e with
  | EIsEnabled => sc_enabled s
  | EPerfNow => 0%Q
  | EDateNow => sc_now s
  | EMetric _ | ELog _ _ => ObserverReturned
  | ESelectKey => Ok (SpecId (ArgString (js "42")))
  | EConfigProvider _ => Ok (sc_config s)
  | ELoadStart => tt
  | ELoadAwait => match sc_source s with Settles r => r | DeadlineExpired => Err (Raised 0) end
  | ELoadAwaitDeadline _ => sc_source s
  | EStalePredicate _ => PredicateBool true
  | ERequestLocalCache => Some 0%nat
  | ERequestLocalRead _ _ => None
  | ERequestLocalSet _ _ _ => tt
  | ERequestFlightGet _ _ => None
  | ERequestFlightSet _ _ => 0%nat
  | ERequestFlightClear _ _ _ => tt
  | ELocalGet _ => Ok (sc_local s)
  | ELocalSet _ _ _ => Ok tt
  | EFlightGet _ => None
  | EFlightOpen _ _ => 0%nat
  | EFlightPublish _ | EFlightJoin _ | EFlightClear _ _ => tt
  | EAwaitFlight _ => Err (Raised 0)
  | EClientRead _ => sc_read s
  | EClientWrite _ => sc_write s
  | EClientInvalidate _ => Ok tt
  | EDump _ _ => Ok (PString (js "1"))
  | ELoadPayload _ _ => sc_loaded s
  | EShadowHas _ => false
  | EShadowSize => 0
  | EShadowAdd _ | EDeferShadow _ => tt
  | EJobAbandoned => false
  | EJobAbandon | EJobSetFrame _ | EYieldImmediate | EAwaitFulfills | EJobFinished => tt
  | EJobFrame => match sc_read s with Settles (Ok (CR_Frame f)) => Some f | _ => None end
  | EJobSource => match sc_source s with Settles r => r | DeadlineExpired => Err (Raised 0) end
  | EJobSharedSource => sc_source s
  | EJobCallerTimedOut => false
  | ECompare (JNum (Fin a)) (JNum (Fin b)) => PredicateBool (Qeq_bool a b)
  | ECompare _ _ => PredicateOther
  | EMismatchHook _ _ => None
  | EAppText => (fun _ => Ok None, fun _ => Ok [])
  | EWarnMismatch _ => ObserverReturned
  end.

Definition play (s : scenario) (w : unit) (e : ev) : unit * ans e := (w, answer s e).

(** The trace and the outcome of a program in a scenario. *)
Definition trace_of {A} (s : scenario) (p : prog A) : list obs := (interp (play s) p tt).1.2.
Definition outcome_of {A} (s : scenario) (p : prog A) : res A := (interp (play s) p tt).2.

Lemma scenario_runs {A} (s : scenario) (p : prog A) r :
  outcome_of s p = r -> runs p (trace_of s p) r.
Proof. intros <-. apply interp_runs. Qed.

(** The event at a position of the trace. *)
Definition event_at {A} (s : scenario) (p : prog A) (i : nat) : obs := nth i (trace_of s p) (Obs EPerfNow 0%Q).

Lemma event_at_in {A} (s : scenario) (p : prog A) i :
  (i <? length (trace_of s p))%nat = true -> event_at s p i ∈ trace_of s p.
Proof. intros Hi%Nat.ltb_lt. apply list_elem_of_In, nth_In, Hi. Qed.

(** ** An instance with both layers *)

Definition sample_redis : RedisCache :=
  {| rd_metrics := None; rd_serializer := None; rd_compression := None; rd_readTimeoutMs := 50 |}.

Definition sample_cache : DialCache :=
  {| dc_namespace := js "urn"; dc_metrics := None; dc_local := true; dc_redis := Some sample_redis;
     dc_staleRecoveryPredicate := DefaultPredicate; dc_shadowMaxInFlight := 1 |}.

(** A tracked use case under a one-minute fallback deadline. *)
Definition sample_op : operation :=
  {| op_options := {| opt_keyType := js "user"; opt_useCase := js "profile"; opt_serializer := None;
                      opt_trackForInvalidation := Some true |};
     op_defaultConfig := None; op_fallbackTimeoutMs := Some 60000;
     op_staleRecoveryPredicate := DefaultPredicate |}.

(** Both layers on for ten seconds; stale values allowed up to a minute. *)
Definition sample_config : jsval :=
  obj [("ttlSec", obj [("local", JInt 10); ("remote", JInt 10)]); ("staleOnErrorMaxAgeSec", JInt 60)].

Definition sample_number (n : number) : jsstr := js "0".

Definition sample_frame (t : Z) : DecodedRedisFrame := {| payload := PString (js "1"); createdAtMs := of_Z t |}.

(** A miss that reports the watermark [w]. *)
Definition fenced_miss (w : Z) : client_result := CR_Miss (JStr (js "watermark_fenced")) (JInt w).

Definition scenario_with (source : settlement jsval) (local : option jsval) (read : settlement client_result)
    (now : Z) : scenario :=
  {| sc_enabled := true; sc_config := sample_config; sc_source := source; sc_local := local; sc_read := read;
     sc_now := now; sc_loaded := Ok (JInt 1); sc_write := Ok tt |}.

Definition sample_run : prog jsval := @executeCacheOperation toy_zstd sample_number sample_cache sample_op.

(** The source answers after a fenced miss. *)
Definition refill_scenario : scenario :=
  scenario_with (Settles (Ok (JInt 7))) None (Settles (Ok (fenced_miss 1000))) 5000.

(** A fresh frame is served. *)
Definition fresh_scenario : scenario :=
  scenario_with (Settles (Ok (JInt 7))) None (Settles (Ok (CR_Frame (sample_frame 1000)))) 5000.

(** The source deadline expires with a frame of half a minute at hand. *)
Definition stale_scenario : scenario :=
  scenario_with DeadlineExpired None (Settles (Ok (CR_Frame (sample_frame 1000)))) 31000.

(** The local layer has the value. *)
Definition local_scenario : scenario :=
  scenario_with (Settles (Ok (JInt 7))) (Some (JInt 3)) (Settles (Ok (fenced_miss 1000))) 5000.

(** The context is not enabled. *)
Definition disabled_scenario : scenario :=
  {| sc_enabled := false; sc_config := sample_config; sc_source := Settles (Ok (JInt 7)); sc_local := None;
     sc_read := DeadlineExpired; sc_now := 0; sc_loaded := Ok (JInt 1); sc_write := Ok tt |}.

Example refill_result : outcome_of refill_scenario sample_run = Ok (JInt 7).
Proof. vm_compute. reflexivity. Qed.
Example fresh_result : outcome_of fresh_scenario sample_run = Ok (JInt 1).
Proof. vm_compute. reflexivity. Qed.
Example stale_result : outcome_of stale_scenario sample_run = Ok (JInt 1).
Proof. vm_compute. reflexivity. Qed.
Example local_result : outcome_of local_scenario sample_run = Ok (JInt 3).
Proof. vm_compute. reflexivity. Qed.
