(* ===== verification/CoreSpec.v ===== *)
(** * What the cache chain may do

    Abstract descriptions of the steps of an invocation, as relations between
    the data events they exchange with the environment and their outcome,
    and the lemmas that the programs of [Core.v] refine them. *)

From S2P Require Import Prelude JsValue Duration Utf8 Config Key Ramp Metrics RuntimeConfig Frame Compression ShadowLog Effects RedisCache Core.

Section spec.
  Context `{Zstd} (nts : number -> jsstr) (this : DialCache).

(** ** The source call *)

(** The event with which the source call of [op] settles with [r]. *)
Inductive source_settles (op : operation) : obs -> res jsval -> Prop :=
| ss_unbounded r : op_fallbackTimeoutMs op = None -> source_settles op (Obs ELoadAwait r) r
| ss_in_time t r :
    op_fallbackTimeoutMs op = Some t -> source_settles op (Obs (ELoadAwaitDeadline t) (Settles r)) r
| ss_expired t :
    op_fallbackTimeoutMs op = Some t ->
    source_settles op (Obs (ELoadAwaitDeadline t) DeadlineExpired)
      (Err (FallbackTimeoutError (opt_useCase (op_options op)) t)).

Lemma callFallback_await_wp labels op start Φ :
  (forall o r, source_settles op o r -> Φ [o] r) -> wp (callFallback_await this labels op start) Φ.
Proof.
  intros HΦ. unfold callFallback_await, await_fallback. wp_steps.
  destruct (op_fallbackTimeoutMs op) as [t|] eqn:Et; wp_steps.
  - destruct x as [[v|e]|]; wp_steps; (split; [done|]); apply HΦ; by constructor.
  - destruct x as [v|e]; wp_steps; (split; [done|]); apply HΦ; by constructor.
Qed.

Lemma callFallback_wp labels op Φ :
  (forall o r, source_settles op o r -> Φ [Obs ELoadStart tt; o] r) -> wp (callFallback this labels op) Φ.
Proof.
  intros HΦ. unfold callFallback. wp_steps. destruct x0. apply callFallback_await_wp. intros o r Hr. by apply HΦ.
Qed.

(** ** The local layer *)

Lemma resolveLocalLayerConfig_wp key keyConfig Φ :
  Φ [] (Ok (resolveLayerConfigResult keyConfig key LOCAL)) -> wp (resolveLocalLayerConfig this key keyConfig) Φ.
Proof.
  unfold resolveLocalLayerConfig. intros HΦ. destruct (reason_of _) as [reason|]; wp_steps; [|done].
  destruct reason; wp_steps; done.
Qed.

(** A local read: nothing at all without a local store, otherwise one lookup
    whose failure is treated as a disabled layer. *)
Inductive local_read (key : DialCacheKey) (lc : ResolvedLayerConfig) : list obs -> CacheGetResult -> Prop :=
| lr_no_store : dc_local this = false -> local_read key lc [] (CG_Miss lc)
| lr_hit v : dc_local this = true -> local_read key lc [Obs (ELocalGet (urn key)) (Ok (Some v))] (CG_Hit v)
| lr_miss : dc_local this = true -> local_read key lc [Obs (ELocalGet (urn key)) (Ok None)] (CG_Miss lc)
| lr_failed e :
    dc_local this = true ->
    local_read key lc [Obs (ELocalGet (urn key)) (Err e)] (CG_Disabled dr_config_error false).

Lemma readLocal_wp key lc Φ :
  (forall d r, local_read key lc d r -> Φ d (Ok r)) -> wp (readLocalWithResolvedConfig this key lc) Φ.
Proof.
  intros HΦ. unfold readLocalWithResolvedConfig, localCache_get. destruct (dc_local this) eqn:El; wp_steps.
  - destruct x0 as [[v|]|e]; wp_steps; apply HΦ; by constructor.
  - apply HΦ. by constructor.
Qed.

(** Publication to the local layer happens only after a local miss, with the
    layer's TTL less one millisecond. *)
Definition local_publish (key : DialCacheKey) (v : jsval) (local : CacheGetResult) (d : list obs) : Prop :=
  match local with
  | CG_Miss c =>
      match cacheTtlSecToMs (lc_ttlSec c) with
      | Ok ms => if dc_local this then exists x, d = [Obs (ELocalSet (urn key) v (ms - 1)) x] else d = []
      | Err _ => d = []
      end
  | _ => d = []
  end.

Lemma putLocalOnMiss_wp key v local Φ :
  (forall d, local_publish key v local d -> Φ d (Ok tt)) -> wp (putLocalOnMiss this key v local) Φ.
Proof.
  unfold local_publish, putLocalOnMiss, putLocalFailOpen, localCache_put. intros HΦ.
  destruct local as [w|c|r s]; wp_steps; [by apply HΦ| |by apply HΦ].
  destruct (cacheTtlSecToMs (lc_ttlSec c)) as [ms|e]; wp_steps; [|by apply HΦ].
  destruct (dc_local this); wp_steps; [|by apply HΦ].
  destruct x as [[]|e]; wp_steps; apply HΦ; eauto.
Qed.

(** ** The remote layer *)

Definition remote_layer_of (keyConfig : option DialCacheKeyConfig) (key : DialCacheKey) : remote_layer :=
  match rr_resolution (resolveRemoteLayerConfigResult keyConfig key) with
  | Enabled c => RL_Enabled c
  | RampedDown c => RL_RampedDown c
  | DisabledFor reason => RL_Disabled reason false
  end.

Lemma resolveRemoteLayerConfig_wp key keyConfig Φ :
  Φ [] (Ok (remote_layer_of keyConfig key)) -> wp (resolveRemoteLayerConfig this key keyConfig) Φ.
Proof.
  unfold resolveRemoteLayerConfig, remote_layer_of. intros HΦ.
  destruct (rr_staleOnErrorConfigError _), (reason_of _) as [[]|]; wp_steps; done.
Qed.

Lemma resolveLayer_ttl config key layer c :
  (resolveLayerConfigResult config key layer = Enabled c \/ resolveLayerConfigResult config key layer = RampedDown c) ->
  0 < lc_ttlSec c <= MAX_CACHE_TTL_SEC.
Proof.
  unfold resolveLayerConfigResult. destruct config as [kc|]; [|by intros [?|?]].
  destruct (is_undefined _); [by intros [?|?]|].
  destruct (isSupportedCacheTtlSec _) as [t|] eqn:Et; [|by intros [?|?]].
  apply isSupportedCacheTtlSec_spec in Et. intros HH.
  assert (lc_ttlSec c = t) as ->; [|naive_solver lia].
  destruct (if is_undefined _ then _ else _); try (by destruct HH).
  repeat case_match; destruct HH; simplify_eq/=; done.
Qed.

Lemma resolveStaleMaxAge_ok v ttl m bad :
  resolveStaleMaxAge v ttl = (Some m, bad) -> ttl < m <= MAX_CACHE_TTL_SEC.
Proof.
  unfold resolveStaleMaxAge. case_match; [done|].
  destruct (isSupportedCacheTtlSec v) as [z|] eqn:Ez; [|done]. apply isSupportedCacheTtlSec_spec in Ez.
  destruct (Z.leb_spec z ttl); [done|]. intros [= <- <-]. naive_solver lia.
Qed.

(** Every remote policy that resolution produces is usable. *)
Lemma remote_layer_config_ok keyConfig key c :
  (remote_layer_of keyConfig key = RL_Enabled c \/ remote_layer_of keyConfig key = RL_RampedDown c) ->
  remote_config_ok c.
Proof.
  unfold remote_layer_of, resolveRemoteLayerConfigResult.
  destruct (resolveLayerConfigResult keyConfig key REMOTE) as [lc|lc|reason] eqn:E; [| |by intros [?|?]];
    destruct (resolveStaleMaxAge _ _) as [m bad] eqn:Em; simpl; intros HH;
    assert (c = with_stale lc m) as -> by (destruct HH; congruence);
    (split; [apply (resolveLayer_ttl keyConfig key REMOTE); auto|]);
    simpl; intros m' ->; by eapply resolveStaleMaxAge_ok.
Qed.

(** A remote read inside the chain: what [remote_read] says, with a rejection
    turned into the error disposition. *)
Definition chain_read (redis : RedisCache) (key : DialCacheKey) (lc : ResolvedRemoteLayerConfig) (t : Z)
    (d : list obs) (remote : RemoteCacheGetResult) : Prop :=
  match remote with
  | RR_Redis r => remote_read redis key lc t d (Ok r)
  | RR_Error => exists e, remote_read redis key lc t d (Err e)
  | RR_Disabled _ _ => False
  end.

Lemma readRemote_wp redis key lc t Φ :
  remote_config_ok lc -> (forall d r, chain_read redis key lc t d r -> Φ d (Ok r)) ->
  wp (readRemoteWithResolvedConfig redis key lc t) Φ.
Proof.
  intros Hok HΦ. unfold readRemoteWithResolvedConfig. wp_steps.
  eapply wp_mono; [by apply get_refines|]. intros d [r|e] Hr; wp_steps; rewrite app_nil_r; apply HΦ; simpl; eauto.
Qed.

(** ** Shadow admission *)

(** Whether policy asks for a job on this key: the metrics adapter can report
    a verdict, the ramp is a usable percentage above zero, and the sample of
    the key falls below it. *)
Definition shadow_due (key : DialCacheKey) (keyConfig : option DialCacheKeyConfig) : Prop :=
  exists percentage, dc_metrics this = Some true /\ not_plain_object (field_of keyConfig kc_shadow) = false /\
    prop (field_of keyConfig kc_shadow) "ramp" = JNum (Fin percentage) /\
    (0 < percentage /\ percentage <= 100 /\
     (percentage < 100 -> deterministicShadowRampSample key < percentage))%Q.

(** Nothing happens exactly when no job is due.  A due job is admitted when
    its key has no job and there is a free slot, and dropped otherwise. *)
Inductive shadow_schedule (key : DialCacheKey) (keyConfig : option DialCacheKeyConfig)
    (start : ShadowValidationStart) (timeoutMs readTimeoutMs : Z) : list obs -> Prop :=
| sh_off : ~ shadow_due key keyConfig -> shadow_schedule key keyConfig start timeoutMs readTimeoutMs []
| sh_busy :
    shadow_due key keyConfig ->
    shadow_schedule key keyConfig start timeoutMs readTimeoutMs [Obs (EShadowHas (urn key)) true]
| sh_full n :
    shadow_due key keyConfig -> dc_shadowMaxInFlight this <= n ->
    shadow_schedule key keyConfig start timeoutMs readTimeoutMs [Obs (EShadowHas (urn key)) false; Obs EShadowSize n]
| sh_admitted n job :
    shadow_due key keyConfig -> n < dc_shadowMaxInFlight this ->
    sj_key job = key -> sj_start job = start -> sj_timeoutMs job = timeoutMs -> sj_readTimeoutMs job = readTimeoutMs ->
    shadow_schedule key keyConfig start timeoutMs readTimeoutMs
      [Obs (EShadowHas (urn key)) false; Obs EShadowSize n; Obs (EShadowAdd (urn key)) tt;
       Obs (EDeferShadow job) tt].

Lemma recordShadowDropped_wp key Φ : Φ [] (Ok tt) -> wp (recordShadowDropped this key) Φ.
Proof. unfold recordShadowDropped. intros HΦ. destruct (dc_metrics this) as [[]|] eqn:E; wp_steps; done. Qed.

Lemma admit_wp key keyConfig shadowConfig start timeoutMs readTimeoutMs n Φ :
  shadow_due key keyConfig -> n < dc_shadowMaxInFlight this ->
  (forall d, shadow_schedule key keyConfig start timeoutMs readTimeoutMs d -> Φ d (Ok tt)) ->
  wp (logPlan ← resolveShadowLogging this key shadowConfig;
      startedAtMs ← match start with StartRedis _ (Some t) => Ret t | _ => perform EPerfNow end;
      _ ← perform (EShadowAdd (urn key));
      _ ← perform (EDeferShadow
            {| sj_key := key; sj_start := start; sj_flightStartedAtMs := startedAtMs;
               sj_timeoutMs := timeoutMs; sj_readTimeoutMs := readTimeoutMs; sj_logPlan := logPlan |});
      Ret tt)
     (fun d r => Φ (Obs (EShadowHas (urn key)) false :: Obs EShadowSize n :: d) r).
Proof.
  intros Hm Hn HΦ. unfold resolveShadowLogging.
  destruct (res_invalid _); wp_steps;
    (destruct start as [f|c [t|]]; wp_steps; apply HΦ;
     match goal with x : ans (EShadowAdd _), y : ans (EDeferShadow _) |- _ => destruct x, y end;
     by econstructor).
Qed.

Lemma is_int_Fin q z : is_int (JNum (Fin q)) z = true <-> (q == inject_Z z)%Q.
Proof. unfold is_int. simpl. apply Qeq_bool_iff. Qed.

Lemma schedule_wp key keyConfig start timeoutMs readTimeoutMs Φ :
  (forall d, shadow_schedule key keyConfig start timeoutMs readTimeoutMs d -> Φ d (Ok tt)) ->
  wp (scheduleShadowValidation this key keyConfig start timeoutMs readTimeoutMs) Φ.
Proof.
  intros HΦ. assert (~ shadow_due key keyConfig -> Φ [] (Ok tt)) as Hoff by (intros Hn; by apply HΦ, sh_off).
  unfold scheduleShadowValidation. cbv zeta. unfold shadow_due in Hoff.
  destruct (not_plain_object _) eqn:Eo.
  { assert (Φ [] (Ok tt)) by (apply Hoff; naive_solver). destruct (is_undefined _); wp_steps; done. }
  destruct (prop _ _) as [| | |[|s|q]| | | |] eqn:Ep;
    try (assert (Φ [] (Ok tt)) by (apply Hoff; naive_solver); simpl; wp_steps; done).
  cbn [is_undefined orb]. destruct (is_int (JNum (Fin q)) 0) eqn:E0.
  { apply wp_ret, Hoff. intros (p & _ & _ & [= <-] & Hp & _). apply is_int_Fin in E0. rewrite E0 in Hp. by apply Qlt_irrefl in Hp. }
  destruct (Qltb q 0 || Qltb 100 q) eqn:Er.
  { wp_steps. apply Hoff. intros (p & _ & _ & [= <-] & Hp & Hp' & _).
    apply orb_true_iff in Er as [Er|Er]; apply Qltb_spec in Er; [|by apply Qle_not_lt in Hp'].
    by apply (Qlt_irrefl 0), (Qlt_trans _ q). }
  apply orb_false_iff in Er as [Er1%Qltb_false Er2%Qltb_false].
  destruct (dc_metrics this) as [[]|] eqn:Em; try (apply wp_ret, Hoff; naive_solver).
  destruct (_ && _) eqn:Es.
  { apply wp_ret, Hoff. intros (p & _ & _ & [= <-] & _ & _ & Hs). apply andb_true_iff in Es as [Hq%Qltb_spec Hle%Qle_bool_iff].
    by apply Hs, Qlt_not_le in Hq. }
  assert (shadow_due key keyConfig) as Hdue.
  { exists q. repeat split; try done.
    - apply Qle_lteq in Er1 as [?|Eq]; [done|]. exfalso. apply not_true_iff_false in E0. apply E0, is_int_Fin. by symmetry.
    - intros Hq%Qltb_spec. rewrite Hq in Es. simpl in Es. apply Qnot_le_lt. rewrite <- Qle_bool_iff. by rewrite Es. }
  wp_steps. destruct x; [apply recordShadowDropped_wp; apply HΦ; by constructor|].
  wp_steps. destruct (Z.leb_spec (dc_shadowMaxInFlight this) x).
  - apply recordShadowDropped_wp. apply HΦ. by constructor.
  - by eapply admit_wp.
Qed.

(** ** After the remote read *)

(** What the recovery predicate answers: the built-in one recovers only from
    the library's own deadline; an application predicate that throws or does
    not return a boolean denies. *)
Inductive predicate_says (op : operation) (e : exn) : list obs -> bool -> Prop :=
| ps_default :
    op_staleRecoveryPredicate op = DefaultPredicate -> predicate_says op e [] (is_fallback_timeout e)
| ps_app x :
    op_staleRecoveryPredicate op = AppPredicate ->
    predicate_says op e [Obs (EStalePredicate e) x] match x with PredicateBool b => b | _ => false end.

Lemma predicate_wp op e Φ :
  (forall d b, predicate_says op e d b -> Φ d (Ok b)) ->
  wp (shouldAttemptStaleRecovery (op_staleRecoveryPredicate op) e) Φ.
Proof.
  intros HΦ. unfold shouldAttemptStaleRecovery. destruct (op_staleRecoveryPredicate op) eqn:Ep; wp_steps.
  - apply HΦ. by constructor.
  - specialize (HΦ _ _ (ps_app op e x Ep)). destruct x; wp_steps; done.
Qed.

Definition is_hit (remote : RemoteCacheGetResult) : bool :=
  match remote with RR_Redis (RG_Hit _ _) => true | _ => false end.

(** Writing the source value back to Redis. *)
Definition refill (redis : RedisCache) (key : DialCacheKey) (v : jsval) (remote : RemoteCacheGetResult)
    (d : list obs) : Prop :=
  match remoteWriteConfig remote with
  | None => d = []
  | Some config =>
      exists r, remote_put redis key v (retentionTtlSecFor config * 1000) (write_fence key (fenceOf remote)) always d r
  end.

(** A source value is withheld from the local layer when the read failed on a
    tracked key, or when policy suppresses it. *)
Definition withhold_local (key : DialCacheKey) (remote : RemoteCacheGetResult) : bool :=
  match remote with RR_Error => trackForInvalidation key | _ => suppressLocalWrite key remote end.

Inductive finish_chain (redis : RedisCache) (key : DialCacheKey) (keyConfig : option DialCacheKeyConfig)
    (local : CacheGetResult) (remote : RemoteCacheGetResult) (op : operation) : list obs -> res jsval -> Prop :=
| fc_hit v f d1 d2 :
    remote = RR_Redis (RG_Hit v f) -> local_publish key v local d1 ->
    shadow_schedule key keyConfig (StartRetained f) (shadowTimeoutMs op) (readTimeoutFor redis keyConfig) d2 ->
    finish_chain redis key keyConfig local remote op (d1 ++ d2) (Ok v)
| fc_loaded v o d1 d2 :
    is_hit remote = false -> source_settles op o (Ok v) -> refill redis key v remote d1 ->
    (if withhold_local key remote then d2 = [] else local_publish key v local d2) ->
    finish_chain redis key keyConfig local remote op (Obs ELoadStart tt :: o :: d1 ++ d2) (Ok v)
| fc_rejected e o :
    is_hit remote = false -> source_settles op o (Err e) -> staleRecoveryMaxAgeSec remote = None ->
    finish_chain redis key keyConfig local remote op [Obs ELoadStart tt; o] (Err e)
| fc_denied e o dp m :
    is_hit remote = false -> source_settles op o (Err e) -> staleRecoveryMaxAgeSec remote = Some m ->
    predicate_says op e dp false ->
    finish_chain redis key keyConfig local remote op (Obs ELoadStart tt :: o :: dp) (Err e)
| fc_recovery e o dp dr m found :
    is_hit remote = false -> source_settles op o (Err e) -> staleRecoveryMaxAgeSec remote = Some m ->
    predicate_says op e dp true -> recovery redis key (m * 1000) (retainedFrame remote) dr found ->
    finish_chain redis key keyConfig local remote op (Obs ELoadStart tt :: o :: dp ++ dr)
      match found with Some v => Ok v | None => Err e end.

(** The policies a remote disposition carries are usable. *)
Definition remote_ok (remote : RemoteCacheGetResult) : Prop :=
  forall config, remoteWriteConfig remote = Some config -> remote_config_ok config.

Lemma staleRecovery_bound remote m :
  remote_ok remote -> staleRecoveryMaxAgeSec remote = Some m -> 0 < m <= MAX_CACHE_TTL_SEC.
Proof.
  intros Hok Hm. destruct remote as [[v f|f c|c [] w]| |]; simpl in *; try done;
    destruct (Hok _ eq_refl) as [Ht Hs]; specialize (Hs _ Hm); lia.
Qed.

Lemma recoverOrRethrow_wp redis key keyConfig local remote op e o :
  remote_ok remote -> is_hit remote = false -> source_settles op o (Err e) ->
  wp (recoverOrRethrow redis key remote op e)
     (fun d r => finish_chain redis key keyConfig local remote op (Obs ELoadStart tt :: o :: d) r).
Proof.
  intros Hok Hh Hs. unfold recoverOrRethrow.
  destruct (staleRecoveryMaxAgeSec remote) as [m|] eqn:Em; [|wp_steps; by constructor].
  pose proof (staleRecovery_bound remote m Hok Em) as Hm.
  wp_steps. apply predicate_wp. intros dp [|] Hp; wp_steps; [|rewrite ?app_nil_r; by eapply fc_denied].
  eapply wp_mono; [by apply recover_refines|]. intros dr r (found & -> & Hr). cbn beta iota.
  pose proof (fc_recovery redis key keyConfig local remote op e o dp dr m found Hh Hs Em Hp Hr).
  destruct found; wp_steps; by rewrite ?app_nil_r.
Qed.

Lemma refill_wp redis key v remote Φ :
  remote_ok remote -> (forall d, refill redis key v remote d -> Φ d (Ok tt)) ->
  wp match remoteWriteConfig remote with
     | None => Ret tt
     | Some config =>
         try_catch (put redis key v config (fenceOf remote))
           (fun _ => log LogWarn "Error putting value in Redis cache")
     end Φ.
Proof.
  unfold refill, remote_ok. intros Hok HΦ. destruct (remoteWriteConfig remote) as [config|]; [|by apply HΦ].
  unfold put. wp_steps. eapply wp_mono; [apply put_refines with (check := always)|].
  - by apply retention_range, Hok.
  - by split.
  - intros d [b|e] Hp; wp_steps; rewrite ?app_nil_r; apply HΦ; eauto.
Qed.

(** The publication tail shared by the branches that call the source. *)
Definition publish_loaded (redis : RedisCache) (key : DialCacheKey) (local : CacheGetResult)
    (remote : RemoteCacheGetResult) (v : jsval) : prog jsval :=
  _ ← match remoteWriteConfig remote with
      | None => Ret tt
      | Some config => try_catch (put redis key v config (fenceOf remote))
                         (fun _ => log LogWarn "Error putting value in Redis cache")
      end;
  _ ← (if withhold_local key remote then Ret tt else putLocalOnMiss this key v local);
  Ret v.

Lemma publish_loaded_wp redis key keyConfig local remote op o v :
  remote_ok remote -> is_hit remote = false -> source_settles op o (Ok v) ->
  wp (publish_loaded redis key local remote v)
     (fun d r => finish_chain redis key keyConfig local remote op (Obs ELoadStart tt :: o :: d) r).
Proof.
  intros Hok Hh Ho. unfold publish_loaded. wp_steps. apply refill_wp; [done|]. intros d1 Hd1. wp_steps.
  destruct (withhold_local key remote) eqn:Ew; wp_steps.
  - apply fc_loaded; [done..|]. by rewrite Ew.
  - apply putLocalOnMiss_wp. intros d2 Hd2. wp_steps. rewrite app_nil_r. apply fc_loaded; [done..|]. by rewrite Ew.
Qed.

Lemma load_and_publish_wp redis key keyConfig local remote op labels :
  remote_ok remote -> is_hit remote = false ->
  wp (outcome ← attempt (callFallback this labels op);
      match outcome with
      | Err fallbackError => recoverOrRethrow redis key remote op fallbackError
      | Ok value => publish_loaded redis key local remote value
      end) (finish_chain redis key keyConfig local remote op).
Proof.
  intros Hok Hh. apply wp_bind, wp_attempt, callFallback_wp. intros o [v|e] Ho; cbn beta iota.
  - by apply publish_loaded_wp.
  - by apply recoverOrRethrow_wp.
Qed.

(** The chain after the remote read refines its description. *)
Lemma finishRedisChain_refines redis key keyConfig local remote op :
  remote_ok remote ->
  wp (finishRedisChain this redis key keyConfig local remote op)
     (finish_chain redis key keyConfig local remote op).
Proof.
  intros Hok. pose proof (fun labels => load_and_publish_wp redis key keyConfig local remote op labels Hok) as Hmain.
  specialize (Hmain (labelsFor key (Layer (fallbackLayer remote)))).
  destruct remote as [[v f|f c|c rs w]|reason skip|]; [|exact (Hmain eq_refl)..|].
  - unfold finishRedisChain. wp_steps. apply putLocalOnMiss_wp. intros d1 Hd1. wp_steps.
    apply schedule_wp. intros d2 Hd2. wp_steps. rewrite app_nil_r. by eapply fc_hit.
  - unfold finishRedisChain. apply wp_bind, callFallback_wp. intros o [v|e] Ho; cbn beta iota.
    + by apply (publish_loaded_wp redis key keyConfig local RR_Error op o v).
    + by apply fc_rejected.
Qed.

(** ** The traversal *)

(** Reading Redis and finishing. *)
Inductive redis_chain (redis : RedisCache) (key : DialCacheKey) (keyConfig : option DialCacheKeyConfig)
    (local : CacheGetResult) (lc : ResolvedRemoteLayerConfig) (op : operation) : list obs -> res jsval -> Prop :=
| redis_chain_intro remote d1 d2 r :
    chain_read redis key lc (readTimeoutFor redis keyConfig) d1 remote ->
    finish_chain redis key keyConfig local remote op d2 r ->
    redis_chain redis key keyConfig local lc op (d1 ++ d2) r.

(** The remote layer takes no part: there is no Redis client, or policy
    disables the layer for this key. *)
Definition remote_inactive (keyConfig : option DialCacheKeyConfig) (key : DialCacheKey) : Prop :=
  dc_redis this = None \/ exists reason, remote_layer_of keyConfig key = RL_Disabled reason false.

(** The layers behind a local layer that was read (or is not active), in
    every combination of policies: the source alone only when the remote layer
    takes no part, the source with shadow admission only when the remote layer
    is ramped down, and Redis whenever it is enabled. *)
Inductive behind_local (key : DialCacheKey) (keyConfig : option DialCacheKeyConfig) (local : CacheGetResult)
    (op : operation) : list obs -> res jsval -> Prop :=
| bl_source o r d :
    remote_inactive keyConfig key -> source_settles op o r ->
    match r with Ok v => local_publish key v local d | Err _ => d = [] end ->
    behind_local key keyConfig local op (Obs ELoadStart tt :: o :: d) r
| bl_ramped redis lc t ds o r d :
    dc_redis this = Some redis -> remote_layer_of keyConfig key = RL_RampedDown lc ->
    shadow_schedule key keyConfig (StartRedis lc t) (shadowTimeoutMs op) (readTimeoutFor redis keyConfig) ds ->
    source_settles op o r ->
    match r with Ok v => local_publish key v local d | Err _ => d = [] end ->
    behind_local key keyConfig local op (Obs ELoadStart tt :: ds ++ o :: d) r
| bl_redis redis lc d r :
    dc_redis this = Some redis -> remote_layer_of keyConfig key = RL_Enabled lc -> remote_config_ok lc ->
    redis_chain redis key keyConfig local lc op d r ->
    behind_local key keyConfig local op d r.

Lemma redis_chain_wp redis key keyConfig local lc op Φ :
  remote_config_ok lc ->
  (forall d r, redis_chain redis key keyConfig local lc op d r -> Φ d r) ->
  wp (remote ← readRemoteWithResolvedConfig redis key lc (readTimeoutFor redis keyConfig);
      finishRedisChain this redis key keyConfig local remote op) Φ.
Proof.
  intros Hlc HΦ. apply wp_bind, readRemote_wp; [done|]. intros d1 remote H1. cbn beta iota.
  eapply wp_mono; [apply finishRedisChain_refines|].
  - destruct remote as [r| |]; simpl in H1; [|done..]. intros config Hc.
    inversion H1; subst; simpl in *; simplify_eq/=; try done. by destruct r0; simplify_eq/=.
  - intros d2 r H2. apply HΦ. by econstructor.
Qed.

Lemma source_only_wp key keyConfig local op labels Φ :
  remote_inactive keyConfig key ->
  (forall d r, behind_local key keyConfig local op d r -> Φ d r) ->
  (forall v, local_publish key v local []) ->
  wp (callFallback this labels op) Φ.
Proof.
  intros Hi HΦ Hp. apply callFallback_wp. intros o r Ho. apply HΦ, bl_source; [done..|]. by destruct r.
Qed.

Lemma rampedDown_wp redis key keyConfig (local : option CacheGetResult) lc labels op Φ :
  dc_redis this = Some redis -> remote_layer_of keyConfig key = RL_RampedDown lc ->
  (forall d r, behind_local key keyConfig (default (CG_Disabled dr_config_error false) local) op d r -> Φ d r) ->
  wp (finishRampedDownRemote this redis key keyConfig local lc labels op) Φ.
Proof.
  intros Hr Hl HΦ. unfold finishRampedDownRemote. apply wp_bind.
  assert (forall (Ψ : list obs -> res (option Q) -> Prop), (forall t, Ψ [] (Ok t)) ->
    wp (if is_undefined (prop (field_of keyConfig kc_shadow) "ramp")
           || is_int (prop (field_of keyConfig kc_shadow) "ramp") 0
        then Ret None else t ← perform EPerfNow; Ret (Some t)) Ψ) as Hs.
  { intros Ψ HΨ. destruct (_ || _); wp_steps; done. }
  apply Hs. intros t. cbn beta iota. wp_steps. apply schedule_wp. intros ds Hds. wp_steps.
  destruct x0. apply callFallback_await_wp. intros o r Ho. destruct r as [v|e]; cbn beta iota.
  - wp_steps. destruct local as [l|]; wp_steps.
    + apply putLocalOnMiss_wp. intros d Hd. wp_steps. rewrite app_nil_r. apply HΦ. by eapply bl_ramped.
    + apply HΦ. by eapply bl_ramped.
  - apply HΦ. by eapply bl_ramped.
Qed.

(** A local layer that is active is read first; a hit ends the invocation. *)
Inductive through_local (key : DialCacheKey) (keyConfig : option DialCacheKeyConfig)
    (lc : ResolvedLayerConfig) (op : operation) : list obs -> res jsval -> Prop :=
| tl_hit v d : local_read key lc d (CG_Hit v) -> through_local key keyConfig lc op d (Ok v)
| tl_behind local d1 d2 r :
    local_read key lc d1 local -> (forall v, local <> CG_Hit v) ->
    behind_local key keyConfig local op d2 r -> through_local key keyConfig lc op (d1 ++ d2) r.

Lemma finishLocalOnly_wp key keyConfig local op :
  dc_redis this = None ->
  wp (finishLocalOnly this key local op) (behind_local key keyConfig local op).
Proof.
  intros Hr. unfold finishLocalOnly. apply wp_bind, callFallback_wp. intros o [v|e] Ho; cbn beta iota;
    [|by apply bl_source; [left|..]].
  wp_steps. apply putLocalOnMiss_wp. intros d Hd. wp_steps. rewrite app_nil_r. by apply bl_source; [left|..].
Qed.

Lemma policyDisabled_wp redis key keyConfig local reason op :
  remote_layer_of keyConfig key = RL_Disabled reason false ->
  wp (finishRedisChain this redis key keyConfig local (RR_Disabled reason false) op)
     (behind_local key keyConfig local op).
Proof.
  intros Hl. eapply wp_mono; [by apply finishRedisChain_refines|]. intros d r Hd.
  inversion Hd; subst; try done; cbn in *; simplify_eq; apply bl_source; eauto; by right; eauto.
Qed.

Lemma behind_local_wp redis key keyConfig local op labels :
  dc_redis this = Some redis ->
  wp (remoteLayer ← resolveRemoteLayerConfig this key keyConfig;
      match remoteLayer with
      | RL_RampedDown config => finishRampedDownRemote this redis key keyConfig (Some local) config labels op
      | RL_Disabled reason skip => finishRedisChain this redis key keyConfig local (RR_Disabled reason skip) op
      | RL_Enabled config =>
          remote ← readRemoteWithResolvedConfig redis key config (readTimeoutFor redis keyConfig);
          finishRedisChain this redis key keyConfig local remote op
      end) (behind_local key keyConfig local op).
Proof.
  intros Er. apply wp_bind, resolveRemoteLayerConfig_wp. cbn beta iota.
  destruct (remote_layer_of keyConfig key) as [c|c|reason skip] eqn:El.
  - assert (remote_config_ok c) as Hc by (apply (remote_layer_config_ok keyConfig key); auto).
    apply redis_chain_wp; [done|]. intros d r Hd. by eapply bl_redis.
  - by apply rampedDown_wp.
  - assert (skip = false) as -> by (revert El; unfold remote_layer_of; by case_match; intros [= <- <-]).
    by apply policyDisabled_wp.
Qed.

Lemma getThroughActiveLocal_refines key keyConfig lc op :
  wp (getThroughActiveLocal this key keyConfig lc op) (through_local key keyConfig lc op).
Proof.
  unfold getThroughActiveLocal. apply wp_bind, readLocal_wp. intros d1 local Hl.
  destruct local as [v|c|reason skip]; cbn beta iota; [apply wp_ret; rewrite app_nil_r; by constructor|..];
    (eapply wp_mono;
       [destruct (dc_redis this) as [redis|] eqn:Er; [by apply behind_local_wp|by apply finishLocalOnly_wp]|]);
    intros d2 r H2; by eapply tl_behind.
Qed.

(** One flight per key: a follower takes the leader's outcome; a leader opens
    the flight, runs, and clears it whatever the outcome. *)
Inductive process_flight_of (key : DialCacheKey) (body : list obs -> res jsval -> Prop) :
    list obs -> res jsval -> Prop :=
| pf_follows f r :
    pf_has_promise f = true ->
    process_flight_of key body
      [Obs (EFlightGet (urn key)) (Some f); Obs (EFlightJoin (pf_id f)) tt; Obs (EAwaitFlight (pf_id f)) r] r
| pf_uninitialized f :
    pf_has_promise f = false ->
    process_flight_of key body [Obs (EFlightGet (urn key)) (Some f)]
      (Err (PlainError "DialCache process flight was joined before initialization"))
| pf_leads t id d r :
    body d r ->
    process_flight_of key body
      (Obs (EFlightGet (urn key)) None :: Obs (EFlightOpen (urn key) t) id :: Obs (EFlightPublish id) tt
         :: d ++ [Obs (EFlightClear (urn key) id) tt]) r.

Lemma singleFlightProcess_wp key run body :
  wp run body -> wp (singleFlightProcess this key run) (process_flight_of key body).
Proof.
  intros Hrun. unfold singleFlightProcess. wp_steps. destruct x as [f|]; wp_steps.
  - destruct (pf_has_promise f) eqn:Ef; wp_steps; [|by constructor].
    destruct x. by constructor.
  - eapply wp_mono; [exact Hrun|]. intros d r Hd. wp_steps. split; [by destruct x2|].
    destruct x1, x2. by constructor.
Qed.

Definition coalesces (keyConfig : option DialCacheKeyConfig) : bool :=
  negb (is_bool (field_of keyConfig kc_coalesce) false).

Definition in_flight (keyConfig : option DialCacheKeyConfig) (key : DialCacheKey)
    (body : list obs -> res jsval -> Prop) : list obs -> res jsval -> Prop :=
  if coalesces keyConfig then process_flight_of key body else body.

(** The local layer is not active for this key. *)
Definition local_inactive (keyConfig : option DialCacheKeyConfig) (key : DialCacheKey) : Prop :=
  forall lc, resolveLayerConfigResult keyConfig key LOCAL <> Enabled lc.

(** The shared layers: through the local layer, or past it when it is not
    active.  Work that reads a cache runs in one flight per key unless policy
    disables coalescing; work that only calls the source does not. *)
Inductive shared_layers (key : DialCacheKey) (keyConfig : option DialCacheKeyConfig) (op : operation) :
    list obs -> res jsval -> Prop :=
| sl_local lc d r :
    resolveLayerConfigResult keyConfig key LOCAL = Enabled lc ->
    in_flight keyConfig key (through_local key keyConfig lc op) d r ->
    shared_layers key keyConfig op d r
| sl_redis redis reason lc d r :
    local_inactive keyConfig key ->
    dc_redis this = Some redis -> remote_layer_of keyConfig key = RL_Enabled lc -> remote_config_ok lc ->
    in_flight keyConfig key (redis_chain redis key keyConfig (CG_Disabled reason false) lc op) d r ->
    shared_layers key keyConfig op d r
| sl_source reason d r :
    local_inactive keyConfig key ->
    (forall redis lc, dc_redis this = Some redis -> remote_layer_of keyConfig key <> RL_Enabled lc) ->
    behind_local key keyConfig (CG_Disabled reason false) op d r ->
    shared_layers key keyConfig op d r.

Lemma in_flight_wp key keyConfig run body :
  wp run body ->
  wp (if negb (is_bool (field_of keyConfig kc_coalesce) false) then singleFlightProcess this key run else run)
     (in_flight keyConfig key body).
Proof.
  intros Hrun. unfold in_flight, coalesces. destruct (negb _); [by apply singleFlightProcess_wp|done].
Qed.

(** The part of [getThroughSharedLayers] behind an inactive local layer. *)
Lemma inactive_local_wp key keyConfig op layer reason :
  local_inactive keyConfig key ->
  wp match dc_redis this with
     | None => callFallback this (labelsFor key layer) op
     | Some redis =>
         remoteLayer ← resolveRemoteLayerConfig this key keyConfig;
         match remoteLayer with
         | RL_RampedDown config =>
             finishRampedDownRemote this redis key keyConfig None config (labelsFor key layer) op
         | RL_Disabled reason _ =>
             let layer := match reason with dr_config_error => Layer REMOTE | _ => layer end in
             callFallback this (labelsFor key layer) op
         | RL_Enabled config =>
             let local := CG_Disabled reason false in
             let run :=
               remote ← readRemoteWithResolvedConfig redis key config (readTimeoutFor redis keyConfig);
               finishRedisChain this redis key keyConfig local remote op in
             if negb (is_bool (field_of keyConfig kc_coalesce) false) then singleFlightProcess this key run else run
         end
     end (shared_layers key keyConfig op).
Proof.
  intros Hloc. destruct (dc_redis this) as [redis|] eqn:Er.
  - apply wp_bind, resolveRemoteLayerConfig_wp. cbn beta iota.
    destruct (remote_layer_of keyConfig key) as [c|c|why skip] eqn:El; cbv zeta.
    + assert (remote_config_ok c) as Hc by (apply (remote_layer_config_ok keyConfig key); auto).
      eapply wp_mono; [by apply in_flight_wp, redis_chain_wp; [|eauto]|].
      intros d r Hd. by eapply sl_redis.
    + apply rampedDown_wp; [done..|]. intros d r Hd. eapply sl_source; [done|congruence|exact Hd].
    + assert (skip = false) as -> by (revert El; unfold remote_layer_of; by case_match; intros [= <- <-]).
      apply source_only_wp with (keyConfig := keyConfig) (key := key) (local := CG_Disabled reason false); [by right; eauto| |done].
      intros d r Hd. eapply sl_source; [done|congruence|exact Hd].
  - apply source_only_wp with (keyConfig := keyConfig) (key := key) (local := CG_Disabled reason false); [by left| |done].
    intros d r Hd. eapply sl_source; [done|congruence|exact Hd].
Qed.

Lemma getThroughSharedLayers_refines key keyConfig op layer :
  wp (getThroughSharedLayers this key keyConfig op layer) (shared_layers key keyConfig op).
Proof.
  unfold getThroughSharedLayers. cbv zeta. apply wp_bind, resolveLocalLayerConfig_wp. cbn beta iota.
  destruct (resolveLayerConfigResult keyConfig key LOCAL) as [lc|lc|reason] eqn:El.
  - eapply wp_mono; [apply in_flight_wp, getThroughActiveLocal_refines|]. intros d r Hd. by eapply sl_local.
  - apply inactive_local_wp. intros c. by rewrite El.
  - apply inactive_local_wp. intros c. by rewrite El.
Qed.

(** ** Request-local memoization *)

Inductive request_body (cache : nat) (key : DialCacheKey) (keyConfig : DialCacheKeyConfig) (op : operation) :
    list obs -> res jsval -> Prop :=
| rb_hit v : request_body cache key keyConfig op [Obs (ERequestLocalRead cache (urn key)) (Some v)] (Ok v)
| rb_loaded d v :
    shared_layers key (Some keyConfig) op d (Ok v) ->
    request_body cache key keyConfig op
      (Obs (ERequestLocalRead cache (urn key)) None :: d ++ [Obs (ERequestLocalSet cache (urn key) v) tt]) (Ok v)
| rb_failed d e :
    shared_layers key (Some keyConfig) op d (Err e) ->
    request_body cache key keyConfig op (Obs (ERequestLocalRead cache (urn key)) None :: d) (Err e).

Inductive request_local (cache : nat) (key : DialCacheKey) (keyConfig : DialCacheKeyConfig) (op : operation) :
    list obs -> res jsval -> Prop :=
| rl_direct d r :
    is_bool (kc_coalesce keyConfig) false = true -> request_body cache key keyConfig op d r ->
    request_local cache key keyConfig op d r
| rl_follows f r :
    is_bool (kc_coalesce keyConfig) false = false ->
    request_local cache key keyConfig op
      [Obs (ERequestFlightGet cache (urn key)) (Some f); Obs (EAwaitFlight f) r] r
| rl_leads f d r :
    is_bool (kc_coalesce keyConfig) false = false -> request_body cache key keyConfig op d r ->
    request_local cache key keyConfig op
      (Obs (ERequestFlightGet cache (urn key)) None :: Obs (ERequestFlightSet cache (urn key)) f
         :: d ++ [Obs (ERequestFlightClear cache (urn key) f) tt]) r.

Lemma getThroughRequestLocal_refines cache key keyConfig op :
  wp (getThroughRequestLocal this cache key keyConfig op) (request_local cache key keyConfig op).
Proof.
  unfold getThroughRequestLocal. cbv zeta.
  match goal with |- wp (if _ then ?run else _) _ => assert (wp run (request_body cache key keyConfig op)) as Hrun end.
  { wp_steps. destruct x0 as [v|]; wp_steps; [by constructor|].
    eapply wp_mono; [apply getThroughSharedLayers_refines|]. intros d [v|e] Hd; cbn beta iota; [|by constructor].
    wp_steps. destruct x0. by constructor. }
  revert Hrun. match goal with |- wp ?run _ -> _ => generalize run end. intros run Hrun.
  destruct (is_bool _ _) eqn:Ec.
  - eapply wp_mono; [exact Hrun|]. intros d r Hd. by apply rl_direct.
  - unfold singleFlightRequestLocal. wp_steps. destruct x as [f|]; wp_steps; [by constructor|].
    eapply wp_mono; [exact Hrun|]. intros d r Hd. wp_steps. destruct x0. split; [done|]. by constructor.
Qed.

(** ** The operation *)

(** Whether policy asks for request-local memoization. *)
Definition wants_request_local (keyConfig : option DialCacheKeyConfig) : bool :=
  match keyConfig with Some config => is_bool (kc_requestLocal config) true | None => false end.

(** Everything an invocation may do, from the outside in. *)
Inductive operation_run (op : operation) : list obs -> res jsval -> Prop :=
| or_disabled r :
    operation_run op [Obs EIsEnabled false; Obs ELoadStart tt; Obs ELoadAwait r] r
| or_no_key spec o r :
    (forall s, spec = Ok s -> exists e, buildKey nts (dc_namespace this) (op_options op) s (op_defaultConfig op) = Err e) ->
    source_settles op o r ->
    operation_run op [Obs EIsEnabled true; Obs ESelectKey spec; Obs ELoadStart tt; o] r
| or_no_config s key provided o r :
    buildKey nts (dc_namespace this) (op_options op) s (op_defaultConfig op) = Ok key ->
    (forall c, provided = Ok c -> exists e, fetchKeyConfig key c = Err e) ->
    source_settles op o r ->
    operation_run op [Obs EIsEnabled true; Obs ESelectKey (Ok s); Obs (EConfigProvider key) provided;
                      Obs ELoadStart tt; o] r
| or_closed s key c keyConfig o r :
    buildKey nts (dc_namespace this) (op_options op) s (op_defaultConfig op) = Ok key ->
    fetchKeyConfig key c = Ok keyConfig -> source_settles op o r ->
    operation_run op [Obs EIsEnabled true; Obs ESelectKey (Ok s); Obs (EConfigProvider key) (Ok c);
                      Obs EIsEnabled false; Obs ELoadStart tt; o] r
| or_shared s key c keyConfig dq d r :
    buildKey nts (dc_namespace this) (op_options op) s (op_defaultConfig op) = Ok key ->
    fetchKeyConfig key c = Ok keyConfig ->
    dq = (if wants_request_local keyConfig then [Obs ERequestLocalCache None] else []) ->
    shared_layers key keyConfig op d r ->
    operation_run op (Obs EIsEnabled true :: Obs ESelectKey (Ok s) :: Obs (EConfigProvider key) (Ok c)
                      :: Obs EIsEnabled true :: dq ++ d) r
| or_request_local s key c keyConfig cache d r :
    buildKey nts (dc_namespace this) (op_options op) s (op_defaultConfig op) = Ok key ->
    fetchKeyConfig key c = Ok (Some keyConfig) -> is_bool (kc_requestLocal keyConfig) true = true ->
    request_local cache key keyConfig op d r ->
    operation_run op (Obs EIsEnabled true :: Obs ESelectKey (Ok s) :: Obs (EConfigProvider key) (Ok c)
                      :: Obs EIsEnabled true :: Obs ERequestLocalCache (Some cache) :: d) r.

(** What an invocation does once its key and policy are known. *)
Lemma resolved_wp op s key c keyConfig :
  buildKey nts (dc_namespace this) (op_options op) s (op_defaultConfig op) = Ok key ->
  fetchKeyConfig key c = Ok keyConfig ->
  wp match keyConfig with
     | Some config =>
         if is_bool (kc_requestLocal config) true then
           cache ← perform ERequestLocalCache;
           match cache with
           | Some c => getThroughRequestLocal this c key config op
           | None => getThroughSharedLayers this key keyConfig op (Layer LOCAL)
           end
         else getThroughSharedLayers this key keyConfig op (Layer LOCAL)
     | None => getThroughSharedLayers this key keyConfig op (Layer LOCAL)
     end
     (fun d r => operation_run op (Obs EIsEnabled true :: Obs ESelectKey (Ok s)
        :: Obs (EConfigProvider key) (Ok c) :: Obs EIsEnabled true :: d) r).
Proof.
  intros Hk Hf.
  assert (wp (getThroughSharedLayers this key keyConfig op (Layer LOCAL))
     (fun d r => operation_run op (Obs EIsEnabled true :: Obs ESelectKey (Ok s)
        :: Obs (EConfigProvider key) (Ok c) :: Obs EIsEnabled true
        :: (if wants_request_local keyConfig then [Obs ERequestLocalCache None] else []) ++ d) r)) as Hshared.
  { eapply wp_mono; [apply getThroughSharedLayers_refines|]. intros d r Hd. by eapply or_shared. }
  revert Hshared. destruct keyConfig as [config|]; [|done]. cbn [wants_request_local].
  destruct (is_bool _ _) eqn:Eb; [|done].
  intros Hshared. wp_steps. destruct x as [cache|]; [|exact Hshared].
  eapply wp_mono; [apply getThroughRequestLocal_refines|]. intros d r Hd. by eapply or_request_local.
Qed.

Lemma executeCacheOperation_refines op : wp (executeCacheOperation nts this op) (operation_run op).
Proof.
  unfold executeCacheOperation. wp_steps. destruct x; wp_steps;
    [|destruct x; by constructor].
  destruct x as [s|e]; wp_steps.
  2: { apply callFallback_wp. intros o r Ho. by apply or_no_key. }
  destruct (buildKey nts (dc_namespace this) (op_options op) s (op_defaultConfig op)) as [key|e] eqn:Ek; wp_steps.
  2: { apply callFallback_wp. intros o r Ho. apply or_no_key; [|done]. intros s' [= <-]. eauto. }
  destruct x as [c|e]; wp_steps.
  2: { apply callFallback_wp. intros o r Ho. by apply (or_no_config op s key (Err e)). }
  destruct (fetchKeyConfig key c) as [keyConfig|e] eqn:Ef; wp_steps.
  2: { apply callFallback_wp. intros o r Ho. apply (or_no_config op s key (Ok c)); [done| |done]. intros c' [= <-]. eauto. }
  destruct x; wp_steps; [by apply resolved_wp|].
  apply callFallback_wp. intros o r Ho. by eapply or_closed.
Qed.
End spec.
