(* ===== verification/Chain.v ===== *)
(** * Properties of an invocation

    Consequences of the refinement of [CoreSpec.v], stated over the runs of
    [executeCacheOperation] and [invalidateRemote]: what can make an
    invocation fail, where a returned value comes from, how often the source
    is called, what is published where, and how old a served value may be. *)

From S2P Require Import Prelude JsValue Duration Utf8 Config Key Ramp Metrics RuntimeConfig Frame Compression Effects RedisCache Core Scenario CoreSpec.

(** ** Classifying events *)

Inductive kind :=
| KControl | KSource | KSettle | KLocalGet | KLocalSet | KRead | KWrite | KClock | KDump | KLoad
| KShadow | KPredicate | KFlight | KAwait | KRequest | KOther.

#[export] Instance kind_eq_dec : EqDecision kind.
Proof. solve_decision. Defined.

Definition ekind (e : ev) : kind :=
  match e with
  | EIsEnabled | ESelectKey | EConfigProvider _ => KControl
  | ELoadStart => KSource
  | ELoadAwait | ELoadAwaitDeadline _ => KSettle
  | ELocalGet _ => KLocalGet
  | ELocalSet _ _ _ => KLocalSet
  | EClientRead _ => KRead
  | EClientWrite _ => KWrite
  | EDateNow => KClock
  | EDump _ _ => KDump
  | ELoadPayload _ _ => KLoad
  | EShadowHas _ | EShadowSize | EShadowAdd _ | EDeferShadow _ => KShadow
  | EStalePredicate _ => KPredicate
  | EFlightGet _ | EFlightOpen _ _ | EFlightPublish _ | EFlightJoin _ | EFlightClear _ _
  | ERequestFlightGet _ _ | ERequestFlightSet _ _ | ERequestFlightClear _ _ _ => KFlight
  | EAwaitFlight _ => KAwait
  | ERequestLocalCache | ERequestLocalRead _ _ | ERequestLocalSet _ _ _ => KRequest
  | _ => KOther
  end.

Definition okind (o : obs) : kind := ekind (obs_event o).

(** Only events of these kinds occur. *)
Definition only (ks : list kind) (d : list obs) : Prop := Forall (fun o => okind o ∈ ks) d.

(** An event of this kind occurs. *)
Definition occurs (k : kind) (d : list obs) : Prop := Exists (fun o => okind o = k) d.

Fixpoint count (k : kind) (d : list obs) : nat :=
  match d with
  | [] => 0
  | o :: d' => (if decide (okind o = k) then 1 else 0) + count k d'
  end.

Lemma only_app ks d1 d2 : only ks (d1 ++ d2) <-> only ks d1 /\ only ks d2.
Proof. apply Forall_app. Qed.

Lemma only_weaken ks ks' d : only ks d -> (forall k, k ∈ ks -> k ∈ ks') -> only ks' d.
Proof. intros Hd Hk. eapply Forall_impl; [|exact Hd]. auto. Qed.

Lemma occurs_app k d1 d2 : occurs k (d1 ++ d2) <-> occurs k d1 \/ occurs k d2.
Proof. apply Exists_app. Qed.

Lemma occurs_cons k o d : occurs k (o :: d) <-> okind o = k \/ occurs k d.
Proof. apply Exists_cons. Qed.

Lemma only_not_occurs ks k d : only ks d -> (k ∉ ks) -> ~ occurs k d.
Proof.
  intros Hd Hk Ho. apply list.Exists_exists in Ho as (o & Hin & <-).
  apply Hk. by apply (proj1 (list.Forall_forall _ _) Hd).
Qed.

Lemma count_app k d1 d2 : count k (d1 ++ d2) = (count k d1 + count k d2)%nat.
Proof. induction d1 as [|o d1 IH]; simpl; [done|]. rewrite IH. lia. Qed.

Lemma only_count ks k d : only ks d -> (k ∉ ks) -> count k d = 0%nat.
Proof. intros Hd Hk. induction Hd as [|o d Ho _ IH]; simpl; [done|]. rewrite IH. by case_decide; subst. Qed.

(** ** The kinds of events of each step *)

Section kinds.
  Context `{Zstd} (nts : number -> jsstr) (this : DialCache).

Ltac solve_only := repeat constructor; set_solver.

Lemma source_settles_kind op o r : source_settles op o r -> okind o = KSettle.
Proof. by destruct 1. Qed.

Lemma local_publish_only key v local d : local_publish this key v local d -> only [KLocalSet] d.
Proof.
  unfold local_publish. repeat case_match; intros; destruct_and?; naive_solver (solve_only).
Qed.

Lemma local_read_only key lc d r : local_read this key lc d r -> only [KLocalGet] d.
Proof. destruct 1; solve_only. Qed.

Lemma shadow_schedule_only key keyConfig start t t' d : shadow_schedule this key keyConfig start t t' d -> only [KShadow] d.
Proof. destruct 1; solve_only. Qed.

Lemma remote_read_only redis key lc t d r : remote_read redis key lc t d r -> only [KRead; KClock; KLoad] d.
Proof. destruct 1; solve_only. Qed.

Lemma chain_read_only redis key lc t d r : chain_read redis key lc t d r -> only [KRead; KClock; KLoad] d.
Proof. destruct r; simpl; [|done|intros [e ?]]; eauto using remote_read_only. Qed.

Lemma recovery_only redis key m f d r : recovery redis key m f d r -> only [KClock; KLoad] d.
Proof. destruct 1; solve_only. Qed.

Lemma predicate_only op e d b : predicate_says op e d b -> only [KPredicate] d.
Proof. destruct 1; solve_only. Qed.

Lemma cleared_only w d t : cleared w d t -> only [KClock] d.
Proof. destruct 1; solve_only. Qed.

Lemma stopped_only w d r : stopped w d r -> only [KClock] d.
Proof. destruct 1; solve_only. Qed.

Lemma remote_put_only redis key v ttl fence d r :
  remote_put redis key v ttl fence always d r -> only [KClock; KDump; KWrite] d.
Proof.
  assert (forall w d' t, cleared w d' t -> only [KClock; KDump; KWrite] d') as Hc.
  { intros w d' t Hd. eapply only_weaken; [by eapply cleared_only|]. set_solver. }
  assert (forall w d' t, stopped w d' t -> only [KClock; KDump; KWrite] d') as Hs.
  { intros w d' t Hd. eapply only_weaken; [by eapply stopped_only|]. set_solver. }
  destruct 1 as [d1 r1 Hd|pre t e Hp|pre t p e Hp _|pre t p st chk r1 Hp _ [-> _] _
    |pre t p st chk d1 r1 Hp _ [-> _] Hd|pre t p st chk post stamp r1 Hp _ [-> _] Hd]; [by eauto|..];
    (apply only_app; split; [by eauto|]); constructor; try set_solver; simpl; try by (constructor || eauto).
  apply only_app; split; [by eauto|]. solve_only.
Qed.

Lemma refill_only redis key v remote d : refill redis key v remote d -> only [KClock; KDump; KWrite] d.
Proof. unfold refill. case_match; [intros [? Hr]; by eapply remote_put_only|intros ->; constructor]. Qed.

(** ** Explaining an outcome *)

(** The events that justify an outcome: the source settled with it, a flight
    this invocation joined settled with it, or it is a value found in the
    request-local, the local or (deserialized) the Redis layer. *)
Definition explains (op : operation) (r : res jsval) (o : obs) : Prop :=
  match o with
  | Obs ELoadAwait x => x = r
  | Obs (ELoadAwaitDeadline t) s =>
      match s with
      | Settles x => x = r
      | DeadlineExpired => r = Err (FallbackTimeoutError (opt_useCase (op_options op)) t)
      end
  | Obs (EAwaitFlight _) x => x = r
  | Obs (ERequestLocalRead _ _) (Some v) => r = Ok v
  | Obs (ELocalGet _) (Ok (Some v)) => r = Ok v
  | Obs (ELoadPayload _ _) (Ok v) => r = Ok v
  | _ => False
  end.

Definition explained (op : operation) (r : res jsval) (d : list obs) : Prop := Exists (explains op r) d.

(** A flight found in the table has its promise. *)
Definition initialized (o : obs) : Prop :=
  match o with Obs (EFlightGet _) (Some f) => pf_has_promise f = true | _ => True end.

Lemma explained_app op r d1 d2 : explained op r (d1 ++ d2) <-> explained op r d1 \/ explained op r d2.
Proof. apply Exists_app. Qed.

Lemma explained_cons op r o d : explained op r d -> explained op r (o :: d).
Proof. by right. Qed.

Lemma source_explains op o r d : source_settles op o r -> explained op r (o :: d).
Proof. left. by destruct H0. Qed.

Lemma chain_hit_explains op redis key lc t d v f :
  chain_read redis key lc t d (RR_Redis (RG_Hit v f)) -> explained op (Ok v) d.
Proof.
  simpl. intros Hd. inversion Hd; subst. destruct r; simplify_eq. do 2 right. by left.
Qed.

Lemma recovery_explains op redis key m f d v : recovery redis key m f d (Some v) -> explained op (Ok v) d.
Proof. intros Hd. inversion Hd; subst. right. by left. Qed.

Lemma redis_chain_explained redis key keyConfig local lc op d r :
  redis_chain this redis key keyConfig local lc op d r -> explained op r d.
Proof.
  destruct 1 as [remote d1 d2 r Hr Hf]. apply explained_app. destruct Hf as [v f d d' -> _ _| | | |e o dp dr m found].
  - left. by eapply chain_hit_explains.
  - right. by apply explained_cons, source_explains.
  - right. by apply explained_cons, source_explains.
  - right. by apply explained_cons, source_explains.
  - right. destruct found; [|by apply explained_cons, source_explains].
    do 2 apply explained_cons. apply explained_app. right. by eapply recovery_explains.
Qed.

Lemma behind_local_explained key keyConfig local op d r :
  behind_local this key keyConfig local op d r -> explained op r d.
Proof.
  destruct 1.
  - by apply explained_cons, source_explains.
  - apply explained_cons, explained_app. right. by apply source_explains.
  - by eapply redis_chain_explained.
Qed.

Lemma through_local_explained key keyConfig lc op d r :
  through_local this key keyConfig lc op d r -> explained op r d.
Proof.
  destruct 1 as [v d Hd|].
  - inversion Hd; subst. by left.
  - apply explained_app. right. by eapply behind_local_explained.
Qed.

Lemma in_flight_explained op keyConfig key (body : list obs -> res jsval -> Prop) d r :
  (forall d r, body d r -> explained op r d) -> Forall initialized d ->
  in_flight keyConfig key body d r -> explained op r d.
Proof.
  unfold in_flight. intros Hb Hi. destruct (coalesces keyConfig); [|by apply Hb].
  destruct 1 as [f r Hf|f Hf|t id d r Hd].
  - do 2 right. by left.
  - apply Forall_cons_1 in Hi as [Hi _]. simpl in Hi. congruence.
  - do 3 right. apply explained_app. left. by apply Hb.
Qed.

Lemma shared_layers_explained key keyConfig op d r :
  Forall initialized d -> shared_layers this key keyConfig op d r -> explained op r d.
Proof.
  intros Hi. destruct 1.
  - eapply in_flight_explained; [|done|done]. intros; by eapply through_local_explained.
  - eapply in_flight_explained; [|done|done]. intros; by eapply redis_chain_explained.
  - by eapply behind_local_explained.
Qed.

Lemma request_body_explained cache key keyConfig op d r :
  Forall initialized d -> request_body this cache key keyConfig op d r -> explained op r d.
Proof.
  intros Hi. destruct 1; [by left|..]; apply Forall_cons_1 in Hi as [_ Hi]; apply explained_cons.
  - apply Forall_app in Hi as [Hi _]. apply explained_app. left. by eapply shared_layers_explained.
  - by eapply shared_layers_explained.
Qed.

Lemma request_local_explained cache key keyConfig op d r :
  Forall initialized d -> request_local this cache key keyConfig op d r -> explained op r d.
Proof.
  intros Hi. destruct 1.
  - by eapply request_body_explained.
  - right. by left.
  - do 2 apply Forall_cons_1 in Hi as [_ Hi]. apply Forall_app in Hi as [Hi _].
    do 2 right. apply explained_app. left. by eapply request_body_explained.
Qed.

Lemma operation_explained op d r :
  Forall initialized d -> operation_run nts this op d r -> explained op r d.
Proof.
  intros Hi. destruct 1 as [r| | | |s key c keyConfig dq d r _ _ _ Hd|s key c keyConfig cache d r _ _ _ Hd].
  - do 2 right. by left.
  - do 3 right. left. by destruct H1.
  - do 4 right. left. by destruct H2.
  - do 5 right. left. by destruct H2.
  - do 4 apply Forall_cons_1 in Hi as [_ Hi]. apply Forall_app in Hi as [_ Hi].
    do 4 right. apply explained_app. right. by eapply shared_layers_explained.
  - do 5 apply Forall_cons_1 in Hi as [_ Hi]. do 5 right. by eapply request_local_explained.
Qed.

(** ** What happens behind the local layer *)

Definition behind_kinds : list kind :=
  [KSource; KSettle; KShadow; KLocalSet; KRead; KClock; KLoad; KDump; KWrite; KPredicate].

Lemma behind_weaken ks d : only ks d -> bool_decide (Forall (.∈ behind_kinds) ks) = true -> only behind_kinds d.
Proof.
  intros Hd Hk%bool_decide_eq_true. eapply only_weaken; [exact Hd|]. intros k Hin.
  by apply (proj1 (list.Forall_forall _ _) Hk).
Qed.

(** Shows that a piece of a trace has only kinds that occur behind the local
    layer, from the lemma that bounds its kinds. *)
Ltac behind := first [by apply Forall_nil|eapply behind_weaken; [by eauto using local_publish_only, shadow_schedule_only, refill_only,
  predicate_only, recovery_only, chain_read_only|reflexivity]].

Lemma source_only_kinds op o r d : source_settles op o r -> only behind_kinds d -> only behind_kinds (o :: d).
Proof. intros Ho%source_settles_kind Hd. constructor; [|done]. rewrite Ho. set_solver. Qed.

Lemma finish_chain_kinds redis key keyConfig local remote op d r :
  finish_chain this redis key keyConfig local remote op d r -> only behind_kinds d.
Proof.
  assert (forall d, only behind_kinds d -> only behind_kinds (Obs ELoadStart tt :: d)) as Hs.
  { intros d' Hd. constructor; [set_solver|done]. }
  destruct 1 as [v f d1 d2 _ H1 H2|v o d1 d2 _ Ho H1 H2|e o _ Ho|e o dp m _ Ho _ Hp|e o dp dr m found _ Ho _ Hp Hr].
  - apply only_app. split; behind.
  - apply Hs. eapply source_only_kinds; [done|]. apply only_app. split; [behind|].
    destruct (withhold_local key remote); [subst|]; behind.
  - apply Hs. eapply source_only_kinds; [done|]. behind.
  - apply Hs. eapply source_only_kinds; [done|]. behind.
  - apply Hs. eapply source_only_kinds; [done|]. apply only_app. split; behind.
Qed.

Lemma redis_chain_kinds redis key keyConfig local lc op d r :
  redis_chain this redis key keyConfig local lc op d r -> only behind_kinds d.
Proof. destruct 1. apply only_app. split; [behind|by eapply finish_chain_kinds]. Qed.

Lemma behind_local_kinds key keyConfig local op d r :
  behind_local this key keyConfig local op d r -> only behind_kinds d.
Proof.
  assert (forall v d, local_publish this key v local d -> only behind_kinds d) as Hp by (intros; behind).
  destruct 1 as [o r d _ Ho Hd|redis lc t ds o r d _ _ Hs Ho Hd|redis lc d r _ _ _ Hd].
  - constructor; [set_solver|]. eapply source_only_kinds; [done|]. destruct r; [eauto|subst; constructor].
  - constructor; [set_solver|]. apply only_app. split; [behind|]. eapply source_only_kinds; [done|].
    destruct r; [eauto|subst; constructor].
  - by eapply redis_chain_kinds.
Qed.

(** ** How often each effect happens *)

Lemma count_only ks d k : only ks d -> bool_decide (k ∈ ks) = false -> count k d = 0%nat.
Proof. intros Hd Hk%bool_decide_eq_false. by eapply only_count. Qed.

(** A piece of a trace has no event of kind [k], from the lemma that bounds
    its kinds. *)
Ltac count0 := eapply count_only; [by eauto using local_publish_only, shadow_schedule_only, refill_only,
  predicate_only, recovery_only, chain_read_only, cleared_only, stopped_only|reflexivity].

Lemma finish_chain_count redis key keyConfig local remote op d r :
  finish_chain this redis key keyConfig local remote op d r ->
  count KSource d = if is_hit remote then 0%nat else 1%nat.
Proof.
  destruct 1 as [v f d1 d2 -> H1 H2|v o d1 d2 -> Ho H1 H2|e o -> Ho|e o dp m -> Ho _ Hp|e o dp dr m found -> Ho _ Hp Hr].
  - rewrite count_app. simpl. rewrite (count_only [KLocalSet] d1), (count_only [KShadow] d2); eauto using local_publish_only, shadow_schedule_only.
  - simpl. rewrite (source_settles_kind _ _ _ Ho). simpl. rewrite count_app.
    rewrite (count_only [KClock; KDump; KWrite] d1); eauto using refill_only.
    destruct (withhold_local key remote); [by subst|]. rewrite (count_only [KLocalSet] d2); eauto using local_publish_only.
  - simpl. by rewrite (source_settles_kind _ _ _ Ho).
  - simpl. rewrite (source_settles_kind _ _ _ Ho). simpl. rewrite (count_only [KPredicate] dp); eauto using predicate_only.
  - simpl. rewrite (source_settles_kind _ _ _ Ho). simpl. rewrite count_app.
    rewrite (count_only [KPredicate] dp), (count_only [KClock; KLoad] dr); eauto using predicate_only, recovery_only.
Qed.

(** ** Inside and outside *)

(** The events of an invocation outside the layers behind the local one. *)
Definition outer_kinds : list kind := [KControl; KLocalGet; KFlight; KAwait; KRequest].

(** What the layers behind the local one do in an invocation: nothing (a hit
    or a joined flight), an uncached source call, or the chain of a key built
    from the selector's answer under the policy resolved for it, both of which
    are events of the whole trace [all]. *)
Inductive core (op : operation) (all : list obs) : list obs -> res jsval -> Prop :=
| core_none r : core op all [] r
| core_uncached o r :
    source_settles op o r \/ o = Obs ELoadAwait r -> core op all [Obs ELoadStart tt; o] r
| core_chain s key c keyConfig local d r :
    Obs ESelectKey (Ok s) ∈ all ->
    buildKey nts (dc_namespace this) (op_options op) s (op_defaultConfig op) = Ok key ->
    Obs (EConfigProvider key) (Ok c) ∈ all -> fetchKeyConfig key c = Ok keyConfig ->
    behind_local this key keyConfig local op d r -> core op all d r.

(** A trace is an inner part [mid] between outer events. *)
Definition around (op : operation) (P : list obs -> res jsval -> Prop) (d : list obs) (r : res jsval) : Prop :=
  exists pre mid post, d = pre ++ mid ++ post /\ only outer_kinds pre /\ only outer_kinds post /\ P mid r.

Lemma around_cons op P o d r : okind o ∈ outer_kinds -> around op P d r -> around op P (o :: d) r.
Proof.
  intros Ho (pre & mid & post & -> & H1 & H2 & H3). exists (o :: pre), mid, post. repeat split; try done.
  by constructor.
Qed.

Lemma around_snoc op P o d r : okind o ∈ outer_kinds -> around op P d r -> around op P (d ++ [o]) r.
Proof.
  intros Ho (pre & mid & post & -> & H1 & H2 & H3). exists pre, mid, (post ++ [o]).
  rewrite !app_assoc. repeat split; try done. apply only_app. split; [done|]. by constructor; [done|constructor].
Qed.

Lemma around_inner op (P : list obs -> res jsval -> Prop) d r : P d r -> around op P d r.
Proof. exists [], d, []. rewrite app_nil_r. repeat split; try constructor. done. Qed.

Lemma around_outer op all d r : only outer_kinds d -> around op (core op all) d r.
Proof. exists d, [], []. rewrite app_nil_r. repeat split; try constructor. done. Qed.

Ltac outer := first [apply around_cons; [set_solver|]|apply around_snoc; [set_solver|]].

Section key.
  Context (op : operation) (s : CacheKeySpec) (key : DialCacheKey) (c : jsval) (keyConfig : option DialCacheKeyConfig).
  Context (all : list obs) (Hsel : Obs ESelectKey (Ok s) ∈ all) (Hprov : Obs (EConfigProvider key) (Ok c) ∈ all).
  Context (Hkey : buildKey nts (dc_namespace this) (op_options op) s (op_defaultConfig op) = Ok key).
  Context (Hconfig : fetchKeyConfig key c = Ok keyConfig).

Lemma behind_local_core local d r : behind_local this key keyConfig local op d r -> around op (core op all) d r.
Proof. intros Hd. apply around_inner. by apply (core_chain op all s key c keyConfig local). Qed.

Lemma through_local_core lc d r : through_local this key keyConfig lc op d r -> around op (core op all) d r.
Proof.
  destruct 1 as [v d Hd|local d1 d2 r H1 _ H2].
  - apply around_outer. eapply only_weaken; [by eapply local_read_only|set_solver].
  - apply local_read_only in H1. induction H1 as [|o d1 Ho _ IH]; simpl; [by eapply behind_local_core|].
    apply around_cons; [set_solver|done].
Qed.

Lemma in_flight_core (body : list obs -> res jsval -> Prop) d r :
  (forall d r, body d r -> around op (core op all) d r) -> in_flight keyConfig key body d r -> around op (core op all) d r.
Proof.
  unfold in_flight. intros Hb. destruct (coalesces keyConfig); [|by apply Hb].
  destruct 1 as [f r Hf|f Hf|t id d r Hd].
  - apply around_outer. repeat constructor; set_solver.
  - apply around_outer. repeat constructor; set_solver.
  - do 3 outer. outer. by apply Hb.
Qed.

Lemma shared_layers_core d r : shared_layers this key keyConfig op d r -> around op (core op all) d r.
Proof.
  destruct 1 as [lc d r _ Hd|redis reason lc d r _ Hr Hl Hok Hd|reason d r _ _ Hd].
  - eapply in_flight_core; [|done]. eauto using through_local_core.
  - eapply in_flight_core; [|done]. intros d' r' Hc. eapply behind_local_core. by eapply bl_redis.
  - by eapply behind_local_core.
Qed.
End key.

Lemma request_local_core op s key c keyConfig cache all d r :
  Obs ESelectKey (Ok s) ∈ all -> Obs (EConfigProvider key) (Ok c) ∈ all ->
  buildKey nts (dc_namespace this) (op_options op) s (op_defaultConfig op) = Ok key ->
  fetchKeyConfig key c = Ok (Some keyConfig) ->
  request_local this cache key keyConfig op d r -> around op (core op all) d r.
Proof.
  intros Hsel Hprov Hk Hf.
  assert (forall d r, request_body this cache key keyConfig op d r -> around op (core op all) d r) as Hb.
  { destruct 1; [apply around_outer; repeat constructor; set_solver|..]; repeat outer; by eapply shared_layers_core. }
  destruct 1; eauto.
  - apply around_outer. repeat constructor; set_solver.
  - do 2 outer. outer. eauto.
Qed.

(** Every invocation is outer events around its core. *)
Lemma operation_core op d r : operation_run nts this op d r -> around op (core op d) d r.
Proof.
  destruct 1 as [r|spec o r _ Ho|s key c o r _ _ Ho|s key c kc o r _ _ Ho|s key c kc dq d r Hk Hf Hq Hd|s key c kc cache d r Hk Hf _ Hd].
  - outer. apply around_inner, core_uncached. by right.
  - do 2 outer. apply around_inner, core_uncached. by left.
  - do 3 outer. apply around_inner, core_uncached. by left.
  - do 4 outer. apply around_inner, core_uncached. by left.
  - do 4 outer. subst dq. destruct (wants_request_local kc); simpl; [outer|];
      (eapply shared_layers_core with (s := s) (c := c) (key := key); [set_solver|set_solver|done..]).
  - do 5 outer. eapply request_local_core with (s := s) (c := c) (key := key); [set_solver|set_solver|done..].
Qed.

(** The effects an invocation may have at most once. *)
Definition once_kinds : list kind := [KSource; KRead; KWrite; KLocalSet].

Lemma local_publish_once k key v local d : local_publish this key v local d -> (count k d <= 1)%nat.
Proof.
  unfold local_publish. intros Hd. assert (d = [] \/ exists o, d = [o]) as [->|[o ->]]; [|simpl; lia|simpl; case_decide; lia].
  repeat case_match; naive_solver.
Qed.

Lemma count_cons_ne k o d : okind o <> k -> count k (o :: d) = count k d.
Proof. intros Ho. simpl. by rewrite decide_False. Qed.

Lemma refill_once redis key v remote d : refill redis key v remote d -> (count KWrite d <= 1)%nat.
Proof.
  assert (forall w d' t, cleared w d' t -> count KWrite d' = 0%nat) as Hcl by (intros; count0).
  assert (forall w d' t, stopped w d' t -> count KWrite d' = 0%nat) as Hst by (intros; count0).
  unfold refill. destruct (remoteWriteConfig remote) as [config|]; [|intros ->; simpl; lia]. intros [r' Hd].
  destruct Hd as [d1 r1 Hd|pre t e Hp|pre t p e Hp _|pre t p st chk r1 Hp _ [-> _] _
    |pre t p st chk d1 r1 Hp _ [-> _] Hd|pre t p st chk post stamp r1 Hp _ [-> _] Hd].
  - rewrite (Hst _ _ _ Hd). lia.
  - rewrite count_app, (Hcl _ _ _ Hp). simpl. lia.
  - rewrite count_app, (Hcl _ _ _ Hp). simpl. lia.
  - rewrite count_app, (Hcl _ _ _ Hp). simpl. lia.
  - rewrite count_app, (Hcl _ _ _ Hp). simpl. rewrite (Hst _ _ _ Hd). lia.
  - rewrite count_app, (Hcl _ _ _ Hp). simpl. rewrite count_app, (Hcl _ _ _ Hd). simpl. lia.
Qed.

(** After the read there is at most one write and one publication. *)
Lemma finish_chain_once k redis key keyConfig local remote op d r :
  finish_chain this redis key keyConfig local remote op d r -> k = KWrite \/ k = KLocalSet -> (count k d <= 1)%nat.
Proof.
  intros Hf Hk.
  destruct Hf as [v f d1 d2 _ H1 H2|v o d1 d2 _ Ho%source_settles_kind H1 H2|e o _ Ho%source_settles_kind
    |e o dp m _ Ho%source_settles_kind _ Hp|e o dp dr m found _ Ho%source_settles_kind _ Hp Hr];
    [|rewrite !count_cons_ne by (rewrite ?Ho; by destruct Hk as [-> | ->])..]; rewrite ?count_app.
  - assert (count k d2 = 0%nat) as -> by (destruct Hk as [-> | ->]; count0). pose proof (local_publish_once k _ _ _ _ H1). lia.
  - destruct Hk as [-> | ->].
    + pose proof (refill_once _ _ _ _ _ H1). assert (count KWrite d2 = 0%nat); [|lia].
      destruct (withhold_local key remote); [by subst|count0].
    + assert (count KLocalSet d1 = 0%nat) as -> by count0.
      destruct (withhold_local key remote); [subst; simpl; lia|]. by eapply local_publish_once.
  - simpl. lia.
  - assert (count k dp = 0%nat) as -> by (destruct Hk as [-> | ->]; count0). lia.
  - assert (count k dp = 0%nat) as -> by (destruct Hk as [-> | ->]; count0).
    assert (count k dr = 0%nat) as -> by (destruct Hk as [-> | ->]; count0). lia.
Qed.

(** Redis is read once, before the chain is finished. *)
Lemma chain_read_once redis key lc t d remote : chain_read redis key lc t d remote -> (count KRead d <= 1)%nat.
Proof.
  assert (forall lr, remote_read redis key lc t d lr -> (count KRead d <= 1)%nat) as HH by (destruct 1; simpl; lia).
  destruct remote; simpl; [|done|intros [e He]]; eauto.
Qed.

Lemma finish_chain_no_read redis key keyConfig local remote op d r :
  finish_chain this redis key keyConfig local remote op d r -> count KRead d = 0%nat.
Proof.
  destruct 1 as [v f d1 d2 _ H1 H2|v o d1 d2 _ Ho%source_settles_kind H1 H2|e o _ Ho%source_settles_kind
    |e o dp m _ Ho%source_settles_kind _ Hp|e o dp dr m found _ Ho%source_settles_kind _ Hp Hr];
    [|rewrite !count_cons_ne by (by rewrite ?Ho)..]; rewrite ?count_app.
  - assert (count KRead d1 = 0%nat) as -> by count0. assert (count KRead d2 = 0%nat) as -> by count0. done.
  - assert (count KRead d1 = 0%nat) as -> by count0. destruct (withhold_local key remote); [by subst|count0].
  - done.
  - count0.
  - assert (count KRead dp = 0%nat) as -> by count0. assert (count KRead dr = 0%nat) as -> by count0. done.
Qed.

Lemma redis_chain_once k redis key keyConfig local lc op d r :
  redis_chain this redis key keyConfig local lc op d r -> k ∈ once_kinds -> (count k d <= 1)%nat.
Proof.
  destruct 1 as [remote d1 d2 r Hr Hf]. intros Hk. rewrite count_app. unfold once_kinds in Hk.
  rewrite !elem_of_cons in Hk. destruct Hk as [->|[->|Hk]].
  - assert (count KSource d1 = 0%nat) as -> by count0.
    rewrite (finish_chain_count _ _ _ _ _ _ _ _ Hf). destruct (is_hit remote); lia.
  - rewrite (finish_chain_no_read _ _ _ _ _ _ _ _ Hf). apply chain_read_once in Hr. lia.
  - assert (k = KWrite \/ k = KLocalSet) as Hk' by set_solver.
    assert (count k d1 = 0%nat) as -> by (destruct Hk' as [-> | ->]; count0). by eapply finish_chain_once.
Qed.

Lemma behind_local_once k key keyConfig local op d r :
  behind_local this key keyConfig local op d r -> k ∈ once_kinds -> (count k d <= 1)%nat.
Proof.
  assert (forall (r : res jsval) d, match r with Ok v => local_publish this key v local d | Err _ => d = [] end ->
    count KSource d = 0%nat /\ (count k d <= 1)%nat) as Hpub.
  { intros [v|e] d' Hp; [split; [count0|by eapply local_publish_once]|subst; simpl; lia]. }
  intros Hd Hk.
  destruct Hd as [o r d _ Ho%source_settles_kind [Hd0 Hd]%Hpub|redis lc t ds o r d _ _ Hs Ho%source_settles_kind [Hd0 Hd]%Hpub|redis lc d r _ _ _ Hd];
    [..|by eapply redis_chain_once].
  - simpl. rewrite Ho. unfold once_kinds in Hk. rewrite !elem_of_cons in Hk. destruct_or! Hk; subst; simpl; try lia. by apply elem_of_nil in Hk.
  - simpl. rewrite count_app. assert (count k ds = 0%nat) as ->.
    { unfold once_kinds in Hk. rewrite !elem_of_cons in Hk. destruct_or! Hk; subst; try count0. by apply elem_of_nil in Hk. }
    simpl. rewrite Ho. unfold once_kinds in Hk. rewrite !elem_of_cons in Hk. destruct_or! Hk; subst; simpl; try lia. by apply elem_of_nil in Hk.
Qed.

Lemma outer_count k d : only outer_kinds d -> k ∈ once_kinds -> count k d = 0%nat.
Proof. intros Hd Hk. eapply only_count; [done|]. intros Hin. unfold once_kinds in Hk. rewrite !elem_of_cons in Hk. destruct_or! Hk; subst; set_solver. Qed.

Lemma operation_once k op d r : operation_run nts this op d r -> k ∈ once_kinds -> (count k d <= 1)%nat.
Proof.
  intros (pre & mid & post & -> & H1 & H2 & Hc)%operation_core Hk.
  rewrite !count_app, (outer_count k pre H1 Hk), (outer_count k post H2 Hk). destruct Hc as [r|o r Ho|s key c keyConfig local d r _ _ _ _ Hd].
  - simpl. lia.
  - assert (okind o = KSettle) as Eo by (destruct Ho as [Ho%source_settles_kind| ->]; done).
    unfold once_kinds in Hk. rewrite !elem_of_cons in Hk. destruct_or! Hk; subst; simpl; rewrite ?Eo; simpl; try lia. by apply elem_of_nil in Hk.
  - apply (behind_local_once k) in Hd; [lia|done].
Qed.

(** Events that do not occur outside come from the core. *)
Lemma around_in op P d r o :
  around op P d r -> o ∈ d -> (okind o ∉ outer_kinds) -> exists mid, P mid r /\ o ∈ mid /\ (forall o', o' ∈ mid -> o' ∈ d) /\
    (forall o', o' ∈ d -> (okind o' ∉ outer_kinds) -> o' ∈ mid).
Proof.
  intros (pre & mid & post & -> & H1 & H2 & H3) Ho Hk. exists mid.
  assert (forall o', o' ∈ pre ++ mid ++ post -> (okind o' ∉ outer_kinds) -> o' ∈ mid) as Hin.
  { intros o' Ho' Hk'. rewrite !elem_of_app in Ho'. destruct Ho' as [Ho'|[Ho'|Ho']]; [|done|].
    - by apply (proj1 (list.Forall_forall _ _) H1) in Ho'.
    - by apply (proj1 (list.Forall_forall _ _) H2) in Ho'. }
  split; [done|]. split; [by apply Hin|]. split; [|done]. set_solver.
Qed.

(** ** Reading events *)

Definition write_of (o : obs) : option RedisWriteRequest :=
  match o with Obs (EClientWrite rq) _ => Some rq | _ => None end.

(** The fence a read reported for this key. *)
Definition fence_seen (key : DialCacheKey) (o : obs) : option Z :=
  match o with
  | Obs (EClientRead _) (Settles (Ok c)) =>
      match validateReadResult key c with RedisReadMiss _ w => w | RedisFrame _ => None end
  | _ => None
  end.

(** The frame a read returned. *)
Definition frame_read (o : obs) : option DecodedRedisFrame :=
  match o with Obs (EClientRead _) (Settles (Ok (CR_Frame f))) => Some f | _ => None end.

Definition local_hit_of (o : obs) : option jsval :=
  match o with Obs (ELocalGet _) (Ok (Some v)) => Some v | _ => None end.

(** The rejection with which the source call settled. *)
Definition rejection_of (op : operation) (o : obs) : option exn :=
  match o with
  | Obs ELoadAwait (Err e) => Some e
  | Obs (ELoadAwaitDeadline t) s =>
      match s with
      | Settles (Err e) => Some e
      | Settles (Ok _) => None
      | DeadlineExpired => Some (FallbackTimeoutError (opt_useCase (op_options op)) t)
      end
  | _ => None
  end.

Lemma write_of_kind o rq : write_of o = Some rq -> okind o = KWrite.
Proof. destruct o as [[] x]; simpl; done. Qed.
Lemma fence_seen_kind key o w : fence_seen key o = Some w -> okind o = KRead.
Proof. destruct o as [[] x]; simpl; done. Qed.
Lemma frame_read_kind o f : frame_read o = Some f -> okind o = KRead.
Proof. destruct o as [[] x]; simpl; done. Qed.
Lemma local_hit_kind o v : local_hit_of o = Some v -> okind o = KLocalGet.
Proof. destruct o as [[] x]; simpl; done. Qed.
Lemma rejection_kind op o e : rejection_of op o = Some e -> okind o = KSettle.
Proof. destruct o as [[] x]; simpl; done. Qed.

Lemma only_in ks d o : only ks d -> o ∈ d -> okind o ∈ ks.
Proof. intros Hd Ho. by apply (proj1 (list.Forall_forall _ _) Hd). Qed.

Lemma settles_rejection op o r e : source_settles op o r -> rejection_of op o = Some e -> r = Err e.
Proof. destruct 1 as [[]|t []|]; simpl; congruence. Qed.

(** A hypothesis [o ∈ d] about an event of a kind that [d] does not have. *)
Ltac no_kind Hin Hk L :=
  exfalso; eapply only_in in Hin; [|by eapply L]; rewrite Hk in Hin; set_solver.

(** ** Writes *)

Lemma remote_put_write redis key v ttl fence d r o rq :
  remote_put redis key v ttl fence always d r -> o ∈ d -> write_of o = Some rq ->
  wq_valueKey rq = redisKey key /\ wq_cacheTtlMs rq = physical_ttl key ttl /\
  (exists p, Obs (EDump (serializerFor redis key) v) (Ok p) ∈ d /\ stored_payload (rd_compression redis) p = Ok (wq_value rq)) /\
  (forall w, fence = Some w -> exists c, wq_createdAtMs rq = Some c /\ w < c).
Proof.
  intros Hd Ho Hw. pose proof (write_of_kind _ _ Hw) as Hk. revert Ho.
  assert (forall f d' t, cleared f d' t -> o ∉ d') as Hc.
  { intros f d' t Hcl Hin. no_kind Hin Hk cleared_only. }
  assert (forall f d' t, stopped f d' t -> o ∉ d') as Hs.
  { intros f d' t Hcl Hin. no_kind Hin Hk stopped_only. }
  destruct Hd as [d1 r1 Hd|pre t e Hp|pre t p e Hp _|pre t p st chk r1 Hp _ [-> _] _
    |pre t p st chk d1 r1 Hp _ [-> _] Hd|pre t p st chk post stamp r1 Hp Hst [-> _] Hd]; intros Ho;
    [by apply (Hs _ _ _ Hd) in Ho|..];
    (apply elem_of_app in Ho as [Ho|Ho]; [by apply (Hc _ _ _ Hp) in Ho|]);
    (apply elem_of_cons in Ho as [->|Ho]; [done|]); simpl in Ho; try by apply elem_of_nil in Ho.
  { by apply (Hs _ _ _ Hd) in Ho. }
  apply elem_of_app in Ho as [Ho|Ho]; [by apply (Hc _ _ _ Hd) in Ho|].
  apply list_elem_of_singleton in Ho as ->. simpl in Hw. injection Hw as <-. simpl. split; [done|]. split; [done|].
  split; [exists p; split; [set_solver|done]|].
  intros w ->. inversion Hd; subst. eauto.
Qed.

Lemma chain_read_fence redis key lc t d remote o w :
  chain_read redis key lc t d remote -> o ∈ d -> fence_seen key o = Some w -> fenceOf remote = Some w.
Proof.
  intros Hd Ho Hw.
  assert (forall lr, remote_read redis key lc t d lr -> lr = Ok (RG_Miss lc cache_miss (Some w))) as HH.
  { intros lr Hr. destruct Hr; rewrite ?elem_of_cons in Ho; repeat destruct Ho as [->|Ho]; try done;
      try (by apply elem_of_nil in Ho); simpl in Hw; try done.
    rewrite H1 in Hw. by subst w0. }
  destruct remote as [r| |]; simpl in Hd; [|done|].
  - apply HH in Hd. by injection Hd as ->.
  - destruct Hd as [e He]. by apply HH in He.
Qed.

Lemma chain_read_config redis key lc t d remote config :
  chain_read redis key lc t d remote -> remoteWriteConfig remote = Some config -> config = lc.
Proof.
  destruct remote as [r| |]; simpl; [|done..]. intros Hr Hc. inversion Hr; subst; simpl in *; simplify_eq; try done.
  by destruct r0; simplify_eq/=.
Qed.

(** An event after the remote read is part of the refill or of a kind that
    neither reads nor writes Redis. *)
Definition tail_kinds : list kind := [KSource; KSettle; KShadow; KLocalSet; KPredicate; KClock; KLoad].

Ltac tail Ho := right; eapply only_in in Ho;
  [|by eauto using local_publish_only, shadow_schedule_only, predicate_only, recovery_only]; set_solver.

Lemma finish_chain_in redis key keyConfig local remote op d r o :
  finish_chain this redis key keyConfig local remote op d r -> o ∈ d ->
  (exists v d', refill redis key v remote d' /\ o ∈ d') \/ okind o ∈ tail_kinds.
Proof.
  destruct 1 as [v f e1 e2 _ H1 H2|v q e1 e2 _ Hq H1 H2|e q _ Hq|e q dp m _ Hq _ Hp|e q dp dr m found _ Hq _ Hp Hrec];
    rewrite ?elem_of_cons, ?elem_of_app; intros Ho;
    [|destruct Ho as [->|[->|Ho]]; [right; set_solver|right; apply source_settles_kind in Hq; rewrite Hq; set_solver|]..].
  - destruct Ho as [Ho|Ho]; tail Ho.
  - destruct Ho as [Ho|Ho]; [by left; exists v, e1|].
    destruct (withhold_local key remote); [subst; by apply elem_of_nil in Ho|tail Ho].
  - by apply elem_of_nil in Ho.
  - tail Ho.
  - destruct Ho as [Ho|Ho]; tail Ho.
Qed.

(** The source-only branches neither read nor write Redis. *)
Lemma behind_local_redis key keyConfig local op d r o :
  behind_local this key keyConfig local op d r -> o ∈ d -> okind o = KRead \/ okind o = KWrite ->
  exists redis lc, dc_redis this = Some redis /\ remote_layer_of keyConfig key = RL_Enabled lc /\
    remote_config_ok lc /\ redis_chain this redis key keyConfig local lc op d r.
Proof.
  intros Hd Ho Hk.
  assert (forall (r : res jsval) d, match r with Ok v => local_publish this key v local d | Err _ => d = [] end -> o ∉ d) as Hpub.
  { intros [v|e] d' Hp Hin; [|subst; by apply elem_of_nil in Hin].
    apply local_publish_only in Hp. eapply only_in, list_elem_of_singleton in Hin; [|done]. rewrite Hin in Hk. by destruct Hk. }
  destruct Hd as [o' r d _ Hs Hp|redis lc t ds o' r d _ _ Hs Hs' Hp|redis lc d r Hr Hl Hok Hd];
    [exfalso..|by exists redis, lc].
  - rewrite !elem_of_cons in Ho. destruct Ho as [->|[->|Ho]]; [by destruct Hk|apply source_settles_kind in Hs; rewrite Hs in Hk; by destruct Hk|].
    by apply (Hpub _ _ Hp).
  - rewrite elem_of_cons, elem_of_app, elem_of_cons in Ho.
    destruct Ho as [->|[Ho|[->|Ho]]]; [by destruct Hk| |apply source_settles_kind in Hs'; rewrite Hs' in Hk; by destruct Hk|by apply (Hpub _ _ Hp)].
    apply shadow_schedule_only in Hs. eapply only_in, list_elem_of_singleton in Ho; [|done]. rewrite Ho in Hk. by destruct Hk.
Qed.

(** A write after the read is part of the refill with the value the source
    call settled with, which is the outcome. *)
Lemma finish_chain_write redis key keyConfig local remote op d r o :
  finish_chain this redis key keyConfig local remote op d r -> o ∈ d -> okind o = KWrite ->
  exists v q d', r = Ok v /\ source_settles op q (Ok v) /\ q ∈ d /\ refill redis key v remote d' /\ o ∈ d' /\
    (forall o', o' ∈ d' -> o' ∈ d).
Proof.
  intros Hf Ho Hk.
  destruct Hf as [v f e1 e2 _ H1 H2|v q e1 e2 _ Hq H1 H2|e q _ Hq|e q dp m _ Hq _ Hp|e q dp dr m found _ Hq _ Hp Hrec];
    rewrite ?elem_of_cons, ?elem_of_app in Ho;
    [|destruct Ho as [->|[->|Ho]]; [done|apply source_settles_kind in Hq; congruence|]..].
  - destruct Ho as [Ho|Ho]; [no_kind Ho Hk local_publish_only|no_kind Ho Hk shadow_schedule_only].
  - destruct Ho as [Ho|Ho]; [exists v, q, e1; repeat split; try done; set_solver|].
    destruct (withhold_local key remote); [subst; by apply elem_of_nil in Ho|no_kind Ho Hk local_publish_only].
  - by apply elem_of_nil in Ho.
  - no_kind Ho Hk predicate_only.
  - destruct Ho as [Ho|Ho]; [no_kind Ho Hk predicate_only|no_kind Ho Hk recovery_only].
Qed.

(** The reads of a chain precede its finish. *)
Lemma finish_chain_reads redis key keyConfig local remote op d r o :
  finish_chain this redis key keyConfig local remote op d r -> o ∈ d -> okind o <> KRead.
Proof.
  intros Hf Ho Hk. destruct (finish_chain_in _ _ _ _ _ _ _ _ _ Hf Ho) as [(v & d' & Hre & Hin)|Hbad];
    [no_kind Hin Hk refill_only|rewrite Hk in Hbad; set_solver].
Qed.

(** ** Runs *)

Lemma run_spec op tr r : runs (executeCacheOperation nts this op) tr r -> operation_run nts this op (data_trace tr) r.
Proof. apply wp_runs, executeCacheOperation_refines. Qed.

Lemma data_trace_in o tr : o ∈ data_trace tr <-> o ∈ tr /\ data (obs_event o) = true.
Proof. unfold data_trace. rewrite !list_elem_of_In, filter_In. done. Qed.

Lemma kind_data o : okind o <> KOther -> data (obs_event o) = true.
Proof. destruct o as [[] x]; done. Qed.

Lemma core_all op all all' d r : core op all d r -> (forall o, o ∈ all -> o ∈ all') -> core op all' d r.
Proof.
  intros Hc Hs. destruct Hc as [r|o r Ho|s key c keyConfig local d r H1 H2 H3 H4 H5]; [by constructor..|].
  by eapply core_chain; eauto.
Qed.

(** The data events of a run, split at its core. *)
Lemma run_around op tr r : runs (executeCacheOperation nts this op) tr r -> around op (core op tr) (data_trace tr) r.
Proof.
  intros (pre & mid & post & E & H1 & H2 & Hc)%run_spec%operation_core. exists pre, mid, post.
  repeat (split; [done|]). eapply core_all; [done|]. by intros o [Ho _]%data_trace_in.
Qed.

Lemma run_core op tr r o :
  runs (executeCacheOperation nts this op) tr r -> o ∈ tr -> okind o <> KOther -> (okind o ∉ outer_kinds) ->
  exists mid, core op tr mid r /\ o ∈ mid /\
    (forall o', o' ∈ mid -> o' ∈ tr) /\
    (forall o', o' ∈ tr -> okind o' <> KOther -> (okind o' ∉ outer_kinds) -> o' ∈ mid).
Proof.
  intros Hrun%run_around Ho Hk Hout.
  destruct (around_in _ _ _ _ o Hrun) as (mid & Hc & Hin & Hsub & Hsup); [|done|].
  - apply data_trace_in. split; [done|]. by apply kind_data.
  - exists mid. split; [done|]. split; [done|]. split.
    + intros o' Ho'. by apply Hsub, data_trace_in in Ho' as [? _].
    + intros o' Ho' Hk' Hout'. apply Hsup; [|done]. apply data_trace_in. split; [done|]. by apply kind_data.
Qed.

(** ** Local hits *)

Lemma behind_local_no_get key keyConfig local op d r o :
  behind_local this key keyConfig local op d r -> o ∈ d -> okind o <> KLocalGet.
Proof. intros Hd%behind_local_kinds Ho Hk. eapply only_in in Ho; [|done]. rewrite Hk in Ho. set_solver. Qed.

Definition ends_with_hit (v : jsval) (d : list obs) (r : res jsval) : Prop := r = Ok v /\ only outer_kinds d.

Lemma through_local_hit key keyConfig lc op d r o v :
  through_local this key keyConfig lc op d r -> o ∈ d -> local_hit_of o = Some v -> ends_with_hit v d r.
Proof.
  intros Hd Ho Hv. pose proof (local_hit_kind _ _ Hv) as Hk. destruct Hd as [w d Hd|local d1 d2 r H1 Hn H2].
  - inversion Hd; subst. apply list_elem_of_singleton in Ho as ->. simpl in Hv. injection Hv as ->.
    split; [done|]. constructor; [set_solver|constructor].
  - exfalso. apply elem_of_app in Ho as [Ho|Ho]; [|by eapply behind_local_no_get in Ho].
    destruct H1; try (by apply elem_of_nil in Ho); apply list_elem_of_singleton in Ho as ->; simpl in Hv; try done.
    by eapply Hn.
Qed.

Lemma ends_with_hit_cons v o d r : okind o ∈ outer_kinds -> ends_with_hit v d r -> ends_with_hit v (o :: d) r.
Proof. intros Ho [-> Hd]. split; [done|]. by constructor. Qed.

Lemma ends_with_hit_snoc v o d r : okind o ∈ outer_kinds -> ends_with_hit v d r -> ends_with_hit v (d ++ [o]) r.
Proof. intros Ho [-> Hd]. split; [done|]. apply only_app. split; [done|]. constructor; [done|constructor]. Qed.

(** Peels an event that is not a local hit off the front of the trace. *)
Ltac peel Ho := apply elem_of_cons in Ho as [->|Ho]; [done|apply ends_with_hit_cons; [set_solver|]].

Lemma in_flight_hit keyConfig key (body : list obs -> res jsval -> Prop) d r o v :
  (forall d r o, body d r -> o ∈ d -> local_hit_of o = Some v -> ends_with_hit v d r) ->
  in_flight keyConfig key body d r -> o ∈ d -> local_hit_of o = Some v -> ends_with_hit v d r.
Proof.
  unfold in_flight. intros Hb. destruct (coalesces keyConfig); [|by apply Hb].
  destruct 1 as [f r Hf|f Hf|t id d r Hd]; intros Ho Hv.
  - do 3 peel Ho. by apply elem_of_nil in Ho.
  - peel Ho. by apply elem_of_nil in Ho.
  - do 3 peel Ho. apply elem_of_app in Ho as [Ho|Ho].
    + apply ends_with_hit_snoc; [set_solver|]. by eapply Hb.
    + by apply list_elem_of_singleton in Ho as ->.
Qed.

Lemma shared_layers_hit key keyConfig op d r o v :
  shared_layers this key keyConfig op d r -> o ∈ d -> local_hit_of o = Some v -> ends_with_hit v d r.
Proof.
  destruct 1 as [lc d r _ Hd|redis reason lc d r _ Hr Hl Hok Hd|reason d r _ _ Hd]; intros Ho Hv.
  - eapply in_flight_hit; [|done..]. intros. by eapply through_local_hit.
  - eapply in_flight_hit; [|done..]. intros d' r' o' Hc Ho' Hv'. exfalso.
    eapply behind_local_no_get; [by eapply bl_redis|done|by eapply local_hit_kind].
  - exfalso. eapply behind_local_no_get; [done|done|by eapply local_hit_kind].
Qed.

Lemma request_local_hit cache key keyConfig op d r o v :
  request_local this cache key keyConfig op d r -> o ∈ d -> local_hit_of o = Some v -> ends_with_hit v d r.
Proof.
  assert (forall d r o, request_body this cache key keyConfig op d r -> o ∈ d -> local_hit_of o = Some v ->
          ends_with_hit v d r) as Hb.
  { destruct 1 as [w|d' w Hd|d' e Hd]; intros Ho Hv; peel Ho.
    - by apply elem_of_nil in Ho.
    - apply elem_of_app in Ho as [Ho|Ho]; [|by apply list_elem_of_singleton in Ho as ->].
      apply ends_with_hit_snoc; [set_solver|]. by eapply shared_layers_hit.
    - by eapply shared_layers_hit. }
  destruct 1 as [d r _ Hd|f r _|f d r _ Hd]; intros Ho Hv; [by eapply Hb|..].
  - do 2 peel Ho. by apply elem_of_nil in Ho.
  - do 2 peel Ho. apply elem_of_app in Ho as [Ho|Ho]; [|by apply list_elem_of_singleton in Ho as ->].
    apply ends_with_hit_snoc; [set_solver|]. by eapply Hb.
Qed.

Lemma settles_not_hit op o r v : source_settles op o r -> local_hit_of o = Some v -> False.
Proof. by destruct 1. Qed.

Lemma operation_hit op d r o v :
  operation_run nts this op d r -> o ∈ d -> local_hit_of o = Some v -> ends_with_hit v d r.
Proof.
  destruct 1 as [r|spec q r _ Hq|s key c q r _ _ Hq|s key c kc q r _ _ Hq|s key c kc dq d r Hk Hf Hq Hd|s key c kc cache d r Hk Hf _ Hd];
    intros Ho Hv.
  1-4: exfalso; repeat (apply elem_of_cons in Ho as [->|Ho]; [first [done|by eapply settles_not_hit]|]); by apply elem_of_nil in Ho.
  - do 4 peel Ho. subst dq. destruct (wants_request_local kc); simpl in *; [peel Ho|]; by eapply shared_layers_hit.
  - do 5 peel Ho. by eapply request_local_hit.
Qed.
End kinds.

(** ** Properties *)

(** C6. Fail open: whatever the cache layers, the configuration provider, the
    key selector, the observers, the serializer or Redis do, the outcome of an
    invocation is the source's own (or the deadline error of its source call),
    the outcome of the flight it joined, or a value found in a cache layer.
    In particular a rejection always comes from the source.  A flight that is
    found in a table has its promise, which every publisher sets in the same
    turn as it creates the flight ([initialized]). *)
Theorem outcome_comes_from_source_or_cache `{Zstd} nts this op tr r :
  runs (executeCacheOperation nts this op) tr r -> Forall initialized tr -> Exists (explains op r) tr.
Proof.
  intros Hrun%run_spec Hi.
  assert (Forall initialized (data_trace tr)) as Hi'.
  { apply list.Forall_forall. intros o [Ho _]%data_trace_in. by apply (proj1 (list.Forall_forall _ _) Hi). }
  pose proof (operation_explained nts this op _ _ Hi' Hrun) as He.
  apply list.Exists_exists in He as (o & [Ho _]%data_trace_in & He). apply list.Exists_exists. eauto.
Qed.

Lemma outcome_comes_from_source_or_cache_witness :
  Exists (explains sample_op (Ok (JInt 7))) (trace_of refill_scenario sample_run).
Proof.
  apply (outcome_comes_from_source_or_cache (H := toy_zstd) sample_number sample_cache).
  - apply scenario_runs. vm_compute. reflexivity.
  - vm_compute. repeat constructor.
Defined.

(** Outside an enabled context an invocation is the source call and
    nothing else: no key is built, no configuration is read, no layer is
    consulted and no deadline applies. *)
Theorem disabled_context_passes_through `{Zstd} nts this op tr r :
  runs (executeCacheOperation nts this op) tr r -> (exists d, data_trace tr = Obs EIsEnabled false :: d) ->
  data_trace tr = [Obs EIsEnabled false; Obs ELoadStart tt; Obs ELoadAwait r].
Proof.
  intros Hrun%run_spec [d Hd].
  apply (f_equal (fun l => match l with Obs EIsEnabled b :: _ => b | _ => true end)) in Hd.
  by destruct Hrun.
Qed.

Lemma disabled_context_passes_through_witness :
  data_trace (trace_of disabled_scenario sample_run) =
    [Obs EIsEnabled false; Obs ELoadStart tt; Obs ELoadAwait (Ok (JInt 7))].
Proof.
  apply (disabled_context_passes_through (H := toy_zstd) sample_number sample_cache sample_op).
  - apply scenario_runs. vm_compute. reflexivity.
  - vm_compute. eauto.
Defined.

Lemma count_data k tr : k <> KOther -> count k (data_trace tr) = count k tr.
Proof.
  intros Hk. induction tr as [|o tr IH]; [done|]. unfold data_trace in *. simpl.
  destruct (data (obs_event o)) eqn:E; simpl; [by rewrite IH|].
  rewrite decide_False; [done|]. intros <-. apply kind_data in Hk. congruence.
Qed.

(** C7. Every effect happens at most once per invocation, on every path: the
    source is called at most once (retries, recovery and shadow admission
    never call it again), Redis is read at most once and written at most once,
    and at most one entry is stored in the process-local cache. *)
Theorem source_called_at_most_once `{Zstd} nts this op tr r :
  runs (executeCacheOperation nts this op) tr r ->
  (count KSource tr <= 1)%nat /\ (count KRead tr <= 1)%nat /\ (count KWrite tr <= 1)%nat /\ (count KLocalSet tr <= 1)%nat.
Proof.
  intros Hrun%run_spec. pose proof (fun k => operation_once nts this k op _ r Hrun) as Hc.
  rewrite <- (count_data KSource tr), <- (count_data KRead tr), <- (count_data KWrite tr), <- (count_data KLocalSet tr) by done.
  repeat split; apply Hc; set_solver.
Qed.

Lemma source_called_at_most_once_witness :
  count KWrite (trace_of refill_scenario sample_run) = 1%nat /\ (count KWrite (trace_of refill_scenario sample_run) <= 1)%nat.
Proof.
  split; [vm_compute; reflexivity|].
  apply (source_called_at_most_once (H := toy_zstd) sample_number sample_cache sample_op _ (Ok (JInt 7))).
  apply scenario_runs. vm_compute. reflexivity.
Defined.

(** A local hit ends the invocation: its value is the outcome, and
    neither the source nor Redis is consulted and nothing is published. *)
Theorem local_hit_ends_invocation `{Zstd} nts this op tr r o v :
  runs (executeCacheOperation nts this op) tr r -> o ∈ tr -> local_hit_of o = Some v ->
  r = Ok v /\ forall k, k ∈ [KSource; KRead; KWrite; KLocalSet; KShadow] -> ~ occurs k tr.
Proof.
  intros Hrun%run_spec Ho Hv. pose proof (local_hit_kind _ _ Hv) as Hk.
  destruct (operation_hit nts this op _ _ o v Hrun) as [-> Honly]; [|done|].
  - apply data_trace_in. split; [done|]. apply kind_data. by rewrite Hk.
  - split; [done|]. intros k Hin Hocc. apply list.Exists_exists in Hocc as (o' & Ho' & <-).
    assert (o' ∈ data_trace tr) as Hd.
    { apply data_trace_in. split; [done|]. apply kind_data. intros E. rewrite E in Hin. set_solver. }
    eapply only_in in Hd; [|done]. rewrite !elem_of_cons in Hin. destruct_or? Hin; rewrite ?Hin in Hd; set_solver.
Qed.

Lemma local_hit_ends_invocation_witness : ~ occurs KSource (trace_of local_scenario sample_run).
Proof.
  apply (local_hit_ends_invocation (H := toy_zstd) sample_number sample_cache sample_op
           (trace_of local_scenario sample_run) (Ok (JInt 3)) (event_at local_scenario sample_run 9) (JInt 3)).
  - apply scenario_runs. vm_compute. reflexivity.
  - apply event_at_in. vm_compute. reflexivity.
  - vm_compute. reflexivity.
  - apply list_elem_of_here.
Defined.

