(* ===== verification/Publication.v ===== *)
(** * Publication, freshness and recovery

    What an invocation may write and what it may serve from Redis: the fence
    on refills, the local publication rule for tracked keys, the age bound of
    a served frame, and the conditions under which a stale frame replaces a
    source rejection.  Also the outcomes of [invalidateRemote]. *)

From S2P Require Import Prelude JsValue Duration Utf8 Config Key Ramp Metrics RuntimeConfig Frame Compression Effects RedisCache Core Scenario CoreSpec Chain.

Section publication.
  Context `{Zstd} (nts : number -> jsstr) (this : DialCache).

(** The key and policy an invocation acts under: built from what its key
    selector and the configuration provider answered in the run. *)
Definition acts_on (op : operation) (tr : list obs) (key : DialCacheKey) (keyConfig : option DialCacheKeyConfig) : Prop :=
  exists s c, Obs ESelectKey (Ok s) ∈ tr /\
    buildKey nts (dc_namespace this) (op_options op) s (op_defaultConfig op) = Ok key /\
    Obs (EConfigProvider key) (Ok c) ∈ tr /\ fetchKeyConfig key c = Ok keyConfig.

Lemma buildKey_tracked op s key :
  buildKey nts (dc_namespace this) (op_options op) s (op_defaultConfig op) = Ok key ->
  trackForInvalidation key = default false (opt_trackForInvalidation (op_options op)).
Proof.
  unfold buildKey, new_DialCacheKey. simpl. intros Hk. inv_ok. by subst key.
Qed.

(** A core that reads or writes Redis is a chain. *)
Lemma core_redis op all d r o :
  core nts this op all d r -> o ∈ d -> okind o = KRead \/ okind o = KWrite ->
  exists key keyConfig local redis lc, acts_on op all key keyConfig /\
    dc_redis this = Some redis /\ remote_layer_of keyConfig key = RL_Enabled lc /\ remote_config_ok lc /\
    redis_chain this redis key keyConfig local lc op d r.
Proof.
  intros Hd Ho Hk. destruct Hd as [r|q r Hq|s key c keyConfig local d r Hsel Hkey Hprov Hcfg Hd].
  - by apply elem_of_nil in Ho.
  - exfalso. rewrite !elem_of_cons in Ho. destruct Ho as [->|[->|Ho]]; [by destruct Hk| |by apply elem_of_nil in Ho].
    destruct Hq as [Hq| ->]; [apply source_settles_kind in Hq; rewrite Hq in Hk|]; by destruct Hk.
  - destruct (behind_local_redis this _ _ _ _ _ _ _ Hd Ho Hk) as (redis & lc & ? & ? & ? & ?).
    exists key, keyConfig, local, redis, lc. split; [by exists s, c|done].
Qed.

(** The frame a read returned decides the disposition. *)
Lemma chain_read_frame redis key lc t d remote o f :
  chain_read redis key lc t d remote -> o ∈ d -> frame_read o = Some f ->
  (remote = RR_Redis (RG_Retained f lc) \/ (exists v, remote = RR_Redis (RG_Hit v f)) \/
   exists why, remote = RR_Redis (RG_Miss lc why None)).
Proof.
  intros Hd Ho Hf.
  assert (forall lr, remote_read redis key lc t d lr ->
    lr = Ok (RG_Retained f lc) \/ (exists v, lr = Ok (RG_Hit v f)) \/ exists why, lr = Ok (RG_Miss lc why None)) as HH.
  { intros lr Hr. destruct Hr as [| | |rq c reason w Hrq Hv| | | |rq g now c r]; rewrite ?elem_of_cons in Ho; repeat destruct Ho as [->|Ho];
      try (by apply elem_of_nil in Ho); simpl in Hf; try done; try (injection Hf as ->); eauto.
    - by destruct c.
    - destruct r; eauto. }
  destruct remote as [r| |]; simpl in Hd; [|done|].
  - destruct (HH _ Hd) as [[= ->]|[[v [= ->]]|[why [= ->]]]]; eauto.
  - destruct Hd as [e He]. destruct (HH _ He) as [?|[[? ?]|[? ?]]]; done.
Qed.

(** A hit in the chain: one clock sample bounds the age of the frame the value
    was loaded from. *)
Lemma chain_hit_age redis key lc t d v f :
  chain_read redis key lc t d (RR_Redis (RG_Hit v f)) ->
  exists c now, stamp_of f = Some c /\ Obs EDateNow now ∈ d /\ Obs (load_event redis key f) (Ok v) ∈ d /\
    0 <= now - c < rc_ttlSec lc * 1000.
Proof.
  simpl. intros Hr. inversion Hr as [| | | | | | |rq g now c r Hrq Hc Ha E1 E2]; subst. destruct r; simplify_eq.
  exists c, now. repeat split; try done; try lia; set_solver.
Qed.

(** What a served recovery went through, in order. *)
Lemma recovery_served redis key m f d v :
  recovery redis key m f d (Some v) ->
  exists fr c now now', f = Some fr /\ stamp_of fr = Some c /\
    d = [Obs EDateNow now; Obs (load_event redis key fr) (Ok v); Obs EDateNow now'] /\
    0 <= now - c < m /\ 0 <= now' - c < m.
Proof. intros Hr. inversion Hr; subst. by exists f0, c, now, now'. Qed.

(** A retained frame was read, and was past the TTL when it was. *)
Lemma chain_read_retained redis key lc t d f config :
  chain_read redis key lc t d (RR_Redis (RG_Retained f config)) ->
  config = lc /\ exists rq t0 c, read_request key t = Ok rq /\ stamp_of f = Some c /\ rc_ttlSec lc * 1000 <= t0 - c /\
    d = [Obs (EClientRead rq) (Settles (Ok (CR_Frame f))); Obs EDateNow t0].
Proof.
  simpl. intros Hr. inversion Hr as [| | | | | |rq g t0 c Hrq Hs Ha E1 E2|rq g now c r]; subst.
  - split; [done|]. exists rq, t0, c. repeat split; try done; lia.
  - by destruct r.
Qed.

(** The recovery predicate of [op] authorized recovery from [e] with the
    events [dp]: the built-in one asks nothing and allows the library's own
    deadline error, an application predicate was asked about this very error
    and answered [true]. *)
Definition authorized (op : operation) (e : exn) (dp : list obs) : Prop :=
  match op_staleRecoveryPredicate op with
  | DefaultPredicate => dp = [] /\ is_fallback_timeout e = true
  | AppPredicate => dp = [Obs (EStalePredicate e) (PredicateBool true)]
  end.

Lemma predicate_authorized op e d : predicate_says op e d true -> authorized op e d.
Proof.
  unfold authorized. intros Hp. inversion Hp as [Hdef|x Happ E1 E2]; subst.
  - by rewrite Hdef.
  - rewrite Happ. by destruct x; simplify_eq.
Qed.

Lemma finish_chain_settled redis key keyConfig local remote op d v o e :
  finish_chain this redis key keyConfig local remote op d (Ok v) -> o ∈ d -> rejection_of op o = Some e ->
  exists dp dr m, staleRecoveryMaxAgeSec remote = Some m /\ predicate_says op e dp true /\
    recovery redis key (m * 1000) (retainedFrame remote) dr (Some v) /\ d = Obs ELoadStart tt :: o :: dp ++ dr.
Proof.
  intros Hd Ho He. pose proof (rejection_kind _ _ _ He) as Hk.
  assert (forall ks d', only ks d' -> bool_decide (KSettle ∈ ks) = false -> o ∉ d') as Hno.
  { intros ks d' Hks Hn%bool_decide_eq_false Hin. eapply only_in in Hin; [|done]. by rewrite Hk in Hin. }
  inversion Hd as [v' f d1 d2 Hr Hp Hs Ed Er|v' q d1 d2 Hh Hq Hre Hw Ed Er| | |e' q dp dr m found Hh Hq Hm Hp Hrec Ed Er]; subst.
  - exfalso. apply elem_of_app in Ho as [Ho|Ho]; revert Ho.
    + eapply Hno; [by eapply local_publish_only|done].
    + eapply Hno; [by eapply shadow_schedule_only|done].
  - exfalso. rewrite !elem_of_cons, elem_of_app in Ho. destruct Ho as [->|[->|[Ho|Ho]]]; [done| | |].
    + by apply (settles_rejection _ _ _ _ Hq) in He.
    + revert Ho. eapply Hno; [by eapply refill_only|done].
    + destruct (withhold_local key remote); [subst; by apply elem_of_nil in Ho|].
      revert Ho. eapply Hno; [by eapply local_publish_only|done].
  - destruct found as [w|]; [|done]. injection Er as ->. exists dp, dr, m.
    assert (e' = e /\ q = o) as [-> ->].
    { rewrite !elem_of_cons, elem_of_app in Ho. destruct Ho as [->|[->|[Ho|Ho]]]; [done| | |].
      - apply (settles_rejection _ _ _ _ Hq) in He. split; congruence.
      - exfalso. revert Ho. eapply Hno; [by eapply predicate_only|done].
      - exfalso. revert Ho. eapply Hno; [by eapply recovery_only|done]. }
    by repeat split.
Qed.

(** Past a read that was no hit, the local layer is written only when policy
    does not withhold the source value. *)
Lemma finish_chain_local_set redis key keyConfig local remote op d r o :
  finish_chain this redis key keyConfig local remote op d r -> is_hit remote = false ->
  o ∈ d -> okind o = KLocalSet -> withhold_local key remote = false.
Proof.
  intros Hf Hh Ho Hk.
  assert (forall ks d', only ks d' -> bool_decide (KLocalSet ∈ ks) = false -> o ∉ d') as Hno.
  { intros ks d' Hks Hn%bool_decide_eq_false Hin. eapply only_in in Hin; [|done]. by rewrite Hk in Hin. }
  destruct Hf as [v f e1 e2 -> _ _|v q e1 e2 _ Hq H1 H2|e q _ Hq|e q dp m _ Hq _ Hp|e q dp dr m found _ Hq _ Hp Hrec];
    [done|apply source_settles_kind in Hq; rewrite ?elem_of_cons, ?elem_of_app in Ho;
      destruct Ho as [->|[->|Ho]]; [done|congruence|]..].
  - destruct (withhold_local key remote); [|done]. subst. exfalso. destruct Ho as [Ho|Ho]; [|by apply elem_of_nil in Ho].
    revert Ho. eapply Hno; [by eapply refill_only|done].
  - by apply elem_of_nil in Ho.
  - exfalso. revert Ho. eapply Hno; [by eapply predicate_only|done].
  - exfalso. destruct Ho as [Ho|Ho]; revert Ho; (eapply Hno; [by eauto using predicate_only, recovery_only|done]).
Qed.

(** After a read that was a hit, the source is not called. *)
Lemma finish_chain_hit_no_source redis key keyConfig local remote op d r o :
  finish_chain this redis key keyConfig local remote op d r -> is_hit remote = true -> o ∈ d -> okind o <> KSource.
Proof.
  intros Hf Hh Ho Hk. apply finish_chain_count in Hf. rewrite Hh in Hf.
  destruct (list_elem_of_split _ _ Ho) as (l1 & l2 & ->). rewrite count_app in Hf. simpl in Hf.
  rewrite Hk in Hf. simpl in Hf. lia.
Qed.
(** A core in which the source rejected and a value was returned is a chain. *)
Lemma core_settled op all d v o e :
  core nts this op all d (Ok v) -> o ∈ d -> rejection_of op o = Some e ->
  exists key keyConfig local redis lc, acts_on op all key keyConfig /\ dc_redis this = Some redis /\
    remote_layer_of keyConfig key = RL_Enabled lc /\
    redis_chain this redis key keyConfig local lc op d (Ok v).
Proof.
  intros Hd Ho He. pose proof (rejection_kind _ _ _ He) as Hk.
  inversion Hd as [|q r Hq Ed Er|s key c keyConfig local d' r Hsel Hkey Hprov Hcfg Hb Ed Er]; subst.
  - by apply elem_of_nil in Ho.
  - exfalso. rewrite !elem_of_cons in Ho. destruct Ho as [->|[->|Ho]]; [done| |by apply elem_of_nil in Ho].
    destruct Hq as [Hq| ->]; [by apply (settles_rejection _ _ _ _ Hq) in He|done].
  - assert (forall d'', local_publish this key v local d'' -> o ∉ d'') as Hpub.
    { intros d'' Hp Hin. apply local_publish_only in Hp. eapply only_in in Hin; [|done]. rewrite Hk in Hin. set_solver. }
    inversion Hb as [q r d' _ Hq Hp Ed Er|redis lc t ds q r d' _ _ Hs Hq Hp Ed Er|redis lc d' r Hr Hl Hok Hch Ed Er]; subst.
    + exfalso. rewrite !elem_of_cons in Ho. destruct Ho as [->|[->|Ho]]; [done|by apply (settles_rejection _ _ _ _ Hq) in He|].
      by apply (Hpub _ Hp).
    + exfalso. rewrite elem_of_cons, elem_of_app, elem_of_cons in Ho.
      destruct Ho as [->|[Ho|[->|Ho]]]; [done| |by apply (settles_rejection _ _ _ _ Hq) in He|by apply (Hpub _ Hp)].
      apply shadow_schedule_only in Hs. eapply only_in in Ho; [|done]. rewrite Hk in Ho. set_solver.
    + exists key, keyConfig, local, redis, lc. split; [by exists s, c|done].
Qed.
End publication.

(** ** Properties *)

(** C2. Every Redis write of an invocation is the refill of its own key with
    the value the source call returned: that value is the outcome of the
    invocation and what was serialized, and the bytes written are the envelope
    of the serializer's output.  The physical lifetime is the one the resolved
    remote policy prescribes, positive and capped at one hour for a tracked
    key; and if the read of the same invocation reported an invalidation
    watermark, the frame carries a creation stamp strictly above it, so the
    refill cannot be born fenced or overwrite the fence's decision. *)
Theorem refill_respects_fence `{Zstd} nts this op tr r o rq :
  runs (executeCacheOperation nts this op) tr r -> o ∈ tr -> write_of o = Some rq ->
  exists key keyConfig redis lc v q p, acts_on nts this op tr key keyConfig /\ dc_redis this = Some redis /\
    remote_layer_of keyConfig key = RL_Enabled lc /\
    r = Ok v /\ q ∈ tr /\ source_settles op q (Ok v) /\
    Obs (EDump (serializerFor redis key) v) (Ok p) ∈ tr /\ stored_payload (rd_compression redis) p = Ok (wq_value rq) /\
    wq_valueKey rq = redisKey key /\ wq_cacheTtlMs rq = refill_lifetime_ms key lc /\
    0 < wq_cacheTtlMs rq <= MAX_SUPPORTED_DURATION_MS /\
    forall o' w, o' ∈ tr -> fence_seen key o' = Some w -> exists c, wq_createdAtMs rq = Some c /\ w < c.
Proof.
  intros Hrun Ho Hw. pose proof (write_of_kind _ _ Hw) as Hk.
  destruct (run_core nts this op tr r o Hrun Ho) as (mid & Hc & Hin & Hsub & Hsup); [congruence|rewrite Hk; set_solver|].
  destruct (core_redis nts this op tr mid r o Hc Hin) as (key & keyConfig & local & redis & lc & Hact & Hr & Hl & Hok & Hch); [by right|].
  destruct Hch as [remote d1 d2 r Hread Hfin].
  apply elem_of_app in Hin as [Hin|Hin].
  { exfalso. apply chain_read_only in Hread. eapply only_in in Hin; [|done]. rewrite Hk in Hin. set_solver. }
  destruct (finish_chain_write _ _ _ _ _ _ _ _ _ _ Hfin Hin Hk) as (v & q & d & Hv & Hq & Hqin & Hre & Hind & Hd).
  unfold refill in Hre. destruct (remoteWriteConfig remote) as [config|] eqn:Ec; [|subst; by apply elem_of_nil in Hind].
  rewrite (chain_read_config _ _ _ _ _ _ _ Hread Ec) in Hre. destruct Hre as [pr Hput].
  destruct (remote_put_write _ _ _ _ _ _ _ _ _ Hput Hind Hw) as (Hkey & Httl & (p & Hdump & Hstored) & Hstamp).
  assert (wq_cacheTtlMs rq = refill_lifetime_ms key lc) as Hlife by by rewrite Httl, refill_lifetime.
  assert (forall o', o' ∈ d2 -> o' ∈ tr) as Hd2 by (intros o' Ho'; apply Hsub, elem_of_app; by right).
  exists key, keyConfig, redis, lc, v, q, p. repeat (split; [by eauto|]). split.
  - rewrite Httl. pose proof (retention_range _ Hok). unfold physical_ttl. destruct (trackForInvalidation key); duration_lia.
  - intros o' w Ho' Hf. pose proof (fence_seen_kind _ _ _ Hf) as Hk'. apply Hstamp.
    assert (o' ∈ d1) as Hmid.
    { assert (o' ∈ d1 ++ d2) as Hmid by (apply Hsup; [done|congruence|rewrite Hk'; set_solver]).
      apply elem_of_app in Hmid as [?|Hin2]; [done|]. by eapply finish_chain_reads in Hin2. }
    unfold write_fence. rewrite (chain_read_fence _ _ _ _ _ _ _ _ Hread Hmid Hf).
    destruct (trackForInvalidation key) eqn:Et; [done|].
    exfalso. revert Hf. unfold fence_seen, validateReadResult, redisReadMiss. rewrite Et. repeat case_match; congruence.
Qed.

Lemma refill_respects_fence_witness :
  exists rq key lc c, write_of (event_at refill_scenario sample_run 19) = Some rq /\
    wq_cacheTtlMs rq = refill_lifetime_ms key lc /\ wq_createdAtMs rq = Some c /\ 1000 < c.
Proof.
  eexists. destruct (refill_respects_fence (H := toy_zstd) sample_number sample_cache sample_op
    (trace_of refill_scenario sample_run) (Ok (JInt 7)) (event_at refill_scenario sample_run 19) _
    ltac:(apply scenario_runs; vm_compute; reflexivity) ltac:(apply event_at_in; vm_compute; reflexivity)
    ltac:(vm_compute; reflexivity))
    as (key & keyConfig & redis & lc & v & q & p & (s & c & _ & Hk & _) & _ & _ & _ & _ & _ & _ & _ & _ & Hlife & _ & Hf).
  pose proof (buildKey_tracked _ _ _ _ _ Hk) as Ht. simpl in Ht.
  destruct (Hf (event_at refill_scenario sample_run 11) 1000) as (t & E & Hlt).
  - apply event_at_in. vm_compute. reflexivity.
  - change (event_at refill_scenario sample_run 11) with
      (Obs (EClientRead (match obs_event (event_at refill_scenario sample_run 11) with EClientRead r => r | _ => {| rq_valueKey := []; rq_watermarkKey := None; rq_timeoutMs := 0 |} end)) (Settles (Ok (fenced_miss 1000)))).
    simpl. by rewrite Ht.
  - exists key, lc, t. split; [vm_compute; reflexivity|done].
Defined.

(** C9. A tracked invocation that reached Redis never publishes a source value
    to the process-local layer: if it wrote a local entry, the source was not
    called at all, so the entry is a value Redis had just validated against
    its watermark. *)
Theorem tracked_source_value_stays_out_of_local `{Zstd} nts this op tr r :
  runs (executeCacheOperation nts this op) tr r -> opt_trackForInvalidation (op_options op) = Some true ->
  occurs KRead tr -> occurs KLocalSet tr -> ~ occurs KSource tr.
Proof.
  intros Hrun Ht Hr Hs Hsrc. apply list.Exists_exists in Hr as (o & Ho & Hk), Hs as (o2 & Ho2 & Hk2), Hsrc as (o3 & Ho3 & Hk3).
  destruct (run_core nts this op tr r o Hrun Ho) as (mid & Hc & Hin & _ & Hsup); [congruence|rewrite Hk; set_solver|].
  assert (o2 ∈ mid) as Hin2 by (apply Hsup; [done|congruence|rewrite Hk2; set_solver]).
  assert (o3 ∈ mid) as Hin3 by (apply Hsup; [done|congruence|rewrite Hk3; set_solver]).
  destruct (core_redis nts this op tr mid r o Hc Hin) as (key & keyConfig & local & redis & lc & (s & c & _ & Hkey & _) & _ & _ & _ & Hch); [by left|].
  apply buildKey_tracked in Hkey. rewrite Ht in Hkey. simpl in Hkey.
  destruct Hch as [remote d1 d2 r Hread Hf].
  assert (forall o', o' ∈ d1 ++ d2 -> okind o' = KLocalSet \/ okind o' = KSource -> o' ∈ d2) as Htail.
  { intros o' Ho' Hk'. apply elem_of_app in Ho' as [Ho'|Ho']; [|done]. exfalso. apply chain_read_only in Hread.
    eapply only_in in Ho'; [|done]. destruct Hk' as [Hk'|Hk']; rewrite Hk' in Ho'; set_solver. }
  destruct (is_hit remote) eqn:Hh.
  - eapply finish_chain_hit_no_source; [done|done|by apply Htail; [exact Hin3|right]|done].
  - assert (withhold_local key remote = false) as Hw.
    { eapply finish_chain_local_set; [done|done|by apply Htail; [exact Hin2|left]|done]. }
    destruct remote as [[]| |]; simpl in *; try done; by rewrite ?Hkey in Hw.
Qed.

Lemma tracked_source_value_stays_out_of_local_witness : ~ occurs KSource (trace_of fresh_scenario sample_run).
Proof.
  apply (tracked_source_value_stays_out_of_local (H := toy_zstd) sample_number sample_cache sample_op _ (Ok (JInt 1))).
  - apply scenario_runs. vm_compute. reflexivity.
  - reflexivity.
  - apply list.Exists_exists. exists (event_at fresh_scenario sample_run 11).
    split; [apply event_at_in; vm_compute; reflexivity|vm_compute; reflexivity].
  - apply list.Exists_exists. exists (event_at fresh_scenario sample_run 16).
    split; [apply event_at_in; vm_compute; reflexivity|vm_compute; reflexivity].
Defined.

(** C3. A value served from Redis without calling the source is fresh: it was
    loaded from the frame that was read, whose stamp is valid, not in the
    future of this process's clock, and younger than the resolved remote
    TTL. *)
Theorem served_frame_is_fresh `{Zstd} nts this op tr v o f :
  runs (executeCacheOperation nts this op) tr (Ok v) -> o ∈ tr -> frame_read o = Some f -> ~ occurs KSource tr ->
  exists key keyConfig redis lc c now, acts_on nts this op tr key keyConfig /\
    remote_layer_of keyConfig key = RL_Enabled lc /\ stamp_of f = Some c /\
    Obs EDateNow now ∈ tr /\ Obs (load_event redis key f) (Ok v) ∈ tr /\ 0 <= now - c < rc_ttlSec lc * 1000.
Proof.
  intros Hrun Ho Hf Hns. pose proof (frame_read_kind _ _ Hf) as Hk.
  destruct (run_core nts this op tr _ o Hrun Ho) as (mid & Hc & Hin & Hsub & _); [congruence|rewrite Hk; set_solver|].
  destruct (core_redis nts this op tr mid _ o Hc Hin) as (key & keyConfig & local & redis & lc & Hact & _ & Hl & _ & Hch); [by left|].
  inversion Hch as [remote d1 d2 r Hread Hfin Ed Er]; subst.
  pose proof (finish_chain_count _ _ _ _ _ _ _ _ _ Hfin) as Hcount.
  destruct (is_hit remote) eqn:Hh.
  - inversion Hfin as [v' g e1 e2 Hr _ _ Ed Er|? ? ? ? Hx|? ? Hx|? ? ? ? Hx|? ? ? ? ? ? Hx]; subst; try done.
    apply elem_of_app in Hin as [Hin|Hin].
    + destruct (chain_read_frame _ _ _ _ _ _ _ _ Hread Hin Hf) as [?|[[? [= <- <-]]|[? ?]]]; [done| |done].
      destruct (chain_hit_age _ _ _ _ _ _ _ Hread) as (c & now & Hs & Hnow & Hload & Hage).
      exists key, keyConfig, redis, lc, c, now. repeat split; try done; try lia; apply Hsub, elem_of_app; by left.
    + exfalso. destruct (finish_chain_in _ _ _ _ _ _ _ _ _ _ Hfin Hin) as [(w & d' & Hre & Hin')|Hx];
        [unfold refill in Hre; simpl in Hre; subst; by apply elem_of_nil in Hin'|rewrite Hk in Hx; set_solver].
  - exfalso. apply Hns. assert (occurs KSource d2) as Hocc.
    { inversion Hfin; subst; try done; by left. }
    apply list.Exists_exists in Hocc as (q & Hq & Hkq). apply list.Exists_exists. exists q. split; [|done].
    apply Hsub, elem_of_app. by right.
Qed.

Lemma served_frame_is_fresh_witness :
  exists key keyConfig lc c now, acts_on sample_number sample_cache sample_op (trace_of fresh_scenario sample_run) key keyConfig /\
    remote_layer_of keyConfig key = RL_Enabled lc /\ stamp_of (sample_frame 1000) = Some c /\
    Obs EDateNow now ∈ trace_of fresh_scenario sample_run /\ 0 <= now - c < rc_ttlSec lc * 1000.
Proof.
  destruct (served_frame_is_fresh (H := toy_zstd) sample_number sample_cache sample_op
    (trace_of fresh_scenario sample_run) (JInt 1) (event_at fresh_scenario sample_run 11) (sample_frame 1000)
    ltac:(apply scenario_runs; vm_compute; reflexivity) ltac:(apply event_at_in; vm_compute; reflexivity)
    ltac:(vm_compute; reflexivity))
    as (key & keyConfig & redis & lc & c & now & H1 & H2 & H3 & H4 & _ & H5).
  - intros Ho. apply list.Exists_exists in Ho as (o & Ho & Hk). revert Hk.
    apply (proj1 (list.Forall_forall (fun o => okind o <> KSource) (trace_of fresh_scenario sample_run))); [|done].
    vm_compute. repeat constructor; discriminate.
  - exists key, keyConfig, lc, c, now. done.
Defined.

(** C4. Stale-on-error.  When a value is returned although the source
    rejected, the data events of the invocation are, in this order: the read
    that returned the frame, found past its TTL; the source call and its
    rejection; the authorization of recovery for that very error; a clock
    sample at which the frame is still younger than the configured ceiling;
    the load of the value from that frame; and a second sample, taken after
    the load, at which it still is. *)
Theorem stale_value_only_within_policy `{Zstd} nts this op tr v o e :
  runs (executeCacheOperation nts this op) tr (Ok v) -> o ∈ tr -> rejection_of op o = Some e ->
  exists key keyConfig redis lc m f c pre rq t0 dp now now' post,
    acts_on nts this op tr key keyConfig /\ dc_redis this = Some redis /\
    remote_layer_of keyConfig key = RL_Enabled lc /\ rc_staleOnErrorMaxAgeSec lc = Some m /\ stamp_of f = Some c /\
    data_trace tr =
      pre ++ [Obs (EClientRead rq) (Settles (Ok (CR_Frame f))); Obs EDateNow t0; Obs ELoadStart tt; o] ++
      dp ++ [Obs EDateNow now; Obs (load_event redis key f) (Ok v); Obs EDateNow now'] ++ post /\
    authorized op e dp /\
    rc_ttlSec lc * 1000 <= t0 - c /\ 0 <= now - c < m * 1000 /\ 0 <= now' - c < m * 1000.
Proof.
  intros Hrun Ho He. pose proof (rejection_kind _ _ _ He) as Hk.
  destruct (run_around nts this op tr _ Hrun) as (pre & mid & post & Etr & Hpre & Hpost & Hc).
  assert (o ∈ mid) as Hin.
  { assert (o ∈ data_trace tr) as Hd by (apply data_trace_in; split; [done|apply kind_data; congruence]).
    rewrite Etr, !elem_of_app in Hd. destruct Hd as [Hd|[Hd|Hd]]; [exfalso|done|exfalso];
      (eapply only_in in Hd; [|done]); rewrite Hk in Hd; set_solver. }
  destruct (core_settled nts this op tr mid v o e Hc Hin He)
    as (key & keyConfig & local & redis & lc & Hact & Hred & Hl & Hch).
  inversion Hch as [remote d1 d2 r Hread Hfin Ed Er]; subst.
  apply elem_of_app in Hin as [Hin|Hin].
  { exfalso. apply chain_read_only in Hread. eapply only_in in Hin; [|done]. rewrite Hk in Hin. set_solver. }
  destruct (finish_chain_settled this _ _ _ _ _ _ _ _ _ _ Hfin Hin He) as (dp & dr & m & Hm & Hp & Hrec & ->).
  destruct (recovery_served _ _ _ _ _ _ Hrec) as (f & c & now & now' & Hfr & Hs & -> & Ha & Ha').
  destruct remote as [[|g config|]| |]; simpl in Hfr, Hm; try done. injection Hfr as ->.
  destruct (chain_read_retained _ _ _ _ _ _ _ Hread) as (-> & rq & t0 & c' & _ & Hs' & Ht0 & ->).
  assert (c' = c) as -> by congruence.
  exists key, keyConfig, redis, lc, m, f, c, pre, rq, t0, dp, now, now', post.
  repeat (split; [done|]). split; [rewrite Etr; simpl; by rewrite <- ?app_assoc|].
  split; [by apply predicate_authorized|done].
Qed.

Lemma stale_value_only_within_policy_witness :
  exists key keyConfig lc m, acts_on sample_number sample_cache sample_op (trace_of stale_scenario sample_run) key keyConfig /\
    remote_layer_of keyConfig key = RL_Enabled lc /\ rc_staleOnErrorMaxAgeSec lc = Some m.
Proof.
  destruct (stale_value_only_within_policy (H := toy_zstd) sample_number sample_cache sample_op
    (trace_of stale_scenario sample_run) (JInt 1) (event_at stale_scenario sample_run 15)
    (FallbackTimeoutError (js "profile") 60000)
    ltac:(apply scenario_runs; vm_compute; reflexivity) ltac:(apply event_at_in; vm_compute; reflexivity)
    ltac:(vm_compute; reflexivity))
    as (key & keyConfig & redis & lc & m & f & c & pre & rq & t0 & dp & now & now' & post & H1 & _ & H2 & H3 & _).
  exists key, keyConfig, lc, m. done.
Defined.

(** C5. The whole invocation refines its specification.  Every run of
    [executeCacheOperation], under any environment, exchanges the data events
    (all but metrics, logs and the monotonic clock) of one of the paths of
    [operation_run], in that order, and ends with the outcome that path
    prescribes.  The paths are exclusive: a layer is skipped only where policy
    or the instance turns it off, so an active local layer is looked up, an
    enabled remote layer is read after a local miss, a ramped-down one gets
    its shadow job exactly when one is due, and cache reads run in a flight
    unless policy disables coalescing. *)
Theorem invocation_refines_spec `{Zstd} nts this op tr r :
  runs (executeCacheOperation nts this op) tr r -> operation_run nts this op (data_trace tr) r.
Proof. revert tr r. apply wp_runs, executeCacheOperation_refines. Qed.

Lemma invocation_refines_spec_witness :
  operation_run (H := toy_zstd) sample_number sample_cache sample_op (data_trace (trace_of stale_scenario sample_run)) (Ok (JInt 1)).
Proof.
  apply (invocation_refines_spec (H := toy_zstd) sample_number sample_cache sample_op).
  apply scenario_runs. vm_compute. reflexivity.
Defined.

(** What [invalidateRemote] does: nothing is sent unless the buffer is
    supported, a Redis client is configured and the watermark key can be
    built; then the client's answer to the one request is the outcome. *)
Definition invalidation_run nts this kt id futureBufferMs (d : list obs) (r : res unit) : Prop :=
  match assertSupportedFutureBufferMs futureBufferMs, dc_redis this,
        redisWatermarkKey (dc_namespace this) kt (String_of_arg nts id) with
  | Ok buffer, Some _, Ok watermarkKey =>
      d = [Obs (EClientInvalidate {| iq_watermarkKey := watermarkKey; iq_futureBufferMs := buffer |}) r]
  | Err e, _, _ => d = [] /\ r = Err e
  | Ok _, None, _ => d = [] /\ r = Err (TypeError "DialCache invalidateRemote requires a configured Redis client")
  | Ok _, Some _, Err e => d = [] /\ r = Err e
  end.

(** [invalidateRemote] succeeds only on an acknowledged watermark.  It
    returns exactly when the buffer is supported, a Redis client is
    configured, the watermark key can be built and the client acknowledged
    the one invalidation request that names that key and buffer; otherwise it
    throws, and it sends nothing to Redis unless the request was well formed. *)
Theorem invalidation_is_acknowledged nts this kt id futureBufferMs tr r :
  runs (invalidateRemote nts this kt id futureBufferMs) tr r ->
  invalidation_run nts this kt id futureBufferMs (data_trace tr) r.
Proof.
  revert tr r. apply wp_runs. unfold invalidateRemote, invalidation_run.
  destruct (assertSupportedFutureBufferMs futureBufferMs) as [buffer|e]; wp_steps; [|done].
  destruct (dc_redis this) as [redis|]; wp_steps; [|done]. unfold invalidate.
  destruct (redisWatermarkKey _ _ _) as [w|e]; wp_steps; [|done].
  match goal with x : ans (EClientInvalidate _) |- _ => destruct x as [[]|e] end; wp_steps; done.
Qed.

Definition sample_invalidation : prog unit :=
  invalidateRemote sample_number sample_cache (js "user") (ArgString (js "42")) (JInt 500).

Lemma invalidation_is_acknowledged_witness :
  exists w, data_trace (trace_of fresh_scenario sample_invalidation) =
    [Obs (EClientInvalidate {| iq_watermarkKey := w; iq_futureBufferMs := 500 |}) (Ok tt)].
Proof.
  pose proof (invalidation_is_acknowledged sample_number sample_cache (js "user") (ArgString (js "42")) (JInt 500)
    (trace_of fresh_scenario sample_invalidation) (Ok tt) ltac:(apply scenario_runs; vm_compute; reflexivity)) as H.
  destruct (redisWatermarkKey (dc_namespace sample_cache) (js "user") (String_of_arg sample_number (ArgString (js "42"))))
    as [w|] eqn:E; [|vm_compute in E; discriminate E].
  unfold invalidation_run in H. rewrite E in H. exists w. exact H.
Defined.
