(* ===== verification/Registration.v ===== *)
(** * Construction and registration

    The validation that runs before any operation: the constructors of
    [DialCache] and [RedisCache], [cached] and [getOrLoad], and the static
    default snapshot.  Configuration objects are dynamically typed values;
    a function or a client object is represented by [JFun] or an object. *)

From S2P Require Import Prelude JsValue Duration Utf8 Config Key Ramp Metrics RuntimeConfig Frame Compression Effects RedisCache Core.

(** ** The static default *)

Definition assertDefaultLayerMap (config : jsval) (name : string) : res unit :=
  throw_if (not_plain_object config) (TypeError ("DialCache defaultConfig " +:+ name +:+ " must be a layer map")).

Definition assertDefaultShadowConfig (config : jsval) : res unit :=
  throw_if (negb (is_undefined config) && not_plain_object config)
    (TypeError "DialCache defaultConfig shadow must be an object").

(** A number in [0, 100]. *)
Definition percentage_check (value : jsval) (name : string) : res unit :=
  if is_undefined value then Ok tt
  else match value with
  | JNum (Fin q) =>
      throw_if (Qltb q 0 || Qltb 100 q)
        (RangeError ("DialCache defaultConfig " +:+ name +:+ " must be between 0 and 100"))
  | JNum _ => Err (RangeError ("DialCache defaultConfig " +:+ name +:+ " must be between 0 and 100"))
  | _ => Err (TypeError ("DialCache defaultConfig " +:+ name +:+ " must be a number"))
  end.

(** The TTL and ramp leaves of one layer. *)
Definition checkDefaultLayer (snapshot : DialCacheKeyConfig) (layer : CacheLayer) : res unit :=
  let ttlSec := prop (kc_ttlSec snapshot) (layer_name layer) in
  _ ← (if is_undefined ttlSec then Ok tt
       else match ttlSec with
       | JNum _ =>
           match isSupportedCacheTtlSec ttlSec with
           | Some _ => Ok tt
           | None => Err (RangeError ("DialCache defaultConfig ttlSec." +:+ layer_name layer +:+
                            " must be a positive safe integer no greater than 31536000"))
           end
       | _ => Err (TypeError ("DialCache defaultConfig ttlSec." +:+ layer_name layer +:+ " must be a number"))
       end);
  percentage_check (prop (kc_ramp snapshot) (layer_name layer)) ("ramp." +:+ layer_name layer).

Definition checkDefaultStale (snapshot : DialCacheKeyConfig) : res unit :=
  let maxAge := kc_staleOnErrorMaxAgeSec snapshot in
  if is_undefined maxAge then Ok tt
  else match maxAge with
  | JNum _ =>
      if is_int maxAge 0 then Ok tt
      else match isSupportedCacheTtlSec maxAge with
      | None => Err (RangeError "DialCache defaultConfig staleOnErrorMaxAgeSec must be a nonnegative safe integer no greater than 31536000")
      | Some maxAgeSec =>
          match isSupportedCacheTtlSec (prop (kc_ttlSec snapshot) "remote") with
          | None => Err (RangeError "DialCache defaultConfig staleOnErrorMaxAgeSec requires ttlSec.remote")
          | Some remoteTtlSec =>
              throw_if (maxAgeSec <=? remoteTtlSec)
                (RangeError "DialCache defaultConfig staleOnErrorMaxAgeSec must be greater than ttlSec.remote")
          end
      end
  | _ => Err (TypeError "DialCache defaultConfig staleOnErrorMaxAgeSec must be a number")
  end.

Definition checkDefaultShadow (snapshot : DialCacheKeyConfig) : res unit :=
  let shadow := kc_shadow snapshot in
  if is_undefined shadow then Ok tt
  else
    _ ← percentage_check (prop shadow "ramp") "shadow.ramp";
    let logMismatches := prop shadow "logMismatches" in
    _ ← throw_if (negb (is_undefined logMismatches) && negb (is_boolean logMismatches))
          (TypeError "DialCache defaultConfig shadow.logMismatches must be a boolean");
    let mismatchLogging := prop shadow "mismatchLogging" in
    let value := prop mismatchLogging "value" in
    _ ← throw_if (negb (is_undefined value) && negb (is_boolean value))
          (TypeError "DialCache defaultConfig shadow.mismatchLogging.value must be a boolean");
    let diff := prop mismatchLogging "diff" in
    throw_if (negb (is_undefined diff) && is_none (isShadowMismatchDiffLevel diff))
      (TypeError ("DialCache defaultConfig shadow.mismatchLogging.diff must be " +:+ quoted "off" +:+ ", " +:+ quoted "paths" +:+ " or " +:+ quoted "values")).

(** The snapshot is a fresh, frozen instance; values have no identity here,
    so freezing it is the identity. *)
Definition snapshotDefaultConfig (config : jsval) : res (option DialCacheKeyConfig) :=
  if is_null config || is_undefined config then Ok None
  else
    _ ← throw_if (negb (typeof_object config) || isArray config)
          (TypeError "DialCache defaultConfig must be an object");
    _ ← throw_if (hasOwn config "shadowRamp")
          (TypeError ("DialCacheKeyConfig.shadowRamp was replaced by " +:+ quoted "shadow.ramp"));
    let requestLocal := prop config "requestLocal" in
    _ ← throw_if (negb (is_undefined requestLocal) && negb (is_boolean requestLocal))
          (TypeError "DialCache defaultConfig requestLocal must be a boolean");
    let coalesce := prop config "coalesce" in
    _ ← throw_if (negb (is_undefined coalesce) && negb (is_boolean coalesce))
          (TypeError "DialCache defaultConfig coalesce must be a boolean");
    _ ← assertDefaultLayerMap (prop config "ttlSec") "ttlSec";
    _ ← assertDefaultLayerMap (prop config "ramp") "ramp";
    _ ← assertDefaultShadowConfig (prop config "shadow");
    snapshot ← new_DialCacheKeyConfig
      (obj ([("ttlSec", prop config "ttlSec"); ("ramp", prop config "ramp")]
            ++ spread_defined "requestLocal" requestLocal
            ++ spread_defined "coalesce" coalesce
            ++ spread_defined "staleOnErrorMaxAgeSec" (prop config "staleOnErrorMaxAgeSec")
            ++ spread_defined "remoteReadTimeoutMs" (prop config "remoteReadTimeoutMs")
            ++ spread_defined "shadow" (prop config "shadow")));
    _ ← checkDefaultLayer snapshot LOCAL;
    _ ← checkDefaultLayer snapshot REMOTE;
    _ ← checkDefaultStale snapshot;
    _ ← checkDefaultShadow snapshot;
    Ok (Some snapshot).

(** ** Operation options *)

(** [None] is no deadline. *)
Definition resolveFallbackTimeoutMs (value : jsval) : res (option Z) :=
  if is_null value then Ok None
  else
    let bad := RangeError "DialCache fallbackTimeoutMs must be null or a positive safe integer no greater than 2147483647" in
    match nullish value (JInt DEFAULT_FALLBACK_TIMEOUT_MS) with
    | JNum n =>
        match isSafeInteger n with
        | Some timeoutMs => if (timeoutMs <=? 0) || (MAX_TIMER_DELAY_MS <? timeoutMs) then Err bad else Ok (Some timeoutMs)
        | None => Err bad
        end
    | _ => Err bad
    end.

Definition is_function (v : jsval) : bool := match v with JFun => true | _ => false end.

Definition resolveShadowMismatchDiff (hook : jsval) : res jsval :=
  _ ← throw_if (negb (is_undefined hook) && negb (is_function hook))
        (TypeError "DialCache shadowMismatchDiff must be a function");
  Ok hook.

Definition resolveStaleRecoveryPredicate (predicate : jsval) (fallback : StaleRecoveryPredicate) :
    res StaleRecoveryPredicate :=
  if is_undefined predicate then Ok fallback
  else
    _ ← throw_if (negb (is_function predicate))
          (TypeError "DialCache shouldAttemptStaleRecovery must be a function");
    Ok AppPredicate.

Record CacheOperationOptions := {
  co_key : KeyOptions;
  co_defaultConfig : jsval;
  co_fallbackTimeoutMs : jsval;
  co_shadowMismatchDiff : jsval;
  co_shouldAttemptStaleRecovery : jsval;
}.

Definition assertUseCaseIsNotReserved (uc : jsstr) : res unit :=
  throw_if (str_eqb uc (js "watermark")) (UseCaseNameIsReservedError uc).

(** The registered use cases after a registration. *)
Definition registerUseCase (useCases : list jsstr) (uc : jsstr) : res (list jsstr) :=
  _ ← assertUseCaseIsNotReserved uc;
  _ ← throw_if (existsb (str_eqb uc) useCases) (UseCaseIsAlreadyRegisteredError uc);
  Ok (uc :: useCases).

(** What [cached] and [getOrLoad] resolve before anything else. *)
Definition resolveOptions (this : DialCache) (options : CacheOperationOptions) : res operation :=
  config ← snapshotDefaultConfig (co_defaultConfig options);
  fallbackTimeoutMs ← resolveFallbackTimeoutMs (co_fallbackTimeoutMs options);
  _ ← resolveShadowMismatchDiff (co_shadowMismatchDiff options);
  predicate ← resolveStaleRecoveryPredicate (co_shouldAttemptStaleRecovery options) (dc_staleRecoveryPredicate this);
  Ok {| op_options := co_key options; op_defaultConfig := config;
        op_fallbackTimeoutMs := fallbackTimeoutMs; op_staleRecoveryPredicate := predicate |}.

(** [cached]: the operation each call of the returned function executes, and
    the use cases registered afterwards. *)
Definition cached (this : DialCache) (useCases : list jsstr) (options : CacheOperationOptions) :
    res operation * list jsstr :=
  match (op ← resolveOptions this options;
         registered ← registerUseCase useCases (opt_useCase (co_key options));
         Ok (op, registered)) with
  | Ok (op, registered) => (Ok op, registered)
  | Err e => (Err e, useCases)
  end.

(** [getOrLoad]: one operation, without registration. *)
Definition getOrLoad `{Zstd} (nts : number -> jsstr) (this : DialCache) (options : CacheOperationOptions) : prog jsval :=
  op ← of_res (resolveOptions this options);
  _ ← of_res (assertUseCaseIsNotReserved (opt_useCase (co_key options)));
  executeCacheOperation nts this op.

(** ** Constructors *)

Definition DEFAULT_REMOTE_READ_TIMEOUT_MS : Z := 50.
Definition DEFAULT_LOCAL_MAX_SIZE : Z := 10000.
Definition DEFAULT_SHADOW_MAX_IN_FLIGHT : Z := 1.

(** [new RedisCache({ redis, metrics })]; serializer number 0 is the one of
    the configuration. *)
Definition new_RedisCache (zstdSupported : bool) (redis : jsval) (metrics : option bool) : res RedisCache :=
  _ ← throw_if (hasOwn redis "keyPrefix") (TypeError "RedisConfig.keyPrefix was removed; use DialCacheConfig.namespace for cache identity");
  _ ← throw_if (hasOwn redis "createClient") (TypeError "RedisConfig.createClient was removed; create and connect a client, then pass it as RedisConfig.client");
  _ ← throw_if (hasOwn redis "watermarkTtlSec") (TypeError "RedisConfig.watermarkTtlSec was removed; watermark lifetime is derived by DialCache");
  compression ← resolveCompressionConfig zstdSupported (prop redis "compression");
  let configured := prop redis "readTimeoutMs" in
  readTimeoutMs ← assertValidDeadlineMs
    (if is_undefined configured then JInt DEFAULT_REMOTE_READ_TIMEOUT_MS else configured) "Redis readTimeoutMs";
  _ ← throw_if (is_undefined (prop redis "client")) (TypeError "Redis config requires client");
  Ok {| rd_metrics := metrics;
        rd_serializer := match prop redis "serializer" with JUndefined | JNull => None | _ => Some 0%nat end;
        rd_compression := compression; rd_readTimeoutMs := readTimeoutMs |}.

(** [safeMetrics]: without an adapter there is none; otherwise only
    [shadowValidation] stays optional. *)
Definition safeMetrics (metrics : jsval) : option bool :=
  match metrics with
  | JUndefined | JNull => None
  | _ => Some (is_function (prop metrics "shadowValidation"))
  end.

Definition string_or_type_error (v : jsval) : res jsstr :=
  match v with JStr s => Ok s | _ => Err (TypeError "namespace.includes is not a function") end.

(** A bound that must be a safe integer of at least [least]. *)
Definition bounded_size (value : jsval) (least : Z) (e : exn) : res Z :=
  match value with
  | JNum n => match isSafeInteger n with
              | Some z => if z <? least then Err e else Ok z
              | None => Err e
              end
  | _ => Err e
  end.

(** [new DialCache(config)] *)
Definition new_DialCache (zstdSupported : bool) (config : jsval) : res DialCache :=
  _ ← throw_if (hasOwn config "urnPrefix") (TypeError ("DialCacheConfig.urnPrefix was renamed to " +:+ quoted "namespace"));
  _ ← throw_if (hasOwn config "rampSampler") (TypeError "DialCacheConfig.rampSampler was removed; partial ramps use DialCache's deterministic key-and-layer assignment");
  ns ← string_or_type_error (nullish (prop config "namespace") (JStr (js "urn")));
  _ ← assertValidNamespace ns;
  localMaxSize ← bounded_size (nullish (prop config "localMaxSize") (JInt DEFAULT_LOCAL_MAX_SIZE)) 0
    (RangeError "DialCache localMaxSize must be a nonnegative safe integer");
  let configuredShadow := prop config "shadowMaxInFlight" in
  shadowMaxInFlight ← bounded_size
    (if is_undefined configuredShadow then JInt DEFAULT_SHADOW_MAX_IN_FLIGHT else configuredShadow) 1
    (RangeError "DialCache shadowMaxInFlight must be a positive safe integer");
  let metrics := safeMetrics (prop config "metrics") in
  predicate ← resolveStaleRecoveryPredicate (prop config "shouldAttemptStaleRecovery") DefaultPredicate;
  redis ← (if is_undefined (prop config "redis") then Ok None
           else r ← new_RedisCache zstdSupported (prop config "redis") metrics; Ok (Some r));
  Ok {| dc_namespace := ns; dc_metrics := metrics; dc_local := negb (localMaxSize =? 0);
        dc_redis := redis; dc_staleRecoveryPredicate := predicate; dc_shadowMaxInFlight := shadowMaxInFlight |}.

(** ** Lemmas *)

Lemma percentage_check_ok v name u :
  percentage_check v name = Ok u ->
  v = JUndefined \/ exists q, v = JNum (Fin q) /\ Qltb q 0 || Qltb 100 q = false.
Proof.
  unfold percentage_check. destruct v as [| | |[| |q]| | | |]; simpl; try done; [by left|].
  intros Hq%throw_if_ok. right. eauto.
Qed.

Lemma checkDefaultLayer_resolves c layer u key :
  checkDefaultLayer c layer = Ok u ->
  forall why, resolveLayerConfigResult (Some c) key layer = DisabledFor why -> why = dr_policy_disabled.
Proof.
  unfold checkDefaultLayer. intros Hc why. inv_ok. rename H into Ht, H0 into Hr. unfold resolveLayerConfigResult.
  destruct (is_undefined (prop (kc_ttlSec c) (layer_name layer))); [by intros [= <-]|].
  destruct (isSupportedCacheTtlSec (prop (kc_ttlSec c) (layer_name layer))) as [t|].
  2: by destruct (prop (kc_ttlSec c) (layer_name layer)).
  apply percentage_check_ok in Hr as [->|(q & -> & Hq)].
  - simpl. done.
  - cbn [is_undefined]. rewrite Hq. repeat case_match; done.
Qed.

Lemma checkDefaultStale_resolves c u key :
  checkDefaultStale c = Ok u -> checkDefaultLayer c REMOTE = Ok u ->
  rr_staleOnErrorConfigError (resolveRemoteLayerConfigResult (Some c) key) = false.
Proof.
  unfold checkDefaultStale, resolveRemoteLayerConfigResult. intros Hs Hl.
  pose proof (checkDefaultLayer_resolves _ _ _ key Hl) as Hd.
  destruct (is_undefined (kc_staleOnErrorMaxAgeSec c)) eqn:Eu.
  { destruct (resolveLayerConfigResult _ _ _); cbn [rr_staleOnErrorConfigError]; unfold resolveStaleMaxAge;
      rewrite ?Eu; cbn; rewrite ?andb_false_r; done. }
  destruct (kc_staleOnErrorMaxAgeSec c) as [| | |n| | | |] eqn:En; try done.
  destruct (is_int (JNum n) 0) eqn:E0.
  { destruct (resolveLayerConfigResult _ _ _); cbn [rr_staleOnErrorConfigError]; unfold resolveStaleMaxAge;
      rewrite ?E0; cbn; rewrite ?andb_false_r; done. }
  destruct (isSupportedCacheTtlSec (JNum n)) as [m|] eqn:Em; [|done].
  destruct (isSupportedCacheTtlSec (prop (kc_ttlSec c) "remote")) as [t|] eqn:Et; [|done].
  apply throw_if_ok in Hs.
  destruct (resolveLayerConfigResult (Some c) key REMOTE) as [lc|lc|why] eqn:Er.
  3: { exfalso. specialize (Hd _ eq_refl) as ->. unfold resolveLayerConfigResult in Er. simpl in Er. rewrite Et in Er.
       destruct (prop (kc_ttlSec c) "remote"); simpl in *; try done. repeat case_match; done. }
  all: assert (lc_ttlSec lc = t) as Hlc by
    (unfold resolveLayerConfigResult in Er; simpl in Er; rewrite Et in Er; revert Er; repeat case_match; intros; simplify_eq; done).
  all: unfold resolveStaleMaxAge; rewrite Hlc, E0, Em, Hs; done.
Qed.

Lemma checkDefaultShadow_resolves c u :
  checkDefaultShadow c = Ok u -> res_invalid (resolveMismatchLogging (kc_shadow c)) = false.
Proof.
  unfold checkDefaultShadow. destruct (is_undefined (kc_shadow c)) eqn:Eu; [by destruct (kc_shadow c)|].
  intros Hc. inv_ok.
  unfold resolveMismatchLogging, expandMismatchLogging, expandShorthand.
  destruct (prop (kc_shadow c) "logMismatches") as [| |[]| | | | |]; try done;
    destruct (is_undefined (prop (kc_shadow c) "mismatchLogging")); try done;
    destruct (prop (prop (kc_shadow c) "mismatchLogging") "value") as [| |[]| | | | |]; try done;
    simpl in *; unfold defined_or, resolveDiffLeaf;
    destruct (prop (prop (kc_shadow c) "mismatchLogging") "diff"); simpl in *; try done;
    repeat case_match; done.
Qed.

Lemma snapshot_parts v c :
  snapshotDefaultConfig v = Ok (Some c) ->
  config_wf c /\ checkDefaultLayer c LOCAL = Ok tt /\ checkDefaultLayer c REMOTE = Ok tt /\
  checkDefaultStale c = Ok tt /\ checkDefaultShadow c = Ok tt.
Proof.
  unfold snapshotDefaultConfig. destruct (_ || _); [done|]. intros Hs. inv_ok.
  repeat match goal with u : unit |- _ => destruct u end. simplify_eq.
  repeat split; try done; by eapply new_DialCacheKeyConfig_wf.
Qed.

Lemma resolveFallbackTimeoutMs_range v t :
  resolveFallbackTimeoutMs v = Ok (Some t) -> 0 < t <= MAX_TIMER_DELAY_MS.
Proof.
  unfold resolveFallbackTimeoutMs. destruct (is_null v); [done|]. destruct (nullish v _); try done.
  destruct (isSafeInteger n); [|done]. destruct (_ || _) eqn:E; [done|]. intros [= <-].
  apply orb_false_iff in E as [E1%Z.leb_gt E2%Z.ltb_ge]. lia.
Qed.

(** What the constructors establish. *)
Record instance_wf (this : DialCache) : Prop := {
  iw_namespace : (LBRACE ∉ dc_namespace this) /\ (RBRACE ∉ dc_namespace this);
  iw_shadow : 0 < dc_shadowMaxInFlight this;
  iw_redis : forall redis, dc_redis this = Some redis ->
    rd_metrics redis = dc_metrics this /\ 0 < rd_readTimeoutMs redis <= MAX_TIMER_DELAY_MS /\
    (forall c, rd_compression redis = Some c -> 0 < thresholdBytes c /\ 1 <= level c <= 22);
}.

Lemma bounded_size_ok v least e z : bounded_size v least e = Ok z -> least <= z.
Proof. unfold bounded_size. repeat case_match; naive_solver lia. Qed.

Lemma assertValidDeadlineMs_range v name z : assertValidDeadlineMs v name = Ok z -> 0 < z <= MAX_TIMER_DELAY_MS.
Proof.
  unfold assertValidDeadlineMs. destruct v; try done. destruct (isSafeInteger n); [|done].
  destruct (_ || _) eqn:E; [done|]. intros [= <-]. apply orb_false_iff in E as [E1%Z.leb_gt E2%Z.ltb_ge]. lia.
Qed.

Lemma resolveCompressionConfig_range supported v c :
  resolveCompressionConfig supported v = Ok (Some c) -> 0 < thresholdBytes c /\ 1 <= level c <= 22.
Proof.
  unfold resolveCompressionConfig. destruct (is_bool v false); [done|]. intros Hc. inv_ok. simplify_eq. simpl. split.
  - destruct (nullish _ _); try done. destruct (isSafeInteger n); [|done]. destruct (Z.leb_spec z 0); [done|]. by simplify_eq.
  - clear H0. destruct (nullish (prop v "level") _); try done. destruct (isSafeInteger n); [|done].
    destruct ((z <? 1) || (22 <? z)) eqn:E; [done|]. simplify_eq. apply orb_false_iff in E as [E1%Z.ltb_ge E2%Z.ltb_ge]. lia.
Qed.

Lemma not_includes c s : includes c s = false -> c ∉ s.
Proof.
  unfold includes. intros Hi Hin. apply not_true_iff_false in Hi. apply Hi, existsb_exists.
  exists c. split; [by apply list_elem_of_In|by rewrite Z.eqb_refl].
Qed.

(** ** Properties *)

(** A static default that registration accepts never resolves to invalid
    policy: for every key, neither layer is disabled for an invalid TTL or
    ramp, the stale ceiling is not malformed, and the mismatch-logging leaves
    are valid.  Garbage configuration can only come from the provider. *)
Theorem static_defaults_resolve_cleanly v c key :
  snapshotDefaultConfig v = Ok (Some c) ->
  config_wf c /\
  (forall layer why, resolveLayerConfigResult (Some c) key layer = DisabledFor why -> why = dr_policy_disabled) /\
  rr_staleOnErrorConfigError (resolveRemoteLayerConfigResult (Some c) key) = false /\
  res_invalid (resolveMismatchLogging (kc_shadow c)) = false.
Proof.
  intros (Hwf & Hl & Hr & Hs & Hsh)%snapshot_parts. split; [done|]. split; [|split].
  - intros [] why; by eapply checkDefaultLayer_resolves.
  - by eapply checkDefaultStale_resolves.
  - by eapply checkDefaultShadow_resolves.
Qed.

Lemma static_defaults_resolve_cleanly_witness :
  exists c, snapshotDefaultConfig (obj [("ttlSec", obj [("remote", JInt 60)]); ("ramp", obj [("remote", JInt 25)]);
    ("staleOnErrorMaxAgeSec", JInt 600)]) = Ok (Some c) /\
  rr_staleOnErrorConfigError (resolveRemoteLayerConfigResult (Some c) sample_key) = false.
Proof.
  destruct (snapshotDefaultConfig _) as [[c|]|e] eqn:E; [|vm_compute in E; discriminate E..].
  exists c. split; [reflexivity|]. exact (proj1 (proj2 (proj2 (static_defaults_resolve_cleanly _ c sample_key E)))).
Defined.

(** Registration is exact: [cached] succeeds only with options that
    resolve, a name that is neither reserved nor taken, and a positive timer
    deadline (or none); it then registers that name, and a second
    registration of it fails.  When it fails, nothing is registered. *)
Theorem registration_is_exact this useCases options :
  match cached this useCases options with
  | (Err _, after) => after = useCases
  | (Ok op, after) =>
      let name := opt_useCase (co_key options) in
      resolveOptions this options = Ok op /\ name <> js "watermark" /\ (name ∉ useCases) /\ after = name :: useCases /\
      (forall t, op_fallbackTimeoutMs op = Some t -> 0 < t <= MAX_TIMER_DELAY_MS) /\
      cached this after options = (Err (UseCaseIsAlreadyRegisteredError name), after)
  end.
Proof.
  unfold cached. set (name := opt_useCase (co_key options)).
  destruct (resolveOptions this options) as [op|e] eqn:Eo; [|done]. simpl.
  unfold registerUseCase, assertUseCaseIsNotReserved.
  destruct (str_eqb name (js "watermark")) eqn:Ew; [done|]. simpl.
  destruct (existsb (str_eqb name) useCases) eqn:Ee; [done|]. simpl.
  split; [done|]. split; [intros E; apply str_eqb_eq in E; congruence|]. split; [|split; [done|split]].
  - intros Hin. apply not_true_iff_false in Ee. apply Ee, existsb_exists. exists name.
    split; [by apply list_elem_of_In|by apply str_eqb_eq].
  - unfold resolveOptions in Eo. inv_ok. subst op. simpl. intros t ->. by eapply resolveFallbackTimeoutMs_range.
  - by rewrite (proj2 (str_eqb_eq name name) eq_refl).
Qed.

(** A constructed instance satisfies the bounds every operation relies
    on: a namespace that cannot break a Redis hash tag, at least one shadow
    slot, and for the Redis layer a positive read deadline that a timer can
    express and a compression policy within zstd's levels. *)
Theorem constructed_instance_is_wellformed supported config this :
  new_DialCache supported config = Ok this -> instance_wf this.
Proof.
  unfold new_DialCache. intros Hc. inv_ok. subst this. split; simpl.
  - unfold assertValidNamespace in *. inv_ok.
    match goal with Hn : _ || _ = false |- _ => apply orb_false_iff in Hn as [?%not_includes ?%not_includes] end. done.
  - match goal with Hb : bounded_size _ 1 _ = Ok _ |- _ => apply bounded_size_ok in Hb end. lia.
  - intros redis ->. case_match; [done|]. inv_ok. simplify_eq.
    match goal with Hr : new_RedisCache _ _ _ = Ok _ |- _ => unfold new_RedisCache in Hr end. inv_ok. simplify_eq. simpl.
    split; [done|]. split; [by eapply assertValidDeadlineMs_range|].
    intros c ->. by eapply resolveCompressionConfig_range.
Qed.

Lemma constructed_instance_is_wellformed_witness :
  exists this, new_DialCache true (obj [("namespace", JStr (js "app")); ("shadowMaxInFlight", JInt 4);
    ("redis", obj [("client", obj [])])]) = Ok this /\ instance_wf this.
Proof.
  destruct (new_DialCache _ _) as [this|e] eqn:E; [|vm_compute in E; discriminate E].
  exists this. split; [reflexivity|]. exact (constructed_instance_is_wellformed _ _ this E).
Defined.
