(* ===== verification/Coalescing.v ===== *)
(** * Process-scoped single flight

    The table [processFlights] and the counter [activeProcessFollowers] of a
    [DialCache] instance as a state machine.  A caller that finds no flight
    opens one, starts the work and publishes its promise; a caller that finds
    a published flight joins it; a synchronous throw of the work aborts the
    flight, and the settlement of the promise clears it. *)

From S2P Require Import Prelude JsValue Duration Utf8 Config Key Ramp Metrics RuntimeConfig Frame Compression Effects RedisCache Core.
From Stdlib Require Import Lqa.

Record ProcessFlight := {
  fl_id : nat;
  fl_promise : bool;
  fl_startedAtMs : Q;
  fl_followers : Z;
}.

(** A [Map] keeps its insertion order. *)
Record flights := {
  processFlights : list (jsstr * ProcessFlight);
  activeProcessFollowers : Z;
}.

Definition no_flights : flights := {| processFlights := []; activeProcessFollowers := 0 |}.

(** ** Table operations *)

Fixpoint table_get (t : list (jsstr * ProcessFlight)) (u : jsstr) : option ProcessFlight :=
  match t with
  | [] => None
  | (v, f) :: r => if str_eqb v u then Some f else table_get r u
  end.

(** [Map.set] keeps the position of an existing key and appends a new one. *)
Fixpoint table_set (t : list (jsstr * ProcessFlight)) (u : jsstr) (f : ProcessFlight) : list (jsstr * ProcessFlight) :=
  match t with
  | [] => [(u, f)]
  | (v, g) :: r => if str_eqb v u then (v, f) :: r else (v, g) :: table_set r u f
  end.

Fixpoint table_delete (t : list (jsstr * ProcessFlight)) (u : jsstr) : list (jsstr * ProcessFlight) :=
  match t with
  | [] => []
  | (v, g) :: r => if str_eqb v u then r else (v, g) :: table_delete r u
  end.

(** [singleFlightProcess] when a flight exists: both follower counters. *)
Definition join_flight (s : flights) (u : jsstr) (f : ProcessFlight) : flights :=
  {| processFlights := table_set (processFlights s) u
       {| fl_id := fl_id f; fl_promise := fl_promise f; fl_startedAtMs := fl_startedAtMs f;
          fl_followers := fl_followers f + 1 |};
     activeProcessFollowers := activeProcessFollowers s + 1 |}.

(** Opening a flight, and publishing its promise once [run] has returned. *)
Definition open_flight (s : flights) (u : jsstr) (id : nat) (startedAtMs : Q) : flights :=
  {| processFlights := table_set (processFlights s) u
       {| fl_id := id; fl_promise := false; fl_startedAtMs := startedAtMs; fl_followers := 0 |};
     activeProcessFollowers := activeProcessFollowers s |}.

Definition publish_flight (s : flights) (u : jsstr) (id : nat) : flights :=
  match table_get (processFlights s) u with
  | Some f =>
      if (fl_id f =? id)%nat then
        {| processFlights := table_set (processFlights s) u
             {| fl_id := id; fl_promise := true; fl_startedAtMs := fl_startedAtMs f; fl_followers := fl_followers f |};
           activeProcessFollowers := activeProcessFollowers s |}
      else s
  | None => s
  end.

(** [clear]: only the flight that is still in the table is removed, with its
    followers. *)
Definition clear_flight (s : flights) (u : jsstr) (id : nat) : flights :=
  match table_get (processFlights s) u with
  | Some f =>
      if (fl_id f =? id)%nat then
        {| processFlights := table_delete (processFlights s) u;
           activeProcessFollowers := activeProcessFollowers s - fl_followers f |}
      else s
  | None => s
  end.

(** [getCoalescingState] *)
Definition getCoalescingState (s : flights) (now : Q) : nat * Z * option Q :=
  (length (processFlights s), activeProcessFollowers s,
   match processFlights s with
   | [] => None
   | (_, oldest) :: _ =>
       let age := (now - fl_startedAtMs oldest)%Q in
       Some (if Qle_bool 0 age then age else 0%Q)
   end).

(** The synchronous throw of [run]: the flight is removed without touching
    the follower counter. *)
Definition abort_flight (s : flights) (u : jsstr) (id : nat) : flights :=
  match table_get (processFlights s) u with
  | Some f =>
      if (fl_id f =? id)%nat then
        {| processFlights := table_delete (processFlights s) u;
           activeProcessFollowers := activeProcessFollowers s |}
      else s
  | None => s
  end.

(** ** The machine

    The labels are what the callers did; the machine keeps them, newest
    first.  The guards of [step_publish], [step_abort] and [step_settle] say
    when the runtime runs that code: [run] returns or throws once after the
    flight was opened, and a published promise settles at most once.  Nothing
    is assumed about the table: that the flight is still there is proved. *)

Inductive label :=
| LOpen (u : jsstr) (id : nat)
| LPublish (id : nat)
| LAbort (id : nat)
| LJoin (id : nat)
| LSettle (id : nat).

Record machine := { m_flights : flights; m_next : nat; m_now : Q; m_trace : list label }.

Definition initial : machine := {| m_flights := no_flights; m_next := 0; m_now := 0; m_trace := [] |}.

Definition ends (id : nat) (l : label) : bool :=
  match l with LAbort i | LSettle i => (i =? id)%nat | _ => false end.

Definition ended (tr : list label) (id : nat) : bool := existsb (ends id) tr.

Definition act (m : machine) (s : flights) (l : label) : machine :=
  {| m_flights := s; m_next := m_next m; m_now := m_now m; m_trace := l :: m_trace m |}.

Inductive step : machine -> machine -> Prop :=
| step_time m t :
    (m_now m <= t)%Q ->
    step m {| m_flights := m_flights m; m_next := m_next m; m_now := t; m_trace := m_trace m |}
| step_open m u :
    table_get (processFlights (m_flights m)) u = None ->
    step m {| m_flights := open_flight (m_flights m) u (m_next m) (m_now m);
              m_next := S (m_next m); m_now := m_now m; m_trace := LOpen u (m_next m) :: m_trace m |}
| step_publish m u id :
    LOpen u id ∈ m_trace m -> LPublish id ∉ m_trace m -> ended (m_trace m) id = false ->
    step m (act m (publish_flight (m_flights m) u id) (LPublish id))
| step_abort m u id :
    LOpen u id ∈ m_trace m -> LPublish id ∉ m_trace m -> ended (m_trace m) id = false ->
    step m (act m (abort_flight (m_flights m) u id) (LAbort id))
| step_join m u f :
    table_get (processFlights (m_flights m)) u = Some f -> fl_promise f = true ->
    step m (act m (join_flight (m_flights m) u f) (LJoin (fl_id f)))
| step_settle m u id :
    LOpen u id ∈ m_trace m -> LPublish id ∈ m_trace m -> ended (m_trace m) id = false ->
    step m (act m (clear_flight (m_flights m) u id) (LSettle id)).

Definition reachable (m : machine) : Prop := rtc step initial m.

(** ** What the callers did *)

Definition joins_of (P : nat -> bool) (tr : list label) : Z :=
  foldr (fun l acc => match l with LJoin i => (if P i then 1 else 0) + acc | _ => acc end) 0 tr.

(** Joins of one flight, and joins of flights that have not ended. *)
Definition joined (tr : list label) (id : nat) : Z := joins_of (fun i => (i =? id)%nat) tr.
Definition waiting (tr : list label) : Z := joins_of (fun i => negb (ended tr i)) tr.

(** ** Invariant *)

Definition started_in_order (t : list (jsstr * ProcessFlight)) : Prop :=
  StronglySorted (fun a b => (fl_startedAtMs a.2 <= fl_startedAtMs b.2)%Q) t.

Record flight_ok (m : machine) (u : jsstr) (f : ProcessFlight) : Prop := {
  fo_opened : LOpen u (fl_id f) ∈ m_trace m;
  fo_live : ended (m_trace m) (fl_id f) = false;
  fo_promise : fl_promise f = true <-> LPublish (fl_id f) ∈ m_trace m;
  fo_followers : fl_followers f = joined (m_trace m) (fl_id f);
  fo_unpublished : fl_promise f = false -> fl_followers f = 0;
  fo_started : (fl_startedAtMs f <= m_now m)%Q;
}.

Definition label_id (l : label) : nat :=
  match l with LOpen _ i | LPublish i | LAbort i | LJoin i | LSettle i => i end.

Record flights_ok (m : machine) : Prop := {
  ok_keys : NoDup (processFlights (m_flights m)).*1;
  ok_order : started_in_order (processFlights (m_flights m));
  ok_flights : forall u f, (u, f) ∈ processFlights (m_flights m) -> flight_ok m u f;
  ok_live : forall u id, LOpen u id ∈ m_trace m -> ended (m_trace m) id = false ->
              exists f, table_get (processFlights (m_flights m)) u = Some f /\ fl_id f = id;
  ok_ids : Forall (fun l => (label_id l < m_next m)%nat) (m_trace m);
  ok_opened_once : forall u v id, LOpen u id ∈ m_trace m -> LOpen v id ∈ m_trace m -> u = v;
  ok_waiting : activeProcessFollowers (m_flights m) = waiting (m_trace m);
}.

(** ** Lemmas *)

Lemma str_eqb_ne u v : str_eqb u v = false <-> u <> v.
Proof. unfold str_eqb. apply bool_decide_eq_false. Qed.

Lemma table_get_None t u : table_get t u = None <-> u ∉ t.*1.
Proof.
  induction t as [|[v f] t IH]; simpl; [set_solver|]. destruct (str_eqb v u) eqn:E.
  - apply str_eqb_eq in E as ->. set_solver.
  - apply str_eqb_ne in E. rewrite IH. set_solver.
Qed.

Lemma table_set_new t u f : table_get t u = None -> table_set t u f = t ++ [(u, f)].
Proof.
  induction t as [|[v g] t IH]; simpl; [done|]. destruct (str_eqb v u); [done|]. intros Hn. by rewrite IH.
Qed.

Lemma table_get_snoc t u f : table_get t u = None -> table_get (t ++ [(u, f)]) u = Some f.
Proof.
  induction t as [|[v g] t IH]; simpl; [by rewrite str_eqb_refl|]. by destruct (str_eqb v u).
Qed.

Lemma table_set_snoc t u f g : table_get t u = None -> table_set (t ++ [(u, f)]) u g = t ++ [(u, g)].
Proof.
  induction t as [|[v h] t IH]; simpl; [by rewrite str_eqb_refl|]. destruct (str_eqb v u); [done|]. intros Hn. by rewrite IH.
Qed.

(** A table in which [u] is bound splits around its entry. *)
Lemma table_get_split t u f :
  table_get t u = Some f ->
  exists l r, t = l ++ (u, f) :: r /\ (forall g, table_set t u g = l ++ (u, g) :: r) /\ table_delete t u = l ++ r.
Proof.
  induction t as [|[v g] t IH]; simpl; [done|]. destruct (str_eqb v u) eqn:E.
  - apply str_eqb_eq in E as ->. intros [= ->]. by exists [], t.
  - intros (l & r & -> & Hs & Hd)%IH. exists ((v, g) :: l), r. split; [done|]. split; [|by rewrite Hd].
    intros g'. by rewrite Hs.
Qed.

Lemma ordered_replace l e e' r :
  fl_startedAtMs e'.2 = fl_startedAtMs e.2 -> started_in_order (l ++ e :: r) -> started_in_order (l ++ e' :: r).
Proof.
  intros He. unfold started_in_order. induction l as [|x l IH]; simpl; inversion 1 as [|? ? Hs Hf]; subst.
  - constructor; [done|]. by rewrite He.
  - constructor; [by apply IH|]. rewrite !Forall_app, !Forall_cons_iff in *. by rewrite He.
Qed.

Lemma ordered_remove l e r : started_in_order (l ++ e :: r) -> started_in_order (l ++ r).
Proof.
  unfold started_in_order. induction l as [|x l IH]; simpl; inversion 1 as [|? ? Hs Hf]; subst; [done|].
  constructor; [by apply IH|]. rewrite Forall_app, Forall_cons_iff in Hf. rewrite Forall_app. naive_solver.
Qed.

Lemma ordered_snoc l e :
  Forall (fun x => (fl_startedAtMs x.2 <= fl_startedAtMs e.2)%Q) l -> started_in_order l -> started_in_order (l ++ [e]).
Proof.
  unfold started_in_order. induction l as [|x l IH]; simpl; intros Hl Hs; [by repeat constructor|].
  apply Forall_cons_1 in Hl as [Hx Hl]. inversion Hs as [|? ? Hs' Hf]; subst. constructor; [by apply IH|].
  apply Forall_app. split; [done|]. by constructor.
Qed.

Lemma table_get_elem t u f : NoDup t.*1 -> (u, f) ∈ t <-> table_get t u = Some f.
Proof.
  induction t as [|[v g] t IH]; simpl; intros Hnd; [set_solver|]. apply list.NoDup_cons in Hnd as [Hv Hnd].
  rewrite elem_of_cons. destruct (str_eqb v u) eqn:E.
  - apply str_eqb_eq in E as ->. split; [|intros [= ->]; by left]. intros [[= ->]|Hin]; [done|].
    destruct Hv. apply (list_elem_of_fmap_2 fst _ _ Hin).
  - apply str_eqb_ne in E. rewrite IH by done. naive_solver.
Qed.

Lemma joins_none P tr : (forall id, LJoin id ∈ tr -> P id = false) -> joins_of P tr = 0.
Proof.
  induction tr as [|l tr IH]; simpl; intros H; [done|]. rewrite IH by set_solver.
  destruct l; try done. rewrite (H id) by set_solver. done.
Qed.

Lemma joins_ext P Q tr : (forall id, P id = Q id) -> joins_of P tr = joins_of Q tr.
Proof. intros H. induction tr as [|l tr IH]; simpl; [done|]. rewrite IH. destruct l; [done..| |done]. by rewrite H. Qed.

(** Taking one flight out of the count takes its joins out. *)
Lemma joins_split P id tr :
  P id = true ->
  joins_of P tr = joined tr id + joins_of (fun i => if (i =? id)%nat then false else P i) tr.
Proof.
  intros H. unfold joined. induction tr as [|l tr IH]; simpl; [done|]. rewrite IH.
  destruct l as [| | |i|]; try lia. destruct (i =? id)%nat eqn:E; [|lia].
  apply Nat.eqb_eq in E as ->. rewrite H. lia.
Qed.

Lemma ended_cons l tr id : ended (l :: tr) id = ends id l || ended tr id.
Proof. done. Qed.

Lemma ended_in tr id : ended tr id = true -> exists l, l ∈ tr /\ label_id l = id.
Proof.
  unfold ended. rewrite existsb_exists. intros (l & Hin%list_elem_of_In & He). exists l. split; [done|].
  destruct l; try discriminate He; by apply Nat.eqb_eq.
Qed.

Lemma elem_of_app_cons_perm {A} (x y : A) l r : x ∈ l ++ y :: r <-> x = y \/ x ∈ l ++ r.
Proof. set_solver. Qed.

(** How each label changes the number of waiting callers. *)
Lemma waiting_join tr id : ended tr id = false -> waiting (LJoin id :: tr) = waiting tr + 1.
Proof. intros H. unfold waiting. simpl. rewrite H. simpl. lia. Qed.

Lemma waiting_end tr lb id :
  lb = LSettle id \/ lb = LAbort id -> ended tr id = false -> waiting (lb :: tr) = waiting tr - joined tr id.
Proof.
  intros Hlb H. unfold waiting at 2. rewrite (joins_split _ id) by (by rewrite H).
  assert (waiting (lb :: tr) = joins_of (fun i => negb (ended (lb :: tr) i)) tr) as ->
    by (unfold waiting; by destruct Hlb as [-> | ->]).
  rewrite (joins_ext _ (fun i => if (i =? id)%nat then false else negb (ended tr i))); [lia|].
  intros i. rewrite ended_cons. destruct Hlb as [-> | ->]; simpl; rewrite Nat.eqb_sym; by destruct (i =? id)%nat.
Qed.

Lemma waiting_other tr lb :
  match lb with LOpen _ _ | LPublish _ => True | _ => False end -> waiting (lb :: tr) = waiting tr.
Proof. by destruct lb. Qed.

Arguments ended : simpl never.
Arguments waiting : simpl never.
Arguments joined : simpl never.

(** ** Preservation *)

Section preservation.
  Context (m : machine) (Hok : flights_ok m).

Local Abbreviation table := (processFlights (m_flights m)).
Local Abbreviation tr := (m_trace m).

Lemma id_used l : l ∈ tr -> (label_id l < m_next m)%nat.
Proof. pose proof (ok_ids _ Hok) as Hids. rewrite list.Forall_forall in Hids. apply Hids. Qed.

Lemma fresh_not_ended : ended tr (m_next m) = false.
Proof.
  destruct (ended tr (m_next m)) eqn:E; [|done]. apply ended_in in E as (l & Hl & Hid). apply id_used in Hl. lia.
Qed.

(** The flight of an entry: its identity picks it out of the table. *)
Lemma live_entry u id :
  LOpen u id ∈ tr -> ended tr id = false ->
  exists l f r, table = l ++ (u, f) :: r /\ fl_id f = id /\ table_get table u = Some f /\
    (forall g, table_set table u g = l ++ (u, g) :: r) /\ table_delete table u = l ++ r /\ flight_ok m u f.
Proof.
  intros Ho He. destruct (ok_live _ Hok _ _ Ho He) as (f & Hg & Hid).
  destruct (table_get_split _ _ _ Hg) as (l & r & Ht & Hs & Hd). exists l, f, r. repeat (split; [done|]).
  apply (ok_flights _ Hok). rewrite Ht. set_solver.
Qed.

(** The other entries do not share its identity. *)
Lemma other_entry l u f r v g :
  table = l ++ (u, f) :: r -> (v, g) ∈ l ++ r -> v <> u /\ fl_id g <> fl_id f /\ flight_ok m v g.
Proof.
  intros Ht Hin. assert (flight_ok m v g) as Hg by (apply (ok_flights _ Hok); rewrite Ht; set_solver).
  assert (flight_ok m u f) as Hf by (apply (ok_flights _ Hok); rewrite Ht; set_solver).
  assert (v <> u) as Hne.
  { intros ->. pose proof (ok_keys _ Hok) as Hnd. rewrite Ht, fmap_app in Hnd. simpl in Hnd.
    apply list.NoDup_app in Hnd as (_ & Hd & [Hn _]%list.NoDup_cons).
    apply elem_of_app in Hin as [Hin|Hin]; apply (list_elem_of_fmap_2 fst) in Hin; simpl in Hin.
    - apply (Hd u Hin). by left.
    - done. }
  split; [done|]. split; [|done]. intros Heq. apply Hne. apply (ok_opened_once _ Hok v u (fl_id f)); [|apply Hf].
  rewrite <- Heq. apply Hg.
Qed.

(** A label that ends nothing and opens nothing keeps the other entries. *)
Lemma other_ok m' l v g :
  flight_ok m v g -> m_trace m' = l :: tr -> m_now m' = m_now m ->
  label_id l <> fl_id g -> flight_ok m' v g.
Proof.
  intros [Ho Hl Hp Hf Hu Hs] Htr Hnow Hid. unfold joined in *.
  split; rewrite ?Htr, ?Hnow; try done.
  - set_solver.
  - rewrite ended_cons, Hl, orb_false_r. destruct l; simpl in *; try done; by apply Nat.eqb_neq.
  - rewrite Hp, elem_of_cons. split; [auto|]. intros [<-|]; [|done]. simpl in Hid. done.
  - unfold joined. simpl. destruct l; try done. apply Nat.eqb_neq in Hid. simpl in *. by rewrite Hid.
Qed.

Lemma table_elem u f : (u, f) ∈ table <-> table_get table u = Some f.
Proof. apply table_get_elem, Hok. Qed.

(** The step replaces the entry of one flight: it is published or joined. *)
Lemma update_ok l u f g r lb s :
  table = l ++ (u, f) :: r -> processFlights s = l ++ (u, g) :: r ->
  fl_startedAtMs g = fl_startedAtMs f -> fl_id g = fl_id f ->
  lb = LPublish (fl_id f) \/ lb = LJoin (fl_id f) ->
  activeProcessFollowers s = waiting (lb :: tr) ->
  flight_ok (act m s lb) u g -> flights_ok (act m s lb).
Proof.
  intros Ht Hs Hst Hid Hlb Hw Hg.
  assert (forall v id, LOpen v id ∈ lb :: tr -> LOpen v id ∈ tr) as Hopen by (destruct Hlb as [-> | ->]; set_solver).
  assert (forall id, ended (lb :: tr) id = ended tr id) as Hend by (by destruct Hlb as [-> | ->]).
  assert (label_id lb = fl_id f) as Hlid by (by destruct Hlb as [-> | ->]).
  assert (LOpen u (fl_id f) ∈ tr) as Hu by (apply Hopen; rewrite <- Hid; apply Hg).
  assert (NoDup (l ++ (u, g) :: r).*1) as Hnd.
  { pose proof (ok_keys _ Hok) as Hnd. rewrite Ht in Hnd. by rewrite fmap_app in *. }
  split; simpl; rewrite ?Hs.
  - done.
  - pose proof (ok_order _ Hok) as Ho. rewrite Ht in Ho. revert Ho. by apply ordered_replace.
  - intros v h [[= -> ->]|Hin]%elem_of_app_cons_perm; [done|].
    destruct (other_entry _ _ _ _ _ _ Ht Hin) as (_ & Hne & Hh).
    apply (other_ok _ lb); [done..|]. by rewrite Hlid.
  - intros v id Hv%Hopen He. rewrite Hend in He. destruct (ok_live _ Hok _ _ Hv He) as (h & Hget & Hih).
    apply table_elem in Hget. rewrite Ht in Hget. apply elem_of_app_cons_perm in Hget as [[= -> ->]|Hin].
    + exists g. split; [|congruence]. apply table_get_elem; [done|]. set_solver.
    + exists h. split; [|done]. apply table_get_elem; [done|]. set_solver.
  - constructor; [|apply Hok]. rewrite Hlid. apply (id_used _ Hu).
  - intros v w id Hv%Hopen Hw'%Hopen. by apply (ok_opened_once _ Hok v w id).
  - done.
Qed.

(** The step removes the entry of one flight: its promise settled, or [run]
    threw. *)
Lemma remove_ok l u f r lb s :
  table = l ++ (u, f) :: r -> processFlights s = l ++ r ->
  lb = LSettle (fl_id f) \/ lb = LAbort (fl_id f) ->
  activeProcessFollowers s = waiting (lb :: tr) -> flights_ok (act m s lb).
Proof.
  intros Ht Hs Hlb Hw.
  assert (forall v id, LOpen v id ∈ lb :: tr -> LOpen v id ∈ tr) as Hopen by (destruct Hlb as [-> | ->]; set_solver).
  assert (forall id, ended (lb :: tr) id = (fl_id f =? id)%nat || ended tr id) as Hend by (by destruct Hlb as [-> | ->]).
  assert (label_id lb = fl_id f) as Hlid by (by destruct Hlb as [-> | ->]).
  assert (flight_ok m u f) as Hf by (apply (ok_flights _ Hok); rewrite Ht; set_solver).
  assert (NoDup (l ++ r).*1) as Hnd.
  { pose proof (ok_keys _ Hok) as Hnd. rewrite Ht in Hnd. rewrite fmap_app in *. simpl in Hnd.
    rewrite list.NoDup_app, list.NoDup_cons in Hnd. rewrite list.NoDup_app. set_solver. }
  split; simpl; rewrite ?Hs.
  - done.
  - pose proof (ok_order _ Hok) as Ho. rewrite Ht in Ho. revert Ho. by apply ordered_remove.
  - intros v h Hin. destruct (other_entry _ _ _ _ _ _ Ht Hin) as (_ & Hne & Hh).
    apply (other_ok _ lb); [done..|]. by rewrite Hlid.
  - intros v id Hv%Hopen He. rewrite Hend in He. apply orb_false_iff in He as [Hne%Nat.eqb_neq He].
    destruct (ok_live _ Hok _ _ Hv He) as (h & Hget & Hih). exists h. split; [|done].
    apply table_elem in Hget. rewrite Ht in Hget. apply table_get_elem; [done|].
    apply elem_of_app_cons_perm in Hget as [[= -> ->]|Hin]; done.
  - constructor; [|apply Hok]. rewrite Hlid. apply (id_used _ (fo_opened _ _ _ Hf)).
  - intros v w id Hv%Hopen Hw'%Hopen. by apply (ok_opened_once _ Hok v w id).
  - done.
Qed.

End preservation.

Lemma open_ok m u :
  flights_ok m -> table_get (processFlights (m_flights m)) u = None ->
  flights_ok {| m_flights := open_flight (m_flights m) u (m_next m) (m_now m);
                m_next := S (m_next m); m_now := m_now m; m_trace := LOpen u (m_next m) :: m_trace m |}.
Proof.
  intros Hok Hn. assert (forall l, l ∈ m_trace m -> label_id l <> m_next m) as Hfresh
    by (intros l Hl%(id_used _ Hok) ?; lia).
  pose proof (table_set_new _ _ {| fl_id := m_next m; fl_promise := false; fl_startedAtMs := m_now m; fl_followers := 0 |} Hn) as Hset.
  assert (NoDup (processFlights (m_flights m) ++
    [(u, {| fl_id := m_next m; fl_promise := false; fl_startedAtMs := m_now m; fl_followers := 0 |})]).*1) as Hnd.
  { rewrite fmap_app. apply list.NoDup_app. split; [apply Hok|]. apply table_get_None in Hn. simpl.
    split; [set_solver|]. apply NoDup_singleton. }
  split; simpl; rewrite ?Hset.
  - done.
  - apply ordered_snoc; [|apply Hok]. apply list.Forall_forall. intros [v f] Hin. apply (ok_flights _ Hok _ _ Hin).
  - intros v f [Hin|[= -> ->]%list_elem_of_singleton]%elem_of_app.
    + pose proof (ok_flights _ Hok _ _ Hin) as Hf. eapply other_ok with (m := m) (l := LOpen u (m_next m)); [done..|].
      apply not_eq_sym, (Hfresh (LOpen v (fl_id f))), Hf.
    + split; simpl; try done; [by left|apply (fresh_not_ended _ Hok)| | |apply Qle_refl].
      * split; [done|]. intros [?|Hin]%elem_of_cons; [done|]. by destruct (Hfresh _ Hin).
      * symmetry. apply joins_none. intros id [?|Hin]%elem_of_cons; [done|]. apply Nat.eqb_neq, (Hfresh _ Hin).
  - intros v id [[= -> ->]|Hin]%elem_of_cons He.
    + eexists. split; [by apply table_get_snoc|done].
    + destruct (ok_live _ Hok _ _ Hin He) as (f & Hf & Hid). exists f. split; [|done].
      apply table_get_elem; [done|]. apply (table_elem m Hok) in Hf. set_solver.
  - constructor; [simpl; lia|]. eapply list.Forall_impl; [apply (ok_ids _ Hok)|]. simpl. lia.
  - intros v w id [[= -> ->]|Hv]%elem_of_cons [[= ->]|Hw]%elem_of_cons; try done.
    + by destruct (Hfresh _ Hw).
    + subst id. by destruct (Hfresh _ Hv).
    + by apply (ok_opened_once _ Hok v w id).
  - rewrite waiting_other by done. apply Hok.
Qed.

Lemma publish_ok m u id :
  flights_ok m -> LOpen u id ∈ m_trace m -> LPublish id ∉ m_trace m -> ended (m_trace m) id = false ->
  flights_ok (act m (publish_flight (m_flights m) u id) (LPublish id)).
Proof.
  intros Hok Ho Hnp He. destruct (live_entry _ Hok _ _ Ho He) as (l & f & r & Ht & <- & Hg & Hset & _ & Hf).
  unfold publish_flight. rewrite Hg, Nat.eqb_refl, Hset.
  eapply update_ok; [done|exact Ht|done|done|done|by left|by rewrite waiting_other; [apply Hok|]|].
  destruct Hf as [Hfo Hl Hp Hfol Hu Hs]. split; simpl; try done; [set_solver|]. split; [by left|done].
Qed.

Lemma join_ok m u f :
  flights_ok m -> table_get (processFlights (m_flights m)) u = Some f -> fl_promise f = true ->
  flights_ok (act m (join_flight (m_flights m) u f) (LJoin (fl_id f))).
Proof.
  intros Hok Hg Hpr. destruct (table_get_split _ _ _ Hg) as (l & r & Ht & Hset & _).
  pose proof Hg as Hf%(table_elem m Hok)%(ok_flights _ Hok). unfold join_flight. rewrite Hset.
  eapply update_ok; [done|exact Ht|done|done|done|by right| |].
  - simpl. rewrite waiting_join by apply Hf. f_equal. apply Hok.
  - destruct Hf as [Hfo Hl Hp Hfol Hu Hs]. split; simpl; try done; [set_solver| | |congruence].
    + rewrite Hp. set_solver.
    + rewrite Hfol. unfold joined. simpl. rewrite Nat.eqb_refl. lia.
Qed.

Lemma settle_ok m u id :
  flights_ok m -> LOpen u id ∈ m_trace m -> ended (m_trace m) id = false ->
  flights_ok (act m (clear_flight (m_flights m) u id) (LSettle id)).
Proof.
  intros Hok Ho He. destruct (live_entry _ Hok _ _ Ho He) as (l & f & r & Ht & <- & Hg & _ & Hdel & Hf).
  unfold clear_flight. rewrite Hg, Nat.eqb_refl, Hdel. eapply remove_ok; [done|exact Ht|done|by left|].
  simpl. rewrite (waiting_end _ _ (fl_id f)); [|by left|done]. rewrite (fo_followers _ _ _ Hf). f_equal. apply Hok.
Qed.

Lemma abort_ok m u id :
  flights_ok m -> LOpen u id ∈ m_trace m -> LPublish id ∉ m_trace m -> ended (m_trace m) id = false ->
  flights_ok (act m (abort_flight (m_flights m) u id) (LAbort id)).
Proof.
  intros Hok Ho Hnp He. destruct (live_entry _ Hok _ _ Ho He) as (l & f & r & Ht & <- & Hg & _ & Hdel & Hf).
  unfold abort_flight. rewrite Hg, Nat.eqb_refl, Hdel. eapply remove_ok; [done|exact Ht|done|by right|].
  simpl. rewrite (waiting_end _ _ (fl_id f)); [|by right|done]. rewrite <- (fo_followers _ _ _ Hf).
  rewrite (fo_unpublished _ _ _ Hf), (ok_waiting _ Hok); [lia|].
  destruct (fl_promise f) eqn:E; [|done]. apply (fo_promise _ _ _ Hf) in E. done.
Qed.

Lemma step_ok m m' : step m m' -> flights_ok m -> flights_ok m'.
Proof.
  intros Hstep Hok. destruct Hstep;
    eauto using open_ok, publish_ok, join_ok, settle_ok, abort_ok.
  destruct Hok as [H1 H2 H3 H4 H5 H6 H7]. split; simpl; try done. intros u f Hin.
  destruct (H3 u f Hin) as [Ho Hl Hp Hf Hu Hs]. split; try done. simpl. by eapply Qle_trans.
Qed.

Lemma reachable_ok m : reachable m -> flights_ok m.
Proof.
  intros H. unfold reachable in H. remember initial as m0 eqn:E.
  assert (flights_ok m0) as H0.
  { subst. split; simpl; try done; try (intros; set_solver); constructor. }
  clear E. induction H; eauto using step_ok.
Qed.

Lemma oldest_bounds m u f r now :
  flights_ok m -> (m_now m <= now)%Q -> processFlights (m_flights m) = (u, f) :: r ->
  (0 <= now - fl_startedAtMs f)%Q /\
  forall v g, (v, g) ∈ processFlights (m_flights m) -> (now - fl_startedAtMs g <= now - fl_startedAtMs f)%Q.
Proof.
  intros Hok Hnow Ht. split.
  - assert (fl_startedAtMs f <= m_now m)%Q as Hs by (apply (ok_flights _ Hok u); rewrite Ht; set_solver). lra.
  - intros v g Hin. pose proof (ok_order _ Hok) as Ho. rewrite Ht in Hin, Ho. unfold started_in_order in Ho.
    apply elem_of_cons in Hin as [[= -> ->]|Hin]; [lra|]. inversion Ho as [|? ? _ Hall]; subst.
    rewrite list.Forall_forall in Hall. specialize (Hall _ Hin). simpl in Hall. lra.
Qed.

(** C14. The diagnostic snapshot is exact in every reachable state.
    [activeLeaders] is the number of flights that were opened and have not
    ended, [activeFollowers] the number of callers that joined one of those,
    and [oldestLeaderAgeMs] the age of the flight that has run longest ([null]
    when there is none). *)
Theorem coalescing_state_exact m now leaders followers oldest :
  reachable m -> (m_now m <= now)%Q ->
  getCoalescingState (m_flights m) now = (leaders, followers, oldest) ->
  (exists live : list (jsstr * nat),
     NoDup live.*1 /\ leaders = length live /\
     forall u id, (u, id) ∈ live <-> LOpen u id ∈ m_trace m /\ ended (m_trace m) id = false) /\
  followers = waiting (m_trace m) /\
  match oldest with
  | None => leaders = 0%nat
  | Some age =>
      (exists u f, (u, f) ∈ processFlights (m_flights m) /\ age = (now - fl_startedAtMs f)%Q) /\
      forall u f, (u, f) ∈ processFlights (m_flights m) -> (now - fl_startedAtMs f <= age)%Q
  end.
Proof.
  intros Hr Hnow Hs. pose proof (reachable_ok _ Hr) as Hok. unfold getCoalescingState in Hs.
  injection Hs as <- <- <-. split; [|split; [apply Hok|]].
  - exists (prod_map id fl_id <$> processFlights (m_flights m)). rewrite length_fmap. split; [|split; [done|]].
    + rewrite <- list_fmap_compose. apply Hok.
    + intros u id. rewrite list_elem_of_fmap. split.
      * intros ([v f] & [= -> ->] & Hin). pose proof (ok_flights _ Hok _ _ Hin) as Hf. split; apply Hf.
      * intros [Ho He]. destruct (ok_live _ Hok _ _ Ho He) as (f & Hg & <-). exists (u, f).
        split; [done|]. by apply (table_elem _ Hok).
  - destruct (processFlights (m_flights m)) as [|[u f] r] eqn:Ht; [done|].
    destruct (oldest_bounds _ _ _ _ _ Hok Hnow Ht) as [H0 Hall]. apply Qle_bool_iff in H0. rewrite H0.
    rewrite Ht in Hall. split; [|done]. exists u, f. split; [set_solver|done].
Qed.

(** Callers of one key are routed to its flight.  While a flight for a
    key is open, a lookup finds exactly that flight, so no second leader can
    start; once it has ended, a lookup finds nothing or a later flight.  The
    followers recorded on a flight are the callers that joined it, and a
    flight whose promise is not yet set has none. *)
Theorem flight_lookup_exact m u :
  reachable m ->
  (forall id, LOpen u id ∈ m_trace m -> ended (m_trace m) id = false ->
     exists f, table_get (processFlights (m_flights m)) u = Some f /\ fl_id f = id) /\
  (forall f, table_get (processFlights (m_flights m)) u = Some f ->
     LOpen u (fl_id f) ∈ m_trace m /\ ended (m_trace m) (fl_id f) = false /\
     (fl_promise f = true <-> LPublish (fl_id f) ∈ m_trace m) /\
     fl_followers f = joined (m_trace m) (fl_id f) /\ (fl_promise f = false -> fl_followers f = 0)).
Proof.
  intros Hr. pose proof (reachable_ok _ Hr) as Hok. split; [by apply Hok|].
  intros f Hg. apply (table_elem _ Hok), (ok_flights _ Hok) in Hg. repeat split; apply Hg.
Qed.

(** ** A sample run: two keys, two followers, one flight settled *)

Definition key_a : jsstr := js "a".
Definition key_b : jsstr := js "b".

Definition fresh_flight (m : machine) (u : jsstr) : machine :=
  {| m_flights := open_flight (m_flights m) u (m_next m) (m_now m); m_next := S (m_next m);
     m_now := m_now m; m_trace := LOpen u (m_next m) :: m_trace m |}.

Definition sample_before_settle : machine :=
  let m1 := fresh_flight initial key_a in
  let m2 := act m1 (publish_flight (m_flights m1) key_a 0) (LPublish 0) in
  let m3 := act m2 (default no_flights (join_flight (m_flights m2) key_a <$> table_get (processFlights (m_flights m2)) key_a)) (LJoin 0) in
  let m4 := {| m_flights := m_flights m3; m_next := m_next m3; m_now := 7; m_trace := m_trace m3 |} in
  fresh_flight m4 key_b.

Lemma sample_before_settle_reachable : reachable sample_before_settle.
Proof.
  unfold reachable, sample_before_settle.
  eapply rtc_l; [apply (step_open initial key_a); reflexivity|].
  eapply rtc_l; [apply (step_publish _ key_a 0); [by left|by intros ?%list_elem_of_singleton|reflexivity]|].
  eapply rtc_l; [eapply (step_join _ key_a); reflexivity|].
  eapply rtc_l; [apply (step_time _ 7); vm_compute; discriminate|].
  eapply rtc_l; [apply (step_open _ key_b); reflexivity|]. apply rtc_refl.
Qed.

Lemma coalescing_state_exact_witness :
  getCoalescingState (m_flights sample_before_settle) 10 = (2%nat, 1, Some (10 - 0)%Q) /\
  waiting (m_trace sample_before_settle) = 1.
Proof.
  destruct (coalescing_state_exact sample_before_settle 10 2 1 (Some (10 - 0)%Q)) as (_ & <- & _).
  - exact sample_before_settle_reachable.
  - vm_compute. discriminate.
  - reflexivity.
  - split; reflexivity.
Defined.

Lemma flight_lookup_exact_witness :
  exists f, table_get (processFlights (m_flights sample_before_settle)) key_a = Some f /\ fl_id f = 0%nat.
Proof.
  destruct (flight_lookup_exact sample_before_settle key_a sample_before_settle_reachable) as [H _].
  apply H; [vm_compute; by repeat constructor|reflexivity].
Defined.
