(* ===== verification/Context.v ===== *)
(** * Cache scopes

    [DialCacheContext] of [context.ts]: [enable] and [disable] run a callback
    under a store that every asynchronous continuation of it inherits, the
    outermost [enable] owns a holder that its settlement closes, and the
    holder carries the request-local cache.  Objects live in a heap and
    references are indices.

    A continuation can outlive the scope it was started in, so the machine
    keeps every store ever entered: any of them may be current again. *)

From S2P Require Import Prelude JsValue.

(** ** Data *)

Record RequestLocalCache := {
  rl_inFlight : gmap jsstr nat;
  rl_values : gmap jsstr jsval;
  rl_closed : bool;
}.

Record RequestHolder := { rh_closed : bool; rh_requestLocalCache : option nat }.

Record ContextStore := { cs_enabled : bool; cs_holder : option nat }.

Record heap := { hp_holders : list RequestHolder; hp_caches : list RequestLocalCache }.

Definition empty_heap : heap := {| hp_holders := []; hp_caches := [] |}.

Definition new_cache : RequestLocalCache := {| rl_inFlight := ∅; rl_values := ∅; rl_closed := false |}.

(** ** The request-local cache *)

(** [None] is [{ status: "miss" }]. *)
Definition read (c : RequestLocalCache) (key : jsstr) : option jsval :=
  if rl_closed c then None else rl_values c !! key.

Definition set (c : RequestLocalCache) (key : jsstr) (value : jsval) : RequestLocalCache :=
  if rl_closed c then c
  else {| rl_inFlight := rl_inFlight c; rl_values := <[key := value]> (rl_values c); rl_closed := false |}.

Definition close (c : RequestLocalCache) : RequestLocalCache :=
  {| rl_inFlight := ∅; rl_values := ∅; rl_closed := true |}.

(** [inFlight] is a plain map that the instance reads and writes. *)
Definition set_inFlight (c : RequestLocalCache) (m : gmap jsstr nat) : RequestLocalCache :=
  {| rl_inFlight := m; rl_values := rl_values c; rl_closed := rl_closed c |}.

(** ** Scopes: [store] is what [getStore()] returns *)

Definition holder_closed (h : heap) (id : nat) : bool :=
  match hp_holders h !! id with Some r => rh_closed r | None => true end.

Definition isEnabled (h : heap) (store : option ContextStore) : bool :=
  match store with
  | Some {| cs_enabled := true; cs_holder := Some id |} => negb (holder_closed h id)
  | _ => false
  end.

Definition liveHolder (h : heap) (store : option ContextStore) : option nat :=
  match store with
  | Some {| cs_holder := Some id |} => if holder_closed h id then None else Some id
  | _ => None
  end.

(** The store a scope runs under, and the holder it must close. *)
Definition enable (h : heap) (store : option ContextStore) : heap * ContextStore * option nat :=
  match liveHolder h store with
  | Some id => (h, {| cs_enabled := true; cs_holder := Some id |}, None)
  | None =>
      let id := length (hp_holders h) in
      ({| hp_holders := hp_holders h ++ [{| rh_closed := false; rh_requestLocalCache := None |}];
          hp_caches := hp_caches h |},
       {| cs_enabled := true; cs_holder := Some id |}, Some id)
  end.

Definition disable (h : heap) (store : option ContextStore) : ContextStore :=
  {| cs_enabled := false; cs_holder := liveHolder h store |}.

(** The [finally] of [runOutermost]. *)
Definition closeHolder (h : heap) (id : nat) : heap :=
  match hp_holders h !! id with
  | None => h
  | Some r =>
      {| hp_holders := <[id := {| rh_closed := true; rh_requestLocalCache := None |}]> (hp_holders h);
         hp_caches := match rh_requestLocalCache r with
                      | Some c => alter close c (hp_caches h)
                      | None => hp_caches h
                      end |}
  end.

Definition getOrCreateRequestLocalCache (h : heap) (store : option ContextStore) : heap * option nat :=
  match store with
  | Some {| cs_enabled := true; cs_holder := Some id |} =>
      match hp_holders h !! id with
      | Some {| rh_closed := false; rh_requestLocalCache := Some c |} => (h, Some c)
      | Some {| rh_closed := false; rh_requestLocalCache := None |} =>
          let c := length (hp_caches h) in
          ({| hp_holders := <[id := {| rh_closed := false; rh_requestLocalCache := Some c |}]> (hp_holders h);
              hp_caches := hp_caches h ++ [new_cache] |}, Some c)
      | _ => (h, None)
      end
  | _ => (h, None)
  end.

(** ** The machine

    [m_contexts] lists every store entered, [None] being the store outside
    any scope; [m_running] the holders whose outermost callback has not
    settled; [m_sets] every value set, newest first, with the cache reference
    it was set through. *)

Record machine := {
  m_heap : heap;
  m_contexts : list (option ContextStore);
  m_running : list nat;
  m_sets : list (nat * jsstr * jsval);
}.

Definition initial : machine :=
  {| m_heap := empty_heap; m_contexts := [None]; m_running := []; m_sets := [] |}.

Definition with_heap (m : machine) (h : heap) : machine :=
  {| m_heap := h; m_contexts := m_contexts m; m_running := m_running m; m_sets := m_sets m |}.

Definition with_caches (m : machine) (caches : list RequestLocalCache) : machine :=
  with_heap m {| hp_holders := hp_holders (m_heap m); hp_caches := caches |}.

Inductive step : machine -> machine -> Prop :=
| step_enable m store h store' owned :
    store ∈ m_contexts m -> enable (m_heap m) store = (h, store', owned) ->
    step m {| m_heap := h; m_contexts := Some store' :: m_contexts m;
              m_running := option_list owned ++ m_running m; m_sets := m_sets m |}
| step_disable m store :
    store ∈ m_contexts m ->
    step m {| m_heap := m_heap m; m_contexts := Some (disable (m_heap m) store) :: m_contexts m;
              m_running := m_running m; m_sets := m_sets m |}
| step_settle m id :
    id ∈ m_running m ->
    step m {| m_heap := closeHolder (m_heap m) id; m_contexts := m_contexts m;
              m_running := List.filter (fun i => negb (i =? id)%nat) (m_running m); m_sets := m_sets m |}
| step_obtain m store h c :
    store ∈ m_contexts m -> getOrCreateRequestLocalCache (m_heap m) store = (h, c) -> step m (with_heap m h)
| step_set m c key value :
    (c < length (hp_caches (m_heap m)))%nat ->
    step m {| m_heap := {| hp_holders := hp_holders (m_heap m);
                           hp_caches := alter (fun r => set r key value) c (hp_caches (m_heap m)) |};
              m_contexts := m_contexts m; m_running := m_running m; m_sets := (c, key, value) :: m_sets m |}
| step_inFlight m c flights :
    (c < length (hp_caches (m_heap m)))%nat ->
    step m (with_caches m (alter (fun r => set_inFlight r flights) c (hp_caches (m_heap m)))).

Definition reachable (m : machine) : Prop := rtc step initial m.

(** ** Invariant *)

(** The latest value set for a key through a cache reference. *)
Fixpoint last_set (sets : list (nat * jsstr * jsval)) (c : nat) (key : jsstr) : option jsval :=
  match sets with
  | [] => None
  | (d, k, v) :: r => if (d =? c)%nat && str_eqb k key then Some v else last_set r c key
  end.

(** A cache is open exactly while a live holder refers to it; what it stores
    are the latest values set through it. *)
Definition cache_ok (m : machine) (c : nat) (r : RequestLocalCache) : Prop :=
  (rl_closed r = true -> rl_values r = ∅) /\
  (rl_closed r = false -> forall key, rl_values r !! key = last_set (m_sets m) c key) /\
  (rl_closed r = false <->
   exists id, hp_holders (m_heap m) !! id = Some {| rh_closed := false; rh_requestLocalCache := Some c |}).

Record heap_ok (m : machine) : Prop := {
  ok_contexts : forall s id, Some s ∈ m_contexts m -> cs_holder s = Some id -> (id < length (hp_holders (m_heap m)))%nat;
  ok_running : forall id, id ∈ m_running m <-> exists r, hp_holders (m_heap m) !! id = Some r /\ rh_closed r = false;
  ok_refs : forall id r c, hp_holders (m_heap m) !! id = Some r -> rh_requestLocalCache r = Some c ->
              rh_closed r = false /\ (c < length (hp_caches (m_heap m)))%nat;
  ok_distinct : forall i j r s c, hp_holders (m_heap m) !! i = Some r -> hp_holders (m_heap m) !! j = Some s ->
                  rh_requestLocalCache r = Some c -> rh_requestLocalCache s = Some c -> i = j;
  ok_caches : forall c r, hp_caches (m_heap m) !! c = Some r -> cache_ok m c r;
  ok_sets : Forall (fun e => (e.1.1 < length (hp_caches (m_heap m)))%nat) (m_sets m);
}.

(** ** Preservation *)

Lemma last_set_fresh sets c key : Forall (fun e => (e.1.1 < c)%nat) sets -> last_set sets c key = None.
Proof.
  induction 1 as [|[[d k] v] r Hd _ IH]; simpl in *; [done|]. rewrite (proj2 (Nat.eqb_neq d c)) by lia. done.
Qed.

(** Adding a holder that refers to nothing. *)
Lemma add_holder_ok m store' :
  heap_ok m -> cs_holder store' = Some (length (hp_holders (m_heap m))) ->
  heap_ok {| m_heap := {| hp_holders := hp_holders (m_heap m) ++ [{| rh_closed := false; rh_requestLocalCache := None |}];
                          hp_caches := hp_caches (m_heap m) |};
             m_contexts := Some store' :: m_contexts m;
             m_running := length (hp_holders (m_heap m)) :: m_running m; m_sets := m_sets m |}.
Proof.
  intros Hok Hs'. set (n := length (hp_holders (m_heap m))) in *.
  assert (forall id r, (hp_holders (m_heap m) ++ [{| rh_closed := false; rh_requestLocalCache := None |}]) !! id = Some r <->
    hp_holders (m_heap m) !! id = Some r \/ id = n /\ r = {| rh_closed := false; rh_requestLocalCache := None |}) as Hl.
  { intros id r. rewrite lookup_snoc_Some. unfold n. split; [|intros [Hr|Hr]; [left|right]; try done].
    - intros [[? ?]|[? ?]]; [by left|right]; naive_solver.
    - split; [by eapply lookup_lt_Some|done].
    - naive_solver. }
  destruct Hok as [H1 H2 H3 H4 H5 H6]. split; simpl; try done.
  - intros s id [[= ->]|Hin]%elem_of_cons Hid; rewrite length_app; simpl.
    + unfold n in *. rewrite Hs' in Hid. injection Hid as <-. lia.
    + specialize (H1 s id Hin Hid). lia.
  - intros id. rewrite elem_of_cons, H2. setoid_rewrite Hl. naive_solver.
  - intros id r c [Hr|[-> ->]]%Hl Hc; [by eapply H3|done].
  - intros i j r s c [Hr|[-> ->]]%Hl [Hs|[-> ->]]%Hl Hc Hc'; try done. by eapply H4.
  - intros c r Hc. destruct (H5 c r Hc) as (Ha & Hb & Hd). split; [done|]. split; [done|]. simpl. rewrite Hd.
    setoid_rewrite Hl. naive_solver.
Qed.

(** Entering a scope with an existing holder, or none. *)
Lemma add_context_ok m store' :
  heap_ok m -> (forall id, cs_holder store' = Some id -> (id < length (hp_holders (m_heap m)))%nat) ->
  heap_ok {| m_heap := m_heap m; m_contexts := Some store' :: m_contexts m;
             m_running := m_running m; m_sets := m_sets m |}.
Proof.
  intros [H1 H2 H3 H4 H5 H6] Hs. split; simpl; try done.
  intros s id [[= ->]|Hin]%elem_of_cons Hid; eauto.
Qed.

Lemma liveHolder_Some h store id :
  liveHolder h store = Some id <->
  (exists s, store = Some s /\ cs_holder s = Some id) /\ exists r, hp_holders h !! id = Some r /\ rh_closed r = false.
Proof.
  unfold liveHolder, holder_closed. split.
  - destruct store as [[e [i|]]|]; try done. destruct (hp_holders h !! i) as [r|] eqn:E; [|done].
    destruct (rh_closed r) eqn:Er; intros [= <-]. eauto 10.
  - intros [([e i] & -> & Hi) (r & Hr & Hc)]. simpl in Hi. subst i. by rewrite Hr, Hc.
Qed.

Definition dead : RequestHolder := {| rh_closed := true; rh_requestLocalCache := None |}.

Lemma lookup_dead holders id (i : nat) s :
  (id < length holders)%nat ->
  <[id := dead]> holders !! i = Some s <-> (i = id /\ s = dead) \/ (i <> id /\ holders !! i = Some s).
Proof. intros Hlt. rewrite list_lookup_insert_Some. naive_solver. Qed.

(** The caches after [closeHolder]: the holder's own is closed. *)
Lemma closed_caches m id r c q :
  heap_ok m -> hp_holders (m_heap m) !! id = Some r ->
  hp_caches (closeHolder (m_heap m) id) !! c = Some q ->
  exists q0, hp_caches (m_heap m) !! c = Some q0 /\
    q = if bool_decide (rh_requestLocalCache r = Some c) then close q0 else q0.
Proof.
  intros Hok Hr. unfold closeHolder. rewrite Hr. simpl.
  destruct (rh_requestLocalCache r) as [d|]; [|by eauto].
  rewrite list_lookup_alter. case_decide as Hd.
  - subst. intros (q0 & Hq0 & ->)%fmap_Some. exists q0. by rewrite bool_decide_eq_true_2.
  - intros Hq. exists q. rewrite bool_decide_eq_false_2; [done|]. congruence.
Qed.

Lemma close_cache_ok m id r c q :
  heap_ok m -> hp_holders (m_heap m) !! id = Some r -> rh_closed r = false ->
  hp_caches (closeHolder (m_heap m) id) !! c = Some q ->
  (rl_closed q = true -> rl_values q = ∅) /\
  (rl_closed q = false -> forall key, rl_values q !! key = last_set (m_sets m) c key) /\
  (rl_closed q = false <->
   exists i, hp_holders (closeHolder (m_heap m) id) !! i = Some {| rh_closed := false; rh_requestLocalCache := Some c |}).
Proof.
  intros Hok Hr Hc Hq. assert (id < length (hp_holders (m_heap m)))%nat as Hlt by (by eapply lookup_lt_Some).
  destruct (closed_caches _ _ _ _ _ Hok Hr Hq) as (q0 & Hq0 & ->).
  destruct (ok_caches _ Hok _ _ Hq0) as (Ha & Hb & Hd). unfold closeHolder. rewrite Hr. simpl.
  setoid_rewrite lookup_dead; [|done]. case_bool_decide as Hrc; simpl.
  - split; [done|]. split; [done|]. split; [done|]. intros (i & [[-> [=]]|[Hne Hi]]).
    exfalso. apply Hne. by eapply (ok_distinct _ Hok).
  - split; [done|]. split; [done|]. rewrite Hd. split.
    + intros (i & Hi). exists i. right. split; [|done]. intros ->. rewrite Hr in Hi. by injection Hi as ->.
    + intros (i & [[-> [=]]|[Hne Hi]]). eauto.
Qed.

Lemma closeHolder_ok m id :
  heap_ok m -> id ∈ m_running m ->
  heap_ok {| m_heap := closeHolder (m_heap m) id; m_contexts := m_contexts m;
             m_running := List.filter (fun i => negb (i =? id)%nat) (m_running m); m_sets := m_sets m |}.
Proof.
  intros Hok Hin. destruct (proj1 (ok_running _ Hok id) Hin) as (r & Hr & Hc).
  assert (id < length (hp_holders (m_heap m)))%nat as Hlt by (by eapply lookup_lt_Some).
  assert (hp_holders (closeHolder (m_heap m) id) = <[id := dead]> (hp_holders (m_heap m))) as Hh
    by (unfold closeHolder; by rewrite Hr).
  assert (length (hp_caches (closeHolder (m_heap m) id)) = length (hp_caches (m_heap m))) as Hlen.
  { unfold closeHolder. rewrite Hr. simpl. destruct (rh_requestLocalCache r); [by rewrite length_alter|done]. }
  pose proof Hok as [H1 H2 H3 H4 H5 H6]. split; simpl; rewrite ?Hlen, ?Hh.
  - intros s i Hs Hi. rewrite length_insert. eauto.
  - intros i. rewrite list_elem_of_In, filter_In, <- list_elem_of_In, H2, negb_true_iff, Nat.eqb_neq.
    setoid_rewrite lookup_dead; [|done]. unfold dead. naive_solver.
  - intros i s c [[-> ->]|[Hne Hs]]%lookup_dead Hsc; [done|by eapply H3|done].
  - intros i j s t c [[-> ->]|[Hne Hs]]%lookup_dead [[-> ->]|[Hne' Ht]]%lookup_dead Hsc Htc; try done. by eapply H4.
  - intros c q Hq. exact (close_cache_ok _ _ _ _ _ Hok Hr Hc Hq).
  - done.
Qed.

(** Creating the request-local cache of a live holder. *)
Lemma obtain_new_ok m id :
  heap_ok m -> hp_holders (m_heap m) !! id = Some {| rh_closed := false; rh_requestLocalCache := None |} ->
  heap_ok (with_heap m
    {| hp_holders := <[id := {| rh_closed := false; rh_requestLocalCache := Some (length (hp_caches (m_heap m))) |}]>
                       (hp_holders (m_heap m));
       hp_caches := hp_caches (m_heap m) ++ [new_cache] |}).
Proof.
  intros Hok Hr. set (n := length (hp_caches (m_heap m))).
  set (owner := {| rh_closed := false; rh_requestLocalCache := Some n |}).
  assert (forall i s, <[id := owner]> (hp_holders (m_heap m)) !! i = Some s <->
    (i = id /\ s = owner) \/ (i <> id /\ hp_holders (m_heap m) !! i = Some s)) as Hl.
  { intros i s. apply lookup_lt_Some in Hr. rewrite list_lookup_insert_Some. naive_solver. }
  destruct Hok as [H1 H2 H3 H4 H5 H6]. split; simpl.
  - intros s i Hs Hi. rewrite length_insert. eauto.
  - intros i. rewrite H2. setoid_rewrite Hl. unfold owner. destruct (decide (i = id)); naive_solver.
  - intros i s c [[-> ->]|[Hne Hs]]%Hl Hsc; rewrite length_app; simpl.
    + injection Hsc as <-. split; [done|]. unfold n. lia.
    + destruct (H3 _ _ _ Hs Hsc). split; [done|]. lia.
  - intros i j s t c [[-> ->]|[Hne Hs]]%Hl [[-> ->]|[Hne' Ht]]%Hl Hsc Htc; try done; [| |by eapply H4].
    + injection Hsc as <-. destruct (H3 _ _ _ Ht Htc). unfold n in *. lia.
    + injection Htc as <-. destruct (H3 _ _ _ Hs Hsc). unfold n in *. lia.
  - intros c q [[Hc Hq]|[Hc Hq]]%lookup_snoc_Some; unfold cache_ok; simpl; setoid_rewrite Hl.
    + destruct (H5 _ _ Hq) as (Ha & Hb & Hd). split; [done|]. split; [done|]. rewrite Hd. split.
      * intros (i & Hi). exists i. right. split; [|done]. intros ->. congruence.
      * intros (i & [[-> [= ->]]|[Hne Hi]]); [unfold n in *; lia|eauto].
    + subst q c. simpl. split; [done|]. split.
      * intros _ key. rewrite lookup_empty, last_set_fresh; done.
      * split; [|done]. intros _. exists id. by left.
  - eapply list.Forall_impl; [exact H6|]. simpl. intros e. rewrite length_app. lia.
Qed.

(** An update of one cache that keeps [closed], with the sets it records. *)
Lemma alter_cache_ok m f c sets :
  heap_ok m -> (c < length (hp_caches (m_heap m)))%nat ->
  (forall q, rl_closed (f q) = rl_closed q) ->
  (forall q, rl_closed q = true -> rl_values (f q) = rl_values q) ->
  (forall q key, rl_closed q = false -> (forall k, rl_values q !! k = last_set (m_sets m) c k) ->
     rl_values (f q) !! key = last_set sets c key) ->
  (forall d key, d <> c -> last_set sets d key = last_set (m_sets m) d key) ->
  Forall (fun e => (e.1.1 < length (hp_caches (m_heap m)))%nat) sets ->
  heap_ok {| m_heap := {| hp_holders := hp_holders (m_heap m); hp_caches := alter f c (hp_caches (m_heap m)) |};
             m_contexts := m_contexts m; m_running := m_running m; m_sets := sets |}.
Proof.
  intros [H1 H2 H3 H4 H5 H6] Hc Hcl Hdead Hval Hother Hsets. split; simpl; rewrite ?length_alter; try done.
  intros d q Hq. rewrite list_lookup_alter in Hq. unfold cache_ok. simpl. case_decide as Hd.
  - subst d. apply fmap_Some in Hq as (q0 & Hq0 & ->). destruct (H5 _ _ Hq0) as (Ha & Hb & He).
    rewrite Hcl. split; [intros Hx; rewrite Hdead by done; auto|]. split; [|done].
    intros Hx key. by apply Hval; [|apply Hb].
  - destruct (H5 _ _ Hq) as (Ha & Hb & He). split; [done|]. split; [|done].
    intros Hx key. rewrite Hother by done. by apply Hb.
Qed.

Lemma scope_step_ok m m' : step m m' -> heap_ok m -> heap_ok m'.
Proof.
  intros [? store h store' owned Hs He| ? store Hs | | ? store h c Hs Hg | ? c key value Hc | ? c flights Hc] Hok.
  - unfold enable in He. destruct (liveHolder (m_heap m0) store) as [id|] eqn:El; injection He as <- <- <-; simpl.
    + apply add_context_ok; [done|]. simpl. intros i [= <-].
      apply liveHolder_Some in El as [_ (r & Hr & _)]. by eapply lookup_lt_Some.
    + by apply add_holder_ok.
  - apply add_context_ok; [done|]. simpl. intros i El.
    apply liveHolder_Some in El as [_ (r & Hr & _)]. by eapply lookup_lt_Some.
  - by apply closeHolder_ok.
  - unfold getOrCreateRequestLocalCache in Hg.
    destruct store as [[[] [id|]]|]; try (injection Hg as <- <-; by destruct m0).
    destruct (hp_holders (m_heap m0) !! id) as [[[] [d|]]|] eqn:Er; injection Hg as <- <-; try by destruct m0.
    by apply obtain_new_ok.
  - apply alter_cache_ok; unfold set; try done.
    + intros q. destruct (rl_closed q) eqn:E; done.
    + intros q ->. done.
    + intros q k -> Hq. simpl. rewrite Nat.eqb_refl. simpl. destruct (str_eqb key k) eqn:Ek.
      * apply str_eqb_eq in Ek as ->. apply lookup_insert_eq.
      * rewrite lookup_insert_ne; [apply Hq|]. intros ->. unfold str_eqb in Ek. by rewrite bool_decide_eq_true_2 in Ek.
    + intros d k Hd. simpl. by rewrite (proj2 (Nat.eqb_neq c d)).
    + constructor; [done|]. apply Hok.
  - apply alter_cache_ok; try done. apply Hok.
Qed.

Lemma scope_reachable_ok m : reachable m -> heap_ok m.
Proof.
  intros H. unfold reachable in H. remember initial as m0 eqn:E.
  assert (heap_ok m0) as H0.
  { subst. split; simpl; try done.
    - intros s id Hin%list_elem_of_singleton. done.
    - intros id. split; [by intros ?%not_elem_of_nil|]. intros (r & Hr & _). done. }
  clear E. induction H; eauto using scope_step_ok.
Qed.

(** ** Finality *)

Definition scope_ended (m : machine) (id : nat) : Prop :=
  exists r, hp_holders (m_heap m) !! id = Some r /\ rh_closed r = true.

Lemma ended_step m m' id : step m m' -> heap_ok m -> scope_ended m id -> scope_ended m' id.
Proof.
  unfold scope_ended.
  intros [? store h store' owned Hs He| ? store Hs | ? i Hi | ? store h c Hs Hg | ? c key value Hc | ? c flights Hc] Hok
    (r & Hr & Hcl); simpl; eauto.
  - unfold enable in He. destruct (liveHolder (m_heap m0) store) as [j|] eqn:El; injection He as <- <- <-; simpl; eauto.
    exists r. split; [|done]. rewrite lookup_app_l; [done|]. by eapply lookup_lt_Some.
  - unfold closeHolder. destruct (hp_holders (m_heap m0) !! i) as [q|] eqn:Eq; simpl; eauto.
    destruct (decide (i = id)) as [->|Hne].
    + exists dead. split; [|done]. apply list_lookup_insert_eq. by eapply lookup_lt_Some.
    + exists r. by rewrite list_lookup_insert_ne.
  - unfold getOrCreateRequestLocalCache in Hg.
    destruct store as [[[] [j|]]|]; try (injection Hg as <- <-; by eauto).
    destruct (hp_holders (m_heap m0) !! j) as [[[] [d|]]|] eqn:Er; injection Hg as <- <-; eauto. simpl.
    exists r. split; [|done]. rewrite list_lookup_insert_ne; [done|]. intros ->. by simplify_eq.
Qed.

Lemma ended_forever m m' id : rtc step m m' -> heap_ok m -> scope_ended m id -> scope_ended m' id.
Proof. induction 1; eauto using ended_step, scope_step_ok. Qed.

Lemma scope_steps_ok m m' : rtc step m m' -> heap_ok m -> heap_ok m'.
Proof. induction 1; eauto using scope_step_ok. Qed.

Definition cache_closed (m : machine) (c : nat) : Prop :=
  exists q, hp_caches (m_heap m) !! c = Some q /\ rl_closed q = true.

Lemma alter_keeps_closed (f : RequestLocalCache -> RequestLocalCache) (caches : list RequestLocalCache) (c d : nat) q :
  (forall r, rl_closed r = true -> rl_closed (f r) = true) -> caches !! c = Some q -> rl_closed q = true ->
  exists q', alter f d caches !! c = Some q' /\ rl_closed q' = true.
Proof.
  intros Hf Hq Hcl. rewrite list_lookup_alter. case_decide; [|by eauto]. subst. rewrite Hq. simpl. eauto.
Qed.

Lemma cache_closed_step m m' c : step m m' -> cache_closed m c -> cache_closed m' c.
Proof.
  unfold cache_closed.
  intros [? store h store' owned Hs He| ? store Hs | ? i Hi | ? store h d Hs Hg | ? d key value Hc | ? d flights Hc]
    (q & Hq & Hcl); simpl; eauto.
  - unfold enable in He. destruct (liveHolder (m_heap m0) store); injection He as <- <- <-; simpl; eauto.
  - unfold closeHolder. destruct (hp_holders (m_heap m0) !! i) as [r|]; simpl; eauto.
    destruct (rh_requestLocalCache r); eauto. by eapply alter_keeps_closed.
  - unfold getOrCreateRequestLocalCache in Hg.
    destruct store as [[[] [j|]]|]; try (injection Hg as <- <-; by eauto).
    destruct (hp_holders (m_heap m0) !! j) as [[[] [e|]]|] eqn:Er; injection Hg as <- <-; eauto. simpl.
    exists q. split; [|done]. rewrite lookup_app_l; [done|]. by eapply lookup_lt_Some.
  - eapply alter_keeps_closed; [|done..]. intros r Hrc. unfold set. by rewrite Hrc.
  - by eapply alter_keeps_closed.
Qed.

Lemma cache_closed_forever m m' c : rtc step m m' -> cache_closed m c -> cache_closed m' c.
Proof. induction 1; eauto using cache_closed_step. Qed.

(** The holder of a context that was handed a cache refers to it. *)
Lemma obtained h s h' id c :
  getOrCreateRequestLocalCache h (Some s) = (h', Some c) -> cs_holder s = Some id ->
  hp_holders h' !! id = Some {| rh_closed := false; rh_requestLocalCache := Some c |} /\
  forall i d, hp_holders h !! i = Some {| rh_closed := false; rh_requestLocalCache := Some d |} ->
    hp_holders h' !! i = Some {| rh_closed := false; rh_requestLocalCache := Some d |}.
Proof.
  destruct s as [[] i]; simpl; [|by intros [=]]. intros Hg ->.
  destruct (hp_holders h !! id) as [[[] [e|]]|] eqn:Er; simplify_eq; [done|]. simpl. split.
  - apply list_lookup_insert_eq. by eapply lookup_lt_Some.
  - intros i d Hi. rewrite list_lookup_insert_ne; [done|]. intros ->. congruence.
Qed.

(** C20. The end of a scope is final.  Once the callback of an outermost
    [enable] has settled, caching stays off in every context that inherited
    its holder, nested or detached, whatever runs afterwards: [isEnabled] is
    false, no request-local cache is handed out, a nested [enable] opens a
    holder of its own, and reads through a reference to its request-local cache
    miss. *)
Theorem scope_end_is_final m m' id :
  reachable m -> id ∈ m_running m ->
  rtc step {| m_heap := closeHolder (m_heap m) id; m_contexts := m_contexts m;
              m_running := List.filter (fun i => negb (i =? id)%nat) (m_running m); m_sets := m_sets m |} m' ->
  (forall s, Some s ∈ m_contexts m' -> cs_holder s = Some id ->
     isEnabled (m_heap m') (Some s) = false /\
     getOrCreateRequestLocalCache (m_heap m') (Some s) = (m_heap m', None) /\
     (enable (m_heap m') (Some s)).2 = Some (length (hp_holders (m_heap m')))) /\
  (forall r c q key, hp_holders (m_heap m) !! id = Some r -> rh_requestLocalCache r = Some c ->
     hp_caches (m_heap m') !! c = Some q -> read q key = None /\ rl_values q = ∅).
Proof.
  intros Hr Hid Hrun. pose proof (scope_reachable_ok _ Hr) as Hok. pose proof (closeHolder_ok _ _ Hok Hid) as Hok1.
  split.
  - intros [e i] Hs Hi. simpl in Hi. subst i. destruct (ok_running _ Hok id) as [(r & Hl & _) _]; [done|].
    destruct (ended_forever _ _ id Hrun Hok1) as (q & Hq & Hcl).
    { exists dead. simpl. unfold closeHolder. rewrite Hl. split; [|done].
      apply list_lookup_insert_eq. by eapply lookup_lt_Some. }
    unfold isEnabled, enable, getOrCreateRequestLocalCache, liveHolder, holder_closed. rewrite Hq.
    destruct q as [[] ?]; [|discriminate Hcl]. by destruct e.
  - intros r c q key Hl Hc Hq. destruct (ok_refs _ Hok _ _ _ Hl Hc) as [_ Hlt].
    destruct (cache_closed_forever _ _ c Hrun) as (q' & Hq' & Hcl).
    { destruct (lookup_lt_is_Some_2 _ _ Hlt) as [q0 Hq0]. exists (close q0). simpl. unfold closeHolder.
      rewrite Hl. simpl. rewrite Hc, list_lookup_alter, decide_True, Hq0 by done. done. }
    simplify_eq. unfold read. rewrite Hcl. split; [done|].
    by apply (ok_caches _ (scope_steps_ok _ _ Hrun Hok1) _ _ Hq).
Qed.

(** Requests do not share memory.  Two contexts are handed the same
    request-local cache exactly when they belong to the same outermost scope,
    and what a read through it returns is the latest value set through that
    same cache for that key. *)
Theorem requests_are_isolated m s1 s2 i1 i2 h1 h2 c1 c2 :
  reachable m -> Some s1 ∈ m_contexts m -> Some s2 ∈ m_contexts m ->
  cs_holder s1 = Some i1 -> cs_holder s2 = Some i2 ->
  getOrCreateRequestLocalCache (m_heap m) (Some s1) = (h1, Some c1) ->
  getOrCreateRequestLocalCache h1 (Some s2) = (h2, Some c2) ->
  (c1 = c2 <-> i1 = i2) /\
  forall q key, hp_caches h2 !! c1 = Some q -> read q key = last_set (m_sets m) c1 key.
Proof.
  intros Hr Hs1 Hs2 Hi1 Hi2 Hg1 Hg2. pose proof (scope_reachable_ok _ Hr) as Hok.
  assert (heap_ok (with_heap m h1)) as Hok1 by (exact (scope_step_ok _ _ (step_obtain m _ _ _ Hs1 Hg1) Hok)).
  assert (heap_ok (with_heap m h2)) as Hok2
    by (exact (scope_step_ok _ _ (step_obtain (with_heap m h1) _ _ _ Hs2 Hg2) Hok1)).
  destruct (obtained _ _ _ _ _ Hg1 Hi1) as [Ho1 _]. destruct (obtained _ _ _ _ _ Hg2 Hi2) as [Ho2 Hkeep].
  apply Hkeep in Ho1. split.
  - split; [|intros ->; congruence]. intros ->. by eapply (ok_distinct _ Hok2).
  - intros q key Hq. destruct (ok_caches _ Hok2 _ _ Hq) as (_ & Hv & Hcl).
    assert (rl_closed q = false) as Hop by (apply Hcl; eauto). unfold read. rewrite Hop. by apply Hv.
Qed.

(** ** A sample run: a scope, a value, a nested scope, settlement *)

Definition outer : ContextStore := {| cs_enabled := true; cs_holder := Some 0%nat |}.

Definition sample_running : machine :=
  {| m_heap := {| hp_holders := [{| rh_closed := false; rh_requestLocalCache := Some 0%nat |}];
                  hp_caches := [set new_cache (js "k") (JNum (Fin 1))] |};
     m_contexts := [Some outer; None]; m_running := [0%nat]; m_sets := [(0%nat, js "k", JNum (Fin 1))] |}.

Lemma sample_running_reachable : reachable sample_running.
Proof.
  eapply rtc_l; [eapply (step_enable initial None); [by left|reflexivity]|].
  eapply rtc_l; [eapply (step_obtain _ (Some outer)); [by left|reflexivity]|].
  eapply rtc_l; [apply (step_set _ 0 (js "k") (JNum (Fin 1))); simpl; lia|]. apply rtc_refl.
Qed.

Lemma scope_end_is_final_witness :
  isEnabled (m_heap sample_running) (Some outer) = true /\
  isEnabled (closeHolder (m_heap sample_running) 0) (Some outer) = false.
Proof.
  split; [reflexivity|].
  destruct (scope_end_is_final sample_running
    {| m_heap := closeHolder (m_heap sample_running) 0; m_contexts := m_contexts sample_running;
       m_running := []; m_sets := m_sets sample_running |} 0) as [H _].
  - exact sample_running_reachable.
  - by left.
  - apply rtc_refl.
  - apply (H outer); [by left|reflexivity].
Defined.

Lemma requests_are_isolated_witness :
  last_set (m_sets sample_running) 0 (js "k") = Some (JNum (Fin 1)) /\
  read (set new_cache (js "k") (JNum (Fin 1))) (js "k") = Some (JNum (Fin 1)).
Proof.
  destruct (requests_are_isolated sample_running outer outer 0 0 (m_heap sample_running) (m_heap sample_running) 0 0)
    as [_ H]; [exact sample_running_reachable|by left|by left|reflexivity..|].
  split; [reflexivity|]. rewrite (H _ (js "k") eq_refl). reflexivity.
Defined.
