(* ===== verification/Deadline.v ===== *)
(** * Monotonic deadlines

    [withMonotonicDeadline] of [internal/deadline.ts] as a state machine.
    The closures of the source are the handlers below; the runtime calls them
    whenever it likes: a timer may fire early or late, the operation may
    settle at any time or never, and [performance.now()] is read afresh by
    each handler.  The machine delivers to the returned promise exactly the
    settlements the cache operations await.  The timeout need not be whole
    milliseconds: a shadow job passes what is left of its own. *)

From S2P Require Import Prelude JsValue Duration Effects.
From Stdlib Require Import Qround Lqa.

Section deadline.
  Context {A : Type} (startedAtMs timeoutMs : Q).

(** [delivered] collects what reached [resolve] or [reject], [timeouts] the
    calls of [onTimeout]; [timer] is an armed timer: when it was set and its
    delay. *)
Record deadline := {
  dl_settled : bool;
  dl_timer : option (Q * Z);
  dl_delivered : list (Q * settlement A);
  dl_timeouts : nat;
}.

Definition elapsedMs (now : Q) : Q := let d := (now - startedAtMs)%Q in if Qle_bool 0 d then d else 0%Q.

Definition remainingMs (now : Q) : Q := (timeoutMs - elapsedMs now)%Q.

Definition clearTimer (d : deadline) : deadline :=
  {| dl_settled := dl_settled d; dl_timer := None; dl_delivered := dl_delivered d; dl_timeouts := dl_timeouts d |}.

(** [setTimeout(onTimer, delayMs)] *)
Definition scheduleTimer (d : deadline) (now : Q) (delayMs : Z) : deadline :=
  {| dl_settled := dl_settled d; dl_timer := Some (now, delayMs); dl_delivered := dl_delivered d;
     dl_timeouts := dl_timeouts d |}.

(** [settled = true], with [clearTimer] and the delivery. *)
Definition deliver (d : deadline) (now : Q) (s : settlement A) (timeouts : nat) : deadline :=
  {| dl_settled := true; dl_timer := None; dl_delivered := (now, s) :: dl_delivered d; dl_timeouts := timeouts |}.

(** A throw of [onTimeout] is swallowed. *)
Definition rejectTimeout (d : deadline) (now : Q) : deadline :=
  if dl_settled d then d else deliver d now DeadlineExpired (S (dl_timeouts d)).

Definition onTimer (d : deadline) (now : Q) : deadline :=
  let d' := clearTimer d in
  if dl_settled d' then d'
  else if Qltb 0 (remainingMs now) then scheduleTimer d' now (Qceiling (remainingMs now))
  else rejectTimeout d' now.

Definition settleBeforeDeadline (d : deadline) (now : Q) (r : res A) : deadline :=
  if dl_settled d then d
  else if Qle_bool (timeoutMs) (elapsedMs now) then rejectTimeout d now
  else deliver d now (Settles r) (dl_timeouts d).

(** The body of the promise executor. *)
Definition withMonotonicDeadline (now : Q) : deadline :=
  let d := {| dl_settled := false; dl_timer := None; dl_delivered := []; dl_timeouts := 0 |} in
  if Qle_bool (remainingMs now) 0 then rejectTimeout d now
  else scheduleTimer d now (Qceiling (remainingMs now)).

(** ** The runtime

    [w_outcome] is how the operation settled, once it has. *)

Record world := { w_deadline : deadline; w_now : Q; w_outcome : option (res A) }.

Inductive step : world -> world -> Prop :=
| step_time w t :
    (w_now w <= t)%Q -> step w {| w_deadline := w_deadline w; w_now := t; w_outcome := w_outcome w |}
| step_timer w :
    dl_timer (w_deadline w) <> None ->
    step w {| w_deadline := onTimer (w_deadline w) (w_now w); w_now := w_now w; w_outcome := w_outcome w |}
| step_pending w r :
    w_outcome w = None ->
    step w {| w_deadline := settleBeforeDeadline (w_deadline w) (w_now w) r; w_now := w_now w; w_outcome := Some r |}.

(** The executor runs at [startedAtMs] or a moment later. *)
Definition started (w : world) : Prop :=
  exists t, (startedAtMs <= t)%Q /\ rtc step {| w_deadline := withMonotonicDeadline t; w_now := t; w_outcome := None |} w.

(** ** Invariant *)

Definition delivery_ok (w : world) (e : Q * settlement A) : Prop :=
  (startedAtMs <= e.1 <= w_now w)%Q /\
  match e.2 with
  | Settles r => w_outcome w = Some r /\ (e.1 - startedAtMs < timeoutMs)%Q
  | DeadlineExpired => (timeoutMs <= e.1 - startedAtMs)%Q
  end.

Definition expiries (l : list (Q * settlement A)) : nat :=
  length (List.filter (fun e => match e.2 with DeadlineExpired => true | _ => false end) l).

Record deadline_ok (w : world) : Prop := {
  dk_clock : (startedAtMs <= w_now w)%Q;
  dk_once : length (dl_delivered (w_deadline w)) = if dl_settled (w_deadline w) then 1%nat else 0%nat;
  dk_delivered : Forall (delivery_ok w) (dl_delivered (w_deadline w));
  dk_timeouts : dl_timeouts (w_deadline w) = expiries (dl_delivered (w_deadline w));
  dk_timer : match dl_timer (w_deadline w) with
             | Some (at_, delay) =>
                 dl_settled (w_deadline w) = false /\ (startedAtMs <= at_ <= w_now w)%Q /\
                 delay = Qceiling (remainingMs at_) /\ (0 < remainingMs at_)%Q
             | None => dl_settled (w_deadline w) = true
             end;
  dk_pending : w_outcome w <> None -> dl_settled (w_deadline w) = true;
}.

(** ** Lemmas *)

Lemma elapsedMs_eq now : (startedAtMs <= now)%Q -> elapsedMs now = (now - startedAtMs)%Q.
Proof. intros H. unfold elapsedMs. rewrite (proj2 (Qle_bool_iff 0 (now - startedAtMs))) by lra. done. Qed.

(** Later worlds keep what was delivered. *)
Lemma delivery_later w w' e :
  delivery_ok w e -> (w_now w <= w_now w')%Q -> (forall r, w_outcome w = Some r -> w_outcome w' = Some r) ->
  delivery_ok w' e.
Proof.
  intros [Ht He] Hn Ho. unfold delivery_ok. split; [lra|]. destruct e as [t [r|]]; simpl in *; naive_solver.
Qed.

(** A delivery to an unsettled deadline. *)
Lemma deliver_ok w s timeouts o :
  deadline_ok w -> dl_settled (w_deadline w) = false ->
  delivery_ok {| w_deadline := w_deadline w; w_now := w_now w; w_outcome := o |} (w_now w, s) ->
  timeouts = match s with DeadlineExpired => S (dl_timeouts (w_deadline w)) | _ => dl_timeouts (w_deadline w) end ->
  deadline_ok {| w_deadline := deliver (w_deadline w) (w_now w) s timeouts; w_now := w_now w; w_outcome := o |}.
Proof.
  intros [H1 H2 H3 H4 H5 H6] Hs Hd ->. rewrite Hs in H2. apply nil_length_inv in H2. rewrite H2 in *.
  split; simpl; rewrite ?H2; try done.
  - by constructor.
  - rewrite H4. by destruct s.
Qed.

Lemma expired_ok w o :
  deadline_ok w -> dl_settled (w_deadline w) = false -> (timeoutMs <= w_now w - startedAtMs)%Q ->
  deadline_ok {| w_deadline := rejectTimeout (w_deadline w) (w_now w); w_now := w_now w; w_outcome := o |}.
Proof.
  intros Hok Hs He. unfold rejectTimeout. rewrite Hs. apply deliver_ok; try done.
  split; simpl; [|done]. pose proof (dk_clock _ Hok). lra.
Qed.

(** A settled deadline stays as it is when the operation settles late. *)
Lemma late_ok w o :
  deadline_ok w -> dl_settled (w_deadline w) = true -> w_outcome w = None ->
  deadline_ok {| w_deadline := w_deadline w; w_now := w_now w; w_outcome := o |}.
Proof.
  intros [H1 H2 H3 H4 H5 H6] Hs Ho. split; simpl; try done.
  eapply list.Forall_impl; [exact H3|]. intros e He. eapply delivery_later; [exact He|simpl; lra|]. by rewrite Ho.
Qed.

Lemma onTimer_ok w :
  deadline_ok w -> dl_timer (w_deadline w) <> None ->
  deadline_ok {| w_deadline := onTimer (w_deadline w) (w_now w); w_now := w_now w; w_outcome := w_outcome w |}.
Proof.
  intros Hok Ht. pose proof (dk_clock _ Hok) as Hc. pose proof (dk_timer _ Hok) as Htm.
  destruct (dl_timer (w_deadline w)) as [[at_ delay]|]; [|done]. destruct Htm as (Hs & _).
  assert (w_outcome w = None) as Ho.
  { destruct (w_outcome w) eqn:E; [|done]. rewrite (dk_pending _ Hok) in Hs; [done|]. by rewrite E. }
  unfold onTimer. simpl. rewrite Hs. destruct (Qltb 0 (remainingMs (w_now w))) eqn:Er.
  - apply Qltb_spec in Er. destruct Hok as [H1 H2 H3 H4 H5 H6]. rewrite Hs in *.
    split; simpl; rewrite ?Hs; try done. repeat split; try done. lra.
  - apply Qltb_false in Er. unfold remainingMs in Er. rewrite elapsedMs_eq in Er by done.
    unfold rejectTimeout. simpl. rewrite Hs. apply (deliver_ok w DeadlineExpired); try done.
    split; simpl; lra.
Qed.

Lemma settleBeforeDeadline_ok w r :
  deadline_ok w -> w_outcome w = None ->
  deadline_ok {| w_deadline := settleBeforeDeadline (w_deadline w) (w_now w) r; w_now := w_now w; w_outcome := Some r |}.
Proof.
  intros Hok Ho. pose proof (dk_clock _ Hok) as Hc. unfold settleBeforeDeadline. rewrite elapsedMs_eq by done.
  destruct (dl_settled (w_deadline w)) eqn:Hs; [by apply late_ok|].
  destruct (Qle_bool (timeoutMs) (w_now w - startedAtMs)) eqn:E.
  - apply expired_ok; [done..|]. by apply Qle_bool_iff.
  - apply Qle_bool_false in E. apply deliver_ok; try done. split; simpl; [lra|done].
Qed.

Lemma start_ok t :
  (startedAtMs <= t)%Q -> deadline_ok {| w_deadline := withMonotonicDeadline t; w_now := t; w_outcome := None |}.
Proof.
  intros Ht. unfold withMonotonicDeadline. destruct (Qle_bool (remainingMs t) 0) eqn:E.
  - apply Qle_bool_iff in E. unfold remainingMs in E. rewrite elapsedMs_eq in E by done.
    split; simpl; try done. constructor; [|constructor]. split; simpl; lra.
  - apply Qle_bool_false in E. split; simpl; try done. repeat split; try done; lra.
Qed.

Lemma deadline_step_ok w w' : step w w' -> deadline_ok w -> deadline_ok w'.
Proof.
  intros [? t Ht|? Ht|? r Ho] Hok; eauto using onTimer_ok, settleBeforeDeadline_ok.
  destruct Hok as [H1 H2 H3 H4 H5 H6]. split; simpl; try done; [lra| |].
  - eapply list.Forall_impl; [exact H3|]. intros e He. eapply delivery_later; [exact He|done..].
  - destruct (dl_timer (w_deadline w0)) as [[at_ delay]|]; [|done]. destruct H5 as (? & ? & ? & ?). repeat split; try done; lra.
Qed.

Lemma started_ok w : started w -> deadline_ok w.
Proof.
  intros (t & Ht & H). pose proof (start_ok t Ht) as Hok.
  remember {| w_deadline := withMonotonicDeadline t; w_now := t; w_outcome := None |} as w0.
  clear Heqw0. induction H; eauto using deadline_step_ok.
Qed.

Lemma delay_bounds (at_ : Q) delay now :
  (startedAtMs <= at_ <= now)%Q -> delay = Qceiling (remainingMs at_) -> (0 < remainingMs at_)%Q ->
  (timeoutMs <= inject_Z MAX_TIMER_DELAY_MS)%Q ->
  1 <= delay <= MAX_TIMER_DELAY_MS /\ (timeoutMs <= at_ + inject_Z delay - startedAtMs)%Q.
Proof.
  intros Hat -> Hpos Hto. unfold remainingMs in *. rewrite elapsedMs_eq in * by lra.
  set (x := (timeoutMs - (at_ - startedAtMs))%Q) in *.
  pose proof (Qle_ceiling x) as Hc. assert (x <= inject_Z MAX_TIMER_DELAY_MS)%Q as Hx by (unfold x; lra).
  pose proof (Qceiling_resp_le _ _ Hx) as Hle. rewrite Qceiling_Z in Hle.
  assert (0 < Qceiling x) as H0 by (rewrite Zlt_Qlt; change (inject_Z 0) with 0%Q; lra).
  split; [lia|]. unfold x in Hc at 1. lra.
Qed.

(** C18. The promise of a bounded operation settles at most once, and with the
    right outcome.  Fulfilment or rejection by the operation is passed on
    only if it came strictly before the deadline, otherwise the caller gets
    the timeout error; a timeout is never reported early, however early the
    timer fires; [onTimeout] runs exactly when the timeout is reported. *)
Theorem deadline_settles_once w :
  started w ->
  match dl_delivered (w_deadline w) with
  | [] => dl_settled (w_deadline w) = false /\ dl_timeouts (w_deadline w) = 0%nat /\ w_outcome w = None
  | [(t, Settles r)] =>
      w_outcome w = Some r /\ (t - startedAtMs < timeoutMs)%Q /\ dl_timeouts (w_deadline w) = 0%nat
  | [(t, DeadlineExpired)] =>
      (timeoutMs <= t - startedAtMs)%Q /\ (t <= w_now w)%Q /\ dl_timeouts (w_deadline w) = 1%nat
  | _ => False
  end.
Proof.
  intros Hst%started_ok. destruct Hst as [H1 H2 H3 H4 H5 H6]. rewrite H4.
  destruct (dl_delivered (w_deadline w)) as [|[t s] [|e l]]; simpl in H2.
  - destruct (dl_settled (w_deadline w)); [done|]. split; [done|]. split; [done|].
    destruct (w_outcome w); [|done]. by discriminate H6.
  - apply Forall_cons_1 in H3 as [[Ht Hd] _]. destruct s as [r|]; simpl in *; [naive_solver|].
    split; [done|]. split; [lra|done].
  - by destruct (dl_settled (w_deadline w)).
Qed.

(** C19. A caller never waits forever.  While the promise is unsettled a timer
    is armed with a positive delay that [setTimeout] accepts, and it is due
    no earlier than the deadline: when it fires at or after its due time, the
    promise settles.  An early timer is armed again with what remains; when
    the operation settles, the promise is settled and no timer is left. *)
Theorem deadline_cannot_hang w :
  started w -> (timeoutMs <= inject_Z MAX_TIMER_DELAY_MS)%Q ->
  if dl_settled (w_deadline w) then dl_timer (w_deadline w) = None
  else exists at_ delay,
    dl_timer (w_deadline w) = Some (at_, delay) /\ 1 <= delay <= MAX_TIMER_DELAY_MS /\
    (timeoutMs <= at_ + inject_Z delay - startedAtMs)%Q /\
    (forall now, (at_ + inject_Z delay <= now)%Q ->
       dl_settled (onTimer (w_deadline w) now) = true /\ dl_timer (onTimer (w_deadline w) now) = None) /\
    (forall now, dl_settled (onTimer (w_deadline w) now) = false ->
       dl_timer (onTimer (w_deadline w) now) = Some (now, Qceiling (remainingMs now))) /\
    (forall now r, dl_settled (settleBeforeDeadline (w_deadline w) now r) = true /\
       dl_timer (settleBeforeDeadline (w_deadline w) now r) = None).
Proof.
  intros Hst%started_ok Hto. pose proof (dk_timer _ Hst) as Ht.
  destruct (dl_timer (w_deadline w)) as [[at_ delay]|] eqn:Etm.
  - destruct Ht as (Hs & Hat & Hdelay & Hpos). rewrite Hs. exists at_, delay. split; [done|].
    destruct (delay_bounds _ _ _ Hat Hdelay Hpos Hto) as [Hrange Hdue]. split; [done|]. split; [done|]. split.
    + intros now Hnow. unfold onTimer. simpl. rewrite Hs.
      assert (Qltb 0 (remainingMs now) = false) as ->; [|unfold rejectTimeout; simpl; by rewrite Hs].
      apply Qltb_false. unfold remainingMs. rewrite elapsedMs_eq; [lra|].
      assert (0 <= inject_Z delay)%Q by (change 0%Q with (inject_Z 0); rewrite <- Zle_Qle; lia). lra.
    + split; [|intros now r; unfold settleBeforeDeadline, rejectTimeout; rewrite Hs; by case_match].
      intros now. unfold onTimer, rejectTimeout. simpl. rewrite Hs. by case_match.
  - by rewrite Ht.
Qed.
End deadline.

(** ** A sample run

    A 50 ms deadline started at 10: the timer fires early at 59.5, then the
    operation rejects at 61. *)

Definition sample_early : world (A := jsval) :=
  {| w_deadline := onTimer 10 50 (withMonotonicDeadline 10 50 10) (119 # 2); w_now := (119 # 2); w_outcome := None |}.

Definition sample_late : world (A := jsval) :=
  {| w_deadline := settleBeforeDeadline 10 50 (w_deadline sample_early) 61 (Err (Raised 7));
     w_now := 61; w_outcome := Some (Err (Raised 7)) |}.

Lemma sample_early_started : started 10 50 sample_early.
Proof.
  exists 10%Q. split; [lra|].
  eapply rtc_l; [apply (step_time 10 50 _ (119 # 2)); vm_compute; discriminate|].
  eapply rtc_l; [apply step_timer; discriminate|]. apply rtc_refl.
Qed.

Lemma sample_late_started : started 10 50 sample_late.
Proof.
  destruct sample_early_started as (t & Ht & H). exists t. split; [done|]. etransitivity; [exact H|].
  eapply rtc_l; [apply (step_time 10 50 _ 61); vm_compute; discriminate|].
  eapply rtc_l; [by apply (step_pending 10 50 _ (Err (Raised 7)))|]. apply rtc_refl.
Qed.

Lemma deadline_settles_once_witness :
  dl_delivered (w_deadline sample_late) = [(61%Q, DeadlineExpired)] /\ (50 <= 61 - 10)%Q.
Proof.
  pose proof (deadline_settles_once 10 50 sample_late sample_late_started) as H.
  split; [reflexivity|]. apply H.
Defined.

Lemma deadline_cannot_hang_witness :
  exists at_ delay, dl_timer (w_deadline sample_early) = Some (at_, delay) /\ delay = 1.
Proof.
  assert (50 <= inject_Z MAX_TIMER_DELAY_MS)%Q as Hb by (vm_compute; discriminate).
  destruct (deadline_cannot_hang 10 50 sample_early sample_early_started Hb) as (a & d & Hd & _).
  exists a, d. split; [exact Hd|]. vm_compute in Hd. by injection Hd as _ <-.
Defined.
