(* ===== verification/Shadow.v ===== *)
(** * Shadow validation

    The detached part of [dialcache.ts]: [runShadowValidation] compares what
    Redis holds with the source, or fills a Redis miss from the caller's own
    source call, under a deadline of its own.  The fields of the shadow flight
    are shared with the deadline's [onTimeout], so the operation reads them
    from its environment at every use.  Rendering of the mismatch warning is
    one event here. *)

From S2P Require Import Prelude JsValue Duration Utf8 Config Key Ramp Metrics RuntimeConfig Frame Compression LogText ShadowLog Effects RedisCache Core Scenario.

(** ** The operation *)

(** The outcome with the two variables it sets for the report. *)
Record verdict := {
  vd_outcome : ShadowValidationOutcome;
  vd_details : option (jsval * jsval);
  vd_valueAgeSeconds : option Q;
}.

Definition plain (o : ShadowValidationOutcome) : verdict :=
  {| vd_outcome := o; vd_details := None; vd_valueAgeSeconds := None |}.

(** [redisPayloadsEqual]: a string and a buffer compare by UTF-8 bytes. *)
Definition redisPayloadsEqual (left right : RedisCachePayload) : bool :=
  match left, right with
  | PString a, PString b => bool_decide (a = b)
  | PBuffer a, PBuffer b => bool_decide (a = b)
  | PBuffer a, PString b => bool_decide (a = utf8_encode b)
  | PString a, PBuffer b => bool_decide (b = utf8_encode a)
  end.

Definition shadowValueAgeSeconds (createdAtMs : number) : prog (option Q) :=
  now ← perform EDateNow;
  Ret match createdAtMs with
      | Fin c =>
          let age := ((inject_Z now - c) / 1000)%Q in
          Some (if Qle_bool 0 age then age else 0%Q)
      | _ => None
      end.

Section shadow.
  Context `{Zstd} (this : DialCache) (redis : RedisCache) (job : shadow_job).

Definition abandonIfExpired (deadlineStartedAtMs : Q) : prog bool :=
  abandoned ← perform EJobAbandoned;
  if (abandoned : bool) then Ret true
  else
    now ← perform EPerfNow;
    if Qle_bool (inject_Z (sj_timeoutMs job)) (now - deadlineStartedAtMs)
    then _ ← perform EJobAbandon; Ret true
    else Ret false.

(** [if (abandonIfExpired()) { return "timeout"; }] *)
Definition unless_expired (t : Q) (k : prog verdict) : prog verdict :=
  expired ← abandonIfExpired t; if (expired : bool) then Ret (plain so_timeout) else k.

(** The frame to validate, or a miss to fill with the observed watermark. *)
Inductive opening :=
| OpenFrame
| OpenFill (config : ResolvedRemoteLayerConfig) (observedWatermarkMs : option Z)
| OpenReturn (v : verdict).

Definition openShadow (t : Q) : prog opening :=
  match sj_start job with
  | StartRetained _ => Ret OpenFrame
  | StartRedis remoteConfig _ =>
      r ← attempt (startPayloadReadForShadow redis (sj_key job) (Some (rc_ttlSec remoteConfig))
                     (sj_readTimeoutMs job) RejectFuture);
      match r with
      | Err _ => Ret (OpenReturn (plain so_redis_error))
      | Ok readResult =>
          expired ← abandonIfExpired t;
          if (expired : bool) then Ret (OpenReturn (plain so_timeout))
          else
            match readResult with
            | RedisReadMiss _ observed => Ret (OpenFill remoteConfig observed)
            | RedisFrame frame => _ ← perform (EJobSetFrame frame); Ret OpenFrame
            end
      end
  end.

(** The source value, or the outcome that ends the job. *)
Definition shadowSource : prog (jsval + ShadowValidationOutcome) :=
  match sj_start job with
  | StartRedis _ _ =>
      s ← perform EJobSharedSource;
      match s with
      | DeadlineExpired => Ret (inr so_timeout)
      | Settles (Ok value) => _ ← perform EYieldImmediate; Ret (inl value)
      | Settles (Err _) =>
          timedOut ← perform EJobCallerTimedOut;
          Ret (inr (if (timedOut : bool) then so_timeout else so_source_error))
      end
  | StartRetained _ =>
      r ← perform EJobSource;
      Ret match r with Ok value => inl value | Err _ => inr so_source_error end
  end.

Definition fillShadow (t : Q) (config : ResolvedRemoteLayerConfig) (observed : option Z) (value : jsval) : prog verdict :=
  try_catch
    (filled ← putForShadow redis (sj_key job) value config (b ← abandonIfExpired t; Ret (negb b)) observed;
     unless_expired t (Ret (plain (if (filled : bool) then so_filled else so_fill_fenced))))
    (fun _ =>
       _ ← log LogWarn "Error populating Redis from DialCache shadow work"; Ret (plain so_fill_error)).

(** The second read that confirms a mismatch. *)
Definition confirmMismatch (t : Q) (cachedValue sourceValue : jsval) : prog verdict :=
  r ← attempt (startPayloadReadForShadow redis (sj_key job) None (sj_readTimeoutMs job) RetainFuture);
  match r with
  | Err _ => Ret (plain so_confirmation_error)
  | Ok confirmation =>
      unless_expired t
        (original ← perform EJobFrame;
         match (original : option DecodedRedisFrame) with
         | None => Ret (plain so_timeout)
         | Some originalFrame =>
             match confirmation with
             | RedisReadMiss _ _ => Ret (plain so_superseded)
             | RedisFrame confirmationFrame =>
                 if redisPayloadsEqual (payload originalFrame) (payload confirmationFrame) then
                   age ← shadowValueAgeSeconds (createdAtMs originalFrame);
                   Ret {| vd_outcome := so_mismatch;
                          vd_details := match sj_logPlan job with Some _ => Some (cachedValue, sourceValue) | None => None end;
                          vd_valueAgeSeconds := age |}
                 else Ret (plain so_superseded)
             end
         end)
  end.

Definition compareShadow (t : Q) (sourceValue : jsval) : prog verdict :=
  retained ← perform EJobFrame;
  match (retained : option DecodedRedisFrame) with
  | None => Ret (plain so_timeout)
  | Some retainedFrame =>
      loaded ← attempt (deserializeForShadow redis (sj_key job) (payload retainedFrame));
      match loaded with
      | Err _ => Ret (plain so_deserialization_error)
      | Ok cachedValue =>
          unless_expired t
            (reply ← perform (ECompare cachedValue sourceValue);
             match reply with
             | PredicateThrew => Ret (plain so_comparison_error)
             | PredicateOther =>
                 _ ← perform EAwaitFulfills; unless_expired t (Ret (plain so_comparison_error))
             | PredicateBool matches =>
                 unless_expired t
                   (if (matches : bool) then
                      age ← shadowValueAgeSeconds (createdAtMs retainedFrame);
                      Ret {| vd_outcome := so_match; vd_details := None; vd_valueAgeSeconds := age |}
                    else confirmMismatch t cachedValue sourceValue)
             end)
      end
  end.

(** The [operation] closure with its [finally]. *)
Definition shadowOperation (t : Q) : prog verdict :=
  try_finally
    (unless_expired t
       (o ← openShadow t;
        match o with
        | OpenReturn v => Ret v
        | _ =>
            source ← shadowSource;
            match source with
            | inr outcome => Ret (plain outcome)
            | inl sourceValue =>
                unless_expired t
                  match o with
                  | OpenFill config observed => fillShadow t config observed sourceValue
                  | _ => compareShadow t sourceValue
                  end
            end
        end))
    (_ ← perform EJobFinished; Ret tt).

(** [runShadowValidation] up to the deadline: when it starts and what is left
    of it. *)
Definition deadlineStartedAtMs : prog Q :=
  match sj_start job with
  | StartRetained _ => perform EPerfNow
  | StartRedis _ _ => Ret (sj_flightStartedAtMs job)
  end.

Definition remainingTimeoutMs (t now : Q) : Q :=
  let elapsed := (now - t)%Q in
  let remaining := (inject_Z (sj_timeoutMs job) - (if Qle_bool 0 elapsed then elapsed else 0))%Q in
  if Qle_bool 0 remaining then remaining else 0%Q.

(** The logging outcome: a construction failure, or what the logger did. *)
Definition failure_outcome (f : ShadowMismatchLogFailure) : ShadowMismatchLoggingOutcome :=
  match f with hook_error => slo_hook_error | render_error => slo_render_error end.

Definition logger_outcome (succeeded : bool) : ShadowMismatchLoggingOutcome :=
  if succeeded then slo_logged else slo_logger_error.

(** The one [shadowMismatchLogging] event of a warning.  A promise returned by
    the logger settles the outcome when it does. *)
Definition recordLogging (failure : option ShadowMismatchLogFailure) (delivered : observer_reply) : prog unit :=
  let key := sj_key job in
  let recordOutcome outcome :=
    emit (dc_metrics this) (m_shadowMismatchLogging (namespace key) (useCase key) (keyType key) outcome) in
  match failure with
  | Some f => recordOutcome (failure_outcome f)
  | None =>
      match delivered with
      | ObserverReturned | ObserverThrew => recordOutcome (logger_outcome (callObserver delivered))
      | ObserverPromise fulfilled => _ ← perform EAwaitFulfills; recordOutcome (logger_outcome fulfilled)
      end
  end.

(** [warnShadowMismatch].  The text of the key always renders. *)
Definition warnShadowMismatch (logPlan : ShadowMismatchLogPlan) (cachedValue sourceValue : jsval)
    (valueAgeSeconds : option Q) : prog unit :=
  let key := sj_key job in
  let cacheKey := previewShadowLogKey (urn key) in
  texts ← perform EAppText;
  hook ← (if is_off (lp_diff logPlan) then Ret None else perform (EMismatchHook cachedValue sourceValue));
  let content :=
    match renderShadowMismatchLog texts.1 texts.2 logPlan cachedValue sourceValue hook with
    | Ok content => content
    | Err _ => {| content_fields := failedShadowMismatchLogFields logPlan; content_failure := Some render_error |}
    end in
  delivered ← perform (EWarnMismatch {|
    mw_cacheNamespace := namespace key; mw_useCase := useCase key; mw_keyType := keyType key;
    mw_cachedValueAgeSeconds := valueAgeSeconds; mw_cacheKey := cacheKey;
    mw_fields := content_fields content; mw_loggingOutcome := content_failure content |});
  recordLogging (content_failure content) delivered.

(** [recordShadowValidation], for the settlement of the bounded operation. *)
Definition recordShadowValidation (v : verdict) : prog unit :=
  let key := sj_key job in
  _ ← match dc_metrics this with
      | Some true => emit (dc_metrics this) (m_shadowValidation (namespace key) (useCase key) (keyType key) (vd_outcome v))
      | _ => Ret tt
      end;
  _ ← match vd_valueAgeSeconds v with
      | Some age => emit (dc_metrics this) (m_observeShadowValueAge (namespace key) (useCase key) (keyType key) (vd_outcome v) age)
      | None => Ret tt
      end;
  match vd_details v with
  | Some (cachedValue, sourceValue) =>
      match sj_logPlan job with
      | Some logPlan => warnShadowMismatch logPlan cachedValue sourceValue (vd_valueAgeSeconds v)
      | None => Ret tt
      end
  | None => Ret tt
  end.

(** A job that settles before its deadline reports its verdict; otherwise
    [recordShadowValidation(key, "timeout")]. *)
Definition reportShadow (s : settlement verdict) : prog unit :=
  match s with
  | Settles (Ok v) => recordShadowValidation v
  | Settles (Err _) | DeadlineExpired => recordShadowValidation (plain so_timeout)
  end.

End shadow.

(** ** What a job's trace shows *)

Definition no_write (d : list obs) : Prop := forall rq r, Obs (EClientWrite rq) r ∉ d.

Section evidence.
  Context `{Zstd} (redis : RedisCache) (job : shadow_job).

Local Abbreviation key := (sj_key job).

(** The read of a job was a miss, with the watermark it reported: the client
    answered a miss, or the frame it returned has no valid stamp, is from the
    future where the policy rejects that, or has reached the age limit. *)
Inductive read_misses (maxAgeSec : option Z) (policy : FutureFramePolicy) : list obs -> option Z -> Prop :=
| rm_miss rq c reason w :
    read_request key (sj_readTimeoutMs job) = Ok rq -> validateReadResult key c = RedisReadMiss reason w ->
    read_misses maxAgeSec policy [Obs (EClientRead rq) (Settles (Ok c))] w
| rm_invalid rq f :
    read_request key (sj_readTimeoutMs job) = Ok rq -> stamp_of f = None ->
    read_misses maxAgeSec policy [Obs (EClientRead rq) (Settles (Ok (CR_Frame f)))] None
| rm_future rq f now s :
    read_request key (sj_readTimeoutMs job) = Ok rq -> stamp_of f = Some s ->
    policy = RejectFuture -> now < s ->
    read_misses maxAgeSec policy [Obs (EClientRead rq) (Settles (Ok (CR_Frame f))); Obs EDateNow now] None
| rm_expired rq f now s sec :
    read_request key (sj_readTimeoutMs job) = Ok rq -> stamp_of f = Some s ->
    maxAgeSec = Some sec -> sec * 1000 <= now - s ->
    read_misses maxAgeSec policy [Obs (EClientRead rq) (Settles (Ok (CR_Frame f))); Obs EDateNow now] None.

(** A read of the detached job: what its result says about the client's
    answer. *)
Definition shadow_read (maxAgeSec : option Z) (policy : FutureFramePolicy) (d : list obs) (r : res RedisReadResult) : Prop :=
  no_write d /\
  match r with
  | Err _ => True
  | Ok (RedisFrame f) => exists rq, Obs (EClientRead rq) (Settles (Ok (CR_Frame f))) ∈ d
  | Ok (RedisReadMiss _ w) => read_misses maxAgeSec policy d w
  end.

(** The value the source produced for this job. *)
Definition sourced (d : list obs) (v : jsval) : Prop :=
  match sj_start job with
  | StartRedis _ _ => Obs EJobSharedSource (Settles (Ok v)) ∈ d
  | StartRetained _ => Obs EJobSource (Ok v) ∈ d
  end.

(** The comparator answered [b] for the value loaded from the job's frame and
    the source value. *)
Definition compared (d : list obs) (f : DecodedRedisFrame) (cached source : jsval) (b : bool) : Prop :=
  Obs EJobFrame (Some f) ∈ d /\ Obs (load_event redis key f) (Ok cached) ∈ d /\ sourced d source /\
  Obs (ECompare cached source) (PredicateBool b) ∈ d.

(** A later read returned a frame with the payload the job still holds. *)
Definition confirmed (d : list obs) : Prop :=
  exists f g rq, Obs EJobFrame (Some f) ∈ d /\ Obs (EClientRead rq) (Settles (Ok (CR_Frame g))) ∈ d /\
    redisPayloadsEqual (payload f) (payload g) = true.

(** A write of the job, as the shape of its whole trace: the job was live; its
    one opening read was a miss; the caller's source call settled with the
    value; that value was serialized; the admission check that follows the
    serialization found the job live; and after the clock sample that clears
    the watermark of that very read the write was sent, and nothing else was
    written before or after. *)
Definition fills_miss (d : list obs) (rq : RedisWriteRequest) : Prop :=
  exists config t0 read w value wait p late x after,
    sj_start job = StartRedis config t0 /\
    d = Obs EJobAbandoned false :: read ++
        Obs EJobAbandoned false :: Obs EJobSharedSource (Settles (Ok value)) :: wait ++
        Obs (EDump (serializerFor redis key) value) (Ok p) :: Obs EJobAbandoned false :: late ++
        Obs (EClientWrite rq) x :: after /\
    no_write wait /\ no_write after /\
    read_misses (Some (rc_ttlSec config)) RejectFuture read w /\
    cleared (write_fence key w) late (wq_createdAtMs rq) /\
    stored_payload (rd_compression redis) p = Ok (wq_value rq) /\
    wq_valueKey rq = redisKey key /\
    wq_cacheTtlMs rq = refill_lifetime_ms key config.

Record justified (d : list obs) (v : verdict) : Prop := {
  ju_match : vd_outcome v = so_match -> exists f cached source, compared d f cached source true;
  ju_mismatch : vd_outcome v = so_mismatch ->
    (exists f cached source, compared d f cached source false) /\ confirmed d;
  ju_filled : vd_outcome v = so_filled -> exists rq, Obs (EClientWrite rq) (Ok tt) ∈ d;
  ju_details : forall cached source, vd_details v = Some (cached, source) ->
    vd_outcome v = so_mismatch /\ sj_logPlan job <> None;
  ju_write : forall rq r, Obs (EClientWrite rq) r ∈ d -> fills_miss d rq;
}.

(** ** Lemmas *)

Lemma frame_read_shape c f : validateReadResult key c = RedisFrame f -> c = CR_Frame f.
Proof. destruct c; unfold validateReadResult, redisReadMiss; congruence. Qed.

Lemma no_write_app d1 d2 : no_write (d1 ++ d2) <-> no_write d1 /\ no_write d2.
Proof. unfold no_write. setoid_rewrite elem_of_app. naive_solver. Qed.

Lemma no_write_cons e x d :
  (match e with EClientWrite _ => False | _ => True end) -> no_write d -> no_write (Obs e x :: d).
Proof.
  intros He Hd rq r [Heq|Hin]%elem_of_cons; [|by apply (Hd rq r)]. by inversion Heq; subst.
Qed.

Lemma no_write_nil : no_write [].
Proof. intros rq r. apply not_elem_of_nil. Qed.

Lemma read_misses_no_write maxAgeSec policy d w : read_misses maxAgeSec policy d w -> no_write d.
Proof. destruct 1; repeat (apply no_write_cons; [done|]); apply no_write_nil. Qed.

(** The age limit in milliseconds. *)
Definition age_limit (maxAgeSec maxAgeMs : option Z) : Prop :=
  match maxAgeSec, maxAgeMs with Some sec, Some ms => ms = sec * 1000 | None, None => True | _, _ => False end.

Lemma validateFrameAge_wp rq f maxAgeSec maxAgeMs layer policy Φ :
  read_request key (sj_readTimeoutMs job) = Ok rq -> age_limit maxAgeSec maxAgeMs ->
  (forall d r, shadow_read maxAgeSec policy (Obs (EClientRead rq) (Settles (Ok (CR_Frame f))) :: d) (Ok r) -> Φ d (Ok r)) ->
  wp (validateFrameAge redis key (RedisFrame f) maxAgeMs layer policy) Φ.
Proof.
  intros Hrq Hlim HΦ.
  assert (forall d, no_write d -> Φ d (Ok (RedisFrame f))) as Hhit.
  { intros d Hd. apply HΦ. split; [by apply no_write_cons|]. exists rq. by left. }
  assert (forall d reason, read_misses maxAgeSec policy (Obs (EClientRead rq) (Settles (Ok (CR_Frame f))) :: d) None ->
    Φ d (Ok (RedisReadMiss reason None))) as Hmiss.
  { intros d reason Hm. apply HΦ. split; [by eapply read_misses_no_write|done]. }
  unfold validateFrameAge. wp_steps. apply frameAge_wp.
  destruct (stamp_of f) as [c|] eqn:Es; [|wp_steps; apply Hmiss; by apply rm_invalid].
  assert (forall now, no_write [Obs EDateNow now]) as Hnw
    by (intros now; apply no_write_cons; [done|apply no_write_nil]).
  intros now. unfold age_result. destruct (Z.ltb_spec now c); cbn beta iota; wp_steps.
  - destruct policy eqn:Ep; [apply Hmiss; by eapply rm_future|by apply Hhit].
  - destruct maxAgeMs as [m|]; [|by apply Hhit]. destruct maxAgeSec as [sec|]; [|done]. simpl in Hlim. subst m.
    destruct (Z.ltb_spec (now - c) (sec * 1000)); [by apply Hhit|apply Hmiss; by eapply rm_expired].
Qed.

Lemma startPayloadRead_wp maxAgeSec maxAgeMs layer policy Φ :
  age_limit maxAgeSec maxAgeMs -> (forall d r, shadow_read maxAgeSec policy d r -> Φ d r) ->
  wp (startPayloadRead redis key maxAgeMs (sj_readTimeoutMs job) layer policy) Φ.
Proof.
  intros Hlim HΦ. unfold startPayloadRead. wp_steps. apply startRawPayloadRead_wp.
  - intros e He. apply HΦ. split; [apply no_write_nil|done].
  - intros rq s Hrq.
    assert (no_write [Obs (EClientRead rq) s]) as Hnw by (apply no_write_cons; [done|apply no_write_nil]).
    destruct s as [[c|e]|]; cbn beta iota; [|by apply HΦ..].
    destruct (validateReadResult key c) as [reason w|f] eqn:Ec.
    + wp_steps. apply HΦ. split; [done|]. by eapply rm_miss.
    + pose proof (frame_read_shape _ _ Ec) as ->. eapply validateFrameAge_wp; [done|done|].
      intros d r Hd. by apply HΦ.
Qed.

Lemma shadowRead_wp maxAgeSec policy Φ :
  (forall d r, shadow_read maxAgeSec policy d r -> Φ d r) ->
  wp (startPayloadReadForShadow redis key maxAgeSec (sj_readTimeoutMs job) policy) Φ.
Proof.
  intros HΦ. unfold startPayloadReadForShadow.
  assert (forall m, age_limit maxAgeSec m ->
    wp (startMeasuredPayloadRead redis key m (sj_readTimeoutMs job) RemoteShadowLayer policy) Φ) as Hm.
  { intros m Hlim. unfold startMeasuredPayloadRead. wp_steps. eapply startPayloadRead_wp; [done|]. intros d r Hr.
    destruct r as [[reason w|f]|e]; cbn beta iota; wp_steps; (split; [done|]); rewrite ?app_nil_r; by apply HΦ. }
  destruct maxAgeSec as [sec|]; [|wp_steps; by apply Hm].
  destruct (cacheTtlSecToMs sec) as [ms|e] eqn:Et; wp_steps; [apply Hm; by apply cacheTtlSecToMs_value|].
  apply HΦ. split; [apply no_write_nil|done].
Qed.

Lemma abandonIfExpired_wp t Φ :
  (forall d, no_write d -> Φ d (Ok true)) -> Φ [Obs EJobAbandoned false] (Ok false) ->
  wp (abandonIfExpired job t) Φ.
Proof.
  intros H1 H2. unfold abandonIfExpired. wp_steps. destruct x; wp_steps.
  - apply H1. apply no_write_cons; [done|apply no_write_nil].
  - destruct (Qle_bool _ _); wp_steps; [|done]. apply H1. repeat (apply no_write_cons; [done|]). apply no_write_nil.
Qed.

Lemma unless_expired_wp t k Φ :
  (forall d, no_write d -> Φ d (Ok (plain so_timeout))) ->
  wp k (fun d r => Φ (Obs EJobAbandoned false :: d) r) -> wp (unless_expired job t k) Φ.
Proof.
  intros H1 H2. unfold unless_expired. wp_steps. apply abandonIfExpired_wp; [|exact H2].
  intros d Hd. wp_steps. rewrite app_nil_r. by apply H1.
Qed.

(** The verdict of a program that has already left [pre]. *)
Definition verdict_after (pre : list obs) (d : list obs) (r : res verdict) : Prop :=
  exists v, r = Ok v /\ justified (pre ++ d) v.

Lemma quiet_verdict pre d o :
  no_write pre -> no_write d -> o ∉ [so_match; so_mismatch; so_filled] -> verdict_after pre d (Ok (plain o)).
Proof.
  intros Hp Hd Ho. exists (plain o). split; [done|]. assert (no_write (pre ++ d)) as Hn by by apply no_write_app.
  rewrite !not_elem_of_cons in Ho. split; simpl; try naive_solver. intros rq r Hin. by destruct (Hn rq r).
Qed.

Lemma verdict_app pre d1 d2 r : verdict_after pre (d1 ++ d2) r <-> verdict_after (pre ++ d1) d2 r.
Proof. unfold verdict_after. by rewrite app_assoc. Qed.

Lemma verdict_cons pre o d r : verdict_after pre (o :: d) r <-> verdict_after (pre ++ [o]) d r.
Proof. apply (verdict_app pre [o] d). Qed.

Lemma compared_app pre d f cached source b :
  compared pre f cached source b -> compared (pre ++ d) f cached source b.
Proof.
  unfold compared, sourced. rewrite !elem_of_app. destruct (sj_start job); rewrite ?elem_of_app; tauto.
Qed.
End evidence.

(** Leaves of the walk below. *)
Ltac nowrite := repeat first
  [ assumption | apply no_write_nil | apply no_write_app; split | apply no_write_cons; [exact I|] ].

Ltac member :=
  lazymatch goal with
  | |- _ ∈ _ :: _ => first [apply list_elem_of_here | apply elem_of_cons; right; member]
  | |- _ ∈ _ ++ _ => apply elem_of_app; first [left; member | right; member]
  | |- _ => eassumption
  end.

Ltac notin := rewrite !not_elem_of_cons; repeat split; try discriminate; apply not_elem_of_nil.

Ltac quiet :=
  rewrite ?app_nil_r; apply quiet_verdict;
  [nowrite | nowrite | notin].

Section verdicts.
  Context `{Zstd} (redis : RedisCache) (job : shadow_job).

Lemma confirmMismatch_wp t pre f cached source :
  no_write pre -> compared redis job pre f cached source false ->
  wp (confirmMismatch redis job t cached source) (verdict_after redis job pre).
Proof.
  intros Hp Hc. unfold confirmMismatch. wp_steps. apply shadowRead_wp. intros d r [Hd Hr].
  destruct r as [confirmation|e]; cbn beta iota; [|wp_steps; quiet].
  apply unless_expired_wp; [intros; quiet|]. wp_steps. destruct x as [original|]; [|wp_steps; quiet].
  destruct confirmation as [reason w|g]; [wp_steps; quiet|]. destruct Hr as [rq Hrq].
  destruct (redisPayloadsEqual (payload original) (payload g)) eqn:E; [|wp_steps; quiet].
  wp_steps. eexists. split; [done|]. split; simpl; try done.
  - intros _. split; [exists f, cached, source; by apply compared_app|].
    exists original, g, rq. split; [|split; [|done]]; member.
  - intros c s0. destruct (sj_logPlan job); [done|]. by intros [=].
  - intros rq' r' Hin. exfalso. revert Hin.
    match goal with |- ?P -> False => assert (no_write (pre ++ d ++ [Obs EJobAbandoned false; Obs EJobFrame (Some original); Obs EDateNow x])) as Hn by nowrite end.
    apply Hn.
Qed.

Lemma compareShadow_wp t pre source :
  no_write pre -> sourced job pre source ->
  wp (compareShadow redis job t source) (verdict_after redis job pre).
Proof.
  intros Hp Hs. unfold compareShadow. wp_steps. destruct x as [f|]; [|wp_steps; quiet].
  unfold deserializeForShadow. wp_steps. apply deserializePayload_wp. intros [cached|e]; cbn beta iota; [|wp_steps; quiet].
  apply unless_expired_wp; [intros; quiet|]. wp_steps. destruct x as [|b|]; [wp_steps; quiet| |].
  - apply unless_expired_wp; [intros; quiet|].
    set (pre' := pre ++ [Obs EJobFrame (Some f); Obs (load_event redis (sj_key job) f) (Ok cached); Obs EJobAbandoned false;
                         Obs (ECompare cached source) (PredicateBool b); Obs EJobAbandoned false]).
    assert (no_write pre') as Hn by (unfold pre'; nowrite).
    assert (compared redis job pre' f cached source b) as Hc.
    { unfold compared, sourced, pre' in *. repeat split; try member. destruct (sj_start job); member. }
    destruct b.
    + wp_steps. eexists. split; [done|]. split; simpl; try done.
      * intros _. exists f, cached, source. apply (compared_app redis job) with (d := [Obs EDateNow x]) in Hc.
        unfold pre' in Hc. by rewrite <- app_assoc in Hc.
      * intros rq r Hin. exfalso. revert rq r Hin.
        match goal with |- forall rq r, Obs (EClientWrite rq) r ∈ ?d -> False => assert (no_write d) as Hn' by nowrite end.
        exact Hn'.
    + eapply wp_mono; [by eapply (confirmMismatch_wp t pre')|].
      intros d r Hr. unfold pre' in Hr. rewrite <- verdict_app in Hr. exact Hr.
  - wp_steps. apply unless_expired_wp; [intros; quiet|]. wp_steps. quiet.
Qed.

(** The admission check of the fill. *)
Definition job_live (d : list obs) (r : res bool) : Prop :=
  no_write d /\ (r = Ok true -> d = [Obs EJobAbandoned false]).

Lemma job_live_spec t : check_spec (Some (b ← abandonIfExpired job t; Ret (negb b))) job_live.
Proof.
  unfold check_spec. wp_steps. apply abandonIfExpired_wp.
  - intros d Hd. wp_steps. split; [nowrite|]. by intros [=].
  - wp_steps. split; [nowrite|done].
Qed.

Lemma cleared_no_write fence d stamp : cleared fence d stamp -> no_write d.
Proof. destruct 1; nowrite. Qed.

Lemma stopped_no_write fence d r : stopped fence d r -> no_write d.
Proof. destruct 1; nowrite. Qed.

(** Everything a fill does: no write, or one write at its end, dispatched
    after the admission check that found the job live. *)
Lemma put_fills value config w d r :
  remote_put redis (sj_key job) value (retentionTtlSecFor config * 1000) (write_fence (sj_key job) w) job_live d r ->
  (no_write d /\ r <> Ok true) \/
  exists early p late rq x,
    d = early ++ Obs (EDump (serializerFor redis (sj_key job)) value) (Ok p) :: Obs EJobAbandoned false :: late ++
        [Obs (EClientWrite rq) x] /\
    no_write early /\ cleared (write_fence (sj_key job) w) late (wq_createdAtMs rq) /\
    stored_payload (rd_compression redis) p = Ok (wq_value rq) /\ wq_valueKey rq = redisKey (sj_key job) /\
    wq_cacheTtlMs rq = refill_lifetime_ms (sj_key job) config /\ (r = Ok true -> x = Ok tt).
Proof.
  intros Hput.
  destruct Hput as [d r Hs|p0 t e Hc|p0 t p e Hc Henc|p0 t p stored chk r Hc Henc [Hn _] Hr|p0 t p stored chk d r Hc Henc [Hn _] Hs
    |p0 t p stored chk post stamp x Hc Henc [Hn Hlive] Hpost].
  - left. split; [by eapply stopped_no_write|]. by destruct Hs.
  - left. apply cleared_no_write in Hc. split; [nowrite|done].
  - left. apply cleared_no_write in Hc. split; [nowrite|done].
  - left. apply cleared_no_write in Hc. split; [nowrite|done].
  - left. apply cleared_no_write in Hc. pose proof (stopped_no_write _ _ _ Hs). split; [nowrite|by destruct Hs].
  - right. rewrite (Hlive eq_refl). exists p0, p, post. do 2 eexists. split; [done|]. simpl.
    split; [by eapply cleared_no_write|]. do 3 (split; [done|]). split; [apply refill_lifetime|].
    destruct x as [[]|]; [done|by intros [=]].
Qed.

(** The verdict of a job whose fill reached its write. *)
Lemma written_verdict pre d rq x o :
  no_write pre -> no_write d -> (o = so_filled -> x = Ok tt) -> o ∉ [so_match; so_mismatch] ->
  forall tail, no_write tail -> fills_miss redis job (pre ++ (d ++ [Obs (EClientWrite rq) x]) ++ tail) rq ->
  verdict_after redis job pre ((d ++ [Obs (EClientWrite rq) x]) ++ tail) (Ok (plain o)).
Proof.
  intros Hp Hd Hf Ho tail Ht Hfill. exists (plain o). split; [done|]. rewrite !not_elem_of_cons in Ho.
  split; simpl; try naive_solver.
  - intros Hfil. rewrite (Hf Hfil). exists rq. member.
  - intros rq' r Hin. assert (rq' = rq) as ->; [|done].
    rewrite !elem_of_app, list_elem_of_singleton in Hin. destruct Hin as [Hin|[[Hin|Heq]|Hin]];
      [by destruct (Hp rq' r)|by destruct (Hd rq' r)|by inversion Heq|by destruct (Ht rq' r)].
Qed.

(** What a filling job did before its fill. *)
Definition before_fill (read wait : list obs) (value : jsval) : list obs :=
  Obs EJobAbandoned false :: read ++ Obs EJobAbandoned false :: Obs EJobSharedSource (Settles (Ok value)) :: wait.

Lemma fillShadow_wp t config t0 read w value wait :
  remote_config_ok config -> sj_start job = StartRedis config t0 ->
  read_misses job (Some (rc_ttlSec config)) RejectFuture read w -> no_write wait ->
  wp (fillShadow redis job t config w value) (verdict_after redis job (before_fill read wait value)).
Proof.
  intros Hcfg Hst Hread Hwait. unfold fillShadow, putForShadow. wp_steps.
  pose proof (read_misses_no_write _ _ _ _ _ Hread) as Hrw.
  assert (no_write (before_fill read wait value)) as Hp by (unfold before_fill; nowrite).
  eapply wp_mono; [apply put_refines; [by apply retention_range|apply job_live_spec]|].
  intros d r Hput. destruct (put_fills _ _ _ _ _ Hput) as [[Hd Hr]|(early & p & late & rq & x & -> & He & Hl & Hs & Hk & Httl & Hr)].
  - destruct r as [[]|e]; cbn beta iota; [done| |wp_steps; quiet]. apply unless_expired_wp; [intros; quiet|wp_steps; quiet].
  - set (d' := early ++ Obs (EDump (serializerFor redis (sj_key job)) value) (Ok p) :: Obs EJobAbandoned false :: late).
    assert (no_write d') as Hd' by (pose proof (cleared_no_write _ _ _ Hl); unfold d'; nowrite).
    assert (forall o tail, no_write tail -> (o = so_filled -> x = Ok tt) -> o ∉ [so_match; so_mismatch] ->
      verdict_after redis job (before_fill read wait value) ((d' ++ [Obs (EClientWrite rq) x]) ++ tail) (Ok (plain o))) as Hv.
    { intros o tail Ht Hf Ho. apply written_verdict; try done.
      exists config, t0, read, w, value, (wait ++ early), p, late, x, tail. split; [done|].
      split; [unfold before_fill, d'; simpl; rewrite <- !app_assoc; simpl; by rewrite <- ?app_assoc|].
      split; [nowrite|]. by repeat (split; [done|]). }
    assert (early ++ Obs (EDump (serializerFor redis (sj_key job)) value) (Ok p) :: Obs EJobAbandoned false :: late ++
      [Obs (EClientWrite rq) x] = d' ++ [Obs (EClientWrite rq) x]) as -> by (unfold d'; by rewrite <- app_assoc).
    destruct r as [b|e]; cbn beta iota.
    + apply unless_expired_wp; [intros tail Ht; apply Hv; [done|done|notin]|].
      wp_steps. apply Hv; [nowrite|by destruct b; auto|destruct b; notin].
    + wp_steps. apply Hv; [nowrite|done|notin].
Qed.

Lemma justified_snoc d v o :
  justified redis job d v -> (forall rq r, o <> Obs (EClientWrite rq) r) -> justified redis job (d ++ [o]) v.
Proof.
  intros [H1 H2 H3 H4 H5] Ho. split; try done.
  - intros (f & cached & source & Hc)%H1. exists f, cached, source. by apply compared_app.
  - intros [(f & cached & source & Hc) (g & h & rq & Hg & Hh & He)]%H2.
    split; [exists f, cached, source; by apply compared_app|]. exists g, h, rq. split; [member|]. split; [member|done].
  - intros [rq Hrq]%H3. exists rq. member.
  - intros rq r [Hin|Heq%list_elem_of_singleton]%elem_of_app; [|by destruct (Ho rq r)].
    destruct (H5 rq r Hin) as (config & t0 & read & w & value & wait & p & late & x & after & Ha & -> & Hb & Hc & Hd).
    exists config, t0, read, w, value, wait, p, late, x, (after ++ [o]). split; [done|].
    split; [by do 3 (simpl; rewrite <- ?app_assoc)|].
    split; [done|]. split; [|done]. apply no_write_app. split; [done|].
    intros rq' r' Heq%list_elem_of_singleton. by destruct (Ho rq' r').
Qed.

(** What the opening read leaves for the rest of the job. *)
Definition opened (d : list obs) (o : opening) : Prop :=
  no_write d /\
  match o with
  | OpenFrame => True
  | OpenFill config observed =>
      exists t0 read, sj_start job = StartRedis config t0 /\ d = read ++ [Obs EJobAbandoned false] /\
        read_misses job (Some (rc_ttlSec config)) RejectFuture read observed
  | OpenReturn v => v = plain so_redis_error \/ v = plain so_timeout
  end.

Lemma openShadow_wp t Φ :
  (forall d o, opened d o -> Φ d (Ok o)) -> wp (openShadow redis job t) Φ.
Proof.
  intros HΦ. unfold openShadow. destruct (sj_start job) as [f|config t0] eqn:Es.
  { wp_steps. apply HΦ. split; [nowrite|done]. }
  wp_steps. apply shadowRead_wp. intros d r [Hd Hr]. destruct r as [result|e]; cbn beta iota.
  - wp_steps. apply abandonIfExpired_wp.
    + intros d' Hd'. wp_steps. apply HΦ. split; [nowrite|by right].
    + cbn beta iota. destruct result as [reason w|f]; wp_steps; apply HΦ; (split; [nowrite|]); [|done].
      by exists t0, d.
  - wp_steps. apply HΦ. split; [nowrite|by left].
Qed.

Lemma shadowSource_wp Φ :
  (forall d v, no_write d -> sourced job d v ->
     (forall config t0, sj_start job = StartRedis config t0 ->
        exists wait, d = Obs EJobSharedSource (Settles (Ok v)) :: wait /\ no_write wait) -> Φ d (Ok (inl v))) ->
  (forall d o, no_write d -> o = so_timeout \/ o = so_source_error -> Φ d (Ok (inr o))) ->
  wp (shadowSource job) Φ.
Proof.
  intros H1 H2. unfold shadowSource, sourced in *. destruct (sj_start job) as [f|config t0].
  - wp_steps. destruct x as [v|e]; [apply H1; [nowrite|member|done]|apply H2; [nowrite|by right]].
  - wp_steps. destruct x as [[v|e]|]; wp_steps.
    + apply H1; [nowrite|member|]. intros _ _ _. eexists. split; [done|nowrite].
    + apply H2; [nowrite|]. destruct x; auto.
    + apply H2; [nowrite|by left].
Qed.

Definition job_ok : Prop := forall config t0, sj_start job = StartRedis config t0 -> remote_config_ok config.

Lemma shadowOperation_wp t :
  job_ok -> wp (shadowOperation redis job t) (fun d r => exists v, r = Ok v /\ justified redis job d v).
Proof.
  intros Hjob. unfold shadowOperation. wp_steps.
  eapply wp_mono with (Φ := verdict_after redis job []).
  - apply unless_expired_wp; [intros; quiet|]. wp_steps. apply openShadow_wp. intros d o [Hd Ho].
    destruct o as [|config observed|v]; cbn beta iota;
      [| |destruct Ho as [-> | ->]; wp_steps; quiet];
    (wp_steps; apply shadowSource_wp; [|intros d' o' Hd' [-> | ->]; wp_steps; quiet]);
    intros d' value Hd' Hs Hwait; cbn beta iota; (apply unless_expired_wp; [intros; quiet|]).
    + eapply wp_mono; [apply (compareShadow_wp t (Obs EJobAbandoned false :: d ++ d' ++ [Obs EJobAbandoned false]))|].
      * nowrite.
      * unfold sourced in *. destruct (sj_start job); member.
      * intros d2 r (v & -> & Hv). exists v. split; [done|]. simpl in *. by rewrite <- !app_assoc in Hv.
    + destruct Ho as (t0 & read & Hst & -> & Hread). destruct (Hwait _ _ Hst) as (wait & -> & Hw).
      eapply wp_mono; [apply (fillShadow_wp t config t0 read observed value (wait ++ [Obs EJobAbandoned false]))|].
      * by eapply Hjob.
      * done.
      * done.
      * nowrite.
      * intros d2 r (v & -> & Hv). exists v. split; [done|]. unfold before_fill in Hv. simpl in *.
        rewrite <- !app_assoc in *. simpl in *. by rewrite <- !app_assoc in Hv.
  - intros d r (v & -> & Hv). wp_steps. split; [done|]. exists v. split; [done|]. by apply justified_snoc.
Qed.
End verdicts.

(** C16. The verdict of a shadow job is backed by what it saw.  The operation
    always ends with a verdict.  ["match"] means the comparator accepted the
    value loaded from the job's frame against the source value; ["mismatch"]
    that it rejected it and a later read returned the same payload; ["filled"]
    that Redis acknowledged a write; only a mismatch with logging on carries
    the values to log. *)
Theorem shadow_verdict_is_backed `{Zstd} (redis : RedisCache) (job : shadow_job) (t : Q) tr r :
  job_ok job -> runs (shadowOperation redis job t) tr r ->
  exists v, r = Ok v /\
    (vd_outcome v = so_match -> exists f cached source, compared redis job (data_trace tr) f cached source true) /\
    (vd_outcome v = so_mismatch ->
       (exists f cached source, compared redis job (data_trace tr) f cached source false) /\ confirmed (data_trace tr)) /\
    (vd_outcome v = so_filled -> exists rq, Obs (EClientWrite rq) (Ok tt) ∈ data_trace tr) /\
    (forall cached source, vd_details v = Some (cached, source) ->
       vd_outcome v = so_mismatch /\ sj_logPlan job <> None).
Proof.
  intros Hjob Hrun. pose proof (shadowOperation_wp redis job t Hjob) as Hwp. rewrite wp_runs in Hwp.
  destruct (Hwp _ _ Hrun) as (v & -> & [H1 H2 H3 H4 _]). eauto 10.
Qed.

(** C15. Shadow work writes to Redis only to fill a miss of its own.  A job
    that validates a served frame never writes.  A job that writes did so
    after its own opening read was a miss under the caller's resolved policy
    (no frame, or a frame that is invalid, from the future or past the TTL),
    stores the value the caller's source call settled with under the same key
    and lifetime, passed an admission check that found the job live between
    serializing and sending, and stamps a tracked frame above the watermark
    that read observed, so it cannot undo an invalidation; and it writes
    once. *)
Theorem shadow_write_only_fills `{Zstd} (redis : RedisCache) (job : shadow_job) (t : Q) tr r rq x :
  job_ok job -> runs (shadowOperation redis job t) tr r -> Obs (EClientWrite rq) x ∈ data_trace tr ->
  fills_miss redis job (data_trace tr) rq.
Proof.
  intros Hjob Hrun. pose proof (shadowOperation_wp redis job t Hjob) as Hwp. rewrite wp_runs in Hwp.
  destruct (Hwp _ _ Hrun) as (v & -> & [_ _ _ _ H5]). apply H5.
Qed.

(** ** Sample jobs *)

Definition sample_job (start : ShadowValidationStart) (key : DialCacheKey) : shadow_job :=
  {| sj_key := key; sj_start := start; sj_flightStartedAtMs := 0; sj_timeoutMs := 60000; sj_readTimeoutMs := 50;
     sj_logPlan := Some {| lp_value := true; lp_diff := DiffOff |} |}.

Definition sample_key : DialCacheKey :=
  {| keyType := js "user"; key_id := js "42"; useCase := js "profile"; key_args := []; namespace := js "urn";
     prefix := js "{urn:user:42}"; urn := js "{urn:user:42}#profile"; defaultConfig := None; serializer := None;
     trackForInvalidation := true |}.

Definition sample_policy : ResolvedRemoteLayerConfig := {| rc_ttlSec := 10; rc_ramp := 100; rc_staleOnErrorMaxAgeSec := None |}.

(** The served frame loads to 1, the source answers 7, and Redis still holds
    the frame. *)
Definition mismatch_run : prog verdict :=
  @shadowOperation toy_zstd sample_redis (sample_job (StartRetained (sample_frame 1000)) sample_key) 0.

Lemma shadow_verdict_is_backed_witness :
  outcome_of fresh_scenario mismatch_run =
    Ok {| vd_outcome := so_mismatch; vd_details := Some (JInt 1, JInt 7); vd_valueAgeSeconds := Some (4000 # 1000)%Q |} /\
  confirmed (data_trace (trace_of fresh_scenario mismatch_run)).
Proof.
  assert (outcome_of fresh_scenario mismatch_run =
    Ok {| vd_outcome := so_mismatch; vd_details := Some (JInt 1, JInt 7); vd_valueAgeSeconds := Some (4000 # 1000)%Q |}) as E
    by (vm_compute; reflexivity).
  split; [exact E|].
  destruct (shadow_verdict_is_backed (H := toy_zstd) sample_redis (sample_job (StartRetained (sample_frame 1000)) sample_key) 0
    (trace_of fresh_scenario mismatch_run) (outcome_of fresh_scenario mismatch_run)) as (v & Hv & _ & Hm & _).
  - intros config t0 Hst. discriminate Hst.
  - apply scenario_runs. reflexivity.
  - rewrite E in Hv. injection Hv as <-. apply Hm. reflexivity.
Defined.

(** Redis reports a miss under watermark 1000 and the clock is at 5000. *)
Definition fill_job : shadow_job := sample_job (StartRedis sample_policy (Some 0%Q)) sample_key.

Definition fill_run : prog verdict := @shadowOperation toy_zstd sample_redis fill_job 0.

Lemma shadow_write_only_fills_witness :
  exists rq s, wq_createdAtMs rq = Some s /\ 1000 < s /\ wq_valueKey rq = redisKey sample_key.
Proof.
  set (o := List.find (fun o => match obs_event o with EClientWrite _ => true | _ => false end)
              (data_trace (trace_of refill_scenario fill_run))).
  destruct o as [[e x]|] eqn:Eo; [|vm_compute in Eo; discriminate Eo]. unfold o in Eo.
  pose proof (find_some _ _ Eo) as [Hin He]. destruct e; try discriminate He. apply list_elem_of_In in Hin.
  destruct (shadow_write_only_fills (H := toy_zstd) sample_redis fill_job 0
    (trace_of refill_scenario fill_run) (outcome_of refill_scenario fill_run) request x)
    as (config & t0 & read & w & value & wait & p & late & x' & after & _ & _ & _ & _ & _ & _ & _ & Hk & _).
  - intros config t0 [= <- <-]. split; [vm_compute; split; [reflexivity|discriminate]|]. intros m [=].
  - apply scenario_runs. reflexivity.
  - exact Hin.
  - pose proof (f_equal (fun q => match q with Some (Obs (EClientWrite rq) _) => wq_createdAtMs rq | _ => None end) Eo) as Hc.
    vm_compute in Hc. exists request, 5000. split; [exact (eq_sym Hc)|]. split; [lia|exact Hk].
Defined.
