(* ===== verification/ShadowWarning.v ===== *)
(** * Reporting a shadow verdict

    The end of a shadow job in [dialcache.ts], [recordShadowValidation] with
    [warnShadowMismatch]: what is logged and counted when a verdict is
    reported, and that nothing escapes from it. *)

From S2P Require Import Prelude JsValue Duration Utf8 Config Key Ramp Metrics RuntimeConfig Frame Compression LogText ShadowLog Effects RedisCache Core Scenario Shadow.

(** The mismatch warnings of a trace, with what the logger did. *)
Fixpoint warnings (tr : list obs) : list (mismatch_warning * observer_reply) :=
  match tr with
  | [] => []
  | Obs (EWarnMismatch w) x :: tr' => (w, x) :: warnings tr'
  | _ :: tr' => warnings tr'
  end.

(** The logging outcomes counted in a trace. *)
Fixpoint logging_outcomes (tr : list obs) : list ShadowMismatchLoggingOutcome :=
  match tr with
  | [] => []
  | Obs (EMetric (m_shadowMismatchLogging _ _ _ o)) _ :: tr' => o :: logging_outcomes tr'
  | _ :: tr' => logging_outcomes tr'
  end.

(** The hook calls of a trace. *)
Fixpoint hook_calls (tr : list obs) : nat :=
  match tr with
  | [] => 0
  | Obs (EMismatchHook _ _) _ :: tr' => S (hook_calls tr')
  | _ :: tr' => hook_calls tr'
  end.

(** The outcome a warning is counted under. *)
Definition warning_outcome (w : mismatch_warning) (reply : observer_reply) : ShadowMismatchLoggingOutcome :=
  match mw_loggingOutcome w with
  | Some failure => failure_outcome failure
  | None => logger_outcome (callObserver reply)
  end.

(** A warning about [key] under [plan]: its metadata, and the fields the plan
    asks for, no others. *)
Record warning_of (key : DialCacheKey) (plan : ShadowMismatchLogPlan) (w : mismatch_warning) : Prop := {
  wo_namespace : mw_cacheNamespace w = namespace key;
  wo_useCase : mw_useCase w = useCase key;
  wo_keyType : mw_keyType w = keyType key;
  wo_cacheKey : mw_cacheKey w = previewShadowLogKey (urn key);
  wo_paths : is_Some (mismatchPaths (mw_fields w)) <-> lp_diff plan <> DiffOff;
  wo_diff : is_Some (diffJson (mw_fields w)) <-> lp_diff plan = DiffValues;
  wo_cached : is_Some (cachedValueJson (mw_fields w)) <-> lp_value plan = true;
  wo_source : is_Some (sourceValueJson (mw_fields w)) <-> lp_value plan = true;
}.

Lemma failed_fields_shape plan :
  let f := failedShadowMismatchLogFields plan in
  (is_Some (mismatchPaths f) <-> lp_diff plan <> DiffOff) /\
  (is_Some (diffJson f) <-> lp_diff plan = DiffValues) /\
  (is_Some (cachedValueJson f) <-> lp_value plan = true) /\
  (is_Some (sourceValueJson f) <-> lp_value plan = true).
Proof.
  destruct plan as [[] []]; simpl; repeat split; intros H; try done; try (by destruct H); by eexists.
Qed.

(** The content a warning ends up with, on every path. *)
Definition warning_content (texts : (jsval -> res (option jsstr)) * (jsval -> res jsstr)) (plan : ShadowMismatchLogPlan)
    (c s : jsval) (hook : option (res jsval)) : ShadowMismatchLogContent :=
  match renderShadowMismatchLog texts.1 texts.2 plan c s hook with
  | Ok content => content
  | Err _ => {| content_fields := failedShadowMismatchLogFields plan; content_failure := Some render_error |}
  end.

Lemma warning_content_shape texts plan c s hook :
  let f := content_fields (warning_content texts plan c s hook) in
  (is_Some (mismatchPaths f) <-> lp_diff plan <> DiffOff) /\
  (is_Some (diffJson f) <-> lp_diff plan = DiffValues) /\
  (is_Some (cachedValueJson f) <-> lp_value plan = true) /\
  (is_Some (sourceValueJson f) <-> lp_value plan = true).
Proof.
  unfold warning_content. destruct (renderShadowMismatchLog _ _ _ _ _ _) as [content|e] eqn:E; [|apply failed_fields_shape].
  destruct (render_fields_follow_plan _ _ _ _ _ _ _ E) as (H1 & _ & H2 & H3 & H4 & _).
  destruct (failed_fields_shape plan) as (F1 & F2 & F3 & F4). cbn zeta in *. rewrite H1, H2, H3, H4. done.
Qed.

Lemma runs_bind {A B} (p : prog A) (f : A -> prog B) tr r :
  runs (p ≫= f) tr r ->
  exists tr1 tr2 r1, tr = tr1 ++ tr2 /\ runs p tr1 r1 /\
    match r1 with Ok a => runs (f a) tr2 r | Err e => tr2 = [] /\ r = Err e end.
Proof.
  unfold mbind, prog_bind. revert tr. induction p as [a|e|e k IH]; intros tr.
  - intros Hf. by exists [], tr, (Ok a).
  - intros [-> ->]. by exists [], [], (Err e).
  - intros (x & tr' & -> & Hk). apply IH in Hk as (tr1 & tr2 & r1 & -> & H1 & H2).
    exists (Obs e x :: tr1), tr2, r1. split; [done|]. split; [by exists x, tr1|done].
Qed.

(** A piece of trace without warnings, logging outcomes or hook calls. *)
Definition quiet (tr : list obs) : Prop := forall tr',
  warnings (tr ++ tr') = warnings tr' /\ logging_outcomes (tr ++ tr') = logging_outcomes tr' /\
  hook_calls (tr ++ tr') = hook_calls tr'.

(** Emitting a metric that is not a logging outcome is quiet. *)
Lemma emit_quiet adapter m tr r :
  match m with m_shadowMismatchLogging _ _ _ _ => False | _ => True end ->
  runs (emit adapter m) tr r -> r = Ok tt /\ quiet tr.
Proof.
  intros Hm. unfold emit. destruct adapter; simpl; [|by intros [-> ->]].
  intros (x & tr' & -> & -> & ->). split; [done|]. intros tr'. by destruct m.
Qed.

Lemma recordLogging_runs this job failure reply tr r :
  runs (recordLogging this job failure reply) tr r ->
  r = Ok tt /\ warnings tr = [] /\ hook_calls tr = 0%nat /\
  logging_outcomes tr =
    match dc_metrics this with
    | None => []
    | Some _ => [match failure with Some f => failure_outcome f | None => logger_outcome (callObserver reply) end]
    end.
Proof.
  assert (forall o tr r, runs (emit (dc_metrics this) (m_shadowMismatchLogging (namespace (sj_key job)) (useCase (sj_key job))
      (keyType (sj_key job)) o)) tr r ->
    r = Ok tt /\ warnings tr = [] /\ hook_calls tr = 0%nat /\
    logging_outcomes tr = match dc_metrics this with None => [] | Some _ => [o] end) as He.
  { intros o tr0 r0. unfold emit. destruct (dc_metrics this); simpl.
    - by intros (x & tr' & -> & -> & ->).
    - by intros [-> ->]. }
  unfold recordLogging. destruct failure as [f|]; [apply He|]. destruct reply; [apply He..|].
  intros (x & tr' & -> & Hr). by apply He in Hr.
Qed.

(** Every run of [warnShadowMismatch], as its trace. *)
Lemma warnShadowMismatch_runs (this : DialCache) job plan c s age tr r :
  runs (warnShadowMismatch this job plan c s age) tr r ->
  r = Ok tt /\ exists w reply, warnings tr = [(w, reply)] /\ warning_of (sj_key job) plan w /\
    logging_outcomes tr = (match dc_metrics this with None => [] | Some _ => [warning_outcome w reply] end) /\
    (hook_calls tr <= 1)%nat /\ (lp_diff plan = DiffOff -> hook_calls tr = 0%nat).
Proof.
  unfold warnShadowMismatch. intros (texts & tr1 & -> & H1).
  assert (forall hook tr2, runs (delivered ← perform (EWarnMismatch {|
      mw_cacheNamespace := namespace (sj_key job); mw_useCase := useCase (sj_key job); mw_keyType := keyType (sj_key job);
      mw_cachedValueAgeSeconds := age; mw_cacheKey := previewShadowLogKey (urn (sj_key job));
      mw_fields := content_fields (warning_content texts plan c s hook);
      mw_loggingOutcome := content_failure (warning_content texts plan c s hook) |});
      recordLogging this job (content_failure (warning_content texts plan c s hook)) delivered) tr2 r ->
    r = Ok tt /\ exists w reply, warnings tr2 = [(w, reply)] /\ warning_of (sj_key job) plan w /\
      logging_outcomes tr2 = (match dc_metrics this with None => [] | Some _ => [warning_outcome w reply] end) /\
      hook_calls tr2 = 0%nat) as Htail.
  { intros hook tr2 (reply & tr3 & -> & H3). apply recordLogging_runs in H3 as (-> & Hw & Hh & Ho). split; [done|].
    destruct (warning_content_shape texts plan c s hook) as (S1 & S2 & S3 & S4).
    eexists _, reply. simpl. rewrite Hw, Ho, Hh. split; [done|]. split; [by split|]. by split. }
  unfold is_off in H1. destruct (bool_decide_reflect (lp_diff plan = DiffOff)) as [Hoff|Hon].
  - apply (Htail None) in H1 as (-> & w & reply & Hw & Hof & Ho & Hh). split; [done|]. exists w, reply. simpl.
    rewrite Hw, Ho, Hh. do 3 (split; [done|]). split; [lia|done].
  - destruct H1 as (hook & tr2 & -> & H2).
    apply (Htail hook) in H2 as (-> & w & reply & Hw & Hof & Ho & Hh). split; [done|]. exists w, reply. simpl.
    rewrite Hw, Ho, Hh. do 3 (split; [done|]). split; [lia|done].
Qed.

(** ** Properties *)

(** Reporting a verdict never fails and logs at most once: nothing is
    thrown into the detached job whatever the logger, the metrics adapter,
    the hook and the values do; a warning is logged exactly when the verdict
    carries mismatch details and logging is on; it names the key (bounded),
    has exactly the content fields of the plan, and is followed by exactly
    one logging outcome, the construction failure or what the logger did. *)
Theorem verdict_reported_once (this : DialCache) job v tr r :
  runs (recordShadowValidation this job v) tr r ->
  r = Ok tt /\
  match vd_details v, sj_logPlan job with
  | Some _, Some plan =>
      exists w reply, warnings tr = [(w, reply)] /\ warning_of (sj_key job) plan w /\
        logging_outcomes tr = (match dc_metrics this with None => [] | Some _ => [warning_outcome w reply] end) /\
        (lp_diff plan = DiffOff -> hook_calls tr = 0%nat)
  | _, _ => warnings tr = [] /\ logging_outcomes tr = []
  end.
Proof.
  unfold recordShadowValidation. intros Hr.
  apply runs_bind in Hr as (tr1 & tr2 & r1 & -> & H1 & Hr).
  assert (r1 = Ok tt /\ quiet tr1) as [-> Hq1].
  { destruct (dc_metrics this) as [[]|]; [by eapply (emit_quiet (Some true)) in H1|by destruct H1 as [-> ->]..]. }
  apply runs_bind in Hr as (tr3 & tr4 & r2 & -> & H2 & Hr).
  assert (r2 = Ok tt /\ quiet tr3) as [-> Hq2].
  { destruct (vd_valueAgeSeconds v) as [a|]; [by eapply (emit_quiet (dc_metrics this)) in H2|by destruct H2 as [-> ->]]. }
  destruct (Hq1 (tr3 ++ tr4)) as (-> & -> & ->). destruct (Hq2 tr4) as (-> & -> & ->).
  destruct (vd_details v) as [[c s]|]; [|by destruct Hr as [-> ->]].
  destruct (sj_logPlan job) as [plan|]; [|by destruct Hr as [-> ->]].
  apply warnShadowMismatch_runs in Hr as (-> & w & reply & H3 & H4 & H5 & _ & H6). split; [done|]. by exists w, reply.
Qed.

Lemma verdict_reported_once_witness :
  let v := {| vd_outcome := so_mismatch; vd_details := Some (JInt 1, JInt 7); vd_valueAgeSeconds := Some (4 # 1)%Q |} in
  let p := recordShadowValidation sample_cache (sample_job (StartRetained (sample_frame 1000)) sample_key) v in
  exists w reply, warnings (trace_of fresh_scenario p) = [(w, reply)] /\ mw_loggingOutcome w = None /\
    warning_of sample_key {| lp_value := true; lp_diff := DiffOff |} w.
Proof.
  intros v p.
  destruct (verdict_reported_once sample_cache (sample_job (StartRetained (sample_frame 1000)) sample_key) v
    (trace_of fresh_scenario p) (outcome_of fresh_scenario p)) as (_ & w & reply & H1 & H2 & _).
  - apply scenario_runs. reflexivity.
  - exists w, reply. split; [exact H1|]. split; [|exact H2].
    assert (warnings (trace_of fresh_scenario p) = [(w, reply)]) as E by exact H1.
    vm_compute in E. injection E as <- _. reflexivity.
Defined.
