(* ===== verification/ShadowSlots.v ===== *)
(** * Capacity of shadow work

    [shadowFlights] of the instance and the release bookkeeping of
    [runShadowValidation].  A job holds its slot from admission until its
    operation has finished and every Redis read it started has settled, even
    if its report was a timeout long before. *)

From S2P Require Import Prelude JsValue.

Record shadow_flight := {
  sf_id : nat;
  sf_operationFinished : bool;
  sf_pendingRedisReads : nat;
}.

(** [slots] is the map [shadowFlights] from URN to flight; [released] lists
    the jobs that have released, newest first. *)
Record slots := { sl_table : list (jsstr * shadow_flight); sl_next : nat; sl_released : list nat }.

Definition no_slots : slots := {| sl_table := []; sl_next := 0; sl_released := [] |}.

(** The admission test of [scheduleShadowValidation]. *)
Definition admits (max : Z) (s : slots) (u : jsstr) : bool :=
  negb (existsb (fun e => str_eqb e.1 u) (sl_table s)) && (Z.of_nat (length (sl_table s)) <? max).

Definition admitJob (s : slots) (u : jsstr) : slots :=
  {| sl_table := sl_table s ++
       [(u, {| sf_id := sl_next s; sf_operationFinished := false; sf_pendingRedisReads := 0 |})];
     sl_next := S (sl_next s); sl_released := sl_released s |}.

(** The condition of [maybeRelease]. *)
Definition idle (f : shadow_flight) : bool := sf_operationFinished f && (sf_pendingRedisReads f =? 0)%nat.

(** [maybeRelease] after a change [f] of the job's variables. *)
Definition update_job (s : slots) (id : nat) (f : shadow_flight -> shadow_flight) : slots :=
  let table := (fun e => if (sf_id e.2 =? id)%nat then (e.1, f e.2) else e) <$> sl_table s in
  let done e := (sf_id e.2 =? id)%nat && idle e.2 in
  {| sl_table := List.filter (fun e => negb (done e)) table; sl_next := sl_next s;
     sl_released := if existsb done table then id :: sl_released s else sl_released s |}.

(** [readShadowFrame] adds to [pendingRedisReads]; it does not release. *)
Definition startRead (s : slots) (id : nat) : slots :=
  {| sl_table := (fun e => if (sf_id e.2 =? id)%nat
                           then (e.1, {| sf_id := id; sf_operationFinished := sf_operationFinished e.2;
                                         sf_pendingRedisReads := S (sf_pendingRedisReads e.2) |})
                           else e) <$> sl_table s;
     sl_next := sl_next s; sl_released := sl_released s |}.

Definition readSettled (s : slots) (id : nat) : slots :=
  update_job s id (fun f => {| sf_id := sf_id f; sf_operationFinished := sf_operationFinished f;
                               sf_pendingRedisReads := pred (sf_pendingRedisReads f) |}).

Definition finishOperation (s : slots) (id : nat) : slots :=
  update_job s id (fun f => {| sf_id := sf_id f; sf_operationFinished := true;
                               sf_pendingRedisReads := sf_pendingRedisReads f |}).

Definition job_of (s : slots) (id : nat) (f : shadow_flight) : Prop := exists u, (u, f) ∈ sl_table s /\ sf_id f = id.

(** Guards: only a running operation starts a read, only a pending read
    settles, and [finally] runs once. *)
Inductive slot_step (max : Z) : slots -> slots -> Prop :=
| slot_admit s u : admits max s u = true -> slot_step max s (admitJob s u)
| slot_read s id f : job_of s id f -> sf_operationFinished f = false -> slot_step max s (startRead s id)
| slot_settle s id f : job_of s id f -> (0 < sf_pendingRedisReads f)%nat -> slot_step max s (readSettled s id)
| slot_finish s id f : job_of s id f -> sf_operationFinished f = false -> slot_step max s (finishOperation s id).

Abbreviation ids t := (sf_id ∘ snd <$> t).

Record slots_ok (max : Z) (s : slots) : Prop := {
  ss_keys : NoDup (sl_table s).*1;
  ss_ids : NoDup (ids (sl_table s));
  ss_bound : Z.of_nat (length (sl_table s)) <= max;
  ss_fresh : Forall (fun e => (sf_id e.2 < sl_next s)%nat) (sl_table s);
  ss_busy : Forall (fun e => sf_operationFinished e.2 = false \/ (0 < sf_pendingRedisReads e.2)%nat) (sl_table s);
  ss_released : NoDup (sl_released s);
  ss_partition : forall id, (id < sl_next s)%nat <-> id ∈ sl_released s \/ id ∈ ids (sl_table s);
  ss_disjoint : forall id, id ∈ sl_released s -> id ∉ ids (sl_table s);
}.

(** ** Lemmas *)

(** The job of an identity splits the table around its entry. *)
Lemma others_differ max s u f l r :
  slots_ok max s -> sl_table s = l ++ (u, f) :: r ->
  Forall (fun e => sf_id e.2 <> sf_id f) l /\ Forall (fun e => sf_id e.2 <> sf_id f) r /\
  ~ existsb (fun e => str_eqb e.1 u) (l ++ r) = true.
Proof.
  intros Hok Ht. pose proof (ss_ids _ _ Hok) as Hnd. pose proof (ss_keys _ _ Hok) as Hk.
  rewrite Ht, fmap_app in Hnd. rewrite Ht, fmap_app in Hk. simpl in Hnd, Hk.
  apply list.NoDup_app in Hnd as (_ & Hd & [Hr _]%list.NoDup_cons).
  apply list.NoDup_app in Hk as (_ & Hd' & [Hr' _]%list.NoDup_cons). rewrite !list.Forall_forall.
  split; [|split].
  - intros e He Heq. apply (Hd (sf_id f)); [|by left]. rewrite <- Heq. by apply (list_elem_of_fmap_2 (sf_id ∘ snd)).
  - intros e He Heq. apply Hr. rewrite <- Heq. by apply (list_elem_of_fmap_2 (sf_id ∘ snd)).
  - intros ([v g] & Hin%list_elem_of_In & Hv)%existsb_exists. apply str_eqb_eq in Hv. simpl in Hv. subst v.
    apply elem_of_app in Hin as [Hin|Hin]; apply (list_elem_of_fmap_2 fst) in Hin.
    + apply (Hd' u Hin). by left.
    + done.
Qed.

Lemma job_split max s id f :
  slots_ok max s -> job_of s id f ->
  exists u l r, sl_table s = l ++ (u, f) :: r /\ sf_id f = id /\
    Forall (fun e => sf_id e.2 <> id) l /\ Forall (fun e => sf_id e.2 <> id) r.
Proof.
  intros Hok (u & Hin & Hid). apply list_elem_of_split in Hin as (l & r & Ht). exists u, l, r. split; [done|]. split; [done|].
  destruct (others_differ _ _ _ _ _ _ Hok Ht) as (Hl & Hr & _). by rewrite Hid in Hl, Hr.
Qed.

Lemma map_other (g : jsstr * shadow_flight -> jsstr * shadow_flight) id t :
  Forall (fun e => sf_id e.2 <> id) t -> ((fun e => if (sf_id e.2 =? id)%nat then g e else e) <$> t) = t.
Proof.
  induction 1 as [|e t He _ IH]; [done|]. apply Nat.eqb_neq in He. rewrite fmap_cons, IH. by rewrite He.
Qed.

Lemma filter_other (q : jsstr * shadow_flight -> bool) id t :
  Forall (fun e => sf_id e.2 <> id) t ->
  List.filter (fun e => negb ((sf_id e.2 =? id)%nat && q e)) t = t /\ existsb (fun e => (sf_id e.2 =? id)%nat && q e) t = false.
Proof.
  induction 1 as [|e t He _ [IH1 IH2]]; simpl; [done|]. apply Nat.eqb_neq in He. rewrite He. simpl. by rewrite IH1, IH2.
Qed.

Lemma update_split s u f l r id g :
  sl_table s = l ++ (u, f) :: r -> sf_id f = id -> sf_id (g f) = id ->
  Forall (fun e => sf_id e.2 <> id) l -> Forall (fun e => sf_id e.2 <> id) r ->
  update_job s id g =
    if idle (g f) then {| sl_table := l ++ r; sl_next := sl_next s; sl_released := id :: sl_released s |}
    else {| sl_table := l ++ (u, g f) :: r; sl_next := sl_next s; sl_released := sl_released s |}.
Proof.
  intros Ht Hf Hg Hl Hr. unfold update_job. rewrite Ht, fmap_app, fmap_cons.
  rewrite (map_other (fun e => (e.1, g e.2))), (map_other (fun e => (e.1, g e.2))) by done.
  cbn [fst snd]. rewrite Hf, Nat.eqb_refl.
  pose proof (filter_other (fun e => idle e.2) id l Hl) as [Fl El].
  pose proof (filter_other (fun e => idle e.2) id r Hr) as [Fr Er].
  rewrite List.filter_app, existsb_app. simpl.
  rewrite Fl, El, Fr, Er, Hg, Nat.eqb_refl. simpl. by destruct (idle (g f)).
Qed.

(** Replacing the variables of a job that stays busy. *)
Lemma replace_ok max s u f g l r :
  slots_ok max s -> sl_table s = l ++ (u, f) :: r -> sf_id g = sf_id f ->
  sf_operationFinished g = false \/ (0 < sf_pendingRedisReads g)%nat ->
  slots_ok max {| sl_table := l ++ (u, g) :: r; sl_next := sl_next s; sl_released := sl_released s |}.
Proof.
  intros [H1 H2 H3 H4 H5 H6 H7 H8] Ht Hid Hbusy. rewrite Ht in *.
  assert (ids (l ++ (u, g) :: r) = ids (l ++ (u, f) :: r)) as Hids by (rewrite !fmap_app; simpl; by rewrite Hid).
  split; simpl; rewrite ?Hids; try done.
  - by rewrite fmap_app in *.
  - by rewrite !length_app in *.
  - rewrite !Forall_app, !Forall_cons_iff in *. simpl in *. by rewrite Hid.
  - rewrite !Forall_app, !Forall_cons_iff in *. naive_solver.
Qed.

(** Releasing a job. *)
Lemma release_ok max s u f l r :
  slots_ok max s -> sl_table s = l ++ (u, f) :: r ->
  slots_ok max {| sl_table := l ++ r; sl_next := sl_next s; sl_released := sf_id f :: sl_released s |}.
Proof.
  intros [H1 H2 H3 H4 H5 H6 H7 H8] Ht. rewrite Ht in *.
  assert (forall id, id ∈ ids (l ++ (u, f) :: r) <-> id = sf_id f \/ id ∈ ids (l ++ r)) as Hids.
  { intros id. rewrite !fmap_app. simpl. set_solver. }
  assert (sf_id f ∉ ids (l ++ r)) as Hnot.
  { rewrite fmap_app in *. simpl in H2. rewrite list.NoDup_app, list.NoDup_cons in H2. set_solver. }
  split; simpl.
  - rewrite fmap_app in *. simpl in H1. rewrite list.NoDup_app, list.NoDup_cons in H1. rewrite list.NoDup_app. set_solver.
  - rewrite fmap_app in *. simpl in H2. rewrite list.NoDup_app, list.NoDup_cons in H2. rewrite list.NoDup_app. set_solver.
  - rewrite length_app in *. simpl in H3. lia.
  - rewrite !Forall_app, !Forall_cons_iff in *. naive_solver.
  - rewrite !Forall_app, !Forall_cons_iff in *. naive_solver.
  - apply list.NoDup_cons. split; [|done]. intros Hin. apply (H8 _ Hin). apply Hids. by left.
  - intros id. rewrite H7, Hids, elem_of_cons. tauto.
  - intros id [->|Hin]%elem_of_cons; [done|]. specialize (H8 id Hin). rewrite Hids in H8. tauto.
Qed.

Lemma admit_ok max s u : slots_ok max s -> admits max s u = true -> slots_ok max (admitJob s u).
Proof.
  intros [H1 H2 H3 H4 H5 H6 H7 H8] [Hnew Hlt]%andb_true_iff. apply Z.ltb_lt in Hlt. apply negb_true_iff in Hnew.
  assert (u ∉ (sl_table s).*1) as Hu.
  { intros ([v f] & -> & Hin)%list_elem_of_fmap. apply not_true_iff_false in Hnew. apply Hnew.
    apply existsb_exists. exists (v, f). split; [by apply list_elem_of_In|]. by apply str_eqb_eq. }
  assert (sl_next s ∉ ids (sl_table s)) as Hn by (intros Hin; assert (sl_next s < sl_next s)%nat by (apply H7; by right); lia).
  assert (ids (sl_table (admitJob s u)) = ids (sl_table s) ++ [sl_next s]) as Hids by (unfold admitJob; simpl; by rewrite fmap_app).
  simpl in Hids. split; simpl.
  - rewrite fmap_app. apply list.NoDup_app. split; [done|]. split; [set_solver|]. apply NoDup_singleton.
  - rewrite fmap_app. apply list.NoDup_app. split; [done|]. split; [set_solver|]. apply NoDup_singleton.
  - rewrite length_app. simpl. lia.
  - apply Forall_app. split; [|by repeat constructor]. eapply list.Forall_impl; [exact H4|]. simpl. lia.
  - apply Forall_app. split; [done|]. repeat constructor.
  - done.
  - intros id. rewrite Hids, elem_of_app, list_elem_of_singleton.
    rewrite Nat.lt_succ_r, Nat.le_lteq, H7. tauto.
  - intros id Hin. rewrite Hids, elem_of_app, list_elem_of_singleton. intros [?| ->]; [by apply (H8 id)|].
    assert (sl_next s < sl_next s)%nat by (apply H7; by left). lia.
Qed.

(** An update of a job keeps the invariant, released or not. *)
Lemma job_update_ok max s id f g :
  slots_ok max s -> job_of s id f -> sf_id (g f) = id -> slots_ok max (update_job s id g).
Proof.
  intros Hok Hj Hg. destruct (job_split _ _ _ _ Hok Hj) as (u & l & r & Ht & Hid & Hl & Hr).
  rewrite (update_split s u f l r id g) by done. destruct (idle (g f)) eqn:E.
  - rewrite <- Hid. by eapply release_ok.
  - eapply replace_ok; [done|done|congruence|]. unfold idle in E. apply andb_false_iff in E as [E|E]; [by left|right].
    apply Nat.eqb_neq in E. lia.
Qed.

Lemma slot_step_ok max s s' : slot_step max s s' -> slots_ok max s -> slots_ok max s'.
Proof.
  intros [s0 u Ha|s0 id f Hj Hf|s0 id f Hj Hf|s0 id f Hj Hf] Hok.
  - by apply admit_ok.
  - destruct (job_split _ _ _ _ Hok Hj) as (u & l & r & Ht & Hid & Hl & Hr). unfold startRead. rewrite Ht, fmap_app, fmap_cons.
    rewrite !(map_other (fun e => (e.1, {| sf_id := id; sf_operationFinished := sf_operationFinished e.2;
      sf_pendingRedisReads := S (sf_pendingRedisReads e.2) |}))) by done.
    cbn [fst snd]. rewrite Hid, Nat.eqb_refl. eapply replace_ok; [done|exact Ht|done|]. right. simpl. lia.
  - apply (job_update_ok _ _ _ f); [done..|]. by destruct Hj as (? & _ & <-).
  - apply (job_update_ok _ _ _ f); [done..|]. by destruct Hj as (? & _ & <-).
Qed.

Lemma slots_reachable_ok max s : 0 <= max -> rtc (slot_step max) no_slots s -> slots_ok max s.
Proof.
  intros Hmax H. remember no_slots as s0 eqn:E. assert (slots_ok max s0) as H0.
  { subst. split; simpl; try apply NoDup_nil_2; try apply Forall_nil_2; try lia; try done; intros id; [split; [lia|]|]; set_solver. }
  clear E. induction H; eauto using slot_step_ok.
Qed.

(** ** Histories

    What happened to the jobs, without the table: admissions, the Redis reads
    a job starts, their settlements, and the end of its operation.  Jobs are
    numbered in the order of admission. *)
Inductive slot_event := EvAdmit (u : jsstr) | EvRead (id : nat) | EvSettle (id : nat) | EvFinish (id : nat).

#[export] Instance slot_event_eq_dec : EqDecision slot_event.
Proof. solve_decision. Defined.

Definition is_admit (e : slot_event) : bool := match e with EvAdmit _ => true | _ => false end.

Definition admitted (h : list slot_event) : nat := length (List.filter is_admit h).

Definition happened (e : slot_event) (h : list slot_event) : nat := length (List.filter (fun x => bool_decide (x = e)) h).

(** A job is busy from its admission until its operation has finished and as
    many of its reads have settled as were started. *)
Definition busy (h : list slot_event) (id : nat) : Prop :=
  (id < admitted h)%nat /\ (happened (EvFinish id) h = 0 \/ happened (EvSettle id) h < happened (EvRead id) h)%nat.

(** The histories of an instance with their states.  The conditions are those
    of the environment: an admitted job starts reads and finishes while its
    operation runs, and only a started read settles, whatever the table
    holds. *)
Inductive slot_run (max : Z) : list slot_event -> slots -> Prop :=
| run_start : slot_run max [] no_slots
| run_admit h s u : slot_run max h s -> admits max s u = true -> slot_run max (h ++ [EvAdmit u]) (admitJob s u)
| run_read h s id :
    slot_run max h s -> (id < admitted h)%nat -> happened (EvFinish id) h = 0%nat ->
    slot_run max (h ++ [EvRead id]) (startRead s id)
| run_settle h s id :
    slot_run max h s -> (happened (EvSettle id) h < happened (EvRead id) h)%nat ->
    slot_run max (h ++ [EvSettle id]) (readSettled s id)
| run_finish h s id :
    slot_run max h s -> (id < admitted h)%nat -> happened (EvFinish id) h = 0%nat ->
    slot_run max (h ++ [EvFinish id]) (finishOperation s id).

Lemma admitted_snoc h e : admitted (h ++ [e]) = (admitted h + if is_admit e then 1 else 0)%nat.
Proof. unfold admitted. rewrite List.filter_app, length_app. simpl. by destruct (is_admit e). Qed.

Lemma happened_snoc x h e : happened x (h ++ [e]) = (happened x h + if bool_decide (e = x) then 1 else 0)%nat.
Proof. unfold happened. rewrite List.filter_app, length_app. simpl. by destruct (bool_decide (e = x)). Qed.

Lemma happened_snoc_ne x h e : e <> x -> happened x (h ++ [e]) = happened x h.
Proof. intros He. rewrite happened_snoc, bool_decide_eq_false_2 by done. lia. Qed.

Lemma happened_snoc_eq x h : happened x (h ++ [x]) = S (happened x h).
Proof. rewrite happened_snoc, bool_decide_eq_true_2 by done. lia. Qed.

(** The variables of a held job are what the history says. *)
Definition recorded (h : list slot_event) (f : shadow_flight) : Prop :=
  sf_operationFinished f = negb (happened (EvFinish (sf_id f)) h =? 0)%nat /\
  (happened (EvSettle (sf_id f)) h + sf_pendingRedisReads f = happened (EvRead (sf_id f)) h)%nat.

Record tracked_slots (max : Z) (h : list slot_event) (s : slots) : Prop := {
  ts_ok : slots_ok max s;
  ts_next : sl_next s = admitted h;
  ts_recorded : Forall (fun e => recorded h e.2) (sl_table s);
  ts_released : forall id, id ∈ sl_released s ->
    (0 < happened (EvFinish id) h)%nat /\ happened (EvSettle id) h = happened (EvRead id) h;
  ts_future : forall id, (admitted h <= id)%nat ->
    happened (EvFinish id) h = 0%nat /\ happened (EvRead id) h = 0%nat /\ happened (EvSettle id) h = 0%nat;
}.

(** An event of another job changes nothing the history says about this one. *)
Lemma recorded_other h e f :
  recorded h f -> e <> EvFinish (sf_id f) -> e <> EvRead (sf_id f) -> e <> EvSettle (sf_id f) -> recorded (h ++ [e]) f.
Proof. intros Hr H1 H2 H3. unfold recorded. by rewrite !happened_snoc_ne. Qed.

(** A busy job holds its slot. *)
Lemma busy_held max h s id :
  tracked_slots max h s -> busy h id -> exists f, job_of s id f.
Proof.
  intros Ht [Hid Hb]. pose proof (ts_ok _ _ _ Ht) as Hok. rewrite <- (ts_next _ _ _ Ht) in Hid.
  apply (ss_partition _ _ Hok) in Hid as [Hrel|Hin].
  - apply (ts_released _ _ _ Ht) in Hrel. lia.
  - apply list_elem_of_fmap in Hin as ([u f] & -> & Hin). by exists f, u.
Qed.

Lemma held_busy max h s id f :
  tracked_slots max h s -> job_of s id f -> busy h id.
Proof.
  intros Ht (u & Hin & <-). pose proof (ts_ok _ _ _ Ht) as Hok. split.
  - rewrite <- (ts_next _ _ _ Ht). apply (ss_partition _ _ Hok). right. by apply (list_elem_of_fmap_2 (sf_id ∘ snd) _ (u, f)).
  - pose proof (proj1 (list.Forall_forall _ _) (ts_recorded _ _ _ Ht) _ Hin) as [Hf Hp]. simpl in *.
    pose proof (proj1 (list.Forall_forall _ _) (ss_busy _ _ Hok) _ Hin) as [Hb|Hb]; simpl in Hb; [left|right; lia].
    rewrite Hb in Hf. symmetry in Hf. apply negb_false_iff, Nat.eqb_eq in Hf. done.
Qed.

(** An event [e] of job [id] that changes its variables by [g]: the table
    after [maybeRelease] records the longer history. *)
Lemma update_tracked max h s id f e g :
  tracked_slots max h s -> job_of s id f -> sf_id (g f) = id -> is_admit e = false ->
  (forall j, j <> id -> e <> EvFinish j /\ e <> EvRead j /\ e <> EvSettle j) ->
  recorded (h ++ [e]) (g f) -> tracked_slots max (h ++ [e]) (update_job s id g).
Proof.
  intros Ht Hj Hg He Hother Hrec. pose proof (ts_ok _ _ _ Ht) as Hok.
  pose proof (job_update_ok max s id f g Hok Hj Hg) as Hok'.
  assert (id < admitted h)%nat as Hlt by (by destruct (held_busy _ _ _ _ _ Ht Hj)).
  assert (forall j, j <> id -> happened (EvFinish j) (h ++ [e]) = happened (EvFinish j) h /\
    happened (EvRead j) (h ++ [e]) = happened (EvRead j) h /\ happened (EvSettle j) (h ++ [e]) = happened (EvSettle j) h) as Hsame.
  { intros j Hji. destruct (Hother j Hji) as (? & ? & ?). by rewrite !happened_snoc_ne. }
  destruct (job_split _ _ _ _ Hok Hj) as (u & l & r & Et & Hid & Hl & Hr).
  pose proof (ts_recorded _ _ _ Ht) as Hrc. rewrite Et, Forall_app, Forall_cons_iff in Hrc. destruct Hrc as (Rl & _ & Rr).
  assert (forall t : list (jsstr * shadow_flight), Forall (fun e => sf_id e.2 <> id) t -> Forall (fun e => recorded h e.2) t ->
    Forall (fun x => recorded (h ++ [e]) x.2) t) as Hkeep.
  { intros t Hn Hr'. rewrite list.Forall_forall in *. intros x Hx. specialize (Hn x Hx).
    destruct (Hother _ Hn) as (? & ? & ?). apply recorded_other; [by apply Hr'|done..]. }
  pose proof (ts_next _ _ _ Ht) as Hnext. pose proof (ts_released _ _ _ Ht) as Hrel. pose proof (ts_future _ _ _ Ht) as Hfut.
  rewrite (update_split s u f l r id g) in * by done.
  assert (forall j, (admitted (h ++ [e]) <= j)%nat -> happened (EvFinish j) (h ++ [e]) = 0%nat /\
    happened (EvRead j) (h ++ [e]) = 0%nat /\ happened (EvSettle j) (h ++ [e]) = 0%nat) as Hfut'.
  { intros j. rewrite admitted_snoc, He, Nat.add_0_r. intros Hj'. destruct (Hsame j) as (-> & -> & ->); [lia|]. by apply Hfut. }
  assert (forall j, j ∈ sl_released s -> j <> id) as Hne.
  { intros j Hin ->. apply (ss_disjoint _ _ Hok id Hin). destruct Hj as (u' & Hin' & <-). by apply (list_elem_of_fmap_2 (sf_id ∘ snd) _ (u', f)). }
  assert (forall j, j ∈ sl_released s -> (0 < happened (EvFinish j) (h ++ [e]))%nat /\
    happened (EvSettle j) (h ++ [e]) = happened (EvRead j) (h ++ [e])) as Hrel'.
  { intros j Hin. destruct (Hsame j) as (-> & -> & ->); [by apply Hne|]. by apply Hrel. }
  destruct (idle (g f)) eqn:Ei; split; simpl; try done.
  - by rewrite admitted_snoc, He, Nat.add_0_r.
  - apply Forall_app. split; by apply Hkeep.
  - intros j [->|Hin]%elem_of_cons; [|by apply Hrel']. unfold idle in Ei. apply andb_true_iff in Ei as [Ef Ep%Nat.eqb_eq].
    destruct Hrec as [H1 H2]. rewrite Ef, Hg in H1. rewrite Ep, Hg in H2. symmetry in H1.
    apply negb_true_iff, Nat.eqb_neq in H1. lia.
  - by rewrite admitted_snoc, He, Nat.add_0_r.
  - apply Forall_app. split; [by apply Hkeep|]. apply Forall_cons_iff. split; [done|by apply Hkeep].
Qed.

Lemma start_tracked max h s id f :
  tracked_slots max h s -> job_of s id f -> sf_operationFinished f = false -> tracked_slots max (h ++ [EvRead id]) (startRead s id).
Proof.
  intros Ht Hj Hf. pose proof (ts_ok _ _ _ Ht) as Hok.
  pose (g := fun f : shadow_flight => {| sf_id := sf_id f; sf_operationFinished := sf_operationFinished f;
    sf_pendingRedisReads := S (sf_pendingRedisReads f) |}).
  assert (startRead s id = update_job s id g) as ->.
  { destruct (job_split _ _ _ _ Hok Hj) as (u & l & r & Et & Hid & Hl & Hr).
    rewrite (update_split s u f l r id g) by done. unfold idle. simpl. rewrite andb_false_r. unfold startRead.
    rewrite Et, fmap_app, fmap_cons.
    rewrite !(map_other (fun e => (e.1, {| sf_id := id; sf_operationFinished := sf_operationFinished e.2;
      sf_pendingRedisReads := S (sf_pendingRedisReads e.2) |}))) by done.
    cbn [fst snd]. rewrite Hid, Nat.eqb_refl. unfold g. by rewrite Hid. }
  destruct Hj as (u & Hin & Hid). pose proof (proj1 (list.Forall_forall _ _) (ts_recorded _ _ _ Ht) _ Hin) as [H1 H2]. simpl in *.
  eapply (update_tracked max h s id f); [done|by exists u|done|done|naive_solver|].
  unfold recorded, g. simpl. rewrite Hid in *. rewrite happened_snoc_eq, !happened_snoc_ne by done. split; [done|lia].
Qed.

Lemma slot_run_tracked max h s : 0 <= max -> slot_run max h s -> tracked_slots max h s.
Proof.
  intros Hmax. induction 1 as [|h s u _ Ht Ha|h s id _ Ht Hid Hf|h s id _ Ht Hlt|h s id _ Ht Hid Hf].
  - split; [apply (slots_reachable_ok max); [done|apply rtc_refl]|done|constructor| |done].
    simpl. by intros id ?%elem_of_nil.
  - pose proof (ts_ok _ _ _ Ht) as Hok.
    assert (forall id, happened (EvFinish id) (h ++ [EvAdmit u]) = happened (EvFinish id) h /\
      happened (EvRead id) (h ++ [EvAdmit u]) = happened (EvRead id) h /\
      happened (EvSettle id) (h ++ [EvAdmit u]) = happened (EvSettle id) h) as Hsame by (intros; by rewrite !happened_snoc_ne).
    split; simpl.
    + by apply admit_ok.
    + rewrite admitted_snoc, (ts_next _ _ _ Ht). simpl. lia.
    + apply Forall_app. split.
      * eapply list.Forall_impl; [exact (ts_recorded _ _ _ Ht)|]. intros x Hx. by apply recorded_other.
      * apply Forall_singleton. unfold recorded. simpl.
        destruct (Hsame (sl_next s)) as (-> & -> & ->). rewrite (ts_next _ _ _ Ht).
        by destruct (ts_future _ _ _ Ht (admitted h)) as (-> & -> & ->).
    + intros id Hin. destruct (Hsame id) as (-> & -> & ->). by apply (ts_released _ _ _ Ht).
    + intros id. rewrite admitted_snoc. simpl. intros Hle. destruct (Hsame id) as (-> & -> & ->). apply (ts_future _ _ _ Ht). lia.
  - destruct (busy_held _ _ _ id Ht) as [f Hj]; [split; [done|by left]|]. eapply start_tracked; [done|exact Hj|].
    destruct Hj as (u & Hin & <-). pose proof (proj1 (list.Forall_forall _ _) (ts_recorded _ _ _ Ht) _ Hin) as [H1 _]. simpl in H1.
    by rewrite H1, Hf.
  - assert (id < admitted h)%nat as Hid.
    { destruct (decide (id < admitted h)%nat); [done|]. destruct (ts_future _ _ _ Ht id); lia. }
    destruct (busy_held _ _ _ id Ht) as [f Hj]; [split; [done|by right]|].
    destruct Hj as (u & Hin & Ef). pose proof (proj1 (list.Forall_forall _ _) (ts_recorded _ _ _ Ht) _ Hin) as [H1 H2]. simpl in *.
    eapply (update_tracked max h s id f); [done|by exists u|done|done|naive_solver|].
    unfold recorded. cbn [sf_id sf_operationFinished sf_pendingRedisReads]. rewrite Ef in *. rewrite happened_snoc_eq, !happened_snoc_ne by done. split; [done|lia].
  - destruct (busy_held _ _ _ id Ht) as [f Hj]; [split; [done|by left]|].
    destruct Hj as (u & Hin & Ef). pose proof (proj1 (list.Forall_forall _ _) (ts_recorded _ _ _ Ht) _ Hin) as [H1 H2]. simpl in *.
    eapply (update_tracked max h s id f); [done|by exists u|done|done|naive_solver|].
    unfold recorded. simpl. rewrite Ef in *. rewrite happened_snoc_eq, !happened_snoc_ne by done. split; [done|lia].
Qed.

(** C17. Shadow work is bounded and leaks no slot.  After any history of
    admissions, reads, settlements and finished operations at most
    [shadowMaxInFlight] jobs hold a slot, at most one per key; a job holds a
    slot if and only if the history leaves it busy, that is, its operation has
    not finished or one of the Redis reads it started has not settled; and a
    job has released its slot, once, if and only if it was admitted and is not
    busy any more. *)
Theorem shadow_slots_bounded max h s :
  0 <= max -> slot_run max h s ->
  Z.of_nat (length (sl_table s)) <= max /\ NoDup (sl_table s).*1 /\ NoDup (sl_released s) /\
  (forall id, (exists f, job_of s id f) <-> busy h id) /\
  (forall id, id ∈ sl_released s <-> (id < admitted h)%nat /\ ~ busy h id).
Proof.
  intros Hmax Hrun. pose proof (slot_run_tracked _ _ _ Hmax Hrun) as Ht. pose proof (ts_ok _ _ _ Ht) as Hok.
  assert (forall id, (exists f, job_of s id f) <-> busy h id) as Hheld.
  { intros id. split; [intros [f Hf]; by eapply held_busy|by eapply busy_held]. }
  split; [apply Hok|]. split; [apply Hok|]. split; [apply Hok|]. split; [done|].
  intros id. rewrite <- Hheld, <- (ts_next _ _ _ Ht), (ss_partition _ _ Hok id). split.
  - intros Hin. split; [by left|]. intros (f & u & Hf & <-).
    apply (ss_disjoint _ _ Hok _ Hin). by apply (list_elem_of_fmap_2 (sf_id ∘ snd) _ (u, f)).
  - intros [[Hin|Hin] Hn]; [done|]. destruct Hn. apply list_elem_of_fmap in Hin as ([u f] & -> & Hin). by exists f, u.
Qed.

(** A slot is given back.  When the operation of a job finishes with no
    read outstanding, or its last read settles after the operation has
    finished, the slot is free again: the job is out of the table and the key
    can be admitted whenever there was room for it. *)
Theorem shadow_slot_returned max s u id f :
  0 <= max -> rtc (slot_step max) no_slots s -> (u, f) ∈ sl_table s -> sf_id f = id ->
  (sf_pendingRedisReads f = 0%nat ->
     id ∈ sl_released (finishOperation s id) /\ admits max (finishOperation s id) u = true) /\
  (sf_operationFinished f = true -> sf_pendingRedisReads f = 1%nat ->
     id ∈ sl_released (readSettled s id) /\ admits max (readSettled s id) u = true).
Proof.
  intros Hmax H Hin Hid. pose proof (slots_reachable_ok _ _ Hmax H) as Hok.
  assert (forall g, sf_id (g f) = id -> idle (g f) = true ->
    id ∈ sl_released (update_job s id g) /\ admits max (update_job s id g) u = true) as Hfree.
  { intros g Hg Hi. apply list_elem_of_split in Hin as (l & r & Ht).
    destruct (others_differ _ _ _ _ _ _ Hok Ht) as (Hl & Hr & Hu). rewrite Hid in Hl, Hr.
    rewrite (update_split s u f l r id g), Hi by done. split; [by left|].
    unfold admits. simpl. rewrite (proj1 (not_true_iff_false _) Hu). simpl. apply Z.ltb_lt.
    pose proof (ss_bound _ _ Hok) as Hb. rewrite Ht in Hb. rewrite !length_app in *. simpl in Hb. lia. }
  split; intros; apply Hfree; unfold idle; simpl; try done.
  - by apply Nat.eqb_eq.
  - rewrite H0, H1. done.
Qed.

(** ** A sample run: one slot, a job whose read outlives its operation *)

Definition sample_key : jsstr := js "k".

Definition sample_slots : slots := finishOperation (startRead (admitJob no_slots sample_key) 0) 0.

Lemma sample_slots_reachable : rtc (slot_step 1) no_slots sample_slots.
Proof.
  eapply rtc_l; [apply slot_admit with (u := sample_key); reflexivity|].
  eapply rtc_l; [eapply slot_read with (id := 0%nat); [exists sample_key; split; [by left|reflexivity]|reflexivity]|].
  eapply rtc_l; [eapply slot_finish with (id := 0%nat); [exists sample_key; split; [by left|reflexivity]|reflexivity]|].
  apply rtc_refl.
Qed.

Definition sample_slot_history : list slot_event := [EvAdmit sample_key; EvRead 0; EvFinish 0].

Lemma sample_slots_run : slot_run 1 sample_slot_history sample_slots.
Proof.
  apply (run_finish 1 [EvAdmit sample_key; EvRead 0]); [|vm_compute; lia|reflexivity].
  apply (run_read 1 [EvAdmit sample_key]); [|vm_compute; lia|reflexivity].
  apply (run_admit 1 []); [constructor|reflexivity].
Qed.

Lemma shadow_slots_bounded_witness :
  Z.of_nat (length (sl_table sample_slots)) <= 1 /\ (exists f, job_of sample_slots 0 f) /\
  admits 1 sample_slots (js "other") = false.
Proof.
  destruct (shadow_slots_bounded 1 sample_slot_history sample_slots ltac:(lia) sample_slots_run) as (H1 & _ & _ & H2 & _).
  split; [exact H1|]. split; [|reflexivity]. apply H2. split; [vm_compute; lia|right; vm_compute; lia].
Defined.

Lemma shadow_slot_returned_witness : admits 1 (readSettled sample_slots 0) sample_key = true.
Proof.
  destruct (shadow_slot_returned 1 sample_slots sample_key 0
    {| sf_id := 0; sf_operationFinished := true; sf_pendingRedisReads := 1 |}) as [_ H];
    [lia|exact sample_slots_reachable|by left|reflexivity|].
  apply H; reflexivity.
Defined.
