(* ===== verification/LocalCache.v ===== *)
(** * The process-local cache

    [internal/local-cache.ts] on top of the [lru-cache] package.  The package
    is not part of the repository: its documented behaviour (a bounded map
    whose [get] ignores an entry when its age exceeds its TTL, a TTL or a start
    time of zero meaning that the entry never expires) is the class
    [LRULaws], and the theorems hold for every instance of it. *)

From S2P Require Import Prelude JsValue Duration.
From Stdlib Require Import Qround Lqa.

(** ** The package *)

(** The clock argument is what [perf.now()] returned to the package. *)
Class LRU := {
  lru : Type;
  lru_new : Z -> lru;                                  (** [new LRUCache({ maxSize, ... })] *)
  lru_get : lru -> Z -> jsstr -> option jsval * lru;
  lru_set : lru -> Z -> jsstr -> jsval -> Z -> lru;    (** [set(key, value, { size: 1, ttl })] *)
}.

Record lru_entry := { le_key : jsstr; le_value : jsval; le_start : Z; le_ttl : Z }.

(** An entry is returned unless its age exceeds its TTL.  Zero is the
    package's sentinel for "no expiry", both as a TTL and as a start time. *)
Definition lru_live (now : Z) (e : lru_entry) : bool :=
  (le_ttl e =? 0) || (le_start e =? 0) || (now - le_start e <=? le_ttl e).

(** [lru_ok] holds of the caches the package can be in. *)
Class LRULaws `{LRU} := {
  lru_maxSize : lru -> Z;
  lru_entries : lru -> list lru_entry;
  lru_ok : lru -> Prop;
  lru_keys_unique c : lru_ok c -> NoDup (le_key <$> lru_entries c);
  lru_bounded c : lru_ok c -> Z.of_nat (length (lru_entries c)) <= lru_maxSize c;
  lru_new_ok maxSize : 0 < maxSize -> lru_ok (lru_new maxSize);
  lru_get_ok c now k : lru_ok c -> lru_ok (lru_get c now k).2;
  lru_set_ok c now k v ttl : lru_ok c -> lru_ok (lru_set c now k v ttl);
  lru_new_empty maxSize : 0 < maxSize -> lru_entries (lru_new maxSize) = [] /\ lru_maxSize (lru_new maxSize) = maxSize;
  lru_get_entry c now k :
    (lru_get c now k).1 = le_value <$> List.find (fun e => str_eqb (le_key e) k && lru_live now e) (lru_entries c);
  lru_get_keeps c now k e :
    e ∈ lru_entries (lru_get c now k).2 -> e ∈ lru_entries c;
  lru_get_maxSize c now k : lru_maxSize (lru_get c now k).2 = lru_maxSize c;
  lru_set_maxSize c now k v ttl : lru_maxSize (lru_set c now k v ttl) = lru_maxSize c;
  lru_set_entries c now k v ttl e :
    e ∈ lru_entries (lru_set c now k v ttl) ->
    e = {| le_key := k; le_value := v; le_start := now; le_ttl := ttl |} \/ (e ∈ lru_entries c /\ le_key e <> k);
  lru_set_stores c now k v ttl :
    0 < lru_maxSize c -> {| le_key := k; le_value := v; le_start := now; le_ttl := ttl |} ∈ lru_entries (lru_set c now k v ttl);
}.

(** ** LocalCache *)

Section local.
  Context `{LRU}.

(** [None] for [maxSize = 0]. *)
Definition LocalCache := option lru.

Definition new_LocalCache (maxSize : Z) : LocalCache := if maxSize =? 0 then None else Some (lru_new maxSize).

(** [perf: { now: () => Math.floor(performance.now()) + 1 }] *)
Definition perf_now (performanceNow : Q) : Z := Qfloor performanceNow + 1.

(** [getWithResolvedConfig], up to the miss configuration. *)
Definition get (c : LocalCache) (performanceNow : Q) (urn : jsstr) : option jsval * LocalCache :=
  match c with
  | None => (None, None)
  | Some l => let '(hit, l') := lru_get l (perf_now performanceNow) urn in (hit, Some l')
  end.

Definition put (c : LocalCache) (performanceNow : Q) (urn : jsstr) (value : jsval) (ttlSec : Z) : res LocalCache :=
  ms ← cacheTtlSecToMs ttlSec;
  let ttlMs := ms - 1 in
  Ok match c with
     | None => None
     | Some l => Some (lru_set l (perf_now performanceNow) urn value ttlMs)
     end.

(** ** Histories *)

Inductive op :=
| OpPut (t : Q) (urn : jsstr) (value : jsval) (ttlSec : Z)
| OpGet (t : Q) (urn : jsstr).

(** A [put] with a TTL out of range throws and changes nothing. *)
Definition apply_op (c : LocalCache) (o : op) : LocalCache :=
  match o with
  | OpPut t u v ttl => match put c t u v ttl with Ok c' => c' | Err _ => c end
  | OpGet t u => (get c t u).2
  end.

Definition run (maxSize : Z) (h : list op) : LocalCache := foldl apply_op (new_LocalCache maxSize) h.

(** [performance.now()] is never negative. *)
Definition op_time (o : op) : Q := match o with OpPut t _ _ _ | OpGet t _ => t end.

(** The latest successful [put] for a key. *)
Definition last_put (h : list op) (urn : jsstr) : option (Q * jsval * Z) :=
  foldl (fun acc o => match o with
                      | OpPut t u v ttl => if str_eqb u urn && is_ok (cacheTtlSecToMs ttl) then Some (t, v, ttl) else acc
                      | OpGet _ _ => acc
                      end) None h.
End local.

(** ** Lemmas *)

Section laws.
  Context `{LRULaws}.

(** Every entry is the latest [put] of its key. *)
Definition entry_ok (h : list op) (e : lru_entry) : Prop :=
  exists t ttlSec ms, last_put h (le_key e) = Some (t, le_value e, ttlSec) /\ cacheTtlSecToMs ttlSec = Ok ms /\
    le_start e = perf_now t /\ le_ttl e = ms - 1 /\ (0 <= t)%Q.

Definition cache_ok (maxSize : Z) (h : list op) (c : LocalCache) : Prop :=
  match c with
  | None => maxSize = 0
  | Some l => lru_ok l /\ lru_maxSize l = maxSize /\ 0 < maxSize /\ forall e, e ∈ lru_entries l -> entry_ok h e
  end.

Lemma last_put_snoc h o u :
  last_put (h ++ [o]) u =
    match o with
    | OpPut t k v ttl => if str_eqb k u && is_ok (cacheTtlSecToMs ttl) then Some (t, v, ttl) else last_put h u
    | OpGet _ _ => last_put h u
    end.
Proof. unfold last_put. by rewrite foldl_snoc. Qed.

(** An entry survives an operation that does not store under its key. *)
Lemma entry_ok_snoc h o e :
  entry_ok h e -> (forall t v ttl, o = OpPut t (le_key e) v ttl -> is_ok (cacheTtlSecToMs ttl) = false) ->
  entry_ok (h ++ [o]) e.
Proof.
  intros He Ho. unfold entry_ok. rewrite last_put_snoc. destruct o as [t u v ttl|]; [|done].
  destruct (str_eqb u (le_key e)) eqn:E; [|done]. apply str_eqb_eq in E as ->. by rewrite (Ho _ _ _ eq_refl).
Qed.

Lemma apply_op_ok maxSize h c o :
  (0 <= op_time o)%Q -> cache_ok maxSize h c -> cache_ok maxSize (h ++ [o]) (apply_op c o).
Proof.
  intros Ho. unfold apply_op, put, get. destruct o as [t u v ttl|t u].
  - destruct (cacheTtlSecToMs ttl) as [ms|e] eqn:Et; cbn [mbind result_bind]; (destruct c as [l|]; [|done]);
      intros (Hok & Hm & Hp & He).
    + split; [by apply lru_set_ok|]. split; [by rewrite lru_set_maxSize|]. split; [done|].
      intros e [->|[Hin Hk]]%lru_set_entries.
      * unfold entry_ok. rewrite last_put_snoc. cbn. rewrite (proj2 (str_eqb_eq u u) eq_refl), Et.
        by exists t, ttl, ms.
      * apply entry_ok_snoc; [by apply He|]. by intros t' v' ttl' [= _ -> _ _].
    + repeat (split; [done|]). intros x Hin. apply entry_ok_snoc; [by apply He|].
      intros t' v' ttl' [= _ _ _ <-]. by rewrite Et.
  - destruct c as [l|]; [|done]. pose proof (lru_get_ok l (perf_now t) u) as Hok'.
    pose proof (lru_get_keeps l (perf_now t) u) as Hk. pose proof (lru_get_maxSize l (perf_now t) u) as Hm'.
    destruct (lru_get l (perf_now t) u) as [hit l']. cbn in *. intros (Hok & Hm & Hp & He).
    split; [by apply Hok'|]. split; [congruence|]. split; [done|]. intros e Hin. by apply entry_ok_snoc; [apply He, Hk|].
Qed.

Lemma run_ok maxSize h :
  0 <= maxSize -> Forall (fun o => (0 <= op_time o)%Q) h -> cache_ok maxSize h (run maxSize h).
Proof.
  intros Hm Ht. unfold run. induction h as [|o h IH] using rev_ind.
  2: { apply Forall_app in Ht as [Ht Ho%Forall_cons_1]. rewrite foldl_snoc. apply apply_op_ok; [apply Ho|by apply IH]. }
  cbn. unfold new_LocalCache. destruct (Z.eqb_spec maxSize 0) as [->|Hne]; [done|].
  destruct (lru_new_empty maxSize) as [He Hmax]; [lia|]. cbn. split; [apply lru_new_ok; lia|].
  split; [done|]. split; [lia|]. rewrite He. by intros e ?%not_elem_of_nil.
Qed.

Lemma lru_get_hit l now k v :
  (lru_get l now k).1 = Some v -> exists e, e ∈ lru_entries l /\ le_key e = k /\ le_value e = v /\ lru_live now e = true.
Proof.
  rewrite lru_get_entry. intros (e & Hf & ->)%fmap_Some. apply find_some in Hf as [Hin [Hk Hl]%andb_true_iff].
  exists e. apply str_eqb_eq in Hk. split; [by apply list_elem_of_In|done].
Qed.

(** Two entries under one key are the same entry. *)
Lemma entry_unique l e e' :
  lru_ok l -> e ∈ lru_entries l -> e' ∈ lru_entries l -> le_key e = le_key e' -> e = e'.
Proof.
  intros Hok%lru_keys_unique. induction (lru_entries l) as [|x t IH]; [by intros ?%not_elem_of_nil|].
  rewrite fmap_cons, list.NoDup_cons in Hok. destruct Hok as [Hx Hnd].
  intros [->|Hin]%elem_of_cons [->|Hin']%elem_of_cons Hk; [done| | |by apply IH].
  - destruct Hx. rewrite Hk. by apply (list_elem_of_fmap_2 le_key).
  - destruct Hx. rewrite <- Hk. by apply (list_elem_of_fmap_2 le_key).
Qed.

(** The clock the package reads never shows its sentinel, and the TTL given
    to it is never zero, so an entry expires exactly at its boundary. *)
Lemma entry_live t t' ttlSec ms u v :
  (0 <= t)%Q -> cacheTtlSecToMs ttlSec = Ok ms ->
  lru_live (perf_now t') {| le_key := u; le_value := v; le_start := perf_now t; le_ttl := ms - 1 |} =
    (Qfloor t' - Qfloor t <? ttlSec * 1000).
Proof.
  intros Ht Hms. assert (0 <= Qfloor t) as Hf by (apply (Qfloor_resp_le 0 t); done).
  pose proof (cacheTtlSecToMs_value _ _ Hms) as Hv. pose proof (cacheTtlSecToMs_bound _ _ Hms) as Hpos.
  unfold lru_live, perf_now. cbn [le_ttl le_start].
  destruct (Z.eqb_spec (ms - 1) 0), (Z.eqb_spec (Qfloor t + 1) 0),
    (Z.leb_spec (Qfloor t' + 1 - (Qfloor t + 1)) (ms - 1)), (Z.ltb_spec (Qfloor t' - Qfloor t) (ttlSec * 1000)); done || lia.
Qed.

(** With the local layer on, a [put] followed by a [get] of the same key hits
    exactly while the clock has advanced by less than the TTL. *)
Lemma put_then_get maxSize h t t' u v ttlSec c :
  0 < maxSize -> Forall (fun o => (0 <= op_time o)%Q) h -> (0 <= t)%Q -> put (run maxSize h) t u v ttlSec = Ok c ->
  (get c t' u).1 = if Qfloor t' - Qfloor t <? ttlSec * 1000 then Some v else None.
Proof.
  intros Hm Hh Ht Hput. pose proof (run_ok maxSize h ltac:(lia) Hh) as Hok. unfold cache_ok in Hok. unfold put in Hput.
  destruct (cacheTtlSecToMs ttlSec) as [ms|e] eqn:Et; [|done]. cbn in Hput. injection Hput as <-.
  destruct (run maxSize h) as [l|]; [|lia]. destruct Hok as (Hl & Hmax & _ & _). cbn.
  set (entry := {| le_key := u; le_value := v; le_start := perf_now t; le_ttl := ms - 1 |}).
  assert (entry ∈ lru_entries (lru_set l (perf_now t) u v (ms - 1))) as Hin by (apply lru_set_stores; lia).
  pose proof (lru_set_ok l (perf_now t) u v (ms - 1) Hl) as Hl'.
  set (l1 := lru_set l (perf_now t) u v (ms - 1)) in *. pose proof (lru_get_entry l1 (perf_now t') u) as Hget.
  destruct (lru_get l1 (perf_now t') u) as [hit l2]. cbn in *. rewrite Hget.
  rewrite <- (entry_live t t' ttlSec ms u v Ht Et). fold entry.
  destruct (List.find _ (lru_entries l1)) as [e|] eqn:Ef; cbn.
  - apply find_some in Ef as [Hi [Hk Hv]%andb_true_iff]. apply str_eqb_eq in Hk.
    assert (e = entry) as -> by (apply (entry_unique l1); [done|by apply list_elem_of_In|done|done]).
    by rewrite Hv.
  - destruct (lru_live (perf_now t') entry) eqn:E; [|done].
    apply list_elem_of_In in Hin. pose proof (find_none _ _ Ef entry Hin) as Hn. cbn in Hn.
    rewrite (proj2 (str_eqb_eq u u) eq_refl), E in Hn. done.
Qed.
End laws.

(** C21. A local hit is the latest value and is never served at or past its
    TTL.  Whatever sequence of puts and gets came before, on a clock that
    starts at zero or later, a hit returns the value of the latest [put] for
    that key, and fewer than [1000 * ttlSec] milliseconds of the integer clock
    have passed since; and a [put] followed by a [get] of its key hits exactly
    while the clock has advanced by less than the TTL.  The package never
    expires an entry whose start time or TTL is zero, so this rests on the
    clock that is handed to it. *)
Theorem local_hit_is_latest_and_fresh `{LRULaws} maxSize h t u v :
  0 <= maxSize -> Forall (fun o => (0 <= op_time o)%Q) h ->
  ((get (run maxSize h) t u).1 = Some v ->
     exists t0 ttlSec, last_put h u = Some (t0, v, ttlSec) /\ Qfloor t - Qfloor t0 < ttlSec * 1000) /\
  (forall t' ttlSec c, 0 < maxSize -> (0 <= t)%Q -> put (run maxSize h) t u v ttlSec = Ok c ->
     (get c t' u).1 = if Qfloor t' - Qfloor t <? ttlSec * 1000 then Some v else None).
Proof.
  intros Hm Hh. split; [|by intros; eapply put_then_get].
  pose proof (run_ok maxSize h Hm Hh) as Hok. unfold cache_ok in Hok.
  destruct (run maxSize h) as [l|]; [|done]. destruct Hok as (Hl & Hmax & _ & He).
  cbn. pose proof (lru_get_hit l (perf_now t) u v) as Hhit. destruct (lru_get l (perf_now t) u) as [hit l']. cbn in *.
  intros (e & Hin & <- & <- & Hlive)%Hhit. destruct (He e Hin) as (t0 & ttlSec & ms & Hp & Hms & Hst & Httl & Ht0).
  exists t0, ttlSec. split; [done|]. apply Z.ltb_lt. rewrite <- (entry_live t0 t ttlSec ms (le_key e) (le_value e) Ht0 Hms).
  by rewrite <- Hst, <- Httl; destruct e.
Qed.

(** ** An instance: a list in order of recency, cut at [maxSize] *)

Record toy := { toy_max : Z; toy_entries : list lru_entry }.

Definition toy_lru : LRU := {|
  lru := toy;
  lru_new maxSize := {| toy_max := maxSize; toy_entries := [] |};
  lru_get c now k :=
    let found := List.find (fun e => str_eqb (le_key e) k && lru_live now e) (toy_entries c) in
    let others := List.filter (fun e => negb (str_eqb (le_key e) k)) (toy_entries c) in
    (le_value <$> found, {| toy_max := toy_max c; toy_entries := option_list found ++ others |});
  lru_set c now k v ttl :=
    let others := List.filter (fun e => negb (str_eqb (le_key e) k)) (toy_entries c) in
    {| toy_max := toy_max c;
       toy_entries := take (Z.to_nat (toy_max c)) ({| le_key := k; le_value := v; le_start := now; le_ttl := ttl |} :: others) |};
|}.

Definition toy_ok (c : toy) : Prop :=
  0 < toy_max c /\ NoDup (le_key <$> toy_entries c) /\ Z.of_nat (length (toy_entries c)) <= toy_max c.

Lemma others_elem k t e :
  e ∈ List.filter (fun e => negb (str_eqb (le_key e) k)) t <-> e ∈ t /\ le_key e <> k.
Proof. rewrite list_elem_of_In, filter_In, <- list_elem_of_In, negb_true_iff. unfold str_eqb. by rewrite bool_decide_eq_false. Qed.

Lemma filter_keys_sublist (q : lru_entry -> bool) t : le_key <$> List.filter q t `sublist_of` le_key <$> t.
Proof.
  induction t as [|e t IH]; [done|]. simpl. destruct (q e); [by apply sublist_skip|by apply sublist_cons].
Qed.

Lemma others_keys k t : NoDup (le_key <$> t) ->
  NoDup (k :: (le_key <$> List.filter (fun e => negb (str_eqb (le_key e) k)) t)).
Proof.
  intros Hnd. apply list.NoDup_cons. split.
  - intros (e & -> & [_ Hk]%others_elem)%list_elem_of_fmap. done.
  - eapply sublist_NoDup; [exact Hnd|]. apply filter_keys_sublist.
Qed.

#[local] Existing Instance toy_lru.

Lemma toy_get_ok c now k : toy_ok c -> toy_ok (lru_get c now k).2.
Proof.
  intros (Hm & Hnd & Hlen). split; [done|]. simpl. pose proof (others_keys k _ Hnd) as Ho.
  destruct (List.find _ (toy_entries c)) as [e|] eqn:Ef; simpl.
  - apply find_some in Ef as [Hin [Hk _]%andb_true_iff]. apply str_eqb_eq in Hk. rewrite Hk. split; [done|].
    assert (e :: List.filter (fun e0 => negb (str_eqb (le_key e0) k)) (toy_entries c) ⊆+ toy_entries c) as Hsub.
    { apply NoDup_submseteq; [|].
      - apply (NoDup_fmap_1 le_key). simpl. by rewrite Hk.
      - intros x [->|Hx]%elem_of_cons; [by apply list_elem_of_In|]. by apply others_elem in Hx as [? _]. }
    apply submseteq_length in Hsub. simpl in Hsub. lia.
  - apply list.NoDup_cons in Ho as [_ Ho]. split; [done|].
    assert (length (List.filter (fun e0 => negb (str_eqb (le_key e0) k)) (toy_entries c)) <= length (toy_entries c))%nat
      by apply filter_length_le. lia.
Qed.

Lemma toy_set_ok c now k v ttl : toy_ok c -> toy_ok (lru_set c now k v ttl).
Proof.
  intros (Hm & Hnd & Hlen). split; [done|]. simpl. split.
  - eapply sublist_NoDup; [apply (others_keys k _ Hnd)|]. rewrite fmap_take. apply sublist_take.
  - rewrite length_take. lia.
Qed.

#[export] Instance toy_laws : LRULaws.
Proof.
  refine {| lru_maxSize := toy_max : lru -> Z; lru_entries := toy_entries : lru -> list lru_entry; lru_ok := toy_ok |}.
  - by intros c (_ & Hnd & _).
  - by intros c (_ & _ & Hb).
  - intros m Hm. split; [done|]. simpl. split; [constructor|lia].
  - intros c now k. apply toy_get_ok.
  - intros c now k v ttl. apply toy_set_ok.
  - done.
  - done.
  - intros c now k e. simpl. destruct (List.find _ (toy_entries c)) as [x|] eqn:Ef; simpl.
    + intros [->|Hin]%elem_of_cons; [|by apply others_elem in Hin as [? _]].
      apply find_some in Ef as [Hin _]. by apply list_elem_of_In.
    + intros Hin. by apply others_elem in Hin as [? _].
  - done.
  - done.
  - intros c now k v ttl e. simpl. intros (i & Hi%list_elem_of_lookup_2 & _)%elem_of_take.
    apply elem_of_cons in Hi as [->|Hin%others_elem]; auto.
  - intros c now k v ttl Hm. simpl in *. destruct (Z.to_nat (toy_max c)) eqn:E; [lia|]. by left.
Qed.

(** ** Sample history: a put at 10.5 ms with a TTL of one second *)

Definition sample_history : list op := [OpPut (21 # 2) (js "k") (JInt 1) 1].

Lemma local_hit_is_latest_and_fresh_witness :
  (get (run 2 sample_history) 1009 (js "k")).1 = Some (JInt 1) /\
  (exists t0 ttlSec, last_put sample_history (js "k") = Some (t0, JInt 1, ttlSec) /\ Qfloor 1009 - Qfloor t0 < ttlSec * 1000) /\
  (get (run 2 (sample_history ++ [OpPut 0 (js "k") (JInt 1) 1])) 1000 (js "k")).1 = None.
Proof.
  assert (Forall (fun o => (0 <= op_time o)%Q) sample_history) as Ht by (repeat constructor; discriminate).
  destruct (local_hit_is_latest_and_fresh 2 sample_history 1009 (js "k") (JInt 1) ltac:(lia) Ht) as [H _].
  split; [vm_compute; reflexivity|]. split; [apply H; vm_compute; reflexivity|].
  destruct (local_hit_is_latest_and_fresh 2 sample_history 0 (js "k") (JInt 1) ltac:(lia) Ht) as [_ H'].
  rewrite (H' 1000%Q 1 (run 2 (sample_history ++ [OpPut 0 (js "k") (JInt 1) 1]))); vm_compute; reflexivity || discriminate.
Defined.
