(* ===== verification/Adapters.v ===== *)
(** * The interface of the Redis client adapters

    [DialCacheRedisClient] of [redis-client.ts], whose implementations
    ([NodeRedis.v], [ValkeyGlide.v]) are programs that issue native client
    calls, and the commands both build.  The native clients and the server
    are outside the program, so a call may be answered by any reply or
    rejection; [AdapterSpec.v] runs the adapters against a server. *)

From S2P Require Import Prelude JsValue Duration Utf8 Config Key Metrics Frame Invalidation Effects.

(** ** Native calls *)

(** A command argument: a string, a buffer, the source of
    [INVALIDATE_CACHE_SCRIPT], or its SHA1 digest. *)
Inductive argument :=
| AString (s : jsstr)
| ABuffer (b : bytes)
| AScript
| AScriptSha1.

(** Commands ask for binary replies.  [signal] says whether the read signal
    is attached; [primary] is the key whose slot primary the command is
    routed to, for cluster clients. *)
Inductive call :=
| Date_now
| Get (signal : bool) (key : jsstr)                 (** [client.get] *)
| Command (signal : bool) (primary : option jsstr) (args : list argument)
                                                    (** [sendCommand], [customCommand] *)
| ExecMget (keys : list jsstr)                      (** [exec(new Batch(false).mget(keys), true)] *)
| LacksCause (error : exn)                          (** [error instanceof Error && error.cause === undefined] *)
| SetCause (error cause : exn).

Definition answer (c : call) : Type :=
  match c with
  | Date_now => Z
  | Get _ _ | Command _ _ _ | ExecMget _ => res redis_reply
  | LacksCause _ => bool
  | SetCause _ _ => unit
  end.

(** ** Adapter programs *)

Inductive adapter (A : Type) :=
| Done (a : A)
| Fails (e : exn)
| Call (c : call) (k : answer c -> adapter A).
Arguments Done {A} a.
Arguments Fails {A} e.
Arguments Call {A} c k.

#[export] Instance adapter_ret : MRet adapter := fun A a => Done a.

#[export] Instance adapter_bind : MBind adapter :=
  fun A B f =>
    fix go (p : adapter A) : adapter B :=
      match p with
      | Done a => f a
      | Fails e => Fails e
      | Call c k => Call c (fun x => go (k x))
      end.

Definition lift {A} (r : res A) : adapter A := match r with Ok a => Done a | Err e => Fails e end.

Definition ask (c : call) : adapter (answer c) := Call c Done.

Definition now : adapter Z := ask Date_now.

(** [await client.get(...)] and [await client.command(...)]: a rejection is
    thrown. *)
Definition await_get (signal : bool) (key : jsstr) : adapter redis_reply :=
  r ← ask (Get signal key); lift r.

Definition await_command (signal : bool) (primary : option jsstr) (args : list argument) : adapter redis_reply :=
  r ← ask (Command signal primary args); lift r.

(** The outcome of a command inside [try]. *)
Definition attempt_command (primary : option jsstr) (args : list argument) : adapter (res redis_reply) :=
  ask (Command false primary args).

Definition lacks_cause (error : exn) : adapter bool := ask (LacksCause error).
Definition set_cause (error cause : exn) : adapter unit := ask (SetCause error cause).

Definition await_exec (keys : list jsstr) : adapter redis_reply :=
  r ← ask (ExecMget keys); lift r.

(** [DialCacheRedisClient] *)
Record DialCacheRedisClient := {
  client_read : RedisReadRequest -> option bool -> adapter RedisReadResult;
  client_write : RedisWriteRequest -> adapter unit;
  client_invalidate : RedisInvalidationRequest -> adapter unit;
}.

(** The command arguments both adapters build. *)
Definition mget_args (valueKey watermarkKey : jsstr) : list argument :=
  [AString (js "MGET"); AString valueKey; AString watermarkKey].

Definition set_args (valueKey : jsstr) (frame : bytes) (cacheTtlMs : Z) : list argument :=
  [AString (js "SET"); AString valueKey; ABuffer frame; AString (js "PX"); AString (String_of_Z cacheTtlMs)].

Definition evalsha_args (watermarkKey : jsstr) (invalidateArgs : jsstr * jsstr) : list argument :=
  [AString (js "EVALSHA"); AScriptSha1; AString (js "1"); AString watermarkKey;
   AString invalidateArgs.1; AString invalidateArgs.2].

Definition eval_args (watermarkKey : jsstr) (invalidateArgs : jsstr * jsstr) : list argument :=
  [AString (js "EVAL"); AScript; AString (js "1"); AString watermarkKey;
   AString invalidateArgs.1; AString invalidateArgs.2].
