(* ===== verification/NodeRedis.v ===== *)
(** * The node-redis adapter

    [node-redis.ts]: the semantic client over a node-redis connection,
    standalone or cluster. *)

From S2P Require Import Prelude JsValue Duration Utf8 Config Key Metrics Frame Invalidation Effects Adapters.

(** The [masters] property, when the client has one. *)
Record NodeRedisClient := { masters : option jsval }.

Definition isNodeRedisClusterClient (client : NodeRedisClient) : bool :=
  match masters client with Some m => isArray m | None => false end.

Definition validateRedisMGetReply (reply : redis_reply) : res (redis_reply * redis_reply) :=
  match reply with
  | ReplyArray [v; w] => Ok (v, w)
  | _ => Err (DialCacheRedisPayloadError "Invalid DialCache Redis tracked read reply; expected an array with two entries")
  end.

Definition sendKeyedCommand (client : NodeRedisClient) (firstKey : jsstr) (args : list argument)
    (signal : bool) : adapter redis_reply :=
  await_command signal (if isNodeRedisClusterClient client then Some firstKey else None) args.

Definition readTracked (client : NodeRedisClient) (signal : bool) (valueKey watermarkKey : jsstr) :
    adapter (redis_reply * redis_reply) :=
  raw ← sendKeyedCommand client valueKey (mget_args valueKey watermarkKey) signal;
  lift (validateRedisMGetReply raw).

Definition sendFrameSet (client : NodeRedisClient) (valueKey : jsstr) (frame : bytes) (cacheTtlMs : Z) :
    adapter redis_reply :=
  sendKeyedCommand client valueKey (set_args valueKey frame cacheTtlMs) false.

(** [context] carries the signal when it is supplied. *)
Definition read (client : NodeRedisClient) (request : RedisReadRequest) (context : option bool) :
    adapter RedisReadResult :=
  let signal := match context with None => false | Some _ => true end in
  match rq_watermarkKey request with
  | None =>
      raw ← await_get signal (rq_valueKey request);
      lift (decodeRedisReadResult raw)
  | Some watermarkKey =>
      '(rawValue, rawWatermark) ← readTracked client signal (rq_valueKey request) watermarkKey;
      lift (decodeTrackedRedisReadResult rawValue rawWatermark)
  end.

Definition write (client : NodeRedisClient) (request : RedisWriteRequest) : adapter unit :=
  cacheTtlMs ← lift (ceilSupportedCacheTtlMs (JInt (wq_cacheTtlMs request)));
  createdAtMs ← match wq_createdAtMs request with None => now | Some t => Done t end;
  frame ← lift (encodeRedisFrame (wq_value request) createdAtMs);
  reply ← sendFrameSet client (wq_valueKey request) frame cacheTtlMs;
  lift (validateRedisSetReply reply).

Definition invalidate (client : NodeRedisClient) (request : RedisInvalidationRequest) : adapter unit :=
  invalidatedAtMs ← now;
  _ ← lift (assertValidRedisTimestampMs invalidatedAtMs);
  let invalidateArgs := buildRedisInvalidationScriptArguments (iq_futureBufferMs request) invalidatedAtMs in
  let watermarkKey := iq_watermarkKey request in
  let primary := if isNodeRedisClusterClient client then Some watermarkKey else None in
  first ← attempt_command primary (evalsha_args watermarkKey invalidateArgs);
  raw ← match first with
        | Ok raw => Done raw
        | Err _ => sendKeyedCommand client watermarkKey (eval_args watermarkKey invalidateArgs) false
        end;
  _ ← lift (validateRedisScriptInvalidationReply raw);
  Done tt.

Definition createNodeRedisDialCacheClient (client : NodeRedisClient) : DialCacheRedisClient := {|
  client_read := read client;
  client_write := write client;
  client_invalidate := invalidate client;
|}.
