(* ===== verification/ValkeyGlide.v ===== *)
(** * The Valkey GLIDE adapter

    [valkey-glide.ts]: the semantic client over a GLIDE connection, whose
    topology is read off the classes of the supplied module. *)

From S2P Require Import Prelude JsValue Duration Utf8 Config Key Metrics Frame Invalidation Effects Adapters.

(** A class of the supplied module: whether it supports [Symbol.hasInstance],
    and what that says of the client. *)
Inductive ValkeyGlideClientIdentity :=
| NotAnIdentity
| HasInstance (result : res bool).

Record ValkeyGlideRuntime := {
  hasBatch : bool;                                  (** [typeof glide.Batch === "function"] *)
  GlideClient : ValkeyGlideClientIdentity;
  GlideClusterClient : ValkeyGlideClientIdentity;
}.

Definition matchesValkeyGlideIdentity (identity : ValkeyGlideClientIdentity) (name : string) : res bool :=
  match identity with
  | NotAnIdentity => Err (PlainError ("Invalid Valkey GLIDE runtime: " +:+ name +:+ " must support Symbol.hasInstance"))
  | HasInstance r => r
  end.

Inductive topology := standalone | cluster.

Definition classifyValkeyGlideClient (glide : ValkeyGlideRuntime) : res topology :=
  isStandalone ← matchesValkeyGlideIdentity (GlideClient glide) "GlideClient";
  isCluster ← matchesValkeyGlideIdentity (GlideClusterClient glide) "GlideClusterClient";
  _ ← throw_if (isStandalone && isCluster)
        (PlainError "Invalid Valkey GLIDE runtime: client matches both GlideClient and GlideClusterClient");
  _ ← throw_if (negb isStandalone && negb isCluster)
        (PlainError "Valkey GLIDE DialCache requires a direct GlideClient or GlideClusterClient instance from the supplied runtime; wrappers should implement DialCacheRedisClient directly");
  Ok (if (isCluster : bool) then cluster else standalone).

Definition badPayloadReply : exn := DialCacheRedisPayloadError "Invalid DialCache Redis payload reply".

(** The route of [keyedOptions]. *)
Definition keyedOptions (isCluster : bool) (key : jsstr) : option jsstr :=
  if isCluster then Some key else None.

Definition exec_mget (keys : list jsstr) : adapter redis_reply :=
  raw ← await_exec keys;
  match raw with
  | ReplyArray [reply] => Done reply
  | _ => Fails badPayloadReply
  end.

Definition read (isCluster : bool) (request : RedisReadRequest) (_ : option bool) : adapter RedisReadResult :=
  match rq_watermarkKey request with
  | None =>
      raw ← await_get false (rq_valueKey request);
      lift (decodeRedisReadResult raw)
  | Some watermarkKey =>
      let valueKey := rq_valueKey request in
      reply ← (if isCluster
              then await_command false (keyedOptions isCluster valueKey) (mget_args valueKey watermarkKey)
              else exec_mget [valueKey; watermarkKey]);
      match reply with
      | ReplyArray [v; w] => lift (decodeTrackedRedisReadResult v w)
      | _ => Fails badPayloadReply
      end
  end.

Definition write (isCluster : bool) (request : RedisWriteRequest) : adapter unit :=
  cacheTtlMs ← lift (ceilSupportedCacheTtlMs (JInt (wq_cacheTtlMs request)));
  createdAtMs ← match wq_createdAtMs request with None => now | Some t => Done t end;
  frame ← lift (encodeRedisFrame (wq_value request) createdAtMs);
  reply ← await_command false (keyedOptions isCluster (wq_valueKey request))
            (set_args (wq_valueKey request) frame cacheTtlMs);
  lift (validateRedisSetReply reply).

Definition invalidate (isCluster : bool) (request : RedisInvalidationRequest) : adapter unit :=
  invalidatedAtMs ← now;
  _ ← lift (assertValidRedisTimestampMs invalidatedAtMs);
  let invalidateArgs := buildRedisInvalidationScriptArguments (iq_futureBufferMs request) invalidatedAtMs in
  let watermarkKey := iq_watermarkKey request in
  let options := keyedOptions isCluster watermarkKey in
  first ← attempt_command options (evalsha_args watermarkKey invalidateArgs);
  raw ← match first with
        | Ok raw => Done raw
        | Err error =>
            second ← attempt_command options (eval_args watermarkKey invalidateArgs);
            match second with
            | Ok raw => Done raw
            | Err retryError =>
                bare ← lacks_cause retryError;
                _ ← (if (bare : bool) then set_cause retryError error else Done tt);
                Fails retryError
            end
        end;
  _ ← lift (validateRedisScriptInvalidationReply raw);
  Done tt.

Definition createValkeyGlideDialCacheClient (glide : ValkeyGlideRuntime) : res DialCacheRedisClient :=
  _ ← throw_if (negb (hasBatch glide))
        (PlainError "Valkey GLIDE DialCache requires @valkey/valkey-glide >=2.0.0 with a Batch constructor");
  kind ← classifyValkeyGlideClient glide;
  let isCluster := match kind with cluster => true | standalone => false end in
  Ok {| client_read := read isCluster; client_write := write isCluster; client_invalidate := invalidate isCluster |}.
