(* ===== verification/AdapterSpec.v ===== *)
(** * The adapters against a server

    The contract of [DialCacheRedisClient] ([redis-client.ts]) over a Redis
    server with an unreliable link: a command may be executed and answered,
    executed with its answer lost, or never delivered.  Both adapters
    implement the contract ([ClientContract]); what an application relies on
    (a write is read back, an acknowledged invalidation is durable, retries
    are harmless) is proved from the contract alone. *)

From S2P Require Import Adapters NodeRedis ValkeyGlide Prelude JsValue Duration Utf8 Config Key Ramp Metrics RuntimeConfig Frame Invalidation Compression Json JsonText Serializer Effects RedisCache.

(** ** The server *)

(** What happens to one command on its way: [tick] is the server time that
    passes before it. *)
Inductive fate := Delivered | ReplyLost (error : exn) | NotDelivered (error : exn).
Record link := { ln_tick : nat; ln_fate : fate }.

Section server.
  Context {S : Type} `{RedisStore S}.

(** [sv_script]: the invalidation script is in the script cache.
    [sv_links]: the fates of the next commands; later ones are delivered. *)
Record server := {
  sv_store : S;
  sv_now : Z;
  sv_script : bool;
  sv_links : list link;
}.

Definition set_store (st : server) (s : S) : server :=
  {| sv_store := s; sv_now := sv_now st; sv_script := sv_script st; sv_links := sv_links st |}.

Definition load_script (st : server) : server :=
  {| sv_store := sv_store st; sv_now := sv_now st; sv_script := true; sv_links := sv_links st |}.

(** Time passes before the next command, whose fate is given. *)
Definition next_link (st : server) : server * fate :=
  match sv_links st with
  | [] => (st, Delivered)
  | l :: rest =>
      ({| sv_store := sv_store st; sv_now := sv_now st + Z.of_nat (ln_tick l);
          sv_script := sv_script st; sv_links := rest |}, ln_fate l)
  end.

Definition dispatch (execute : server -> server * res redis_reply) (st : server) : server * res redis_reply :=
  let '(st, f) := next_link st in
  match f with
  | Delivered => execute st
  | ReplyLost e => ((execute st).1, Err e)
  | NotDelivered e => (st, Err e)
  end.

(** The commands: GET, MGET of two keys, SET with PX, and the script. *)
Definition exec_get (key : jsstr) (st : server) : server * res redis_reply :=
  (st, match redis_get (sv_store st) (sv_now st) key with
       | GetNil => Ok ReplyNull
       | GetString b => Ok (ReplyBuffer b)
       | GetWrongType => Err (PlainError "WRONGTYPE Operation against a key holding the wrong kind of value")
       end).

Definition exec_mget2 (k1 k2 : jsstr) (st : server) : server * res redis_reply :=
  let value := mget_reply (sv_store st) (sv_now st) in
  (st, Ok (ReplyArray [value k1; value k2])).

Definition exec_set (ok : redis_reply) (key : jsstr) (value : bytes) (px : jsstr) (st : server) :
    server * res redis_reply :=
  match parse_safe_integer px with
  | Some p => if 0 <? p then (set_store st (rs_set (sv_store st) (sv_now st) key value (Some p)), Ok ok)
              else (st, Err (PlainError "ERR invalid expire time in 'set' command"))
  | None => (st, Err (PlainError "ERR value is not an integer or out of range"))
  end.

Definition exec_script (key : jsstr) (args : jsstr * jsstr) (st : server) : server * res redis_reply :=
  let '(s, r) := INVALIDATE_CACHE_SCRIPT (sv_store st) (sv_now st) key args.1 args.2 None in
  (set_store st s, r).

Definition exec_evalsha (key : jsstr) (args : jsstr * jsstr) (st : server) : server * res redis_reply :=
  if sv_script st then exec_script key args st
  else (st, Err (PlainError "NOSCRIPT No matching script. Please use EVAL.")).

(** Commands by their arguments; [ok] is how the client presents the status
    reply OK, a string or a buffer. *)
Definition execute (ok : redis_reply) (args : list argument) (st : server) : server * res redis_reply :=
  let unknown := (st, Err (PlainError "ERR unknown command")) in
  match args with
  | [AString c; AString k1; AString k2] =>
      if str_eqb c (js "MGET") then exec_mget2 k1 k2 st else unknown
  | [AString c; AString key; ABuffer value; AString o; AString px] =>
      if str_eqb c (js "SET") && str_eqb o (js "PX") then exec_set ok key value px st else unknown
  | [AString c; AScriptSha1; AString n; AString key; AString a1; AString a2] =>
      if str_eqb c (js "EVALSHA") && str_eqb n (js "1") then exec_evalsha key (a1, a2) st else unknown
  | [AString c; AScript; AString n; AString key; AString a1; AString a2] =>
      if str_eqb c (js "EVAL") && str_eqb n (js "1") then exec_script key (a1, a2) (load_script st) else unknown
  | _ => unknown
  end.

(** A one-command batch resolves to the list of its replies. *)
Definition exec_batch_mget (keys : list jsstr) (st : server) : server * res redis_reply :=
  match keys with
  | [k1; k2] => let '(st', r) := exec_mget2 k1 k2 st in (st', reply ← r; Ok (ReplyArray [reply]))
  | _ => (st, Err (PlainError "ERR wrong number of arguments for 'mget' command"))
  end.

(** One server stands for the primary that owns the slot of a cache key: a
    value key and its watermark share their hash tag, so both of an
    operation's keys live there.  Where a command is routed and whether the
    read signal is attached are visible in the calls ([issues] below), not in
    the state of the server.

    The client's side of the exchange: its clock, and the state of the
    errors it rejects with. *)
Record host := {
  host_clock : Z;
  host_ok : redis_reply;
  host_lacks_cause : exn -> bool;
}.

(** The two ways a client presents OK. *)
Definition host_valid (h : host) : Prop :=
  host_ok h = ReplyString (js "OK") \/ host_ok h = ReplyBuffer (js "OK").

Definition serve (h : host) (st : server) (c : call) : server * answer c :=
  match c as c return server * answer c with
  | Date_now => (st, host_clock h)
  | Get _ key => dispatch (exec_get key) st
  | Command _ _ args => dispatch (execute (host_ok h) args) st
  | ExecMget keys => dispatch (exec_batch_mget keys) st
  | LacksCause e => (st, host_lacks_cause h e)
  | SetCause _ _ => (st, tt)
  end.

Fixpoint run {A} (h : host) (p : adapter A) (st : server) : server * res A :=
  match p with
  | Done a => (st, Ok a)
  | Fails e => (st, Err e)
  | Call c k => let '(st', x) := serve h st c in run h (k x) st'
  end.

(** The [cause] properties a program sets on the errors it rejects with, in
    order: pairs of the error and its new cause.  They are not part of the
    server or of the identity of an error, and so not of [run]. *)
Fixpoint causes_set {A} (h : host) (p : adapter A) (st : server) : list (exn * exn) :=
  match p with
  | Done _ | Fails _ => []
  | Call c k =>
      let '(st', x) := serve h st c in
      match c with SetCause error cause => [(error, cause)] | _ => [] end ++ causes_set h (k x) st'
  end.

(** ** The contract *)

(** A read is one command, a snapshot of the value and the watermark, and
    the protocol's decoding of it. *)
Definition contract_read (st : server) (request : RedisReadRequest) : server * res RedisReadResult :=
  match rq_watermarkKey request with
  | None =>
      let '(st', r) := dispatch (exec_get (rq_valueKey request)) st in
      (st', raw ← r; decodeRedisReadResult raw)
  | Some watermarkKey =>
      let '(st', r) := dispatch (exec_mget2 (rq_valueKey request) watermarkKey) st in
      (st', raw ← r;
            match raw with
            | ReplyArray [v; w] => decodeTrackedRedisReadResult v w
            | _ => Err ValkeyGlide.badPayloadReply
            end)
  end.

(** A write is one SET of a complete frame, stamped as the request says. *)
Definition contract_write (clock : Z) (st : server) (request : RedisWriteRequest) : server * res unit :=
  match ceilSupportedCacheTtlMs (JInt (wq_cacheTtlMs request)),
        encodeRedisFrame (wq_value request) (default clock (wq_createdAtMs request)) with
  | Err e, _ => (st, Err e)
  | Ok _, Err e => (st, Err e)
  | Ok ttl, Ok frame =>
      let '(st', r) := dispatch (exec_set (ReplyString (js "OK")) (wq_valueKey request) frame (String_of_Z ttl)) st in
      (st', r ≫= fun _ => Ok tt)
  end.

(** An invalidation runs the script once, and once more with the same
    arguments when the first attempt is rejected. *)
Definition contract_invalidate (clock : Z) (st : server) (request : RedisInvalidationRequest) : server * res unit :=
  match assertValidRedisTimestampMs clock with
  | Err e => (st, Err e)
  | Ok _ =>
      let key := iq_watermarkKey request in
      let args := buildRedisInvalidationScriptArguments (iq_futureBufferMs request) clock in
      let '(st1, r1) := dispatch (exec_evalsha key args) st in
      let '(st2, r2) := match r1 with
                        | Ok raw => (st1, Ok raw)
                        | Err _ => dispatch (fun st => exec_script key args (load_script st)) st1
                        end in
      (st2, raw ← r2; _ ← validateRedisScriptInvalidationReply raw; Ok tt)
  end.

(** The rejections of the first attempt and of the retry, when both are
    rejected: the retry's is what the caller gets. *)
Definition both_rejected (clock : Z) (st : server) (request : RedisInvalidationRequest) : option (exn * exn) :=
  match assertValidRedisTimestampMs clock with
  | Err _ => None
  | Ok _ =>
      let key := iq_watermarkKey request in
      let args := buildRedisInvalidationScriptArguments (iq_futureBufferMs request) clock in
      let '(st1, r1) := dispatch (exec_evalsha key args) st in
      match r1 with
      | Ok _ => None
      | Err first =>
          match (dispatch (fun st => exec_script key args (load_script st)) st1).2 with
          | Ok _ => None
          | Err retry => Some (first, retry)
          end
      end
  end.
End server.
Arguments server S : clear implicits.

(** What core and applications may assume of a client. *)
Class ClientContract (c : DialCacheRedisClient) : Prop := {
  implements_read {S} `{RedisStore S} h (st : server S) request context :
    host_valid h -> run h (client_read c request context) st = contract_read st request;
  implements_write {S} `{RedisStore S} h (st : server S) request :
    host_valid h -> run h (client_write c request) st = contract_write (host_clock h) st request;
  implements_invalidate {S} `{RedisStore S} h (st : server S) request :
    host_valid h -> run h (client_invalidate c request) st = contract_invalidate (host_clock h) st request;
}.

(** ** The adapters implement the contract *)

Section implementation.
  Context {S : Type} `{RedisStore S}.

Lemma run_bind {A B} h (p : adapter A) (f : A -> adapter B) (st : server S) :
  run h (p ≫= f) st = let '(st', r) := run h p st in
                      match r with Ok a => run h (f a) st' | Err e => (st', Err e) end.
Proof.
  unfold mbind, adapter_bind. revert st. induction p as [a|e|c k IH]; intros st; simpl; [done..|].
  destruct (serve h st c) as [st' x]. apply IH.
Qed.

Lemma run_lift {A} h (r : res A) (st : server S) : run h (lift r) st = (st, r).
Proof. by destruct r. Qed.

Lemma run_done {A} h (a : A) (st : server S) : run h (Done a) st = (st, Ok a).
Proof. done. Qed.

Lemma run_fails {A} h e (st : server S) : run h (Fails e : adapter A) st = (st, Err e).
Proof. done. Qed.

Lemma run_now h (st : server S) : run h now st = (st, Ok (host_clock h)).
Proof. done. Qed.

Lemma run_lacks_cause h e (st : server S) : run h (lacks_cause e) st = (st, Ok (host_lacks_cause h e)).
Proof. done. Qed.

Lemma run_set_cause h e c (st : server S) : run h (set_cause e c) st = (st, Ok tt).
Proof. done. Qed.

Lemma run_await_get h b key (st : server S) : run h (await_get b key) st = dispatch (exec_get key) st.
Proof. unfold await_get. rewrite run_bind. simpl. destruct (dispatch _ st). apply run_lift. Qed.

Lemma run_await_command h b p args (st : server S) :
  run h (await_command b p args) st = dispatch (execute (host_ok h) args) st.
Proof. unfold await_command. rewrite run_bind. simpl. destruct (dispatch _ st). apply run_lift. Qed.

Lemma run_attempt_command h p args (st : server S) :
  run h (attempt_command p args) st =
  let '(st', r) := dispatch (execute (host_ok h) args) st in (st', Ok r).
Proof. unfold attempt_command. simpl. by destruct (dispatch _ st). Qed.

Lemma run_await_exec h keys (st : server S) :
  run h (await_exec keys) st = dispatch (exec_batch_mget keys) st.
Proof. unfold await_exec. rewrite run_bind. simpl. destruct (dispatch _ st). apply run_lift. Qed.

(** Dispatch depends on the command only through what it does. *)
Lemma dispatch_ext (f g : server S -> server S * res redis_reply) st :
  (forall st, f st = g st) -> dispatch f st = dispatch g st.
Proof. intros E. unfold dispatch. destruct (next_link st) as [st' []]; by rewrite ?E. Qed.

(** Every read of a pair resolves to a pair. *)
Lemma dispatch_mget2 k1 k2 (st : server S) :
  exists st', (exists v w, dispatch (exec_mget2 k1 k2) st = (st', Ok (ReplyArray [v; w])) /\
                 dispatch (exec_batch_mget [k1; k2]) st = (st', Ok (ReplyArray [ReplyArray [v; w]]))) \/
              (exists e, dispatch (exec_mget2 k1 k2) st = (st', Err e) /\
                 dispatch (exec_batch_mget [k1; k2]) st = (st', Err e)).
Proof.
  unfold dispatch. destruct (next_link st) as [st' []]; simpl; exists st'; [left|right|right]; eauto.
Qed.

(** How OK is presented does not matter. *)
Lemma dispatch_set_ok h key value px (st : server S) :
  host_valid h ->
  (let '(st', r) := dispatch (exec_set (host_ok h) key value px) st in
   match r with Ok a => (st', validateRedisSetReply a) | Err e => (st', Err e) end) =
  (let '(st', r) := dispatch (exec_set (ReplyString (js "OK")) key value px) st in
   (st', r ≫= fun _ => Ok tt)).
Proof.
  intros Hh. assert (validateRedisSetReply (host_ok h) = Ok tt) as Hok by (by destruct Hh as [-> | ->]).
  unfold dispatch, exec_set. destruct (next_link st) as [st' []]; simpl;
    destruct (parse_safe_integer px) as [p|]; try destruct (0 <? p); simpl; by rewrite ?Hok.
Qed.

(** The arguments an adapter sends, as the server reads them. *)
Lemma execute_mget ok k1 k2 (st : server S) : execute ok (mget_args k1 k2) st = exec_mget2 k1 k2 st.
Proof. done. Qed.

Lemma execute_set ok key frame ttl (st : server S) :
  execute ok (set_args key frame ttl) st = exec_set ok key frame (String_of_Z ttl) st.
Proof. done. Qed.

Lemma execute_evalsha ok key args (st : server S) :
  execute ok (evalsha_args key args) st = exec_evalsha key args st.
Proof. by destruct args. Qed.

Lemma execute_eval ok key args (st : server S) :
  execute ok (eval_args key args) st = exec_script key args (load_script st).
Proof. by destruct args. Qed.
End implementation.

Create Rewrite HintDb adapters.
#[export] Hint Rewrite @run_bind @run_lift @run_done @run_fails @run_now @run_lacks_cause @run_set_cause
  @run_await_get @run_await_command @run_attempt_command @run_await_exec : adapters.

(** Evaluates an adapter call by call. *)
Ltac run_adapter := repeat (autorewrite with adapters; cbn beta iota zeta).

(** ** Attached causes *)

Section causes.
  Context {S : Type} `{RedisStore S}.

Lemma causes_bind {A B} h (p : adapter A) (f : A -> adapter B) (st : server S) :
  causes_set h (p ≫= f) st =
    causes_set h p st ++ let '(st', r) := run h p st in match r with Ok a => causes_set h (f a) st' | Err _ => [] end.
Proof.
  unfold mbind, adapter_bind. revert st. induction p as [a|e|c k IH]; intros st; simpl; [done..|].
  destruct (serve h st c) as [st' x]. rewrite IH. by rewrite app_assoc.
Qed.

Lemma causes_lift {A} h (r : res A) (st : server S) : causes_set h (lift r) st = [].
Proof. by destruct r. Qed.

Lemma causes_now h (st : server S) : causes_set h now st = [].
Proof. done. Qed.

Lemma causes_await_get h b key (st : server S) : causes_set h (await_get b key) st = [].
Proof. unfold await_get. rewrite causes_bind. simpl. destruct (dispatch _ st). apply causes_lift. Qed.

Lemma causes_await_command h b p args (st : server S) : causes_set h (await_command b p args) st = [].
Proof. unfold await_command. rewrite causes_bind. simpl. destruct (dispatch _ st). apply causes_lift. Qed.

Lemma causes_attempt_command h p args (st : server S) : causes_set h (attempt_command p args) st = [].
Proof. unfold attempt_command. simpl. by destruct (dispatch _ st). Qed.

Lemma causes_await_exec h keys (st : server S) : causes_set h (await_exec keys) st = [].
Proof. unfold await_exec. rewrite causes_bind. simpl. destruct (dispatch _ st). apply causes_lift. Qed.

Lemma causes_lacks_cause h e (st : server S) : causes_set h (lacks_cause e) st = [].
Proof. done. Qed.

Lemma causes_set_cause h e c (st : server S) : causes_set h (set_cause e c) st = [(e, c)].
Proof. done. Qed.

Lemma causes_done {A} h (a : A) (st : server S) : causes_set h (Done a) st = [].
Proof. done. Qed.

Lemma causes_fails {A} h e (st : server S) : causes_set h (Fails e : adapter A) st = [].
Proof. done. Qed.

End causes.

#[export] Hint Rewrite @causes_bind @causes_lift @causes_now @causes_await_get @causes_await_command @causes_attempt_command
  @causes_await_exec @causes_lacks_cause @causes_set_cause @causes_done @causes_fails : adapters.

(** A program made of calls that set no cause sets none. *)
Ltac no_causes :=
  repeat first
    [ reflexivity
    | progress (autorewrite with adapters; cbn beta iota zeta; rewrite ?app_nil_l)
    | match goal with
      | |- causes_set _ (match ?x with _ => _ end) _ = [] => destruct x
      | |- causes_set _ (match ?x with _ => _ end) _ ++ _ = [] => destruct x
      | |- (let '(_, _) := ?x in _) = [] => destruct x as [? [?|?]]
      | |- (let '(_, _) := ?x in _) ++ _ = [] => destruct x as [? [?|?]]
      | |- (let '(_, _) := (let '(_, _) := ?x in _) in _) = [] => destruct x as [? ?]
      | |- match ?x with Ok _ => _ | Err _ => _ end = [] => destruct x
      end ].

#[export] Instance node_redis_contract client : ClientContract (NodeRedis.createNodeRedisDialCacheClient client).
Proof.
  split; intros S HS h st request; unfold NodeRedis.createNodeRedisDialCacheClient; cbn [client_read client_write client_invalidate].
  - intros context Hh. unfold NodeRedis.read, contract_read. destruct (rq_watermarkKey request) as [wk|].
    + unfold NodeRedis.readTracked, NodeRedis.sendKeyedCommand. run_adapter.
      rewrite (dispatch_ext _ _ _ (execute_mget (host_ok h) _ _)).
      destruct (dispatch_mget2 (rq_valueKey request) wk st) as (st' & [(v & w & -> & _)|(e & -> & _)]); simpl; [|done].
      by run_adapter.
    + run_adapter. destruct (dispatch (exec_get (rq_valueKey request)) st) as [st' [r|e]]; [|done]. by run_adapter.
  - intros Hh. unfold NodeRedis.write, NodeRedis.sendFrameSet, NodeRedis.sendKeyedCommand, contract_write.
    run_adapter. destruct (ceilSupportedCacheTtlMs _) as [ttl|e]; [|done].
    destruct (wq_createdAtMs request) as [t|]; cbn [default from_option id]; run_adapter; (destruct (encodeRedisFrame _ _) as [frame|e]; [|done]); run_adapter;
      rewrite (dispatch_ext _ _ _ (execute_set (host_ok h) _ _ _)), <- (dispatch_set_ok h) by done;
      destruct (dispatch _ st) as [st' [r|e]]; by run_adapter.
  - intros Hh. unfold NodeRedis.invalidate, NodeRedis.sendKeyedCommand, contract_invalidate.
    run_adapter. destruct (assertValidRedisTimestampMs _) as [[]|e]; [|done]. run_adapter.
    rewrite (dispatch_ext _ _ _ (execute_evalsha (host_ok h) _ _)).
    destruct (dispatch _ st) as [st' [r|e]]; run_adapter.
    + simpl; by destruct (validateRedisScriptInvalidationReply r).
    + rewrite (dispatch_ext _ _ _ (execute_eval (host_ok h) _ _)).
      destruct (dispatch _ st') as [st2 [r|e2]]; [|done]. run_adapter.
      simpl; by destruct (validateRedisScriptInvalidationReply r).
Qed.

Lemma glide_contract isCluster :
  ClientContract {| client_read := ValkeyGlide.read isCluster; client_write := ValkeyGlide.write isCluster;
                    client_invalidate := ValkeyGlide.invalidate isCluster |}.
Proof.
  split; intros S HS h st request; cbn [client_read client_write client_invalidate].
  - intros context Hh. unfold ValkeyGlide.read, contract_read. destruct (rq_watermarkKey request) as [wk|].
    + destruct (dispatch_mget2 (rq_valueKey request) wk st) as (st' & Hcase).
      destruct isCluster; unfold ValkeyGlide.exec_mget; run_adapter.
      * rewrite (dispatch_ext _ _ _ (execute_mget (host_ok h) _ _)).
        destruct Hcase as [(v & w & -> & _)|(e & -> & _)]; [|done]. by run_adapter.
      * destruct Hcase as [(v & w & -> & ->)|(e & -> & ->)]; [|done]. by run_adapter.
    + run_adapter. destruct (dispatch (exec_get (rq_valueKey request)) st) as [st' [r|e]]; [|done]. by run_adapter.
  - intros Hh. unfold ValkeyGlide.write, contract_write.
    run_adapter. destruct (ceilSupportedCacheTtlMs _) as [ttl|e]; [|done].
    destruct (wq_createdAtMs request) as [t|]; cbn [default from_option id]; run_adapter;
      (destruct (encodeRedisFrame _ _) as [frame|e]; [|done]); run_adapter;
      rewrite (dispatch_ext _ _ _ (execute_set (host_ok h) _ _ _)), <- (dispatch_set_ok h) by done;
      destruct (dispatch _ st) as [st' [r|e]]; by run_adapter.
  - intros Hh. unfold ValkeyGlide.invalidate, contract_invalidate.
    run_adapter. destruct (assertValidRedisTimestampMs _) as [[]|e]; [|done]. run_adapter.
    rewrite (dispatch_ext _ _ _ (execute_evalsha (host_ok h) _ _)).
    destruct (dispatch _ st) as [st' [r|e]]; run_adapter.
    + simpl; by destruct (validateRedisScriptInvalidationReply r).
    + rewrite (dispatch_ext _ _ _ (execute_eval (host_ok h) _ _)).
      destruct (dispatch _ st') as [st2 [r|e2]]; run_adapter.
      * simpl; by destruct (validateRedisScriptInvalidationReply r).
      * destruct (host_lacks_cause h e2); by run_adapter.
Qed.

(** Whatever client [createValkeyGlideDialCacheClient] returns. *)
Lemma created_glide_contract glide c :
  ValkeyGlide.createValkeyGlideDialCacheClient glide = Ok c -> ClientContract c.
Proof.
  unfold ValkeyGlide.createValkeyGlideDialCacheClient.
  intros (_ & _ & (kind & _ & [= <-])%result_bind_ok)%result_bind_ok. apply glide_contract.
Qed.

(** ** Consequences of the contract *)

Section histories.
  Context {S : Type} `{RedisStore S}.

Lemma next_link_time (st : server S) :
  sv_store (next_link st).1 = sv_store st /\ sv_now st <= sv_now (next_link st).1 /\
  sv_script (next_link st).1 = sv_script st.
Proof. unfold next_link. destruct (sv_links st); simpl; repeat split; lia. Qed.

Section deploy.
  Context (wk vk : jsstr) (t0 inv : Z).

(** The keyspace and clock of a server, as a state of the histories of
    [Invalidation]. *)
Definition snapshot (st : server S) : S * Z := (sv_store st, sv_now st).

Lemma next_link_deploys st : rtc (deploy_step wk vk t0 inv) (snapshot st) (snapshot (next_link st).1).
Proof.
  destruct (next_link_time st) as (E & Ht & _). unfold snapshot. rewrite E. by apply rtc_once, ds_time.
Qed.

Lemma exec_script_deploys args st :
  rtc (deploy_step wk vk t0 inv) (snapshot st) (snapshot (exec_script wk args st).1).
Proof.
  unfold exec_script. pose proof (ds_invalidate wk vk t0 inv (sv_store st) (sv_now st) args.1 args.2 None) as Hd.
  destruct (INVALIDATE_CACHE_SCRIPT _ _ _ _ _ _) as [s r]. by apply rtc_once.
Qed.

(** Any fate of a command that only runs the script is a piece of history. *)
Lemma dispatch_deploys f st :
  (forall st, rtc (deploy_step wk vk t0 inv) (snapshot st) (snapshot (f st).1)) ->
  rtc (deploy_step wk vk t0 inv) (snapshot st) (snapshot (dispatch f st).1).
Proof.
  intros Hf. unfold dispatch. pose proof (next_link_deploys st) as Hn.
  destruct (next_link st) as [st' []]; simpl in *; [etransitivity; eauto..|done].
Qed.

(** A whole invalidation, retry and losses included, is a piece of history. *)
Lemma invalidate_deploys clock st fb :
  rtc (deploy_step wk vk t0 inv) (snapshot st)
    (snapshot (contract_invalidate clock st {| iq_watermarkKey := wk; iq_futureBufferMs := fb |}).1).
Proof.
  unfold contract_invalidate. simpl. destruct (assertValidRedisTimestampMs clock); [|done].
  set (args := buildRedisInvalidationScriptArguments fb clock).
  pose proof (dispatch_deploys (exec_evalsha wk args) st) as H1.
  destruct (dispatch (exec_evalsha wk args) st) as [st1 [r1|e1]]; simpl in *.
  - apply H1. intros st2. unfold exec_evalsha. destruct (sv_script st2); [apply exec_script_deploys|done].
  - pose proof (dispatch_deploys (fun st => exec_script wk args (load_script st)) st1) as H2.
    destruct (dispatch _ st1) as [st2 r2]. simpl in *. etransitivity; [apply H1|apply H2].
    + intros st3. unfold exec_evalsha. destruct (sv_script st3); [apply exec_script_deploys|done].
    + intros st3. apply (exec_script_deploys args (load_script st3)).
Qed.
End deploy.

(** The script accepts the arguments of a request in range. *)
Lemma exec_script_accepted key fb clock (st : server S) :
  0 <= fb <= MAX_SUPPORTED_DURATION_MS -> 0 <= clock -> clock + fb <= MAX_SAFE_INTEGER ->
  let '(st', r) := exec_script key (buildRedisInvalidationScriptArguments fb clock) st in
  r = Ok (ReplyInteger 1) /\ sv_now st' = sv_now st /\
  exists w e, holds_watermark (sv_store st') (sv_now st) key w e /\ clock + fb <= w <= MAX_SAFE_INTEGER /\
    expiry_le (Some (sv_now st + MIN_WATERMARK_TTL_MS)) e.
Proof.
  intros Hf Hc Hs. unfold exec_script. pose proof (script_arguments fb clock Hf Hc Hs) as HA.
  destruct (buildRedisInvalidationScriptArguments fb clock) as [a1 a2]. destruct HA as [E1 E2]. simpl.
  destruct (script_run (sv_store st) (sv_now st) key fb clock a1 a2 E1 E2) as (e & s' & -> & Hh & _ & Hle & _); [lia..|].
  split; [done|]. split; [done|]. pose proof (current_watermark_range (sv_store st) (sv_now st) key).
  eexists _, e. split; [|split].
  - apply Hh; [lia|]. destruct e; simpl in *; [unfold MIN_WATERMARK_TTL_MS in *; duration_lia|done].
  - lia.
  - destruct e; simpl in *; [lia|done].
Qed.

Lemma exec_script_links key args (st : server S) : sv_links (exec_script key args st).1 = sv_links st.
Proof. unfold exec_script. by destruct (INVALIDATE_CACHE_SCRIPT _ _ _ _ _ _). Qed.

(** The outcome of one command, by its fate. *)
Lemma dispatch_fate (f : server S -> server S * res redis_reply) st l rest :
  sv_links st = l :: rest -> (forall st, sv_links (f st).1 = sv_links st) ->
  sv_links (dispatch f st).1 = rest /\
  (dispatch f st).2 =
    match ln_fate l with
    | Delivered => (f (next_link st).1).2
    | ReplyLost e | NotDelivered e => Err e
    end.
Proof.
  intros El Hf. unfold dispatch. destruct (next_link st) as [st1 fate1] eqn:En. unfold next_link in En.
  rewrite El in En. injection En as <- <-. destruct (ln_fate l); simpl; by rewrite ?Hf.
Qed.

(** An invalidation in range succeeds when its first command is delivered to
    a server that knows the script, or when the retry is delivered; the
    retry's rejection is what surfaces otherwise. *)
Lemma contract_invalidate_outcome clock (st : server S) key fb l1 l2 rest :
  0 <= fb <= MAX_SUPPORTED_DURATION_MS -> 0 <= clock -> clock + fb <= MAX_SAFE_INTEGER ->
  sv_links st = l1 :: l2 :: rest ->
  (contract_invalidate clock st {| iq_watermarkKey := key; iq_futureBufferMs := fb |}).2 =
  match ln_fate l1, sv_script st, ln_fate l2 with
  | Delivered, true, _ => Ok tt
  | _, _, Delivered => Ok tt
  | _, _, (ReplyLost e | NotDelivered e) => Err e
  end.
Proof.
  intros Hf Hc Hs Hl. unfold contract_invalidate, assertValidRedisTimestampMs.
  rewrite isValidRedisTimestampMs_int by lia. cbn [iq_watermarkKey iq_futureBufferMs].
  assert (forall st, (exec_script key (buildRedisInvalidationScriptArguments fb clock) st).2 = Ok (ReplyInteger 1)) as Hacc.
  { intros st0. pose proof (exec_script_accepted key fb clock st0 Hf Hc Hs) as Ha.
    destruct (exec_script key _ st0). tauto. }
  set (args := buildRedisInvalidationScriptArguments fb clock) in *.
  destruct (dispatch_fate (exec_evalsha key args) st l1 (l2 :: rest) Hl) as [El E1].
  { intros st0. unfold exec_evalsha. destruct (sv_script st0); [apply exec_script_links|done]. }
  destruct (dispatch (exec_evalsha key args) st) as [st1 r1]. simpl in El, E1.
  destruct (dispatch_fate (fun st => exec_script key args (load_script st)) st1 l2 rest El) as [_ E2].
  { intros st0. apply (exec_script_links key args (load_script st0)). }
  rewrite Hacc in E2. unfold exec_evalsha in E1. destruct (next_link_time st) as (_ & _ & Es). rewrite Es in E1.
  destruct (ln_fate l1), (sv_script st); rewrite ?Hacc in E1; simpl in E1; subst r1; cbn [snd]; try done;
    destruct (dispatch _ st1) as [st2 r2]; simpl in *; subst r2; by destruct (ln_fate l2).
Qed.

(** What a successful invalidation leaves behind. *)
Lemma contract_invalidate_durable clock (st : server S) key fb st' :
  0 <= fb <= MAX_SUPPORTED_DURATION_MS -> 0 <= clock -> clock + fb <= MAX_SAFE_INTEGER ->
  contract_invalidate clock st {| iq_watermarkKey := key; iq_futureBufferMs := fb |} = (st', Ok tt) ->
  exists w e, holds_watermark (sv_store st') (sv_now st') key w e /\ clock + fb <= w <= MAX_SAFE_INTEGER /\
    expiry_le (Some (sv_now st' + MIN_WATERMARK_TTL_MS)) e.
Proof.
  intros Hf Hc Hs. unfold contract_invalidate, assertValidRedisTimestampMs.
  rewrite isValidRedisTimestampMs_int by lia. cbn [iq_watermarkKey iq_futureBufferMs].
  set (args := buildRedisInvalidationScriptArguments fb clock) in *.
  assert (forall (g : server S -> server S) st0 st1 r,
    dispatch (fun st => exec_script key args (g st)) st0 = (st1, Ok r) ->
    exists st2, exec_script key args st2 = (st1, Ok r)) as Hd.
  { intros g st0 st1 r. unfold dispatch. destruct (next_link st0) as [st2 []]; [eauto|done..]. }
  assert (forall st0 st1 r, exec_script key args st0 = (st1, Ok r) ->
    exists w e, holds_watermark (sv_store st1) (sv_now st1) key w e /\ clock + fb <= w <= MAX_SAFE_INTEGER /\
      expiry_le (Some (sv_now st1 + MIN_WATERMARK_TTL_MS)) e) as Hx.
  { intros st0 st1 r E. pose proof (exec_script_accepted key fb clock st0 Hf Hc Hs) as Ha. fold args in Ha.
    rewrite E in Ha. destruct Ha as (_ & -> & Ha). exact Ha. }
  destruct (dispatch (exec_evalsha key args) st) as [st1 [r1|e1]] eqn:E1.
  - intros [= <- _]. unfold dispatch in E1. destruct (next_link st) as [st2 []]; try done.
    unfold exec_evalsha in E1. destruct (sv_script st2); [by eapply Hx|done].
  - destruct (dispatch _ st1) as [st2 [r2|e2]] eqn:E2; [|done]. intros [= <- _].
    apply Hd in E2 as (st3 & E2). by eapply Hx.
Qed.

(** ** Writing and reading back *)

Lemma ceilSupportedCacheTtlMs_int ttl :
  0 < ttl <= MAX_SUPPORTED_DURATION_MS -> ceilSupportedCacheTtlMs (JInt ttl) = Ok ttl.
Proof.
  intros Ht. unfold ceilSupportedCacheTtlMs, JInt, of_Z, ceil. simpl. rewrite Z.div_1_r, Z.opp_involutive.
  destruct (Z.leb_spec ttl 0); [lia|]. by destruct (Z.ltb_spec MAX_SUPPORTED_DURATION_MS ttl); [lia|].
Qed.

Lemma next_link_delivered (st : server S) l rest :
  sv_links st = l :: rest -> ln_fate l = Delivered ->
  next_link st = ({| sv_store := sv_store st; sv_now := sv_now st + Z.of_nat (ln_tick l);
                     sv_script := sv_script st; sv_links := rest |}, Delivered).
Proof. intros El Ef. unfold next_link. by rewrite El, Ef. Qed.

(** A delivered write is one SET. *)
Lemma contract_write_delivered clock (st : server S) vk ttl p t frame l rest :
  0 < ttl <= MAX_SUPPORTED_DURATION_MS -> encodeRedisFrame p t = Ok frame ->
  sv_links st = l :: rest -> ln_fate l = Delivered ->
  let now := sv_now st + Z.of_nat (ln_tick l) in
  contract_write clock st {| wq_valueKey := vk; wq_cacheTtlMs := ttl; wq_value := p; wq_createdAtMs := Some t |} =
  ({| sv_store := rs_set (sv_store st) now vk frame (Some ttl); sv_now := now;
      sv_script := sv_script st; sv_links := rest |}, Ok tt).
Proof.
  intros Httl Ef El Hd now. unfold contract_write. cbn [wq_cacheTtlMs wq_value wq_createdAtMs wq_valueKey default from_option id].
  rewrite ceilSupportedCacheTtlMs_int, Ef by done. unfold dispatch. rewrite (next_link_delivered _ _ _ El Hd).
  unfold exec_set, String_of_Z. destruct (Z.ltb_spec ttl 0); [lia|].
  rewrite parse_safe_integer_digits by duration_lia. by destruct (Z.ltb_spec 0 ttl); [|lia].
Qed.

(** The watermark of a tracked read does not fence a frame stamped [t]. *)
Definition unfenced (s : S) (now : Z) (wk : jsstr) (t : Z) : Prop :=
  rs_lookup s now wk = None \/ exists w e, holds_watermark s now wk w e /\ 0 <= w < t.

(** A delivered read of a live frame above its watermark serves it. *)
Lemma contract_read_delivered (st : server S) vk wk timeout p t frame e l rest :
  payload_ok p -> encodeRedisFrame p t = Ok frame -> 0 < t ->
  sv_links st = l :: rest -> ln_fate l = Delivered ->
  let now := sv_now st + Z.of_nat (ln_tick l) in
  rs_lookup (sv_store st) now vk = Some (SString frame, e) ->
  (forall k, wk = Some k -> unfenced (sv_store st) now k t) ->
  (contract_read st {| rq_valueKey := vk; rq_watermarkKey := wk; rq_timeoutMs := timeout |}).2 =
  Ok (RedisFrame {| payload := p; createdAtMs := of_Z t |}).
Proof.
  intros Hp Ef Ht El Hd now Hl Hw. unfold contract_read. cbn [rq_watermarkKey rq_valueKey].
  pose proof (encodeRedisFrame_shape _ _ _ Ef) as [Hrange _].
  destruct wk as [wk|]; unfold dispatch; rewrite (next_link_delivered _ _ _ El Hd).
  - unfold exec_mget2, mget_reply. cbn [sv_store sv_now snd]. fold now. rewrite Hl.
    destruct (Hw wk eq_refl) as [-> | (w & e' & -> & Hwt)]; cbn [mbind result_bind].
    + by apply (decode_tracked_frame p t frame 0).
    + destruct (decode_tracked_frame p t frame w) as [-> _]; [done..|lia|]. by destruct (Z.leb_spec t w); [lia|].
  - unfold exec_get, redis_get. cbn [sv_store sv_now snd]. fold now. rewrite Hl.
    by apply decode_untracked_frame.
Qed.

(** Write, let time pass, read: the payload and its stamp come back. *)
Lemma contract_write_read clock (st : server S) vk wk timeout ttl p t l1 l2 rest :
  payload_ok p -> 0 < t <= MAX_SAFE_INTEGER -> 0 < ttl <= MAX_SUPPORTED_DURATION_MS ->
  sv_links st = l1 :: l2 :: rest -> ln_fate l1 = Delivered -> ln_fate l2 = Delivered ->
  Z.of_nat (ln_tick l2) < ttl -> wk <> Some vk ->
  let read_at := sv_now st + Z.of_nat (ln_tick l1) + Z.of_nat (ln_tick l2) in
  (forall k, wk = Some k -> unfenced (sv_store st) read_at k t) ->
  let written := contract_write clock st
    {| wq_valueKey := vk; wq_cacheTtlMs := ttl; wq_value := p; wq_createdAtMs := Some t |} in
  written.2 = Ok tt /\
  (contract_read written.1 {| rq_valueKey := vk; rq_watermarkKey := wk; rq_timeoutMs := timeout |}).2 =
  Ok (RedisFrame {| payload := p; createdAtMs := of_Z t |}).
Proof.
  intros Hp Ht Httl El H1 H2 Hlive Hk read_at Hw.
  destruct (encodeRedisFrame p t) as [frame|e] eqn:Ef.
  2: { unfold encodeRedisFrame in Ef. by rewrite isValidRedisTimestampMs_int in Ef by lia. }
  rewrite (contract_write_delivered _ _ _ _ _ _ _ _ _ Httl Ef El H1). split; [done|].
  eapply contract_read_delivered; try done; [lia|..]; cbn [fst sv_store sv_now]; fold read_at.
  - rewrite rs_lookup_set_same by (subst read_at; lia).
    by destruct (Z.ltb_spec read_at (sv_now st + Z.of_nat (ln_tick l1) + ttl)); [|subst read_at; lia].
  - intros k ->. assert (vk <> k) as Hne by congruence. specialize (Hw k eq_refl). unfold unfenced, holds_watermark in *.
    rewrite rs_lookup_set_other by (done || (subst read_at; lia)). done.
Qed.
End histories.

(** ** What core makes of the adapters' results *)

(** A read result as the object core receives. *)
Definition as_client_result (r : RedisReadResult) : client_result :=
  match r with
  | RedisReadMiss reason observed =>
      CR_Miss (JStr (js (miss_reason_name reason)))
              (match observed with Some w => JInt w | None => JUndefined end)
  | RedisFrame f => CR_Frame f
  end.

Lemma validated_miss key reason observed :
  (observed <> None -> trackForInvalidation key = true) ->
  (forall w, observed = Some w -> 0 <= w <= MAX_SAFE_INTEGER) ->
  (reason = mr_watermark_fenced -> observed <> None) ->
  validateReadResult key (as_client_result (RedisReadMiss reason observed)) = RedisReadMiss reason observed.
Proof.
  intros Ht Hw Hf. cbn [as_client_result validateReadResult]. rewrite isCacheMissReason_name. cbn [default from_option id].
  assert ((if trackForInvalidation key then isValidRedisTimestampMs match observed with Some w => JInt w | None => JUndefined end
           else None) = observed) as ->.
  { destruct observed as [w|]; [|by destruct (trackForInvalidation key)].
    rewrite Ht by done. apply isValidRedisTimestampMs_int. by apply Hw. }
  unfold redisReadMiss. destruct observed; [by rewrite andb_false_r|].
  destruct (bool_decide (reason = mr_watermark_fenced)) eqn:E; [|done].
  apply bool_decide_eq_true in E. by apply Hf in E.
Qed.

(** Every miss the decoders build is one core accepts as it is. *)
Lemma decoded_tracked_miss raw rawWatermark reason observed :
  decodeTrackedRedisReadResult raw rawWatermark = Ok (RedisReadMiss reason observed) ->
  (forall w, observed = Some w -> 0 <= w <= MAX_SAFE_INTEGER) /\
  (reason = mr_watermark_fenced -> observed <> None).
Proof.
  unfold decodeTrackedRedisReadResult, decodeTrackedFrame, redisReadMiss.
  intros (f & _ & (wf & _ & Hm)%result_bind_ok)%result_bind_ok.
  assert (forall w, wf ≫= parseRedisWatermark = Some w -> 0 <= w <= MAX_SAFE_INTEGER) as Hrange.
  { intros w Hw. destruct wf as [b|]; [|done]. by apply (parseRedisWatermark_range b). }
  destruct f as [f|]; [|injection Hm as <- <-; by split].
  destruct (isSupportedRedisFrame f); simpl in Hm; [|injection Hm as <- <-; by split].
  destruct wf as [b|]; [destruct (parseRedisWatermark b) as [w|] eqn:Ew|]; repeat case_match; simplify_eq;
    try (split; [done|done]); try (apply result_bind_ok in Hm as (? & _ & [=])).
  - split; [|done]. intros w' [= <-]. by eapply parseRedisWatermark_range.
  - split; [|done]. intros w' [= <-]. by eapply parseRedisWatermark_range.
Qed.

Lemma decoded_untracked_miss raw reason observed :
  decodeRedisReadResult raw = Ok (RedisReadMiss reason observed) ->
  observed = None /\ reason <> mr_watermark_fenced.
Proof.
  unfold decodeRedisReadResult, redisReadMiss. intros (f & _ & Hm)%result_bind_ok.
  destruct f as [f|]; [|by injection Hm as <- <-]. destruct (isSupportedRedisFrame f); simpl in Hm.
  - apply result_bind_ok in Hm as (? & _ & [=]).
  - by injection Hm as <- <-.
Qed.

(** ** The calls an adapter makes, whatever the answers *)

Fixpoint issues {A} (p : adapter A) (cs : list call) (r : res A) : Prop :=
  match p with
  | Done a => cs = [] /\ r = Ok a
  | Fails e => cs = [] /\ r = Err e
  | Call c k => exists x cs', cs = c :: cs' /\ issues (k x) cs' r
  end.

Definition is_command (c : call) : bool :=
  match c with Get _ _ | Command _ _ _ | ExecMget _ => true | _ => false end.

Definition commands (cs : list call) : list call := List.filter is_command cs.

Lemma issues_bind {A B} (p : adapter A) (f : A -> adapter B) cs r :
  issues (p ≫= f) cs r ->
  exists cs1 cs2 r1, cs = cs1 ++ cs2 /\ issues p cs1 r1 /\
    match r1 with Ok a => issues (f a) cs2 r | Err e => cs2 = [] /\ r = Err e end.
Proof.
  unfold mbind, adapter_bind. revert cs. induction p as [a|e|c k IH]; intros cs.
  - intros Hf. by exists [], cs, (Ok a).
  - intros [-> ->]. by exists [], [], (Err e).
  - intros (x & cs' & -> & Hk). apply IH in Hk as (cs1 & cs2 & r1 & -> & H1 & H2).
    exists (c :: cs1), cs2, r1. split; [done|]. split; [|done]. exists x, cs1. done.
Qed.

Lemma issues_lift {A} (m : res A) cs r : issues (lift m) cs r -> cs = [] /\ r = m.
Proof. by destruct m. Qed.

Lemma issues_await_get b key cs r : issues (await_get b key) cs r -> cs = [Get b key].
Proof. intros (x & cs' & -> & [-> _]%issues_lift). done. Qed.

Lemma issues_await_command b p args cs r : issues (await_command b p args) cs r -> cs = [Command b p args].
Proof. intros (x & cs' & -> & [-> _]%issues_lift). done. Qed.

Lemma issues_attempt_command p args cs r :
  issues (attempt_command p args) cs r -> cs = [Command false p args] /\ exists a, r = Ok a.
Proof. intros (x & cs' & -> & -> & ->). eauto. Qed.

Lemma issues_await_exec keys cs r : issues (await_exec keys) cs r -> cs = [ExecMget keys].
Proof. intros (x & cs' & -> & [-> _]%issues_lift). done. Qed.

Lemma issues_now cs r : issues now cs r -> cs = [Date_now] /\ exists t, r = Ok t.
Proof. intros (x & cs' & -> & -> & ->). eauto. Qed.

Lemma issues_lacks_cause e cs r : issues (lacks_cause e) cs r -> cs = [LacksCause e].
Proof. by intros (x & cs' & -> & -> & _). Qed.

Lemma issues_set_cause e c cs r : issues (set_cause e c) cs r -> cs = [SetCause e c].
Proof. by intros (x & cs' & -> & -> & _). Qed.

(** Splits an execution into its calls. *)
Ltac walk_calls :=
  repeat match goal with
  | H : issues (mbind _ _) _ _ |- _ => apply issues_bind in H as (? & ? & ? & -> & ? & ?)
  | H : issues (lift _) _ _ |- _ => apply issues_lift in H as [-> ?]
  | H : issues (await_get _ _) _ _ |- _ => apply issues_await_get in H as ->
  | H : issues (await_command _ _ _) _ _ |- _ => apply issues_await_command in H as ->
  | H : issues (attempt_command _ _) _ _ |- _ => apply issues_attempt_command in H as (-> & ? & ?)
  | H : issues (await_exec _) _ _ |- _ => apply issues_await_exec in H as ->
  | H : issues (lacks_cause _) _ _ |- _ => apply issues_lacks_cause in H as ->
  | H : issues (set_cause _ _) _ _ |- _ => apply issues_set_cause in H as ->
  | H : issues now _ _ |- _ => apply issues_now in H as (-> & ? & ?)
  | H : issues (Done _) _ _ |- _ => destruct H as [-> ?]
  | H : issues (Fails _) _ _ |- _ => destruct H as [-> ?]
  | H : issues (let '(_, _) := ?p in _) _ _ |- _ => destruct p
  | H : issues (match ?m with _ => _ end) _ _ |- _ => destruct m
  | H : match ?r with Ok _ => _ | Err _ => _ end |- _ => destruct r
  | H : _ /\ _ |- _ => destruct H
  end; subst.

(** The commands of an invalidation: none, EVALSHA, or EVALSHA and then EVAL
    with the same route, key and arguments. *)
Definition invalidation_commands (key : jsstr) (cs : list call) : Prop :=
  commands cs = [] \/
  exists p args, commands cs = [Command false p (evalsha_args key args)] \/
    commands cs = [Command false p (evalsha_args key args); Command false p (eval_args key args)].

Lemma node_command_budget client :
  let c := NodeRedis.createNodeRedisDialCacheClient client in
  (forall rq ctx cs r, issues (client_read c rq ctx) cs r -> length (commands cs) = 1%nat) /\
  (forall rq cs r, issues (client_write c rq) cs r -> (length (commands cs) <= 1)%nat) /\
  (forall rq cs r, issues (client_invalidate c rq) cs r -> invalidation_commands (iq_watermarkKey rq) cs).
Proof.
  split; [|split].
  - intros rq ctx cs r. cbn [client_read NodeRedis.createNodeRedisDialCacheClient]. unfold NodeRedis.read, NodeRedis.readTracked, NodeRedis.sendKeyedCommand.
    intros Hi. walk_calls; try done; simpl; lia.
  - intros rq cs r. cbn [client_write NodeRedis.createNodeRedisDialCacheClient].
    unfold NodeRedis.write, NodeRedis.sendFrameSet, NodeRedis.sendKeyedCommand.
    intros Hi. walk_calls; try done; simpl; lia.
  - intros rq cs r. cbn [client_invalidate NodeRedis.createNodeRedisDialCacheClient].
    unfold NodeRedis.invalidate, NodeRedis.sendKeyedCommand, invalidation_commands.
    intros Hi. walk_calls; simpl; eauto 6.
Qed.

Lemma glide_command_budget isCluster :
  (forall rq ctx cs r, issues (ValkeyGlide.read isCluster rq ctx) cs r -> length (commands cs) = 1%nat) /\
  (forall rq cs r, issues (ValkeyGlide.write isCluster rq) cs r -> (length (commands cs) <= 1)%nat) /\
  (forall rq cs r, issues (ValkeyGlide.invalidate isCluster rq) cs r -> invalidation_commands (iq_watermarkKey rq) cs).
Proof.
  split; [|split].
  - intros rq ctx cs r. unfold ValkeyGlide.read, ValkeyGlide.exec_mget. intros Hi. walk_calls; done.
  - intros rq cs r. unfold ValkeyGlide.write. intros Hi. walk_calls; simpl; lia.
  - intros rq cs r. unfold ValkeyGlide.invalidate, invalidation_commands.
    intros Hi. walk_calls; simpl; eauto 6.
Qed.

(** ** Who attaches a cause *)

Section attached.
  Context {S : Type} `{RedisStore S}.

(** node-redis surfaces a rejection unmodified. *)
Lemma node_redis_causes client h (st : server S) :
  (forall rq ctx, causes_set h (NodeRedis.read client rq ctx) st = []) /\
  (forall rq, causes_set h (NodeRedis.write client rq) st = []) /\
  (forall rq, causes_set h (NodeRedis.invalidate client rq) st = []).
Proof.
  split; [|split]; intros rq;
    unfold NodeRedis.read, NodeRedis.readTracked, NodeRedis.write, NodeRedis.sendFrameSet, NodeRedis.invalidate, NodeRedis.sendKeyedCommand;
    intros; no_causes.
Qed.

(** GLIDE names the first rejection as the cause of the retry's, unless that
    one has a cause already. *)
Lemma glide_causes isCluster h (st : server S) :
  (forall rq ctx, causes_set h (ValkeyGlide.read isCluster rq ctx) st = []) /\
  (forall rq, causes_set h (ValkeyGlide.write isCluster rq) st = []) /\
  (forall rq, causes_set h (ValkeyGlide.invalidate isCluster rq) st =
     match both_rejected (host_clock h) st rq with
     | Some (first, retry) => if host_lacks_cause h retry then [(retry, first)] else []
     | None => []
     end).
Proof.
  split; [|split]; intros rq.
  - intros ctx. unfold ValkeyGlide.read, ValkeyGlide.exec_mget. no_causes.
  - unfold ValkeyGlide.write. no_causes.
  - unfold ValkeyGlide.invalidate, both_rejected. run_adapter. rewrite app_nil_l.
    destruct (assertValidRedisTimestampMs _) as [[]|e]; [|done]. run_adapter. rewrite !app_nil_l.
    rewrite (dispatch_ext _ _ _ (execute_evalsha (host_ok h) _ _)).
    destruct (dispatch _ st) as [st' [r|e]]; run_adapter; [no_causes|]. rewrite ?app_nil_l.
    rewrite (dispatch_ext _ _ _ (execute_eval (host_ok h) _ _)).
    destruct (dispatch _ st') as [st2 [r|e2]]; run_adapter; cbn [snd]; rewrite ?app_nil_l.
    + by destruct (validateRedisScriptInvalidationReply r).
    + destruct (host_lacks_cause h e2); run_adapter; done.
Qed.
End attached.

(** ** Properties *)

(** A client as the package's two factories build them. *)
Definition shipped_client (c : DialCacheRedisClient) : Prop :=
  (exists client, c = NodeRedis.createNodeRedisDialCacheClient client) \/
  (exists glide, ValkeyGlide.createValkeyGlideDialCacheClient glide = Ok c).

Lemma shipped_client_contract c : shipped_client c -> ClientContract c.
Proof. intros [(client & ->)|(glide & Hg)]; [apply _|by eapply created_glide_contract]. Qed.

(** C13. The two adapters are interchangeable up to the [cause] of a rejected
    invalidation.  Against any Redis store, server clock, script cache and
    sequence of link failures, every shipped client gives the same result (the
    same value or the same rejection) and leaves the same server state for
    every read, write and invalidation.  They differ in what they do to the
    rejection: the node-redis client never touches it; the GLIDE client, when
    the first attempt and the retry of an invalidation are both rejected and
    the retry's error has no cause, makes the first rejection its cause, and
    does nothing else of the kind. *)
Theorem adapters_agree c1 c2 :
  shipped_client c1 -> shipped_client c2 ->
  forall S (HS : RedisStore S) h1 h2 (st : server S),
  host_valid h1 -> host_valid h2 -> host_clock h1 = host_clock h2 ->
  (forall rq ctx1 ctx2, run h1 (client_read c1 rq ctx1) st = run h2 (client_read c2 rq ctx2) st) /\
  (forall rq, run h1 (client_write c1 rq) st = run h2 (client_write c2 rq) st) /\
  (forall rq, run h1 (client_invalidate c1 rq) st = run h2 (client_invalidate c2 rq) st) /\
  (forall rq ctx, causes_set h1 (client_read c1 rq ctx) st = []) /\
  (forall rq, causes_set h1 (client_write c1 rq) st = []) /\
  (forall client, c1 = NodeRedis.createNodeRedisDialCacheClient client ->
     forall rq, causes_set h1 (client_invalidate c1 rq) st = []) /\
  (forall glide, ValkeyGlide.createValkeyGlideDialCacheClient glide = Ok c1 ->
     forall rq, causes_set h1 (client_invalidate c1 rq) st =
       match both_rejected (host_clock h1) st rq with
       | Some (first, retry) => if host_lacks_cause h1 retry then [(retry, first)] else []
       | None => []
       end).
Proof.
  intros S1 S2 S HS h1 h2 st H1 H2 Hc.
  pose proof (shipped_client_contract c1 S1) as C1. pose proof (shipped_client_contract c2 S2) as C2.
  assert (forall glide, ValkeyGlide.createValkeyGlideDialCacheClient glide = Ok c1 -> exists isCluster,
    c1 = {| client_read := ValkeyGlide.read isCluster; client_write := ValkeyGlide.write isCluster;
            client_invalidate := ValkeyGlide.invalidate isCluster |}) as Hglide.
  { unfold ValkeyGlide.createValkeyGlideDialCacheClient.
    intros glide (_ & _ & (kind & _ & [= <-])%result_bind_ok)%result_bind_ok. by eexists. }
  split; [intros; by rewrite !implements_read|]. split; [intros; by rewrite !implements_write, Hc|].
  split; [intros; by rewrite !implements_invalidate, Hc|].
  split; [|split; [|split]].
  - intros rq ctx. destruct S1 as [[client ->]|[glide [isCluster ->]%Hglide]]; [apply node_redis_causes|apply glide_causes].
  - intros rq. destruct S1 as [[client ->]|[glide [isCluster ->]%Hglide]]; [apply node_redis_causes|apply glide_causes].
  - intros client ->. apply node_redis_causes.
  - intros glide [isCluster ->]%Hglide. apply glide_causes.
Qed.

(** C12. Invalidation through an adapter, whatever the link does: the outcome is
    success exactly when the first command reaches a server that knows the
    script or the single retry is delivered, and the retry's rejection
    otherwise; success leaves a watermark at or above the caller's clock plus
    the buffer that lives at least two hours; and in every case, lost replies
    and duplicate runs included, an existing fence that is still live is kept
    at its level or raised. *)
Theorem invalidation_survives_faults c S (HS : RedisStore S) h (st : server S) key fb l1 l2 rest :
  shipped_client c -> host_valid h ->
  0 <= fb <= MAX_SUPPORTED_DURATION_MS -> 0 <= host_clock h -> host_clock h + fb <= MAX_SAFE_INTEGER ->
  sv_links st = l1 :: l2 :: rest ->
  let '(st', r) := run h (client_invalidate c {| iq_watermarkKey := key; iq_futureBufferMs := fb |}) st in
  r = match ln_fate l1, sv_script st, ln_fate l2 with
      | Delivered, true, _ => Ok tt
      | _, _, Delivered => Ok tt
      | _, _, (ReplyLost e | NotDelivered e) => Err e
      end /\
  (r = Ok tt -> exists w e, holds_watermark (sv_store st') (sv_now st') key w e /\
     host_clock h + fb <= w <= MAX_SAFE_INTEGER /\ expiry_le (Some (sv_now st' + MIN_WATERMARK_TTL_MS)) e) /\
  (forall w e, 0 <= w -> sv_now st' < e ->
     fence_holds key (sv_store st) (sv_now st) w (Some e) ->
     fence_holds key (sv_store st') (sv_now st') w (Some e)).
Proof.
  intros Hc%shipped_client_contract Hh Hf H0 Hs Hl. rewrite implements_invalidate by done.
  pose proof (contract_invalidate_outcome (host_clock h) st key fb l1 l2 rest Hf H0 Hs Hl) as Ho.
  pose proof (fun vk => invalidate_deploys key vk 0 0 (host_clock h) st fb) as Hd.
  destruct (contract_invalidate (host_clock h) st _) as [st' r] eqn:E. simpl in Ho, Hd.
  split; [done|]. split.
  - intros ->. by eapply contract_invalidate_durable.
  - intros w e Hw He Hfence. specialize (Hd (120 :: key)).
    assert (key <> 120 :: key) as Hk by (intros Hk; apply (f_equal length) in Hk; simpl in Hk; lia).
    by eapply (deploy_steps_fence key (120 :: key) Hk) in Hd.
Qed.

(** Core loses nothing of what an adapter reports: a miss or frame decoded
    by a shipped client, read for a key whose tracking matches the request,
    passes core's [validateReadResult] unchanged, reason and observed
    watermark included. *)
Theorem adapter_results_pass_validation c S (HS : RedisStore S) h (st st' : server S) key rq ctx r :
  shipped_client c -> host_valid h ->
  trackForInvalidation key = (match rq_watermarkKey rq with Some _ => true | None => false end) ->
  run h (client_read c rq ctx) st = (st', Ok r) ->
  validateReadResult key (as_client_result r) = r.
Proof.
  intros Hc%shipped_client_contract Hh Ht. rewrite implements_read by done. unfold contract_read.
  destruct r as [reason observed|frame]; [|done]. destruct (rq_watermarkKey rq) as [wk|].
  - destruct (dispatch _ st) as [st2 [raw|e]]; [|done]. cbn [mbind result_bind].
    destruct raw as [| | | |[|v [|w [|]]]|]; try done. intros [= <- [Hw Hf]%decoded_tracked_miss].
    by apply validated_miss.
  - destruct (dispatch _ st) as [st2 [raw|e]]; [|done]. cbn [mbind result_bind].
    intros [= <- [-> Hf]%decoded_untracked_miss]. apply validated_miss; [done..|]. by intros ->.
Qed.

(** C11. The whole path of a cached value: whatever the compression policy and
    the adapter, a value serialized, enveloped, framed and stored by one SET,
    then read back before its expiry (for a tracked key: with no watermark or
    one below its stamp), is decoded, decompressed and deserialized to the
    value's JSON view with its creation stamp. *)
Theorem cached_value_end_to_end c S (HS : RedisStore S) h (st : server S) `{Zstd} `{!ZstdLaws}
    app v policy serialized stored vk wk timeout ctx ttl t l1 l2 rest :
  shipped_client c -> host_valid h ->
  js_value v = true -> calls_toJSON v = false ->
  JsonSerializer_dump app v = Ok serialized -> stored_payload policy serialized = Ok stored ->
  0 < t <= MAX_SAFE_INTEGER -> 0 < ttl <= MAX_SUPPORTED_DURATION_MS ->
  sv_links st = l1 :: l2 :: rest -> ln_fate l1 = Delivered -> ln_fate l2 = Delivered ->
  Z.of_nat (ln_tick l2) < ttl -> wk <> Some vk ->
  (forall k, wk = Some k ->
     unfenced (sv_store st) (sv_now st + Z.of_nat (ln_tick l1) + Z.of_nat (ln_tick l2)) k t) ->
  let '(st1, written) := run h (client_write c
      {| wq_valueKey := vk; wq_cacheTtlMs := ttl; wq_value := stored; wq_createdAtMs := Some t |}) st in
  let '(st2, found) := run h (client_read c
      {| rq_valueKey := vk; rq_watermarkKey := wk; rq_timeoutMs := timeout |} ctx) st1 in
  written = Ok tt /\
  exists frame, found = Ok (RedisFrame frame) /\ createdAtMs frame = of_Z t /\
    JsonSerializer_load (decompressPayload (payload frame) MAX_DECOMPRESSED_BYTES).1 = Ok (json_view v).
Proof.
  intros Hc%shipped_client_contract Hh Hv Hn Hd Hs Ht Httl Hl H1 H2 Hlive Hk Hw.
  assert (v <> JFun) as Hf by (by intros ->).
  destruct (dump_load app v Hv Hn Hf) as (s & Hd' & Hu & Hwf & Hload). rewrite Hd' in Hd. injection Hd as <-.
  pose proof (stored_payload_ok policy (PString s) stored (conj Hu Hwf) Hs) as Hp.
  pose proof (contract_write_read (host_clock h) st vk wk timeout ttl stored t l1 l2 rest Hp Ht Httl Hl H1 H2 Hlive Hk Hw)
    as [Hwr Hrd].
  rewrite implements_write by done. destruct (contract_write _ _ _) as [st1 written]. simpl in Hwr, Hrd.
  rewrite implements_read by done. destruct (contract_read st1 _) as [st2 found]. simpl in Hrd.
  split; [done|]. eexists. split; [done|]. split; [done|]. cbn [payload].
  rewrite (stored_payload_decompress policy (PString s) stored) by done. exact Hload.
Qed.

(** Command budget, for every behaviour of the client and the server: a
    read is exactly one command, a write at most one, and an invalidation at
    most two, the second being EVAL with the key, arguments, clock sample and
    route of the rejected EVALSHA. *)
Theorem adapter_command_budget c :
  shipped_client c ->
  (forall rq ctx cs r, issues (client_read c rq ctx) cs r -> length (commands cs) = 1%nat) /\
  (forall rq cs r, issues (client_write c rq) cs r -> (length (commands cs) <= 1)%nat) /\
  (forall rq cs r, issues (client_invalidate c rq) cs r -> invalidation_commands (iq_watermarkKey rq) cs).
Proof.
  intros [(client & ->)|(glide & Hg)]; [apply node_command_budget|].
  unfold ValkeyGlide.createValkeyGlideDialCacheClient in Hg.
  apply result_bind_ok in Hg as (_ & _ & Hg). apply result_bind_ok in Hg as (kind & _ & [= <-]).
  apply glide_command_budget.
Qed.

(** ** Witnesses *)

Definition sample_node : NodeRedis.NodeRedisClient := {| NodeRedis.masters := None |}.

Definition sample_glide : ValkeyGlide.ValkeyGlideRuntime := {|
  ValkeyGlide.hasBatch := true;
  ValkeyGlide.GlideClient := ValkeyGlide.HasInstance (Ok false);
  ValkeyGlide.GlideClusterClient := ValkeyGlide.HasInstance (Ok true);
|}.

Definition sample_host (ok : redis_reply) : host :=
  {| host_clock := 1000; host_ok := ok; host_lacks_cause := fun _ => true |}.

(** A server that lost its script cache behind a link with given fates. *)
Definition sample_server (f1 f2 : fate) : server mem_store := {|
  sv_store := ∅; sv_now := 5000; sv_script := false;
  sv_links := [{| ln_tick := 3; ln_fate := f1 |}; {| ln_tick := 7; ln_fate := f2 |}];
|}.

Definition the_glide_client : DialCacheRedisClient :=
  match ValkeyGlide.createValkeyGlideDialCacheClient sample_glide with
  | Ok c => c
  | Err _ => NodeRedis.createNodeRedisDialCacheClient sample_node
  end.

Lemma adapters_agree_witness :
  let rq := {| iq_watermarkKey := js "w"; iq_futureBufferMs := 250 |} in
  let st := sample_server (NotDelivered (Raised 1)) (NotDelivered (Raised 2)) in
  let node := NodeRedis.createNodeRedisDialCacheClient sample_node in
  run (sample_host (ReplyString (js "OK"))) (client_invalidate the_glide_client rq) st =
    run (sample_host (ReplyBuffer (js "OK"))) (client_invalidate node rq) st /\
  causes_set (sample_host (ReplyString (js "OK"))) (client_invalidate the_glide_client rq) st = [(Raised 2, Raised 1)] /\
  causes_set (sample_host (ReplyBuffer (js "OK"))) (client_invalidate node rq) st = [].
Proof.
  intros rq st node.
  assert (shipped_client the_glide_client) as Sg by (right; exists sample_glide; reflexivity).
  assert (shipped_client node) as Sn by (left; exists sample_node; reflexivity).
  assert (host_valid (sample_host (ReplyString (js "OK")))) as Hg by (left; reflexivity).
  assert (host_valid (sample_host (ReplyBuffer (js "OK")))) as Hn by (right; reflexivity).
  destruct (adapters_agree the_glide_client node Sg Sn mem_store mem_RedisStore _ _ st Hg Hn eq_refl)
    as (_ & _ & Hrun & _ & _ & _ & Hcause).
  destruct (adapters_agree node the_glide_client Sn Sg mem_store mem_RedisStore _ _ st Hn Hg eq_refl)
    as (_ & _ & _ & _ & _ & Hnone & _).
  split; [apply Hrun|]. split; [|apply (Hnone sample_node); reflexivity].
  rewrite (Hcause sample_glide eq_refl). vm_compute. reflexivity.
Defined.

Lemma invalidation_survives_faults_witness :
  exists st' w e,
    run (sample_host (ReplyBuffer (js "OK"))) (client_invalidate (NodeRedis.createNodeRedisDialCacheClient sample_node)
      {| iq_watermarkKey := js "w"; iq_futureBufferMs := 250 |}) (sample_server (ReplyLost (Raised 1)) Delivered) = (st', Ok tt) /\
    holds_watermark (sv_store st') (sv_now st') (js "w") w e /\ 1250 <= w.
Proof.
  pose proof (invalidation_survives_faults (NodeRedis.createNodeRedisDialCacheClient sample_node) mem_store mem_RedisStore
    (sample_host (ReplyBuffer (js "OK"))) (sample_server (ReplyLost (Raised 1)) Delivered) (js "w") 250
    {| ln_tick := 3; ln_fate := ReplyLost (Raised 1) |} {| ln_tick := 7; ln_fate := Delivered |} []
    (or_introl (ex_intro _ sample_node eq_refl)) (or_intror eq_refl)
    ltac:(vm_compute; split; discriminate) ltac:(vm_compute; discriminate) ltac:(vm_compute; discriminate) eq_refl) as Hx.
  destruct (run _ _ _) as [st' r] eqn:E. destruct Hx as (Hr & Hd & _). simpl in Hr.
  destruct (Hd Hr) as (w & e & Hh & Hw & _). exists st', w, e.
  split; [rewrite Hr; reflexivity|]. split; [exact Hh|]. simpl in Hw. lia.
Defined.

Definition sample_tracked_key : DialCacheKey := {|
  keyType := js "user"; key_id := js "42"; useCase := js "profile"; key_args := []; namespace := js "app";
  prefix := js "app:{user:42}"; urn := js "app:{user:42}#profile"; defaultConfig := None; serializer := None;
  trackForInvalidation := true;
|}.

Lemma adapter_results_pass_validation_witness :
  validateReadResult sample_tracked_key (as_client_result (RedisReadMiss mr_value_absent None)) =
  RedisReadMiss mr_value_absent None.
Proof.
  apply (adapter_results_pass_validation the_glide_client mem_store mem_RedisStore (sample_host (ReplyString (js "OK")))
    (sample_server Delivered Delivered)
    (run (sample_host (ReplyString (js "OK"))) (client_read the_glide_client
       {| rq_valueKey := js "v"; rq_watermarkKey := Some (js "w"); rq_timeoutMs := 50 |} None) (sample_server Delivered Delivered)).1
    sample_tracked_key {| rq_valueKey := js "v"; rq_watermarkKey := Some (js "w"); rq_timeoutMs := 50 |} None).
  - right. exists sample_glide. reflexivity.
  - left. reflexivity.
  - reflexivity.
  - vm_compute. reflexivity.
Defined.

Lemma cached_value_end_to_end_witness :
  exists serialized stored,
    JsonSerializer_dump (fun _ => Ok None) sample_value = Ok serialized /\
    @stored_payload toy_zstd (Some {| thresholdBytes := 4; level := 3 |}) serialized = Ok stored /\
    (run (sample_host (ReplyString (js "OK"))) (client_write the_glide_client
      {| wq_valueKey := js "v"; wq_cacheTtlMs := 60000; wq_value := stored; wq_createdAtMs := Some 900 |})
      (sample_server Delivered Delivered)).2 = Ok tt.
Proof.
  destruct (JsonSerializer_dump (fun _ => Ok None) sample_value) as [serialized|] eqn:Ed; [|vm_compute in Ed; discriminate Ed].
  destruct (@stored_payload toy_zstd (Some {| thresholdBytes := 4; level := 3 |}) serialized) as [stored|] eqn:Es;
    [|vm_compute in Ed; injection Ed as <-; vm_compute in Es; discriminate Es].
  exists serialized, stored. split; [reflexivity|]. split; [exact Es|].
  pose proof (@cached_value_end_to_end the_glide_client mem_store mem_RedisStore (sample_host (ReplyString (js "OK")))
    (sample_server Delivered Delivered) toy_zstd toy_zstd_laws (fun _ => Ok None) sample_value
    (Some {| thresholdBytes := 4; level := 3 |}) serialized stored (js "v") (Some (js "w")) 50 None 60000 900
    {| ln_tick := 3; ln_fate := Delivered |} {| ln_tick := 7; ln_fate := Delivered |} []
    (or_intror (ex_intro _ sample_glide eq_refl)) (or_introl eq_refl)
    ltac:(vm_compute; reflexivity) eq_refl Ed Es ltac:(vm_compute; split; congruence) ltac:(vm_compute; split; congruence)
    eq_refl eq_refl eq_refl ltac:(vm_compute; reflexivity) ltac:(discriminate)
    ltac:(intros k [= <-]; left; vm_compute; reflexivity)) as Hx.
  destruct (run _ (client_write _ _) _) as [st1 written]. destruct (run _ (client_read _ _ _) st1) as [st2 found].
  exact (proj1 Hx).
Defined.

Lemma adapter_command_budget_witness :
  invalidation_commands (js "w") [Date_now; Command false None (evalsha_args (js "w") (js "250", js "1000"));
    Command false None (eval_args (js "w") (js "250", js "1000"))].
Proof.
  destruct (adapter_command_budget (NodeRedis.createNodeRedisDialCacheClient sample_node)) as (_ & _ & Hi);
    [left; exists sample_node; reflexivity|].
  apply (Hi {| iq_watermarkKey := js "w"; iq_futureBufferMs := 250 |} _ (Err (Raised 2))).
  exists 1000. eexists. split; [reflexivity|]. exists (Err (Raised 1)). eexists. split; [reflexivity|].
  exists (Err (Raised 2)). eexists. split; [reflexivity|]. split; reflexivity.
Defined.
