(* ===== verification/Prometheus.v ===== *)
(** * The Prometheus metrics backend

    [prometheus.ts]: the twenty collectors and their schemas, the labels of
    every event, and a constructor that shares compatible collectors of an
    existing registry and refuses incompatible ones before it registers
    anything.  prom-client is outside the program: the class [PromRegistry]
    holds the two calls the code makes and their documented behaviour. *)

From S2P Require Import Prelude JsValue Duration Utf8 Config Key Metrics.

(** ** Label values *)

Definition metric_layer_name (l : MetricLayer) : string :=
  match l with
  | Layer l => layer_name l
  | RequestLocalLayer => "request_local"
  | RemoteShadowLayer => "remote_shadow"
  | NoLayer => "noop"
  end.

Definition scope_name (s : CoalescingScope) : string :=
  match s with ScopeRequestLocal => "request_local" | ScopeProcess => "process" end.

Definition shadow_outcome_name (o : ShadowValidationOutcome) : string :=
  match o with
  | so_match => "match" | so_mismatch => "mismatch" | so_superseded => "superseded" | so_filled => "filled"
  | so_fill_fenced => "fill_fenced" | so_fill_error => "fill_error" | so_redis_error => "redis_error"
  | so_source_error => "source_error" | so_deserialization_error => "deserialization_error"
  | so_comparison_error => "comparison_error" | so_confirmation_error => "confirmation_error"
  | so_timeout => "timeout" | so_dropped => "dropped"
  end.

Definition logging_outcome_name (o : ShadowMismatchLoggingOutcome) : string :=
  match o with
  | slo_logged => "logged" | slo_hook_error => "hook_error"
  | slo_render_error => "render_error" | slo_logger_error => "logger_error"
  end.

Definition recovery_outcome_name (o : StaleRecoveryOutcome) : string :=
  match o with sr_served => "served" | sr_miss => "miss" | sr_deserialization_error => "deserialization_error" end.

Definition compression_outcome_name (o : CompressionOutcome) : string :=
  match o with
  | co_compressed => "compressed" | co_below_threshold => "below_threshold" | co_not_smaller => "not_smaller"
  | co_write_over_limit => "write_over_limit" | co_decompressed => "decompressed"
  | co_fallback_raw => "fallback_raw" | co_read_over_limit => "read_over_limit"
  end.

Definition disabled_reason_name (r : DisabledReason) : string :=
  match r with
  | dr_context => "context" | dr_policy_disabled => "policy_disabled" | dr_invalid_ttl => "invalid_ttl"
  | dr_invalid_ramp => "invalid_ramp" | dr_ramped_down => "ramped_down" | dr_config_error => "config_error"
  end.

Definition error_kind_name (k : MetricErrorKind) : string :=
  match k with
  | ek_key_construction => "key_construction" | ek_config_resolution => "config_resolution"
  | ek_cache_read => "cache_read" | ek_cache_read_timeout => "cache_read_timeout" | ek_cache_write => "cache_write"
  | ek_tracked_ttl_clamped => "tracked_ttl_clamped" | ek_serialization_load => "serialization_load"
  | ek_serialization_dump => "serialization_dump" | ek_compression => "compression"
  | ek_invalidation => "invalidation" | ek_fallback => "fallback" | ek_unknown => "unknown"
  end.

(** ** Labels *)

(** Label names with their values, in the order the code writes them. *)
Abbreviation labels := (list (string * jsstr)).

Definition cacheLabels (l : CacheMetricLabels) : labels :=
  [("cache_namespace", cacheNamespace l); ("use_case", ml_useCase l); ("key_type", ml_keyType l);
   ("layer", js (metric_layer_name (ml_layer l)))].

Definition outcomeLabels (ns uc kt : jsstr) (outcome : string) : labels :=
  [("cache_namespace", ns); ("use_case", uc); ("key_type", kt); ("outcome", js outcome)].

(** ** Collectors *)

(** The fields of the adapter. *)
Inductive collector_field :=
| disabledCounter | missCounter | requestCounter | errorCounter | invalidationCounter | coalescedCounter
| shadowValidationCounter | shadowValueAgeHistogram | shadowMismatchLoggingCounter | futureTimestampOffsetHistogram
| staleRecoveryCounter | staleRecoveryValueAgeHistogram | compressionCounter | getTimer | fallbackTimer
| serializationTimer | sizeHistogram | storedSizeHistogram | compressionRatioHistogram | compressionTimer.

#[export] Instance collector_field_eq_dec : EqDecision collector_field.
Proof. solve_decision. Defined.

(** A counter has no buckets. *)
Record CollectorConfig := {
  cc_name : jsstr;
  cc_help : string;
  cc_labelNames : list string;
  cc_buckets : option (list Q);
}.

Definition TIMER_BUCKETS : list Q :=
  [1 # 1000; 5 # 1000; 1 # 100; 25 # 1000; 5 # 100; 1 # 10; 25 # 100; 5 # 10; 1; 25 # 10; 5; 10]%Q.
Definition SIZE_BUCKETS : list Q := [100; 1000; 10000; 100000; 1000000; 10000000]%Q.
Definition RATIO_BUCKETS : list Q := [5 # 100; 1 # 10; 2 # 10; 3 # 10; 5 # 10; 7 # 10; 9 # 10; 1]%Q.
Definition VALUE_AGE_BUCKETS : list Q := [1; 5; 15; 60; 300; 900; 3600; 10800; 43200; 86400; 259200; 604800]%Q.
Definition FUTURE_TIMESTAMP_OFFSET_BUCKETS : list Q :=
  [1 # 1000; 5 # 1000; 1 # 100; 25 # 1000; 5 # 100; 1 # 10; 25 # 100; 5 # 10; 1; 5; 15; 60; 300; 900; 3600; 10800; 43200]%Q.

Definition base_labels : list string := ["cache_namespace"; "use_case"; "key_type"].

Definition collectorConfigs (prefix : jsstr) : list (collector_field * CollectorConfig) :=
  let counter field name help labelNames :=
    (field, {| cc_name := prefix ++ js name; cc_help := help; cc_labelNames := labelNames; cc_buckets := None |}) in
  let histogram field name help labelNames buckets :=
    (field, {| cc_name := prefix ++ js name; cc_help := help; cc_labelNames := labelNames; cc_buckets := Some buckets |}) in
  [counter disabledCounter "dialcache_disabled_counter" "Requests where DialCache skipped a cache layer."
     (base_labels ++ ["layer"; "reason"]);
   counter missCounter "dialcache_miss_counter" "DialCache cache misses." (base_labels ++ ["layer"; "reason"]);
   counter requestCounter "dialcache_request_counter" "Total DialCache cache-layer requests." (base_labels ++ ["layer"]);
   counter errorCounter "dialcache_error_counter" "Errors during DialCache cache operations or fallback execution."
     (base_labels ++ ["layer"; "error"; "in_fallback"]);
   counter invalidationCounter "dialcache_invalidation_counter" "DialCache invalidation calls by key type and layer."
     ["cache_namespace"; "key_type"; "layer"];
   counter coalescedCounter "dialcache_coalesced_counter" "DialCache requests coalesced onto in-flight work by sharing scope."
     (base_labels ++ ["scope"]);
   counter shadowValidationCounter "dialcache_shadow_validation_counter" "Sampled DialCache Redis shadow-validation outcomes."
     (base_labels ++ ["outcome"]);
   histogram shadowValueAgeHistogram "dialcache_shadow_value_age_histogram"
     "Age in seconds of the validated Redis value at DialCache shadow verdict time." (base_labels ++ ["outcome"]) VALUE_AGE_BUCKETS;
   counter shadowMismatchLoggingCounter "dialcache_shadow_mismatch_logging_counter"
     "DialCache confirmed shadow-mismatch warning outcomes." (base_labels ++ ["outcome"]);
   histogram futureTimestampOffsetHistogram "dialcache_future_timestamp_offset_histogram"
     "Positive offset in seconds of Redis frames dated after the observing DialCache process clock."
     (base_labels ++ ["layer"]) FUTURE_TIMESTAMP_OFFSET_BUCKETS;
   counter staleRecoveryCounter "dialcache_stale_recovery_counter" "DialCache stale-on-error Redis recovery outcomes."
     (base_labels ++ ["outcome"]);
   histogram staleRecoveryValueAgeHistogram "dialcache_stale_recovery_value_age_histogram"
     "Age in seconds of Redis values served by DialCache stale-on-error recovery." (base_labels ++ ["outcome"]) VALUE_AGE_BUCKETS;
   counter compressionCounter "dialcache_compression_counter" "DialCache Redis payload compression and decompression outcomes."
     (base_labels ++ ["layer"; "outcome"]);
   histogram getTimer "dialcache_get_timer" "DialCache cache get latency in seconds." (base_labels ++ ["layer"]) TIMER_BUCKETS;
   histogram fallbackTimer "dialcache_fallback_timer" "Time DialCache waited for the fallback function in seconds."
     (base_labels ++ ["layer"]) TIMER_BUCKETS;
   histogram serializationTimer "dialcache_serialization_timer" "DialCache serialization latency in seconds."
     (base_labels ++ ["layer"; "operation"]) TIMER_BUCKETS;
   histogram sizeHistogram "dialcache_size_histogram" "Serialized DialCache value sizes in bytes." (base_labels ++ ["layer"]) SIZE_BUCKETS;
   histogram storedSizeHistogram "dialcache_stored_size_histogram"
     "Stored DialCache payload sizes in bytes, after compression and escaping." (base_labels ++ ["layer"]) SIZE_BUCKETS;
   histogram compressionRatioHistogram "dialcache_compression_ratio_histogram"
     "Compressed-to-original DialCache payload size ratio for compressed writes." (base_labels ++ ["layer"]) RATIO_BUCKETS;
   histogram compressionTimer "dialcache_compression_timer" "DialCache payload compression and decompression latency in seconds."
     (base_labels ++ ["layer"; "operation"]) TIMER_BUCKETS].

(** ** Events *)

(** One call on a collector: an increment, or an observation of a value. *)
Record emission := { em_field : collector_field; em_labels : labels; em_value : option Q }.

Definition inc (field : collector_field) (l : labels) : option emission :=
  Some {| em_field := field; em_labels := l; em_value := None |}.
Definition observe (field : collector_field) (l : labels) (value : Q) : option emission :=
  Some {| em_field := field; em_labels := l; em_value := Some value |}.

Definition bool_name (b : bool) : string := if b then "true" else "false".

(** The methods of [PrometheusDialCacheMetrics], one per event; the seconds of
    an event are finite. *)
Definition record (m : metric) : option emission :=
  match m with
  | m_request l => inc requestCounter (cacheLabels l)
  | m_miss l reason => inc missCounter (cacheLabels l ++ [("reason", js (miss_reason_name reason))])
  | m_disabled l reason => inc disabledCounter (cacheLabels l ++ [("reason", js (disabled_reason_name reason))])
  | m_error l error inFallback =>
      inc errorCounter (cacheLabels l ++ [("error", js (error_kind_name error)); ("in_fallback", js (bool_name inFallback))])
  | m_invalidation ns kt layer =>
      inc invalidationCounter [("cache_namespace", ns); ("key_type", kt); ("layer", js (layer_name layer))]
  | m_coalesced ns uc kt scope =>
      inc coalescedCounter [("cache_namespace", ns); ("use_case", uc); ("key_type", kt); ("scope", js (scope_name scope))]
  | m_shadowValidation ns uc kt o => inc shadowValidationCounter (outcomeLabels ns uc kt (shadow_outcome_name o))
  | m_observeShadowValueAge ns uc kt o seconds =>
      observe shadowValueAgeHistogram (outcomeLabels ns uc kt (shadow_outcome_name o)) seconds
  | m_shadowMismatchLogging ns uc kt o => inc shadowMismatchLoggingCounter (outcomeLabels ns uc kt (logging_outcome_name o))
  | m_observeFutureTimestampOffset l seconds =>
      if Qle_bool seconds 0 then None else observe futureTimestampOffsetHistogram (cacheLabels l) seconds
  | m_staleRecovery ns uc kt o => inc staleRecoveryCounter (outcomeLabels ns uc kt (recovery_outcome_name o))
  | m_observeStaleRecoveryValueAge ns uc kt o seconds =>
      observe staleRecoveryValueAgeHistogram (outcomeLabels ns uc kt (recovery_outcome_name o)) seconds
  | m_compression l o => inc compressionCounter (cacheLabels l ++ [("outcome", js (compression_outcome_name o))])
  | m_observeGet l seconds => observe getTimer (cacheLabels l) seconds
  | m_observeFallback l seconds => observe fallbackTimer (cacheLabels l) seconds
  | m_observeSerialization l dump seconds =>
      observe serializationTimer (cacheLabels l ++ [("operation", js (if dump then "dump" else "load"))]) seconds
  | m_observeSize l bytes => observe sizeHistogram (cacheLabels l) (inject_Z bytes)
  | m_observeStoredSize l bytes => observe storedSizeHistogram (cacheLabels l) (inject_Z bytes)
  | m_observeCompressionRatio l ratio => observe compressionRatioHistogram (cacheLabels l) ratio
  | m_observeCompression l compress seconds =>
      observe compressionTimer (cacheLabels l ++ [("operation", js (if compress then "compress" else "decompress"))]) seconds
  end.

(** ** The registry *)

(** What the code reads of a collector: [CollectorShape]. *)
Record CollectorShape := {
  cs_name : jsval;
  cs_help : jsval;
  cs_type : jsval;
  cs_labelNames : jsval;
  cs_buckets : jsval;
  cs_enableExemplars : jsval;
}.

Definition type_name (c : CollectorConfig) : string := match cc_buckets c with None => "counter" | Some _ => "histogram" end.

(** prom-client: [getSingleMetric] finds a collector by name; [new Counter]
    and [new Histogram] register one with the schema they are given, or throw;
    they do not throw for a valid name that is free. *)
Class PromRegistry (R C : Type) := {
  getSingleMetric : R -> jsstr -> option C;
  shape : C -> CollectorShape;
  registerCollector : R -> CollectorConfig -> res (R * C);
  validMetricName : jsstr -> bool;
}.

Definition schema_of (c : CollectorConfig) : CollectorShape := {|
  cs_name := JStr (cc_name c);
  cs_help := JStr (js (cc_help c));
  cs_type := JStr (js (type_name c));
  cs_labelNames := JArr (List.map (fun n => JStr (js n)) (cc_labelNames c));
  cs_buckets := match cc_buckets c with None => JUndefined | Some b => JArr (List.map (fun q => JNum (Fin q)) b) end;
  cs_enableExemplars := JBool false;
|}.

Class PromRegistryLaws {R C} `{PromRegistry R C} : Prop := {
  registers_free r c :
    getSingleMetric r (cc_name c) = None -> validMetricName (cc_name c) = true -> exists p, registerCollector r c = Ok p;
  registered_found r c r' col : registerCollector r c = Ok (r', col) -> getSingleMetric r' (cc_name c) = Some col;
  registered_schema r c r' col : registerCollector r c = Ok (r', col) -> shape col = schema_of c;
  registered_others r c r' col name :
    registerCollector r c = Ok (r', col) -> name <> cc_name c -> getSingleMetric r' name = getSingleMetric r name;
}.

(** [Object.is] on strings and numbers, the only elements compared. *)
Definition Object_is (a b : jsval) : bool :=
  match a, b with
  | JStr x, JStr y => str_eqb x y
  | JNum x, JNum y => num_eqb x y
  | _, _ => false
  end.

Fixpoint every_equal (actual expected : list jsval) : bool :=
  match actual, expected with
  | [], [] => true
  | a :: actual', e :: expected' => Object_is a e && every_equal actual' expected'
  | _, _ => false
  end.

Definition arraysEqual (actual : jsval) (expected : list jsval) : bool :=
  match actual with JArr items => every_equal items expected | _ => false end.

Definition is_string_value (v : jsval) (s : jsstr) : bool := match v with JStr t => str_eqb t s | _ => false end.

Definition compatible (s : CollectorShape) (c : CollectorConfig) : bool :=
  is_string_value (cs_name s) (cc_name c)
  && is_string_value (cs_help s) (js (cc_help c))
  && is_string_value (cs_type s) (js (type_name c))
  && negb (is_bool (cs_enableExemplars s) true)
  && arraysEqual (cs_labelNames s) (List.map (fun n => JStr (js n)) (cc_labelNames c))
  && match cc_buckets c with None => true | Some b => arraysEqual (cs_buckets s) (List.map (fun q => JNum (Fin q)) b) end.

(** The message of an incompatible collector, without its quoted name. *)
Definition incompatible : exn :=
  PlainError "Prometheus collector already exists with an incompatible schema. Use a unique prefix or a separate Registry.".

Section adapter.
  Context {R C : Type} `{PromRegistry R C}.

Fixpoint validateExistingCollectors (registry : R) (configs : list CollectorConfig) : res unit :=
  match configs with
  | [] => Ok tt
  | c :: rest =>
      match getSingleMetric registry (cc_name c) with
      | None => validateExistingCollectors registry rest
      | Some existing => if compatible (shape existing) c then validateExistingCollectors registry rest else Err incompatible
      end
  end.

(** [counter] and [histogram]: the existing collector, or a new one. *)
Definition get_or_create (registry : R) (c : CollectorConfig) : R * res C :=
  match getSingleMetric registry (cc_name c) with
  | Some existing => (registry, Ok existing)
  | None => match registerCollector registry c with Ok (r, col) => (r, Ok col) | Err e => (registry, Err e) end
  end.

(** The assignments of the constructor, in order; registrations made before a
    throw stay. *)
Fixpoint assign_collectors (registry : R) (configs : list (collector_field * CollectorConfig)) :
    R * res (list (collector_field * C)) :=
  match configs with
  | [] => (registry, Ok [])
  | (field, c) :: rest =>
      match get_or_create registry c with
      | (r, Err e) => (r, Err e)
      | (r, Ok col) =>
          match assign_collectors r rest with
          | (r', Err e) => (r', Err e)
          | (r', Ok cols) => (r', Ok ((field, col) :: cols))
          end
      end
  end.

(** [new PrometheusDialCacheMetrics({ registry, prefix })] *)
Definition PrometheusDialCacheMetrics (registry : R) (prefix : option jsstr) : R * res (list (collector_field * C)) :=
  let collectors := collectorConfigs (default [] prefix) in
  match validateExistingCollectors registry (List.map snd collectors) with
  | Err e => (registry, Err e)
  | Ok _ => assign_collectors registry collectors
  end.
End adapter.

(** ** Lemmas *)

Lemma every_equal_strings l : every_equal (List.map (fun n => JStr (js n)) l) (List.map (fun n => JStr (js n)) l) = true.
Proof.
  induction l as [|n l IH]; simpl; [done|]. rewrite IH, andb_true_r. by apply str_eqb_eq.
Qed.

Lemma every_equal_numbers l : every_equal (List.map (fun q => JNum (Fin q)) l) (List.map (fun q => JNum (Fin q)) l) = true.
Proof. induction l as [|q l IH]; simpl; [done|]. by rewrite IH, Qeq_bool_refl. Qed.

(** A collector the backend registered is compatible with its configuration. *)
Lemma schema_compatible c : compatible (schema_of c) c = true.
Proof.
  unfold compatible, schema_of, is_string_value. cbn [cs_name cs_help cs_type cs_labelNames cs_buckets cs_enableExemplars].
  assert (forall s, str_eqb s s = true) as Hs by (intros s; by apply str_eqb_eq).
  rewrite !Hs. cbn [arraysEqual is_bool Bool.eqb negb andb]. rewrite every_equal_strings. cbn [andb].
  destruct (cc_buckets c) as [b|]; [|done]. apply every_equal_numbers.
Qed.

Section registry.
  Context {R C : Type} `{PromRegistry R C} `{!PromRegistryLaws}.

Lemma validate_ok (registry : R) configs :
  validateExistingCollectors registry configs = Ok tt <->
  forall c col, In c configs -> getSingleMetric registry (cc_name c) = Some col -> compatible (shape col) c = true.
Proof.
  induction configs as [|c configs IH]; simpl; [naive_solver|].
  destruct (getSingleMetric registry (cc_name c)) as [col|] eqn:E; [destruct (compatible (shape col) c) eqn:Ec|].
  - rewrite IH. naive_solver.
  - split; [done|]. intros Ha. specialize (Ha c col (or_introl eq_refl) E). congruence.
  - rewrite IH. naive_solver.
Qed.

Lemma validate_error (registry : R) configs e :
  validateExistingCollectors registry configs = Err e -> e = incompatible.
Proof. induction configs as [|c configs IH]; simpl; [done|]. repeat case_match; naive_solver. Qed.

Lemma get_or_create_spec (r : R) c r' col :
  get_or_create r c = (r', Ok col) ->
  getSingleMetric r' (cc_name c) = Some col /\
  (getSingleMetric r (cc_name c) = Some col \/ shape col = schema_of c) /\
  (forall name x, getSingleMetric r name = Some x -> getSingleMetric r' name = Some x) /\
  (forall name, name <> cc_name c -> getSingleMetric r' name = getSingleMetric r name).
Proof.
  unfold get_or_create. destruct (getSingleMetric r (cc_name c)) as [existing|] eqn:E.
  { intros [= <- <-]. by repeat split; [|left|..]. }
  destruct (registerCollector r c) as [[r1 col1]|e] eqn:Er; [|done]. intros [= <- <-].
  split; [by eapply registered_found|]. split; [right; by eapply registered_schema|]. split.
  - intros name x Hx. rewrite (registered_others r c r1 col1); [done..|]. intros ->. congruence.
  - intros name Hn. by eapply registered_others.
Qed.

(** What the assignments establish, field by field. *)
Definition assigned (r r' : R) (p : collector_field * CollectorConfig) (q : collector_field * C) : Prop :=
  p.1 = q.1 /\ getSingleMetric r' (cc_name p.2) = Some q.2 /\
  (getSingleMetric r (cc_name p.2) = Some q.2 \/ shape q.2 = schema_of p.2).

Lemma assign_spec (r : R) configs r' cols :
  NoDup (List.map (fun p => cc_name p.2) configs) ->
  assign_collectors r configs = (r', Ok cols) ->
  Forall2 (assigned r r') configs cols /\
  (forall name x, getSingleMetric r name = Some x -> getSingleMetric r' name = Some x) /\
  (forall name, name ∉ List.map (fun p => cc_name p.2) configs -> getSingleMetric r' name = getSingleMetric r name).
Proof.
  revert r cols. induction configs as [|[field c] configs IH]; simpl; intros r cols Hnd.
  { intros [= <- <-]. by split. }
  apply list.NoDup_cons in Hnd as [Hn Hnd]. destruct (get_or_create r c) as [r1 [col|e]] eqn:E1; [|done].
  apply get_or_create_spec in E1 as (Hg & Hs & Hk & Ho).
  destruct (assign_collectors r1 configs) as [r2 [cols2|e]] eqn:E2; [|done]. intros [= <- <-].
  apply IH in E2 as (HF & Hk2 & Ho2); [|done]. split; [|split].
  - constructor; [by split; [|split; [apply Hk2|]]|].
    assert (Forall (fun p : collector_field * CollectorConfig => cc_name p.2 <> cc_name c) configs) as Hne.
    { apply list.Forall_forall. intros p Hp Heq. apply Hn. rewrite <- Heq. apply list_elem_of_In, in_map_iff.
      exists p. split; [done|]. by apply list_elem_of_In. }
    revert Hne. clear -HF Ho. induction HF as [|p q ps qs (E & Hf & Hc) _ IHF]; [constructor|].
    intros [Hp Hps]%Forall_cons_1. constructor; [|by apply IHF]. split; [done|]. split; [done|].
    rewrite Ho in Hc by done. exact Hc.
  - intros name x Hx. by apply Hk2, Hk.
  - intros name Hname. apply not_elem_of_cons in Hname as [Hne Hname]. rewrite Ho2, Ho by done. done.
Qed.

Lemma assigned_compatible (r r' : R) configs cols :
  Forall2 (assigned r r') configs cols ->
  (forall c col, In c (List.map snd configs) -> getSingleMetric r (cc_name c) = Some col -> compatible (shape col) c = true) ->
  Forall2 (fun p q => p.1 = q.1 /\ getSingleMetric r' (cc_name p.2) = Some q.2 /\ compatible (shape q.2) p.2 = true) configs cols.
Proof.
  induction 1 as [|p q ps qs (E & Hf & Hc) _ IH]; intros Hcomp; [constructor|]. constructor.
  - split; [done|]. split; [done|]. destruct Hc as [Hc| ->]; [|apply schema_compatible].
    eapply Hcomp; [by left|done].
  - apply IH. intros c col Hin. apply Hcomp. by right.
Qed.

(** Assigning succeeds when every name is valid. *)
Lemma assign_total (r : R) configs :
  (forall p, In p configs -> validMetricName (cc_name p.2) = true) ->
  exists cols, (assign_collectors r configs).2 = Ok cols.
Proof.
  revert r. induction configs as [|[field c] configs IH]; simpl; intros r Hv; [by exists []|].
  assert (exists r1 col, get_or_create r c = (r1, Ok col)) as (r1 & col & ->).
  { unfold get_or_create. destruct (getSingleMetric r (cc_name c)) as [x|] eqn:E; [by eexists _, _|].
    destruct (registers_free r c E) as [[r1 col] ->]; [|by eexists _, _]. exact (Hv (field, c) (or_introl eq_refl)). }
  destruct (IH r1) as [cols Hc]; [intros p Hp; apply Hv; by right|].
  destruct (assign_collectors r1 configs) as [r2 o]; simpl in Hc; subst. by eexists.
Qed.

Lemma assign_again (r' r : R) configs cols :
  Forall2 (assigned r r') configs cols -> assign_collectors r' configs = (r', Ok cols).
Proof.
  induction 1 as [|[f c] [f' col] configs cols (E & Hf & _) _ IH]; simpl in *; [done|].
  unfold get_or_create. rewrite Hf, IH. by subst.
Qed.
End registry.

(** The collectors of an adapter have distinct names under every prefix. *)
Lemma collector_names_distinct prefix :
  NoDup (List.map (fun p => cc_name p.2) (collectorConfigs prefix)).
Proof.
  assert (List.map (fun p => cc_name p.2) (collectorConfigs prefix) =
          (fun n => prefix ++ n) <$> List.map (fun p => cc_name p.2) (collectorConfigs [])) as -> by reflexivity.
  apply NoDup_fmap_2; [intros a b; by apply app_inv_head|].
  apply (bool_decide_eq_true_1 _). vm_compute. reflexivity.
Qed.

(** ** Properties *)

(** Every event carries exactly the labels its collector declares, in the
    declared order, increments a counter or observes into a histogram as the
    collector's type requires, and the twenty collector names are distinct
    under every prefix.  (prom-client rejects undeclared labels at run
    time.) *)
Theorem prometheus_labels_match_schema prefix m e :
  record m = Some e ->
  NoDup (List.map (fun p => cc_name p.2) (collectorConfigs prefix)) /\
  exists c, In (em_field e, c) (collectorConfigs prefix) /\
    List.map fst (em_labels e) = cc_labelNames c /\ (em_value e = None <-> cc_buckets c = None).
Proof.
  intros Hr. split; [apply collector_names_distinct|].
  destruct m; simpl in Hr; try (case_match; [done|]); injection Hr as <-; eexists;
    (split; [cbn; repeat first [left; reflexivity | right]|]); by split.
Qed.

(** C26. Constructing the backend on a shared registry is safe: an incompatible
    collector is refused before anything is registered; without one, and with
    a prefix that makes valid metric names, it succeeds.  Then every field
    holds the registry's collector of its name, an existing compatible one or
    a new one with the declared schema, existing collectors keep their place,
    and a second backend with the same prefix reuses them all without
    touching the registry. *)
Theorem prometheus_construction_is_safe {R C} `{PromRegistry R C} `{!PromRegistryLaws} (registry r' : R) prefix outcome :
  let configs := collectorConfigs (default [] prefix) in
  PrometheusDialCacheMetrics registry prefix = (r', outcome) ->
  (forall p, In p configs -> validMetricName (cc_name p.2) = true) ->
  (validateExistingCollectors registry (List.map snd configs) <> Ok tt /\ r' = registry /\ outcome = Err incompatible) \/
  (exists cols, outcome = Ok cols /\
     Forall2 (fun p q => p.1 = q.1 /\ getSingleMetric r' (cc_name p.2) = Some q.2 /\ compatible (shape q.2) p.2 = true) configs cols /\
     (forall name x, getSingleMetric registry name = Some x -> getSingleMetric r' name = Some x) /\
     PrometheusDialCacheMetrics r' prefix = (r', Ok cols)).
Proof.
  intros configs. unfold PrometheusDialCacheMetrics. fold configs.
  pose proof (collector_names_distinct (default [] prefix)) as Hnd. fold configs in Hnd. clearbody configs.
  destruct (validateExistingCollectors registry (List.map snd configs)) as [[]|e] eqn:Ev.
  - intros Ha Hv. right. destruct (assign_total registry configs Hv) as [cols Hc]. rewrite Ha in Hc. simpl in Hc. subst outcome.
    pose proof (assign_spec _ _ _ _ Hnd Ha) as (HF & Hk & _).
    rewrite validate_ok in Ev. pose proof (assigned_compatible _ _ _ _ HF Ev) as HF'.
    exists cols. do 3 (split; [done|]).
    assert (validateExistingCollectors r' (List.map snd configs) = Ok tt) as ->; [|by eapply assign_again].
    apply validate_ok. intros c col Hin Hg. apply in_map_iff in Hin as (p & <- & Hp).
    apply list_elem_of_In, list_elem_of_lookup in Hp as [i Hi].
    destruct (Forall2_lookup_l _ _ _ _ _ HF' Hi) as (q & _ & _ & Hf & Hcomp). congruence.
  - intros [= <- <-] _. left. split; [done|]. split; [done|]. by apply (validate_error registry (List.map snd configs)) in Ev as ->.
Qed.

(** ** Witnesses *)

Lemma prometheus_labels_match_schema_witness :
  record (m_invalidation (js "ns") (js "user") REMOTE) =
    Some {| em_field := invalidationCounter;
            em_labels := [("cache_namespace", js "ns"); ("key_type", js "user"); ("layer", js "remote")]; em_value := None |} /\
  NoDup (List.map (fun p => cc_name p.2) (collectorConfigs (js "app_"))).
Proof.
  split; [reflexivity|].
  exact (proj1 (prometheus_labels_match_schema (js "app_") (m_invalidation (js "ns") (js "user") REMOTE) _ eq_refl)).
Defined.

(** A registry as an association list that refuses a taken name. *)
#[local] Instance list_registry : PromRegistry (list (jsstr * CollectorShape)) CollectorShape := {|
  getSingleMetric r name := snd <$> List.find (fun p => str_eqb name p.1) r;
  shape c := c;
  registerCollector r c :=
    if existsb (fun p => str_eqb (cc_name c) p.1) r then Err (PlainError "already registered")
    else Ok ((cc_name c, schema_of c) :: r, schema_of c);
  validMetricName _ := true;
|}.

#[local] Instance list_registry_laws : PromRegistryLaws (R := list (jsstr * CollectorShape)) (C := CollectorShape).
Proof.
  split; simpl; intros r c.
  - intros Hf _. destruct (existsb _ r) eqn:E; [|by eexists].
    apply existsb_exists in E as (p & Hp & He).
    destruct (List.find _ r) eqn:Ef; [done|]. apply (List.find_none _ _ Ef) in Hp. congruence.
  - intros r' col. case_match; [done|]. intros [= <- <-]. simpl.
    assert (str_eqb (cc_name c) (cc_name c) = true) as -> by (by apply str_eqb_eq). done.
  - intros r' col. case_match; [done|]. by intros [= <- <-].
  - intros r' col name. case_match; [done|]. intros [= <- <-] Hn. simpl.
    destruct (str_eqb name (cc_name c)) eqn:E; [|done]. by apply str_eqb_eq in E.
Qed.

(** A fresh registry, and one where the request counter has other labels. *)
Lemma prometheus_construction_is_safe_witness :
  (exists cols, (PrometheusDialCacheMetrics (R := list (jsstr * CollectorShape)) [] None).2 = Ok cols /\ length cols = 20%nat) /\
  PrometheusDialCacheMetrics
    [(js "dialcache_request_counter",
      schema_of {| cc_name := js "dialcache_request_counter"; cc_help := "Total DialCache cache-layer requests.";
                   cc_labelNames := ["layer"]; cc_buckets := None |})] None =
  ([(js "dialcache_request_counter",
      schema_of {| cc_name := js "dialcache_request_counter"; cc_help := "Total DialCache cache-layer requests.";
                   cc_labelNames := ["layer"]; cc_buckets := None |})], Err incompatible).
Proof.
  split; [|reflexivity].
  assert (forall p, In p (collectorConfigs []) -> validMetricName (cc_name p.2) = true) as Hvalid by reflexivity.
  destruct (prometheus_construction_is_safe [] _ None _ (surjective_pairing _) Hvalid)
    as [(Hv & _)|(cols & -> & HF & _)].
  - exfalso. apply Hv. reflexivity.
  - exists cols. split; [reflexivity|]. by rewrite <- (list.Forall2_length _ _ _ HF).
Defined.
