(* ===== verification/Datadog.v ===== *)
(** * The Datadog metrics backend

    [datadog.ts]: the metric names of a namespace, the validation of the
    options, and the DogStatsD call of every event.  The client is supplied
    by the application: the model produces the calls the backend makes on
    it. *)

From S2P Require Import Prelude JsValue Duration Utf8 Config Key Metrics Prometheus.

(** ** Metric names *)

Definition DEFAULT_NAMESPACE : jsstr := js "dialcache".
Definition DATADOG_METRIC_NAME_MAX_LENGTH : nat := 200.

(** The keys of [METRIC_SUFFIXES]. *)
Inductive MetricName :=
| dd_request | dd_miss | dd_disabled | dd_error | dd_invalidation | dd_coalesced | dd_shadowValidation
| dd_shadowValueAge | dd_shadowMismatchLogging | dd_futureTimestampOffset | dd_staleRecovery
| dd_staleRecoveryValueAge | dd_compression | dd_get | dd_fallback | dd_serialization | dd_size
| dd_storedSize | dd_compressionRatio | dd_compressionDuration.

#[export] Instance MetricName_eq_dec : EqDecision MetricName.
Proof. solve_decision. Defined.

Definition METRIC_SUFFIXES : list (MetricName * string) :=
  [(dd_request, "request.count"); (dd_miss, "miss.count"); (dd_disabled, "disabled.count"); (dd_error, "error.count");
   (dd_invalidation, "invalidation.count"); (dd_coalesced, "coalesced.count"); (dd_shadowValidation, "shadow.count");
   (dd_shadowValueAge, "shadow.value_age"); (dd_shadowMismatchLogging, "shadow_mismatch_logging.count");
   (dd_futureTimestampOffset, "future_timestamp_offset"); (dd_staleRecovery, "stale_recovery.count");
   (dd_staleRecoveryValueAge, "stale_recovery.value_age"); (dd_compression, "compression.count");
   (dd_get, "get.duration"); (dd_fallback, "fallback.duration"); (dd_serialization, "serialization.duration");
   (dd_size, "serialization.size"); (dd_storedSize, "stored.size"); (dd_compressionRatio, "compression.ratio");
   (dd_compressionDuration, "compression.duration")].

Definition is_letter (c : Z) : bool := ((65 <=? c) && (c <=? 90)) || ((97 <=? c) && (c <=? 122)).
Definition is_word (c : Z) : bool := is_letter c || ((48 <=? c) && (c <=? 57)) || (c =? 95).

(** [[A-Za-z0-9_]*(?:\.[A-Za-z0-9_]+)*$]: a dot must follow a word character
    ([filled]), and a segment it opens must get one. *)
Fixpoint segments_match (filled : bool) (s : jsstr) : bool :=
  match s with
  | [] => filled
  | c :: rest =>
      if is_word c then segments_match true rest
      else if (c =? 46) && filled then segments_match false rest
      else false
  end.

(** [NAMESPACE_PATTERN.test(s)] *)
Definition NAMESPACE_PATTERN_test (s : jsstr) : bool :=
  match s with
  | c :: rest => is_letter c && segments_match true rest
  | [] => false
  end.

(** ** Construction *)

Definition typeof_function (v : jsval) : bool := match v with JFun => true | _ => false end.

Definition validateClient (client : jsval) : res jsval :=
  if is_null client || negb (typeof_object client) then Err (TypeError "Datadog metrics client must be an object.")
  else if negb (typeof_function (prop client "increment")) then Err (TypeError "Datadog metrics client must implement increment().")
  else if negb (typeof_function (prop client "histogram")) then Err (TypeError "Datadog metrics client must implement histogram().")
  else if negb (typeof_function (prop client "distribution")) then Err (TypeError "Datadog metrics client must implement distribution().")
  else Ok client.

Inductive DatadogObservationMetricType := dd_histogram | dd_distribution.

Definition validateObservationMetricType (value : jsval) : res DatadogObservationMetricType :=
  match value with
  | JStr s =>
      if str_eqb s (js "histogram") then Ok dd_histogram
      else if str_eqb s (js "distribution") then Ok dd_distribution
      else Err (TypeError ("Datadog observationMetricType must be either " +:+ quoted "histogram" +:+ " or " +:+ quoted "distribution" +:+ "."))
  | _ => Err (TypeError ("Datadog observationMetricType must be either " +:+ quoted "histogram" +:+ " or " +:+ quoted "distribution" +:+ "."))
  end.

Definition bad_namespace : exn :=
  TypeError "Datadog namespace must start with a letter and contain only letters, numbers, underscores, and dot-separated non-empty segments.".

Definition validateNamespace (namespace : jsval) : res jsstr :=
  match namespace with
  | JStr s => if NAMESPACE_PATTERN_test s then Ok s else Err bad_namespace
  | _ => Err bad_namespace
  end.

(** The message of a long name, without the name. *)
Definition name_too_long : exn := RangeError "Datadog metric name exceeds the 200-character limit.".

Definition metric_name (namespace : jsstr) (suffix : string) : jsstr := namespace ++ [46] ++ js suffix.

Fixpoint name_entries (namespace : jsstr) (suffixes : list (MetricName * string)) : res (list (MetricName * jsstr)) :=
  match suffixes with
  | [] => Ok []
  | (metric, suffix) :: rest =>
      let name := metric_name namespace suffix in
      if (DATADOG_METRIC_NAME_MAX_LENGTH <? length name)%nat then Err name_too_long
      else entries ← name_entries namespace rest; Ok ((metric, name) :: entries)
  end.

Definition metricNames (namespace : jsstr) : res (list (MetricName * jsstr)) := name_entries namespace METRIC_SUFFIXES.

Record DatadogDialCacheMetrics := {
  dd_client : jsval;
  dd_metricNames : list (MetricName * jsstr);
  dd_observe : DatadogObservationMetricType;
}.

(** The constructor, and [createDatadogDialCacheMetrics]. *)
Definition new_DatadogDialCacheMetrics (options : jsval) : res DatadogDialCacheMetrics :=
  _ ← throw_if (is_null options || negb (typeof_object options)) (TypeError "Datadog metrics options must be an object.");
  client ← validateClient (prop options "client");
  namespace ← validateNamespace
    (if is_undefined (prop options "namespace") then JStr DEFAULT_NAMESPACE else prop options "namespace");
  observationMetricType ← validateObservationMetricType (prop options "observationMetricType");
  names ← metricNames namespace;
  Ok {| dd_client := client; dd_metricNames := names; dd_observe := observationMetricType |}.

(** ** Events *)

Inductive statsd_method := Increment | Histogram | Distribution.

(** One call on the client: method, metric, value, tags. *)
Record statsd_call := { sc_method : statsd_method; sc_metric : MetricName; sc_value : Q; sc_tags : labels }.

Definition cacheTags (l : CacheMetricLabels) : labels :=
  [("cache_namespace", cacheNamespace l); ("use_case", ml_useCase l); ("key_type", ml_keyType l);
   ("layer", js (metric_layer_name (ml_layer l)))].

Definition outcomeTags (ns uc kt : jsstr) (outcome : string) : labels :=
  [("cache_namespace", ns); ("use_case", uc); ("key_type", kt); ("outcome", js outcome)].

Definition increment (metric : MetricName) (tags : labels) : statsd_call :=
  {| sc_method := Increment; sc_metric := metric; sc_value := 1; sc_tags := tags |}.

Definition observation (t : DatadogObservationMetricType) (metric : MetricName) (value : Q) (tags : labels) : statsd_call :=
  {| sc_method := match t with dd_distribution => Distribution | dd_histogram => Histogram end;
     sc_metric := metric; sc_value := value; sc_tags := tags |}.

(** The methods of [DatadogDialCacheMetrics], one per event. *)
Definition send (t : DatadogObservationMetricType) (m : metric) : statsd_call :=
  match m with
  | m_request l => increment dd_request (cacheTags l)
  | m_miss l reason => increment dd_miss (cacheTags l ++ [("reason", js (miss_reason_name reason))])
  | m_disabled l reason => increment dd_disabled (cacheTags l ++ [("reason", js (disabled_reason_name reason))])
  | m_error l error inFallback =>
      increment dd_error (cacheTags l ++ [("error", js (error_kind_name error)); ("in_fallback", js (bool_name inFallback))])
  | m_invalidation ns kt layer =>
      increment dd_invalidation [("cache_namespace", ns); ("key_type", kt); ("layer", js (layer_name layer))]
  | m_coalesced ns uc kt scope =>
      increment dd_coalesced [("cache_namespace", ns); ("use_case", uc); ("key_type", kt); ("scope", js (scope_name scope))]
  | m_shadowValidation ns uc kt o => increment dd_shadowValidation (outcomeTags ns uc kt (shadow_outcome_name o))
  | m_observeShadowValueAge ns uc kt o seconds =>
      observation t dd_shadowValueAge seconds (outcomeTags ns uc kt (shadow_outcome_name o))
  | m_shadowMismatchLogging ns uc kt o => increment dd_shadowMismatchLogging (outcomeTags ns uc kt (logging_outcome_name o))
  | m_observeFutureTimestampOffset l seconds => observation t dd_futureTimestampOffset seconds (cacheTags l)
  | m_staleRecovery ns uc kt o => increment dd_staleRecovery (outcomeTags ns uc kt (recovery_outcome_name o))
  | m_observeStaleRecoveryValueAge ns uc kt o seconds =>
      observation t dd_staleRecoveryValueAge seconds (outcomeTags ns uc kt (recovery_outcome_name o))
  | m_compression l o => increment dd_compression (cacheTags l ++ [("outcome", js (compression_outcome_name o))])
  | m_observeGet l seconds => observation t dd_get seconds (cacheTags l)
  | m_observeFallback l seconds => observation t dd_fallback seconds (cacheTags l)
  | m_observeSerialization l dump seconds =>
      observation t dd_serialization seconds (cacheTags l ++ [("operation", js (if dump then "dump" else "load"))])
  | m_observeSize l bytes => observation t dd_size (inject_Z bytes) (cacheTags l)
  | m_observeStoredSize l bytes => observation t dd_storedSize (inject_Z bytes) (cacheTags l)
  | m_observeCompressionRatio l ratio => observation t dd_compressionRatio ratio (cacheTags l)
  | m_observeCompression l compress seconds =>
      observation t dd_compressionDuration seconds (cacheTags l ++ [("operation", js (if compress then "compress" else "decompress"))])
  end.

(** ** Lemmas *)

(** The pattern, read as a grammar: a letter, word characters, then dotted
    non-empty segments of word characters. *)
Definition namespace_shape (s : jsstr) : Prop :=
  exists c first segments,
    s = c :: first ++ concat (List.map (cons 46) segments) /\
    is_letter c = true /\ Forall (fun x => is_word x = true) first /\
    Forall (fun seg => seg <> [] /\ Forall (fun x => is_word x = true) seg) segments.

Lemma segments_sound filled s :
  segments_match filled s = true ->
  exists first segments, s = first ++ concat (List.map (cons 46) segments) /\
    (filled = true \/ first <> []) /\ Forall (fun x => is_word x = true) first /\
    Forall (fun seg => seg <> [] /\ Forall (fun x => is_word x = true) seg) segments.
Proof.
  revert filled. induction s as [|c s IH]; intros filled; simpl.
  { intros ->. exists [], []. by repeat split; [left|..]. }
  destruct (is_word c) eqn:Ew.
  - intros (first & segs & -> & _ & Hf & Hs)%IH. exists (c :: first), segs. by repeat split; [right|constructor|].
  - destruct ((c =? 46) && filled) eqn:E; [|done]. apply andb_true_iff in E as [->%Z.eqb_eq ->].
    intros (first & segs & -> & [?|Hne] & Hf & Hs)%IH; [done|].
    exists [], (first :: segs). by repeat split; [left|constructor|constructor].
Qed.

Lemma segments_words filled first rest :
  Forall (fun x => is_word x = true) first -> first <> [] \/ filled = true ->
  segments_match filled (first ++ rest) = segments_match true rest.
Proof.
  revert filled. induction first as [|c first IH]; intros filled; simpl; [by intros _ [?| ->]|].
  intros [Hc Hf]%Forall_cons_1 _. rewrite Hc. apply IH; [done|by right].
Qed.

Lemma segments_complete segs :
  Forall (fun seg => seg <> [] /\ Forall (fun x => is_word x = true) seg) segs ->
  segments_match true (concat (List.map (cons 46) segs)) = true.
Proof.
  induction segs as [|seg segs IH]; simpl; [done|]. intros [[Hne Hw] Hs]%Forall_cons_1.
  rewrite segments_words; auto.
Qed.

Lemma namespace_pattern_shape s : NAMESPACE_PATTERN_test s = true <-> namespace_shape s.
Proof.
  split.
  - destruct s as [|c s]; [done|]. simpl. intros [Hc (first & segs & -> & _ & Hf & Hs)%segments_sound]%andb_true_iff.
    by exists c, first, segs.
  - intros (c & first & segs & -> & Hc & Hf & Hs). simpl. rewrite Hc. simpl.
    rewrite segments_words by auto. by apply segments_complete.
Qed.

Lemma name_entries_spec ns suffixes :
  (Forall (fun p => (length (metric_name ns p.2) <= DATADOG_METRIC_NAME_MAX_LENGTH)%nat) suffixes /\
   name_entries ns suffixes = Ok (List.map (fun p => (p.1, metric_name ns p.2)) suffixes)) \/
  (Exists (fun p => (DATADOG_METRIC_NAME_MAX_LENGTH < length (metric_name ns p.2))%nat) suffixes /\
   name_entries ns suffixes = Err name_too_long).
Proof.
  induction suffixes as [|[metric suffix] rest IH]; [by left|]. cbn [name_entries].
  destruct (DATADOG_METRIC_NAME_MAX_LENGTH <? length (metric_name ns suffix))%nat eqn:E.
  - right. apply Nat.ltb_lt in E. by split; [left|].
  - apply Nat.ltb_ge in E. destruct IH as [[HF ->]|[HE ->]]; [left|right]; (split; [by constructor|done]).
Qed.

Definition names_of (ns : jsstr) : list (MetricName * jsstr) :=
  List.map (fun p => (p.1, metric_name ns p.2)) METRIC_SUFFIXES.

Lemma metric_name_length ns suffix : length (metric_name ns suffix) = (length ns + S (String.length suffix))%nat.
Proof.
  unfold metric_name, js. rewrite !length_app, length_fmap. simpl. do 2 f_equal.
  induction suffix as [|a suffix IH]; simpl; [done|]. by f_equal.
Qed.

(** The longest suffix, [shadow_mismatch_logging.count], decides. *)
Lemma metricNames_spec ns :
  metricNames ns = if (length ns <=? 170)%nat then Ok (names_of ns) else Err name_too_long.
Proof.
  unfold metricNames. destruct (name_entries_spec ns METRIC_SUFFIXES) as [[HF ->]|[HE ->]].
  - assert (length ns <= 170)%nat as Hl; [|by apply Nat.leb_le in Hl as ->].
    rewrite list.Forall_forall in HF.
    specialize (HF (dd_shadowMismatchLogging, "shadow_mismatch_logging.count")).
    rewrite metric_name_length in HF. cbn [snd String.length] in HF. unfold DATADOG_METRIC_NAME_MAX_LENGTH in HF.
    assert ((dd_shadowMismatchLogging, "shadow_mismatch_logging.count") ∈ METRIC_SUFFIXES) as Hin; [|specialize (HF Hin); lia].
    apply list_elem_of_In. cbn. tauto.
  - assert (170 < length ns)%nat as Hl; [|by apply Nat.leb_gt in Hl as ->].
    apply list.Exists_exists in HE as ([m suffix] & Hin & Hlt). rewrite metric_name_length in Hlt. cbn [snd] in Hlt.
    assert (String.length suffix <= 29)%nat as Hs; [|unfold DATADOG_METRIC_NAME_MAX_LENGTH in Hlt; lia].
    assert (Forall (fun p : MetricName * string => (String.length p.2 <= 29)%nat) METRIC_SUFFIXES) as HF
      by (apply (bool_decide_eq_true_1 _); vm_compute; reflexivity).
    rewrite list.Forall_forall in HF. exact (HF _ Hin).
Qed.

Lemma names_of_distinct ns : NoDup (List.map snd (names_of ns)).
Proof.
  assert (List.map snd (names_of ns) = (fun n => ns ++ n) <$> List.map snd (names_of [])) as -> by reflexivity.
  apply NoDup_fmap_2; [intros a b; by apply app_inv_head|].
  apply (bool_decide_eq_true_1 _). vm_compute. reflexivity.
Qed.

Lemma names_of_short ns :
  (length ns <= 170)%nat -> Forall (fun p => (length p.2 <= DATADOG_METRIC_NAME_MAX_LENGTH)%nat) (names_of ns).
Proof.
  intros Hl. pose proof (metricNames_spec ns) as E. apply Nat.leb_le in Hl. rewrite Hl in E. unfold metricNames in E.
  destruct (name_entries_spec ns METRIC_SUFFIXES) as [[HF _]|[_ E']]; [|congruence].
  unfold names_of. apply List.Forall_map. exact HF.
Qed.

(** What the options must be. *)
Definition object_value (v : jsval) : Prop := v <> JNull /\ typeof_object v = true.

Definition usable_client (c : jsval) : Prop :=
  object_value c /\ prop c "increment" = JFun /\ prop c "histogram" = JFun /\ prop c "distribution" = JFun.

Definition type_value (t : DatadogObservationMetricType) : string :=
  match t with dd_histogram => "histogram" | dd_distribution => "distribution" end.

Lemma object_check v : is_null v || negb (typeof_object v) = false <-> object_value v.
Proof. unfold object_value. destruct v; simpl; naive_solver. Qed.

Lemma typeof_function_true v : typeof_function v = true <-> v = JFun.
Proof. by destruct v. Qed.

Lemma validateClient_ok c c' : validateClient c = Ok c' <-> c' = c /\ usable_client c.
Proof.
  unfold validateClient, usable_client. rewrite <- object_check, <- !typeof_function_true.
  destruct (is_null c || _), (typeof_function (prop c "increment")), (typeof_function (prop c "histogram")),
    (typeof_function (prop c "distribution")); simpl; naive_solver.
Qed.

Lemma validateObservationMetricType_ok v t : validateObservationMetricType v = Ok t <-> v = JStr (js (type_value t)).
Proof.
  destruct v; simpl; try (split; [done|by destruct t]).
  destruct (str_eqb s (js "histogram")) eqn:E1; [apply str_eqb_eq in E1 as ->; by destruct t|].
  destruct (str_eqb s (js "distribution")) eqn:E2; [apply str_eqb_eq in E2 as ->; by destruct t|].
  split; [done|]. intros [= ->]. by destruct t.
Qed.

Lemma validateNamespace_ok v ns : validateNamespace v = Ok ns <-> v = JStr ns /\ namespace_shape ns.
Proof.
  destruct v; simpl; try naive_solver. rewrite <- namespace_pattern_shape.
  destruct (NAMESPACE_PATTERN_test s) eqn:E; (split; [by intros [= <-] || done|]); intros [[= <-] ?]; congruence.
Qed.

(** The collector of the Prometheus backend with the same meaning. *)
Definition collector_of (m : MetricName) : collector_field :=
  match m with
  | dd_request => requestCounter | dd_miss => missCounter | dd_disabled => disabledCounter | dd_error => errorCounter
  | dd_invalidation => invalidationCounter | dd_coalesced => coalescedCounter
  | dd_shadowValidation => shadowValidationCounter | dd_shadowValueAge => shadowValueAgeHistogram
  | dd_shadowMismatchLogging => shadowMismatchLoggingCounter
  | dd_futureTimestampOffset => futureTimestampOffsetHistogram | dd_staleRecovery => staleRecoveryCounter
  | dd_staleRecoveryValueAge => staleRecoveryValueAgeHistogram | dd_compression => compressionCounter
  | dd_get => getTimer | dd_fallback => fallbackTimer | dd_serialization => serializationTimer
  | dd_size => sizeHistogram | dd_storedSize => storedSizeHistogram | dd_compressionRatio => compressionRatioHistogram
  | dd_compressionDuration => compressionTimer
  end.

(** A Datadog call as the Prometheus backend would make it. *)
Definition as_emission (c : statsd_call) : emission := {|
  em_field := collector_of (sc_metric c);
  em_labels := sc_tags c;
  em_value := match sc_method c with Increment => None | _ => Some (sc_value c) end;
|}.

(** ** Properties *)

(** Construction succeeds exactly for an options object with a client that
    has the three methods, a known observation type, and a namespace that
    starts with a letter, has non-empty dot-separated segments and leaves
    room for the longest suffix (170 code units); the names it computes are
    the namespace followed by the suffixes, pairwise distinct, none longer
    than 200. *)
Theorem datadog_construction_exact options backend :
  new_DatadogDialCacheMetrics options = Ok backend <->
  object_value options /\ usable_client (dd_client backend) /\
  dd_client backend = prop options "client" /\
  prop options "observationMetricType" = JStr (js (type_value (dd_observe backend))) /\
  exists ns, defined_or (prop options "namespace") (JStr DEFAULT_NAMESPACE) = JStr ns /\
    namespace_shape ns /\ (length ns <= 170)%nat /\ dd_metricNames backend = names_of ns /\
    NoDup (List.map snd (dd_metricNames backend)) /\
    Forall (fun p => (length p.2 <= DATADOG_METRIC_NAME_MAX_LENGTH)%nat) (dd_metricNames backend).
Proof.
  unfold new_DatadogDialCacheMetrics, throw_if. fold (defined_or (prop options "namespace") (JStr DEFAULT_NAMESPACE)).
  rewrite <- object_check. destruct (is_null options || _); simpl; [naive_solver|]. split.
  - intros H. repeat (apply result_bind_ok in H as (? & ? & H)). injection H as <-. cbn [dd_client dd_metricNames dd_observe].
    apply validateClient_ok in H0 as [-> Hc]. apply validateNamespace_ok in H1 as [Hns Hsh].
    apply validateObservationMetricType_ok in H2. rewrite metricNames_spec in H3.
    destruct (length _ <=? 170)%nat eqn:E in H3; [|done]. apply Nat.leb_le in E. injection H3 as <-.
    do 4 (split; [done|]). eexists. do 4 (split; [done|]). split; [apply names_of_distinct|by apply names_of_short].
  - intros (_ & Hc & Ec & Et & ns & Hns & Hsh & Hl & En & _). rewrite Ec in Hc.
    rewrite (proj2 (validateClient_ok _ _) (conj eq_refl Hc)). simpl.
    rewrite (proj2 (validateNamespace_ok _ _) (conj Hns Hsh)). simpl.
    rewrite (proj2 (validateObservationMetricType_ok _ _) Et). simpl.
    rewrite metricNames_spec. apply Nat.leb_le in Hl as ->. simpl. rewrite <- Ec, <- En. by destruct backend.
Qed.

Lemma datadog_construction_exact_witness :
  let client := JObj [(js "increment", JFun); (js "histogram", JFun); (js "distribution", JFun)] in
  let options := JObj [(js "client", client); (js "observationMetricType", JStr (js "distribution"));
                       (js "namespace", JStr (js "shop.cache"))] in
  exists backend, new_DatadogDialCacheMetrics options = Ok backend /\ object_value options.
Proof.
  intros client options. eexists. split; [reflexivity|].
  exact (proj1 (proj1 (datadog_construction_exact options _) eq_refl)).
Defined.

(** Both metric backends report every event alike: they have a metric each
    for the same twenty meanings, and an event carries the same labels with
    the same value on both, an increment of one or an observation, except
    that the Prometheus backend drops a future-timestamp offset that is not
    positive. *)
Theorem metrics_backends_agree t m prefix :
  List.map (fun p => collector_of p.1) METRIC_SUFFIXES ≡ₚ List.map fst (collectorConfigs prefix) /\
  (sc_method (send t m) = Increment -> sc_value (send t m) = 1%Q) /\
  record m =
  match m with
  | m_observeFutureTimestampOffset _ seconds => if Qle_bool seconds 0 then None else Some (as_emission (send t m))
  | _ => Some (as_emission (send t m))
  end.
Proof.
  split; [|split; [by destruct m, t|by destruct m, t]].
  apply NoDup_Permutation; [apply (bool_decide_eq_true_1 _); vm_compute; reflexivity..|].
  intros f. rewrite !list_elem_of_In. cbn. destruct f; tauto.
Qed.
