(* ===== verification/Settlement.v ===== *)
(** * The settlement ledger of the replay coordinator

    [formal/replay/settlement.mjs]: the coordinator of the conformance replay
    derives, from the commands it issued and a driver's public counters, the
    receipt an honest driver must attach to its next observation.  The driver
    is described by the contract of [formal/guides/PORTING.md] (rules R2 to
    R5); counters are exact integers. *)

From S2P Require Import Prelude JsValue.

(** ** Gates *)

(** The kinds of effect a fault can hold. *)
Inductive gate := g_read | g_write | g_dump | g_load | g_policy.

#[export] Instance gate_eq_dec : EqDecision gate.
Proof. solve_decision. Defined.

(** The order of [kinds]. *)
Definition kinds : list gate := [g_read; g_write; g_dump; g_load; g_policy].

(** An object with a member per kind. *)
Record per_gate (A : Type) := Gates { at_read : A; at_write : A; at_dump : A; at_load : A; at_policy : A }.
Arguments Gates {A}.
Arguments at_read {A}. Arguments at_write {A}. Arguments at_dump {A}. Arguments at_load {A}. Arguments at_policy {A}.

Definition gget {A} (r : per_gate A) (g : gate) : A :=
  match g with
  | g_read => at_read r | g_write => at_write r | g_dump => at_dump r | g_load => at_load r | g_policy => at_policy r
  end.

Definition gset {A} (r : per_gate A) (g : gate) (x : A) : per_gate A :=
  match g with
  | g_read => Gates x (at_write r) (at_dump r) (at_load r) (at_policy r)
  | g_write => Gates (at_read r) x (at_dump r) (at_load r) (at_policy r)
  | g_dump => Gates (at_read r) (at_write r) x (at_load r) (at_policy r)
  | g_load => Gates (at_read r) (at_write r) (at_dump r) x (at_policy r)
  | g_policy => Gates (at_read r) (at_write r) (at_dump r) (at_load r) x
  end.

Definition gall {A} (x : A) : per_gate A := Gates x x x x x.

(** ** Commands, observations and receipts *)

(** The commands of the protocol that the ledger distinguishes.  [Faults]
    carries the hold flags it defines; [OtherCommand] is any command that can
    start an effect and that the ledger does not count ([begin], [policy],
    [invalidate], ...). *)
Inductive command :=
| Faults (value : per_gate (option bool))
| Seed
| OpenScope
| CloseScope
| Release (effect : gate)
| Resolve
| Reject
| Advance (ms : Z)
| ShiftWall (ms : Z)
| AdvanceWall (ms : Z)
| OtherCommand.

(** The counters of an observation that the ledger reads. *)
Record observation := { ob_loaders : Z; ob_comparisons : Z; ob_counters : per_gate Z }.

Record held_gates := { held_loaders : Z; held_effects : per_gate Z; held_scopes : Z }.

Record settlementReceipt := { elapsedMs : Z; runnable : Z; held : held_gates }.

(** The fixture members the ledger reads; an absent one does no work. *)
Record fixture := { sourceWorkMs : option Z; comparisonMs : option Z }.

Definition wallEpochMs : Z := 1788868800000.

(** ** The ledger *)

Record SettlementLedger := {
  sl_fixture : fixture;
  sl_hold : per_gate bool;
  sl_heldStarted : per_gate Z;
  sl_released : per_gate Z;
  sl_previous : per_gate Z;
  sl_settled : Z;
  sl_advanceMs : Z;
  sl_shiftWallMs : Z;
  sl_openScopes : Z;
  sl_effectsSinceObservation : Z;
}.

Definition with_hold (l : SettlementLedger) (hold : per_gate bool) : SettlementLedger :=
  {| sl_fixture := sl_fixture l; sl_hold := hold; sl_heldStarted := sl_heldStarted l; sl_released := sl_released l;
     sl_previous := sl_previous l; sl_settled := sl_settled l; sl_advanceMs := sl_advanceMs l;
     sl_shiftWallMs := sl_shiftWallMs l; sl_openScopes := sl_openScopes l;
     sl_effectsSinceObservation := sl_effectsSinceObservation l |}.

(** The message, without the name of the flag. *)
Definition cannot_attribute : exn :=
  PlainError "Settlement ledger cannot attribute held gates: a hold changes after an effect-starting command in one observation interval".

(** The loop over [kinds] of a [faults] command. *)
Fixpoint change_holds (value : per_gate (option bool)) (ks : list gate) (l : SettlementLedger) : res SettlementLedger :=
  match ks with
  | [] => Ok l
  | kind :: rest =>
      match gget value kind with
      | None => change_holds value rest l
      | Some b =>
          if Bool.eqb b (gget (sl_hold l) kind) then change_holds value rest l
          else if 0 <? sl_effectsSinceObservation l then Err cannot_attribute
          else change_holds value rest (with_hold l (gset (sl_hold l) kind b))
      end
  end.

(** [command.op !== "seed" && command.op !== "openScope"], for a command that
    is not [faults]. *)
Definition starts_effects (c : command) : bool := match c with Faults _ | Seed | OpenScope => false | _ => true end.

(** The rest of the loop body. *)
Definition count_command (l : SettlementLedger) (c : command) : SettlementLedger :=
  {| sl_fixture := sl_fixture l; sl_hold := sl_hold l; sl_heldStarted := sl_heldStarted l;
     sl_released := match c with
                    | Release effect => gset (sl_released l) effect (gget (sl_released l) effect + 1)
                    | _ => sl_released l
                    end;
     sl_previous := sl_previous l;
     sl_settled := match c with Resolve | Reject => sl_settled l + 1 | _ => sl_settled l end;
     sl_advanceMs := match c with Advance ms => sl_advanceMs l + ms | _ => sl_advanceMs l end;
     sl_shiftWallMs := match c with ShiftWall ms | AdvanceWall ms => sl_shiftWallMs l + ms | _ => sl_shiftWallMs l end;
     sl_openScopes := match c with
                      | OpenScope => sl_openScopes l + 1
                      | CloseScope => sl_openScopes l - 1
                      | _ => sl_openScopes l
                      end;
     sl_effectsSinceObservation := sl_effectsSinceObservation l + (if starts_effects c then 1 else 0) |}.

Definition issue_one (l : SettlementLedger) (c : command) : res SettlementLedger :=
  match c with
  | Faults value => change_holds value kinds l
  | _ => Ok (count_command l c)
  end.

Fixpoint issue (l : SettlementLedger) (commands : list command) : res SettlementLedger :=
  match commands with
  | [] => Ok l
  | c :: rest => l' ← issue_one l c; issue l' rest
  end.

(** [new SettlementLedger(fixture, setup)] *)
Definition new_ledger (fx : fixture) : SettlementLedger :=
  {| sl_fixture := fx; sl_hold := gall false; sl_heldStarted := gall 0; sl_released := gall 0; sl_previous := gall 0;
     sl_settled := 0; sl_advanceMs := 0; sl_shiftWallMs := 0; sl_openScopes := 0; sl_effectsSinceObservation := 0 |}.

Definition new_SettlementLedger (fx : fixture) (setup : list command) : res SettlementLedger := issue (new_ledger fx) setup.

Definition workMs (l : SettlementLedger) (observed : observation) : Z :=
  ob_loaders observed * default 0 (sourceWorkMs (sl_fixture l))
  + ob_comparisons observed * default 0 (comparisonMs (sl_fixture l)).

(** One kind of [expected]: the new [#heldStarted]. *)
Definition attribute (l : SettlementLedger) (observed : observation) (g : gate) : Z :=
  gget (sl_heldStarted l) g
  + (if gget (sl_hold l) g then gget (ob_counters observed) g - gget (sl_previous l) g else 0).

Definition gmapped {A} (f : gate -> A) : per_gate A := Gates (f g_read) (f g_write) (f g_dump) (f g_load) (f g_policy).

Definition expected (l : SettlementLedger) (observed : observation) : SettlementLedger * settlementReceipt :=
  ({| sl_fixture := sl_fixture l; sl_hold := sl_hold l; sl_heldStarted := gmapped (attribute l observed);
      sl_released := sl_released l; sl_previous := ob_counters observed; sl_settled := sl_settled l;
      sl_advanceMs := sl_advanceMs l; sl_shiftWallMs := sl_shiftWallMs l; sl_openScopes := sl_openScopes l;
      sl_effectsSinceObservation := 0 |},
   {| elapsedMs := sl_advanceMs l + workMs l observed;
      runnable := 0;
      held := {| held_loaders := ob_loaders observed - sl_settled l;
                 held_effects := gmapped (fun g => attribute l observed g - gget (sl_released l) g);
                 held_scopes := sl_openScopes l |} |}).

Definition wallMs (l : SettlementLedger) (observed : observation) : Z :=
  wallEpochMs + sl_advanceMs l + sl_shiftWallMs l + workMs l observed.

(** The violations, without the numbers they quote. *)
Definition violation (rule : string) : exn := PlainError ("Settlement violation: " +:+ rule).

Definition assertWallClock (l : SettlementLedger) (observed : observation) (environmentWallMs : Z) : res unit :=
  throw_if (negb (environmentWallMs =? wallMs l observed)) (violation "wall clock").

(** The loop over [gateNames], in report order. *)
Definition held_members (h : held_gates) : list Z :=
  [held_loaders h; gget (held_effects h) g_read; gget (held_effects h) g_write; gget (held_effects h) g_dump;
   gget (held_effects h) g_load; gget (held_effects h) g_policy; held_scopes h].

Fixpoint assert_held (reported required : list Z) : res unit :=
  match reported, required with
  | x :: reported', y :: required' => _ ← throw_if (negb (x =? y)) (violation "gates held"); assert_held reported' required'
  | _, _ => Ok tt
  end.

(** [assert]: the rules R2 to R5 in their order; [expected] updates the
    ledger. *)
Definition assert_receipt (l : SettlementLedger) (receipt : settlementReceipt) (observed : observation)
    (environmentWallMs : Z) : res SettlementLedger :=
  let '(l', required) := expected l observed in
  _ ← throw_if (negb (runnable receipt =? 0)) (violation "runnable task(s) at observation");
  _ ← throw_if (negb (elapsedMs receipt =? elapsedMs required)) (violation "monotonic clock");
  _ ← assertWallClock l' observed environmentWallMs;
  _ ← assert_held (held_members (held receipt)) (held_members (held required));
  Ok l'.

(** ** An honest driver *)

(** What happens at a driver between two observations: it runs a command, or
    its library starts an effect, a source or a comparison. *)
Inductive event := Run (c : command) | Started (g : gate) | LoaderStarted | Compared.

Record driver := {
  d_hold : per_gate bool;
  d_open : per_gate Z;      (** gates that are held *)
  d_counters : per_gate Z;
  d_loaders : Z;
  d_openLoaders : Z;
  d_comparisons : Z;
  d_scopes : Z;
  d_elapsed : Z;
  d_wall : Z;
}.

Definition new_driver : driver :=
  {| d_hold := gall false; d_open := gall 0; d_counters := gall 0; d_loaders := 0; d_openLoaders := 0;
     d_comparisons := 0; d_scopes := 0; d_elapsed := 0; d_wall := wallEpochMs |}.

(** Holding is decided when the effect starts; callbacks consume the fixture's
    work on both clocks. *)
Definition drive (fx : fixture) (d : driver) (e : event) : driver :=
  let work := match e with
              | LoaderStarted => default 0 (sourceWorkMs fx)
              | Compared => default 0 (comparisonMs fx)
              | Run (Advance ms) => ms
              | _ => 0
              end in
  {| d_hold := match e with
               | Run (Faults value) => gmapped (fun g => default (gget (d_hold d) g) (gget value g))
               | _ => d_hold d
               end;
     d_open := match e with
               | Run (Release g) => gset (d_open d) g (gget (d_open d) g - 1)
               | Started g => gset (d_open d) g (gget (d_open d) g + (if gget (d_hold d) g then 1 else 0))
               | _ => d_open d
               end;
     d_counters := match e with Started g => gset (d_counters d) g (gget (d_counters d) g + 1) | _ => d_counters d end;
     d_loaders := d_loaders d + (match e with LoaderStarted => 1 | _ => 0 end);
     d_openLoaders := d_openLoaders d + (match e with LoaderStarted => 1 | Run Resolve | Run Reject => -1 | _ => 0 end);
     d_comparisons := d_comparisons d + (match e with Compared => 1 | _ => 0 end);
     d_scopes := d_scopes d + (match e with Run OpenScope => 1 | Run CloseScope => -1 | _ => 0 end);
     d_elapsed := d_elapsed d + work;
     d_wall := d_wall d + work + (match e with Run (ShiftWall ms) | Run (AdvanceWall ms) => ms | _ => 0 end) |}.

Definition drives (fx : fixture) (d : driver) (es : list event) : driver := foldl (drive fx) d es.

Definition observe_driver (d : driver) : observation :=
  {| ob_loaders := d_loaders d; ob_comparisons := d_comparisons d; ob_counters := d_counters d |}.

Definition honest_receipt (d : driver) : settlementReceipt :=
  {| elapsedMs := d_elapsed d; runnable := 0;
     held := {| held_loaders := d_openLoaders d; held_effects := d_open d; held_scopes := d_scopes d |} |}.

(** Effects start only after a command of the interval that can start one: the
    driver was quiescent at the previous observation. *)
Fixpoint causal (armed : bool) (es : list event) : Prop :=
  match es with
  | [] => True
  | Run c :: rest => causal (armed || starts_effects c) rest
  | _ :: rest => armed = true /\ causal armed rest
  end.

Definition commands_of (es : list event) : list command :=
  omap (fun e => match e with Run c => Some c | _ => None end) es.

(** Hold changes lead their interval. *)
Fixpoint holds_lead (armed : bool) (hold : per_gate bool) (cs : list command) : bool :=
  match cs with
  | [] => true
  | Faults value :: rest =>
      let hold' := gmapped (fun g => default (gget hold g) (gget value g)) in
      (negb armed || forallb (fun g => Bool.eqb (gget hold' g) (gget hold g)) kinds) && holds_lead armed hold' rest
  | c :: rest => holds_lead (armed || starts_effects c) hold rest
  end.

(** A session: per observation the events of its interval, the reported
    receipt and the reported wall clock. *)
Fixpoint check_session (fx : fixture) (l : SettlementLedger) (d : driver)
    (history : list (list event * settlementReceipt * Z)) : res unit :=
  match history with
  | [] => Ok tt
  | (es, receipt, wall) :: rest =>
      l1 ← issue l (commands_of es);
      let d1 := drives fx d es in
      l2 ← assert_receipt l1 receipt (observe_driver d1) wall;
      check_session fx l2 d1 rest
  end.

(** What the contract asks of the session. *)
Fixpoint honest_session (fx : fixture) (d : driver) (history : list (list event * settlementReceipt * Z)) : Prop :=
  match history with
  | [] => True
  | (es, receipt, wall) :: rest =>
      let d1 := drives fx d es in
      holds_lead false (d_hold d) (commands_of es) = true /\
      receipt = honest_receipt d1 /\ wall = d_wall d1 /\ honest_session fx d1 rest
  end.

(** ** Lemmas *)

Lemma gset_same {A} (r : per_gate A) g : gset r g (gget r g) = r.
Proof. by destruct r, g. Qed.

Lemma gget_gset {A} (r : per_gate A) g g' x : gget (gset r g x) g' = if decide (g = g') then x else gget r g'.
Proof. by destruct g, g'. Qed.

Lemma gget_gmapped {A} (f : gate -> A) g : gget (gmapped f) g = f g.
Proof. by destruct g. Qed.

Lemma per_gate_ext {A} (r r' : per_gate A) : (forall g, gget r g = gget r' g) -> r = r'.
Proof.
  intros H. pose proof (H g_read). pose proof (H g_write). pose proof (H g_dump). pose proof (H g_load). pose proof (H g_policy).
  destruct r, r'. simpl in *. by subst.
Qed.

Lemma in_kinds g : In g kinds.
Proof. destruct g; cbn; tauto. Qed.

Definition armed (l : SettlementLedger) : bool := 0 <? sl_effectsSinceObservation l.

Definition merged (hold : per_gate bool) (value : per_gate (option bool)) : per_gate bool :=
  gmapped (fun g => default (gget hold g) (gget value g)).

Lemma change_holds_armed value ks l :
  armed l = true ->
  change_holds value ks l =
  if forallb (fun g => Bool.eqb (gget (merged (sl_hold l) value) g) (gget (sl_hold l) g)) ks then Ok l else Err cannot_attribute.
Proof.
  intros Ha. unfold armed in Ha. unfold merged. induction ks as [|g ks IH]; simpl; [done|].
  rewrite gget_gmapped, Ha. destruct (gget value g) as [b|]; simpl.
  - destruct (Bool.eqb b (gget (sl_hold l) g)) eqn:E; simpl; [apply IH|done].
  - rewrite eqb_reflx. apply IH.
Qed.

(** The flags after the loop over [ks]. *)
Definition set_holds (value : per_gate (option bool)) (hold : per_gate bool) (ks : list gate) : per_gate bool :=
  foldl (fun h g => match gget value g with Some b => gset h g b | None => h end) hold ks.

Lemma change_holds_idle value ks l :
  armed l = false -> change_holds value ks l = Ok (with_hold l (set_holds value (sl_hold l) ks)).
Proof.
  unfold armed. revert l. induction ks as [|g ks IH]; intros l Ha; simpl; [by destruct l|].
  rewrite Ha. destruct (gget value g) as [b|]; [|by apply IH].
  destruct (Bool.eqb b (gget (sl_hold l) g)) eqn:E; [|by rewrite IH].
  apply eqb_prop in E as ->. rewrite gset_same. by apply IH.
Qed.

Lemma set_holds_kinds value hold : set_holds value hold kinds = merged hold value.
Proof. destruct value as [[|] [|] [|] [|] [|]], hold; reflexivity. Qed.

Lemma issue_one_faults value l :
  issue_one l (Faults value) =
  if negb (armed l) || forallb (fun g => Bool.eqb (gget (merged (sl_hold l) value) g) (gget (sl_hold l) g)) kinds
  then Ok (with_hold l (merged (sl_hold l) value)) else Err cannot_attribute.
Proof.
  cbn [issue_one]. destruct (armed l) eqn:Ha; cbn [negb orb].
  - rewrite change_holds_armed by done. destruct (forallb _ kinds) eqn:E; [|done]. do 2 f_equal.
    assert (merged (sl_hold l) value = sl_hold l) as ->; [|by destruct l].
    apply per_gate_ext. intros g. rewrite forallb_forall in E. apply eqb_prop, E, in_kinds.
  - by rewrite change_holds_idle, set_holds_kinds.
Qed.

(** The ledger describes the driver. *)
Record tracks (fx : fixture) (l : SettlementLedger) (d : driver) : Prop := {
  tr_fixture : sl_fixture l = fx;
  tr_hold : sl_hold l = d_hold d;
  tr_effects : 0 <= sl_effectsSinceObservation l;
  tr_quiet : armed l = false -> d_counters d = sl_previous l;
  tr_open g : attribute l (observe_driver d) g - gget (sl_released l) g = gget (d_open d) g;
  tr_loaders : d_loaders d - sl_settled l = d_openLoaders d;
  tr_scopes : sl_openScopes l = d_scopes d;
  tr_elapsed : sl_advanceMs l + workMs l (observe_driver d) = d_elapsed d;
  tr_wall : wallMs l (observe_driver d) = d_wall d;
}.

Ltac ledger_arith :=
  unfold armed, attribute, wallMs, workMs, count_command, observe_driver in *;
  cbn [sl_fixture sl_hold sl_heldStarted sl_released sl_previous sl_settled sl_advanceMs sl_shiftWallMs sl_openScopes
       sl_effectsSinceObservation d_hold d_open d_counters d_loaders d_openLoaders d_comparisons d_scopes d_elapsed
       d_wall ob_loaders ob_comparisons ob_counters drive starts_effects with_hold] in *;
  rewrite ?Z.add_0_r in *.

(** A command other than [faults]. *)
Lemma tracks_command fx l d c :
  (forall value, c <> Faults value) -> tracks fx l d -> tracks fx (count_command l c) (drive fx d (Run c)).
Proof.
  intros Hc [Hf Hh He Hq Ho Hl Hs Hel Hw]. split.
  - done.
  - destruct c; try done. by destruct (Hc value).
  - ledger_arith. destruct (starts_effects c); lia.
  - ledger_arith. intros Ha%Z.ltb_ge. apply Hq, Z.ltb_ge. destruct (starts_effects c); lia.
  - intros g. specialize (Ho g). ledger_arith. destruct c; try exact Ho. rewrite !gget_gset.
    destruct (decide (effect = g)) as [->|]; lia.
  - ledger_arith. destruct c; lia.
  - ledger_arith. destruct c; lia.
  - ledger_arith. destruct c; lia.
  - ledger_arith. destruct c; lia.
Qed.

Lemma tracks_faults fx l d value l' :
  tracks fx l d -> issue_one l (Faults value) = Ok l' -> tracks fx l' (drive fx d (Run (Faults value))) /\ armed l' = armed l.
Proof.
  intros [Hf Hh He Hq Ho Hl Hs Hel Hw]. rewrite issue_one_faults.
  destruct (negb (armed l) || _) eqn:E; [|done]. intros [= <-]. split; [|done]. split; try done; ledger_arith.
  - by rewrite Hh.
  - intros g. specialize (Ho g). rewrite <- Ho. do 2 f_equal. unfold merged. rewrite gget_gmapped.
    apply orb_true_iff in E as [Ha%negb_true_iff|E].
    + rewrite (Hq Ha). repeat case_match; lia.
    + rewrite forallb_forall in E. specialize (E g (in_kinds g)). apply eqb_prop in E. unfold merged in E.
      rewrite gget_gmapped in E. by rewrite E.
  - lia.
  - lia.
  - lia.
  - lia.
Qed.

(** What the library starts, once a command allowed it. *)
Lemma tracks_start fx l d e :
  (forall c, e <> Run c) -> armed l = true -> tracks fx l d -> tracks fx l (drive fx d e).
Proof.
  intros Hc Ha [Hf Hh He Hq Ho Hl Hs Hel Hw]. split; try done.
  - by destruct e as [c| | |]; [destruct (Hc c)| | |].
  - congruence.
  - intros g. specialize (Ho g). ledger_arith. destruct e; try exact Ho; [by destruct (Hc c)|].
    rewrite !gget_gset, <- Hh. destruct (decide (g0 = g)) as [->|]; [|lia]. destruct (gget (sl_hold l) g); lia.
  - ledger_arith. destruct e as [c| | |]; [by destruct (Hc c)|lia..].
  - ledger_arith. destruct e as [c| | |]; [by destruct (Hc c)|lia..].
  - ledger_arith. rewrite Hf in *. destruct e as [c| | |]; [by destruct (Hc c)|lia..].
  - ledger_arith. rewrite Hf in *. destruct e as [c| | |]; [by destruct (Hc c)|lia..].
Qed.

Lemma armed_count l c :
  0 <= sl_effectsSinceObservation l -> (forall value, c <> Faults value) ->
  armed (count_command l c) = armed l || starts_effects c.
Proof.
  intros He _. unfold armed, count_command. cbn [sl_effectsSinceObservation].
  destruct (starts_effects c); rewrite ?orb_true_r, ?orb_false_r, ?Z.add_0_r; [|done]. apply Z.ltb_lt. lia.
Qed.

(** The ledger is refused exactly when a hold change does not lead. *)
Lemma issue_leads l cs :
  0 <= sl_effectsSinceObservation l -> is_ok (issue l cs) = holds_lead (armed l) (sl_hold l) cs.
Proof.
  revert l. induction cs as [|c cs IH]; intros l He; [done|]. cbn [issue].
  destruct c as [value|  | | | | | | | | |]; cbn [holds_lead];
    try (cbn [issue_one mbind result_bind]; rewrite IH by (cbn [count_command sl_effectsSinceObservation starts_effects]; lia);
         by rewrite armed_count by done).
  rewrite issue_one_faults. fold (merged (sl_hold l) value).
  destruct (negb (armed l) || _) eqn:E; [|done]. cbn [mbind result_bind andb]. by rewrite IH.
Qed.

Lemma tracks_interval fx l d es l' :
  tracks fx l d -> causal (armed l) es -> issue l (commands_of es) = Ok l' -> tracks fx l' (drives fx d es).
Proof.
  revert l d. induction es as [|e es IH]; intros l d Ht Hc Hi; [by injection Hi as <-|].
  destruct e as [c|g| |]; cbn [causal] in Hc;
    [|destruct Hc as [Ha Hc]; apply (IH l); [by apply tracks_start|done|done]..].
  change (commands_of (Run c :: es)) with (c :: commands_of es) in Hi. cbn [issue] in Hi.
  apply result_bind_ok in Hi as (l1 & H1 & Hi). cbn [drives foldl].
  assert ((exists value, c = Faults value) \/ forall value, c <> Faults value) as [[value ->]|Hv]
    by (destruct c; [left; by eexists|right; done..]).
  - destruct (tracks_faults _ _ _ _ _ Ht H1) as [Ht1 Ha]. apply (IH l1); [done| |done].
    rewrite Ha. cbn [starts_effects] in Hc. by rewrite orb_false_r in Hc.
  - assert (l1 = count_command l c) as -> by (destruct c; simpl in H1; [by destruct (Hv value)|congruence..]).
    apply (IH (count_command l c)); [by apply tracks_command| |done].
    rewrite armed_count; [done| |done]. apply (tr_effects _ _ _ Ht).
Qed.

Lemma assert_held_ok xs ys : length xs = length ys -> assert_held xs ys = Ok tt <-> xs = ys.
Proof.
  revert ys. induction xs as [|x xs IH]; intros [|y ys] Hl; try done. cbn [assert_held]. unfold throw_if.
  destruct (Z.eqb_spec x y) as [->|Hn]; cbn [negb mbind result_bind].
  - rewrite IH by (simpl in Hl; lia). naive_solver.
  - naive_solver.
Qed.

Lemma held_members_inj h h' : held_members h = held_members h' -> h = h'.
Proof. destruct h as [? [] ?], h' as [? [] ?]. cbn. naive_solver. Qed.

Lemma throw_if_eqb x y e : throw_if (negb (x =? y)) e = Ok tt <-> x = y.
Proof. unfold throw_if. destruct (Z.eqb_spec x y); simpl; naive_solver. Qed.

(** An observation of a tracked driver is accepted exactly with its receipt. *)
Lemma assert_receipt_ok fx l d receipt wall l' :
  tracks fx l d ->
  assert_receipt l receipt (observe_driver d) wall = Ok l' <->
  l' = (expected l (observe_driver d)).1 /\ receipt = honest_receipt d /\ wall = d_wall d.
Proof.
  intros [Hf Hh He Hq Ho Hl Hs Hel Hw]. unfold assert_receipt, assertWallClock.
  assert ((expected l (observe_driver d)).2 = honest_receipt d) as Hreq.
  { unfold expected, honest_receipt. cbn [snd]. rewrite Hel, Hs. f_equal. f_equal; [exact Hl|].
    apply per_gate_ext. intros g. by rewrite gget_gmapped. }
  assert (wallMs (expected l (observe_driver d)).1 (observe_driver d) = d_wall d) as Hwall by exact Hw.
  destruct (expected l (observe_driver d)) as [l1 required]. cbn [fst snd] in *. subst required.
  split.
  - intros H. repeat (apply result_bind_ok in H as ([] & ?%throw_if_eqb & H) || apply result_bind_ok in H as ([] & ? & H)).
    injection H as <-. split; [done|]. split; [|by rewrite <- Hwall].
    match goal with Hm : assert_held _ _ = _ |- _ => apply assert_held_ok, held_members_inj in Hm; [|done] end.
    destruct receipt; simpl in *. by subst.
  - intros (-> & -> & ->). cbn [runnable honest_receipt elapsedMs held]. unfold throw_if.
    rewrite !Z.eqb_refl, Hwall, Z.eqb_refl. cbn [negb mbind result_bind].
    by rewrite (proj2 (assert_held_ok _ _ eq_refl) eq_refl).
Qed.

Lemma tracks_observed fx l d : tracks fx l d -> tracks fx (expected l (observe_driver d)).1 d.
Proof.
  intros [Hf Hh He Hq Ho Hl Hs Hel Hw]. split; try done. intros g. rewrite <- Ho. unfold attribute, expected.
  cbn [fst sl_heldStarted sl_hold sl_previous sl_released]. rewrite gget_gmapped. unfold attribute. destruct (gget (sl_hold l) g); lia.
Qed.

Lemma check_session_exact fx l d history :
  tracks fx l d -> armed l = false -> Forall (fun '(es, _, _) => causal false es) history ->
  check_session fx l d history = Ok tt <-> honest_session fx d history.
Proof.
  revert l d. induction history as [|[[es receipt] wall] history IH]; intros l d Ht Ha Hc; [done|].
  apply Forall_cons_1 in Hc as [Hc1 Hc]. cbn [check_session honest_session].
  pose proof (issue_leads l (commands_of es) (tr_effects _ _ _ Ht)) as Hlead.
  rewrite Ha, (tr_hold _ _ _ Ht) in Hlead. rewrite <- Hlead.
  destruct (issue l (commands_of es)) as [l1|e] eqn:Ei; cbn [is_ok mbind result_bind]; [|naive_solver].
  assert (tracks fx l1 (drives fx d es)) as Ht1 by (eapply tracks_interval; [done|by rewrite Ha|done]).
  destruct (assert_receipt l1 receipt (observe_driver (drives fx d es)) wall) as [l2|e] eqn:Er; cbn [mbind result_bind].
  - apply (assert_receipt_ok fx) in Er as (-> & -> & ->); [|done]. rewrite IH; [naive_solver|by apply tracks_observed|done|done].
  - split; [done|]. intros (_ & -> & -> & _).
    rewrite (proj2 (assert_receipt_ok fx l1 (drives fx d es) _ _ _ Ht1) (conj eq_refl (conj eq_refl eq_refl))) in Er. done.
Qed.

Lemma new_tracks fx : tracks fx (new_ledger fx) new_driver.
Proof. split; try done; by intros []. Qed.

(** ** Properties *)

(** C28. The coordinator accepts exactly honest drivers: over any session whose
    effects start only after a command of their interval, and whatever the
    library starts, every receipt is accepted if and only if each reports no
    runnable work, both clocks as advanced by the commands and the fixture's
    callbacks, and the gates really held (decided when each effect started),
    and every hold change leads its interval; any other schedule is refused
    as the ledger's own limit. *)
Theorem settlement_accepts_exactly_honest fx history :
  Forall (fun '(es, _, _) => causal false es) history ->
  check_session fx (new_ledger fx) new_driver history = Ok tt <-> honest_session fx new_driver history.
Proof. by apply check_session_exact; [apply new_tracks|]. Qed.

(** A read started behind a hold, released in the next interval while a slow
    source starts. *)
Lemma settlement_accepts_exactly_honest_witness :
  let fx := {| sourceWorkMs := Some 7; comparisonMs := None |} in
  let hold := Faults (Gates (Some true) None None None None) in
  let first := [Run hold; Run OtherCommand; Started g_read; Run (Advance 10)] in
  let second := [Run (Release g_read); LoaderStarted; Run (ShiftWall (-1000))] in
  let d1 := drives fx new_driver first in
  let d2 := drives fx d1 second in
  let history := [(first, honest_receipt d1, d_wall d1); (second, honest_receipt d2, d_wall d2)] in
  d_elapsed d2 = 17 /\ gget (d_open d1) g_read = 1 /\ check_session fx (new_ledger fx) new_driver history = Ok tt.
Proof.
  split; [reflexivity|]. split; [reflexivity|].
  apply (settlement_accepts_exactly_honest {| sourceWorkMs := Some 7; comparisonMs := None |}).
  - repeat constructor.
  - by repeat split.
Defined.
