(* ===== verification/ReplayText.v ===== *)
(** * The wire format of the conformance replay

    [formal/replay/validation.mjs]: the framing of messages on a byte stream
    ([replayLines]) and the JSON reader that refuses repeated member names
    ([parseJSON]). *)

From S2P Require Import Prelude JsValue Duration Utf8 Config Key Metrics Frame Json JsonText.

(** ** Lines *)

(** What the input stream delivers. *)
Inductive chunk := ChunkBuffer (b : bytes) | ChunkText (s : jsstr).

Definition chunk_bytes (c : chunk) : bytes := match c with ChunkBuffer b => b | ChunkText s => utf8_encode s end.

Definition Oversized : exn := PlainError "Oversized replay frame".
Definition Unterminated : exn := PlainError "Unterminated replay frame".

(** [bytes.indexOf(10)] *)
Fixpoint newline_index (bs : bytes) : option nat :=
  match bs with
  | [] => None
  | b :: rest => if b =? 10 then Some O else S <$> newline_index rest
  end.

(** Where the next fragment ends. *)
Definition fragment_end (bs : bytes) : nat := match newline_index bs with None => length bs | Some i => S i end.

(** The inner loop on the rest of a chunk: the lines it yields, and the
    fragments with their total size, or the error it throws.  Every iteration
    consumes a byte. *)
Fixpoint read_chunk (fuel : nat) (limit : nat) (bs : bytes) (fragments : list bytes) (size : nat) :
    list jsstr * res (list bytes * nat) :=
  match fuel, bs with
  | _, [] => ([], Ok (fragments, size))
  | O, _ => ([], Err (PlainError "out of fuel"))
  | S f, _ =>
      let fragment := take (fragment_end bs) bs in
      let rest := drop (fragment_end bs) bs in
      if (limit <? size + length fragment)%nat then ([], Err Oversized)
      else
        let fragments := fragments ++ [fragment] in
        let size := (size + length fragment)%nat in
        match newline_index bs with
        | None => read_chunk f limit rest fragments size
        | Some _ =>
            let '(lines, r) := read_chunk f limit rest [] 0 in
            (utf8_decode (concat fragments) :: lines, r)
        end
  end.

Fixpoint read_chunks (limit : nat) (input : list chunk) (fragments : list bytes) (size : nat) : list jsstr * res unit :=
  match input with
  | [] => ([], if (size =? 0)%nat then Ok tt else Err Unterminated)
  | c :: rest =>
      let bs := chunk_bytes c in
      match read_chunk (length bs) limit bs fragments size with
      | (lines, Ok (fragments', size')) =>
          let '(more, r) := read_chunks limit rest fragments' size' in (lines ++ more, r)
      | (lines, Err e) => (lines, Err e)
      end
  end.

(** [replayLines(input, limit)]: the lines yielded, and how the generator
    ends. *)
Definition replayLines (limit : nat) (input : list chunk) : list jsstr * res unit := read_chunks limit input [] 0.

(** The default limit. *)
Definition REPLAY_LIMIT : nat := Z.to_nat (64 * 1024 * 1024).

(** ** The stream, byte by byte *)

(** [acc] is the current frame so far. *)
Fixpoint feed (limit : nat) (acc bs : bytes) : list jsstr * res bytes :=
  match bs with
  | [] => ([], Ok acc)
  | b :: rest =>
      if (limit <? length acc + 1)%nat then ([], Err Oversized)
      else if b =? 10 then
        let '(lines, r) := feed limit [] rest in (utf8_decode (acc ++ [b]) :: lines, r)
      else feed limit (acc ++ [b]) rest
  end.

Definition frames (limit : nat) (stream : bytes) : list jsstr * res unit :=
  match feed limit [] stream with
  | (lines, Ok []) => (lines, Ok tt)
  | (lines, Ok _) => (lines, Err Unterminated)
  | (lines, Err e) => (lines, Err e)
  end.

Lemma feed_app limit acc a b :
  feed limit acc (a ++ b) =
  match feed limit acc a with
  | (lines, Ok acc') => let '(more, r) := feed limit acc' b in (lines ++ more, r)
  | (lines, Err e) => (lines, Err e)
  end.
Proof.
  revert acc. induction a as [|x a IH]; intros acc; simpl; [by destruct (feed limit acc b)|].
  destruct (limit <? length acc + 1)%nat; [done|]. destruct (x =? 10); [|apply IH].
  rewrite IH. destruct (feed limit [] a) as [lines [acc'|e]]; [|done]. by destruct (feed limit acc' b).
Qed.

(** A fragment without a newline only grows the frame. *)
Lemma feed_plain limit acc bs :
  Forall (fun b => b <> 10) bs -> bs <> [] ->
  feed limit acc bs = if (limit <? length acc + length bs)%nat then ([], Err Oversized) else ([], Ok (acc ++ bs)).
Proof.
  revert acc. induction bs as [|b bs IH]; intros acc Hbs Hne; [done|]. apply Forall_cons_1 in Hbs as [Hb%Z.eqb_neq Hbs].
  cbn [feed]. rewrite Hb. destruct bs as [|b' bs].
  - cbn [feed length]. by destruct (limit <? length acc + 1)%nat.
  - rewrite IH by done. rewrite <- app_assoc, length_app. cbn [app length].
    destruct (Nat.ltb_spec limit (length acc + 1)); [|by rewrite <- Nat.add_assoc].
    by destruct (Nat.ltb_spec limit (length acc + S (S (length bs)))); [|lia].
Qed.

Lemma feed_line limit acc bs :
  Forall (fun b => b <> 10) bs ->
  feed limit acc (bs ++ [10]) =
  if (limit <? length acc + length bs + 1)%nat then ([], Err Oversized) else ([utf8_decode (acc ++ bs ++ [10])], Ok []).
Proof.
  intros Hbs. destruct (decide (bs = [])) as [->|Hne]; [cbn [app feed length]; rewrite Nat.add_0_r; by destruct (limit <? _)%nat|].
  rewrite feed_app, feed_plain by done.
  destruct (Nat.ltb_spec limit (length acc + length bs)); [by destruct (Nat.ltb_spec limit (length acc + length bs + 1)); [|lia]|].
  cbn [feed]. rewrite length_app, app_assoc. by destruct (limit <? length acc + length bs + 1)%nat.
Qed.

Lemma newline_index_spec bs :
  match newline_index bs with
  | None => Forall (fun b => b <> 10) bs
  | Some i => exists front rest, bs = front ++ 10 :: rest /\ length front = i /\ Forall (fun b => b <> 10) front
  end.
Proof.
  induction bs as [|b bs IH]; simpl; [constructor|]. destruct (Z.eqb_spec b 10) as [->|Hb]; [by exists [], bs|].
  destruct (newline_index bs) as [i|]; simpl; [|by constructor].
  destruct IH as (front & rest & -> & Hl & Hf). exists (b :: front), rest. split; [done|]. split; [simpl; lia|by constructor].
Qed.

(** The chunk loop computes what the byte-wise reading does. *)
Lemma read_chunk_feed limit fuel bs fragments size :
  (length bs <= fuel)%nat -> size = length (concat fragments) ->
  match read_chunk fuel limit bs fragments size with
  | (lines, Ok (fragments', size')) =>
      feed limit (concat fragments) bs = (lines, Ok (concat fragments')) /\ size' = length (concat fragments')
  | (lines, Err e) => feed limit (concat fragments) bs = (lines, Err e)
  end.
Proof.
  revert bs fragments size. induction fuel as [|f IH]; intros [|b bs] fragments size Hf Hs; simpl in Hf;
    [done|lia|done|].
  cbn [read_chunk]. unfold fragment_end. pose proof (newline_index_spec (b :: bs)) as Hn.
  destruct (newline_index (b :: bs)) as [i|].
  - destruct Hn as (front & rest & E & Hl & Hfront). rewrite E.
    assert (take (S i) (front ++ 10 :: rest) = front ++ [10]) as ->.
    { replace (S i) with (length (front ++ [10])) by (rewrite length_app; simpl; lia).
      rewrite (app_assoc _ [10] rest : front ++ 10 :: rest = _). apply take_app_length. }
    assert (drop (S i) (front ++ 10 :: rest) = rest) as ->.
    { replace (S i) with (length (front ++ [10])) by (rewrite length_app; simpl; lia).
      rewrite (app_assoc _ [10] rest : front ++ 10 :: rest = _). apply drop_app_length. }
    rewrite (app_assoc _ [10] rest : front ++ 10 :: rest = _), feed_app, feed_line by done.
    rewrite length_app, Nat.add_assoc, Hs. cbn [length]. destruct (limit <? _)%nat; [done|].
    assert (length rest <= f)%nat as Hr by (apply (f_equal length) in E; rewrite length_app in E; simpl in E; lia).
    pose proof (IH rest [] 0%nat Hr eq_refl) as H. cbn [concat] in H. rewrite concat_app. cbn [concat]. rewrite app_nil_r.
    destruct (read_chunk f limit rest [] 0) as [lines [[fragments' size']|e]]; [destruct H as [-> ->]|rewrite H]; done.
  - rewrite firstn_all, skipn_all, feed_plain by done. rewrite Hs.
    destruct (limit <? _)%nat; [done|]. destruct f; cbn [read_chunk];
      (rewrite concat_app; cbn [concat]; rewrite app_nil_r; split; [done|by rewrite length_app]).
Qed.

Lemma read_chunks_frames limit input fragments size :
  size = length (concat fragments) ->
  read_chunks limit input fragments size =
  match feed limit (concat fragments) (concat (List.map chunk_bytes input)) with
  | (lines, Ok []) => (lines, Ok tt)
  | (lines, Ok _) => (lines, Err Unterminated)
  | (lines, Err e) => (lines, Err e)
  end.
Proof.
  revert fragments size. induction input as [|c input IH]; intros fragments size Hs; cbn [read_chunks List.map concat feed].
  { subst size. by destruct (concat fragments). }
  rewrite feed_app. pose proof (read_chunk_feed limit (length (chunk_bytes c)) (chunk_bytes c) fragments size (le_n _) Hs) as H.
  destruct (read_chunk _ _ _ _ _) as [lines [[fragments' size']|e]]; [destruct H as [-> Hs']|by rewrite H].
  rewrite IH by done. by destruct (feed limit (concat fragments') _) as [more [[]|]].
Qed.

(** ** Properties of the framing *)

(** Reading messages off a stream does not depend on how the bytes arrive:
    for every way of cutting the stream into chunks, within characters too,
    the generator ends, and yields what reading byte by byte with the same
    limit yields, with the same ending. *)
Theorem replay_lines_chunking_independent limit input :
  replayLines limit input = frames limit (concat (List.map chunk_bytes input)).
Proof. unfold replayLines, frames. by rewrite read_chunks_frames. Qed.

Lemma frames_lines limit lines :
  Forall (fun bs => Forall (fun b => b <> 10) bs /\ (length bs + 1 <= limit)%nat) lines ->
  frames limit (concat (List.map (fun bs => bs ++ [10]) lines)) = (List.map (fun bs => utf8_decode (bs ++ [10])) lines, Ok tt).
Proof.
  intros H. unfold frames.
  assert (feed limit [] (concat (List.map (fun bs => bs ++ [10]) lines)) = (List.map (fun bs => utf8_decode (bs ++ [10])) lines, Ok []))
    as ->; [|done].
  induction H as [|bs lines [Hbs Hl] _ IH]; [done|]. cbn [List.map concat]. rewrite feed_app, feed_line by done.
  cbn [length app]. destruct (Nat.ltb_spec limit (0 + length bs + 1)); [lia|]. by rewrite IH.
Qed.

(** UTF-8 keeps line breaks apart from other characters. *)
Lemma utf8_no_newline cs : Forall scalar cs -> Forall (fun c => c <> 10) cs -> Forall (fun b => b <> 10) (cs ≫= utf8_code_point).
Proof.
  induction 1 as [|c cs Hc Hcs IH]; [constructor|]. intros [Hn Hns]%Forall_cons_1. rewrite bind_cons. apply Forall_app.
  split; [|by apply IH]. rewrite utf8_code_point_scalar by done. destruct Hc as [Hc _]. unfold utf8_scalar.
  cmp; repeat constructor; zdm.
Qed.

(** ** Repeated members *)

(** The class [\s] of regular expressions. *)
Definition is_js_space (c : Z) : bool :=
  ((9 <=? c) && (c <=? 13)) || (c =? 32) || (c =? 160) || (c =? 0x1680) || ((0x2000 <=? c) && (c <=? 0x200A))
  || (c =? 0x2028) || (c =? 0x2029) || (c =? 0x202F) || (c =? 0x205F) || (c =? 0x3000) || (c =? 0xFEFF).

(** [space()] *)
Fixpoint space (s : jsstr) : jsstr :=
  match s with
  | c :: r => if is_js_space c then space r else s
  | [] => []
  end.

(** The loop of [quoted], up to the closing quotation mark.  Without one the
    loop does not end: [None]. *)
Fixpoint to_close (s : jsstr) : option (jsstr * jsstr) :=
  match s with
  | [] => None
  | c :: r =>
      if c =? 34 then Some ([], r)
      else if c =? 92 then
        match r with
        | [] => None
        | e :: r' => '(body, rest) ← to_close r'; Some (c :: e :: body, rest)
        end
      else '(body, rest) ← to_close r; Some (c :: body, rest)
  end.

(** [quoted()] at the opening quotation mark: [JSON.parse] of the slice, and
    the text behind it. *)
Definition quoted (s : jsstr) : option (res jsval * jsstr) :=
  match s with
  | [] => None
  | q :: r => '(body, rest) ← to_close r; Some (JSON_parse (q :: body ++ [34]), rest)
  end.

(** [/[\s,\]}]/] *)
Definition ends_scalar (c : Z) : bool := is_js_space c || (c =? 44) || (c =? 93) || (c =? 125).

Fixpoint skip_scalar (s : jsstr) : jsstr :=
  match s with
  | c :: r => if ends_scalar c then s else skip_scalar r
  | [] => []
  end.

Definition DuplicateMember : exn := PlainError "Duplicate JSON member".

Definition starts_with (c : Z) (s : jsstr) : bool := match s with x :: _ => x =? c | [] => false end.

(** [value()], and the loops over members and elements.  The scanner runs on
    a text that [JSON.parse] accepted; [None] is out of fuel or a text it
    would not accept. *)
Fixpoint scan_value (fuel : nat) (s : jsstr) : option (res jsstr) :=
  match fuel with
  | O => None
  | S f =>
      let s := space s in
      if starts_with 34 s then
        '(parsed, rest) ← quoted s;
        Some (match parsed with Ok _ => Ok rest | Err e => Err e end)
      else if starts_with 123 s then
        let r := space (tail s) in
        if starts_with 125 r then Some (Ok (tail r)) else scan_members f [] r
      else if starts_with 91 s then
        let r := space (tail s) in
        if starts_with 93 r then Some (Ok (tail r)) else scan_elements f r
      else Some (Ok (skip_scalar s))
  end
with scan_members (fuel : nat) (seen : list jsstr) (s : jsstr) : option (res jsstr) :=
  match fuel with
  | O => None
  | S f =>
      '(key, r) ← quoted (space s);
      match key with
      | Err e => Some (Err e)
      | Ok (JStr name) =>
          if existsb (str_eqb name) seen then Some (Err DuplicateMember)
          else
            after ← scan_value f (tail (space r));
            match after with
            | Err e => Some (Err e)
            | Ok r =>
                let r := space r in
                if starts_with 44 r then scan_members f (name :: seen) (tail r) else Some (Ok (tail r))
            end
      | Ok _ => None
      end
  end
with scan_elements (fuel : nat) (s : jsstr) : option (res jsstr) :=
  match fuel with
  | O => None
  | S f =>
      after ← scan_value f s;
      match after with
      | Err e => Some (Err e)
      | Ok r =>
          let r := space r in
          if starts_with 44 r then scan_elements f (tail r) else Some (Ok (tail r))
      end
  end.

Definition parseJSON (text : jsstr) : res jsval :=
  parsed ← JSON_parse text;
  match scan_value (parse_fuel text) text with
  | Some (Ok _) => Ok parsed
  | Some (Err e) => Err e
  | None => Err (PlainError "out of fuel")
  end.

(** *** The members as they are written *)

(** A parsed document before members of the same name are merged. *)
Inductive document :=
| DScalar (v : jsval)
| DArray (items : list document)
| DObject (members : list (jsstr * document)).

Fixpoint merge (d : document) : jsval :=
  match d with
  | DScalar v => v
  | DArray items => JArr (List.map merge items)
  | DObject members => JObj (foldl (fun acc '(name, x) => set_property name x acc) [] (List.map (fun '(name, x) => (name, merge x)) members))
  end.

(** Every object names its members differently. *)
Fixpoint unique (d : document) : bool :=
  match d with
  | DScalar _ => true
  | DArray items => forallb unique items
  | DObject members => bool_decide (NoDup (List.map fst members)) && forallb (fun '(_, x) => unique x) members
  end.

Fixpoint read_document (fuel : nat) (s : jsstr) : option (document * jsstr) :=
  match fuel with
  | O => None
  | S f =>
      match skip_ws s with
      | [] => None
      | c :: r =>
          if c =? 123 then
            match strip 125 (skip_ws r) with
            | Some r' => Some (DObject [], r')
            | None => read_members f [] r
            end
          else if c =? 91 then
            match strip 93 (skip_ws r) with
            | Some r' => Some (DArray [], r')
            | None => read_items f [] r
            end
          else if c =? 34 then '(t, rest) ← parse_string r; Some (DScalar (JStr t), rest)
          else if is_digit c || (c =? 45) then
            let '(t, rest) := span is_number_char (c :: r) in
            n ← parse_number t; Some (DScalar (JNum n), rest)
          else '(v, rest) ← parse_literal (c :: r); Some (DScalar v, rest)
      end
  end
with read_members (fuel : nat) (acc : list (jsstr * document)) (s : jsstr) : option (document * jsstr) :=
  match fuel with
  | O => None
  | S f =>
      '(name, r) ← parse_name s;
      '(v, r) ← read_document f r;
      let acc' := acc ++ [(name, v)] in
      match parse_separator 125 r with
      | MoreItems r' => read_members f acc' r'
      | ClosedBy r' => Some (DObject acc', r')
      | BadSeparator => None
      end
  end
with read_items (fuel : nat) (acc : list document) (s : jsstr) : option (document * jsstr) :=
  match fuel with
  | O => None
  | S f =>
      '(v, r) ← read_document f s;
      match parse_separator 93 r with
      | MoreItems r' => read_items f (acc ++ [v]) r'
      | ClosedBy r' => Some (DArray (acc ++ [v]), r')
      | BadSeparator => None
      end
  end.

Definition merge_members (members : list (jsstr * document)) : list (jsstr * jsval) :=
  foldl (fun acc '(name, x) => set_property name x acc) [] (List.map (fun '(name, x) => (name, merge x)) members).

Lemma merge_members_snoc members name d :
  merge_members (members ++ [(name, d)]) = set_property name (merge d) (merge_members members).
Proof. unfold merge_members. by rewrite map_app, foldl_app. Qed.

Definition merged_at {A} (o : option (document * A)) : option (jsval * A) := '(d, rest) ← o; Some (merge d, rest).

(** [JSON.parse] merges the members of the document. *)
Lemma parse_merges f :
  (forall s, parse_value f s = merged_at (read_document f s)) /\
  (forall acc s, parse_members f (merge_members acc) s = merged_at (read_members f acc s)) /\
  (forall acc s, parse_elements f (rev (List.map merge acc)) s = merged_at (read_items f acc s)).
Proof.
  induction f as [|f (IHv & IHm & IHe)]; [done|]. split; [|split].
  - intros s. cbn [parse_value read_document]. destruct (skip_ws s) as [|c r]; [done|].
    destruct (c =? 123); [destruct (strip 125 (skip_ws r)); [done|]; exact (IHm [] r)|].
    destruct (c =? 91); [destruct (strip 93 (skip_ws r)); [done|]; exact (IHe [] r)|].
    destruct (c =? 34); [by destruct (parse_string r) as [[]|]|].
    destruct (is_digit c || (c =? 45)); [|by destruct (parse_literal (c :: r)) as [[]|]].
    destruct (span is_number_char (c :: r)) as [t rest]. by destruct (parse_number t).
  - intros acc s. cbn [parse_members read_members]. destruct (parse_name s) as [[name r]|]; [|done].
    cbn [mbind option_bind]. rewrite IHv. destruct (read_document f r) as [[d r']|]; [|done].
    cbn [merged_at mbind option_bind]. rewrite <- merge_members_snoc. by destruct (parse_separator 125 r').
  - intros acc s. cbn [parse_elements read_items]. rewrite IHv. destruct (read_document f s) as [[d r]|]; [|done].
    cbn [merged_at mbind option_bind].
    assert (merge d :: rev (List.map merge acc) = rev (List.map merge (acc ++ [d]))) as -> by (by rewrite map_app, rev_app_distr).
    destruct (parse_separator 93 r); [done| |done]. by rewrite rev_involutive.
Qed.

(** *** The scanner on accepted texts *)

Definition delimited (rest : jsstr) : Prop := match rest with c :: _ => ends_scalar c = true | [] => True end.

Lemma space_js c : is_space c = true -> is_js_space c = true.
Proof. unfold is_space, is_js_space. lia. Qed.

Lemma space_idem s : space (space s) = space s.
Proof. induction s as [|c s IH]; simpl; [done|]. destruct (is_js_space c) eqn:E; [done|]. simpl. by rewrite E. Qed.

Lemma space_ws s : match skip_ws s with c :: _ => is_js_space c = false | [] => True end -> space s = skip_ws s.
Proof.
  induction s as [|c s IH]; simpl; [done|]. destruct (is_space c) eqn:E; [rewrite space_js by done; apply IH|].
  by intros ->.
Qed.

Lemma space_head c s r : skip_ws s = c :: r -> is_js_space c = false -> space s = c :: r.
Proof. intros E Hc. rewrite <- E. apply space_ws. by rewrite E. Qed.

Lemma strip_ws c s r : strip c (skip_ws s) = Some r -> is_js_space c = false -> space s = c :: r.
Proof. intros E Hc. apply strip_Some in E. by apply space_head. Qed.

Lemma skip_ws_empty s : skip_ws s = [] -> delimited s.
Proof. destruct s as [|c s]; [done|]. simpl. unfold ends_scalar. destruct (is_space c) eqn:E; [|done]. by rewrite space_js. Qed.

Lemma separator_spec close s :
  close = 93 \/ close = 125 ->
  match parse_separator close s with
  | MoreItems r => space s = 44 :: r /\ delimited s
  | ClosedBy r => space s = close :: r /\ delimited s
  | BadSeparator => True
  end.
Proof.
  intros Hclose. unfold parse_separator. destruct (skip_ws s) as [|c r] eqn:E; [done|].
  assert (c = 44 \/ c = close -> delimited s) as Hd.
  { intros Hc. destruct s as [|x s]; [done|]. simpl in E. unfold delimited, ends_scalar.
    destruct (is_space x) eqn:Ex; [by rewrite space_js|]. injection E as -> _. unfold is_js_space. lia. }
  destruct (Z.eqb_spec c 44) as [->|]; [split; [by apply space_head|auto]|].
  destruct (Z.eqb_spec c close) as [->|]; [|done]. split; [|auto]. apply space_head; [done|]. unfold is_js_space. lia.
Qed.

(** The scanner finds the end of every string [JSON.parse] reads, and the
    slice is that string. *)
Lemma to_close_string n r t rest :
  (length r <= n)%nat -> parse_string r = Some (t, rest) ->
  exists body, to_close r = Some (body, rest) /\ parse_string (body ++ [34]) = Some (t, []).
Proof.
  revert r t rest. induction n as [|n IH]; intros [|c r] t rest Hn; [done|simpl in Hn; lia|done|].
  simpl in Hn. cbn [parse_string to_close]. destruct (Z.eqb_spec c 34) as [->|Hc34].
  { intros [= <- <-]. by exists []. }
  destruct (Z.eqb_spec c 92) as [->|Hc92].
  - destruct r as [|e r]; [done|]. destruct (Z.eqb_spec e 117) as [->|He].
    + destruct r as [|h1 [|h2 [|h3 [|h4 r]]]]; try done. destruct (unicode_value h1 h2 h3 h4) as [u|] eqn:Eu; [|done].
      cbn [mbind option_bind]. destruct (parse_string r) as [[t' rest']|] eqn:E; [|done]. intros [= <- <-].
      simpl in Hn. apply IH in E as (body & Eb & Ep); [|lia]. exists (92 :: 117 :: h1 :: h2 :: h3 :: h4 :: body).
      assert (Forall (fun h => h <> 34 /\ h <> 92) [h1; h2; h3; h4]) as Hh.
      { unfold unicode_value in Eu. repeat constructor;
          repeat (match type of Eu with context [hex_digit_value ?h] => destruct (hex_digit_value h) eqn:?; [|done]; cbn [mbind option_bind] in Eu end);
          intros ->; done. }
      rewrite !list.Forall_cons in Hh. destruct Hh as ([? ?] & [? ?] & [? ?] & [? ?] & _).
      cbn [to_close]. repeat match goal with |- context [?h =? ?k] => destruct (Z.eqb_spec h k); [congruence|] end.
      rewrite Eb. cbn [mbind option_bind]. split; [done|]. cbn [app parse_string]. cbn -[parse_string unicode_value].
      rewrite Eu. cbn [mbind option_bind]. by rewrite Ep.
    + destruct (simple_escape e) as [u|] eqn:Eu; [|done]. cbn [mbind option_bind].
      destruct (parse_string r) as [[t' rest']|] eqn:E; [|done]. intros [= <- <-].
      simpl in Hn. apply IH in E as (body & -> & Ep); [|lia]. exists (92 :: e :: body). split; [done|].
      cbn [app parse_string]. cbn -[parse_string]. apply Z.eqb_neq in He as ->. rewrite Eu. cbn [mbind option_bind]. by rewrite Ep.
  - destruct (c <? 32) eqn:Ec; [done|]. destruct (parse_string r) as [[t' rest']|] eqn:E; [|done]. intros [= <- <-].
    apply IH in E as (body & -> & Ep); [|lia]. exists (c :: body). split; [done|]. cbn [app parse_string].
    apply Z.eqb_neq in Hc34 as ->, Hc92 as ->. by rewrite Ec, Ep.
Qed.

Lemma quoted_string r t rest : parse_string r = Some (t, rest) -> quoted (34 :: r) = Some (Ok (JStr t), rest).
Proof.
  intros H. destruct (to_close_string _ _ _ _ (le_n _) H) as (body & Eb & Ep). cbn [quoted]. rewrite Eb. cbn [mbind option_bind].
  do 2 f_equal. unfold JSON_parse, parse_fuel. cbn [length Nat.add Nat.mul]. rewrite Nat.add_comm. cbn -[parse_string].
  by rewrite Ep.
Qed.

Lemma skip_scalar_spec token rest :
  Forall (fun c => ends_scalar c = false) token -> delimited rest -> skip_scalar (token ++ rest) = rest.
Proof.
  intros Ht Hr. induction Ht as [|c token Hc _ IH]; simpl; [|by rewrite Hc].
  destruct rest as [|c rest]; [done|]. simpl in *. by rewrite Hr.
Qed.

Lemma strip_prefix_split p s r : strip_prefix p s = Some r -> s = p ++ r.
Proof.
  revert s. induction p as [|c p IH]; simpl; intros s; [by intros [= ->]|].
  destruct (strip c s) as [s'|] eqn:E; [|done]. apply strip_Some in E as ->. intros H. by rewrite (IH s').
Qed.

Lemma literal_token s v rest :
  parse_literal s = Some (v, rest) -> exists token, s = token ++ rest /\ token <> [] /\ Forall (fun c => ends_scalar c = false) token.
Proof.
  unfold parse_literal. intros H.
  destruct (strip_prefix (js "null") s) as [r|] eqn:E1;
    [|destruct (strip_prefix (js "true") s) as [r|] eqn:E2; [|destruct (strip_prefix (js "false") s) as [r|] eqn:E3; [|done]]];
    injection H as <- <-; eexists; (split; [by apply strip_prefix_split|]); (split; [done|]); by repeat constructor.
Qed.

Lemma number_char_token c : is_number_char c = true -> ends_scalar c = false.
Proof. unfold is_number_char, is_digit, ends_scalar, is_js_space. lia. Qed.

(** What the scanner answers for a document. *)
Definition verdict_of (d : document) (rest : jsstr) : option (res jsstr) :=
  Some (if unique d then Ok rest else Err DuplicateMember).

Lemma scan_members_space f seen s : scan_members f seen (space s) = scan_members f seen s.
Proof. destruct f as [|f]; [done|]. cbn [scan_members]. by rewrite space_idem. Qed.

Lemma scan_elements_space f s : scan_elements f (space s) = scan_elements f s.
Proof. destruct f as [|[|f]]; [done|done|]. cbn [scan_elements scan_value]. by rewrite space_idem. Qed.

(** A document that is neither a container nor a string. *)
Lemma scan_scalar f s c r token rest :
  skip_ws s = c :: r -> c <> 123 -> c <> 91 -> c <> 34 -> c :: r = token ++ rest ->
  Forall (fun x => ends_scalar x = false) token -> token <> [] -> delimited rest ->
  scan_value (S f) s = Some (Ok rest).
Proof.
  intros E H1 H2 H3 Et Htoken Hne Hr. assert (is_js_space c = false) as Hc.
  { destruct token as [|x token]; [done|]. injection Et as <- _. apply Forall_cons_1 in Htoken as [Hx _].
    unfold ends_scalar in Hx. by destruct (is_js_space c). }
  cbn [scan_value]. rewrite (space_head _ _ _ E Hc). cbn [starts_with].
  apply Z.eqb_neq in H1 as ->, H2 as ->, H3 as ->. by rewrite Et, skip_scalar_spec.
Qed.

Lemma unique_snoc acc name d :
  NoDup (List.map fst acc) -> forallb (fun '(_, x) => unique x) acc = true ->
  unique (DObject (acc ++ [(name, d)])) = negb (existsb (str_eqb name) (rev (List.map fst acc))) && unique d.
Proof.
  intros Hnd Hu. cbn [unique]. rewrite map_app, forallb_app, Hu. cbn [List.map forallb]. rewrite andb_true_r.
  cbn [andb]. f_equal. destruct (existsb (str_eqb name) (rev (List.map fst acc))) eqn:E; simpl.
  - apply existsb_exists in E as (x & Hx%in_rev & ->%str_eqb_eq). apply bool_decide_eq_false. intros H.
    apply list.NoDup_app in H as (_ & H & _). apply (H x); [by apply list_elem_of_In|by left].
  - apply bool_decide_eq_true. apply list.NoDup_app. split; [done|]. split; [|apply NoDup_singleton].
    intros x Hx ->%list_elem_of_singleton. rewrite <- not_true_iff_false in E. apply E. apply existsb_exists.
    exists name. split; [by apply in_rev; rewrite rev_involutive; apply list_elem_of_In|by apply str_eqb_eq].
Qed.

(** A repeated name stays repeated as more members are read. *)
Lemma read_members_prefix f acc s d rest :
  read_members f acc s = Some (d, rest) -> exists more, d = DObject (acc ++ more).
Proof.
  revert acc s. induction f as [|f IH]; intros acc s; [done|]. cbn [read_members].
  destruct (parse_name s) as [[name r]|]; [|done]. cbn [mbind option_bind].
  destruct (read_document f r) as [[v r']|]; [|done]. cbn [mbind option_bind].
  destruct (parse_separator 125 r'); [|intros [= <- <-]; by eexists|done].
  intros (more & ->)%IH. rewrite <- app_assoc. by eexists.
Qed.

Lemma read_items_prefix f acc s d rest :
  read_items f acc s = Some (d, rest) -> exists more, d = DArray (acc ++ more).
Proof.
  revert acc s. induction f as [|f IH]; intros acc s; [done|]. cbn [read_items].
  destruct (read_document f s) as [[v r']|]; [|done]. cbn [mbind option_bind].
  destruct (parse_separator 93 r'); [|intros [= <- <-]; by eexists|done].
  intros (more & ->)%IH. rewrite <- app_assoc. by eexists.
Qed.

Lemma unique_prefix acc more : unique (DObject (acc ++ more)) = true -> unique (DObject acc) = true.
Proof.
  cbn [unique]. rewrite map_app, forallb_app, !andb_true_iff, !bool_decide_eq_true, list.NoDup_app. tauto.
Qed.

Lemma unique_object_inv acc :
  unique (DObject acc) = true -> NoDup (List.map fst acc) /\ forallb (fun '(_, x) => unique x) acc = true.
Proof. cbn [unique]. by rewrite andb_true_iff, bool_decide_eq_true. Qed.

(** Reading one more member decides, or leaves the decision to the rest. *)
Lemma object_not_unique f acc s d rest : read_members f acc s = Some (d, rest) -> unique (DObject acc) = false -> unique d = false.
Proof.
  intros (more & ->)%read_members_prefix Hu. apply not_true_iff_false. intros H%unique_prefix. congruence.
Qed.

Lemma array_not_unique f acc s d rest : read_items f acc s = Some (d, rest) -> forallb unique acc = false -> unique d = false.
Proof. intros (more & ->)%read_items_prefix Hu. cbn [unique]. by rewrite forallb_app, Hu. Qed.

(** A document starts with a character that is no space. *)
Lemma read_document_head f s d rest :
  read_document f s = Some (d, rest) -> exists c r, skip_ws s = c :: r /\ is_js_space c = false.
Proof.
  destruct f as [|f]; [done|]. cbn [read_document]. destruct (skip_ws s) as [|c r]; [done|]. intros H. exists c, r. split; [done|].
  destruct (Z.eqb_spec c 123) as [->|]; [done|]. destruct (Z.eqb_spec c 91) as [->|]; [done|].
  destruct (Z.eqb_spec c 34) as [->|]; [done|].
  destruct (is_digit c || (c =? 45)) eqn:E; [unfold is_digit, is_js_space in *; lia|].
  destruct (parse_literal (c :: r)) as [[v rest']|] eqn:El; [|done].
  destruct (literal_token _ _ _ El) as ([|x token] & Et & Hne & Htoken); [done|]. injection Et as <- _.
  apply Forall_cons_1 in Htoken as [Hx _]. unfold ends_scalar in Hx. by destruct (is_js_space c).
Qed.

Lemma scan_documents f :
  (forall s d rest, read_document f s = Some (d, rest) -> delimited rest -> scan_value f s = verdict_of d rest) /\
  (forall acc s d rest, read_members f acc s = Some (d, rest) -> unique (DObject acc) = true ->
     scan_members f (rev (List.map fst acc)) s = verdict_of d rest) /\
  (forall acc s d rest, read_items f acc s = Some (d, rest) -> forallb unique acc = true ->
     scan_elements f s = verdict_of d rest).
Proof.
  induction f as [|f (IHv & IHm & IHe)]; [done|]. split; [|split].
  - intros s d rest. cbn [read_document]. destruct (skip_ws s) as [|c r] eqn:E; [done|]. intros H Hr.
    destruct (Z.eqb_spec c 123) as [->|H1].
    { cbn [scan_value]. rewrite (space_head _ _ _ E) by done. cbn [starts_with tail]. cbn -[scan_members space starts_with].
      destruct (strip 125 (skip_ws r)) as [r'|] eqn:Es.
      - injection H as <- <-. by rewrite (strip_ws _ _ _ Es) by done.
      - assert (starts_with 125 (space r) = false) as ->; [|rewrite scan_members_space; by apply (IHm [])].
        destruct f as [|f]; [done|]. cbn [read_members] in H. unfold parse_name in H.
        destruct (strip 34 (skip_ws r)) as [r1|] eqn:Eq; [|done]. by rewrite (strip_ws _ _ _ Eq). }
    destruct (Z.eqb_spec c 91) as [->|H2].
    { cbn [scan_value]. rewrite (space_head _ _ _ E) by done. cbn [starts_with tail]. cbn -[scan_elements space starts_with].
      destruct (strip 93 (skip_ws r)) as [r'|] eqn:Es.
      - injection H as <- <-. by rewrite (strip_ws _ _ _ Es) by done.
      - assert (starts_with 93 (space r) = false) as ->; [|rewrite scan_elements_space; by apply (IHe [])].
        destruct f as [|f]; [done|]. cbn [read_items] in H.
        destruct (read_document f r) as [[v r']|] eqn:Ev; [|done].
        apply read_document_head in Ev as (c & r1 & Ec & Hc). rewrite (space_head _ _ _ Ec Hc).
        rewrite Ec in Es. cbn [starts_with]. simpl in Es. by destruct (c =? 93). }
    destruct (Z.eqb_spec c 34) as [->|H3].
    { destruct (parse_string r) as [[t rest']|] eqn:Ep; [|done]. injection H as <- <-.
      cbn [scan_value]. rewrite (space_head _ _ _ E) by done. cbn [starts_with]. cbn -[quoted].
      by rewrite (quoted_string _ _ _ Ep). }
    destruct (is_digit c || (c =? 45)) eqn:Ed.
    + destruct (span is_number_char (c :: r)) as [t rest'] eqn:Es. destruct (parse_number t) as [n|] eqn:En; [|done].
      injection H as <- <-. apply span_split in Es as [Es Ht]. eapply scan_scalar; try done.
      * eapply list.Forall_impl; [exact Ht|]. apply number_char_token.
      * by intros ->.
    + destruct (parse_literal (c :: r)) as [[v rest']|] eqn:El; [|done]. injection H as <- <-.
      destruct (literal_token _ _ _ El) as (token & Et & Hne & Htoken). by eapply scan_scalar.
  - intros acc s d rest H Hu. pose proof (unique_object_inv _ Hu) as [Hnd Hall]. cbn [read_members] in H. cbn [scan_members].
    destruct (parse_name s) as [[name r]|] eqn:En; [|done]. cbn [mbind option_bind] in H.
    unfold parse_name in En. destruct (strip 34 (skip_ws s)) as [r1|] eqn:E1; [|done]. cbn [mbind option_bind] in En.
    destruct (parse_string r1) as [[name' r2]|] eqn:E2; [|done]. cbn [mbind option_bind] in En.
    destruct (strip 58 (skip_ws r2)) as [r3|] eqn:E3; [|done]. injection En as -> ->.
    rewrite (strip_ws _ _ _ E1), (quoted_string _ _ _ E2) by done. cbn [mbind option_bind].
    rewrite (strip_ws _ _ _ E3) by done. cbn [tail].
    destruct (read_document f r) as [[v r']|] eqn:Ev; [|done]. cbn [mbind option_bind] in H.
    pose proof (unique_snoc acc name v Hnd Hall) as Hs. pose proof (separator_spec 125 r' ltac:(auto)) as Hsep.
    assert (unique (DObject (acc ++ [(name, v)])) = false -> verdict_of d rest = Some (Err DuplicateMember)) as Hbad.
    { intros Hf. unfold verdict_of. destruct (parse_separator 125 r'); [|by injection H as <- <-; rewrite Hf|done].
      by rewrite (object_not_unique _ _ _ _ _ H Hf). }
    destruct (existsb (str_eqb name) (rev (List.map fst acc))) eqn:Ex; [by rewrite Hbad|]. cbn [negb andb] in Hs.
    destruct (parse_separator 125 r') as [r4|r4|]; [..|done]; destruct Hsep as [Hsp Hd];
      rewrite (IHv _ _ _ Ev Hd); unfold verdict_of at 1; (destruct (unique v) eqn:Euv; cbn [mbind option_bind]; [|by rewrite Hbad]);
      rewrite Hsp.
    + change (starts_with 44 (44 :: r4)) with true. cbn [tail].
      rewrite <- (IHm _ _ _ _ H) by done. by rewrite map_app, rev_app_distr.
    + injection H as <- <-. cbn -[unique]. unfold verdict_of. by rewrite Hs.
  - intros acc s d rest H Hu. cbn [read_items] in H. cbn [scan_elements].
    destruct (read_document f s) as [[v r']|] eqn:Ev; [|done]. cbn [mbind option_bind] in H.
    pose proof (separator_spec 93 r' ltac:(auto)) as Hsep.
    assert (forallb unique (acc ++ [v]) = unique v) as Hs by (rewrite forallb_app, Hu; cbn; by rewrite andb_true_r).
    destruct (parse_separator 93 r') as [r4|r4|]; [..|done]; destruct Hsep as [Hsp Hd];
      rewrite (IHv _ _ _ Ev Hd); unfold verdict_of at 1; (destruct (unique v) eqn:Euv; cbn [mbind option_bind]).
    + rewrite Hsp. change (starts_with 44 (44 :: r4)) with true. cbn [tail]. by apply (IHe _ _ _ _ H).
    + unfold verdict_of. by rewrite (array_not_unique _ _ _ _ _ H Hs).
    + rewrite Hsp. injection H as <- <-. unfold verdict_of. cbn [unique]. by rewrite Hs.
    + injection H as <- <-. unfold verdict_of. cbn [unique]. by rewrite Hs.
Qed.

(** *** Reading whole texts *)

(** The document a text spells. *)
Definition read_text (text : jsstr) : option document :=
  match read_document (parse_fuel text) text with
  | Some (d, rest) => if bool_decide (skip_ws rest = []) then Some d else None
  | None => None
  end.

Lemma JSON_parse_document text :
  JSON_parse text = match read_text text with Some d => Ok (merge d) | None => Err SyntaxError end.
Proof.
  unfold JSON_parse, read_text. rewrite (proj1 (parse_merges _)).
  destruct (read_document (parse_fuel text) text) as [[d rest]|]; [|done]. cbn [merged_at mbind option_bind].
  by destruct (bool_decide (skip_ws rest = [])).
Qed.

Lemma parseJSON_document text :
  parseJSON text =
  match read_text text with
  | Some d => if unique d then Ok (merge d) else Err DuplicateMember
  | None => Err SyntaxError
  end.
Proof.
  unfold parseJSON. rewrite JSON_parse_document. unfold read_text.
  destruct (read_document (parse_fuel text) text) as [[d rest]|] eqn:E; [|done].
  destruct (bool_decide (skip_ws rest = [])) eqn:Er; [|done]. apply bool_decide_eq_true, skip_ws_empty in Er.
  cbn [mbind result_bind]. rewrite (proj1 (scan_documents _) _ _ _ E Er). unfold verdict_of. by destruct (unique d).
Qed.

(** *** Printed values *)

(** The scanner passes over the text of [v]. *)
Definition scans (v : jsval) : Prop :=
  forall t rest f, json_ok v = true -> SerializeJSONProperty v = Some t -> delimited rest ->
  (2 * length t + 1 <= f)%nat -> scan_value f (t ++ rest) = Some (Ok rest).

Lemma delimited_ends rest : delimited rest -> ends_token rest.
Proof.
  destruct rest as [|c rest]; [done|]. simpl. intros H. apply not_true_iff_false. intros Hn%number_char_token. congruence.
Qed.

Lemma printed_reads v t rest f :
  json_ok v = true -> SerializeJSONProperty v = Some t -> delimited rest -> (2 * length t + 1 <= f)%nat ->
  exists d, read_document f (t ++ rest) = Some (d, rest) /\ merge d = v.
Proof.
  intros Hv Et Hr Hf. pose proof (json_reads_back v t rest f Hv Et (delimited_ends _ Hr) Hf) as H.
  rewrite (proj1 (parse_merges f)) in H. destruct (read_document f (t ++ rest)) as [[d rest']|]; [|done].
  injection H as Hm ->. by exists d.
Qed.

Lemma scans_leaf v : match v with JArr _ | JObj _ => False | _ => True end -> scans v.
Proof.
  intros Hleaf t rest f Hv Et Hr Hf. destruct (printed_reads v t rest f Hv Et Hr Hf) as (d & Hd & Hm).
  rewrite (proj1 (scan_documents f) _ _ _ Hd Hr). by destruct d; [|subst v..].
Qed.

(** The first character of a printed value. *)
Lemma printed_head v t rest :
  json_ok v = true -> SerializeJSONProperty v = Some t -> delimited rest ->
  space (t ++ rest) = t ++ rest /\ starts_with 93 (t ++ rest) = false.
Proof.
  intros Hv Et Hr. destruct (printed_reads v t rest _ Hv Et Hr (le_n _)) as (d & Hd & _).
  apply read_document_head in Hd as (c & r & E & Hc).
  destruct (json_text_starts _ _ Hv Et) as (c' & r' & -> & Hs & Hn). cbn [app] in *.
  rewrite skip_ws_nonspace in E by done. injection E as -> _. split; [simpl; by rewrite Hc|]. by apply Z.eqb_neq.
Qed.

Lemma scans_elements items :
  Forall scans items -> forallb json_ok items = true -> items <> [] -> forall rest f,
  let body := join [44] (List.map (fun x => default (js "null") (SerializeJSONProperty x)) items) in
  (2 * length body + 2 <= f)%nat -> scan_elements f (body ++ 93 :: rest) = Some (Ok rest).
Proof.
  intros HF Hok Hnil. induction HF as [|v items Hv HF IH]; [done|]. intros rest f body Hf.
  simpl in Hok. apply andb_true_iff in Hok as [Hokv Hok]. destruct (json_ok_text _ Hokv) as [t Et].
  assert (default (js "null") (SerializeJSONProperty v) = t) as Et' by (by rewrite Et). destruct f as [|f]; [lia|].
  subst body. destruct (decide (items = [])) as [->|Hne]; cbn [List.map] in *.
  - cbn [join] in *. rewrite Et' in *. cbn [scan_elements]. by rewrite (Hv t (93 :: rest)) by token.
  - rewrite join_texts_cons in * by (by destruct items). rewrite Et' in *. rewrite !length_app in Hf. simpl length in Hf.
    cbn [scan_elements]. rewrite <- !app_assoc. cbn [app]. rewrite (Hv t) by token. cbn [mbind option_bind].
    by apply IH; token.
Qed.

Lemma scan_members_step name v t seen f tail :
  scans v -> is_string name = true -> json_ok v = true -> SerializeJSONProperty v = Some t -> delimited tail ->
  name ∉ seen -> (2 * length t + 1 <= f)%nat ->
  scan_members (S f) seen ((QuoteJSONString name ++ 58 :: t) ++ tail) =
  (let r := space tail in if starts_with 44 r then scan_members f (name :: seen) (List.tl r) else Some (Ok (List.tl r))).
Proof.
  intros Hv Hname Hok Et Htail Hseen Hf. cbn [scan_members]. unfold QuoteJSONString. cbn [app]. rewrite <- !app_assoc. cbn [app].
  change (space (34 :: ?x)) with (34 :: x). rewrite (quoted_string _ name (58 :: t ++ tail)).
  2: by apply parse_string_quote, is_string_spec.
  cbn [mbind option_bind].
  assert (existsb (str_eqb name) seen = false) as ->.
  { apply not_true_iff_false. intros (x & Hx & ->%str_eqb_eq)%existsb_exists. by apply Hseen, list_elem_of_In. }
  change (List.tl (space (58 :: ?x))) with x. by rewrite (Hv t tail).
Qed.

Lemma scans_members members :
  Forall (fun m => scans m.2) members ->
  forallb (fun '(name, x) => is_string name && json_ok x) members = true -> members <> [] ->
  forall seen rest f, NoDup (rev seen ++ List.map fst members) ->
  let body := join [44] (flat_map member_text members) in
  (2 * length body + 2 <= f)%nat -> scan_members f seen (body ++ 125 :: rest) = Some (Ok rest).
Proof.
  intros HF Hok Hnil. induction HF as [|[name v] members Hv HF IH]; [done|]. intros seen rest f Hnd body Hf.
  simpl in Hok. rewrite !andb_true_iff in Hok. destruct Hok as [[Hname Hokv] Hok].
  destruct (json_ok_text _ Hokv) as [t Et].
  assert (name ∉ seen) as Hseen.
  { apply list.NoDup_app in Hnd as (_ & Hnd & _). intros Hs. apply (Hnd name); [|by left].
    apply list_elem_of_In, in_rev. rewrite rev_involutive. by apply list_elem_of_In. }
  destruct f as [|f]; [lia|]. subst body. cbn [flat_map] in *. unfold member_text at 1. unfold member_text at 1 in Hf.
  rewrite Et in *. cbn [app] in *. destruct (decide (members = [])) as [->|Hne].
  - cbn [flat_map join] in *. rewrite length_app in Hf. simpl length in Hf. by rewrite (scan_members_step _ v) by token.
  - rewrite join_texts_cons in *.
    2,3: destruct members as [|[n' v'] members]; [done|]; simpl; simpl in Hok; rewrite !andb_true_iff in Hok;
         destruct (json_ok_text v') as [t' ->]; tauto || done.
    rewrite !length_app in Hf. simpl length in Hf. rewrite <- app_assoc, (scan_members_step _ v) by token.
    rewrite <- app_assoc. cbn [app]. apply IH; try done; [|lia].
    cbn [rev]. rewrite <- app_assoc. exact Hnd.
Qed.

Lemma scan_value_array f r :
  scan_value (S f) (91 :: r) = if starts_with 93 (space r) then Some (Ok (List.tl (space r))) else scan_elements f (space r).
Proof. done. Qed.

Lemma scan_value_object f r :
  scan_value (S f) (123 :: r) = if starts_with 125 (space r) then Some (Ok (List.tl (space r))) else scan_members f [] (space r).
Proof. done. Qed.

Lemma scans_all v : scans v.
Proof.
  induction v as [v Hv|items HF|members HF] using jsval_deep_ind; [by apply scans_leaf|..];
    intros t rest f Hok Et Hr Hf; injection Et as <-; (destruct f as [|f]; [simpl in Hf; lia|]).
  - destruct items as [|v items]; [done|]. cbn [app] in Hf |- *; rewrite length_cons, length_app in Hf.
    rewrite <- app_assoc. cbn [app]. rewrite scan_value_array.
    simpl in Hok. pose proof Hok as [Hv _]%andb_true_iff. destruct (json_ok_text _ Hv) as [t Et].
    assert (exists tail, join [44] (List.map (fun x => default (js "null") (SerializeJSONProperty x)) (v :: items)) ++ 93 :: rest
              = t ++ tail /\ delimited tail) as (tl & E & Htl).
    { cbn [List.map]. rewrite Et. cbn [default]. destruct items as [|v' items]; [by eexists|].
      rewrite join_texts_cons by done. rewrite <- !app_assoc. by eexists. }
    rewrite E. destruct (printed_head v t tl Hv Et Htl) as [-> ->]. rewrite <- E. apply scans_elements; try done.
    simpl length in *. lia.
  - destruct members as [|[name v] members]; [done|].
    set (body := join [44] (flat_map member_text ((name, v) :: members))).
    change (2 * length (123%Z :: body ++ [125%Z]) + 1 <= S f)%nat in Hf.
    change (scan_value (S f) ((123 :: body ++ [125]) ++ rest) = Some (Ok rest)).
    apply andb_true_iff in Hok as [Hord Hok]. rewrite length_cons, length_app in Hf. cbn [length] in Hf.
    pose proof (scans_members _ HF Hok ltac:(done) [] rest f (names_ordered_NoDup _ Hord) ltac:(fold body; lia)) as Hm. fold body in Hm.
    assert (starts_with 125 (space (body ++ 125 :: rest)) = false) as Hs.
    { simpl in Hok. rewrite !andb_true_iff in Hok. destruct Hok as [[_ Hv] _]. destruct (json_ok_text _ Hv) as [t Et].
      subst body. cbn [flat_map]. unfold member_text at 1. rewrite Et. cbn [app]. by destruct (flat_map _ members). }
    clearbody body. cbn [app]. rewrite <- app_assoc. cbn [app]. by rewrite scan_value_object, Hs, scan_members_space.
Qed.

(** A printed value reads back through [parseJSON], whatever follows it. *)
Lemma parseJSON_printed v t rest :
  json_ok v = true -> SerializeJSONProperty v = Some t -> skip_ws rest = [] -> parseJSON (t ++ rest) = Ok v.
Proof.
  intros Hv Et Hr. pose proof (skip_ws_empty _ Hr) as Hd.
  assert (2 * length t + 1 <= parse_fuel (t ++ rest))%nat as Hf by (unfold parse_fuel; rewrite length_app; lia).
  destruct (printed_reads v t rest _ Hv Et Hd Hf) as (d & Ed & Hm).
  unfold parseJSON. rewrite JSON_parse_document. unfold read_text. rewrite Ed, bool_decide_eq_true_2, Hm by done.
  cbn [mbind result_bind]. by rewrite (scans_all v t rest).
Qed.

(** ** Properties of messages *)

(** The reader refuses exactly the texts that repeat a member name: it
    terminates on every text, gives [JSON.parse]'s error where that refuses,
    and otherwise accepts the document, as [JSON.parse] builds it, if no
    object of it names two members alike (names compared after unescaping),
    and throws if one does. *)
Theorem parseJSON_refuses_exactly_duplicates text :
  JSON_parse text = (match read_text text with Some d => Ok (merge d) | None => Err SyntaxError end) /\
  parseJSON text =
  match read_text text with
  | Some d => if unique d then Ok (merge d) else Err DuplicateMember
  | None => Err SyntaxError
  end.
Proof. split; [apply JSON_parse_document|apply parseJSON_document]. Qed.

(** One message as both sides write it: its JSON text and a line break. *)
Definition message_bytes (v : jsval) : bytes := utf8_encode (default [] (SerializeJSONProperty v)) ++ [10].

(** The bytes of a message's text are free of line breaks. *)
Lemma message_line v :
  json_ok v = true ->
  Forall (fun b => b <> 10) (utf8_encode (default [] (SerializeJSONProperty v))) /\
  utf8_decode (message_bytes v) = default [] (SerializeJSONProperty v) ++ [10].
Proof.
  intros Hv. destruct (json_ok_text v Hv) as [t Et]. unfold message_bytes. rewrite Et. change (default [] (Some t)) with t.
  pose proof (text_printable v t (json_ok_strings v Hv) Et) as Hp.
  destruct (json_text_scalar v t Hv Et) as (cs & Hcs & ->). unfold utf8_encode. rewrite code_points_units by done.
  assert (Forall (fun c => c <> 10) cs) as Hn.
  { rewrite list.Forall_forall in Hp |- *. intros c Hc ->. enough (32 <= 10) by lia. apply Hp. unfold units.
    apply list_elem_of_bind. by exists 10; split; [left|]. }
  split; [by apply utf8_no_newline|].
  change [10] with (utf8_code_point 10 ++ []) at 1.
  assert ((cs ≫= utf8_code_point) ++ utf8_code_point 10 ++ [] = utf8_encode (units (cs ++ [10]))) as ->.
  { unfold utf8_encode. rewrite code_points_units by (apply Forall_app; split; [done|by repeat constructor]). by rewrite bind_app. }
  assert (scalar_text (units (cs ++ [10]))) as [Hu Hw]%scalar_text_ok.
  { eexists. split; [|done]. apply Forall_app. split; [done|by repeat constructor]. }
  rewrite utf8_decode_encode by done. unfold units. by rewrite bind_app.
Qed.

(** A conversation crosses the wire intact: messages written one per line
    are read back as they were, each once and in order, however the stream
    cuts their bytes, as long as each fits the limit, and the reader ends
    cleanly. *)
Theorem replay_messages_roundtrip limit vs input :
  Forall (fun v => json_ok v = true /\ (length (message_bytes v) <= limit)%nat) vs ->
  concat (List.map chunk_bytes input) = concat (List.map message_bytes vs) ->
  exists lines, replayLines limit input = (lines, Ok tt) /\ List.map parseJSON lines = List.map Ok vs.
Proof.
  intros HF Hin. unfold replayLines. rewrite read_chunks_frames by done. cbn [concat]. rewrite Hin. fold (frames limit (concat (List.map message_bytes vs))).
  pose proof (frames_lines limit (List.map (fun v => utf8_encode (default [] (SerializeJSONProperty v))) vs)) as Hf.
  rewrite !map_map in Hf. fold message_bytes in Hf. change (fun x => utf8_encode (default [] (SerializeJSONProperty x)) ++ [10]) with message_bytes in Hf.
  rewrite Hf.
  - eexists. split; [done|]. rewrite map_map. clear Hin Hf. induction HF as [|v vs [Hv _] _ IH]; [done|]. cbn [List.map]. f_equal; [|done].
    fold (message_bytes v). rewrite (proj2 (message_line v Hv)). destruct (json_ok_text v Hv) as [t Et]. rewrite Et.
    by apply parseJSON_printed.
  - apply List.Forall_map. eapply list.Forall_impl; [exact HF|]. simpl. intros v [Hv Hl]. split; [by apply message_line|].
    unfold message_bytes in Hl. rewrite length_app in Hl. simpl in Hl. lia.
Qed.

(** Two messages, cut inside a two-byte character and inside a line. *)
Lemma replay_messages_roundtrip_witness :
  exists lines,
    replayLines 16
      [ChunkBuffer [34; 195]; ChunkBuffer [169; 34; 10; 123]; ChunkText (34 :: js "ok" ++ [34; 58]); ChunkBuffer [116; 114; 117; 101; 125; 10]] =
    (lines, Ok tt) /\ List.map parseJSON lines = [Ok (JStr [233]); Ok (JObj [(js "ok", JBool true)])].
Proof.
  apply (replay_messages_roundtrip 16 [JStr [233]; JObj [(js "ok", JBool true)]]).
  - repeat constructor; try reflexivity; vm_compute; lia.
  - reflexivity.
Defined.
