(* ===== verification/Coordinator.v ===== *)
(** * The replay coordinator

    [formal/replay/coordinator.mjs]: the sessions in which a driver reports
    observations and receives its next commands.  A binding (bindings.mjs)
    is a record of what the coordinator calls; the JSON schema checks are
    predicates on messages; the ledger is that of [Settlement.v]. *)

From S2P Require Import Prelude JsValue Settlement.

(** How the settlement contract is checked for a session. *)
Inductive settlement_mode := mode_receipt | mode_wallClock | mode_none.

(** The outcome of [binding.assert]: passed, an assertion that compared two
    complete records, another assertion, or another error. *)
Inductive assertion := Passed | Mismatch (paths : list jsstr) | PartialAssertion | AssertFailed.

Section coordinator.
  (** Observations and commands as they cross the wire, what the ledger reads
      of them, and the JSON schema of commands. *)
  Context {O C : Type} (counters : O -> observation) (ledger_view : C -> command) (command_ok : C -> bool).

Record binding := {
  bd_actions : list jsval;                                    (** trace.steps.map(step => step.action) *)
  bd_fixture : fixture;
  bd_setup : list C;
  bd_settlement : settlement_mode;
  bd_wellformed : O -> bool;                                  (** schemaViolation on the observation *)
  bd_commands : nat -> O -> Z -> res (list C);
  bd_assert : nat -> O -> assertion;
}.

(** [trace.steps.length] *)
Definition bd_steps (b : binding) : nat := length (bd_actions b).

Record recording := {
  rec_divergences : list (nat * list jsstr);
  rec_completed : bool;
  rec_lastStep : Z;
  rec_error : option exn;
}.

Record session := {
  ss_binding : binding;
  ss_index : nat;
  ss_ledger : option SettlementLedger;
  ss_recording : option recording;
}.

(** Sessions are named by the number they were given. *)
Record ReplayCoordinator := {
  co_sessions : gmap nat session;
  co_nextSession : nat;
  co_lastRequest : Z;
  co_record : bool;
  co_recordings : gmap nat recording;
  co_emitted : list recording;                                (** calls of [onRecord] *)
}.

Definition new_ReplayCoordinator (record : bool) : ReplayCoordinator :=
  {| co_sessions := ∅; co_nextSession := 0; co_lastRequest := 0; co_record := record; co_recordings := ∅; co_emitted := [] |}.

(** A receipt as the request carries it: its shape may be wrong. *)
Inductive receipt_member := BadReceipt | GoodReceipt (r : settlementReceipt).

Inductive request :=
| Profiles
| Prepare (bound : res binding)                               (** reading and [bindTrace] *)
| Discard (sid : nat)
| Observe (sid : nat) (index : nat) (observed : O) (environmentWallMs : Z) (receipt : option receipt_member).

Inductive response :=
| ProfilesReply
| Prepared (sid : nat) (setup : list C) (actions : list jsval) (steps : nat)
| Discarded
| Complete (steps : nat)
| Next (index : nat) (inputs : list C).

  Context (request_ok : request -> bool) (response_ok : response -> bool).

Definition error (text : string) : exn := PlainError text.

Definition set_sessions (c : ReplayCoordinator) (m : gmap nat session) : ReplayCoordinator :=
  {| co_sessions := m; co_nextSession := co_nextSession c; co_lastRequest := co_lastRequest c; co_record := co_record c;
     co_recordings := co_recordings c; co_emitted := co_emitted c |}.

Definition finish (c : ReplayCoordinator) (sid : nat) (completed : bool) (e : option exn) : ReplayCoordinator :=
  let c' := set_sessions c (delete sid (co_sessions c)) in
  match co_sessions c !! sid ≫= ss_recording with
  | None => c'
  | Some r =>
      let record := {| rec_divergences := rec_divergences r; rec_completed := completed; rec_lastStep := rec_lastStep r; rec_error := e |} in
      {| co_sessions := co_sessions c'; co_nextSession := co_nextSession c'; co_lastRequest := co_lastRequest c';
         co_record := co_record c'; co_recordings := <[sid := record]> (co_recordings c'); co_emitted := co_emitted c' ++ [record] |}
  end.

Definition abort (c : ReplayCoordinator) (sid : nat) (e : exn) : ReplayCoordinator :=
  match co_sessions c !! sid with None => c | Some _ => finish c sid false (Some e) end.

(** The settlement check of an observation: the ledger it leaves. *)
Definition check_settlement (b : binding) (ledger : option SettlementLedger) (receipt : option receipt_member)
    (observed : O) (wall : Z) : res (option SettlementLedger) :=
  match receipt with
  | Some r =>
      match bd_settlement b with
      | mode_receipt =>
          match r, ledger with
          | BadReceipt, _ => Err (error "Malformed settlement receipt")
          | GoodReceipt r, Some l => l' ← assert_receipt l r (counters observed) wall; Ok (Some l')
          | GoodReceipt _, None => Err (error "ledger is undefined")
          end
      | _ => Err (error "Unexpected settlement receipt")
      end
  | None =>
      match bd_settlement b with
      | mode_receipt => Err (error "Missing settlement receipt")
      | _ =>
          match ledger with
          | Some l => _ ← assertWallClock l (counters observed) wall; Ok ledger
          | None => Ok None
          end
      end
  end.

(** [binding.assert] with its handler: the recording it leaves. *)
Definition compare (b : binding) (index : nat) (observed : O) (r : option recording) : res (option recording) :=
  match bd_assert b index observed with
  | Passed => Ok r
  | AssertFailed => Err (error "assertion infrastructure")
  | PartialAssertion =>
      match r with
      | Some _ => Err (error "Observation projection assertion did not compare a complete record")
      | None => Err (error "Observation mismatch")
      end
  | Mismatch paths =>
      match r with
      | Some r => Ok (Some {| rec_divergences := rec_divergences r ++ [(index, paths)]; rec_completed := rec_completed r;
                              rec_lastStep := rec_lastStep r; rec_error := rec_error r |})
      | None => Err (error "Observation mismatch")
      end
  end.

Definition with_lastStep (index : nat) (r : option recording) : option recording :=
  (fun r => {| rec_divergences := rec_divergences r; rec_completed := rec_completed r; rec_lastStep := Z.of_nat index;
               rec_error := rec_error r |}) <$> r.

(** The checks of an observation, up to the comparison. *)
Definition check_observation (s : session) (index : nat) (observed : O) (wall : Z) (receipt : option receipt_member) :
    res (option SettlementLedger * option recording) :=
  let b := ss_binding s in
  _ ← throw_if (negb (index =? ss_index s)%nat) (error "Duplicate or skipped replay observation");
  _ ← throw_if (negb (bd_wellformed b observed)) (error "Malformed replay observation");
  ledger ← check_settlement b (ss_ledger s) receipt observed wall;
  r ← compare b (ss_index s) observed (ss_recording s);
  Ok (ledger, with_lastStep (ss_index s) r).

(** The commands of the next step, recorded in the ledger. *)
Definition next_commands (b : binding) (index : nat) (observed : O) (wall : Z) (ledger : option SettlementLedger) :
    res (list C * option SettlementLedger) :=
  inputs ← bd_commands b index observed wall;
  _ ← throw_if (negb (forallb command_ok inputs)) (error "Malformed replay command");
  _ ← throw_if (match inputs with [] => true | _ => false end) (error "Replay action produced no command");
  match ledger with
  | Some l => l' ← issue l (List.map ledger_view inputs); Ok (inputs, Some l')
  | None => Ok (inputs, None)
  end.

Definition put_session (c : ReplayCoordinator) (sid : nat) (s : session) : ReplayCoordinator :=
  set_sessions c (<[sid := s]> (co_sessions c)).

(** [observe], the [try] and its [catch].  What the checks and the comparison
    left in the session is there when a later step throws. *)
Definition dispatch_observe (c : ReplayCoordinator) (sid index : nat) (observed : O) (wall : Z)
    (receipt : option receipt_member) : ReplayCoordinator * res response :=
  match co_sessions c !! sid with
  | None => (c, Err (error "Unknown replay session"))
  | Some s =>
      let b := ss_binding s in
      match check_observation s index observed wall receipt with
      | Err e => (finish c sid false (Some e), Err e)
      | Ok (ledger, r) =>
          let next := S (ss_index s) in
          if (next =? bd_steps b)%nat then
            let c1 := put_session c sid {| ss_binding := b; ss_index := ss_index s; ss_ledger := ledger; ss_recording := r |} in
            (finish c1 sid true None, Ok (Complete (bd_steps b)))
          else
            let c1 := put_session c sid {| ss_binding := b; ss_index := next; ss_ledger := ledger; ss_recording := r |} in
            match next_commands b next observed wall ledger with
            | Err e => (finish c1 sid false (Some e), Err e)
            | Ok (inputs, ledger') =>
                (put_session c1 sid {| ss_binding := b; ss_index := next; ss_ledger := ledger'; ss_recording := r |},
                 Ok (Next next inputs))
            end
      end
  end.

Definition fresh_recording : recording :=
  {| rec_divergences := []; rec_completed := false; rec_lastStep := -1; rec_error := None |}.

(** [#dispatch] *)
Definition dispatch_request (c : ReplayCoordinator) (r : request) : ReplayCoordinator * res response :=
  match r with
  | Profiles => (c, Ok ProfilesReply)
  | Prepare (Err e) => (c, Err e)
  | Prepare (Ok b) =>
      let sid := S (co_nextSession c) in
      let c1 := {| co_sessions := co_sessions c; co_nextSession := sid; co_lastRequest := co_lastRequest c;
                   co_record := co_record c; co_recordings := co_recordings c; co_emitted := co_emitted c |} in
      match (match bd_settlement b with
             | mode_none => Ok None
             | _ => l ← new_SettlementLedger (bd_fixture b) (List.map ledger_view (bd_setup b)); Ok (Some l)
             end) with
      | Err e => (c1, Err e)
      | Ok ledger =>
          (put_session c1 sid {| ss_binding := b; ss_index := 0; ss_ledger := ledger;
                                 ss_recording := if co_record c then Some fresh_recording else None |},
           Ok (Prepared sid (bd_setup b) (bd_actions b) (bd_steps b)))
      end
  | Discard sid =>
      match co_sessions c !! sid with
      | None => (c, Err (error "Unknown replay session"))
      | Some _ => (abort c sid (error "Replay discarded before observation"), Ok Discarded)
      end
  | Observe sid index observed wall receipt => dispatch_observe c sid index observed wall receipt
  end.

Definition set_lastRequest (c : ReplayCoordinator) (id : Z) : ReplayCoordinator :=
  {| co_sessions := co_sessions c; co_nextSession := co_nextSession c; co_lastRequest := id; co_record := co_record c;
     co_recordings := co_recordings c; co_emitted := co_emitted c |}.

(** [dispatch]: both schema checks and the order of the request ids. *)
Definition dispatch (c : ReplayCoordinator) (id : Z) (r : request) : ReplayCoordinator * res response :=
  if negb (request_ok r) then (c, Err (error "Malformed replay request"))
  else if id <=? co_lastRequest c then (c, Err (error "Duplicate or out-of-order replay request"))
  else
    let '(c', result) := dispatch_request (set_lastRequest c id) r in
    match result with
    | Ok reply => (c', if response_ok reply then Ok reply else Err (error "Malformed replay response"))
    | Err e => (c', Err e)
    end.

(** ** What the coordinator sent and accepted *)

(** One accepted observation: the commands sent before it, the step it says
    it belongs to, and what it reports. *)
Record entry := { en_sent : list C; en_index : nat; en_observed : O; en_wall : Z; en_receipt : option receipt_member }.

(** Per session: the history it was prepared with, the commands sent since the
    last accepted observation, and the accepted observations. *)
Abbreviation logs := (gmap nat (binding * list C * list entry)).

Definition inputs_of (reply : response) : list C := match reply with Next _ inputs => inputs | _ => [] end.

Definition log_dispatch (r : request) (result : res response) (log : logs) : logs :=
  match r, result with
  | Prepare (Ok b), Ok (Prepared sid setup _ _) => <[sid := (b, setup, [])]> log
  | Observe sid index observed wall receipt, Ok reply =>
      alter (fun '(b, sent, es) =>
               (b, inputs_of reply,
                es ++ [{| en_sent := sent; en_index := index; en_observed := observed; en_wall := wall; en_receipt := receipt |}])) sid log
  | _, _ => log
  end.

(** Requests served by one coordinator, in order. *)
Inductive replays : ReplayCoordinator -> logs -> Prop :=
| replays_new record : replays (new_ReplayCoordinator record) ∅
| replays_refused c log id r : replays c log -> negb (request_ok r) || (id <=? co_lastRequest c) = true -> replays (dispatch c id r).1 log
| replays_dispatch c log id r :
    replays c log -> request_ok r = true -> co_lastRequest c < id ->
    replays (dispatch c id r).1 (log_dispatch r (dispatch_request (set_lastRequest c id) r).2 log)
| replays_abort c log sid e : replays c log -> replays (abort c sid e) log.

(** The differences found, step by step. *)
Fixpoint mismatches (b : binding) (i : nat) (es : list entry) : list (nat * list jsstr) :=
  match es with
  | [] => []
  | e :: rest =>
      (match bd_assert b i (en_observed e) with Mismatch paths => [(i, paths)] | _ => [] end) ++ mismatches b (S i) rest
  end.

(** Every step's record was sent for that step, well-formed and compared with
    the prediction. *)
Fixpoint compared (b : binding) (record : bool) (i : nat) (es : list entry) : Prop :=
  match es with
  | [] => True
  | e :: rest =>
      en_index e = i /\ bd_wellformed b (en_observed e) = true /\
      match bd_assert b i (en_observed e) with Passed => True | Mismatch _ => record = true | _ => False end /\
      compared b record (S i) rest
  end.

(** The settlement checks of accepted observations. *)
Fixpoint settled (b : binding) (ledger : option SettlementLedger) (es : list entry) : res (option SettlementLedger) :=
  match es with
  | [] => Ok ledger
  | e :: rest =>
      l1 ← (match ledger with Some l => l' ← issue l (List.map ledger_view (en_sent e)); Ok (Some l') | None => Ok None end);
      l2 ← check_settlement b l1 (en_receipt e) (en_observed e) (en_wall e);
      settled b l2 rest
  end.

Definition first_ledger (b : binding) : option SettlementLedger :=
  match bd_settlement b with mode_none => None | _ => Some (new_ledger (bd_fixture b)) end.

Definition issue_option (ledger : option SettlementLedger) (sent : list C) : res (option SettlementLedger) :=
  match ledger with Some l => l' ← issue l (List.map ledger_view sent); Ok (Some l') | None => Ok None end.

(** A session agrees with its log. *)
Record tracked (record : bool) (s : session) (sent : list C) (es : list entry) : Prop := {
  tk_index : length es = ss_index s;
  tk_record : match ss_recording s with Some _ => true | None => false end = record;
  tk_divergences r : ss_recording s = Some r -> rec_divergences r = mismatches (ss_binding s) 0 es;
  tk_compared : compared (ss_binding s) record 0 es;
  tk_ledger : exists l, settled (ss_binding s) (first_ledger (ss_binding s)) es = Ok l /\ issue_option l sent = Ok (ss_ledger s);
}.

Definition consistent (c : ReplayCoordinator) (log : logs) : Prop :=
  (forall sid, (co_nextSession c < sid)%nat -> co_sessions c !! sid = None) /\
  forall sid s, co_sessions c !! sid = Some s -> exists sent es, log !! sid = Some (ss_binding s, sent, es) /\ tracked (co_record c) s sent es.

Lemma mismatches_snoc b i es e :
  mismatches b i (es ++ [e]) =
  mismatches b i es ++ (match bd_assert b (i + length es) (en_observed e) with Mismatch paths => [((i + length es)%nat, paths)] | _ => [] end).
Proof.
  revert i. induction es as [|x es IH]; intros i; simpl; [by rewrite Nat.add_0_r, app_nil_r|].
  rewrite IH, <- app_assoc, Nat.add_succ_r. done.
Qed.

Lemma compared_snoc b record i es e :
  compared b record i (es ++ [e]) <->
  compared b record i es /\ en_index e = (i + length es)%nat /\ bd_wellformed b (en_observed e) = true /\
  match bd_assert b (i + length es) (en_observed e) with Passed => True | Mismatch _ => record = true | _ => False end.
Proof.
  revert i. induction es as [|x es IH]; intros i; simpl; [rewrite Nat.add_0_r; tauto|].
  rewrite IH, Nat.add_succ_r. simpl. tauto.
Qed.

Lemma settled_snoc b ledger es e :
  settled b ledger (es ++ [e]) =
  (l ← settled b ledger es; l1 ← issue_option l (en_sent e); check_settlement b l1 (en_receipt e) (en_observed e) (en_wall e)).
Proof.
  revert ledger. induction es as [|x es IH]; intros ledger; cbn [app settled].
  - fold (issue_option ledger (en_sent e)). cbn [mbind result_bind]. destruct (issue_option ledger (en_sent e)) as [l1|]; [|done].
    cbn [mbind result_bind]. by destruct (check_settlement b l1 _ _ _).
  - destruct (match ledger with Some l => _ | None => _ end) as [l1|]; [|done]. cbn [mbind result_bind].
    destruct (check_settlement b l1 _ _ _) as [l2|]; [|done]. cbn [mbind result_bind]. apply IH.
Qed.

(** An accepted observation extends the log of its session. *)
Lemma tracked_accept record s sent es index observed wall receipt ledger r :
  tracked record s sent es -> check_observation s index observed wall receipt = Ok (ledger, r) ->
  tracked record {| ss_binding := ss_binding s; ss_index := S (ss_index s); ss_ledger := ledger; ss_recording := r |} []
    (es ++ [{| en_sent := sent; en_index := index; en_observed := observed; en_wall := wall; en_receipt := receipt |}]).
Proof.
  intros [Hi Hr Hd Hc (l & Hl & Hs)]. unfold check_observation. intros H.
  apply result_bind_ok in H as ([] & Hx & H). apply result_bind_ok in H as ([] & Hw & H).
  apply result_bind_ok in H as (ledger' & Hled & H). apply result_bind_ok in H as (r' & Hcmp & [= -> <-]).
  assert (bd_wellformed (ss_binding s) observed = true) as Hwf
    by (unfold throw_if in Hw; by destruct (bd_wellformed (ss_binding s) observed)).
  assert (index = ss_index s) as -> by (unfold throw_if in Hx; by destruct (Nat.eqb_spec index (ss_index s))).
  unfold compare in Hcmp. split; cbn [ss_binding ss_index ss_ledger ss_recording].
  - rewrite length_app. simpl. lia.
  - rewrite <- Hr. destruct (bd_assert _ _ _), (ss_recording s); by simplify_eq/=.
  - intros r0. rewrite mismatches_snoc, Nat.add_0_l, Hi. cbn [en_observed].
    destruct (bd_assert _ _ _), (ss_recording s) as [r1|]; simplify_eq/=; intros [= <-]; cbn [rec_divergences];
      rewrite ?app_nil_r, (Hd _ eq_refl); done.
  - apply compared_snoc. rewrite Nat.add_0_l, Hi. cbn [en_observed en_index]. repeat (split; [done|]).
    destruct (bd_assert _ _ _), (ss_recording s); by simplify_eq/=.
  - exists ledger. rewrite settled_snoc, Hl. cbn [mbind result_bind en_sent en_receipt en_observed en_wall]. rewrite Hs.
    cbn [mbind result_bind]. split; [done|]. by destruct ledger.
Qed.

Lemma tracked_issue record s es inputs ledger :
  tracked record s [] es -> issue_option (ss_ledger s) inputs = Ok ledger ->
  tracked record {| ss_binding := ss_binding s; ss_index := ss_index s; ss_ledger := ledger; ss_recording := ss_recording s |} inputs es.
Proof.
  intros [Hi Hr Hd Hc (l & Hl & Hs)] Hled. split; try done. exists l. split; [done|].
  assert (l = ss_ledger s) as ->; [|done]. destruct l; simpl in Hs; congruence.
Qed.

Lemma next_commands_ok b index observed wall ledger inputs ledger' :
  next_commands b index observed wall ledger = Ok (inputs, ledger') ->
  issue_option ledger inputs = Ok ledger' /\ bd_commands b index observed wall = Ok inputs /\ inputs <> [].
Proof.
  unfold next_commands. intros H. apply result_bind_ok in H as (inputs' & Hc & H).
  apply result_bind_ok in H as ([] & _ & H). apply result_bind_ok in H as ([] & Hn & H).
  destruct ledger as [l|]; simpl.
  - apply result_bind_ok in H as (l' & Hi & [= -> <-]). rewrite Hi. by destruct inputs.
  - injection H as -> <-. by destruct inputs.
Qed.

Lemma consistent_put c c' log log' sid s sent es :
  consistent c log -> co_sessions c' = <[sid := s]> (co_sessions c) -> (co_nextSession c <= co_nextSession c')%nat ->
  co_record c' = co_record c -> (sid <= co_nextSession c')%nat ->
  (forall i, i <> sid -> log' !! i = log !! i) -> log' !! sid = Some (ss_binding s, sent, es) -> tracked (co_record c) s sent es ->
  consistent c' log'.
Proof.
  intros [Hf Hs] E Hn Hr Hsid Hother Hlog Ht. split.
  - intros i Hi. rewrite E, lookup_insert_ne by lia. apply Hf. lia.
  - intros i s' Hi. rewrite E in Hi. rewrite Hr. destruct (decide (i = sid)) as [->|Hne].
    + rewrite lookup_insert_eq in Hi. injection Hi as <-. by eexists _, _.
    + rewrite lookup_insert_ne in Hi by done. rewrite Hother by done. by apply Hs.
Qed.

Lemma consistent_remove c c' log log' sid :
  consistent c log -> co_sessions c' = delete sid (co_sessions c) -> co_nextSession c' = co_nextSession c ->
  co_record c' = co_record c -> (forall i, i <> sid -> log' !! i = log !! i) -> consistent c' log'.
Proof.
  intros [Hf Hs] E Hn Hr Hother. split.
  - intros i Hi. rewrite E. apply lookup_delete_None. right. apply Hf. lia.
  - intros i s' Hi. rewrite E in Hi. apply lookup_delete_Some in Hi as [Hne Hi]. rewrite Hr, Hother by done. by apply Hs.
Qed.

Lemma finish_fields c sid completed e :
  co_sessions (finish c sid completed e) = delete sid (co_sessions c) /\
  co_nextSession (finish c sid completed e) = co_nextSession c /\ co_record (finish c sid completed e) = co_record c.
Proof. unfold finish. by destruct (co_sessions c !! sid ≫= ss_recording). Qed.

Lemma consistent_finish c log sid completed e : consistent c log -> consistent (finish c sid completed e) log.
Proof. intros Hc. destruct (finish_fields c sid completed e) as (? & ? & ?). by eapply consistent_remove. Qed.

Lemma consistent_abort c log sid e : consistent c log -> consistent (abort c sid e) log.
Proof. intros Hc. unfold abort. destruct (co_sessions c !! sid); [by apply consistent_finish|done]. Qed.

(** Forgetting a session that was just updated. *)
Lemma consistent_finish_put c log log' sid s completed e :
  consistent c log -> (forall i, i <> sid -> log' !! i = log !! i) ->
  consistent (finish (put_session c sid s) sid completed e) log'.
Proof.
  intros Hc Ho. destruct (finish_fields (put_session c sid s) sid completed e) as (H1 & H2 & H3).
  eapply (consistent_remove c _ _ _ sid); try done. rewrite H1. apply delete_insert_eq.
Qed.

Lemma consistent_observe c log sid index observed wall receipt :
  consistent c log ->
  consistent (dispatch_observe c sid index observed wall receipt).1
    (log_dispatch (Observe sid index observed wall receipt) (dispatch_observe c sid index observed wall receipt).2 log).
Proof.
  intros Hc. unfold dispatch_observe. destruct (co_sessions c !! sid) as [s|] eqn:Es; [|done].
  destruct (proj2 Hc _ _ Es) as (sent & es & Hlog & Ht).
  assert (sid <= co_nextSession c)%nat as Hsid.
  { destruct (Nat.le_gt_cases sid (co_nextSession c)) as [|Hgt]; [done|]. rewrite (proj1 Hc _ Hgt) in Es. done. }
  destruct (check_observation s index observed wall receipt) as [[ledger r]|e] eqn:Ec; [|by apply consistent_finish].
  pose proof (tracked_accept _ _ _ _ _ _ _ _ _ _ Ht Ec) as Ht'.
  destruct (S (ss_index s) =? bd_steps (ss_binding s))%nat.
  { apply (consistent_finish_put c log); [done|]. intros i Hi. cbn [log_dispatch snd]. by rewrite lookup_alter_ne. }
  destruct (next_commands _ _ _ _ _) as [[inputs ledger']|e] eqn:En; [|by apply (consistent_finish_put c log)].
  apply next_commands_ok in En as (Hi & _ & _).
  eapply (consistent_put c); [done| |done|done|done| | |].
  - cbn [fst put_session set_sessions co_sessions]. by rewrite insert_insert_eq.
  - intros i Hne. cbn [log_dispatch snd]. by rewrite lookup_alter_ne.
  - cbn [log_dispatch snd]. rewrite lookup_alter_eq, Hlog. reflexivity.
  - exact (tracked_issue _ _ _ _ _ Ht' Hi).
Qed.

Lemma consistent_request c log r :
  consistent c log -> consistent (dispatch_request c r).1 (log_dispatch r (dispatch_request c r).2 log).
Proof.
  intros Hc. destruct r as [|[b|e]|sid|sid index observed wall receipt]; cbn [dispatch_request]; try done.
  - destruct (match bd_settlement b with mode_none => _ | _ => _ end) as [ledger|e] eqn:El.
    + eapply (consistent_put c); [done|reflexivity|cbn; lia|done|cbn; lia| | |].
      * intros i Hne. cbn [log_dispatch snd]. by rewrite lookup_insert_ne.
      * cbn [log_dispatch snd]. apply lookup_insert_eq.
      * split; cbn [ss_binding ss_index ss_ledger ss_recording]; try done.
        -- by destruct (co_record c).
        -- intros r. destruct (co_record c); [|done]. by intros [= <-].
        -- exists (first_ledger b). split; [done|]. unfold first_ledger, new_SettlementLedger in *. by destruct (bd_settlement b).
    + destruct Hc as [Hf Hs]. split; [|done]. intros i Hi. apply Hf. cbn in Hi. lia.
  - destruct (co_sessions c !! sid); [by apply consistent_abort|done].
  - by apply consistent_observe.
Qed.

Lemma dispatch_state c id r :
  request_ok r = true -> co_lastRequest c < id ->
  (dispatch c id r).1 = (dispatch_request (set_lastRequest c id) r).1.
Proof.
  intros Hr Hid. unfold dispatch. rewrite Hr. cbn [negb]. destruct (Z.leb_spec id (co_lastRequest c)); [lia|].
  by destruct (dispatch_request (set_lastRequest c id) r) as [c' [reply|e]].
Qed.

Lemma dispatch_refused c id r : negb (request_ok r) || (id <=? co_lastRequest c) = true -> (dispatch c id r).1 = c.
Proof. unfold dispatch. destruct (request_ok r); simpl; [|done]. by intros ->. Qed.

Lemma replays_consistent c log : replays c log -> consistent c log.
Proof.
  induction 1 as [record|c log id r _ IH Hr|c log id r _ IH Hr Hid|c log sid e _ IH].
  - by split.
  - by rewrite dispatch_refused.
  - rewrite dispatch_state by done. by apply consistent_request.
  - by apply consistent_abort.
Qed.

(** ** The driver behind a session *)

(** A driver that ran exactly the commands sent and reports its counters. *)
Fixpoint ran (fx : fixture) (d : driver) (es : list entry) (evs : list (list event)) : Prop :=
  match es, evs with
  | [], [] => True
  | e :: es', ev :: evs' =>
      commands_of ev = List.map ledger_view (en_sent e) /\ causal false ev /\ counters (en_observed e) = observe_driver (drives fx d ev) /\
      ran fx (drives fx d ev) es' evs'
  | _, _ => False
  end.

(** Every receipt and wall clock it reported is its own. *)
Fixpoint truthful (fx : fixture) (d : driver) (es : list entry) (evs : list (list event)) : Prop :=
  match es, evs with
  | e :: es', ev :: evs' =>
      let d' := drives fx d ev in
      en_receipt e = Some (GoodReceipt (honest_receipt d')) /\ en_wall e = d_wall d' /\ truthful fx d' es' evs'
  | _, _ => True
  end.

Lemma settled_truthful b l d es evs l' :
  bd_settlement b = mode_receipt -> tracks (bd_fixture b) l d -> armed l = false ->
  settled b (Some l) es = Ok l' -> ran (bd_fixture b) d es evs -> truthful (bd_fixture b) d es evs.
Proof.
  intros Hm. revert l d evs. induction es as [|e es IH]; intros l d [|ev evs] Ht Ha Hs Hran; try done.
  destruct Hran as (Hcmd & Hcausal & Hobs & Hran). cbn [settled] in Hs. rewrite <- Hcmd in Hs.
  apply result_bind_ok in Hs as (l1 & H1 & Hs). apply result_bind_ok in H1 as (l2 & Hissue & [= <-]).
  apply result_bind_ok in Hs as (l3 & Hcheck & Hs). unfold check_settlement in Hcheck. rewrite Hm, Hobs in Hcheck.
  destruct (en_receipt e) as [[|r]|] eqn:Er; [done| |done]. apply result_bind_ok in Hcheck as (l4 & Hassert & [= <-]).
  assert (tracks (bd_fixture b) l2 (drives (bd_fixture b) d ev)) as Ht2 by (eapply tracks_interval; [done|by rewrite Ha|done]).
  apply (assert_receipt_ok (bd_fixture b)) in Hassert as (-> & -> & Hwall); [|done].
  cbn [truthful]. split; [done|]. split; [done|]. eapply IH; [by apply tracks_observed|done|done|done].
Qed.

(** ** Properties *)

(** C29. A completed replay is evidence: when the coordinator answers that a
    history is complete, it has accepted one observation for each step of the
    prepared history, in order and under its own index, each well-formed and compared with that step's
    prediction (equal, or recorded as a difference by a recording
    coordinator), and the session is closed; and if the session carries
    receipts, a driver that ran exactly the commands it was sent and reported
    its own counters had every receipt and wall clock right. *)
Theorem completed_replay_is_evidence c log id sid index observed wall receipt steps :
  replays c log ->
  let r := Observe sid index observed wall receipt in
  (dispatch c id r).2 = Ok (Complete steps) ->
  exists b es,
    log_dispatch r (dispatch_request (set_lastRequest c id) r).2 log !! sid = Some (b, [], es) /\
    length es = steps /\ steps = bd_steps b /\ compared b (co_record c) 0 es /\
    co_sessions (dispatch c id r).1 !! sid = None /\
    (bd_settlement b = mode_receipt ->
     forall evs, ran (bd_fixture b) new_driver es evs -> truthful (bd_fixture b) new_driver es evs).
Proof.
  intros Hc%replays_consistent r Hd. unfold dispatch in *. destruct (request_ok r); [|done]. cbn [negb] in *.
  destruct (id <=? co_lastRequest c); [done|]. subst r. cbn [dispatch_request] in *. unfold dispatch_observe in *.
  cbn [set_lastRequest co_sessions] in *. destruct (co_sessions c !! sid) as [s|] eqn:Es; [|done].
  destruct (proj2 Hc _ _ Es) as (sent & es & Hlog & Ht).
  destruct (check_observation s index observed wall receipt) as [[ledger rec]|e] eqn:Ec; [|done].
  pose proof (tracked_accept _ _ _ _ _ _ _ _ _ _ Ht Ec) as [Hi _ _ Hcmp (l & Hl & _)]. cbn [ss_binding ss_index] in *.
  destruct (Nat.eqb_spec (S (ss_index s)) (bd_steps (ss_binding s))) as [Hlast|]; [|by destruct (next_commands _ _ _ _ _) as [[]|]; simpl in Hd; repeat case_match].
  cbn [fst snd log_dispatch] in *. destruct (response_ok _); [|done]. injection Hd as <-.
  exists (ss_binding s). eexists. split; [rewrite lookup_alter_eq, Hlog; reflexivity|].
  split; [by rewrite Hi|]. split; [done|]. split; [done|]. split.
  - destruct (finish_fields (put_session (set_lastRequest c id) sid
      {| ss_binding := ss_binding s; ss_index := ss_index s; ss_ledger := ledger; ss_recording := rec |}) sid true None) as (-> & _).
    apply lookup_delete_eq.
  - intros Hm evs. unfold first_ledger in Hl. rewrite Hm in Hl. by eapply settled_truthful; [done|apply new_tracks| |].
Qed.
End coordinator.

(** A two-step history of a receipt session: the driver starts a held read. *)
Definition sample_binding : binding (O := observation) (C := command) := {|
  bd_actions := [JStr (js "init"); JStr (js "bumpSource")];
  bd_fixture := {| sourceWorkMs := None; comparisonMs := None |};
  bd_setup := [Faults (Gates (Some true) None None None None)];
  bd_settlement := mode_receipt;
  bd_wellformed _ := true;
  bd_commands _ _ _ := Ok [OtherCommand];
  bd_assert i o := if (gget (ob_counters o) g_read =? Z.of_nat i) then Passed else PartialAssertion;
|}.

Definition sample_events : list (list event) :=
  [[Run (Faults (Gates (Some true) None None None None))]; [Run OtherCommand; Started g_read]].

Definition sample_dispatch (c : ReplayCoordinator (O := observation) (C := command)) (id : Z) (r : request (O := observation) (C := command)) :=
  dispatch (fun o => o) (fun c => c) (fun _ => true) (fun _ => true) (fun _ => true) c id r.

Definition sample_observe (index : nat) : request (O := observation) (C := command) :=
  let d := drives (bd_fixture sample_binding) new_driver (concat (take (S index) sample_events)) in
  Observe 1 index (observe_driver d) (d_wall d) (Some (GoodReceipt (honest_receipt d))).

Definition sample_prepared := (sample_dispatch (new_ReplayCoordinator false) 1 (Prepare (Ok sample_binding))).1.
Definition sample_started := (sample_dispatch sample_prepared 2 (sample_observe 0)).1.

Lemma completed_replay_is_evidence_witness :
  exists b es,
    (sample_dispatch sample_started 3 (sample_observe 1)).2 = Ok (Complete 2) /\
    length es = 2%nat /\ compared b false 0 es /\
    (bd_settlement b = mode_receipt ->
     forall evs, ran (fun o => o) (fun c => c) (bd_fixture b) new_driver es evs -> truthful (bd_fixture b) new_driver es evs).
Proof.
  assert (exists log, replays (fun o => o) (fun c => c) (fun _ => true) (fun _ => true) (fun _ => true) sample_started log) as [log Hr].
  { eexists. apply replays_dispatch; [|done|done]. apply replays_dispatch; [|done|done]. apply replays_new. }
  destruct (completed_replay_is_evidence (fun o => o) (fun c => c) (fun _ => true) (fun _ => true) (fun _ => true)
              sample_started log 3 1 1 _ _ _ 2 Hr (eq_refl : (sample_dispatch sample_started 3 (sample_observe 1)).2 = Ok (Complete 2)))
    as (b & es & _ & Hl & _ & Hc & _ & Ht).
  exists b, es. split; [reflexivity|]. split; [exact Hl|]. split; [exact Hc|exact Ht].
Defined.
