(* ===== verification/Pattern.v ===== *)
(** * Regular expressions

    The patterns the replay tools test texts with ([RegExp.prototype.test] on
    [schema.mjs]'s [pattern] keyword and on the integers of [itf.mjs]), as
    regular expressions over code units with a matcher by derivatives.  A
    pattern anchored at both ends denotes its words; one left open at the end
    is followed by [anything]. *)

From S2P Require Import Prelude JsValue.

Inductive regex :=
| RNone
| REmpty
| RRange (lo hi : Z)
| RSeq (a b : regex)
| RAlt (a b : regex)
| RStar (a : regex).

(** The words of an expression. *)
Inductive word : regex -> jsstr -> Prop :=
| word_empty : word REmpty []
| word_range lo hi c : lo <= c <= hi -> word (RRange lo hi) [c]
| word_seq a b s t : word a s -> word b t -> word (RSeq a b) (s ++ t)
| word_left a b s : word a s -> word (RAlt a b) s
| word_right a b s : word b s -> word (RAlt a b) s
| word_stop a : word (RStar a) []
| word_more a c s t : word a (c :: s) -> word (RStar a) t -> word (RStar a) ((c :: s) ++ t).

Fixpoint nullable (r : regex) : bool :=
  match r with
  | RNone | RRange _ _ => false
  | REmpty | RStar _ => true
  | RSeq a b => nullable a && nullable b
  | RAlt a b => nullable a || nullable b
  end.

(** What must follow the code unit [c]. *)
Fixpoint derive (c : Z) (r : regex) : regex :=
  match r with
  | RNone | REmpty => RNone
  | RRange lo hi => if (lo <=? c) && (c <=? hi) then REmpty else RNone
  | RSeq a b => if nullable a then RAlt (RSeq (derive c a) b) (derive c b) else RSeq (derive c a) b
  | RAlt a b => RAlt (derive c a) (derive c b)
  | RStar a => RSeq (derive c a) (RStar a)
  end.

Fixpoint test (r : regex) (s : jsstr) : bool :=
  match s with
  | [] => nullable r
  | c :: s' => test (derive c r) s'
  end.

Lemma nullable_word r : nullable r = true <-> word r [].
Proof.
  split.
  - induction r as [| | |a IHa b IHb|a IHa b IHb|]; simpl; intros H; try done; [by constructor| | |by constructor].
    + apply andb_true_iff in H as [H1 H2]. change (@nil Z) with (@nil Z ++ []). constructor; auto.
    + apply orb_true_iff in H as [H|H]; [apply word_left|apply word_right]; auto.
  - remember [] as s eqn:E. induction 1; simpl; try done; subst.
    + apply app_eq_nil in E as [-> ->]. rewrite IHword1, IHword2 by done. done.
    + by rewrite IHword.
    + rewrite IHword by done. apply orb_true_r.
Qed.

Lemma derive_word c r s : word (derive c r) s <-> word r (c :: s).
Proof.
  split.
  - revert s. induction r as [| |lo hi|a IHa b IHb|a IHa b IHb|a IHa]; simpl; intros s H; try by inversion H.
    + destruct ((lo <=? c) && (c <=? hi)) eqn:E; inversion H; subst. constructor. lia.
    + assert (word (RSeq (derive c a) b) s \/ nullable a = true /\ word (derive c b) s) as [H'|[Ha H']].
      { destruct (nullable a); [inversion H; subst; auto|by left]. }
      * inversion H'; subst. rewrite app_comm_cons. constructor; auto.
      * change (c :: s) with ([] ++ c :: s). constructor; [by apply nullable_word|auto].
    + inversion H; subst; [apply word_left|apply word_right]; auto.
    + inversion H; subst. rewrite app_comm_cons. constructor; auto.
  - remember (c :: s) as w eqn:E. intros H. revert s E. induction H as [|lo hi d Hd|a b s t Ha IHa Hb IHb|a b s Ha IHa|a b s Hb IHb|a|a d s t Ha IHa Hs IHs];
      intros u E; simpl; try done.
    + injection E as -> <-. replace ((lo <=? c) && (c <=? hi)) with true by lia. constructor.
    + destruct s as [|x s]; simpl in E.
      * apply nullable_word in Ha. rewrite Ha. apply word_right. by apply IHb.
      * injection E as -> <-. destruct (nullable a); [apply word_left|]; constructor; auto.
    + apply word_left. by apply IHa.
    + apply word_right. by apply IHb.
    + injection E as -> <-. constructor; [by apply IHa|done].
Qed.

Lemma test_word r s : test r s = true <-> word r s.
Proof.
  revert r. induction s as [|c s IH]; intros r; simpl; [apply nullable_word|]. by rewrite IH, derive_word.
Qed.

(** ** The patterns *)

Definition digit : regex := RRange 48 57.
Definition anything : regex := RStar (RRange 0 65535).

Fixpoint literal (s : jsstr) : regex :=
  match s with [] => REmpty | c :: s' => RSeq (RRange c c) (literal s') end.

(** A decimal digit other than [0] and more digits, anchored at both ends. *)
Definition positive_decimal : regex := RSeq (RRange 49 57) (RStar digit).

(** [0] or [positive_decimal], anchored at both ends. *)
Definition natural_decimal : regex := RAlt (literal (js "0")) positive_decimal.

(** [0] or [positive_decimal] after an optional minus sign, anchored. *)
Definition signed_decimal : regex := RAlt (literal (js "0")) (RSeq (RAlt REmpty (literal (js "-"))) positive_decimal).

(** [^(source|timeout):] with a natural decimal up to the end, or
    [^unexpected:] with anything behind it. *)
Definition error_identity : regex :=
  RAlt (RSeq (RAlt (literal (js "source")) (literal (js "timeout"))) (RSeq (literal (js ":")) natural_decimal))
    (RSeq (literal (js "unexpected:")) anything).

Lemma word_star_range lo hi s : word (RStar (RRange lo hi)) s <-> Forall (fun c => lo <= c <= hi) s.
Proof.
  split.
  - remember (RStar (RRange lo hi)) as r eqn:E. induction 1 as [| | | | | |a c s t Ha _ _ IH]; try done; injection E as ->.
    inversion Ha; subst. constructor; auto.
  - induction 1 as [|c s Hc _ IH]; [constructor|]. change (c :: s) with ([c] ++ s). constructor; [by constructor|done].
Qed.

Lemma word_positive s :
  word positive_decimal s <-> exists d ds, s = d :: ds /\ 49 <= d <= 57 /\ Forall (fun c => 48 <= c <= 57) ds.
Proof.
  split.
  - intros H. inversion H as [| |a b s1 s2 H1 H2| | | |]; subst. inversion H1; subst. apply word_star_range in H2. by eexists _, _.
  - intros (d & ds & -> & Hd & Hds). change (d :: ds) with ([d] ++ ds). constructor; [by constructor|]. by apply word_star_range.
Qed.

Lemma word_pair a b s : word (RSeq a b) s <-> exists u w, s = u ++ w /\ word a u /\ word b w.
Proof. split; [inversion 1; subst; eauto|]. intros (u & w & -> & Ha & Hb). by constructor. Qed.

Lemma word_literal s t : word (literal s) t <-> t = s.
Proof.
  revert t. induction s as [|c s IH]; intros t; simpl.
  - split; [by inversion 1|intros ->; constructor].
  - split.
    + intros H. inversion H as [| |a b u w H1 H2| | | |]; subst. inversion H1; subst. apply IH in H2 as ->. simpl. f_equal. lia.
    + intros ->. change (c :: s) with ([c] ++ s). constructor; [by constructor|]. by apply IH.
Qed.

Lemma word_alt a b s : word (RAlt a b) s <-> word a s \/ word b s.
Proof. split; [by inversion 1; subst; auto|]. intros [H|H]; [by apply word_left|by apply word_right]. Qed.
