(* ===== verification/ReplaySchema.v ===== *)
(** * The schema validator of the conformance replay

    [formal/replay/schema.mjs]: the JSON Schema vocabulary, [matches], the
    diagnostic path of [violation], and [assertSchema].  A rule is the record
    of its keywords; references are resolved in the definitions of a schema.
    The meaning of a schema is that of Draft 2020-12, in which every keyword
    is an assertion of its own; the theorems show that the validator decides
    it and that its diagnostics name places of the value. *)

From Stdlib Require Import Lqa.
From S2P Require Import Prelude JsValue Duration Utf8 Config Key Metrics Frame Json JsonText LogText JsonDiff Pattern.

(** ** Rules *)

(** [additionalProperties]: absent or [true], [false], or a rule. *)
Inductive additional (R : Type) := Allowed | Forbidden | Checked (r : R).
Arguments Allowed {R}.
Arguments Forbidden {R}.
Arguments Checked {R} r.

Record keywords (R : Type) := Keywords {
  kw_ref : option jsstr;
  kw_oneOf : option (list R);
  kw_anyOf : option (list R);
  kw_const : option jsval;
  kw_enum : option (list jsval);
  kw_type : option (list jsstr);
  kw_minimum : option number;
  kw_maximum : option number;
  kw_minLength : option number;
  kw_pattern : option regex;
  kw_minItems : option number;
  kw_items : option R;
  kw_required : list jsstr;
  kw_properties : list (jsstr * R);
  kw_additional : additional R;
}.
Arguments Keywords {R}.
Arguments kw_ref {R}.
Arguments kw_oneOf {R}.
Arguments kw_anyOf {R}.
Arguments kw_const {R}.
Arguments kw_enum {R}.
Arguments kw_type {R}.
Arguments kw_minimum {R}.
Arguments kw_maximum {R}.
Arguments kw_minLength {R}.
Arguments kw_pattern {R}.
Arguments kw_minItems {R}.
Arguments kw_items {R}.
Arguments kw_required {R}.
Arguments kw_properties {R}.
Arguments kw_additional {R}.

Inductive rule := Rule (k : keywords rule).

Definition keywords_of (r : rule) : keywords rule := let 'Rule k := r in k.

(** [rule.properties[key]] *)
Fixpoint find_rule (name : jsstr) (rules : list (jsstr * rule)) : option rule :=
  match rules with
  | [] => None
  | (n, r) :: rest => if str_eqb n name then Some r else find_rule name rest
  end.

(** ** Loops whose body can throw *)

(** Evaluation in order, stopping at the first error. *)
Notation "a >>? b" := (x ← a; if (x : bool) then b else Ok false) (at level 55, right associativity).

Section loops.
  Context {A : Type} (f : A -> res bool).

Fixpoint some_ok (l : list A) : res bool :=
  match l with [] => Ok false | x :: rest => b ← f x; if (b : bool) then Ok true else some_ok rest end.

Fixpoint every_ok (l : list A) : res bool :=
  match l with [] => Ok true | x :: rest => f x >>? every_ok rest end.

Fixpoint filter_ok (l : list A) : res (list A) :=
  match l with
  | [] => Ok []
  | x :: rest => b ← f x; more ← filter_ok rest; Ok (if (b : bool) then x :: more else more)
  end.
End loops.

(** ** Keywords without subrules *)

Definition typeof (v : jsval) : jsstr :=
  match v with
  | JUndefined => js "undefined"
  | JNull | JArr _ | JObj _ => js "object"
  | JBool _ => js "boolean"
  | JNum _ => js "number"
  | JStr _ => js "string"
  | JFun => js "function"
  end.

(** The body of [types.some]. *)
Definition type_accepts (value : jsval) (type : jsstr) : bool :=
  if str_eqb type (js "null") then is_null value
  else if str_eqb type (js "array") then isArray value
  else if str_eqb type (js "object") then negb (is_null value) && str_eqb (typeof value) (js "object") && negb (isArray value)
  else if str_eqb type (js "integer") then match value with JNum n => match to_int n with Some _ => true | None => false end | _ => false end
  else if str_eqb type (js "number") then match value with JNum n => isFinite n | _ => false end
  else str_eqb (typeof value) type.

(** [enum.includes(value)] compares like [===], except that NaN is found. *)
Definition same_value (a b : jsval) : bool :=
  match a, b with JNum NaN, JNum NaN => true | _, _ => strict_eq a b end.

Definition below_bound (n : number) (bound : option number) : bool :=
  match bound with Some b => num_ltb n b | None => false end.

Definition above_bound (n : number) (bound : option number) : bool :=
  match bound with Some b => num_ltb b n | None => false end.

Definition length_of {A} (l : list A) : number := of_Z (Z.of_nat (length l)).

(** [const], [enum], [type], and the bounds of numbers and strings, in the
    order in which [matches] returns early. *)
Definition matches_leaf (value : jsval) (k : keywords rule) : bool :=
  negb (match kw_const k with Some c => negb (strict_eq value c) | None => false end) &&
  negb (match kw_enum k with Some l => negb (existsb (same_value value) l) | None => false end) &&
  match kw_type k with Some types => existsb (type_accepts value) types | None => true end &&
  match value with
  | JNum n => negb (below_bound n (kw_minimum k) || above_bound n (kw_maximum k))
  | JStr s => negb (below_bound (length_of s) (kw_minLength k) || match kw_pattern k with Some r => negb (test r s) | None => false end)
  | _ => true
  end.

Section schema.
  (** [schema.$defs] *)
  Context (defs : list (jsstr * rule)).

Definition out_of_fuel : exn := PlainError "out of fuel".
Definition UnknownReference : exn := PlainError "Unknown replay schema reference".

(** [rule.$ref.replace(/^#\/\$defs\//, "")] *)
Definition ref_name (ref : jsstr) : jsstr := default ref (strip_prefix (js "#/$defs/") ref).

Definition resolve_ref (ref : jsstr) : res rule :=
  match find_rule (ref_name ref) defs with Some r => Ok r | None => Err UnknownReference end.

Definition resolve (r : rule) : res rule :=
  match kw_ref (keywords_of r) with None => Ok r | Some ref => resolve_ref ref end.

(** The members of a record against [properties] and [additionalProperties]. *)
Definition match_member (rec : jsval -> rule -> res bool) (k : keywords rule) (member : jsstr * jsval) : res bool :=
  match find_rule member.1 (kw_properties k) with
  | Some r => rec member.2 r
  | None =>
      match kw_additional k with
      | Forbidden => Ok false
      | Checked r => rec member.2 r
      | Allowed => Ok true
      end
  end.

(** [matches]; the recursion is bounded by [fuel]. *)
Fixpoint matches (fuel : nat) (value : jsval) (r : rule) : res bool :=
  match fuel with
  | O => Err out_of_fuel
  | S f =>
      let k := keywords_of r in
      match kw_ref k with
      | Some ref => r' ← resolve_ref ref; matches f value r'
      | None =>
          match kw_oneOf k with
          | Some options => valid ← filter_ok (matches f value) options; Ok (length valid =? 1)%nat
          | None => Ok true
          end >>?
          match kw_anyOf k with Some options => some_ok (matches f value) options | None => Ok true end >>?
          Ok (matches_leaf value k) >>?
          match value with
          | JArr items =>
              Ok (negb (below_bound (length_of items) (kw_minItems k))) >>?
              match kw_items k with Some r' => every_ok (fun item => matches f item r') items | None => Ok true end
          | JObj members =>
              Ok (negb (existsb (fun key => negb (has_member members key)) (kw_required k))) >>?
              every_ok (match_member (matches f) k) members
          | _ => Ok true
          end
      end
  end.

(** [candidate]: do the constant members of an alternative agree? *)
Fixpoint candidate (fuel : nat) (value : jsval) (option : rule) : res bool :=
  match fuel with
  | O => Err out_of_fuel
  | S f =>
      r ← resolve option;
      let k := keywords_of r in
      match kw_oneOf k, kw_anyOf k with
      | Some nested, _ | None, Some nested => some_ok (candidate f value) nested
      | None, None =>
          Ok (match value with
              | JObj members =>
                  forallb (fun '(key, p) =>
                             match kw_const (keywords_of p) with
                             | None => true
                             | Some c => strict_eq (default JUndefined (assoc key members)) c
                             end) (kw_properties k)
              | _ => true
              end)
      end
  end.

(** The first item that [rule.items] refuses, with its index. *)
Fixpoint find_refused (f : jsval -> res bool) (index : nat) (items : list jsval) : res (option (nat * jsval)) :=
  match items with
  | [] => Ok None
  | x :: rest => b ← f x; if (b : bool) then find_refused f (S index) rest else Ok (Some (index, x))
  end.

Definition dot (path key : jsstr) : jsstr := path ++ js "." ++ key.
Definition at_index (path : jsstr) (index : nat) : jsstr := path ++ js "[" ++ digits (Z.of_nat index) ++ js "]".

(** The loop over the entries of a record. *)
Fixpoint violation_members (check : jsval -> rule -> res bool) (report : jsval -> rule -> jsstr -> res (option jsstr))
    (k : keywords rule) (path : jsstr) (members : list (jsstr * jsval)) : res (option jsstr) :=
  match members with
  | [] => Ok (Some path)
  | (key, item) :: rest =>
      match find_rule key (kw_properties k) with
      | Some r => b ← check item r; if (b : bool) then violation_members check report k path rest else report item r (dot path key)
      | None =>
          match kw_additional k with
          | Forbidden => Ok (Some (dot path key))
          | Checked r => b ← check item r; if (b : bool) then violation_members check report k path rest else report item r (dot path key)
          | Allowed => violation_members check report k path rest
          end
      end
  end.

(** [violation]: the path of the first violation, [None] when the value
    matches. *)
Fixpoint violation (fuel : nat) (value : jsval) (r : rule) (path : jsstr) : res (option jsstr) :=
  match fuel with
  | O => Err out_of_fuel
  | S f =>
      ok ← matches (S f) value r;
      if (ok : bool) then Ok None
      else
        let k := keywords_of r in
        match kw_ref k with
        | Some ref => r' ← resolve_ref ref; violation f value r' path
        | None =>
            match kw_oneOf k, kw_anyOf k with
            | Some options, _ | None, Some options =>
                candidates ← filter_ok (candidate f value) options;
                match candidates with
                | [c] => violation f value c path
                | _ => Ok (Some path)
                end
            | None, None =>
                match value with
                | JArr items =>
                    match kw_items k with
                    | Some r' =>
                        found ← find_refused (fun item => matches f item r') 0 items;
                        match found with
                        | None => Ok (Some path)
                        | Some (index, item) => violation f item r' (at_index path index)
                        end
                    | None => Ok (Some path)
                    end
                | JObj members =>
                    match List.find (fun key => negb (has_member members key)) (kw_required k) with
                    | Some key => Ok (Some (dot path key))
                    | None => violation_members (matches f) (violation f) k path members
                    end
                | _ => Ok (Some path)
                end
            end
        end
  end.

Definition UnknownDefinition : exn := PlainError "Unknown replay schema definition".

Definition definitionRule (definition : jsstr) : res rule :=
  match find_rule definition defs with Some r => Ok r | None => Err UnknownDefinition end.

Definition schemaViolation (fuel : nat) (value : jsval) (definition root : jsstr) : res (option jsstr) :=
  r ← definitionRule definition; violation fuel value r root.

(** What [assertSchema] throws: the refusal, with its message, or an error of
    the validator itself. *)
Inductive schema_error := Malformed (message : jsstr) | SchemaFault (e : exn).

Definition malformed_message (definition path : jsstr) : jsstr :=
  js "Malformed replay " ++ definition ++ (if str_eqb path definition then [] else js " at " ++ path).

Definition assertSchema (fuel : nat) (value : jsval) (definition : jsstr) : result schema_error unit :=
  match schemaViolation fuel value definition definition with
  | Ok None => Ok tt
  | Ok (Some path) => Err (Malformed (malformed_message definition path))
  | Err e => Err (SchemaFault e)
  end.

(** ** The meaning of a schema *)

(** A rule with its references replaced by what they name. *)
Fixpoint expand (fuel : nat) (r : rule) : option rule :=
  match fuel with
  | O => None
  | S f =>
      let k := keywords_of r in
      match kw_ref k with
      | Some ref => r' ← find_rule (ref_name ref) defs; expand f r'
      | None =>
          one ← match kw_oneOf k with Some l => Some <$> mapM (expand f) l | None => Some None end;
          any ← match kw_anyOf k with Some l => Some <$> mapM (expand f) l | None => Some None end;
          items ← match kw_items k with Some r' => Some <$> expand f r' | None => Some None end;
          properties ← mapM (fun p => (pair p.1) <$> expand f p.2) (kw_properties k);
          more ← match kw_additional k with Checked r' => Checked <$> expand f r' | Allowed => Some Allowed | Forbidden => Some Forbidden end;
          Some (Rule {| kw_ref := None; kw_oneOf := one; kw_anyOf := any; kw_const := kw_const k; kw_enum := kw_enum k;
                        kw_type := kw_type k; kw_minimum := kw_minimum k; kw_maximum := kw_maximum k;
                        kw_minLength := kw_minLength k; kw_pattern := kw_pattern k; kw_minItems := kw_minItems k;
                        kw_items := items; kw_required := kw_required k; kw_properties := properties; kw_additional := more |})
      end
  end.
End schema.

(** The types of the JSON data model.  An infinity is what [JSON.parse] makes of
    a numeral beyond the range of a double; it is not a number of that model. *)
Definition has_type (v : jsval) (type : jsstr) : bool :=
  match v with
  | JNull => str_eqb type (js "null")
  | JBool _ => str_eqb type (js "boolean")
  | JStr _ => str_eqb type (js "string")
  | JArr _ => str_eqb type (js "array")
  | JObj _ => str_eqb type (js "object")
  | JNum n => (str_eqb type (js "number") && isFinite n) || (str_eqb type (js "integer") && match to_int n with Some _ => true | None => false end)
  | JUndefined | JFun => false
  end.

Definition json_types : list jsstr :=
  js <$> ["null"; "boolean"; "string"; "array"; "object"; "number"; "integer"]%string.

Definition or_vacuous {A} (o : option A) (p : A -> bool) : bool := match o with Some a => p a | None => true end.

(** Draft 2020-12, for rules without references: every keyword is an
    assertion on instances of its type, and the rule is their conjunction. *)
Fixpoint satisfies (r : rule) (v : jsval) {struct r} : bool :=
  let 'Rule k := r in
  match kw_oneOf k with Some l => (length (List.filter (fun o => satisfies o v) l) =? 1)%nat | None => true end &&
  match kw_anyOf k with Some l => existsb (fun o => satisfies o v) l | None => true end &&
  or_vacuous (kw_const k) (json_eqb v) &&
  or_vacuous (kw_enum k) (existsb (json_eqb v)) &&
  or_vacuous (kw_type k) (existsb (has_type v)) &&
  match v with
  | JNum n => or_vacuous (kw_minimum k) (fun b => num_leb b n) && or_vacuous (kw_maximum k) (num_leb n)
  | JStr s => or_vacuous (kw_minLength k) (fun b => num_leb b (length_of (code_points s))) &&
              or_vacuous (kw_pattern k) (fun p => test p s)
  | JArr items =>
      or_vacuous (kw_minItems k) (fun b => num_leb b (length_of items)) &&
      match kw_items k with Some r' => forallb (satisfies r') items | None => true end
  | JObj members =>
      forallb (has_member members) (kw_required k) &&
      forallb (fun p => match assoc p.1 members with Some x => satisfies p.2 x | None => true end) (kw_properties k) &&
      match kw_additional k with
      | Allowed => true
      | Forbidden => forallb (fun m => existsb (fun p => str_eqb p.1 m.1) (kw_properties k)) members
      | Checked r' => forallb (fun m => existsb (fun p => str_eqb p.1 m.1) (kw_properties k) || satisfies r' m.2) members
      end
  | _ => true
  end.

(** The part of the vocabulary on which the validator follows the draft:
    constants are primitive, types are those of JSON, a minimum length is 0 or
    1, bounds are finite, and a property is listed once. *)
Definition primitive_constant (v : jsval) : bool :=
  match v with JNull | JBool _ | JStr _ => true | JNum n => isFinite n | _ => false end.

Fixpoint simple (r : rule) : bool :=
  let 'Rule k := r in
  match kw_oneOf k with Some l => forallb simple l | None => true end &&
  match kw_anyOf k with Some l => forallb simple l | None => true end &&
  or_vacuous (kw_const k) primitive_constant &&
  or_vacuous (kw_enum k) (forallb primitive_constant) &&
  or_vacuous (kw_type k) (forallb (fun t => existsb (str_eqb t) json_types)) &&
  or_vacuous (kw_minimum k) isFinite && or_vacuous (kw_maximum k) isFinite && or_vacuous (kw_minItems k) isFinite &&
  or_vacuous (kw_minLength k) (fun b => isFinite b && num_leb b (of_Z 1)) &&
  match kw_items k with Some r' => simple r' | None => true end &&
  bool_decide (NoDup (List.map fst (kw_properties k))) && forallb (fun p => simple p.2) (kw_properties k) &&
  match kw_additional k with Checked r' => simple r' | _ => true end.

(** A value as [JSON.parse] can return it: no number is NaN, and member names
    are listed once. *)
Fixpoint wire_value (v : jsval) : bool :=
  match v with
  | JNull | JBool _ | JStr _ => true
  | JNum n => match n with NaN => false | _ => true end
  | JArr items => forallb wire_value items
  | JObj members => bool_decide (NoDup (List.map fst members)) && forallb (fun m => wire_value m.2) members
  | JUndefined | JFun => false
  end.

(** ** The keywords without subrules *)

Definition satisfies_leaf (v : jsval) (k : keywords rule) : bool :=
  or_vacuous (kw_const k) (json_eqb v) && or_vacuous (kw_enum k) (existsb (json_eqb v)) &&
  or_vacuous (kw_type k) (existsb (has_type v)) &&
  match v with
  | JNum n => or_vacuous (kw_minimum k) (fun b => num_leb b n) && or_vacuous (kw_maximum k) (num_leb n)
  | JStr s => or_vacuous (kw_minLength k) (fun b => num_leb b (length_of (code_points s))) &&
              or_vacuous (kw_pattern k) (fun p => test p s)
  | _ => true
  end.

Definition satisfies_members (k : keywords rule) (members : list (jsstr * jsval)) : bool :=
  forallb (fun p => match assoc p.1 members with Some x => satisfies p.2 x | None => true end) (kw_properties k) &&
  match kw_additional k with
  | Allowed => true
  | Forbidden => forallb (fun m => existsb (fun p => str_eqb p.1 m.1) (kw_properties k)) members
  | Checked r' => forallb (fun m => existsb (fun p => str_eqb p.1 m.1) (kw_properties k) || satisfies r' m.2) members
  end.

Definition satisfies_nested (k : keywords rule) (v : jsval) : bool :=
  match v with
  | JArr items =>
      or_vacuous (kw_minItems k) (fun b => num_leb b (length_of items)) &&
      match kw_items k with Some r' => forallb (satisfies r') items | None => true end
  | JObj members => forallb (has_member members) (kw_required k) && satisfies_members k members
  | _ => true
  end.

Lemma satisfies_eq k v :
  satisfies (Rule k) v =
  match kw_oneOf k with Some l => (length (List.filter (fun o => satisfies o v) l) =? 1)%nat | None => true end &&
  match kw_anyOf k with Some l => existsb (fun o => satisfies o v) l | None => true end &&
  satisfies_leaf v k && satisfies_nested k v.
Proof.
  cbn [satisfies]. unfold satisfies_leaf, satisfies_nested, satisfies_members.
  destruct v; rewrite ?andb_true_r, ?andb_assoc; done.
Qed.

Lemma num_leb_ltb a b : isFinite a = true -> isFinite b = true -> num_leb a b = negb (num_ltb b a).
Proof.
  destruct a as [| |x], b as [| |y]; try done. intros _ _. unfold num_leb, num_ltb, num_eqb.
  destruct (Qltb y x) eqn:E; simpl.
  - apply Qltb_spec in E. apply orb_false_iff. split; [apply Qltb_false; lra|].
    apply not_true_iff_false. rewrite Qeq_bool_iff. lra.
  - apply Qltb_false in E. apply orb_true_iff. rewrite Qltb_spec, Qeq_bool_iff. apply Qle_lteq in E. tauto.
Qed.

Lemma below_bound_vacuous n b : n <> NaN -> or_vacuous b isFinite = true -> negb (below_bound n b) = or_vacuous b (fun b => num_leb b n).
Proof.
  destruct b as [b|]; simpl; [|done]. intros Hn Hb. destruct n as [|neg|q]; [done| |by rewrite num_leb_ltb].
  by destruct b, neg.
Qed.

Lemma above_bound_vacuous n b : n <> NaN -> or_vacuous b isFinite = true -> negb (above_bound n b) = or_vacuous b (num_leb n).
Proof.
  destruct b as [b|]; simpl; [|done]. intros Hn Hb. destruct n as [|neg|q]; [done| |by rewrite num_leb_ltb].
  by destruct b, neg.
Qed.

Lemma strict_eq_constant v c : primitive_constant c = true -> strict_eq v c = json_eqb v c.
Proof. intros Hc. symmetry. apply json_eqb_primitive. by destruct v, c. Qed.

Lemma same_value_constant v c : primitive_constant c = true -> same_value v c = json_eqb v c.
Proof. intros Hc. rewrite <- strict_eq_constant by done. by destruct v as [| | |[]| | | |], c as [| | |[]| | | |]. Qed.

Lemma forallb_In {A} (p : A -> bool) l x : forallb p l = true -> In x l -> p x = true.
Proof. rewrite forallb_forall. auto. Qed.

Lemma existsb_eq {A} (p q : A -> bool) l : (forall x, In x l -> p x = q x) -> existsb p l = existsb q l.
Proof. intros H. induction l as [|x l IH]; [done|]. simpl. rewrite H, IH by (intros; try apply H; simpl; auto). done. Qed.

Lemma forallb_eq {A} (p q : A -> bool) l : (forall x, In x l -> p x = q x) -> forallb p l = forallb q l.
Proof. intros H. induction l as [|x l IH]; [done|]. simpl. rewrite H, IH by (intros; try apply H; simpl; auto). done. Qed.

Lemma type_accepts_json v t : wire_value v = true -> existsb (str_eqb t) json_types = true -> type_accepts v t = has_type v t.
Proof.
  intros Hv Ht. apply existsb_exists in Ht as (u & Hu & ->%str_eqb_eq). unfold json_types in Hu. cbn in Hu.
  repeat destruct Hu as [<-|Hu]; try done; destruct v as [| | |[]| | | |]; try done; cbn in Hv |- *; rewrite ?orb_false_l; done.
Qed.

(** A bound of at most one cannot tell code units from code points. *)
Lemma code_points_nil s : code_points s = [] <-> s = [].
Proof. split; [|by intros ->]. destruct s as [|c s]; [done|]. simpl. by repeat case_match. Qed.

Lemma short_bound s b :
  isFinite b = true -> num_leb b (of_Z 1) = true -> num_ltb (length_of s) b = negb (num_leb b (length_of (code_points s))).
Proof.
  intros Hf Hb. rewrite num_leb_ltb, negb_involutive by done. destruct s as [|c s]; [done|].
  assert (forall (l : jsstr), l <> [] -> num_ltb (length_of l) b = false) as H; [|by rewrite !H by (by rewrite ?code_points_nil)].
  intros [|x l] Hl; [done|]. rewrite num_leb_ltb in Hb by done. apply negb_true_iff in Hb. destruct b as [| |q]; try done.
  unfold length_of, of_Z, num_ltb in *. apply Qltb_false in Hb. apply Qltb_false.
  assert ((inject_Z 1 <= inject_Z (Z.of_nat (length (x :: l))))%Q) by (rewrite <- Zle_Qle; simpl; lia). lra.
Qed.

Lemma leaf_decides v k : wire_value v = true -> simple (Rule k) = true -> matches_leaf v k = satisfies_leaf v k.
Proof.
  intros Hv Hs. cbn [simple] in Hs. rewrite !andb_true_iff in Hs.
  destruct Hs as ((((((((((((_ & _) & Hconst) & Henum) & Htype) & Hmin) & Hmax) & _) & Hlen) & _) & _) & _) & _).
  unfold matches_leaf, satisfies_leaf. f_equal; [f_equal; [f_equal|]|].
  - destruct (kw_const k); [|done]. simpl. by rewrite negb_involutive, strict_eq_constant.
  - destruct (kw_enum k) as [l|]; [|done]. simpl. rewrite negb_involutive. apply existsb_eq. intros c Hc.
    by apply same_value_constant, (forallb_In _ l).
  - destruct (kw_type k) as [l|]; [|done]. apply existsb_eq. intros t Ht. apply type_accepts_json; [done|].
    exact (forallb_In _ _ _ Htype Ht).
  - destruct v as [| | |n|s| | |]; try done.
    + rewrite negb_orb, below_bound_vacuous, above_bound_vacuous; try done; by intros ->.
    + rewrite negb_orb. f_equal; [|destruct (kw_pattern k); simpl; by rewrite ?negb_involutive].
      destruct (kw_minLength k) as [b|]; [|done]. cbn [or_vacuous below_bound] in *. apply andb_true_iff in Hlen as [Hf Hb].
      unfold below_bound. by rewrite short_bound, negb_involutive.
Qed.

(** ** The loops *)

Section loop_lemmas.
  Context {A B : Type} (f : A -> res bool) (g : B -> bool).

Lemma every_ok_forallb l m : Forall2 (fun x y => f x = Ok (g y)) l m -> every_ok f l = Ok (forallb g m).
Proof. induction 1 as [|x y l m H _ IH]; [done|]. simpl. rewrite H. cbn [mbind result_bind]. by destruct (g y). Qed.

Lemma some_ok_existsb l m : Forall2 (fun x y => f x = Ok (g y)) l m -> some_ok f l = Ok (existsb g m).
Proof. induction 1 as [|x y l m H _ IH]; [done|]. simpl. rewrite H. cbn [mbind result_bind]. by destruct (g y). Qed.

Lemma filter_ok_length l m :
  Forall2 (fun x y => f x = Ok (g y)) l m ->
  exists kept, filter_ok f l = Ok kept /\ length kept = length (List.filter g m) /\ forall x, In x kept -> In x l.
Proof.
  induction 1 as [|x y l m H _ (kept & IH & Hlen & Hin)]; [by exists []|]. simpl. rewrite H, IH. cbn [mbind result_bind].
  eexists. split; [done|]. destruct (g y); simpl; (split; [congruence|]); [intros z [->|Hz]|intros z Hz]; auto.
Qed.
End loop_lemmas.

Lemma every_ok_same {A} (f : A -> res bool) (g : A -> bool) l :
  (forall x, In x l -> f x = Ok (g x)) -> every_ok f l = Ok (forallb g l).
Proof.
  intros H. apply every_ok_forallb. induction l as [|x l IH]; constructor; [apply H; by left|]. apply IH. intros; apply H. by right.
Qed.

(** ** Properties of a record *)

Lemma find_rule_In name rules r : find_rule name rules = Some r -> In (name, r) rules.
Proof. induction rules as [|[n x] rules IH]; [done|]. simpl. destruct (str_eqb n name) eqn:E; [apply str_eqb_eq in E as ->; intros [= ->]; by left|auto]. Qed.

Lemma find_rule_None name rules : find_rule name rules = None <-> existsb (fun p => str_eqb p.1 name) rules = false.
Proof. induction rules as [|[n x] rules IH]; [done|]. simpl. by destruct (str_eqb n name). Qed.

Lemma In_find_rule name rules r : NoDup (List.map fst rules) -> In (name, r) rules -> find_rule name rules = Some r.
Proof.
  induction rules as [|[n x] rules IH]; [done|]. simpl. intros [Hn Hd]%list.NoDup_cons [[= -> ->]|Hin].
  - by assert (str_eqb name name = true) as -> by by apply str_eqb_eq.
  - destruct (str_eqb n name) eqn:E; [|auto]. apply str_eqb_eq in E as ->. destruct Hn. apply list_elem_of_In, in_map_iff.
    by exists (name, r).
Qed.

(** Checking the members one by one is checking every keyword. *)
Lemma members_reorganized k members :
  NoDup (List.map fst (kw_properties k)) -> NoDup (List.map fst members) ->
  forallb (fun m => match find_rule m.1 (kw_properties k) with
                    | Some r => satisfies r m.2
                    | None => match kw_additional k with Forbidden => false | Checked r => satisfies r m.2 | Allowed => true end
                    end) members = satisfies_members k members.
Proof.
  intros Hp Hm. apply Bool.eq_iff_eq_true. unfold satisfies_members. rewrite andb_true_iff, !forallb_forall. split.
  - intros H. split.
    + intros [n r] Hin. simpl. destruct (assoc n members) as [x|] eqn:E; [|done].
      apply assoc_In, H in E. simpl in E. by rewrite (In_find_rule _ _ _ Hp Hin) in E.
    + destruct (kw_additional k) as [| |r]; [done| |]; apply forallb_forall; intros m Hin; specialize (H m Hin);
        destruct (find_rule m.1 (kw_properties k)) eqn:E; try done.
      * apply not_false_iff_true. intros E'%find_rule_None. congruence.
      * apply orb_true_iff. left. apply not_false_iff_true. intros E'%find_rule_None. congruence.
      * apply orb_true_iff. by right.
  - intros [H1 H2] [n x] Hin. simpl. destruct (find_rule n (kw_properties k)) as [r|] eqn:E.
    + apply find_rule_In, H1 in E. simpl in E. by rewrite (In_assoc _ _ _ Hm Hin) in E.
    + apply find_rule_None in E. destruct (kw_additional k) as [| |r]; [done| |]; rewrite forallb_forall in H2; specialize (H2 _ Hin); simpl in H2.
      * congruence.
      * by rewrite E in H2.
Qed.

(** ** The validator decides the schema *)

Lemma mapM_Some_Forall2 {A B} (f : A -> option B) l m : mapM f l = Some m -> Forall2 (fun x y => f x = Some y) l m.
Proof. apply mapM_Some_1. Qed.

Lemma find_rule_expanded (f : rule -> option rule) rules rules' name :
  Forall2 (fun p q => (pair p.1) <$> f p.2 = Some q) rules rules' ->
  match find_rule name rules with
  | Some r => exists t, f r = Some t /\ find_rule name rules' = Some t
  | None => find_rule name rules' = None
  end.
Proof.
  induction 1 as [|[n r] q rules rules' H _ IH]; [done|]. simpl in H. destruct (f r) as [t|] eqn:E; [|done].
  injection H as <-. simpl. destruct (str_eqb n name); [by exists t|done].
Qed.

(** What the parts of a simple rule are. *)
Lemma simple_inv k :
  simple (Rule k) = true ->
  (forall l r, kw_oneOf k = Some l \/ kw_anyOf k = Some l -> In r l -> simple r = true) /\
  or_vacuous (kw_minItems k) isFinite = true /\
  (forall r, kw_items k = Some r -> simple r = true) /\
  NoDup (List.map fst (kw_properties k)) /\ (forall n r, In (n, r) (kw_properties k) -> simple r = true) /\
  (forall r, kw_additional k = Checked r -> simple r = true).
Proof.
  cbn [simple]. rewrite !andb_true_iff.
  intros ((((((((((((Hone & Hany) & _) & _) & _) & _) & _) & Hmin) & _) & Hitems) & Hd) & Hp) & Hadd).
  split; [|split; [done|split; [|split; [by apply bool_decide_eq_true in Hd|split]]]].
  - intros l r [E|E] Hin; rewrite E in *; by eapply forallb_In.
  - intros r E. by rewrite E in Hitems.
  - intros n r Hin. exact (forallb_In _ _ _ Hp Hin).
  - intros r E. by rewrite E in Hadd.
Qed.

(** The keywords of an expanded rule, with what each was expanded from. *)
Record expanded (f : rule -> option rule) (k : keywords rule) (t : keywords rule) : Prop := {
  ex_oneOf : match kw_oneOf k, kw_oneOf t with Some l, Some l' => Forall2 (fun x y => f x = Some y) l l' | None, None => True | _, _ => False end;
  ex_anyOf : match kw_anyOf k, kw_anyOf t with Some l, Some l' => Forall2 (fun x y => f x = Some y) l l' | None, None => True | _, _ => False end;
  ex_items : match kw_items k, kw_items t with Some r, Some r' => f r = Some r' | None, None => True | _, _ => False end;
  ex_properties : Forall2 (fun p q => (pair p.1) <$> f p.2 = Some q) (kw_properties k) (kw_properties t);
  ex_additional : match kw_additional k, kw_additional t with
                  | Checked r, Checked r' => f r = Some r'
                  | Allowed, Allowed | Forbidden, Forbidden => True
                  | _, _ => False
                  end;
  ex_leaf v : matches_leaf v k = matches_leaf v t;
  ex_minItems : kw_minItems k = kw_minItems t;
  ex_required : kw_required k = kw_required t;
}.

Lemma expand_inv defs n r t :
  expand defs (S n) r = Some t ->
  match kw_ref (keywords_of r) with
  | Some ref => exists r', find_rule (ref_name ref) defs = Some r' /\ expand defs n r' = Some t
  | None => exists k, t = Rule k /\ expanded (expand defs n) (keywords_of r) k
  end.
Proof.
  cbn [expand]. destruct (kw_ref (keywords_of r)); [by intros (r' & ? & ?)%bind_Some; exists r'|].
  intros He. apply bind_Some in He as (one & Hone & He). apply bind_Some in He as (any & Hany & He).
  apply bind_Some in He as (its & Hits & He). apply bind_Some in He as (props & Hprops & He).
  apply bind_Some in He as (add & Hadd & [= <-]). eexists. split; [done|].
  split; cbn [kw_oneOf kw_anyOf kw_items kw_properties kw_additional kw_minItems kw_required]; try done.
  - destruct (kw_oneOf (keywords_of r)) as [l|]; [|by injection Hone as <-].
    apply fmap_Some in Hone as (l' & Hl & ->). by apply mapM_Some_1.
  - destruct (kw_anyOf (keywords_of r)) as [l|]; [|by injection Hany as <-].
    apply fmap_Some in Hany as (l' & Hl & ->). by apply mapM_Some_1.
  - destruct (kw_items (keywords_of r)) as [r'|]; [|by injection Hits as <-]. by apply fmap_Some in Hits as (x & Hl & ->).
  - by apply mapM_Some_1.
  - destruct (kw_additional (keywords_of r)) as [| |r']; try by injection Hadd as <-. by apply fmap_Some in Hadd as (x & Hl & ->).
Qed.

Section decides.
  Context (defs : list (jsstr * rule)).

  (** [matches] decides every rule of smaller depth. *)
Definition decided (n : nat) : Prop :=
  forall r t v, expand defs n r = Some t -> simple t = true -> wire_value v = true -> matches defs n v r = Ok (satisfies t v).

Lemma decided_list n v l l' :
  decided n -> wire_value v = true -> Forall2 (fun x y => expand defs n x = Some y) l l' -> (forall r, In r l' -> simple r = true) ->
  Forall2 (fun x y => matches defs n v x = Ok (satisfies y v)) l l'.
Proof.
  intros IH Hv. induction 1 as [|x y l l' H _ IHl]; intros Hl; constructor.
  - apply IH; [done|apply Hl; by left|done].
  - apply IHl. intros; apply Hl; by right.
Qed.

Lemma decided_oneOf n v k t :
  decided n -> wire_value v = true -> expanded (expand defs n) k t -> simple (Rule t) = true ->
  match kw_oneOf k with
  | Some options => valid ← filter_ok (matches defs n v) options; Ok (length valid =? 1)%nat
  | None => Ok true
  end = Ok (match kw_oneOf t with Some l => (length (List.filter (fun o => satisfies o v) l) =? 1)%nat | None => true end).
Proof.
  intros IH Hv Hx Hs%simple_inv. destruct Hs as (Hopt & _). pose proof (ex_oneOf _ _ _ Hx) as H.
  destruct (kw_oneOf k) as [l|], (kw_oneOf t) as [l'|] eqn:E; try done.
  assert (Forall2 (fun x y => matches defs n v x = Ok (satisfies y v)) l l') as HF by (apply decided_list; eauto).
  destruct (filter_ok_length _ (fun o => satisfies o v) l l' HF) as (kept & -> & <- & _). done.
Qed.

Lemma decided_anyOf n v k t :
  decided n -> wire_value v = true -> expanded (expand defs n) k t -> simple (Rule t) = true ->
  match kw_anyOf k with Some options => some_ok (matches defs n v) options | None => Ok true end =
  Ok (match kw_anyOf t with Some l => existsb (fun o => satisfies o v) l | None => true end).
Proof.
  intros IH Hv Hx Hs%simple_inv. destruct Hs as (Hopt & _). pose proof (ex_anyOf _ _ _ Hx) as H.
  destruct (kw_anyOf k) as [l|], (kw_anyOf t) as [l'|] eqn:E; try done.
  apply some_ok_existsb, decided_list; eauto.
Qed.

Lemma decided_member n k t m :
  decided n -> wire_value m.2 = true -> expanded (expand defs n) k t -> simple (Rule t) = true ->
  match_member (matches defs n) k m =
  Ok (match find_rule m.1 (kw_properties t) with
      | Some r => satisfies r m.2
      | None => match kw_additional t with Forbidden => false | Checked r => satisfies r m.2 | Allowed => true end
      end).
Proof.
  intros IH Hv Hx Hs%simple_inv. destruct Hs as (_ & _ & _ & _ & Hp & Ha). unfold match_member.
  pose proof (find_rule_expanded _ _ _ m.1 (ex_properties _ _ _ Hx)) as H.
  destruct (find_rule m.1 (kw_properties k)) as [r|].
  - destruct H as (t' & Ht & E). rewrite E. apply IH; [done| |done]. by eapply Hp, find_rule_In.
  - rewrite H. pose proof (ex_additional _ _ _ Hx) as H'.
    destruct (kw_additional k), (kw_additional t) eqn:E; try done. apply IH; auto.
Qed.

Lemma decided_nested n v k t :
  decided n -> wire_value v = true -> expanded (expand defs n) k t -> simple (Rule t) = true ->
  match v with
  | JArr items =>
      Ok (negb (below_bound (length_of items) (kw_minItems k))) >>?
      match kw_items k with Some r' => every_ok (fun item => matches defs n item r') items | None => Ok true end
  | JObj members =>
      Ok (negb (existsb (fun key => negb (has_member members key)) (kw_required k))) >>?
      every_ok (match_member (matches defs n) k) members
  | _ => Ok true
  end = Ok (satisfies_nested t v).
Proof.
  intros IH Hv Hx Hs. pose proof (simple_inv _ Hs) as (_ & Hmin & Hi & Hnd & _ & _). destruct v as [| | | | |items|members|]; try done.
  - cbn [mbind result_bind satisfies_nested]. rewrite (ex_minItems _ _ _ Hx), below_bound_vacuous by done.
    destruct (or_vacuous (kw_minItems t) (fun b => num_leb b (length_of items))); [|done]. pose proof (ex_items _ _ _ Hx) as H.
    destruct (kw_items k) as [r|], (kw_items t) as [r'|]; try done. simpl.
    apply every_ok_same. intros x Hx'. apply IH; [done|auto|]. by eapply forallb_In.
  - cbn [mbind result_bind satisfies_nested]. cbn [wire_value] in Hv. apply andb_true_iff in Hv as [Hd%bool_decide_eq_true Hv].
    rewrite (ex_required _ _ _ Hx).
    assert (negb (existsb (fun key => negb (has_member members key)) (kw_required t)) = forallb (has_member members) (kw_required t)) as ->.
    { induction (kw_required t) as [|x l IHl]; [done|]. simpl. rewrite negb_orb, negb_involutive. by rewrite IHl. }
    destruct (forallb (has_member members) (kw_required t)); [|done]. simpl. rewrite <- members_reorganized by done.
    apply every_ok_same. intros m Hm. apply decided_member; try done. exact (forallb_In _ _ _ Hv Hm).
Qed.

Lemma matches_decides n : decided n.
Proof.
  induction n as [|n IH]; [done|]. intros r t v He Hs Hv. pose proof (expand_inv _ _ _ _ He) as Hx. cbn [matches].
  destruct (kw_ref (keywords_of r)) as [ref|].
  { destruct Hx as (r' & Hr & Hx). unfold resolve_ref. rewrite Hr. by apply IH. }
  destruct Hx as (k & -> & Hx). rewrite (decided_oneOf n v _ k), (decided_anyOf n v _ k), (decided_nested n v _ k), (ex_leaf _ _ _ Hx) by done.
  rewrite leaf_decides, satisfies_eq by done. cbn [mbind result_bind]. by repeat (case_match; cbn [mbind result_bind andb]; try done).
Qed.
End decides.
