(* ===== verification/SchemaPaths.v ===== *)
(** * The diagnostics of the schema validator

    [violation] and [candidate] of [formal/replay/schema.mjs]: the path of a
    refusal exists exactly when the value is refused, and it names a place at
    which a rule of the schema is violated.  This needs alternatives that
    exclude each other, which is decided here from what they say about
    constants, types and members. *)

From S2P Require Import Prelude JsValue Duration Utf8 Config Key Metrics Frame Json JsonText LogText JsonDiff Pattern ReplaySchema.

(** ** Alternatives that exclude each other *)

Inductive kind := KdNull | KdBool | KdNum | KdStr | KdArr | KdObj.

#[export] Instance kind_eq_dec : EqDecision kind.
Proof. solve_decision. Defined.

Definition kind_of (v : jsval) : option kind :=
  match v with
  | JNull => Some KdNull
  | JBool _ => Some KdBool
  | JNum _ => Some KdNum
  | JStr _ => Some KdStr
  | JArr _ => Some KdArr
  | JObj _ => Some KdObj
  | JUndefined | JFun => None
  end.

Definition kind_of_type (t : jsstr) : option kind :=
  if str_eqb t (js "null") then Some KdNull
  else if str_eqb t (js "boolean") then Some KdBool
  else if str_eqb t (js "number") || str_eqb t (js "integer") then Some KdNum
  else if str_eqb t (js "string") then Some KdStr
  else if str_eqb t (js "array") then Some KdArr
  else if str_eqb t (js "object") then Some KdObj
  else None.

(** The constants a rule admits, when it lists them. *)
Definition constants (k : keywords rule) : option (list jsval) :=
  match kw_const k with Some c => Some [c] | None => kw_enum k end.

(** The kinds a rule admits, when it limits them. *)
Definition kinds (k : keywords rule) : option (list (option kind)) :=
  match constants k with
  | Some l => Some (List.map kind_of l)
  | None => List.map kind_of_type <$> kw_type k
  end.

Definition apart {A} (eqb : A -> A -> bool) (a b : option (list A)) : bool :=
  match a, b with
  | Some l, Some m => forallb (fun x => forallb (fun y => negb (eqb x y)) m) l
  | _, _ => false
  end.

Definition kind_eqb (a b : option kind) : bool := bool_decide (a = b).

(** A member both rules require, with constants that differ. *)
Definition differ_at (a b : keywords rule) (key : jsstr) : bool :=
  existsb (str_eqb key) (kw_required b) &&
  match find_rule key (kw_properties a), find_rule key (kw_properties b) with
  | Some p, Some q => apart json_eqb (constants (keywords_of p)) (constants (keywords_of q))
  | _, _ => false
  end.

(** A member that the one requires and the other forbids. *)
Definition forbids (b : keywords rule) (key : jsstr) : bool :=
  match kw_additional b, find_rule key (kw_properties b) with Forbidden, None => true | _, _ => false end.

Definition only_objects (k : keywords rule) : bool := apart kind_eqb (kinds k) (Some [None; Some KdNull; Some KdBool; Some KdNum; Some KdStr; Some KdArr]).

Definition disjoint_leaf (a b : keywords rule) : bool :=
  apart kind_eqb (kinds a) (kinds b) ||
  (only_objects a && only_objects b &&
   (existsb (differ_at a b) (kw_required a) || existsb (forbids b) (kw_required a) || existsb (forbids a) (kw_required b))).

Definition options_of (k : keywords rule) : option (list rule) :=
  match kw_oneOf k with Some l => Some l | None => kw_anyOf k end.

Fixpoint disjoint (fuel : nat) (a b : rule) : bool :=
  match fuel with
  | O => false
  | S f =>
      match options_of (keywords_of a), options_of (keywords_of b) with
      | Some l, _ => forallb (fun o => disjoint f o b) l
      | None, Some m => forallb (disjoint f a) m
      | None, None => disjoint_leaf (keywords_of a) (keywords_of b)
      end
  end.

Fixpoint pairwise {A} (p : A -> A -> bool) (l : list A) : bool :=
  match l with [] => true | x :: rest => forallb (p x) rest && pairwise p rest end.

(** A choice asserts nothing else. *)
Definition bare_choice (k : keywords rule) : bool :=
  match kw_oneOf k, kw_anyOf k with Some _, Some _ => false | _, _ => true end &&
  match kw_const k, kw_enum k, kw_type k, kw_minimum k, kw_maximum k with None, None, None, None, None => true | _, _, _, _, _ => false end &&
  match kw_minLength k, kw_pattern k, kw_minItems k, kw_items k with None, None, None, None => true | _, _, _, _ => false end &&
  match kw_required k, kw_properties k, kw_additional k with [], [], Allowed => true | _, _, _ => false end.

Definition choice_depth : nat := 8.

(** The alternatives of every choice exclude each other, and a choice asserts
    nothing else. *)
Fixpoint decisive (r : rule) : bool :=
  let 'Rule k := r in
  match options_of k with Some _ => bare_choice k | None => true end &&
  match kw_oneOf k with Some l => pairwise (disjoint choice_depth) l && forallb decisive l | None => true end &&
  match kw_anyOf k with Some l => forallb decisive l | None => true end &&
  match kw_items k with Some r' => decisive r' | None => true end &&
  forallb (fun p => decisive p.2) (kw_properties k) &&
  match kw_additional k with Checked r' => decisive r' | _ => true end.

Lemma apart_spec {A} (eqb : A -> A -> bool) a b l m x y :
  apart eqb a b = true -> a = Some l -> b = Some m -> In x l -> In y m -> eqb x y = false.
Proof.
  intros H -> -> Hx Hy. simpl in H. rewrite forallb_forall in H. specialize (H x Hx). rewrite forallb_forall in H.
  by apply negb_true_iff, H.
Qed.

Lemma satisfies_parts k v :
  satisfies (Rule k) v = true -> or_vacuous (kw_const k) (json_eqb v) = true /\ or_vacuous (kw_enum k) (existsb (json_eqb v)) = true /\
  or_vacuous (kw_type k) (existsb (has_type v)) = true /\ satisfies_nested k v = true.
Proof. rewrite satisfies_eq. unfold satisfies_leaf. rewrite !andb_true_iff. tauto. Qed.

Lemma satisfies_constants k v l : satisfies (Rule k) v = true -> constants k = Some l -> exists c, In c l /\ json_eqb v c = true.
Proof.
  intros (Hc & He & _)%satisfies_parts. unfold constants. destruct (kw_const k) as [c|].
  - intros [= <-]. exists c. split; [by left|done].
  - intros E. rewrite E in He. by apply existsb_exists in He.
Qed.

Lemma json_eqb_kind v c : json_eqb v c = true -> kind_of v = kind_of c.
Proof. by destruct v, c. Qed.

Lemma has_type_kind v t : has_type v t = true -> kind_of v = kind_of_type t.
Proof.
  destruct v as [| | | | | | |]; cbn [has_type]; try done; try (intros ->%str_eqb_eq; done).
  intros [[->%str_eqb_eq _]%andb_true_iff|[->%str_eqb_eq _]%andb_true_iff]%orb_true_iff; done.
Qed.

Lemma satisfies_kinds k v l : satisfies (Rule k) v = true -> kinds k = Some l -> In (kind_of v) l.
Proof.
  intros H. unfold kinds. destruct (constants k) as [cs|] eqn:E.
  - intros [= <-]. destruct (satisfies_constants _ _ _ H E) as (c & Hc & Hv). apply in_map_iff.
    exists c. split; [by symmetry; apply json_eqb_kind|done].
  - intros (ts & Ht & ->)%fmap_Some. destruct (satisfies_parts _ _ H) as (_ & _ & Htype & _). rewrite Ht in Htype.
    apply existsb_exists in Htype as (t & Hin & Hty). apply in_map_iff.
    exists t. split; [by symmetry; apply has_type_kind|done].
Qed.

(** Two constants of one value are equal, when they are primitive. *)
Lemma json_eqb_constants v a b :
  primitive_constant a = true -> primitive_constant b = true -> json_eqb v a = true -> json_eqb v b = true -> json_eqb a b = true.
Proof.
  intros Ha Hb. rewrite <- !strict_eq_constant by done.
  destruct v as [| |bv|nv|sv| | |], a as [| |ba|na|sa| | |], b as [| |bb|nb|sb| | |]; simpl; try done.
  - by destruct bv, ba, bb.
  - destruct nv, na, nb; simpl; try done. rewrite !Qeq_bool_iff. intros H1 H2. by rewrite <- H1.
  - rewrite !str_eqb_eq. by intros -> ->.
Qed.

(** ** Excluding alternatives *)

Lemma only_objects_spec k v : satisfies (Rule k) v = true -> only_objects k = true -> exists members, v = JObj members.
Proof.
  intros H Ho. destruct (kinds k) as [l|] eqn:E; [|by unfold only_objects in Ho; rewrite E in Ho].
  pose proof (satisfies_kinds _ _ _ H E) as Hin.
  assert (forall x, In x [None; Some KdNull; Some KdBool; Some KdNum; Some KdStr; Some KdArr] -> kind_of v <> x) as Hk.
  { intros x Hx Heq. pose proof (apart_spec _ _ _ _ _ _ _ Ho E eq_refl Hin Hx) as Hf. unfold kind_eqb in Hf.
    by rewrite bool_decide_eq_false, Heq in Hf. }
  destruct v as [| | | | | |members|]; try (by exists members); exfalso; (eapply Hk; [|reflexivity]); simpl; tauto.
Qed.

Lemma satisfies_required k members key :
  satisfies (Rule k) (JObj members) = true -> In key (kw_required k) -> exists x, assoc key members = Some x.
Proof.
  intros (_ & _ & _ & [Hr _]%andb_true_iff)%satisfies_parts Hin. pose proof (forallb_In _ _ _ Hr Hin) as H.
  unfold has_member in H. destruct (assoc key members) as [x|]; [by exists x|done].
Qed.

Lemma satisfies_property k members key x p :
  satisfies (Rule k) (JObj members) = true -> assoc key members = Some x -> find_rule key (kw_properties k) = Some p ->
  satisfies p x = true.
Proof.
  intros (_ & _ & _ & [_ [Hp _]%andb_true_iff]%andb_true_iff)%satisfies_parts E Hf%find_rule_In.
  pose proof (forallb_In _ _ _ Hp Hf) as H. simpl in H. by rewrite E in H.
Qed.

Lemma satisfies_forbids k members key x :
  satisfies (Rule k) (JObj members) = true -> assoc key members = Some x -> forbids k key = false.
Proof.
  intros (_ & _ & _ & [_ [_ Ha]%andb_true_iff]%andb_true_iff)%satisfies_parts E. unfold forbids.
  destruct (kw_additional k); try done. destruct (find_rule key (kw_properties k)) eqn:Hf; [done|].
  apply find_rule_None in Hf. apply assoc_In in E. pose proof (forallb_In _ _ _ Ha E) as H. simpl in H. congruence.
Qed.

Lemma simple_constants k l : simple (Rule k) = true -> constants k = Some l -> Forall (fun c => primitive_constant c = true) l.
Proof.
  cbn [simple]. rewrite !andb_true_iff. intros ((((((((((((_ & _) & Hc) & He) & _) & _) & _) & _) & _) & _) & _) & _) & _).
  unfold constants. destruct (kw_const k) as [c|]; [intros [= <-]; by constructor; [|constructor]|].
  intros E. rewrite E in He. apply List.Forall_forall. intros c Hin. exact (forallb_In _ _ _ He Hin).
Qed.

Lemma differ_at_spec a b key members :
  simple (Rule a) = true -> simple (Rule b) = true -> satisfies (Rule a) (JObj members) = true -> satisfies (Rule b) (JObj members) = true ->
  In key (kw_required a) -> differ_at a b key = false.
Proof.
  intros Sa Sb Ha Hb Hin. apply not_true_iff_false. intros [_ Hd]%andb_true_iff.
  destruct (find_rule key (kw_properties a)) as [[p]|] eqn:Ep; [|done].
  destruct (find_rule key (kw_properties b)) as [[q]|] eqn:Eq; [|done]. cbn [keywords_of] in Hd.
  destruct (satisfies_required _ _ _ Ha Hin) as [x Hx].
  pose proof (satisfies_property _ _ _ _ _ Ha Hx Ep) as Hp. pose proof (satisfies_property _ _ _ _ _ Hb Hx Eq) as Hq.
  apply simple_inv in Sa as (_ & _ & _ & _ & Sa & _). apply simple_inv in Sb as (_ & _ & _ & _ & Sb & _).
  apply find_rule_In in Ep. apply find_rule_In in Eq. specialize (Sa _ _ Ep). specialize (Sb _ _ Eq).
  destruct (constants p) as [l|] eqn:El; [|done]. destruct (constants q) as [m|] eqn:Em; [|by destruct l].
  destruct (satisfies_constants _ _ _ Hp El) as (c & Hc & Hvc). destruct (satisfies_constants _ _ _ Hq Em) as (d & Hd' & Hvd).
  pose proof (apart_spec _ _ _ _ _ _ _ Hd eq_refl eq_refl Hc Hd') as Hne.
  apply simple_constants in El; [|done]. apply simple_constants in Em; [|done]. rewrite List.Forall_forall in El, Em.
  rewrite (json_eqb_constants x c d) in Hne by auto. done.
Qed.

Lemma disjoint_leaf_spec a b v :
  simple (Rule a) = true -> simple (Rule b) = true -> disjoint_leaf a b = true ->
  satisfies (Rule a) v = true -> satisfies (Rule b) v = true -> False.
Proof.
  intros Sa Sb [H|H]%orb_true_iff Ha Hb.
  - destruct (kinds a) as [l|] eqn:Ea; [|done]. destruct (kinds b) as [m|] eqn:Eb; [|by destruct l].
    pose proof (apart_spec _ _ _ _ _ _ _ H eq_refl eq_refl (satisfies_kinds _ _ _ Ha Ea) (satisfies_kinds _ _ _ Hb Eb)) as Hk.
    unfold kind_eqb in Hk. by rewrite bool_decide_eq_false in Hk.
  - rewrite !andb_true_iff, !orb_true_iff in H. destruct H as [[Hoa Hob] Hd].
    destruct (only_objects_spec _ _ Ha Hoa) as [members ->].
    destruct Hd as [[Hd|Hd]|Hd]; apply existsb_exists in Hd as (key & Hin & Hd).
    + by rewrite (differ_at_spec _ _ _ _ Sa Sb Ha Hb Hin) in Hd.
    + destruct (satisfies_required _ _ _ Ha Hin) as [x Hx]. by rewrite (satisfies_forbids _ _ _ _ Hb Hx) in Hd.
    + destruct (satisfies_required _ _ _ Hb Hin) as [x Hx]. by rewrite (satisfies_forbids _ _ _ _ Ha Hx) in Hd.
Qed.

Lemma satisfies_option k l v : options_of k = Some l -> satisfies (Rule k) v = true -> exists o, In o l /\ satisfies o v = true.
Proof.
  unfold options_of. rewrite satisfies_eq. intros E. rewrite !andb_true_iff. intros [[[H1 H2] _] _].
  destruct (kw_oneOf k) as [l'|].
  - injection E as ->. destruct (List.filter (fun o => satisfies o v) l) as [|o rest] eqn:Ef; [done|].
    assert (In o (List.filter (fun o => satisfies o v) l)) as Hin by (rewrite Ef; by left). apply filter_In in Hin. by exists o.
  - rewrite E in H2. by apply existsb_exists in H2.
Qed.

Lemma simple_option k l o : simple (Rule k) = true -> options_of k = Some l -> In o l -> simple o = true.
Proof.
  intros (H & _)%simple_inv. unfold options_of. intros E Hin. apply (H l); [|done]. destruct (kw_oneOf k); [by left|by right].
Qed.

Lemma disjoint_spec n a b v :
  simple a = true -> simple b = true -> disjoint n a b = true -> satisfies a v = true -> satisfies b v = true -> False.
Proof.
  revert a b. induction n as [|n IH]; [done|]. intros [a] [b] Sa Sb. cbn [disjoint keywords_of].
  destruct (options_of a) as [l|] eqn:Ea; [|destruct (options_of b) as [m|] eqn:Eb]; intros Hd Ha Hb.
  - destruct (satisfies_option _ _ _ Ea Ha) as (o & Hin & Ho).
    apply (IH o (Rule b)); [exact (simple_option _ _ _ Sa Ea Hin)|done|exact (forallb_In _ _ _ Hd Hin)|done|done].
  - destruct (satisfies_option _ _ _ Eb Hb) as (o & Hin & Ho).
    apply (IH (Rule a) o); [done|exact (simple_option _ _ _ Sb Eb Hin)|exact (forallb_In _ _ _ Hd Hin)|done|done].
  - by apply (disjoint_leaf_spec a b v).
Qed.

(** At most one of the alternatives accepts a value. *)
Lemma pairwise_exclusive l v :
  (forall o, In o l -> simple o = true) -> pairwise (disjoint choice_depth) l = true ->
  (length (List.filter (fun o => satisfies o v) l) <= 1)%nat.
Proof.
  induction l as [|x l IH]; [simpl; lia|]. intros Hs [Hx Hp]%andb_true_iff. cbn [List.filter].
  assert (length (List.filter (fun o => satisfies o v) l) <= 1)%nat as Hl by (apply IH; [intros; apply Hs; by right|done]).
  destruct (satisfies x v) eqn:Ex; [|done]. cbn [length].
  destruct (List.filter (fun o => satisfies o v) l) as [|y m] eqn:Ef; [simpl; lia|exfalso].
  assert (In y l /\ satisfies y v = true) as [Hin Hy] by (apply (filter_In (fun o => satisfies o v)); rewrite Ef; by left).
  apply (disjoint_spec choice_depth x y v); [apply Hs; by left|apply Hs; by right| |done|done]. exact (forallb_In _ _ _ Hx Hin).
Qed.

Lemma decisive_inv k :
  decisive (Rule k) = true ->
  (forall l, options_of k = Some l -> bare_choice k = true /\ forall o, In o l -> decisive o = true) /\
  (forall l, kw_oneOf k = Some l -> pairwise (disjoint choice_depth) l = true) /\
  (forall r, kw_items k = Some r -> decisive r = true) /\ (forall n r, In (n, r) (kw_properties k) -> decisive r = true) /\
  (forall r, kw_additional k = Checked r -> decisive r = true).
Proof.
  cbn [decisive]. rewrite !andb_true_iff. intros (((((Hb & Hone) & Hany) & Hi) & Hp) & Ha).
  split; [|split; [|split; [|split]]].
  - intros l E. rewrite E in Hb. split; [done|]. intros o Hin. unfold options_of in E. destruct (kw_oneOf k) as [l'|].
    + injection E as ->. apply andb_true_iff in Hone as [_ Hone]. exact (forallb_In _ _ _ Hone Hin).
    + rewrite E in Hany. exact (forallb_In _ _ _ Hany Hin).
  - intros l E. rewrite E in Hone. by apply andb_true_iff in Hone as [].
  - intros r E. by rewrite E in Hi.
  - intros n r Hin. exact (forallb_In _ _ _ Hp Hin).
  - intros r E. by rewrite E in Ha.
Qed.

(** A bare choice says only that an alternative accepts. *)
Lemma bare_choice_satisfies k v :
  bare_choice k = true ->
  satisfies (Rule k) v =
  match kw_oneOf k with Some l => (length (List.filter (fun o => satisfies o v) l) =? 1)%nat | None => true end &&
  match kw_anyOf k with Some l => existsb (fun o => satisfies o v) l | None => true end.
Proof.
  destruct k as [rf one any c e t mn mx ml p mi it rq pr ad]. unfold bare_choice. cbn. rewrite !andb_true_iff.
  intros (((_ & H1) & H2) & H3). destruct c, e, t, mn, mx; try done. destruct ml, p, mi, it; try done. destruct rq, pr, ad; try done.
  destruct v; simpl; rewrite ?andb_true_r; done.
Qed.

Lemma choice_refused k l v :
  simple (Rule k) = true -> decisive (Rule k) = true -> options_of k = Some l -> satisfies (Rule k) v = false ->
  forall o, In o l -> satisfies o v = false.
Proof.
  intros Hs Hd E Hf o Hin. pose proof (decisive_inv _ Hd) as (Hb & Hp & _). destruct (Hb _ E) as [Hbare _].
  rewrite bare_choice_satisfies in Hf by done. apply not_true_iff_false. intros Ho. revert Hf. apply not_false_iff_true.
  unfold options_of in E. destruct (kw_oneOf k) as [l'|] eqn:E1.
  - injection E as ->. assert (kw_anyOf k = None) as -> by (unfold bare_choice in Hbare; rewrite E1 in Hbare; by destruct (kw_anyOf k)).
    rewrite andb_true_r. apply Nat.eqb_eq.
    assert (length (List.filter (fun o => satisfies o v) l) <= 1)%nat by (apply pairwise_exclusive; [|auto]; intros; eapply simple_option; [done| |done]; unfold options_of; by rewrite E1).
    destruct (List.filter (fun o => satisfies o v) l) as [|y m] eqn:Ef; [|simpl in *; lia].
    assert (In o []) as []. rewrite <- Ef. apply filter_In. auto.
  - rewrite E. apply existsb_exists. by exists o.
Qed.

(** A value that one alternative accepts is accepted by the choice. *)
Lemma choice_accepts k l o v :
  simple (Rule k) = true -> decisive (Rule k) = true -> options_of k = Some l -> In o l -> satisfies o v = true -> satisfies (Rule k) v = true.
Proof.
  intros Hs Hd E Hin Ho. apply not_false_iff_true. intros Hf. rewrite (choice_refused _ _ _ Hs Hd E Hf o Hin) in Ho. done.
Qed.

(** ** The place a refusal is blamed on *)

(** The constants an alternative writes for the members of a record agree with
    the value; of a nested choice, those of one of its alternatives. *)
Fixpoint indicates (r : rule) (v : jsval) : bool :=
  let 'Rule k := r in
  match kw_oneOf k, kw_anyOf k with
  | Some l, _ | None, Some l => existsb (fun o => indicates o v) l
  | None, None =>
      match v with
      | JObj members =>
          forallb (fun p => match kw_const (keywords_of p.2) with
                            | None => true
                            | Some c => match assoc p.1 members with Some x => json_eqb x c | None => false end
                            end) (kw_properties k)
      | _ => true
      end
  end.

(** The rule of a member. *)
Definition member_rule (k : keywords rule) (name : jsstr) : additional rule :=
  match find_rule name (kw_properties k) with Some r => Checked r | None => kw_additional k end.

Definition member_ok (k : keywords rule) (m : jsstr * jsval) : bool :=
  match member_rule k m.1 with Allowed => true | Forbidden => false | Checked r => satisfies r m.2 end.

(** No part of the value is at fault: every item and every member satisfies
    its own rule, and no required member is missing. *)
Definition sound_parts (k : keywords rule) (v : jsval) : bool :=
  match v with
  | JArr items => match kw_items k with Some r => forallb (satisfies r) items | None => true end
  | JObj members => forallb (has_member members) (kw_required k) && forallb (member_ok k) members
  | _ => true
  end.

(** [steps] lead to the first place of the value, in document order, at which
    a rule of the schema is violated: the first required member that is
    missing; else the first item or member that is refused, and on inside it;
    and the value itself only when none of its parts is at fault.  A choice is
    blamed on the one alternative whose constants agree with the value, and on
    the value itself when there is not exactly one. *)
Inductive blames : rule -> jsval -> list token -> Prop :=
| blames_value k v :
    options_of k = None -> satisfies (Rule k) v = false -> sound_parts k v = true -> blames (Rule k) v []
| blames_choice k l v :
    options_of k = Some l -> satisfies (Rule k) v = false ->
    length (List.filter (fun o => indicates o v) l) <> 1%nat -> blames (Rule k) v []
| blames_option k l o v steps :
    options_of k = Some l -> List.filter (fun o => indicates o v) l = [o] -> blames o v steps -> blames (Rule k) v steps
| blames_item k r items i x steps :
    options_of k = None -> kw_items k = Some r -> items !! i = Some x -> forallb (satisfies r) (take i items) = true ->
    blames r x steps -> blames (Rule k) (JArr items) (TIndex i :: steps)
| blames_missing k members name :
    options_of k = None -> List.find (fun key => negb (has_member members key)) (kw_required k) = Some name ->
    blames (Rule k) (JObj members) [TName name]
| blames_unexpected k before name x after :
    options_of k = None -> forallb (has_member (before ++ (name, x) :: after)) (kw_required k) = true ->
    forallb (member_ok k) before = true -> member_rule k name = Forbidden ->
    blames (Rule k) (JObj (before ++ (name, x) :: after)) [TName name]
| blames_member k r before name x after steps :
    options_of k = None -> forallb (has_member (before ++ (name, x) :: after)) (kw_required k) = true ->
    forallb (member_ok k) before = true -> member_rule k name = Checked r ->
    blames r x steps -> blames (Rule k) (JObj (before ++ (name, x) :: after)) (TName name :: steps).

(** The text of a path. *)
Definition render_step (path : jsstr) (step : token) : jsstr :=
  match step with TIndex i => at_index path i | TName name => dot path name end.

Definition render (path : jsstr) (steps : list token) : jsstr := foldl render_step path steps.

(** ** The validator finds one *)

Section finds.
  Context (defs : list (jsstr * rule)).
  (** No definition is itself a reference. *)
  Hypothesis direct : Forall (fun d => kw_ref (keywords_of d.2) = None) defs.

(** Constants of members are written where the member is declared, not behind
    a reference. *)
Definition own_const (p : rule) : bool :=
  match kw_ref (keywords_of p) with
  | None => true
  | Some ref =>
      match kw_const (keywords_of p), find_rule (ref_name ref) defs with
      | None, Some d => match kw_const (keywords_of d) with None => true | Some _ => false end
      | _, _ => false
      end
  end.

Fixpoint inline (r : rule) : bool :=
  let 'Rule k := r in
  match kw_oneOf k with Some l => forallb inline l | None => true end &&
  match kw_anyOf k with Some l => forallb inline l | None => true end &&
  match kw_items k with Some r' => inline r' | None => true end &&
  forallb (fun p => own_const p.2 && inline p.2) (kw_properties k) &&
  match kw_additional k with Checked r' => inline r' | _ => true end.

Hypothesis defs_inline : forallb (fun d => inline d.2) defs = true.

Lemma inline_ref ref r : find_rule (ref_name ref) defs = Some r -> inline r = true.
Proof. intros Hr%find_rule_In. exact (forallb_In _ _ _ defs_inline Hr). Qed.

Lemma inline_inv r :
  inline r = true ->
  (forall l o, kw_oneOf (keywords_of r) = Some l \/ kw_anyOf (keywords_of r) = Some l -> In o l -> inline o = true) /\
  (forall r', kw_items (keywords_of r) = Some r' -> inline r' = true) /\
  (forall n p, In (n, p) (kw_properties (keywords_of r)) -> own_const p = true /\ inline p = true) /\
  (forall r', kw_additional (keywords_of r) = Checked r' -> inline r' = true).
Proof.
  destruct r as [k]. cbn [inline keywords_of]. rewrite !andb_true_iff. intros ((((H1 & H2) & H3) & H4) & H5).
  split; [|split; [|split]].
  - intros l o [E|E] Hin; rewrite E in *; by eapply forallb_In.
  - intros r' E. by rewrite E in H3.
  - intros n p Hin. pose proof (forallb_In _ _ _ H4 Hin) as H. by apply andb_true_iff in H.
  - intros r' E. by rewrite E in H5.
Qed.

(** Expansion keeps the constant of a member. *)
Lemma expand_const n p p' : own_const p = true -> expand defs n p = Some p' -> kw_const (keywords_of p') = kw_const (keywords_of p).
Proof.
  assert (forall n p p', kw_ref (keywords_of p) = None -> expand defs n p = Some p' -> kw_const (keywords_of p') = kw_const (keywords_of p)) as Hno.
  { clear n p p'. intros [|n] p p' Hr; [done|]. cbn [expand]. rewrite Hr.
    intros (? & _ & (? & _ & (? & _ & (? & _ & (? & _ & [= <-])%bind_Some)%bind_Some)%bind_Some)%bind_Some)%bind_Some. done. }
  unfold own_const. destruct (kw_ref (keywords_of p)) as [ref|] eqn:Er; [|intros _; by apply Hno].
  destruct (kw_const (keywords_of p)); [done|]. destruct (find_rule (ref_name ref) defs) as [d|] eqn:Ed; [|done].
  destruct (kw_const (keywords_of d)) eqn:Ec; [done|]. intros _. destruct n as [|n]; [done|]. intros He%expand_inv. rewrite Er in He.
  destruct He as (r' & Hr' & He). rewrite Ed in Hr'. injection Hr' as <-.
  assert (kw_ref (keywords_of d) = None) as Hd by (apply find_rule_In in Ed; rewrite List.Forall_forall in direct; exact (direct _ Ed)).
  by rewrite (Hno n d p' Hd He).
Qed.

Lemma some_ok_map {A B} (f : A -> res bool) (g : B -> bool) l l' :
  Forall2 (fun x y => f x = Ok (g y)) l l' -> some_ok f l = Ok (existsb g l').
Proof. induction 1 as [|x y l l' E _ IH]; [done|]. simpl. rewrite E. cbn [mbind result_bind]. by destruct (g y). Qed.

Lemma filter_ok_map {A B} (f : A -> res bool) (g : B -> bool) (R : A -> B -> Prop) l l' :
  Forall2 (fun x y => R x y /\ f x = Ok (g y)) l l' ->
  exists kept, filter_ok f l = Ok kept /\ Forall2 (fun x y => R x y /\ In x l) kept (List.filter g l').
Proof.
  induction 1 as [|x y l l' [HR E] _ (kept & IH & HF)]; [exists []; by split|]. simpl. rewrite E, IH. cbn [mbind result_bind].
  eexists. split; [done|]. assert (Forall2 (fun x0 y0 => R x0 y0 /\ (x = x0 \/ In x0 l)) kept (List.filter g l')) as HF'.
  { eapply list.Forall2_impl; [exact HF|]. intros a b [? ?]. auto. }
  destruct (g y); [constructor; auto|done].
Qed.

(** [candidate] keeps exactly the alternatives the value indicates. *)
Lemma candidate_indicates m n v r t :
  (m <= n)%nat -> expand defs m r = Some t -> inline r = true -> simple t = true -> candidate defs n v r = Ok (indicates t v).
Proof.
  revert n r t. induction m as [m IH] using lt_wf_ind. intros n r t Hle He Hin Hs. destruct m as [|m]; [done|]. destruct n as [|n]; [lia|].
  assert (exists m' r' k, (m' <= m)%nat /\ resolve defs r = Ok r' /\ inline r' = true /\ t = Rule k /\
    expanded (expand defs m') (keywords_of r') k) as (m' & r' & k & Hm & Hr & Hin' & -> & Hx).
  { pose proof (expand_inv _ _ _ _ He) as H. unfold resolve. destruct (kw_ref (keywords_of r)) as [ref|].
    - destruct H as (r' & Hr & H). unfold resolve_ref. rewrite Hr. pose proof (inline_ref _ _ Hr). destruct m as [|m]; [done|].
      apply find_rule_In in Hr. rewrite List.Forall_forall in direct. specialize (direct _ Hr). simpl in direct.
      apply expand_inv in H. rewrite direct in H. destruct H as (k & -> & H). exists m, r', k. split; [lia|done].
    - destruct H as (k & -> & H). exists m, r, k. split; [lia|done]. }
  cbn [candidate indicates]. rewrite Hr. cbn [mbind result_bind].
  pose proof (inline_inv _ Hin') as (Io & _ & Ip & _). pose proof (simple_inv _ Hs) as (So & _ & _ & _ & Sp & _).
  assert (forall l l', kw_oneOf (keywords_of r') = Some l \/ kw_anyOf (keywords_of r') = Some l -> kw_oneOf k = Some l' \/ kw_anyOf k = Some l' ->
    Forall2 (fun x y => expand defs m' x = Some y) l l' -> some_ok (candidate defs n v) l = Ok (existsb (fun o => indicates o v) l')) as Hl.
  { intros l l' El El' HF. apply some_ok_map.
    assert (forall o, In o l -> inline o = true) as Io' by (intros; by eapply Io).
    assert (forall o, In o l' -> simple o = true) as So' by (intros; by eapply So). clear El El'.
    induction HF as [|x y l l' H _ IHl]; constructor; [apply (IH m'); [lia|lia|done|apply Io'; by left|apply So'; by left]|].
    apply IHl; intros; [apply Io'|apply So']; by right. }
  pose proof (ex_oneOf _ _ _ Hx) as H1. pose proof (ex_anyOf _ _ _ Hx) as H2. pose proof (ex_properties _ _ _ Hx) as HF.
  destruct (kw_oneOf (keywords_of r')) as [l|], (kw_oneOf k) as [l'|]; try done; [by apply Hl; auto|].
  destruct (kw_anyOf (keywords_of r')) as [l|], (kw_anyOf k) as [l'|]; try done; [by apply Hl; auto|].
  f_equal. destruct v as [| | | | | |members|]; try done.
  assert (forall n p, In (n, p) (kw_properties (keywords_of r')) -> own_const p = true) as Oc by (intros; by eapply Ip). clear Ip.
  induction HF as [|[name p] q rules rules' H HF IHl]; [done|]. simpl in H. destruct (expand defs m' p) as [p'|] eqn:Ep; [|done].
  injection H as <-. cbn [forallb]. f_equal; [|apply IHl; intros; [eapply Sp|eapply Oc]; by right].
  cbn [fst snd]. rewrite (expand_const m' p p') by (done || (eapply Oc; by left)).
  destruct (kw_const (keywords_of p)) as [c|] eqn:Ec; [|done].
  assert (primitive_constant c = true) as Hprim.
  { specialize (Sp name p' (or_introl eq_refl)). destruct p' as [kp]. cbn [simple] in Sp. rewrite !andb_true_iff in Sp.
    pose proof (expand_const m' p (Rule kp) ltac:(eapply Oc; by left) Ep) as E. cbn [keywords_of] in E. rewrite Ec in E.
    rewrite E in Sp. simpl in Sp. tauto. }
  destruct (assoc name members) as [x|]; cbn [default from_option id]; [by apply strict_eq_constant|]. by destruct c.
Qed.

(** [violation] finds the place to blame under every rule of smaller depth. *)
Definition located (n : nat) : Prop :=
  forall r t v path,
    expand defs n r = Some t -> inline r = true -> simple t = true -> decisive t = true -> wire_value v = true -> satisfies t v = false ->
    exists steps, violation defs n v r path = Ok (Some (render path steps)) /\ blames t v steps.

Lemma located_items n r t items path i :
  located n -> expand defs n r = Some t -> inline r = true -> simple t = true -> decisive t = true -> forallb wire_value items = true ->
  (exists j x steps, find_refused (fun item => matches defs n item r) i items = Ok (Some (i + j, x)%nat) /\ items !! j = Some x /\
     forallb (satisfies t) (take j items) = true /\
     violation defs n x r (at_index path (i + j)) = Ok (Some (render (at_index path (i + j)) steps)) /\ blames t x steps) \/
  find_refused (fun item => matches defs n item r) i items = Ok None /\ forallb (satisfies t) items = true.
Proof.
  intros IH He Hin Hs Hd. revert i. induction items as [|x items IHl]; intros i Hw; [by right|].
  apply andb_true_iff in Hw as [Hx Hw]. cbn [find_refused]. rewrite (matches_decides defs n r t x) by done.
  cbn [mbind result_bind]. destruct (satisfies t x) eqn:E.
  - destruct (IHl (S i) Hw) as [(j & y & steps & H1 & H2 & H3 & H4 & H5)|[H1 H2]]; [left|right; simpl; by rewrite E].
    exists (S j), y, steps. rewrite Nat.add_succ_r. simpl. rewrite E. by repeat split.
  - left. destruct (IH r t x (at_index path i) He Hin Hs Hd Hx E) as (steps & Hv & Hr).
    exists O, x, steps. rewrite Nat.add_0_r. by repeat split.
Qed.

Lemma located_members n k t path before rest :
  located n -> expanded (expand defs n) (keywords_of k) t -> inline k = true -> simple (Rule t) = true -> decisive (Rule t) = true ->
  options_of t = None -> forallb (has_member (before ++ rest)) (kw_required t) = true -> forallb (member_ok t) before = true ->
  forallb (fun m => wire_value m.2) rest = true -> satisfies (Rule t) (JObj (before ++ rest)) = false ->
  exists steps, violation_members (matches defs n) (violation defs n) (keywords_of k) path rest = Ok (Some (render path steps)) /\
                blames (Rule t) (JObj (before ++ rest)) steps.
Proof.
  intros IH Hx Hin Hs Hd Ho Hreq. pose proof (simple_inv _ Hs) as (_ & _ & _ & _ & Sp & Sa).
  pose proof (decisive_inv _ Hd) as (_ & _ & _ & Dp & Da). pose proof (inline_inv _ Hin) as (_ & _ & Ip & Ia). revert before Hreq.
  induction rest as [|[name x] rest IHr]; intros before Hreq Hb Hw Hf.
  { exists []. split; [done|]. apply blames_value; [done|done|]. simpl. rewrite app_nil_r in *. by rewrite Hreq, Hb. }
  apply andb_true_iff in Hw as [Hwx Hw]. cbn [violation_members].
  assert (before ++ (name, x) :: rest = (before ++ [(name, x)]) ++ rest) as Eapp by by rewrite <- app_assoc.
  assert (member_ok t (name, x) = true ->
    exists steps, violation_members (matches defs n) (violation defs n) (keywords_of k) path rest = Ok (Some (render path steps)) /\
      blames (Rule t) (JObj (before ++ (name, x) :: rest)) steps) as Hnext.
  { intros Hok. rewrite Eapp in *. apply IHr; [done| |done|done]. rewrite forallb_app, Hb. simpl. by rewrite Hok. }
  assert (forall r' t', expand defs n r' = Some t' -> inline r' = true -> simple t' = true -> decisive t' = true ->
            member_rule t name = Checked t' ->
            exists steps, (b ← matches defs n x r';
                           if (b : bool) then violation_members (matches defs n) (violation defs n) (keywords_of k) path rest
                           else violation defs n x r' (dot path name)) = Ok (Some (render path steps)) /\
                          blames (Rule t) (JObj (before ++ (name, x) :: rest)) steps) as Hsub.
  { intros r' t' He Hi St Dt Hm. rewrite (matches_decides defs n r' t' x) by done. cbn [mbind result_bind].
    destruct (satisfies t' x) eqn:Ex; [apply Hnext; unfold member_ok; cbn [fst snd]; by rewrite Hm|].
    destruct (IH r' t' x (dot path name) He Hi St Dt Hwx Ex) as (steps & -> & Hr).
    exists (TName name :: steps). split; [done|]. by eapply blames_member. }
  pose proof (find_rule_expanded _ _ _ name (ex_properties _ _ _ Hx)) as Hp.
  destruct (find_rule name (kw_properties (keywords_of k))) as [r'|] eqn:Ef.
  - destruct Hp as (t' & He & Ht). apply (Hsub r' t'); [done|by eapply Ip, find_rule_In|by eapply Sp, find_rule_In|by eapply Dp, find_rule_In|].
    unfold member_rule. by rewrite Ht.
  - pose proof (ex_additional _ _ _ Hx) as Ha.
    assert (member_rule t name = kw_additional t) as Hm by (unfold member_rule; by rewrite Hp).
    destruct (kw_additional (keywords_of k)) as [| |r'] eqn:Ek, (kw_additional t) as [| |t'] eqn:Et; try done.
    + apply Hnext. unfold member_ok. cbn [fst snd]. by rewrite Hm.
    + exists [TName name]. split; [done|]. by apply blames_unexpected.
    + apply (Hsub r' t'); [done|by eapply Ia|by apply Sa|by apply Da|done].
Qed.

Lemma located_choice n v path k l l' :
  located n -> wire_value v = true -> simple (Rule k) = true -> decisive (Rule k) = true -> satisfies (Rule k) v = false ->
  options_of k = Some l' -> (forall o, In o l -> inline o = true) -> Forall2 (fun x y => expand defs n x = Some y) l l' ->
  exists steps, (candidates ← filter_ok (candidate defs n v) l;
                 match candidates with [c] => violation defs n v c path | _ => Ok (Some path) end) = Ok (Some (render path steps)) /\
                blames (Rule k) v steps.
Proof.
  intros IH Hw Hs Hd Hf E Hin HF. pose proof (fun o => simple_option k l' o Hs E) as So.
  destruct (filter_ok_map (candidate defs n v) (fun o => indicates o v) (fun x y => expand defs n x = Some y) l l') as (kept & -> & Hkept).
  { clear E Hf. induction HF as [|x y l l' H _ IHl]; constructor.
    - split; [done|]. apply (candidate_indicates n n); [lia|done|apply Hin; by left|apply So; by left].
    - apply IHl; intros; [apply Hin|apply So]; by right. }
  cbn [mbind result_bind]. pose proof (list.Forall2_length _ _ _ Hkept) as Hlen.
  assert (length kept <> 1%nat ->
    exists steps, Ok (Some path) = Ok (E := exn) (Some (render path steps)) /\ blames (Rule k) v steps) as Hhere.
  { intros Hn. exists []. split; [done|]. apply (blames_choice k l'); [done..|]. by rewrite <- Hlen. }
  destruct kept as [|c [|c' kept]]; [by apply Hhere| |by apply Hhere].
  inversion Hkept as [|? t ? rest [Ht Hc] Hrest E1 E2]; subst. inversion Hrest; subst.
  assert (In t l') as Hin' by (apply (filter_In (fun o => indicates o v)); rewrite <- E2; by left).
  pose proof (choice_refused _ _ _ Hs Hd E Hf) as Hall. pose proof (decisive_inv _ Hd) as (Dc & _).
  destruct (IH c t v path Ht (Hin _ Hc) (So _ Hin') (proj2 (Dc _ E) _ Hin') Hw (Hall _ Hin')) as (steps & -> & Hr).
  exists steps. split; [done|]. by eapply blames_option.
Qed.

Lemma violation_located n : located n.
Proof.
  induction n as [|n IH]; [done|]. intros r t v path He Hin Hs Hd Hw Hf. cbn [violation].
  rewrite (matches_decides defs (S n) r t v He Hs Hw), Hf. cbn [mbind result_bind]. pose proof (expand_inv _ _ _ _ He) as Hx.
  destruct (kw_ref (keywords_of r)) as [ref|].
  { destruct Hx as (r' & Hr & Hx). unfold resolve_ref. rewrite Hr. apply IH; try done. by eapply inline_ref. }
  destruct Hx as (k & -> & Hx). pose proof (ex_oneOf _ _ _ Hx) as H1. pose proof (ex_anyOf _ _ _ Hx) as H2.
  pose proof (inline_inv _ Hin) as (Io & Ii & _).
  destruct (kw_oneOf (keywords_of r)) as [l|] eqn:R1, (kw_oneOf k) as [l'|] eqn:E1; try done.
  { apply (located_choice n v path k l l'); try done; [unfold options_of; by rewrite E1|]. intros o Hl. by apply (Io l); [left|]. }
  destruct (kw_anyOf (keywords_of r)) as [l|] eqn:R2, (kw_anyOf k) as [l'|] eqn:E2; try done.
  { apply (located_choice n v path k l l'); try done; [unfold options_of; by rewrite E1, E2|]. intros o Hl. by apply (Io l); [right|]. }
  assert (options_of k = None) as Ho by (unfold options_of; by rewrite E1, E2).
  assert (sound_parts k v = true -> exists steps, Ok (Some path) = Ok (E := exn) (Some (render path steps)) /\ blames (Rule k) v steps) as Hhere
    by (intros; exists []; split; [done|by constructor]).
  destruct v as [| | | | |items|members|]; try (by apply Hhere).
  - pose proof (ex_items _ _ _ Hx) as Hi. simpl in Hhere. destruct (kw_items (keywords_of r)) as [r'|] eqn:Er, (kw_items k) as [t'|] eqn:Ei; try done; [|by apply Hhere].
    pose proof (simple_inv _ Hs) as (_ & _ & Si & _). pose proof (decisive_inv _ Hd) as (_ & _ & Di & _).
    destruct (located_items n r' t' items path 0 IH Hi (Ii _ eq_refl) (Si _ Ei) (Di _ Ei) Hw) as [(j & x & steps & -> & Hj & Ht & Hv & Hr)|[-> Hall]];
      [|by apply Hhere].
    cbn [mbind result_bind] in *. rewrite Hv. exists (TIndex j :: steps). split; [done|]. by eapply blames_item.
  - rewrite (ex_required _ _ _ Hx). destruct (List.find _ (kw_required k)) as [key|] eqn:Ef.
    + exists [TName key]. split; [done|]. by apply blames_missing.
    + cbn [wire_value] in Hw. apply andb_true_iff in Hw as [_ Hw].
      apply (located_members n r k path [] members); try done. simpl. apply forallb_forall. intros key Hk.
      pose proof (find_none _ _ Ef key Hk) as Hm. by apply negb_false_iff in Hm.
Qed.

Lemma violation_none n r t v path :
  expand defs n r = Some t -> simple t = true -> wire_value v = true -> satisfies t v = true -> violation defs n v r path = Ok None.
Proof.
  intros He Hs Hv E. destruct n as [|n]; [done|]. cbn [violation]. by rewrite (matches_decides defs (S n) r t v He Hs Hv), E.
Qed.

(** A value is explained exactly when it is refused. *)
Lemma violation_exact n r t v path :
  expand defs n r = Some t -> inline r = true -> simple t = true -> decisive t = true -> wire_value v = true ->
  exists o, violation defs n v r path = Ok o /\ (o = None <-> satisfies t v = true) /\
            forall p, o = Some p -> exists steps, p = render path steps /\ blames t v steps.
Proof.
  intros He Hin Hs Hd Hv. destruct (satisfies t v) eqn:E.
  - exists None. split; [by eapply violation_none|]. done.
  - destruct (violation_located n r t v path He Hin Hs Hd Hv E) as (steps & H & Hst). eexists. split; [exact H|]. split; [done|].
    intros p [= <-]. by exists steps.
Qed.
End finds.
