(* ===== verification/ProtocolSchema.v ===== *)
(** * The message schema of the conformance replay

    [formal/replay/protocol.schema.json] as the value [JSON.parse] returns,
    one constant per definition.  The texts of annotations (titles and
    descriptions) are left out, since no rule reads them. *)

From S2P Require Import Prelude JsValue.

#[local] Open Scope string_scope.

Definition object (members : list (string * jsval)) : jsval := JObj ((fun '(n, v) => (js n, v)) <$> members).

Definition def_request : jsval :=
  object [
   ("oneOf", JArr [
    object [
     ("type", JStr (js "object"));
     ("properties", object [
      ("version", object [("const", JInt 1)]);
      ("id", object [("type", JStr (js "integer")); ("minimum", JInt 1); ("maximum", JInt 9007199254740991)]);
      ("op", object [("const", JStr (js "profiles"))])]);
     ("required", JArr [JStr (js "version"); JStr (js "id"); JStr (js "op")]);
     ("additionalProperties", JBool false)];
    object [
     ("type", JStr (js "object"));
     ("properties", object [
      ("version", object [("const", JInt 1)]);
      ("id", object [("type", JStr (js "integer")); ("minimum", JInt 1); ("maximum", JInt 9007199254740991)]);
      ("op", object [("const", JStr (js "prepare"))]);
      ("profile", object [
       ("enum", JArr [
        JStr (js "admission");
        JStr (js "core");
        JStr (js "dark-layers");
        JStr (js "effects");
        JStr (js "independent");
        JStr (js "layers");
        JStr (js "local-clock");
        JStr (js "local-failure");
        JStr (js "policy");
        JStr (js "recovery");
        JStr (js "recovery-read");
        JStr (js "runtime-boundaries");
        JStr (js "scope");
        JStr (js "shadow");
        JStr (js "shadow-layers");
        JStr (js "shadow-read-deadlines");
        JStr (js "source-budgets")])]);
      ("path", object [("type", JStr (js "string"))]);
      ("raw", object [("type", JStr (js "string"))])]);
     ("required", JArr [JStr (js "version"); JStr (js "id"); JStr (js "op"); JStr (js "profile"); JStr (js "path")]);
     ("additionalProperties", JBool false)];
    object [
     ("type", JStr (js "object"));
     ("properties", object [
      ("version", object [("const", JInt 1)]);
      ("id", object [("type", JStr (js "integer")); ("minimum", JInt 1); ("maximum", JInt 9007199254740991)]);
      ("op", object [("const", JStr (js "discard"))]);
      ("session", object [("type", JStr (js "string")); ("pattern", JStr (js "^[1-9][0-9]*$"))])]);
     ("required", JArr [JStr (js "version"); JStr (js "id"); JStr (js "op"); JStr (js "session")]);
     ("additionalProperties", JBool false)];
    object [
     ("type", JStr (js "object"));
     ("properties", object [
      ("version", object [("const", JInt 1)]);
      ("id", object [("type", JStr (js "integer")); ("minimum", JInt 1); ("maximum", JInt 9007199254740991)]);
      ("op", object [("const", JStr (js "observe"))]);
      ("session", object [("type", JStr (js "string")); ("pattern", JStr (js "^[1-9][0-9]*$"))]);
      ("index", object [("type", JStr (js "integer")); ("minimum", JInt 0); ("maximum", JInt 9007199254740991)]);
      ("settlement", object [("const", JStr (js "causally-ready-v1"))]);
      ("observed", object [("type", JStr (js "object")); ("description", JStr [])]);
      ("receipt", object [("type", JStr (js "object")); ("description", JStr [])]);
      ("environment", object [
       ("type", JStr (js "object"));
       ("properties", object [
        ("wallMs", object [
         ("type", JStr (js "integer"));
         ("minimum", JInt (-9007199254740991));
         ("maximum", JInt 9007199254740991);
         ("description", JStr [])])]);
       ("required", JArr [JStr (js "wallMs")]);
       ("additionalProperties", JBool false)])]);
     ("required", JArr [
      JStr (js "version");
      JStr (js "id");
      JStr (js "op");
      JStr (js "session");
      JStr (js "index");
      JStr (js "settlement");
      JStr (js "observed");
      JStr (js "environment")]);
     ("additionalProperties", JBool false)]])].

Definition def_response : jsval :=
  object [
   ("oneOf", JArr [
    object [
     ("type", JStr (js "object"));
     ("properties", object [
      ("version", object [("const", JInt 1)]);
      ("id", object [("type", JStr (js "integer")); ("minimum", JInt 1); ("maximum", JInt 9007199254740991)]);
      ("ok", object [("const", JBool true)]);
      ("result", object [
       ("oneOf", JArr [
        object [
         ("type", JStr (js "object"));
         ("properties", object [
          ("settlement", object [("const", JStr (js "causally-ready-v1"))]);
          ("profiles", object [
           ("type", JStr (js "object"));
           ("additionalProperties", object [("type", JStr (js "array")); ("items", object [("type", JStr (js "string"))])])])]);
         ("required", JArr [JStr (js "settlement"); JStr (js "profiles")]);
         ("additionalProperties", JBool false)];
        object [
         ("type", JStr (js "object"));
         ("properties", object [
          ("session", object [("type", JStr (js "string")); ("pattern", JStr (js "^[1-9][0-9]*$"))]);
          ("settlement", object [("const", JStr (js "causally-ready-v1"))]);
          ("observation", object [
           ("enum", JArr [JStr (js "behaviorObservation"); JStr (js "coreObservation"); JStr (js "localClockObservation")]);
           ("description", JStr [])]);
          ("receipt", object [("enum", JArr [JStr (js "settlementReceipt"); JNull]); ("description", JStr [])]);
          ("fixture", object [("$ref", JStr (js "#/$defs/fixture"))]);
          ("setup", object [("type", JStr (js "array")); ("items", object [("$ref", JStr (js "#/$defs/command"))])]);
          ("actions", object [("type", JStr (js "array")); ("items", object [("type", JStr (js "string"))])]);
          ("steps", object [("type", JStr (js "integer")); ("minimum", JInt 2)])]);
         ("required", JArr [
          JStr (js "session");
          JStr (js "settlement");
          JStr (js "observation");
          JStr (js "receipt");
          JStr (js "fixture");
          JStr (js "setup");
          JStr (js "actions");
          JStr (js "steps")]);
         ("additionalProperties", JBool false)];
        object [
         ("type", JStr (js "object"));
         ("properties", object [("discarded", object [("const", JBool true)])]);
         ("required", JArr [JStr (js "discarded")]);
         ("additionalProperties", JBool false)];
        object [
         ("type", JStr (js "object"));
         ("properties", object [
          ("complete", object [("const", JBool false)]);
          ("index", object [("type", JStr (js "integer")); ("minimum", JInt 0); ("maximum", JInt 9007199254740991)]);
          ("inputs", object [
           ("type", JStr (js "array"));
           ("items", object [("$ref", JStr (js "#/$defs/command"))]);
           ("minItems", JInt 1)])]);
         ("required", JArr [JStr (js "complete"); JStr (js "index"); JStr (js "inputs")]);
         ("additionalProperties", JBool false)];
        object [
         ("type", JStr (js "object"));
         ("properties", object [
          ("complete", object [("const", JBool true)]);
          ("steps", object [("type", JStr (js "integer")); ("minimum", JInt 2)])]);
         ("required", JArr [JStr (js "complete"); JStr (js "steps")]);
         ("additionalProperties", JBool false)]])])]);
     ("required", JArr [JStr (js "version"); JStr (js "id"); JStr (js "ok"); JStr (js "result")]);
     ("additionalProperties", JBool false)];
    object [
     ("type", JStr (js "object"));
     ("properties", object [
      ("version", object [("const", JInt 1)]);
      ("id", object [
       ("anyOf", JArr [
        object [("type", JStr (js "integer")); ("minimum", JInt 1); ("maximum", JInt 9007199254740991)];
        object [("type", JStr (js "null"))]])]);
      ("ok", object [("const", JBool false)]);
      ("error", object [("type", JStr (js "string")); ("minLength", JInt 1)])]);
     ("required", JArr [JStr (js "version"); JStr (js "id"); JStr (js "ok"); JStr (js "error")]);
     ("additionalProperties", JBool false)]])].

Definition def_command : jsval :=
  object [
   ("oneOf", JArr [
    object [("$ref", JStr (js "#/$defs/behaviorCommand"))];
    object [("$ref", JStr (js "#/$defs/coreCommand"))];
    object [("$ref", JStr (js "#/$defs/clockCommand"))]])].

Definition def_behaviorCommand : jsval :=
  object [
   ("oneOf", JArr [
    object [
     ("type", JStr (js "object"));
     ("properties", object [
      ("op", object [("const", JStr (js "begin"))]);
      ("key", object [("type", JStr (js "string"))]);
      ("useCase", object [("type", JStr (js "string"))]);
      ("instance", object [("type", JStr (js "string"))]);
      ("scope", object [("type", JStr (js "string"))]);
      ("outside", object [("type", JStr (js "boolean"))]);
      ("disabled", object [("type", JStr (js "boolean"))]);
      ("recovery", object [("enum", JArr [JStr (js "allow"); JStr (js "deny"); JStr (js "error")])])]);
     ("required", JArr [JStr (js "op")]);
     ("additionalProperties", JBool false)];
    object [
     ("type", JStr (js "object"));
     ("properties", object [
      ("op", object [("const", JStr (js "resolve"))]);
      ("loader", object [("type", JStr (js "integer")); ("minimum", JInt 0); ("maximum", JInt 9007199254740991)]);
      ("value", object [("type", JArr [JStr (js "number"); JStr (js "string"); JStr (js "boolean"); JStr (js "null")])])]);
     ("required", JArr [JStr (js "op"); JStr (js "loader")]);
     ("additionalProperties", JBool false)];
    object [
     ("type", JStr (js "object"));
     ("description", JStr []);
     ("properties", object [
      ("op", object [("const", JStr (js "resolve"))]);
      ("loader", object [("type", JStr (js "integer")); ("minimum", JInt 0); ("maximum", JInt 9007199254740991)]);
      ("unrenderable", object [("const", JBool true)])]);
     ("required", JArr [JStr (js "op"); JStr (js "loader"); JStr (js "unrenderable")]);
     ("additionalProperties", JBool false)];
    object [
     ("type", JStr (js "object"));
     ("properties", object [
      ("op", object [("const", JStr (js "reject"))]);
      ("loader", object [("type", JStr (js "integer")); ("minimum", JInt 0); ("maximum", JInt 9007199254740991)]);
      ("error", object [("const", JStr (js "timeout"))])]);
     ("required", JArr [JStr (js "op"); JStr (js "loader")]);
     ("additionalProperties", JBool false)];
    object [
     ("type", JStr (js "object"));
     ("properties", object [
      ("op", object [("const", JStr (js "advance"))]);
      ("ms", object [("type", JStr (js "integer")); ("minimum", JInt 0); ("maximum", JInt 9007199254740991)]);
      ("deliverTimers", object [("type", JStr (js "boolean"))])]);
     ("required", JArr [JStr (js "op"); JStr (js "ms")]);
     ("additionalProperties", JBool false)];
    object [
     ("type", JStr (js "object"));
     ("properties", object [
      ("op", object [("const", JStr (js "shiftWall"))]);
      ("ms", object [
       ("type", JStr (js "integer"));
       ("minimum", JInt (-9007199254740991));
       ("maximum", JInt 9007199254740991)])]);
     ("required", JArr [JStr (js "op"); JStr (js "ms")]);
     ("additionalProperties", JBool false)];
    object [
     ("type", JStr (js "object"));
     ("properties", object [
      ("op", object [("const", JStr (js "seed"))]);
      ("useCase", object [("type", JStr (js "string"))]);
      ("key", object [("type", JStr (js "string"))]);
      ("frameHex", object [("type", JStr (js "string"))]);
      ("payloadText", object [("type", JStr (js "string"))]);
      ("payloadHex", object [("type", JStr (js "string"))]);
      ("value", object [("type", JArr [JStr (js "number"); JStr (js "string"); JStr (js "boolean"); JStr (js "null")])]);
      ("ageMs", object [
       ("type", JStr (js "integer"));
       ("minimum", JInt (-9007199254740991));
       ("maximum", JInt 9007199254740991);
       ("description", JStr [])]);
      ("ttlMs", object [
       ("type", JStr (js "integer"));
       ("minimum", JInt 0);
       ("maximum", JInt 9007199254740991);
       ("description", JStr [])])]);
     ("required", JArr [JStr (js "op")]);
     ("additionalProperties", JBool false)];
    object [
     ("type", JStr (js "object"));
     ("properties", object [
      ("op", object [("const", JStr (js "invalidate"))]);
      ("key", object [("type", JStr (js "string"))]);
      ("futureBufferMs", object [
       ("type", JStr (js "integer"));
       ("minimum", JInt 0);
       ("maximum", JInt 9007199254740991);
       ("description", JStr [])])]);
     ("required", JArr [JStr (js "op")]);
     ("additionalProperties", JBool false)];
    object [
     ("type", JStr (js "object"));
     ("properties", object [("op", object [("const", JStr (js "observeMarker"))]); ("key", object [("type", JStr (js "string"))])]);
     ("required", JArr [JStr (js "op")]);
     ("additionalProperties", JBool false)];
    object [
     ("type", JStr (js "object"));
     ("properties", object [("op", object [("const", JStr (js "adapterReply"))]); ("value", object [])]);
     ("required", JArr [JStr (js "op"); JStr (js "value")]);
     ("additionalProperties", JBool false)];
    object [
     ("type", JStr (js "object"));
     ("properties", object [
      ("op", object [("const", JStr (js "policy"))]);
      ("value", object [("type", JArr [JStr (js "object"); JStr (js "null")]); ("description", JStr [])])]);
     ("required", JArr [JStr (js "op"); JStr (js "value")]);
     ("additionalProperties", JBool false)];
    object [
     ("type", JStr (js "object"));
     ("properties", object [
      ("op", object [("const", JStr (js "faults"))]);
      ("value", object [
       ("type", JStr (js "object"));
       ("properties", object [
        ("localStorage", object [("type", JStr (js "boolean"))]);
        ("read", object [("type", JStr (js "boolean"))]);
        ("write", object [("type", JStr (js "boolean"))]);
        ("dump", object [("type", JStr (js "boolean"))]);
        ("load", object [("type", JStr (js "boolean"))]);
        ("policy", object [("type", JStr (js "boolean"))]);
        ("observer", object [("type", JStr (js "boolean"))]);
        ("logger", object [("type", JStr (js "boolean")); ("description", JStr [])]);
        ("holdReads", object [("type", JStr (js "boolean"))]);
        ("holdWrites", object [("type", JStr (js "boolean"))]);
        ("holdDumps", object [("type", JStr (js "boolean"))]);
        ("holdLoads", object [("type", JStr (js "boolean"))]);
        ("holdPolicies", object [("type", JStr (js "boolean"))])]);
       ("required", JArr []);
       ("additionalProperties", JBool false)])]);
     ("required", JArr [JStr (js "op"); JStr (js "value")]);
     ("additionalProperties", JBool false)];
    object [
     ("type", JStr (js "object"));
     ("properties", object [
      ("op", object [("const", JStr (js "release"))]);
      ("effect", object [
       ("enum", JArr [JStr (js "read"); JStr (js "write"); JStr (js "dump"); JStr (js "load"); JStr (js "policy")])]);
      ("index", object [("type", JStr (js "integer")); ("minimum", JInt 0); ("maximum", JInt 9007199254740991)]);
      ("fail", object [("type", JStr (js "boolean"))])]);
     ("required", JArr [JStr (js "op"); JStr (js "effect"); JStr (js "index")]);
     ("additionalProperties", JBool false)];
    object [
     ("type", JStr (js "object"));
     ("properties", object [
      ("op", object [("const", JStr (js "openScope"))]);
      ("id", object [("type", JStr (js "string"))]);
      ("parent", object [("type", JStr (js "string"))]);
      ("disabled", object [("type", JStr (js "boolean"))]);
      ("instance", object [("type", JStr (js "string"))])]);
     ("required", JArr [JStr (js "op"); JStr (js "id")]);
     ("additionalProperties", JBool false)];
    object [
     ("type", JStr (js "object"));
     ("properties", object [("op", object [("const", JStr (js "closeScope"))]); ("id", object [("type", JStr (js "string"))])]);
     ("required", JArr [JStr (js "op"); JStr (js "id")]);
     ("additionalProperties", JBool false)];
    object [
     ("type", JStr (js "object"));
     ("properties", object [
      ("op", object [("const", JStr (js "inspectCoalescing"))]);
      ("instance", object [("type", JStr (js "string"))])]);
     ("required", JArr [JStr (js "op")]);
     ("additionalProperties", JBool false)]])].

Definition def_coreCommand : jsval :=
  object [
   ("oneOf", JArr [
    object [
     ("type", JStr (js "object"));
     ("properties", object [
      ("op", object [("const", JStr (js "advanceWall"))]);
      ("ms", object [("type", JStr (js "integer")); ("minimum", JInt 0); ("maximum", JInt 9007199254740991)])]);
     ("required", JArr [JStr (js "op"); JStr (js "ms")]);
     ("additionalProperties", JBool false)];
    object [
     ("type", JStr (js "object"));
     ("properties", object [("op", object [("const", JStr (js "bumpSource"))])]);
     ("required", JArr [JStr (js "op")]);
     ("additionalProperties", JBool false)];
    object [
     ("type", JStr (js "object"));
     ("properties", object [
      ("op", object [("const", JStr (js "invalidate"))]);
      ("identity", object [
       ("type", JStr (js "object"));
       ("properties", object [
        ("keyType", object [("type", JStr (js "string"))]);
        ("id", object [("type", JStr (js "string"))]);
        ("useCase", object [("type", JStr (js "string"))]);
        ("tracked", object [("type", JStr (js "boolean"))])]);
       ("required", JArr [JStr (js "keyType"); JStr (js "id"); JStr (js "useCase"); JStr (js "tracked")]);
       ("additionalProperties", JBool false)])]);
     ("required", JArr [JStr (js "op"); JStr (js "identity")]);
     ("additionalProperties", JBool false)];
    object [
     ("type", JStr (js "object"));
     ("properties", object [
      ("op", object [("const", JStr (js "call"))]);
      ("identity", object [
       ("type", JStr (js "object"));
       ("properties", object [
        ("keyType", object [("type", JStr (js "string"))]);
        ("id", object [("type", JStr (js "string"))]);
        ("useCase", object [("type", JStr (js "string"))]);
        ("tracked", object [("type", JStr (js "boolean"))])]);
       ("required", JArr [JStr (js "keyType"); JStr (js "id"); JStr (js "useCase"); JStr (js "tracked")]);
       ("additionalProperties", JBool false)]);
      ("policy", object [("type", JArr [JStr (js "object"); JStr (js "null")]); ("description", JStr [])]);
      ("mode", object [
       ("enum", JArr [JStr (js "outside"); JStr (js "single"); JStr (js "request-pair"); JStr (js "coalesced-pair")])]);
      ("counter", object [
       ("enum", JArr [
        JStr (js "outsideLoaderCalls");
        JStr (js "requestLoaderCalls");
        JStr (js "localLoaderCalls");
        JStr (js "coalescedLoaderCalls");
        JStr (js "remoteLoaderCalls")])]);
      ("readFailure", object [("type", JStr (js "boolean"))])]);
     ("required", JArr [
      JStr (js "op");
      JStr (js "identity");
      JStr (js "policy");
      JStr (js "mode");
      JStr (js "counter");
      JStr (js "readFailure")]);
     ("additionalProperties", JBool false)]])].

Definition def_clockCommand : jsval :=
  object [
   ("oneOf", JArr [
    object [
     ("type", JStr (js "object"));
     ("properties", object [
      ("op", object [("const", JStr (js "constructInstance"))]);
      ("instance", object [("enum", JArr [JInt 0; JInt 1])])]);
     ("required", JArr [JStr (js "op"); JStr (js "instance")]);
     ("additionalProperties", JBool false)];
    object [
     ("type", JStr (js "object"));
     ("properties", object [
      ("op", object [("const", JStr (js "advanceTicks"))]);
      ("ticks", object [("type", JStr (js "integer")); ("minimum", JInt 0); ("maximum", JInt 9007199254740991)])]);
     ("required", JArr [JStr (js "op"); JStr (js "ticks")]);
     ("additionalProperties", JBool false)];
    object [
     ("type", JStr (js "object"));
     ("properties", object [
      ("op", object [("const", JStr (js "call"))]);
      ("instance", object [("enum", JArr [JInt 0; JInt 1])]);
      ("offered", object [("enum", JArr [JInt 1; JInt 2])])]);
     ("required", JArr [JStr (js "op"); JStr (js "instance"); JStr (js "offered")]);
     ("additionalProperties", JBool false)]])].

Definition def_primitive : jsval :=
  object [
   ("type", JArr [JStr (js "string"); JStr (js "number"); JStr (js "boolean"); JStr (js "null")]);
   ("description", JStr [])].

Definition def_absent : jsval :=
  object [
   ("type", JStr (js "object"));
   ("description", JStr []);
   ("properties", object [("absent", object [("const", JBool true)])]);
   ("required", JArr [JStr (js "absent")]);
   ("additionalProperties", JBool false)].

Definition def_unrenderable : jsval :=
  object [
   ("type", JStr (js "object"));
   ("description", JStr []);
   ("properties", object [("unrenderable", object [("const", JBool true)])]);
   ("required", JArr [JStr (js "unrenderable")]);
   ("additionalProperties", JBool false)].

Definition def_callResult : jsval :=
  object [
   ("description", JStr []);
   ("oneOf", JArr [
    object [
     ("type", JStr (js "object"));
     ("properties", object [("status", object [("const", JStr (js "pending"))])]);
     ("required", JArr [JStr (js "status")]);
     ("additionalProperties", JBool false)];
    object [
     ("type", JStr (js "object"));
     ("properties", object [
      ("status", object [("const", JStr (js "value"))]);
      ("value", object [
       ("oneOf", JArr [
        object [("type", JArr [JStr (js "number"); JStr (js "string"); JStr (js "boolean"); JStr (js "null")])];
        object [("$ref", JStr (js "#/$defs/absent"))];
        object [("$ref", JStr (js "#/$defs/unrenderable"))]])])]);
     ("required", JArr [JStr (js "status"); JStr (js "value")]);
     ("additionalProperties", JBool false)];
    object [
     ("type", JStr (js "object"));
     ("properties", object [
      ("status", object [("const", JStr (js "error"))]);
      ("error", object [("type", JStr (js "string")); ("pattern", JStr (js "^(source|timeout):(0|[1-9][0-9]*)$|^unexpected:"))])]);
     ("required", JArr [JStr (js "status"); JStr (js "error")]);
     ("additionalProperties", JBool false)]])].

Definition def_observedEvent : jsval :=
  object [
   ("description", JStr []);
   ("oneOf", JArr [
    object [
     ("type", JStr (js "object"));
     ("properties", object [
      ("event", object [("const", JStr (js "readContext"))]);
      ("index", object [
       ("type", JStr (js "integer"));
       ("minimum", JInt 0);
       ("maximum", JInt 9007199254740991);
       ("description", JStr [])]);
      ("timeoutMs", object [
       ("type", JStr (js "integer"));
       ("minimum", JInt 0);
       ("maximum", JInt 9007199254740991);
       ("description", JStr [])]);
      ("aborted", object [("type", JStr (js "boolean"))])]);
     ("required", JArr [JStr (js "event"); JStr (js "index"); JStr (js "timeoutMs"); JStr (js "aborted")]);
     ("additionalProperties", object [("$ref", JStr (js "#/$defs/primitive"))])];
    object [
     ("type", JStr (js "object"));
     ("properties", object [
      ("event", object [("const", JStr (js "readAbort"))]);
      ("index", object [("type", JStr (js "integer")); ("minimum", JInt 0); ("maximum", JInt 9007199254740991)])]);
     ("required", JArr [JStr (js "event"); JStr (js "index")]);
     ("additionalProperties", object [("$ref", JStr (js "#/$defs/primitive"))])];
    object [
     ("type", JStr (js "object"));
     ("properties", object [
      ("event", object [("const", JStr (js "request"))]);
      ("cacheNamespace", object [("type", JStr (js "string"))]);
      ("useCase", object [("type", JStr (js "string"))]);
      ("keyType", object [("type", JStr (js "string"))]);
      ("layer", object [("type", JStr (js "string"))])]);
     ("required", JArr [
      JStr (js "event");
      JStr (js "cacheNamespace");
      JStr (js "useCase");
      JStr (js "keyType");
      JStr (js "layer")]);
     ("additionalProperties", object [("$ref", JStr (js "#/$defs/primitive"))])];
    object [
     ("type", JStr (js "object"));
     ("properties", object [
      ("event", object [("const", JStr (js "miss"))]);
      ("cacheNamespace", object [("type", JStr (js "string"))]);
      ("useCase", object [("type", JStr (js "string"))]);
      ("keyType", object [("type", JStr (js "string"))]);
      ("layer", object [("type", JStr (js "string"))]);
      ("reason", object [("type", JStr (js "string"))])]);
     ("required", JArr [
      JStr (js "event");
      JStr (js "cacheNamespace");
      JStr (js "useCase");
      JStr (js "keyType");
      JStr (js "layer");
      JStr (js "reason")]);
     ("additionalProperties", object [("$ref", JStr (js "#/$defs/primitive"))])];
    object [
     ("type", JStr (js "object"));
     ("properties", object [
      ("event", object [("const", JStr (js "disabled"))]);
      ("cacheNamespace", object [("type", JStr (js "string"))]);
      ("useCase", object [("type", JStr (js "string"))]);
      ("keyType", object [("type", JStr (js "string"))]);
      ("layer", object [("type", JStr (js "string"))]);
      ("reason", object [("type", JStr (js "string"))])]);
     ("required", JArr [
      JStr (js "event");
      JStr (js "cacheNamespace");
      JStr (js "useCase");
      JStr (js "keyType");
      JStr (js "layer");
      JStr (js "reason")]);
     ("additionalProperties", object [("$ref", JStr (js "#/$defs/primitive"))])];
    object [
     ("type", JStr (js "object"));
     ("properties", object [
      ("event", object [("const", JStr (js "error"))]);
      ("cacheNamespace", object [("type", JStr (js "string"))]);
      ("useCase", object [("type", JStr (js "string"))]);
      ("keyType", object [("type", JStr (js "string"))]);
      ("layer", object [("type", JStr (js "string"))]);
      ("error", object [("type", JStr (js "string"))]);
      ("inFallback", object [("type", JStr (js "boolean"))])]);
     ("required", JArr [
      JStr (js "event");
      JStr (js "cacheNamespace");
      JStr (js "useCase");
      JStr (js "keyType");
      JStr (js "layer");
      JStr (js "error");
      JStr (js "inFallback")]);
     ("additionalProperties", object [("$ref", JStr (js "#/$defs/primitive"))])];
    object [
     ("type", JStr (js "object"));
     ("properties", object [
      ("event", object [("const", JStr (js "coalesced"))]);
      ("cacheNamespace", object [("type", JStr (js "string"))]);
      ("useCase", object [("type", JStr (js "string"))]);
      ("keyType", object [("type", JStr (js "string"))]);
      ("scope", object [("type", JStr (js "string"))])]);
     ("required", JArr [
      JStr (js "event");
      JStr (js "cacheNamespace");
      JStr (js "useCase");
      JStr (js "keyType");
      JStr (js "scope")]);
     ("additionalProperties", object [("$ref", JStr (js "#/$defs/primitive"))])];
    object [
     ("type", JStr (js "object"));
     ("description", JStr []);
     ("properties", object [
      ("event", object [("const", JStr (js "invalidation"))]);
      ("cacheNamespace", object [("type", JStr (js "string"))]);
      ("keyType", object [("type", JStr (js "string"))]);
      ("layer", object [("type", JStr (js "string"))])]);
     ("required", JArr [JStr (js "event"); JStr (js "cacheNamespace"); JStr (js "keyType"); JStr (js "layer")]);
     ("additionalProperties", object [("$ref", JStr (js "#/$defs/primitive"))])];
    object [
     ("type", JStr (js "object"));
     ("properties", object [
      ("event", object [("const", JStr (js "shadowAge"))]);
      ("cacheNamespace", object [("type", JStr (js "string"))]);
      ("useCase", object [("type", JStr (js "string"))]);
      ("keyType", object [("type", JStr (js "string"))]);
      ("outcome", object [("type", JStr (js "string"))]);
      ("seconds", object [("type", JStr (js "number")); ("minimum", JInt 0); ("description", JStr [])])]);
     ("required", JArr [
      JStr (js "event");
      JStr (js "cacheNamespace");
      JStr (js "useCase");
      JStr (js "keyType");
      JStr (js "outcome");
      JStr (js "seconds")]);
     ("additionalProperties", object [("$ref", JStr (js "#/$defs/primitive"))])];
    object [
     ("type", JStr (js "object"));
     ("properties", object [
      ("event", object [("const", JStr (js "recoveryAge"))]);
      ("cacheNamespace", object [("type", JStr (js "string"))]);
      ("useCase", object [("type", JStr (js "string"))]);
      ("keyType", object [("type", JStr (js "string"))]);
      ("outcome", object [("type", JStr (js "string"))]);
      ("seconds", object [("type", JStr (js "number")); ("minimum", JInt 0); ("description", JStr [])])]);
     ("required", JArr [
      JStr (js "event");
      JStr (js "cacheNamespace");
      JStr (js "useCase");
      JStr (js "keyType");
      JStr (js "outcome");
      JStr (js "seconds")]);
     ("additionalProperties", object [("$ref", JStr (js "#/$defs/primitive"))])];
    object [
     ("type", JStr (js "object"));
     ("properties", object [
      ("event", object [("const", JStr (js "futureOffset"))]);
      ("cacheNamespace", object [("type", JStr (js "string"))]);
      ("useCase", object [("type", JStr (js "string"))]);
      ("keyType", object [("type", JStr (js "string"))]);
      ("layer", object [("type", JStr (js "string"))]);
      ("seconds", object [("type", JStr (js "number")); ("minimum", JInt 0); ("description", JStr [])])]);
     ("required", JArr [
      JStr (js "event");
      JStr (js "cacheNamespace");
      JStr (js "useCase");
      JStr (js "keyType");
      JStr (js "layer");
      JStr (js "seconds")]);
     ("additionalProperties", object [("$ref", JStr (js "#/$defs/primitive"))])];
    object [
     ("type", JStr (js "object"));
     ("properties", object [
      ("event", object [("const", JStr (js "size"))]);
      ("cacheNamespace", object [("type", JStr (js "string"))]);
      ("useCase", object [("type", JStr (js "string"))]);
      ("keyType", object [("type", JStr (js "string"))]);
      ("layer", object [("type", JStr (js "string"))]);
      ("bytes", object [("type", JStr (js "integer")); ("minimum", JInt 0); ("maximum", JInt 9007199254740991)])]);
     ("required", JArr [
      JStr (js "event");
      JStr (js "cacheNamespace");
      JStr (js "useCase");
      JStr (js "keyType");
      JStr (js "layer");
      JStr (js "bytes")]);
     ("additionalProperties", object [("$ref", JStr (js "#/$defs/primitive"))])];
    object [
     ("type", JStr (js "object"));
     ("properties", object [
      ("event", object [("const", JStr (js "storedSize"))]);
      ("cacheNamespace", object [("type", JStr (js "string"))]);
      ("useCase", object [("type", JStr (js "string"))]);
      ("keyType", object [("type", JStr (js "string"))]);
      ("layer", object [("type", JStr (js "string"))]);
      ("bytes", object [("type", JStr (js "integer")); ("minimum", JInt 0); ("maximum", JInt 9007199254740991)])]);
     ("required", JArr [
      JStr (js "event");
      JStr (js "cacheNamespace");
      JStr (js "useCase");
      JStr (js "keyType");
      JStr (js "layer");
      JStr (js "bytes")]);
     ("additionalProperties", object [("$ref", JStr (js "#/$defs/primitive"))])];
    object [
     ("type", JStr (js "object"));
     ("properties", object [
      ("event", object [("const", JStr (js "compression"))]);
      ("cacheNamespace", object [("type", JStr (js "string"))]);
      ("useCase", object [("type", JStr (js "string"))]);
      ("keyType", object [("type", JStr (js "string"))]);
      ("layer", object [("type", JStr (js "string"))]);
      ("outcome", object [("type", JStr (js "string"))])]);
     ("required", JArr [
      JStr (js "event");
      JStr (js "cacheNamespace");
      JStr (js "useCase");
      JStr (js "keyType");
      JStr (js "layer");
      JStr (js "outcome")]);
     ("additionalProperties", object [("$ref", JStr (js "#/$defs/primitive"))])];
    object [
     ("type", JStr (js "object"));
     ("properties", object [
      ("event", object [("const", JStr (js "get"))]);
      ("cacheNamespace", object [("type", JStr (js "string"))]);
      ("useCase", object [("type", JStr (js "string"))]);
      ("keyType", object [("type", JStr (js "string"))]);
      ("layer", object [("type", JStr (js "string"))]);
      ("seconds", object [("type", JStr (js "number")); ("minimum", JInt 0); ("description", JStr [])])]);
     ("required", JArr [
      JStr (js "event");
      JStr (js "cacheNamespace");
      JStr (js "useCase");
      JStr (js "keyType");
      JStr (js "layer");
      JStr (js "seconds")]);
     ("additionalProperties", object [("$ref", JStr (js "#/$defs/primitive"))])];
    object [
     ("type", JStr (js "object"));
     ("properties", object [
      ("event", object [("const", JStr (js "fallback"))]);
      ("cacheNamespace", object [("type", JStr (js "string"))]);
      ("useCase", object [("type", JStr (js "string"))]);
      ("keyType", object [("type", JStr (js "string"))]);
      ("layer", object [("type", JStr (js "string"))]);
      ("seconds", object [("type", JStr (js "number")); ("minimum", JInt 0); ("description", JStr [])])]);
     ("required", JArr [
      JStr (js "event");
      JStr (js "cacheNamespace");
      JStr (js "useCase");
      JStr (js "keyType");
      JStr (js "layer");
      JStr (js "seconds")]);
     ("additionalProperties", object [("$ref", JStr (js "#/$defs/primitive"))])];
    object [
     ("type", JStr (js "object"));
     ("properties", object [
      ("event", object [("const", JStr (js "serialization"))]);
      ("cacheNamespace", object [("type", JStr (js "string"))]);
      ("useCase", object [("type", JStr (js "string"))]);
      ("keyType", object [("type", JStr (js "string"))]);
      ("layer", object [("type", JStr (js "string"))]);
      ("operation", object [("type", JStr (js "string"))]);
      ("seconds", object [("type", JStr (js "number")); ("minimum", JInt 0); ("description", JStr [])])]);
     ("required", JArr [
      JStr (js "event");
      JStr (js "cacheNamespace");
      JStr (js "useCase");
      JStr (js "keyType");
      JStr (js "layer");
      JStr (js "operation");
      JStr (js "seconds")]);
     ("additionalProperties", object [("$ref", JStr (js "#/$defs/primitive"))])];
    object [
     ("type", JStr (js "object"));
     ("description", JStr []);
     ("properties", object [
      ("event", object [("const", JStr (js "mismatchWarning"))]);
      ("cacheNamespace", object [("type", JStr (js "string"))]);
      ("useCase", object [("type", JStr (js "string"))]);
      ("keyType", object [("type", JStr (js "string"))]);
      ("outcome", object [("type", JStr (js "string"))]);
      ("cacheKey", object [("type", JStr (js "string"))]);
      ("cachedValueJson", object [("type", JArr [JStr (js "string"); JStr (js "null")])]);
      ("sourceValueJson", object [("type", JArr [JStr (js "string"); JStr (js "null")])]);
      ("cachedValueAgeSeconds", object [("type", JArr [JStr (js "number"); JStr (js "null")]); ("minimum", JInt 0); ("description", JStr [])]);
      ("mismatchPathsJson", object [("type", JArr [JStr (js "string"); JStr (js "null")]); ("description", JStr [])]);
      ("mismatchPathCount", object [
       ("type", JArr [JStr (js "integer"); JStr (js "null")]);
       ("minimum", JInt 0);
       ("maximum", JInt 9007199254740991)]);
      ("diffJson", object [("type", JArr [JStr (js "string"); JStr (js "null")])]);
      ("loggingOutcome", object [("enum", JArr [JStr (js "hook_error"); JStr (js "render_error")])])]);
     ("required", JArr [
      JStr (js "event");
      JStr (js "cacheNamespace");
      JStr (js "useCase");
      JStr (js "keyType");
      JStr (js "outcome")]);
     ("additionalProperties", object [("$ref", JStr (js "#/$defs/primitive"))])];
    object [
     ("type", JStr (js "object"));
     ("description", JStr []);
     ("properties", object [
      ("event", object [("const", JStr (js "shadowMismatchLogging"))]);
      ("cacheNamespace", object [("type", JStr (js "string"))]);
      ("useCase", object [("type", JStr (js "string"))]);
      ("keyType", object [("type", JStr (js "string"))]);
      ("outcome", object [
       ("enum", JArr [JStr (js "logged"); JStr (js "hook_error"); JStr (js "render_error"); JStr (js "logger_error")])])]);
     ("required", JArr [
      JStr (js "event");
      JStr (js "cacheNamespace");
      JStr (js "useCase");
      JStr (js "keyType");
      JStr (js "outcome")]);
     ("additionalProperties", object [("$ref", JStr (js "#/$defs/primitive"))])];
    object [
     ("type", JStr (js "object"));
     ("properties", object [
      ("event", object [("const", JStr (js "writeDispatch"))]);
      ("index", object [
       ("type", JStr (js "integer"));
       ("minimum", JInt 0);
       ("maximum", JInt 9007199254740991);
       ("description", JStr [])])]);
     ("required", JArr [JStr (js "event"); JStr (js "index")]);
     ("additionalProperties", object [("$ref", JStr (js "#/$defs/primitive"))])];
    object [
     ("type", JStr (js "object"));
     ("description", JStr []);
     ("properties", object [
      ("event", object [("const", JStr (js "marker"))]);
      ("cutoffMs", object [
       ("type", JStr (js "integer"));
       ("minimum", JInt (-9007199254740991));
       ("maximum", JInt 9007199254740991);
       ("description", JStr [])]);
      ("ttlMs", object [
       ("type", JStr (js "integer"));
       ("minimum", JInt (-9007199254740991));
       ("maximum", JInt 9007199254740991);
       ("description", JStr [])])]);
     ("required", JArr [JStr (js "event"); JStr (js "cutoffMs"); JStr (js "ttlMs")]);
     ("additionalProperties", object [("$ref", JStr (js "#/$defs/primitive"))])];
    object [
     ("type", JStr (js "object"));
     ("description", JStr []);
     ("properties", object [
      ("event", object [("const", JStr (js "coalescingState"))]);
      ("instance", object [("type", JStr (js "string"))]);
      ("activeLeaders", object [("type", JStr (js "integer")); ("minimum", JInt 0); ("maximum", JInt 9007199254740991)]);
      ("activeFollowers", object [("type", JStr (js "integer")); ("minimum", JInt 0); ("maximum", JInt 9007199254740991)]);
      ("oldestLeaderAgeMs", object [
       ("type", JArr [JStr (js "number"); JStr (js "null")]);
       ("minimum", JInt 0);
       ("maximum", JInt 9007199254740991)])]);
     ("required", JArr [
      JStr (js "event");
      JStr (js "instance");
      JStr (js "activeLeaders");
      JStr (js "activeFollowers");
      JStr (js "oldestLeaderAgeMs")]);
     ("additionalProperties", JBool false)]])].

Definition def_behaviorObservation : jsval :=
  object [
   ("type", JStr (js "object"));
   ("description", JStr []);
   ("properties", object [
    ("events", object [
     ("type", JStr (js "array"));
     ("items", object [("$ref", JStr (js "#/$defs/observedEvent"))]);
     ("description", JStr [])]);
    ("calls", object [("type", JStr (js "array")); ("items", object [("$ref", JStr (js "#/$defs/callResult"))])]);
    ("loaders", object [("type", JStr (js "integer")); ("minimum", JInt 0); ("maximum", JInt 9007199254740991)]);
    ("reads", object [("type", JStr (js "integer")); ("minimum", JInt 0); ("maximum", JInt 9007199254740991)]);
    ("writes", object [("type", JStr (js "integer")); ("minimum", JInt 0); ("maximum", JInt 9007199254740991)]);
    ("invalidations", object [("type", JStr (js "integer")); ("minimum", JInt 0); ("maximum", JInt 9007199254740991)]);
    ("loads", object [("type", JStr (js "integer")); ("minimum", JInt 0); ("maximum", JInt 9007199254740991)]);
    ("dumps", object [("type", JStr (js "integer")); ("minimum", JInt 0); ("maximum", JInt 9007199254740991)]);
    ("policyCalls", object [("type", JStr (js "integer")); ("minimum", JInt 0); ("maximum", JInt 9007199254740991)]);
    ("classifications", object [("type", JStr (js "integer")); ("minimum", JInt 0); ("maximum", JInt 9007199254740991)]);
    ("comparisons", object [("type", JStr (js "integer")); ("minimum", JInt 0); ("maximum", JInt 9007199254740991)]);
    ("maintenance", object [
     ("type", JStr (js "array"));
     ("items", object [("enum", JArr [JStr (js "ok"); JStr (js "mutation_error"); JStr (js "missing_remote")])]);
     ("description", JStr [])]);
    ("sourceScopes", object [("type", JStr (js "array")); ("items", object [("type", JStr (js "boolean"))]); ("description", JStr [])]);
    ("writeTtls", object [
     ("type", JStr (js "array"));
     ("items", object [("type", JStr (js "integer")); ("minimum", JInt 0); ("maximum", JInt 9007199254740991)]);
     ("description", JStr [])]);
    ("shadow", object [("type", JStr (js "array")); ("items", object [("type", JStr (js "string"))]); ("description", JStr [])]);
    ("recovery", object [("type", JStr (js "array")); ("items", object [("type", JStr (js "string"))]); ("description", JStr [])])]);
   ("required", JArr [
    JStr (js "calls");
    JStr (js "loaders");
    JStr (js "reads");
    JStr (js "writes");
    JStr (js "invalidations");
    JStr (js "loads");
    JStr (js "dumps");
    JStr (js "policyCalls");
    JStr (js "classifications");
    JStr (js "comparisons");
    JStr (js "maintenance");
    JStr (js "sourceScopes");
    JStr (js "writeTtls");
    JStr (js "shadow");
    JStr (js "recovery")]);
   ("additionalProperties", JBool false)].

Definition def_coreObservation : jsval :=
  object [
   ("type", JStr (js "object"));
   ("description", JStr []);
   ("properties", object [
    ("sourceVersion", object [("type", JStr (js "integer")); ("minimum", JInt 0); ("maximum", JInt 9007199254740991)]);
    ("lastResult", object [
     ("oneOf", JArr [
      object [("type", JStr (js "integer")); ("minimum", JInt 0); ("maximum", JInt 9007199254740991)];
      object [
       ("type", JStr (js "object"));
       ("properties", object [("absent", object [("const", JBool true)])]);
       ("required", JArr [JStr (js "absent")]);
       ("additionalProperties", JBool false)]])]);
    ("outsideLoaderCalls", object [("type", JStr (js "integer")); ("minimum", JInt 0); ("maximum", JInt 9007199254740991)]);
    ("requestLoaderCalls", object [("type", JStr (js "integer")); ("minimum", JInt 0); ("maximum", JInt 9007199254740991)]);
    ("localLoaderCalls", object [("type", JStr (js "integer")); ("minimum", JInt 0); ("maximum", JInt 9007199254740991)]);
    ("coalescedLoaderCalls", object [("type", JStr (js "integer")); ("minimum", JInt 0); ("maximum", JInt 9007199254740991)]);
    ("remoteLoaderCalls", object [("type", JStr (js "integer")); ("minimum", JInt 0); ("maximum", JInt 9007199254740991)]);
    ("redisReads", object [("type", JStr (js "integer")); ("minimum", JInt 0); ("maximum", JInt 9007199254740991)]);
    ("redisWrites", object [("type", JStr (js "integer")); ("minimum", JInt 0); ("maximum", JInt 9007199254740991)])]);
   ("required", JArr [
    JStr (js "sourceVersion");
    JStr (js "lastResult");
    JStr (js "outsideLoaderCalls");
    JStr (js "requestLoaderCalls");
    JStr (js "localLoaderCalls");
    JStr (js "coalescedLoaderCalls");
    JStr (js "remoteLoaderCalls");
    JStr (js "redisReads");
    JStr (js "redisWrites")]);
   ("additionalProperties", JBool false)].

Definition def_localClockObservation : jsval :=
  object [
   ("type", JStr (js "object"));
   ("description", JStr []);
   ("properties", object [
    ("loaders", object [("type", JStr (js "integer")); ("minimum", JInt 0); ("maximum", JInt 9007199254740991)]);
    ("reads", object [("type", JStr (js "integer")); ("minimum", JInt 0); ("maximum", JInt 9007199254740991)]);
    ("writes", object [("type", JStr (js "integer")); ("minimum", JInt 0); ("maximum", JInt 9007199254740991)]);
    ("invalidations", object [("type", JStr (js "integer")); ("minimum", JInt 0); ("maximum", JInt 9007199254740991)]);
    ("loads", object [("type", JStr (js "integer")); ("minimum", JInt 0); ("maximum", JInt 9007199254740991)]);
    ("dumps", object [("type", JStr (js "integer")); ("minimum", JInt 0); ("maximum", JInt 9007199254740991)]);
    ("policyCalls", object [("type", JStr (js "integer")); ("minimum", JInt 0); ("maximum", JInt 9007199254740991)]);
    ("classifications", object [("type", JStr (js "integer")); ("minimum", JInt 0); ("maximum", JInt 9007199254740991)]);
    ("comparisons", object [("type", JStr (js "integer")); ("minimum", JInt 0); ("maximum", JInt 9007199254740991)]);
    ("maintenance", object [
     ("type", JStr (js "array"));
     ("items", object [("enum", JArr [JStr (js "ok"); JStr (js "mutation_error"); JStr (js "missing_remote")])]);
     ("description", JStr [])]);
    ("sourceScopes", object [("type", JStr (js "array")); ("items", object [("type", JStr (js "boolean"))]); ("description", JStr [])]);
    ("writeTtls", object [
     ("type", JStr (js "array"));
     ("items", object [("type", JStr (js "integer")); ("minimum", JInt 0); ("maximum", JInt 9007199254740991)]);
     ("description", JStr [])]);
    ("shadow", object [("type", JStr (js "array")); ("items", object [("type", JStr (js "string"))]); ("description", JStr [])]);
    ("recovery", object [("type", JStr (js "array")); ("items", object [("type", JStr (js "string"))]); ("description", JStr [])]);
    ("calls", object [
     ("type", JStr (js "array"));
     ("items", object [("type", JStr (js "integer")); ("minimum", JInt 0); ("maximum", JInt 9007199254740991)])])]);
   ("required", JArr [
    JStr (js "calls");
    JStr (js "loaders");
    JStr (js "reads");
    JStr (js "writes");
    JStr (js "invalidations");
    JStr (js "loads");
    JStr (js "dumps");
    JStr (js "policyCalls");
    JStr (js "classifications");
    JStr (js "comparisons");
    JStr (js "maintenance");
    JStr (js "sourceScopes");
    JStr (js "writeTtls");
    JStr (js "shadow");
    JStr (js "recovery")]);
   ("additionalProperties", JBool false)].

Definition def_settlementReceipt : jsval :=
  object [
   ("type", JStr (js "object"));
   ("description", JStr []);
   ("properties", object [
    ("elapsedMs", object [
     ("type", JStr (js "integer"));
     ("minimum", JInt 0);
     ("maximum", JInt 9007199254740991);
     ("description", JStr [])]);
    ("runnable", object [
     ("type", JStr (js "integer"));
     ("minimum", JInt 0);
     ("maximum", JInt 9007199254740991);
     ("description", JStr [])]);
    ("held", object [
     ("type", JStr (js "object"));
     ("description", JStr []);
     ("properties", object [
      ("loaders", object [("type", JStr (js "integer")); ("minimum", JInt 0); ("maximum", JInt 9007199254740991)]);
      ("reads", object [("type", JStr (js "integer")); ("minimum", JInt 0); ("maximum", JInt 9007199254740991)]);
      ("writes", object [("type", JStr (js "integer")); ("minimum", JInt 0); ("maximum", JInt 9007199254740991)]);
      ("dumps", object [("type", JStr (js "integer")); ("minimum", JInt 0); ("maximum", JInt 9007199254740991)]);
      ("loads", object [("type", JStr (js "integer")); ("minimum", JInt 0); ("maximum", JInt 9007199254740991)]);
      ("policies", object [("type", JStr (js "integer")); ("minimum", JInt 0); ("maximum", JInt 9007199254740991)]);
      ("scopes", object [("type", JStr (js "integer")); ("minimum", JInt 0); ("maximum", JInt 9007199254740991)])]);
     ("required", JArr [
      JStr (js "loaders");
      JStr (js "reads");
      JStr (js "writes");
      JStr (js "dumps");
      JStr (js "loads");
      JStr (js "policies");
      JStr (js "scopes")]);
     ("additionalProperties", JBool false)])]);
   ("required", JArr [JStr (js "elapsedMs"); JStr (js "runnable"); JStr (js "held")]);
   ("additionalProperties", JBool false)].

Definition def_behaviorFixture : jsval :=
  object [
   ("type", JStr (js "object"));
   ("description", JStr []);
   ("properties", object [
    ("localFaultInjection", object [("type", JStr (js "boolean")); ("description", JStr [])]);
    ("policy", object [("type", JStr (js "object")); ("description", JStr [])]);
    ("tracked", object [("type", JStr (js "boolean")); ("description", JStr [])]);
    ("fallbackTimeoutMs", object [
     ("oneOf", JArr [
      object [("type", JArr [JStr (js "number"); JStr (js "null")])];
      object [("const", JStr (js "default"))]]);
     ("description", JStr [])]);
    ("readTimeoutMs", object [
     ("oneOf", JArr [object [("type", JStr (js "number"))]; object [("const", JStr (js "default"))]]);
     ("description", JStr [])]);
    ("localMaxSize", object [
     ("type", JStr (js "integer"));
     ("minimum", JInt 0);
     ("maximum", JInt 9007199254740991);
     ("description", JStr [])]);
    ("shadowMaxInFlight", object [
     ("type", JStr (js "integer"));
     ("minimum", JInt 0);
     ("maximum", JInt 9007199254740991);
     ("description", JStr [])]);
    ("recovery", object [
     ("enum", JArr [JStr (js "allow"); JStr (js "deny"); JStr (js "error"); JStr (js "default")]);
     ("description", JStr [])]);
    ("comparator", object [("enum", JArr [JStr (js "equal"); JStr (js "unequal"); JStr (js "error")]); ("description", JStr [])]);
    ("comparisonMs", object [("type", JStr (js "number")); ("minimum", JInt 0); ("description", JStr [])]);
    ("sourceWorkMs", object [("type", JStr (js "number")); ("minimum", JInt 0); ("description", JStr [])]);
    ("shadowHook", object [("type", JStr (js "boolean")); ("description", JStr [])]);
    ("mismatchDiff", object [("enum", JArr [JStr (js "error")]); ("description", JStr [])]);
    ("observerFailure", object [("type", JStr (js "boolean")); ("description", JStr [])]);
    ("remote", object [("type", JStr (js "boolean")); ("description", JStr [])]);
    ("probeSourceScope", object [("type", JStr (js "boolean")); ("description", JStr [])]);
    ("observe", object [
     ("type", JStr (js "array"));
     ("items", object [
      ("enum", JArr [
       JStr (js "readContext");
       JStr (js "readAbort");
       JStr (js "request");
       JStr (js "miss");
       JStr (js "disabled");
       JStr (js "error");
       JStr (js "coalesced");
       JStr (js "invalidation");
       JStr (js "shadowAge");
       JStr (js "recoveryAge");
       JStr (js "futureOffset");
       JStr (js "size");
       JStr (js "storedSize");
       JStr (js "compression");
       JStr (js "get");
       JStr (js "fallback");
       JStr (js "serialization");
       JStr (js "mismatchWarning");
       JStr (js "shadowMismatchLogging");
       JStr (js "writeDispatch");
       JStr (js "marker");
       JStr (js "coalescingState")])]);
     ("description", JStr [])])]);
   ("required", JArr [JStr (js "policy")]);
   ("additionalProperties", JBool false)].

Definition def_emptyFixture : jsval :=
  object [
   ("type", JStr (js "object"));
   ("description", JStr []);
   ("properties", object []);
   ("additionalProperties", JBool false)].

Definition def_fixture : jsval :=
  object [
   ("description", JStr []);
   ("oneOf", JArr [
    object [("$ref", JStr (js "#/$defs/emptyFixture"))];
    object [("$ref", JStr (js "#/$defs/behaviorFixture"))]])].

Definition protocol_schema : jsval :=
  object [
   ("$schema", JStr []);
   ("$id", JStr []);
   ("title", JStr []);
   ("description", JStr []);
   ("oneOf", JArr [object [("$ref", JStr (js "#/$defs/request"))]; object [("$ref", JStr (js "#/$defs/response"))]]);
   ("$defs", object [
     ("request", def_request);
     ("response", def_response);
     ("command", def_command);
     ("behaviorCommand", def_behaviorCommand);
     ("coreCommand", def_coreCommand);
     ("clockCommand", def_clockCommand);
     ("primitive", def_primitive);
     ("absent", def_absent);
     ("unrenderable", def_unrenderable);
     ("callResult", def_callResult);
     ("observedEvent", def_observedEvent);
     ("behaviorObservation", def_behaviorObservation);
     ("coreObservation", def_coreObservation);
     ("localClockObservation", def_localClockObservation);
     ("settlementReceipt", def_settlementReceipt);
     ("behaviorFixture", def_behaviorFixture);
     ("emptyFixture", def_emptyFixture);
     ("fixture", def_fixture)])].
