(* ===== verification/ReplayProtocol.v ===== *)
(** * The shipped protocol under the validator

    [supported] of [formal/replay/schema.mjs] and the rules of
    [protocol.schema.json]; the validator on them decides every definition
    for every message [JSON.parse] returns, without running out of depth, and
    blames a refusal on the place the schema gives. *)

From S2P Require Import Prelude JsValue Duration Utf8 Config Key Metrics Frame Json JsonText LogText JsonDiff Pattern ReplaySchema SchemaPaths ProtocolSchema.

(** ** [supported] *)

Definition keyword_names : list jsstr :=
  js <$> ["$schema"; "$id"; "$defs"; "$ref"; "title"; "description"; "oneOf"; "anyOf"; "const"; "enum";
          "type"; "properties"; "required"; "additionalProperties"; "items"; "minItems"; "minimum"; "maximum";
          "minLength"; "pattern"]%string.

(** Does [supported] return?  [Object.keys] of an array or a string are its
    indices, which are no keywords; [null] has no keys to list. *)
Fixpoint supported (node : jsval) : bool :=
  match node with
  | JUndefined | JNull => false
  | JArr [] | JStr [] => true
  | JArr _ | JStr _ => false
  | JBool _ | JNum _ | JFun => true
  | JObj members =>
      forallb (fun '(key, child) =>
        existsb (str_eqb key) keyword_names &&
        if str_eqb key (js "$defs") || str_eqb key (js "properties") then
          match child with JObj rules => forallb (fun '(_, rule) => supported rule) rules | JArr rules => forallb supported rules | JStr (_ :: _) => false | _ => true end
        else if str_eqb key (js "oneOf") || str_eqb key (js "anyOf") then
          match child with JArr rules => forallb supported rules | JUndefined | JNull | JStr [] => true | _ => false end
        else if str_eqb key (js "items") then is_undefined child || supported child
        else if str_eqb key (js "additionalProperties") then
          match child with JObj _ | JArr _ => supported child | _ => true end
        else true) members
  end.

(** ** Reading the rules *)

Definition text_of (v : jsval) : option jsstr := match v with JStr s => Some s | _ => None end.
Definition number_of (v : jsval) : option number := match v with JNum n => Some n | _ => None end.
Definition list_of {A} (f : jsval -> option A) (v : jsval) : option (list A) := match v with JArr l => mapM f l | _ => None end.

Definition types_of (v : jsval) : option (list jsstr) :=
  match v with JStr s => Some [s] | _ => list_of text_of v end.

(** [new RegExp(pattern)] for the patterns of the schema. *)
Definition pattern_of (v : jsval) : option regex :=
  s ← text_of v;
  if str_eqb s (js "^[1-9][0-9]*$") then Some positive_decimal
  else if str_eqb s (js "^(source|timeout):(0|[1-9][0-9]*)$|^unexpected:") then Some error_identity
  else None.

(** A keyword that may be absent. *)
Definition keyword {A} (members : list (jsstr * jsval)) (name : string) (f : jsval -> option A) : option (option A) :=
  match assoc (js name) members with None => Some None | Some v => Some <$> f v end.

Fixpoint rule_of (fuel : nat) (v : jsval) : option rule :=
  match fuel, v with
  | S f, JObj m =>
      ref ← keyword m "$ref" text_of;
      oneOf ← keyword m "oneOf" (list_of (rule_of f));
      anyOf ← keyword m "anyOf" (list_of (rule_of f));
      enum ← keyword m "enum" (list_of Some);
      type ← keyword m "type" types_of;
      minimum ← keyword m "minimum" number_of;
      maximum ← keyword m "maximum" number_of;
      minLength ← keyword m "minLength" number_of;
      pattern ← keyword m "pattern" pattern_of;
      minItems ← keyword m "minItems" number_of;
      items ← keyword m "items" (rule_of f);
      required ← keyword m "required" (list_of text_of);
      properties ← keyword m "properties" (fun v => mapM (fun p => (pair p.1) <$> rule_of f p.2) (members_of v));
      more ← match assoc (js "additionalProperties") m with
             | None | Some (JBool true) => Some Allowed
             | Some (JBool false) => Some Forbidden
             | Some r => Checked <$> rule_of f r
             end;
      Some (Rule {| kw_ref := ref; kw_oneOf := oneOf; kw_anyOf := anyOf; kw_const := assoc (js "const") m; kw_enum := enum;
                    kw_type := type; kw_minimum := minimum; kw_maximum := maximum; kw_minLength := minLength;
                    kw_pattern := pattern; kw_minItems := minItems; kw_items := items; kw_required := default [] required;
                    kw_properties := default [] properties; kw_additional := more |})
  | _, _ => None
  end.

(** Rules nest at most this deep, references followed. *)
Definition protocol_depth : nat := 16.

(** [schema.$defs] *)
Definition protocol_defs : list (jsstr * rule) :=
  default [] (mapM (fun p => (pair p.1) <$> rule_of protocol_depth p.2) (members_of (prop protocol_schema "$defs"))).

Lemma protocol_supported : supported protocol_schema = true.
Proof. vm_compute. reflexivity. Qed.

Lemma protocol_defs_complete : List.map fst protocol_defs = List.map fst (members_of (prop protocol_schema "$defs")) /\ length protocol_defs = 18%nat.
Proof. split; vm_compute; reflexivity. Qed.

(** Every definition expands, within the vocabulary, to exclusive choices. *)
Definition definition_sound (d : jsstr * rule) : bool :=
  match kw_ref (keywords_of d.2), expand protocol_defs protocol_depth d.2 with
  | None, Some t => simple t && decisive t
  | _, _ => false
  end.

Lemma protocol_sound : forallb definition_sound protocol_defs = true.
Proof. vm_compute. reflexivity. Qed.

Lemma protocol_inline : forallb (fun d => inline protocol_defs d.2) protocol_defs = true.
Proof. vm_compute. reflexivity. Qed.

#[local] Opaque protocol_defs protocol_depth.

(** ** What [JSON.parse] returns *)

Lemma parse_number_wire t n : parse_number t = Some n -> wire_value (JNum n) = true.
Proof.
  unfold parse_number. destruct (match strip 45 t with Some r => (true, r) | None => (false, t) end) as [neg s].
  intros ([int s2] & _ & ([frac s3] & _ & (e & _ & [= <-])%bind_Some)%bind_Some)%bind_Some. unfold round_double. by repeat case_match.
Qed.

Lemma comes_before_asym a b : comes_before a b = true -> comes_before b a = false.
Proof. unfold comes_before. repeat case_match; intros; try done; lia. Qed.

Lemma comes_before_trans a b c : comes_before a b = true -> comes_before b c = true -> comes_before a c = true.
Proof. unfold comes_before. repeat case_match; intros; try done; lia. Qed.

Lemma comes_before_irrefl a : comes_before a a = false.
Proof. unfold comes_before. repeat case_match; try done; lia. Qed.

Lemma set_property_In name v acc m : In m (set_property name v acc) -> m = (name, v) \/ In m acc.
Proof. induction acc as [|[n x] acc IH]; simpl; [intuition|]. repeat case_match; simpl; intuition. Qed.

(** Property creation keeps the order of own property names. *)
Lemma set_property_ordered name v acc :
  names_ordered (List.map fst acc) = true -> names_ordered (List.map fst (set_property name v acc)) = true.
Proof.
  induction acc as [|[n x] acc IH]; [done|]. cbn [set_property List.map fst names_ordered]. rewrite andb_true_iff. intros [Hn Ho].
  destruct (str_eqb n name) eqn:E; [apply str_eqb_eq in E as ->; cbn [List.map fst names_ordered]; by rewrite Hn|].
  rewrite forallb_forall in Hn.
  destruct (comes_before name n) eqn:Eb; cbn [List.map fst names_ordered]; rewrite ?andb_true_iff, !forallb_forall.
  - split; [|done]. intros m [<-|Hm].
    + rewrite (comes_before_asym _ _ Eb), andb_true_r. apply negb_true_iff, not_true_iff_false. intros ->%str_eqb_eq.
      by rewrite comes_before_irrefl in Eb.
    + specialize (Hn _ Hm). rewrite andb_true_iff, !negb_true_iff in Hn |- *. destruct Hn as [_ Hn]. split; apply not_true_iff_false.
      * intros ->%str_eqb_eq. congruence.
      * intros H. rewrite (comes_before_trans _ _ _ H Eb) in Hn. done.
  - split; [|by apply IH]. intros m (m' & <- & [->|Hm]%set_property_In)%in_map_iff; [cbn [fst]; by rewrite E, Eb|].
    apply Hn, in_map_iff. eauto.
Qed.

(** A value with its names in order, without [undefined] and NaN. *)
Fixpoint parsed (v : jsval) : bool :=
  match v with
  | JNull | JBool _ | JStr _ => true
  | JNum n => wire_value (JNum n)
  | JArr items => forallb parsed items
  | JObj members => names_ordered (List.map fst members) && forallb (fun m => parsed m.2) members
  | JUndefined | JFun => false
  end.

Lemma parsed_wire v : parsed v = true -> wire_value v = true.
Proof.
  induction v as [v Hv|items IH|members IH] using jsval_deep_ind; [by destruct v|..]; cbn [parsed wire_value].
  - rewrite !forallb_forall. rewrite List.Forall_forall in IH. auto.
  - rewrite !andb_true_iff, !forallb_forall, bool_decide_eq_true. rewrite List.Forall_forall in IH.
    intros [Ho H]. split; [by apply names_ordered_NoDup|auto].
Qed.

Lemma set_property_parsed name v acc : parsed v = true -> parsed (JObj acc) = true -> parsed (JObj (set_property name v acc)) = true.
Proof.
  intros Hv. cbn [parsed]. rewrite !andb_true_iff, !forallb_forall. intros [Ho H]. split; [by apply set_property_ordered|].
  intros m [->|Hm]%set_property_In; auto.
Qed.

Lemma parse_parsed f :
  (forall s v r, parse_value f s = Some (v, r) -> parsed v = true) /\
  (forall acc s v r, parsed (JObj acc) = true -> parse_members f acc s = Some (v, r) -> parsed v = true) /\
  (forall acc s v r, forallb parsed acc = true -> parse_elements f acc s = Some (v, r) -> parsed v = true).
Proof.
  induction f as [|f (IHv & IHm & IHe)]; [done|]. split; [|split].
  - intros s v r. cbn [parse_value]. destruct (skip_ws s) as [|c s']; [done|].
    destruct (c =? 123). { destruct (strip 125 (skip_ws s')); [by intros [= <- <-]|by apply IHm]. }
    destruct (c =? 91). { destruct (strip 93 (skip_ws s')); [by intros [= <- <-]|by apply IHe]. }
    destruct (c =? 34). { intros ([t r'] & _ & [= <- <-])%bind_Some. done. }
    destruct (is_digit c || (c =? 45)).
    { destruct (span is_number_char (c :: s')) as [t rest]. intros (n & Hn & [= <- <-])%bind_Some. by eapply parse_number_wire. }
    unfold parse_literal. by repeat case_match; intros; simplify_eq.
  - intros acc s v r Hacc. cbn [parse_members]. intros ([name s3] & _ & ([x s4] & Hx%IHv & H)%bind_Some)%bind_Some.
    pose proof (set_property_parsed name x acc Hx Hacc) as Hset. destruct (parse_separator 125 s4); [by eapply IHm| |done].
    by injection H as <- <-.
  - intros acc s v r Hacc. cbn [parse_elements]. intros ([x s4] & Hx%IHv & H)%bind_Some.
    destruct (parse_separator 93 s4); [|..|done]; [eapply IHe; [|exact H]; simpl; by rewrite Hx|].
    injection H as <- <-. cbn [parsed]. rewrite forallb_forall in Hacc |- *. intros y Hy.
    apply (in_rev (x :: acc)) in Hy as [<-|Hy]; auto.
Qed.

(** Member names are unique and no number is NaN; a number of the text that
    no double holds is an infinity. *)
Lemma JSON_parse_wire text v : JSON_parse text = Ok v -> wire_value v = true.
Proof.
  unfold JSON_parse. destruct (parse_value _ text) as [[x r]|] eqn:E; [|done]. case_bool_decide; [|done]. intros [= <-].
  by eapply parsed_wire, (proj1 (parse_parsed _)).
Qed.

(** ** The validator on the shipped definitions *)

(** Single quotes stand for double ones, to write JSON texts here. *)
Definition with_quotes (s : jsstr) : jsstr := List.map (fun c => if c =? 39 then 34 else c) s.

(** What a definition of the protocol means. *)
Definition protocol_meaning (definition : string) (v : jsval) : bool :=
  match find_rule (js definition) protocol_defs ≫= expand protocol_defs protocol_depth with
  | Some t => satisfies t v
  | None => false
  end.

Lemma protocol_definition name r :
  find_rule name protocol_defs = Some r ->
  exists t, expand protocol_defs protocol_depth r = Some t /\ simple t = true /\ decisive t = true.
Proof.
  intros H%find_rule_In. pose proof (forallb_In _ _ _ protocol_sound H) as Hs. unfold definition_sound in Hs. cbn [snd] in Hs.
  destruct (kw_ref (keywords_of r)); [done|]. destruct (expand protocol_defs protocol_depth r) as [t|]; [|done].
  apply andb_true_iff in Hs as [Hs Hd]. exists t. split; [reflexivity|split; assumption].
Qed.

Lemma protocol_direct : Forall (fun d => kw_ref (keywords_of d.2) = None) protocol_defs.
Proof.
  apply List.Forall_forall. intros d Hd. pose proof (forallb_In _ _ _ protocol_sound Hd) as H. unfold definition_sound in H.
  by destruct (kw_ref (keywords_of d.2)).
Qed.

(** The validator on values that need not come from a text. *)
Lemma schemaViolation_wire definition r t v root :
  find_rule definition protocol_defs = Some r -> expand protocol_defs protocol_depth r = Some t -> wire_value v = true ->
  exists o,
    schemaViolation protocol_defs protocol_depth v definition root = Ok o /\ (o = None <-> satisfies t v = true) /\
    forall path, o = Some path -> exists steps, path = render root steps /\ blames t v steps.
Proof.
  intros Hr He Hv. destruct (protocol_definition _ _ Hr) as (t' & He' & Hs & Hd). rewrite He in He'. injection He' as <-.
  unfold schemaViolation, definitionRule. rewrite Hr. cbn [mbind result_bind].
  pose proof (forallb_In _ _ _ protocol_inline (find_rule_In _ _ _ Hr)) as Hi.
  exact (violation_exact protocol_defs protocol_direct protocol_inline _ _ _ _ root He Hi Hs Hd Hv).
Qed.

(** C30. The validator decides the protocol: for every definition of the
    schema and every text [JSON.parse] accepts it answers about the parsed
    value, within the nesting depth of the schema.  It finds no violation
    exactly when the value has the meaning Draft 2020-12 gives the definition
    (a number too large for a double, which [JSON.parse] returns as an
    infinity, is no JSON number).  The path it reports is the root name
    followed by the steps to the place to blame: the first required member
    that is missing, else the first item or member that is refused and on
    inside it, the value itself only when its parts are in order; of a choice
    the one alternative whose constants agree with the value, and the value
    itself when there is not exactly one. *)
Theorem schemaViolation_exact definition r text v root :
  find_rule definition protocol_defs = Some r -> JSON_parse text = Ok v ->
  exists t o,
    expand protocol_defs protocol_depth r = Some t /\
    schemaViolation protocol_defs protocol_depth v definition root = Ok o /\
    (o = None <-> satisfies t v = true) /\
    forall path, o = Some path -> exists steps, path = render root steps /\ blames t v steps.
Proof.
  intros Hr Hv%JSON_parse_wire. destruct (protocol_definition _ _ Hr) as (t & He & _).
  destruct (schemaViolation_wire definition r t v root Hr He Hv) as (o & H). exists t, o. split; [exact He|exact H].
Qed.

(** A clock command for an instance that does not exist is refused at that
    member; the infinity that [1e999] is parsed to is refused as a value. *)
Lemma schemaViolation_exact_witness :
  let text := js "{'op':'call','instance':2,'offered':1}"%string in
  schemaViolation protocol_defs protocol_depth (JNum (Infinity false)) (js "primitive") (js "input") = Ok (Some (js "input")) /\
  exists v r t steps,
    JSON_parse (with_quotes text) = Ok v /\ find_rule (js "clockCommand") protocol_defs = Some r /\ expand protocol_defs protocol_depth r = Some t /\
    schemaViolation protocol_defs protocol_depth v (js "clockCommand") (js "input") = Ok (Some (js "input.instance")) /\
    satisfies t v = false /\ js "input.instance" = render (js "input") steps /\ blames t v steps.
Proof.
  intros text. split; [vm_compute; reflexivity|].
  assert (exists r, find_rule (js "clockCommand") protocol_defs = Some r) as [r Hr] by (vm_compute; eexists; reflexivity).
  pose (object [("op", JStr (js "call")); ("instance", JInt 2); ("offered", JInt 1)]%string) as v.
  assert (JSON_parse (with_quotes text) = Ok v) as Hv by (vm_compute; reflexivity).
  destruct (schemaViolation_exact (js "clockCommand") r (with_quotes text) v (js "input") Hr Hv) as (t & o & He & Ho & Hi & Hp).
  assert (schemaViolation protocol_defs protocol_depth v (js "clockCommand") (js "input") = Ok (Some (js "input.instance"))) as H
    by (vm_compute; reflexivity).
  rewrite H in Ho. injection Ho as <-. destruct (Hp _ eq_refl) as (steps & Hs & Hb).
  exists v, r, t, steps. repeat (split; [first [exact Hv|exact Hr|exact He|exact H|exact Hs|apply not_true_iff_false; intros Hc; by apply Hi in Hc]|]). exact Hb.
Defined.
