(* ===== verification/Itf.v ===== *)
(** * Integers and metadata of recorded traces

    [formal/replay/itf.mjs]: the integers of the ITF trace format, which are
    unbounded there and doubles here, and the check of the simulator's
    annotations against the input record; [cohortRamp] of
    [formal/replay/cohort-inputs.mjs], the percentages that put a sample on,
    below or above the boundary of a cohort. *)

From S2P Require Import Prelude JsValue Duration Utf8 Config Key Ramp Metrics Frame Json JsonText LogText JsonDiff Pattern.

Definition itf_error (text : string) : exn := PlainError text.

(** [record]: an object that is no array. *)
Definition record (value : jsval) : res (list (jsstr * jsval)) :=
  match value with
  | JObj members => Ok members
  | _ => Err (itf_error "expected a record")
  end.

(** [Object.keys(m).join()] and [Object.keys(m).sort().join()] *)
Definition joined_keys (members : list (jsstr * jsval)) : jsstr := join (js ",") (Object_keys members).
Definition sorted_keys (members : list (jsstr * jsval)) : jsstr := join (js ",") (sort_names (Object_keys members)).

(** [m[name]] *)
Definition member (members : list (jsstr * jsval)) (name : string) : jsval := default JUndefined (assoc (js name) members).

(** [Number(text)] of a decimal integer. *)
Definition Number_of_text (text : jsstr) : number := default NaN (parse_number text).

(** The body both readers share. *)
Definition itf_number (pattern : regex) (value : jsval) : res Z :=
  encoded ← record value;
  let refused := Err (itf_error "expected a safe ITF integer") in
  if negb (str_eqb (joined_keys encoded) (js "#bigint")) then refused
  else match member encoded "#bigint" with
       | JStr text =>
           if negb (test pattern text) then refused
           else match isSafeInteger (Number_of_text text) with Some n => Ok n | None => refused end
       | _ => refused
       end.

Definition itfInteger : jsval -> res Z := itf_number natural_decimal.
Definition itfSignedInteger : jsval -> res Z := itf_number signed_decimal.

(** [assertInputMetadata]: optional annotations agree with the input. *)
Definition assertInputMetadata (state : list (jsstr * jsval)) (action : jsstr) (choice : Z) (hasChoice : bool) : res unit :=
  let has name := has_member state (js name) in
  _ ← throw_if (has "mbt::actionTaken"%string && negb (strict_eq (member state "mbt::actionTaken") (JStr action)))
        (itf_error "conflicting action metadata");
  if negb (has "mbt::nondetPicks"%string) then Ok tt
  else
    picks ← record (member state "mbt::nondetPicks");
    if negb hasChoice && (length picks =? 0)%nat then Ok tt
    else
      _ ← throw_if (negb (str_eqb (joined_keys picks) (js "choice"))) (itf_error "unsupported choice metadata");
      pick ← record (member picks "choice");
      _ ← throw_if (negb (str_eqb (sorted_keys pick) (js "tag,value"))) (itf_error "malformed choice metadata");
      if hasChoice then
        if negb (strict_eq (member pick "tag") (JStr (js "Some"))) then Err (itf_error "conflicting choice metadata")
        else n ← itfSignedInteger (member pick "value"); throw_if (negb (n =? choice)) (itf_error "conflicting choice metadata")
      else
        none ← record (member pick "value");
        throw_if (negb (strict_eq (member pick "tag") (JStr (js "None"))) || negb (str_eqb (joined_keys none) (js "#tup")) ||
                  match member none "#tup" with JArr [] => false | _ => true end)
          (itf_error "unexpected choice metadata").

(** [cohortRamp] *)
Definition cohortRamp (sample relation : Z) : res Q :=
  if (MAX_SAFE_INTEGER <? Z.abs sample) || (sample <? 1) || (0xffffffff <=? sample) || (relation <? 0) || (2 <? relation)
  then Err (itf_error "Invalid fixed cohort boundary input")
  else Ok (Qmake ((sample + relation - 1) * 100) (2 ^ 32)%positive).

(** ** Joined keys *)

(** A joined text without a comma comes from one key. *)
Lemma joined_single members name :
  name <> [] -> Forall (fun c => c <> 44) name -> joined_keys members = name -> exists v, members = [(name, v)].
Proof.
  unfold joined_keys. intros Hn Hc. destruct members as [|[a v] [|[b w] rest]]; simpl.
  - by intros <-.
  - intros <-. by exists v.
  - intros <-. apply Forall_app in Hc as [_ Hc]. by inversion Hc.
Qed.

(** ** Reading a decimal integer *)

Lemma Qred_integer n k : Qred (Qmake (n * Zpos k) k) = inject_Z n.
Proof.
  assert (Qred (Qmake (n * Zpos k) k) = Qred (inject_Z n)) as -> by (apply Qred_complete; unfold Qeq, inject_Z; simpl; lia).
  apply inject_Z_Qred.
Qed.

Lemma round_half_even_one x : round_half_even x 1 = x.
Proof. unfold round_half_even. rewrite Z.div_1_r, Z.mod_1_r. done. Qed.

(** Integers below 2^53 are doubles. *)
Lemma round_double_exact negative n :
  0 < n < 2 ^ 53 -> round_double negative n 1 = of_Z (if negative then - n else n).
Proof.
  intros Hn. unfold round_double, ratio_log2.
  assert (0 <= Z.log2 n <= 52) as Hl by (split; [apply Z.log2_nonneg|]; enough (Z.log2 n < 53) by lia; apply Z.log2_lt_pow2; lia).
  pose proof (Z.log2_spec n ltac:(lia)) as [Hlo _].
  rewrite Z.log2_1, Z.sub_0_r.
  assert ((shift_up n (- Z.log2 n) <? shift_up 1 (Z.log2 n)) = false) as ->.
  { apply Z.ltb_ge. unfold shift_up. destruct (Z.leb_spec 0 (Z.log2 n)); [|lia].
    destruct (Z.leb_spec 0 (- Z.log2 n)) as [H0|H0]; [|lia]. assert (Z.log2 n = 0) as -> by lia. simpl. lia. }
  assert (Z.max (Z.log2 n - 52) (-1074) = Z.log2 n - 52) as -> by lia.
  set (u := Z.log2 n - 52) in *. assert (u <= 0) as Hu by (unfold u; lia).
  assert (shift_up 1 u = 1) as E1.
  { unfold shift_up. destruct (Z.leb_spec 0 u); [|done]. assert (u = 0) as -> by lia. done. }
  assert (shift_up n (- u) = n * 2 ^ (- u)) as E2 by (unfold shift_up; by destruct (Z.leb_spec 0 (- u)); [|lia]).
  rewrite E1, E2, round_half_even_one.
  assert (shift_up (n * 2 ^ (- u)) u = n * 2 ^ (- u)) as E3.
  { unfold shift_up. destruct (Z.leb_spec 0 u); [|done]. assert (u = 0) as -> by lia. simpl. lia. }
  rewrite E3. assert ((0 <=? u) && (2 ^ 1024 <=? n * 2 ^ (- u)) = false) as ->.
  { apply andb_false_iff. destruct (Z.leb_spec 0 u); [right|by left]. assert (u = 0) as -> by lia. apply Z.leb_gt.
    assert (2 ^ 53 < 2 ^ 1024) by (apply Z.pow_lt_mono_r; lia). simpl. lia. }
  unfold of_Z. f_equal. assert (shift_up 1 (- u) = 2 ^ (- u)) as -> by (unfold shift_up; destruct (Z.leb_spec 0 (- u)); lia).
  assert (0 < 2 ^ (- u)) as Hp by (apply Z.pow_pos_nonneg; lia).
  rewrite <- (Qred_integer _ (Z.to_pos (2 ^ (- u)))). rewrite Z2Pos.id by done. f_equal. destruct negative; f_equal; lia.
Qed.

Lemma round_half_even_lower n d : 0 < d -> n / d <= round_half_even n d.
Proof. intros Hd. unfold round_half_even. case_match; lia. Qed.

(** No integer from 2^53 on is rounded to a safe one. *)
Lemma round_double_unsafe negative n : 2 ^ 53 <= n -> isSafeInteger (round_double negative n 1) = None.
Proof.
  intros Hn. unfold round_double, ratio_log2. rewrite Z.log2_1, Z.sub_0_r.
  assert (53 <= Z.log2 n) as Hl by (apply Z.log2_le_pow2; lia).
  pose proof (Z.log2_spec n ltac:(lia)) as [Hlo _].
  assert ((shift_up n (- Z.log2 n) <? shift_up 1 (Z.log2 n)) = false) as ->.
  { apply Z.ltb_ge. unfold shift_up. destruct (Z.leb_spec 0 (Z.log2 n)); [|lia]. destruct (Z.leb_spec 0 (- Z.log2 n)); lia. }
  assert (Z.max (Z.log2 n - 52) (-1074) = Z.log2 n - 52) as -> by lia.
  set (u := Z.log2 n - 52) in *. assert (1 <= u) as Hu by (unfold u; lia).
  assert (shift_up n (- u) = n) as -> by (unfold shift_up; destruct (Z.leb_spec 0 (- u)); [lia|done]).
  assert (shift_up 1 u = 2 ^ u) as -> by (unfold shift_up; destruct (Z.leb_spec 0 u); lia).
  assert (0 < 2 ^ u) as Hp by (apply Z.pow_pos_nonneg; lia).
  assert (2 ^ 52 <= n / 2 ^ u) as Hq.
  { apply Z.div_le_lower_bound; [done|]. rewrite <- Z.pow_add_r by lia. replace (u + 52) with (Z.log2 n) by (unfold u; lia). done. }
  pose proof (round_half_even_lower n (2 ^ u) Hp) as Hr. set (m := round_half_even n (2 ^ u)) in *.
  assert (shift_up m u = m * 2 ^ u) as -> by (unfold shift_up; destruct (Z.leb_spec 0 u); [done|lia]).
  assert (shift_up 1 (- u) = 1) as -> by (unfold shift_up; destruct (Z.leb_spec 0 (- u)); [lia|done]).
  case_match; [done|]. assert (2 ^ 53 <= m * 2 ^ u) as Hbig.
  { assert (2 ^ 1 <= 2 ^ u) by (apply Z.pow_le_mono_r; lia). change (2 ^ 53) with (2 ^ 52 * 2 ^ 1). apply Z.mul_le_mono_nonneg; lia. }
  pose proof (Qred_integer (if negative then - (m * 2 ^ u) else m * 2 ^ u) 1) as Hq1. rewrite Z.mul_1_r in Hq1.
  change (Z.to_pos 1) with 1%positive. rewrite Hq1. unfold isSafeInteger. fold (of_Z (if negative then - (m * 2 ^ u) else m * 2 ^ u)).
  rewrite to_int_of_Z. destruct (Z.leb_spec (Z.abs (if negative then - (m * 2 ^ u) else m * 2 ^ u)) MAX_SAFE_INTEGER) as [H1|]; [|done].
  unfold MAX_SAFE_INTEGER in H1. destruct negative; lia.
Qed.

(** A canonical decimal: digits, the first not zero unless it is alone. *)
Definition canonical (s : jsstr) : Prop :=
  Forall (fun c => 48 <= c <= 57) s /\ exists d ds, s = d :: ds /\ (ds <> [] -> d <> 48).

Lemma positive_canonical s : word positive_decimal s <-> canonical s /\ 0 < digits_value s.
Proof.
  rewrite word_positive. split.
  - intros (d & ds & -> & Hd & Hds). split.
    + split; [constructor; [lia|done]|]. exists d, ds. split; [done|]. intros _. lia.
    + unfold digits_value. cbn [foldl]. rewrite foldl_digits.
      assert (0 <= digits_value ds). { apply forallb_digits_nonneg, forallb_forall. intros c Hc%list_elem_of_In. rewrite list.Forall_forall in Hds. apply Hds in Hc. unfold is_digit. lia. }
      assert (0 < 10 ^ Z.of_nat (length ds)) by (apply Z.pow_pos_nonneg; lia). nia.
  - intros [[HF (d & ds & -> & Hd)] Hv]. apply Forall_cons_1 in HF as [H1 H2]. exists d, ds. split; [done|]. split; [|done].
    destruct ds as [|e ds]; [unfold digits_value in Hv; simpl in Hv; lia|]. specialize (Hd ltac:(done)). lia.
Qed.

Lemma natural_canonical s : word natural_decimal s <-> canonical s.
Proof.
  split.
  - intros [->%word_literal|H%positive_canonical]%word_alt; [|by destruct H].
    split; [by repeat constructor|]. exists 48, []. done.
  - intros [HF (d & ds & -> & Hd)]. destruct ds as [|e ds].
    + apply Forall_cons_1 in HF as [H1 _]. destruct (Z.eq_dec d 48) as [->|]; [apply word_left; by apply word_literal|].
      apply word_right, positive_canonical. split; [split; [by constructor|by exists d, []]|]. unfold digits_value. simpl. lia.
    + apply word_right, word_positive. apply Forall_cons_1 in HF as [H1 H2]. exists d, (e :: ds). specialize (Hd ltac:(done)).
      split; [done|]. split; [lia|done].
Qed.

Lemma canonical_snoc t c : canonical (t ++ [c]) -> t = [] \/ canonical t /\ 0 < digits_value t.
Proof.
  intros [HF (d & ds & E & Hd)]. destruct t as [|x t]; [by left|]. right. injection E as -> <-.
  apply Forall_app in HF as [HF _]. pose proof (Forall_cons_1 _ _ _ HF) as [H1 H2].
  assert (d <> 48) as Hne by (apply Hd; by destruct t). assert (word positive_decimal (d :: t)) as H%positive_canonical; [|done].
  apply word_positive. exists d, t. split; [done|]. split; [lia|done].
Qed.

(** The digits of the value of a canonical decimal are the decimal. *)
Lemma digits_fuel_value f s acc :
  canonical s -> digits_value s < 2 ^ Z.of_nat (S f) -> digits_fuel (S f) (digits_value s) acc = s ++ acc.
Proof.
  revert s acc. induction f as [|f IH]; intros s acc Hs Hlt; destruct (exists_last (l := s)) as (t & c & ->);
    try (destruct Hs as [_ (? & ? & -> & _)]; done).
  all: assert (48 <= c <= 57) as Hc by (destruct Hs as [HF _]; apply Forall_app in HF as [_ HF]; by apply Forall_cons_1 in HF as []).
  all: rewrite digits_value_app in *; apply canonical_snoc in Hs as [->|[Ht Hpos]].
  1,3: change (digits_value []) with 0; cbn [digits_fuel];
       assert (((0 * 10 + (c - 48)) <? 10) = true) as -> by lia; rewrite Z.mod_small by lia; simpl; f_equal; lia.
  - change (2 ^ Z.of_nat 1) with 2 in Hlt. lia.
  - set (n := digits_value t * 10 + (c - 48)) in *. change (digits_fuel (S (S f)) n acc) with
      (if n <? 10 then (48 + n mod 10) :: acc else digits_fuel (S f) (n / 10) ((48 + n mod 10) :: acc)).
    assert ((n <? 10) = false) as -> by lia. assert (n / 10 = digits_value t) as -> by (symmetry; apply (Z.div_unique n 10 _ (c - 48)); unfold n; lia).
    assert (n mod 10 = c - 48) as -> by (symmetry; apply (Z.mod_unique n 10 (digits_value t)); unfold n; lia).
    replace (48 + (c - 48)) with c by lia. rewrite IH; [by rewrite <- app_assoc|done|].
    rewrite (Nat2Z.inj_succ (S f)), Z.pow_succ_r in Hlt by lia. lia.
Qed.

Lemma digits_fuel_head f n acc :
  0 < n < 2 ^ Z.of_nat f -> exists d ds, digits_fuel f n acc = d :: ds /\ d <> 48.
Proof.
  revert n acc. induction f as [|f IH]; intros n acc Hn; cbn [digits_fuel].
  { change (2 ^ Z.of_nat 0) with 1 in Hn. lia. }
  destruct (Z.ltb_spec n 10); [exists (48 + n mod 10), acc; split; [done|]; rewrite Z.mod_small by lia; lia|].
  apply IH. rewrite Nat2Z.inj_succ, Z.pow_succ_r in Hn by lia. split; [apply Z.div_str_pos; lia|apply Z.div_lt_upper_bound; lia].
Qed.

Lemma log2_fuel n : 0 <= n -> n < 2 ^ Z.of_nat (S (Z.to_nat (Z.log2 n))).
Proof.
  intros Hn. rewrite Nat2Z.inj_succ, Z2Nat.id by apply Z.log2_nonneg.
  destruct (Z.eq_dec n 0) as [->|]; [done|]. apply Z.log2_spec. lia.
Qed.

Lemma canonical_digits s n : 0 <= n -> canonical s /\ digits_value s = n <-> s = digits n.
Proof.
  intros Hn. split.
  - intros [Hs <-]. unfold digits. rewrite digits_fuel_value; [by rewrite app_nil_r|done|]. by apply log2_fuel.
  - intros ->. destruct (digits_spec n Hn) as [HF Hv]. split; [|done]. split.
    + eapply Forall_impl; [|exact HF]. unfold is_digit. intros c. simpl. lia.
    + destruct (Z.eq_dec n 0) as [->|]; [by exists 48, []|].
      destruct (digits_fuel_head (S (Z.to_nat (Z.log2 n))) n []) as (d & ds & E & Hd); [split; [lia|by apply log2_fuel]|].
      by exists d, ds.
Qed.

Lemma canonical_int_part s : canonical s -> parse_int_part s = Some (s, []) /\ strip 45 s = None /\ 0 <= digits_value s.
Proof.
  intros [HF (d & ds & E & Hd)].
  assert (forall c, In c s -> is_digit c = true) as Hdig.
  { intros c Hc%list_elem_of_In. rewrite list.Forall_forall in HF. apply HF in Hc. unfold is_digit. lia. }
  split; [|split; [|by apply forallb_digits_nonneg, forallb_forall]].
  - assert (span is_digit s = (s, [])) as Hspan.
    { clear -Hdig. induction s as [|c s IH]; [done|]. simpl. rewrite Hdig by (by left). rewrite IH; [done|]. intros x Hx. apply Hdig. by right. }
    unfold parse_int_part, parse_digits. rewrite Hspan. subst s. simpl.
    destruct (Z.eqb_spec d 48) as [->|]; [|done]. destruct ds; [done|]. by destruct (Hd ltac:(done)).
  - subst s. simpl. destruct (Z.eqb_spec d 45) as [->|]; [|done]. specialize (Hdig 45 (or_introl eq_refl)). done.
Qed.

(** Reading a canonical decimal, with or without a minus sign. *)
Lemma parse_number_canonical negative s :
  canonical s ->
  parse_number (if negative : bool then 45 :: s else s) =
  Some (if digits_value s =? 0 then of_Z 0 else round_double negative (digits_value s) 1).
Proof.
  intros (Hint & H45 & _)%canonical_int_part. unfold parse_number. destruct negative.
  - cbn [strip Z.eqb Pos.eqb]. rewrite Hint. cbn. by rewrite app_nil_r, Z.mul_1_r.
  - rewrite H45, Hint. cbn. by rewrite app_nil_r, Z.mul_1_r.
Qed.

(** It gives the value, exactly when that is safe. *)
Lemma safe_canonical negative s :
  canonical s ->
  isSafeInteger (Number_of_text (if negative : bool then 45 :: s else s)) =
  if digits_value s <=? MAX_SAFE_INTEGER then Some (if negative then - digits_value s else digits_value s) else None.
Proof.
  intros Hs. unfold Number_of_text. rewrite parse_number_canonical by done. cbn [default].
  apply canonical_int_part in Hs as (_ & _ & Hp).
  destruct (Z.eqb_spec (digits_value s) 0) as [->|Hne]; [by destruct negative|].
  destruct (Z.leb_spec (digits_value s) MAX_SAFE_INTEGER) as [Hle|Hgt]; unfold MAX_SAFE_INTEGER in *.
  - rewrite round_double_exact by lia. apply isSafeInteger_of_Z. unfold MAX_SAFE_INTEGER. destruct negative; lia.
  - apply round_double_unsafe. lia.
Qed.

(** ** Properties of integers *)

(** An integer as the trace format writes it. *)
Definition itf_integer (n : Z) : jsval := JObj [(js "#bigint", JStr (String_of_Z n))].

Lemma itf_number_text pattern v n :
  itf_number pattern v = Ok n <->
  exists text, v = JObj [(js "#bigint", JStr text)] /\ word pattern text /\ isSafeInteger (Number_of_text text) = Some n.
Proof.
  split.
  - unfold itf_number. destruct v as [| | | | | |members|]; try done. cbn [record mbind result_bind].
    destruct (str_eqb (joined_keys members) (js "#bigint")) eqn:E; [|done]. apply str_eqb_eq in E.
    destruct (joined_single members (js "#bigint")) as [w ->]; [done|by repeat constructor|done|]. cbn [negb].
    change (member [(js "#bigint", w)] "#bigint") with w. destruct w as [| | | |text| | |]; try done.
    destruct (test pattern text) eqn:Et; [|done]. apply test_word in Et. cbn [negb].
    destruct (isSafeInteger (Number_of_text text)) as [m|] eqn:Em; [|done]. intros [= <-]. by exists text.
  - intros (text & -> & Hw%test_word & Hn). unfold itf_number. cbn [record mbind result_bind].
    change (member [(js "#bigint", JStr text)] "#bigint") with (JStr text).
    assert (str_eqb (joined_keys [(js "#bigint", JStr text)]) (js "#bigint") = true) as -> by by apply str_eqb_eq.
    cbn [negb]. by rewrite Hw, Hn.
Qed.

Lemma String_of_Z_digits n : 0 <= n -> String_of_Z n = digits n.
Proof. intros Hn. unfold String_of_Z. by destruct (Z.ltb_spec n 0); [lia|]. Qed.

Lemma signed_canonical s :
  word signed_decimal s <-> exists negative t, s = (if negative : bool then 45 :: t else t) /\ canonical t /\ (negative = true -> 0 < digits_value t).
Proof.
  split.
  - intros [->%word_literal|H]%word_alt; [by exists false, [48]; split; [done|]; split; [apply natural_canonical, word_left; by apply word_literal|done]|].
    apply word_pair in H as (u & w & -> & H1 & [Hc Hp]%positive_canonical).
    apply word_alt in H1 as [H1| ->%word_literal]; [inversion H1; subst; by exists false, w|by exists true, w].
  - intros (negative & t & -> & Hc & Hp). destruct negative.
    + apply word_right. change (45 :: t) with ([45] ++ t). constructor; [apply word_right; by apply word_literal|].
      apply positive_canonical. auto.
    + apply natural_canonical, word_alt in Hc as [Hc|Hc]; [by apply word_left|]. apply word_right. change t with ([] ++ t).
      constructor; [apply word_left; constructor|done].
Qed.

Lemma itfInteger_exact v n : itfInteger v = Ok n <-> v = itf_integer n /\ 0 <= n <= MAX_SAFE_INTEGER.
Proof.
  unfold itfInteger, itf_integer. rewrite itf_number_text. split.
  - intros (text & -> & Hw%natural_canonical & Hn). rewrite (safe_canonical false text Hw) in Hn.
    pose proof (canonical_int_part _ Hw) as (_ & _ & Hp). destruct (Z.leb_spec (digits_value text) MAX_SAFE_INTEGER); [|done].
    injection Hn as <-. split; [|lia]. rewrite String_of_Z_digits by done. by rewrite <- (proj1 (canonical_digits text _ Hp) (conj Hw eq_refl)).
  - intros [-> Hn]. exists (String_of_Z n). split; [done|]. rewrite String_of_Z_digits by lia.
    destruct (proj2 (canonical_digits (digits n) n (proj1 Hn)) eq_refl) as [Hc Hv]. split; [by apply natural_canonical|].
    rewrite (safe_canonical false (digits n) Hc), Hv. by destruct (Z.leb_spec n MAX_SAFE_INTEGER); [|lia].
Qed.

Lemma itfSignedInteger_exact v n : itfSignedInteger v = Ok n <-> v = itf_integer n /\ Z.abs n <= MAX_SAFE_INTEGER.
Proof.
  unfold itfSignedInteger, itf_integer. rewrite itf_number_text. split.
  - intros (text & -> & (negative & t & -> & Hc & Hpos)%signed_canonical & Hn). rewrite (safe_canonical negative t Hc) in Hn.
    pose proof (canonical_int_part _ Hc) as (_ & _ & Hp). destruct (Z.leb_spec (digits_value t) MAX_SAFE_INTEGER); [|done].
    pose proof (proj1 (canonical_digits t _ Hp) (conj Hc eq_refl)) as Ht.
    injection Hn as <-. split; [|destruct negative; lia]. do 4 f_equal. unfold String_of_Z. destruct negative.
    + specialize (Hpos eq_refl). destruct (Z.ltb_spec (- digits_value t) 0); [|lia]. by rewrite Z.opp_involutive, <- Ht.
    + by destruct (Z.ltb_spec (digits_value t) 0); [lia|].
  - intros [-> Hn]. exists (String_of_Z n). split; [done|]. unfold String_of_Z.
    destruct (proj2 (canonical_digits (digits (Z.abs n)) (Z.abs n) (Z.abs_nonneg n)) eq_refl) as [Hc Hv].
    pose proof (safe_canonical (n <? 0) _ Hc) as Hs. rewrite Hv in Hs. destruct (Z.leb_spec (Z.abs n) MAX_SAFE_INTEGER); [|lia].
    destruct (Z.ltb_spec n 0) as [Hneg|Hpos].
    + replace (Z.abs n) with (- n) in * by lia. rewrite Z.opp_involutive in Hs. split; [|done].
      apply signed_canonical. exists true, (digits (- n)). split; [done|]. split; [done|lia].
    + replace (Z.abs n) with n in * by lia. split; [|done]. apply signed_canonical. by exists false, (digits n).
Qed.

(** Integers of a trace lose nothing: each reader accepts exactly the
    decimal text of an integer in its safe range, without leading zeros, signs
    or other members, and returns that integer; a text beyond the safe range
    is refused, never rounded. *)
Theorem itf_integers_exact v n :
  (itfInteger v = Ok n <-> v = itf_integer n /\ 0 <= n <= MAX_SAFE_INTEGER) /\
  (itfSignedInteger v = Ok n <-> v = itf_integer n /\ Z.abs n <= MAX_SAFE_INTEGER).
Proof. split; [apply itfInteger_exact|apply itfSignedInteger_exact]. Qed.

(** ** Cohorts *)

(** The percentage computed for a key's own sample includes the key exactly
    with relation 2, one step above the sample, and is a percentage. *)
Lemma cohort_boundary value relation p :
  cohortRamp (to_uint32 (stableHash value)) relation = Ok p ->
  Qltb (stablePercent value) p = (relation =? 2) /\ (0 <= p)%Q /\ (p < 100)%Q.
Proof.
  unfold cohortRamp, stablePercent. set (n := to_uint32 (stableHash value)). case_match eqn:E; [done|]. intros [= <-].
  rewrite !orb_false_iff in E. destruct E as [[[[_ H1] H2] H3] H4]. split; [|unfold Qle, Qlt; simpl; lia].
  destruct (Z.eqb_spec relation 2) as [->|].
  - apply Qltb_spec. unfold Qlt. simpl. lia.
  - apply Qltb_false. unfold Qle. simpl. lia.
Qed.
