(* ===== verification/Divergence.v ===== *)
(** * Recorded divergences of a replay

    [formal/replay/divergence.mjs]: the comparison of an observation with its
    prediction, the paths at which they diverge, and which of them count as
    evidence ([countingPaths]). *)

From S2P Require Import Prelude JsValue Duration Utf8 Config Key Metrics Frame Json JsonText LogText JsonDiff.

(** [isDeepStrictEqual], and [assert.deepEqual] of [node:assert/strict], on
    values off the wire: numbers are not NaN there. *)
Definition isDeepStrictEqual (expected actual : jsval) : bool := json_eqb expected actual.

(** [assertObservation]: the two records of a failed comparison, as the
    assertion error carries them (expected, actual). *)
Definition assertObservation (actual expected : jsval) : option (jsval * jsval) :=
  if isDeepStrictEqual actual expected then None else Some (expected, actual).

Definition path_of (prefix key : jsstr) : jsstr := if bool_decide (prefix = []) then key else prefix ++ js "." ++ key.
Definition or_dollar (prefix : jsstr) : jsstr := if bool_decide (prefix = []) then js "$" else prefix.
Definition index_text (i : nat) : jsstr := digits (Z.of_nat i).

(** [flatMap] over keys with a body that recurses. *)
Fixpoint flat_paths {A} (f : A -> option (list jsstr)) (keys : list A) : option (list jsstr) :=
  match keys with
  | [] => Some []
  | k :: rest => here ← f k; more ← flat_paths f rest; Some (here ++ more)
  end.

Definition or_here (prefix : jsstr) (paths : list jsstr) : list jsstr :=
  match paths with [] => [or_dollar prefix] | _ => paths end.

Fixpoint diff_paths (fuel : nat) (expected actual : jsval) (prefix : jsstr) : option (list jsstr) :=
  match fuel with
  | O => None
  | S f =>
      if isDeepStrictEqual expected actual then Some []
      else
        match expected, actual with
        | JArr l, JArr r =>
            paths ← flat_paths (fun i =>
                      match l !! i, r !! i with
                      | Some x, Some y => diff_paths f x y (path_of prefix (index_text i))
                      | _, _ => Some [path_of prefix (index_text i)]
                      end) (seq 0 (Nat.max (length l) (length r)));
            Some (or_here prefix (paths ++ if (length l =? length r)%nat then [] else [path_of prefix (js "length")]))
        | JObj l, JObj r =>
            paths ← flat_paths (fun key =>
                      match assoc key l, assoc key r with
                      | Some x, Some y => diff_paths f x y (path_of prefix key)
                      | _, _ => Some [path_of prefix key]
                      end) (union_names l r);
            Some (or_here prefix paths)
        | _, _ => Some [or_dollar prefix]
        end
  end.

(** One level of recursion per level of the expected value. *)
Definition diffPaths (expected actual : jsval) : option (list jsstr) := diff_paths (json_size expected) expected actual [].

(** ** Counting *)

Definition counters : list jsstr :=
  js <$> ["o.loaders"; "o.reads"; "o.loads"; "o.dumps"; "o.writes"; "o.policyCalls"; "o.invalidations"; "o.classifications"; "o.comparisons";
          "d.configErrors"; "d.warnings";
          "loaders"; "reads"; "loads"; "dumps"; "writes"; "policyCalls"; "invalidations"; "classifications"; "comparisons";
          "outsideLoaderCalls"; "requestLoaderCalls"; "localLoaderCalls"; "coalescedLoaderCalls"; "remoteLoaderCalls"; "redisReads"; "redisWrites"]%string.

(** [path === field || path.startsWith(`${field}.`)] *)
Definition within (path field : jsstr) : bool :=
  str_eqb path field || match strip_prefix (field ++ js ".") path with Some _ => true | None => false end.

Definition countingPaths (fields at_step before : list jsstr) : list jsstr :=
  List.filter (fun path =>
    existsb (fun field => within path field &&
                          (negb (existsb (str_eqb field) counters) || negb (existsb (fun previous => within previous field) before))) fields) at_step.

(** ** Where two values diverge *)

(** A position at which the values part: both have a value there and it is
    not an array or a record in both ([true]), or only one of them has it, or
    it is the length of two arrays. *)
Inductive diverges : jsval -> jsval -> list token -> bool -> Prop :=
| diverges_leaf x y :
    negb (bool_decide (jsonKind x = jsonKind y)) || bool_decide (jsonKind x = KPrimitive) = true ->
    json_eqb x y = false -> diverges x y [] true
| diverges_item l r i x y steps leaf :
    l !! i = Some x -> r !! i = Some y -> diverges x y steps leaf -> diverges (JArr l) (JArr r) (TIndex i :: steps) leaf
| diverges_extra l r i :
    (i < length l)%nat /\ (length r <= i)%nat \/ (i < length r)%nat /\ (length l <= i)%nat -> diverges (JArr l) (JArr r) [TIndex i] false
| diverges_length l r : length l <> length r -> diverges (JArr l) (JArr r) [TName (js "length")] false
| diverges_member l r name x y steps leaf :
    assoc name l = Some x -> assoc name r = Some y -> diverges x y steps leaf -> diverges (JObj l) (JObj r) (TName name :: steps) leaf
| diverges_missing l r name :
    has_member l name <> has_member r name -> diverges (JObj l) (JObj r) [TName name] false.

Definition token_text (t : token) : jsstr := match t with TIndex i => index_text i | TName name => name end.

Definition path_text (prefix : jsstr) (steps : list token) (leaf : bool) : jsstr :=
  let p := foldl (fun p t => path_of p (token_text t)) prefix steps in
  if leaf then or_dollar p else p.

Lemma forallb_false_exists {A} (p : A -> bool) l : forallb p l = false -> exists x, In x l /\ p x = false.
Proof.
  induction l as [|x l IH]; [done|]. simpl. destruct (p x) eqn:E; [|intros _; by exists x; auto].
  intros (y & Hin & Hy)%IH. exists y. auto.
Qed.

Lemma distinct_object m : distinct_names (JObj m) = true -> NoDup (List.map fst m).
Proof. simpl. by intros [H%bool_decide_eq_true _]%andb_true_iff. Qed.

Lemma has_member_assoc m name : has_member m name = true <-> exists x, assoc name m = Some x.
Proof. unfold has_member. destruct (assoc name m); naive_solver. Qed.

(** Values that diverge somewhere are not equal. *)
Lemma diverges_unequal x y steps leaf :
  diverges x y steps leaf -> distinct_names x = true -> distinct_names y = true -> json_eqb x y = false.
Proof.
  induction 1 as [| l r i x y steps leaf Hx Hy _ IH|l r i Hi|l r Hl|l r name x y steps leaf Hx Hy _ IH|l r name Hm]; intros Dl Dr; [done|..];
    apply not_true_iff_false; intros E.
  - rewrite json_eqb_arrays in E. destruct E as [_ E].
    assert (In (x, y) (zip l r)) as Hin by (apply list_elem_of_In, list_elem_of_lookup; exists i; by rewrite lookup_zip_with, Hx, Hy).
    rewrite (E _ _ Hin) in IH. enough (true = false) by done. apply IH; [exact (distinct_items (JArr l) i x Dl Hx)|exact (distinct_items (JArr r) i y Dr Hy)].
  - rewrite json_eqb_arrays in E. lia.
  - rewrite json_eqb_arrays in E. naive_solver.
  - rewrite json_eqb_objects in E by by apply distinct_object. specialize (E name). rewrite union_names_In, !assoc_name, Hx, Hy in E.
    rewrite E in IH by eauto. enough (true = false) by done. apply IH; [exact (distinct_members l name x Dl Hx)|exact (distinct_members r name y Dr Hy)].
  - rewrite json_eqb_objects in E by by apply distinct_object. specialize (E name). rewrite union_names_In, !assoc_name in E.
    unfold has_member in Hm. destruct (assoc name l) as [x|], (assoc name r) as [y|]; try done; apply E; eauto.
Qed.

(** Unequal values diverge somewhere. *)
Lemma unequal_diverges x : forall y,
  distinct_names x = true -> distinct_names y = true -> json_eqb x y = false -> exists steps leaf, diverges x y steps leaf.
Proof.
  induction x as [v Hv|l IH|l IH] using jsval_deep_ind; intros y Dx Dy E.
  - exists [], true. apply diverges_leaf; [|done]. destruct v; try done; apply orb_true_r.
  - destruct y as [| | | | |r|r|]; try by exists [], true; apply diverges_leaf.
    destruct (Nat.eq_dec (length l) (length r)) as [Hl|Hl]; [|exists [TName (js "length")], false; by apply diverges_length].
    assert (exists i x y, l !! i = Some x /\ r !! i = Some y /\ json_eqb x y = false) as (i & x & y & Hx & Hy & Hxy).
    { apply not_true_iff_false in E. rewrite json_eqb_arrays in E.
      destruct (forallb (fun p => json_eqb p.1 p.2) (zip l r)) eqn:Ef.
      - destruct E. split; [done|]. intros x y Hin. rewrite forallb_forall in Ef. exact (Ef _ Hin).
      - apply forallb_false_exists in Ef as ([x y] & Hin & Hxy). apply zip_In_lookup in Hin as (i & Hx & Hy). by exists i, x, y. }
    rewrite Forall_lookup in IH. destruct (IH i x Hx y) as (steps & leaf & H);
      [exact (distinct_items (JArr l) i x Dx Hx)|exact (distinct_items (JArr r) i y Dy Hy)|done|].
    exists (TIndex i :: steps), leaf. by eapply diverges_item.
  - destruct y as [| | | | |r|r|]; try by exists [], true; apply diverges_leaf.
    destruct (forallb (fun name => match assoc name l, assoc name r with Some x, Some y => json_eqb x y | _, _ => false end) (union_names l r)) eqn:Ef.
    { exfalso. apply not_true_iff_false in E. apply E, json_eqb_objects; [by apply distinct_object..|]. intros name Hin.
      rewrite forallb_forall in Ef. specialize (Ef name Hin). by repeat case_match. }
    apply forallb_false_exists in Ef as (name & Hin & Hf).
    destruct (assoc name l) as [x|] eqn:Hx, (assoc name r) as [y|] eqn:Hy.
    + pose proof (assoc_In _ _ _ Hx) as Hxl. apply list_elem_of_In in Hxl. rewrite list.Forall_forall in IH.
      destruct (IH _ Hxl y) as (steps & leaf & H); [exact (distinct_members l name x Dx Hx)|exact (distinct_members r name y Dy Hy)|done|].
      exists (TName name :: steps), leaf. by eapply diverges_member.
    + exists [TName name], false. apply diverges_missing. unfold has_member. by rewrite Hx, Hy.
    + exists [TName name], false. apply diverges_missing. unfold has_member. by rewrite Hx, Hy.
    + apply union_names_In in Hin as [Hin|Hin]; apply assoc_name in Hin as [z Hz]; congruence.
Qed.

(** ** The reported paths *)

Lemma flat_paths_spec {A} (f : A -> option (list jsstr)) (Q : A -> jsstr -> Prop) keys :
  (forall k, In k keys -> exists ps, f k = Some ps /\ forall p, In p ps <-> Q k p) ->
  exists ps, flat_paths f keys = Some ps /\ forall p, In p ps <-> exists k, In k keys /\ Q k p.
Proof.
  induction keys as [|k keys IH]; intros H; [exists []; split; [done|]; intros p; split; [done|by intros (? & [] & _)]|].
  destruct (H k (or_introl eq_refl)) as (here & Ek & Hk). destruct IH as (more & Em & Hm); [intros; apply H; by right|].
  exists (here ++ more). simpl. rewrite Ek, Em. split; [done|]. intros p. rewrite in_app_iff, Hk, Hm. split.
  - intros [Hp|(k' & Hk' & Hp)]; [exists k|exists k']; auto.
  - intros (k' & [->|Hk'] & Hp); [by left|right; eauto].
Qed.

Lemma json_size_item l i x : l !! i = Some x -> (json_size x < json_size (JArr l))%nat.
Proof.
  intros H. simpl. revert i H. induction l as [|y l IH]; intros [|i] H; try done; simpl in H |- *; [injection H as ->; lia|].
  apply IH in H. lia.
Qed.

Lemma json_size_member l name x : assoc name l = Some x -> (json_size x < json_size (JObj l))%nat.
Proof.
  simpl. induction l as [|[n y] l IH]; [done|]. simpl. destruct (str_eqb n name); [intros [= ->]; lia|]. intros H%IH. lia.
Qed.

(** What the paths below a position are. *)
Definition reports (paths : list jsstr) (x y : jsval) (prefix : jsstr) : Prop :=
  forall p, In p paths <-> exists steps leaf, diverges x y steps leaf /\ p = path_text prefix steps leaf.

(** An unequal pair has a path, so the fallback is not used. *)
Lemma or_here_reports paths x y prefix :
  distinct_names x = true -> distinct_names y = true -> json_eqb x y = false -> reports paths x y prefix -> or_here prefix paths = paths.
Proof.
  intros Dx Dy E H. destruct (unequal_diverges x y Dx Dy E) as (steps & leaf & Hd). destruct paths as [|p paths]; [|done].
  destruct (proj2 (H (path_text prefix steps leaf)) ltac:(eauto)).
Qed.

Lemma diff_paths_items f l r prefix :
  (forall i x y, l !! i = Some x -> r !! i = Some y ->
     exists ps, diff_paths f x y (path_of prefix (index_text i)) = Some ps /\ reports ps x y (path_of prefix (index_text i))) ->
  exists ps, flat_paths (fun i => match l !! i, r !! i with
                                  | Some x, Some y => diff_paths f x y (path_of prefix (index_text i))
                                  | _, _ => Some [path_of prefix (index_text i)]
                                  end) (seq 0 (Nat.max (length l) (length r))) = Some ps /\
    reports (ps ++ if (length l =? length r)%nat then [] else [path_of prefix (js "length")]) (JArr l) (JArr r) prefix.
Proof.
  intros H. match goal with |- exists ps, flat_paths ?g _ = _ /\ _ => set (body := g) end.
  destruct (flat_paths_spec body (fun i p => exists steps leaf, diverges (JArr l) (JArr r) (TIndex i :: steps) leaf /\
    p = path_text prefix (TIndex i :: steps) leaf) (seq 0 (Nat.max (length l) (length r)))) as (ps & E & Hps); [|rewrite E; exists ps; split; [done|]].
  - intros i [_ Hi]%in_seq. unfold body. destruct (l !! i) as [x|] eqn:Hx, (r !! i) as [y|] eqn:Hy.
    + destruct (H i x y Hx Hy) as (ps & E & Hp). exists ps. split; [done|]. intros p. rewrite (Hp p). split.
      * intros (steps & leaf & Hd & ->). exists steps, leaf. split; [by eapply diverges_item|done].
      * intros (steps & leaf & Hd & ->). inversion Hd; subst; simplify_eq; [by exists steps, leaf|].
        apply lookup_lt_Some in Hx. apply lookup_lt_Some in Hy. lia.
    + exists [path_of prefix (index_text i)]. split; [done|]. apply lookup_lt_Some in Hx. apply lookup_ge_None in Hy. intros p. split.
      * intros [<-|[]]. exists [], false. split; [by apply diverges_extra; left|done].
      * intros (steps & leaf & Hd & ->). inversion Hd; subst; [|by left]. apply lookup_ge_None in Hy. congruence.
    + exists [path_of prefix (index_text i)]. split; [done|]. apply lookup_lt_Some in Hy. apply lookup_ge_None in Hx. intros p. split.
      * intros [<-|[]]. exists [], false. split; [by apply diverges_extra; right|done].
      * intros (steps & leaf & Hd & ->). inversion Hd; subst; [|by left]. apply lookup_ge_None in Hx. congruence.
    + apply lookup_ge_None in Hx, Hy. lia.
  - intros p. rewrite in_app_iff, Hps. split.
    + intros [(i & _ & steps & leaf & Hd & ->)|Hp]; [by eexists _, _|].
      destruct (Nat.eqb_spec (length l) (length r)); [done|]. destruct Hp as [<-|[]]. exists [TName (js "length")], false. split; [by constructor|done].
    + intros (steps & leaf & Hd & ->). inversion Hd as [|? ? i x y st lf Hx Hy Hs| ? ? i Hi|? ? Hl| |]; subst; [done|left|left|right].
      * exists i. split; [apply in_seq; apply lookup_lt_Some in Hx; lia|]. eauto.
      * exists i. split; [apply in_seq; lia|]. eauto.
      * apply Nat.eqb_neq in Hl. rewrite Hl. by left.
Qed.

Lemma diff_paths_members f l r prefix :
  (forall name x y, assoc name l = Some x -> assoc name r = Some y ->
     exists ps, diff_paths f x y (path_of prefix name) = Some ps /\ reports ps x y (path_of prefix name)) ->
  exists ps, flat_paths (fun key => match assoc key l, assoc key r with
                                    | Some x, Some y => diff_paths f x y (path_of prefix key)
                                    | _, _ => Some [path_of prefix key]
                                    end) (union_names l r) = Some ps /\ reports ps (JObj l) (JObj r) prefix.
Proof.
  intros H. match goal with |- exists ps, flat_paths ?g _ = _ /\ _ => set (body := g) end.
  destruct (flat_paths_spec body (fun name p => exists steps leaf, diverges (JObj l) (JObj r) (TName name :: steps) leaf /\
    p = path_text prefix (TName name :: steps) leaf) (union_names l r)) as (ps & E & Hps); [|rewrite E; exists ps; split; [done|]].
  - intros name Hin. rewrite union_names_In, !assoc_name in Hin. unfold body. destruct (assoc name l) as [x|] eqn:Hx, (assoc name r) as [y|] eqn:Hy; [| | |naive_solver].
    + destruct (H name x y Hx Hy) as (ps & E & Hp). exists ps. split; [done|]. intros p. rewrite (Hp p). split.
      * intros (steps & leaf & Hd & ->). exists steps, leaf. split; [by eapply diverges_member|done].
      * intros (steps & leaf & Hd & ->). inversion Hd as [| | | |? ? ? ? ? ? ? Hx' Hy' Hd'|? ? ? Hm]; subst; simplify_eq; [by exists steps, leaf|].
        unfold has_member in Hm. by rewrite Hx, Hy in Hm.
    + exists [path_of prefix name]. split; [done|]. intros p. split.
      * intros [<-|[]]. exists [], false. split; [apply diverges_missing; unfold has_member; by rewrite Hx, Hy|done].
      * intros (steps & leaf & Hd & ->). inversion Hd; subst; [congruence|by left].
    + exists [path_of prefix name]. split; [done|]. intros p. split.
      * intros [<-|[]]. exists [], false. split; [apply diverges_missing; unfold has_member; by rewrite Hx, Hy|done].
      * intros (steps & leaf & Hd & ->). inversion Hd; subst; [congruence|by left].
  - intros p. rewrite Hps. split.
    + intros (name & _ & steps & leaf & Hd & ->). by eexists _, _.
    + intros (steps & leaf & Hd & ->). inversion Hd as [| | | |? ? name x y st lf Hx Hy Hs|? ? name Hm]; subst; [done| |].
      * exists name. split; [apply union_names_In; left; apply assoc_name; eauto|]. eauto.
      * exists name. split; [|eauto]. rewrite union_names_In, !assoc_name. unfold has_member in Hm.
        destruct (assoc name l), (assoc name r); naive_solver.
Qed.

Lemma diff_paths_spec fuel x y prefix :
  (json_size x <= fuel)%nat -> distinct_names x = true -> distinct_names y = true ->
  exists paths, diff_paths fuel x y prefix = Some paths /\ reports paths x y prefix.
Proof.
  revert x y prefix. induction fuel as [|f IH]; intros x y prefix Hf Dx Dy; [pose proof (json_size_pos x); lia|]. cbn [diff_paths].
  unfold isDeepStrictEqual. destruct (json_eqb x y) eqn:E.
  { exists []. split; [done|]. intros p. split; [done|]. intros (steps & leaf & Hd & _). rewrite (diverges_unequal _ _ _ _ Hd) in E by done. done. }
  assert (negb (bool_decide (jsonKind x = jsonKind y)) || bool_decide (jsonKind x = KPrimitive) = true ->
          reports [or_dollar prefix] x y prefix) as Hleaf.
  { intros Hk p. split.
    - intros [<-|[]]. exists [], true. split; [by apply diverges_leaf|done].
    - intros (steps & leaf & Hd & ->). inversion Hd; subst; try done. by left. }
  destruct x as [| |b|n|s|l|l|], y as [| |b'|n'|s'|r|r|]; try (eexists; split; [done|]; apply Hleaf; done).
  - destruct (diff_paths_items f l r prefix) as (ps & -> & Hr).
    { intros i x y Hx Hy. pose proof (json_size_item _ _ _ Hx). apply IH; [lia|exact (distinct_items (JArr l) i x Dx Hx)|exact (distinct_items (JArr r) i y Dy Hy)]. }
    eexists. split; [done|]. by rewrite (or_here_reports _ (JArr l) (JArr r)).
  - destruct (diff_paths_members f l r prefix) as (ps & -> & Hr).
    { intros name x y Hx Hy. pose proof (json_size_member _ _ _ Hx). apply IH; [lia|exact (distinct_members l name x Dx Hx)|exact (distinct_members r name y Dy Hy)]. }
    eexists. split; [done|]. by rewrite (or_here_reports _ (JObj l) (JObj r)).
Qed.

(** ** Properties *)

(** A recorded divergence is exact: for values off the wire the paths are
    computed, they are the texts of exactly the positions at which the
    prediction and the observation part (leaves that differ, items and members
    that only one has, lengths of arrays), and there are none exactly when the
    two are equal, so a mismatch is never recorded without a path. *)
Theorem diffPaths_exact expected actual :
  distinct_names expected = true -> distinct_names actual = true ->
  exists paths,
    diffPaths expected actual = Some paths /\
    (forall p, In p paths <-> exists steps leaf, diverges expected actual steps leaf /\ p = path_text [] steps leaf) /\
    (paths = [] <-> isDeepStrictEqual expected actual = true).
Proof.
  intros De Da. destruct (diff_paths_spec (json_size expected) expected actual [] (le_n _) De Da) as (paths & E & H).
  exists paths. split; [exact E|]. split; [exact H|]. unfold isDeepStrictEqual. split.
  - intros ->. apply not_false_iff_true. intros Hf. destruct (unequal_diverges _ _ De Da Hf) as (steps & leaf & Hd).
    destruct (proj2 (H (path_text [] steps leaf)) ltac:(eauto)).
  - intros Ht. destruct paths as [|p paths]; [done|]. destruct (proj1 (H p) (or_introl eq_refl)) as (steps & leaf & Hd & _).
    rewrite (diverges_unequal _ _ _ _ Hd De Da) in Ht. done.
Qed.

Lemma diffPaths_exact_witness :
  let expected := JObj [(js "calls", JArr [JInt 1]); (js "o", JObj [(js "loaders", JInt 2)])] in
  let actual := JObj [(js "calls", JArr [JInt 1; JInt 3]); (js "o", JObj [(js "loaders", JInt 1); (js "reads", JInt 0)])] in
  exists paths,
    diffPaths expected actual = Some paths /\ paths = [js "calls.1"; js "calls.length"; js "o.loaders"; js "o.reads"] /\
    (paths = [] <-> isDeepStrictEqual expected actual = true).
Proof.
  intros expected actual. destruct (diffPaths_exact expected actual eq_refl eq_refl) as (paths & E & _ & Hnil).
  exists paths. split; [exact E|]. split; [|exact Hnil]. vm_compute in E. injection E as <-. reflexivity.
Defined.

Lemma within_spec path field : within path field = true <-> path = field \/ exists rest, path = field ++ js "." ++ rest.
Proof.
  assert (forall p s r, strip_prefix p s = Some r <-> s = p ++ r) as Hs.
  { induction p as [|c p IH]; intros s r; simpl; [naive_solver|]. rewrite bind_Some. split.
    - intros (t & ->%strip_Some & ->%IH). done.
    - intros ->. exists (p ++ r). split; [by apply strip_Some|by apply IH]. }
  unfold within. rewrite orb_true_iff, str_eqb_eq. apply or_iff_compat_l. split.
  - destruct (strip_prefix (field ++ js ".") path) as [rest|] eqn:E; [|done]. intros _. apply Hs in E as ->. exists rest. by rewrite <- app_assoc.
  - intros [rest ->]. assert (strip_prefix (field ++ js ".") (field ++ js "." ++ rest) = Some rest) as ->; [|done].
    apply Hs. by rewrite <- app_assoc.
Qed.

(** A path counts when it lies in one of the fields and, if the field is a
    cumulative counter, the counter did not diverge one step earlier. *)
Lemma countingPaths_spec fields at_step before p :
  In p (countingPaths fields at_step before) <->
  In p at_step /\ exists field, In field fields /\ (p = field \/ exists rest, p = field ++ js "." ++ rest) /\
                             (In field counters -> forall q, In q before -> within q field = false).
Proof.
  unfold countingPaths. rewrite filter_In, existsb_exists. apply and_iff_compat_l.
  assert (forall field, negb (existsb (str_eqb field) counters) || negb (existsb (fun q => within q field) before) = true <->
            (In field counters -> forall q, In q before -> within q field = false)) as Hc.
  { intros field. rewrite orb_true_iff, !negb_true_iff. split.
    - intros [H|H] Hin q Hq.
      + assert (existsb (str_eqb field) counters = true) by (apply existsb_exists; exists field; split; [done|by apply str_eqb_eq]). congruence.
      + apply not_true_iff_false. intros Hw. assert (existsb (fun q => within q field) before = true) by (apply existsb_exists; eauto). congruence.
    - intros H. destruct (existsb (str_eqb field) counters) eqn:E; [|by left]. right. apply existsb_exists in E as (c & Hc & <-%str_eqb_eq).
      apply not_true_iff_false. intros (q & Hq & Hw)%existsb_exists. rewrite H in Hw; done. }
  split; intros (field & Hin & H); exists field; (split; [done|]).
  - apply andb_true_iff in H as [Hw Hn]. by rewrite within_spec in Hw; rewrite Hc in Hn.
  - apply andb_true_iff. by rewrite within_spec, Hc.
Qed.
