(* ===== verification/ReplayProfiles.v ===== *)
(** * The core and local-clock profiles of the conformance replay

    [formal/replay/core.mjs], [formal/replay/local-clock.mjs] and
    [formal/replay/observation.mjs]: reading a recorded trace, the commands of
    its steps and the predictions it is compared with. *)

From S2P Require Import Prelude JsValue Duration Utf8 Config Key Metrics Frame Json JsonText LogText JsonDiff Itf Divergence ProtocolSchema.

#[local] Open Scope string_scope.
#[local] Open Scope Z_scope.
#[local] Open Scope list_scope.

Definition trace_error (text : string) : exn := PlainError text.

(** [list.map((value, index) => ...)] with a body that can throw. *)
Fixpoint map_steps {A B} (f : nat -> A -> res B) (index : nat) (l : list A) : res (list B) :=
  match l with
  | [] => Ok []
  | x :: rest => y ← f index x; more ← map_steps f (S index) rest; Ok (y :: more)
  end.

(** The list of states, with at least two elements. *)
Definition trace_states (members : list (jsstr * jsval)) : res (list jsval) :=
  match member members "states" with
  | JArr states => if (length states <? 2)%nat then Err (trace_error "expected init and at least one action") else Ok states
  | _ => Err (trace_error "expected init and at least one action")
  end.

Definition text_in (names : list string) (v : jsval) : bool := existsb (fun name => strict_eq (JStr (js name)) v) names.

(** [(index === 0) !== (action === "init")] *)
Definition misplaced (index : nat) (action : jsval) : bool :=
  negb (Bool.eqb (index =? 0)%nat (strict_eq action (JStr (js "init")))).

(** ** [core.mjs] *)

Module Core.

Definition actionNames : list string :=
  ["init"; "bumpSource"; "outsideCall"; "requestLocalPair"; "localCall";
   "coalescedLocalPair"; "remoteCall"; "invalidateRemote"; "remoteReadFailureCall"].

Definition observationFields : list string :=
  ["sourceVersion"; "lastResult"; "outsideLoaderCalls"; "requestLoaderCalls";
   "localLoaderCalls"; "coalescedLoaderCalls"; "remoteLoaderCalls"; "redisReads"; "redisWrites"].

Definition integerFields : list string := observationFields ++ ["localValue"; "coalescedValue"; "remoteValue"].
Definition booleanFields : list string := ["localCached"; "coalescedCached"; "remoteReadable"].

(** A step: its action and the decoded model state. *)
Record step := { action : jsval; state : list (jsstr * jsval) }.

Fixpoint decode_integers (raw : list (jsstr * jsval)) (fields : list string) : res (list (jsstr * jsval)) :=
  match fields with
  | [] => Ok []
  | field :: rest => n ← itfInteger (member raw field); more ← decode_integers raw rest; Ok ((js field, JInt n) :: more)
  end.

Fixpoint decode_booleans (raw : list (jsstr * jsval)) (fields : list string) : res (list (jsstr * jsval)) :=
  match fields with
  | [] => Ok []
  | field :: rest =>
      match member raw field with
      | JBool b => more ← decode_booleans raw rest; Ok ((js field, JBool b) :: more)
      | _ => Err (trace_error "expected boolean")
      end
  end.

Definition parse_step (index : nat) (value : jsval) : res step :=
  st ← record value;
  input ← record (member st "input");
  _ ← (if negb (str_eqb (sorted_keys input) (js "choice,name")) then Err (trace_error "core actions have no external arguments")
       else choice ← itfSignedInteger (member input "choice");
            throw_if (negb (choice =? -1)) (trace_error "core actions have no external arguments"));
  let action := member input "name" in
  _ ← throw_if (negb (text_in actionNames action) || misplaced index action) (trace_error "unknown or misplaced action");
  _ ← assertInputMetadata st (match action with JStr s => s | _ => [] end) (-1) false;
  raw ← record (member st "s");
  _ ← throw_if (negb (length raw =? length integerFields + length booleanFields)%nat) (trace_error "unexpected model state fields");
  integers ← decode_integers raw integerFields;
  booleans ← decode_booleans raw booleanFields;
  Ok {| action := action; state := integers ++ booleans |}.

Definition parseItfTrace (value : jsval) : res (list step) :=
  parsed ← record value;
  states ← trace_states parsed;
  map_steps parse_step 0 states.

Definition identity (useCase : string) : jsval :=
  object [("keyType", JStr (js "user_id")); ("id", JStr (js "123")); ("useCase", JStr (js useCase));
          ("tracked", JBool (String.eqb useCase "ConformanceRemote"))].

Definition localPolicy : jsval := object [("ttlSec", object [("local", JInt 60)]); ("ramp", object [("local", JInt 100)])].

Definition call_members (useCase : string) (policy : jsval) (mode counter : string) : list (string * jsval) :=
  [("identity", identity useCase); ("policy", policy); ("mode", JStr (js mode)); ("counter", JStr (js counter))].

(** [calls[action]] *)
Definition calls (action : jsval) : option (list (string * jsval)) :=
  let named name := strict_eq action (JStr (js name)) in
  if named "outsideCall" then Some (call_members "ConformanceOutside" localPolicy "outside" "outsideLoaderCalls")
  else if named "requestLocalPair" then
    Some (call_members "ConformanceRequest" (object [("requestLocal", JBool true)]) "request-pair" "requestLoaderCalls")
  else if named "localCall" then Some (call_members "ConformanceLocal" localPolicy "single" "localLoaderCalls")
  else if named "coalescedLocalPair" then Some (call_members "ConformanceCoalesced" localPolicy "coalesced-pair" "coalescedLoaderCalls")
  else if named "remoteCall" then
    Some (call_members "ConformanceRemote" (object [("ttlSec", object [("remote", JInt 60)]); ("ramp", object [("remote", JInt 100)])])
            "single" "remoteLoaderCalls")
  else None.

Definition coreCommands (action : jsval) : res (list jsval) :=
  let named name := strict_eq action (JStr (js name)) in
  let clock := object [("op", JStr (js "advanceWall")); ("ms", JInt 1)] in
  if negb (text_in actionNames action) then Err (trace_error "Unknown core command")
  else if named "init" then Ok []
  else if named "bumpSource" then Ok [clock; object [("op", JStr (js "bumpSource"))]]
  else if named "invalidateRemote" then
    Ok [clock; object [("op", JStr (js "invalidate")); ("identity", identity "ConformanceRemote")]]
  else
    let readFailure := named "remoteReadFailureCall" in
    match calls (if readFailure then JStr (js "remoteCall") else action) with
    | Some call => Ok [clock; object (("op", JStr (js "call")) :: call ++ [("readFailure", JBool readFailure)])]
    | None => Err (TypeError "the call descriptor is undefined")
    end.

Definition expectedCoreObservation (st : list (jsstr * jsval)) : jsval :=
  object (List.map (fun field => (field, member st field)) observationFields).

Definition assertCoreObservation (st : list (jsstr * jsval)) (observed : jsval) : option (jsval * jsval) :=
  assertObservation observed (expectedCoreObservation st).

End Core.

(** ** [observation.mjs] *)

(** [emptyObservation(fixture)]: with an event journal when the fixture
    observes events. *)
Definition emptyObservation (observes : bool) : list (string * jsval) :=
  (if observes then [("events", JArr [])] else []) ++
  [("calls", JArr []); ("loaders", JInt 0); ("reads", JInt 0); ("writes", JInt 0); ("invalidations", JInt 0); ("maintenance", JArr []);
   ("loads", JInt 0); ("dumps", JInt 0); ("policyCalls", JInt 0); ("classifications", JInt 0); ("comparisons", JInt 0);
   ("sourceScopes", JArr []); ("writeTtls", JArr []); ("shadow", JArr []); ("recovery", JArr [])].

(** ** [local-clock.mjs] *)

Module LocalClock.

Definition advances : list Z := [1; 100; 300; 400; 700; 999200; 999999; 1000000]%Z.

Definition choices : list (string * list Z) :=
  [("init", [-1]%Z); ("constructInstance", [0; 1]%Z); ("advanceTicks", advances); ("call", [0; 1; 2; 3]%Z)].

(** [choices[action]] *)
Definition choices_of (action : jsval) : option (list Z) :=
  snd <$> List.find (fun '(name, _) => strict_eq action (JStr (js name))) choices.

Record step := { action : jsval; choice : Z; expected : list (jsstr * jsval) }.

(** One field of the shared observation record. *)
Definition decode_field (raw : list (jsstr * jsval)) (field : string * jsval) : res (jsstr * jsval) :=
  let observed := member raw field.1 in
  if String.eqb field.1 "calls" then
    match observed with
    | JArr values => ns ← map_steps (fun _ => itfInteger) 0 values; Ok (js field.1, JArr (List.map JInt ns))
    | _ => Err (trace_error "Invalid clock calls")
    end
  else match field.2 with
       | JNum _ => n ← itfInteger observed; Ok (js field.1, JInt n)
       | _ => match observed with JArr [] => Ok (js field.1, JArr []) | _ => Err (trace_error "Unsupported clock field") end
       end.

Definition parse_step (index : nat) (value : jsval) : res step :=
  st ← record value;
  input ← record (member st "input");
  let action := member input "name" in
  match choices_of action with
  | None => Err (trace_error "Unknown or misplaced clock action")
  | Some allowed =>
      _ ← throw_if (negb (str_eqb (sorted_keys input) (js "choice,name")) || misplaced index action)
            (trace_error "Unknown or misplaced clock action");
      choice ← itfSignedInteger (member input "choice");
      _ ← throw_if (negb (existsb (Z.eqb choice) allowed)) (trace_error "Invalid clock choice");
      _ ← assertInputMetadata st (match action with JStr s => s | _ => [] end) choice (negb (strict_eq action (JStr (js "init"))));
      s ← record (member st "s");
      raw ← record (member s "o");
      let shape := emptyObservation false in
      _ ← throw_if (negb (str_eqb (sorted_keys raw) (join (js ",") (sort_names (List.map (fun f => js f.1) shape)))))
            (trace_error "Missing clock observation fields");
      expected ← map_steps (fun _ => decode_field raw) 0 shape;
      Ok {| action := action; choice := choice; expected := expected |}
  end.

Definition parseLocalClockTrace (raw : jsval) : res (list step) :=
  parsed ← record raw;
  states ← trace_states parsed;
  map_steps parse_step 0 states.

Definition localClockInput (action : jsval) (choice : Z) : res (list jsval) :=
  let named name := strict_eq action (JStr (js name)) in
  match choices_of action with
  | Some allowed =>
      if negb (existsb (Z.eqb choice) allowed) then Err (trace_error "Invalid local-clock action/choice")
      else if named "init" then Ok []
      else if named "constructInstance" then Ok [object [("op", action); ("instance", JInt choice)]]
      else if named "advanceTicks" then Ok [object [("op", action); ("ticks", JInt choice)]]
      else Ok [object [("op", action); ("instance", JInt (choice / 2)); ("offered", JInt (choice mod 2 + 1))]]
  | None => Err (trace_error "Invalid local-clock action/choice")
  end.

Definition assertLocalClockObservation (s : step) (observed : jsval) : option (jsval * jsval) :=
  assertObservation observed (JObj (expected s)).

End LocalClock.
