(* ===== verification/ReplayEffects.v ===== *)
(** * The effects profile of the conformance replay

    [formal/replay/effects.mjs]: reading a recorded trace in either layout,
    the commands of its steps, and the projection of an observation onto the
    predicted record. *)

From S2P Require Import Prelude JsValue Duration Utf8 Config Key Metrics Frame Json JsonText LogText JsonDiff Itf Divergence ProtocolSchema Settlement Coordinator ReplayProfiles.

#[local] Open Scope string_scope.
#[local] Open Scope Z_scope.
#[local] Open Scope list_scope.

(** A throw inside a projection: an assertion on an observed value, or an
    error; and what the coordinator makes of it. *)
Inductive projection_error := DomainError | InfrastructureError.

Definition assertion_of (e : projection_error) : assertion :=
  match e with DomainError => PartialAssertion | InfrastructureError => AssertFailed end.

Module Effects.

Definition actions : list string :=
  ["init"; "beginCall"; "resolveLoader"; "rejectLoader"; "releaseRead"; "failRead"; "releaseLoad"; "failLoad"; "releaseDump"; "failDump";
   "releaseWrite"; "failWrite"; "seedRemote"; "tick"; "jumpClock"; "rollbackWall"; "advanceWall"; "observerFault"; "readBudgetPolicy";
   "adapterReply"; "invalidate"; "futureFence"].

Definition observedFields : list string := ["loaders"; "reads"; "writes"; "invalidations"; "loads"; "dumps"; "policyCalls"].

Definition eventNames : list string :=
  ["request"; "disabled"; "miss"; "error"; "coalesced"; "invalidation"; "get"; "fallback"; "serialization"; "futureOffset"; "size";
   "storedSize"; "writeDispatch"].

Definition timedEvents : list string := ["get"; "fallback"; "serialization"; "futureOffset"].

(** [sharedToEffectsCode] *)
Definition sharedToEffectsCode (code : Z) : option Z :=
  if code =? 0 then Some 0 else if code =? 1 then Some 1 else if code =? 3 then Some 2 else if code =? 4 then Some 3 else None.

Definition REMOTE_TTL_MS : Z := 60000.

Definition chosenActions : list string :=
  ["init"; "advanceWall"; "adapterReply"; "readBudgetPolicy"; "observerFault"; "resolveLoader"; "rejectLoader"; "releaseRead"; "failRead"].

Definition wallAdvances : list Z := [1; 59999; 60000].

Definition choiceBounds (action : jsval) : option (Z * Z) :=
  let named name := strict_eq action (JStr (js name)) in
  if named "init" then Some (0, 5) else if named "readBudgetPolicy" then Some (0, 4)
  else if named "observerFault" then Some (0, 1) else if named "adapterReply" then Some (1, 16) else None.

(** ** Reading a trace *)

(** [amount / 1000] in double arithmetic. *)
Definition seconds_of (amount : Z) : number := if amount =? 0 then of_Z 0 else round_double false amount 1000.

Definition parse_event (value : jsval) : res jsval :=
  event ← record value;
  match member event "event", member event "location", member event "detail" with
  | JStr name, JStr location, JStr detail =>
      if negb (str_eqb (sorted_keys event) (js "amount,detail,event,location")) || negb (text_in eventNames (JStr name))
      then Err (trace_error "invalid event observation")
      else amount ← itfInteger (member event "amount");
           Ok (object [("event", JStr name); ("location", JStr location); ("detail", JStr detail);
                       ("amount", if text_in timedEvents (JStr name) then JNum (seconds_of amount) else JInt amount)])
  | _, _, _ => Err (trace_error "invalid event observation")
  end.

Definition parseEvents (raw : jsval) : res jsval :=
  match raw with
  | JArr values => events ← map_steps (fun _ => parse_event) 0 values; Ok (JArr events)
  | _ => Err (trace_error "missing event observations")
  end.

Definition integers (raw : jsval) : res (list Z) :=
  match raw with
  | JArr values => map_steps (fun _ => itfInteger) 0 values
  | _ => Err (trace_error "missing list")
  end.

Fixpoint effect_codes (codes : list Z) : res (list Z) :=
  match codes with
  | [] => Ok []
  | c :: rest =>
      match sharedToEffectsCode c with
      | Some e => more ← effect_codes rest; Ok (e :: more)
      | None => Err (trace_error "unsupported caller outcome")
      end
  end.

Definition supported_budget (budget : Z) : bool := existsb (Z.eqb budget) [10; 20; 30; 50].

(** [budgets.map((timeoutMs, index) => ({ index, timeoutMs, aborted: false }))] *)
Definition read_contexts (budgets : list Z) : jsval :=
  JArr (imap (fun index timeoutMs => object [("index", JInt (Z.of_nat index)); ("timeoutMs", JInt timeoutMs); ("aborted", JBool false)]) budgets).

Definition ints (l : list Z) : jsval := JArr (List.map JInt l).

Definition composedExpected (rawState : list (jsstr * jsval)) : res jsval :=
  o ← record (member rawState "o");
  io ← record (member rawState "io");
  shared ← integers (member o "calls");
  calls ← effect_codes shared;
  budgets ← integers (member io "budgets");
  aborted ← integers (member io "aborted");
  _ ← throw_if (existsb (fun b => negb (supported_budget b)) budgets) (trace_error "unsupported read budget");
  fields ← Core.decode_integers o observedFields;
  events ← parseEvents (member rawState "events");
  writeTtls ← integers (member o "writeTtls");
  Ok (JObj (fields ++ [(js "calls", ints calls); (js "events", events); (js "writeTtls", ints writeTtls);
                       (js "readAborts", ints aborted); (js "readContexts", read_contexts budgets)])).

Definition retiredFields : list string :=
  ["now"; "wall"; "readStarted"; "decodeStarted"; "tracked"; "reply"; "replyAt"; "readBudget"; "baseReadBudget"; "phase"; "activeLoader";
   "activeRead"; "deadline"; "refill"; "acceptedAt"; "acceptedWall"; "observerFailed"; "readAborts"; "observedFence"; "writeTimestamp";
   "storedTimestamp"; "watermark"] ++ observedFields.

(** What the next step reads of the one before. *)
Record previous_step := { prev_readAborts : Z; prev_activeRead : Z; prev_aborted : list Z }.

Definition int_member (members : list (jsstr * jsval)) (name : string) : Z :=
  match member members name with JNum n => default 0 (to_int n) | _ => 0 end.

Definition retiredExpected (rawState : list (jsstr * jsval)) (previous : option previous_step) : res (jsval * previous_step) :=
  _ ← throw_if (negb (length rawState =? length retiredFields + 5)%nat) (trace_error "unexpected model fields");
  state ← Core.decode_integers rawState retiredFields;
  calls ← integers (member rawState "calls");
  readBudgets ← integers (member rawState "readBudgets");
  _ ← integers (member rawState "sources");
  _ ← integers (member rawState "readStates");
  _ ← throw_if (existsb (fun code => 3 <? code) calls || existsb (fun b => negb (supported_budget b)) readBudgets)
        (trace_error "unsupported code");
  let readAborts := int_member state "readAborts" in
  let aborted := match previous with
                 | None => []
                 | Some p => prev_aborted p ++ if prev_readAborts p <? readAborts then [prev_activeRead p] else []
                 end in
  events ← parseEvents (member rawState "events");
  Ok (JObj (List.map (fun field => (js field, member state field)) observedFields ++
            [(js "calls", ints calls); (js "events", events);
             (js "writeTtls", ints (replicate (Z.to_nat (int_member state "writes")) REMOTE_TTL_MS));
             (js "readAborts", ints aborted); (js "readContexts", read_contexts readBudgets)]),
      {| prev_readAborts := readAborts; prev_activeRead := int_member state "activeRead"; prev_aborted := aborted |}).

Record step := { action : jsval; choice : Z; expected : jsval }.

(** The choice of a step, within the domain of its action. *)
Definition check_choice (action : jsval) (encoded : Z) : res unit :=
  if text_in chosenActions action then
    _ ← throw_if (encoded <? 0) (trace_error "missing effect choice");
    _ ← throw_if (strict_eq action (JStr (js "advanceWall")) && negb (existsb (Z.eqb encoded) wallAdvances))
          (trace_error "unsupported wall advance");
    match choiceBounds action with
    | Some (lo, hi) => throw_if ((encoded <? lo) || (hi <? encoded)) (trace_error "unsupported effect choice")
    | None => Ok tt
    end
  else throw_if (negb (encoded =? -1)) (trace_error "unexpected effect choice").

Definition parse_step (index : nat) (previous : option previous_step) (raw : jsval) : res (step * option previous_step) :=
  st ← record raw;
  input ← record (member st "input");
  _ ← throw_if (negb (str_eqb (sorted_keys input) (js "choice,name"))) (trace_error "invalid explicit input");
  let action := member input "name" in
  _ ← throw_if (negb (text_in actions action) || misplaced index action) (trace_error "unknown or misplaced action");
  encoded ← itfSignedInteger (member input "choice");
  _ ← check_choice action encoded;
  _ ← assertInputMetadata st (match action with JStr s => s | _ => [] end) encoded (text_in chosenActions action);
  rawState ← record (member st "s");
  if has_member rawState (js "o") then
    expected ← composedExpected rawState; Ok ({| action := action; choice := encoded; expected := expected |}, previous)
  else
    '(expected, p) ← retiredExpected rawState previous;
    Ok ({| action := action; choice := encoded; expected := expected |}, Some p).

Fixpoint parse_steps (index : nat) (previous : option previous_step) (states : list jsval) : res (list step) :=
  match states with
  | [] => Ok []
  | raw :: rest =>
      '(s, p) ← parse_step index previous raw;
      more ← parse_steps (S index) p rest;
      Ok (s :: more)
  end.

Definition parseTrace (value : jsval) : res (list step) :=
  parsed ← record value;
  states ← trace_states parsed;
  parse_steps 0 None states.

(** ** Commands *)

(** Concrete encodings of the reply classes, [replies[choice - 1]]. *)
Definition adapterReply (choice stamp : Z) : jsval :=
  let kind := ("kind", JStr (js "miss")) in
  let reason s := ("reason", JStr (js s)) in
  let observed z := ("observedWatermarkMs", JInt z) in
  default JUndefined (([JNull; JInt 42; object [("kind", JStr (js "watermark_miss")); observed (stamp + 20)];
    object [reason "value_absent"]; object [kind]; object [kind; reason "invented"];
    object [kind; reason "invented"; observed (stamp + 20)];
    object [kind; reason "watermark_fenced"]; object [kind; reason "watermark_fenced"; observed (-1)];
    object [kind; reason "value_absent"; ("observedWatermarkMs", JNum (Fin (3 # 2)))];
    object [kind; reason "value_absent"; observed 9007199254740992];
    object [kind; reason "value_absent"; observed (stamp + 20)];
    object [kind; reason "expired"; observed 0];
    object [kind; reason "value_absent"; ("payload", JStr (js "1")); ("createdAtMs", JInt stamp)];
    object [reason "watermark_fenced"; observed (stamp + 20); ("payload", JStr (js "1")); ("createdAtMs", JInt stamp)];
    object [kind; reason "watermark_fenced"; observed (stamp + 20)]] : list jsval) !! Z.to_nat (choice - 1)).

(** [n - 1] *)
Definition minus_one (v : jsval) : jsval :=
  match v with
  | JNum (Fin q) => JNum (Fin (Qred (q - 1)))
  | JNum n => JNum n
  | _ => JNum NaN
  end.

(** [observed[field] - 1] *)
Definition latest (observed : jsval) (field : string) : jsval := minus_one (prop observed field).

Definition release (effect : string) (index : jsval) (failed : bool) : list jsval :=
  let faults b := object [("op", JStr (js "faults")); ("value", object [(effect, JBool b)])] in
  [faults failed; object [("op", JStr (js "release")); ("effect", JStr (js effect)); ("index", index)]; faults false].

Definition inputsFor (action : jsval) (choice : Z) (observed : jsval) (wallMs : Z) : res (list jsval) :=
  let named name := strict_eq action (JStr (js name)) in
  let op name more := object (("op", JStr (js name)) :: more) in
  if named "init" then
    Ok [op "policy" [("value", if choice =? 3 then object [("remoteReadTimeoutMs", JInt 30)] else if choice =? 4 then JNull else object [])]]
  else if named "beginCall" then Ok [op "begin" []]
  else if named "resolveLoader" then Ok [op "resolve" [("loader", JInt choice); ("value", JInt 1)]]
  else if named "rejectLoader" then Ok [op "reject" [("loader", JInt choice)]]
  else if named "releaseRead" then Ok (release "read" (JInt choice) false)
  else if named "failRead" then Ok (release "read" (JInt choice) true)
  else if named "releaseLoad" then Ok (release "load" (latest observed "loads") false)
  else if named "failLoad" then Ok (release "load" (latest observed "loads") true)
  else if named "releaseDump" then Ok (release "dump" (latest observed "dumps") false)
  else if named "failDump" then Ok (release "dump" (latest observed "dumps") true)
  else if named "releaseWrite" then Ok (release "write" (latest observed "writes") false)
  else if named "failWrite" then Ok (release "write" (latest observed "writes") true)
  else if named "seedRemote" then Ok [op "seed" [("value", JInt 1)]]
  else if named "tick" then Ok [op "advance" [("ms", JInt 10)]]
  else if named "jumpClock" then Ok [op "advance" [("ms", JInt 10); ("deliverTimers", JBool false)]]
  else if named "readBudgetPolicy" then
    Ok [op "policy" [("value", if choice =? 0 then object []
                               else object [("remoteReadTimeoutMs", JInt (default 0 (([0; 10; 20; 30; 50] : list Z) !! Z.to_nat choice)))])]]
  else if named "adapterReply" then Ok [op "adapterReply" [("value", adapterReply choice wallMs)]]
  else if named "observerFault" then Ok [op "faults" [("value", object [("observer", JBool (choice =? 1))])]]
  else if named "advanceWall" then Ok [op "shiftWall" [("ms", JInt choice)]]
  else if named "rollbackWall" then Ok [op "shiftWall" [("ms", JInt (-1000))]]
  else if named "invalidate" then Ok [op "invalidate" []]
  else if named "futureFence" then Ok [op "invalidate" [("futureBufferMs", JInt 20)]]
  else Err (TypeError "inputs is not iterable").

(** ** The projection of an observation *)

Abbreviation projected := (result projection_error).

Definition assert_equal (actual wanted : jsval) : projected unit := if isDeepStrictEqual actual wanted then Ok tt else Err DomainError.

Definition starts (text : jsstr) (prefix : string) : bool := match strip_prefix (js prefix) text with Some _ => true | None => false end.

Definition project_call (call : jsval) : projected Z :=
  if strict_eq (prop call "status") (JStr (js "pending")) then Ok 0
  else if strict_eq (prop call "status") (JStr (js "value")) then Ok (if strict_eq (prop call "value") (JInt 1) then 1 else 4)
  else match prop call "error" with
       | JStr text => Ok (if starts text "source:" then 2 else if starts text "timeout:" then 3 else 4)
       | _ => Err InfrastructureError
       end.

(** [a ?? b] over the members of an event. *)
Definition first_of (event : jsval) (names : list string) (otherwise : jsval) : jsval :=
  foldr (fun name rest => nullish (prop event name) rest) otherwise names.

Definition project_event (event : jsval) : projected jsval :=
  let is_event name := strict_eq (prop event "event") (JStr (js name)) in
  if is_event "writeDispatch" then
    match prop event "index" with
    | JNum n => Ok (object [("event", prop event "event"); ("location", JStr (js "remote")); ("detail", JStr []); ("amount", JNum n)])
    | _ => Err InfrastructureError
    end
  else
    _ ← assert_equal (prop event "cacheNamespace") (JStr (js "urn"));
    _ ← assert_equal (prop event "keyType") (JStr (js "id"));
    _ ← (if is_event "invalidation" then Ok tt else assert_equal (prop event "useCase") (JStr (js "Behavior")));
    _ ← (if is_event "error" then assert_equal (prop event "inFallback") (JBool (strict_eq (prop event "error") (JStr (js "fallback")))) else Ok tt);
    match nullish (prop event "layer") (prop event "scope"), first_of event ["reason"; "error"; "operation"] (JStr []),
          first_of event ["seconds"; "bytes"] (JInt 0) with
    | JStr location, JStr detail, JNum amount =>
        Ok (object [("event", prop event "event"); ("location", JStr location); ("detail", JStr detail); ("amount", JNum amount)])
    | _, _, _ => Err InfrastructureError
    end.

Fixpoint map_projected {A B} (f : A -> projected B) (l : list A) : projected (list B) :=
  match l with
  | [] => Ok []
  | x :: rest => y ← f x; more ← map_projected f rest; Ok (y :: more)
  end.

Definition event_named (name : string) (event : jsval) : bool := strict_eq (prop event "event") (JStr (js name)).

Definition projectEvents (observed : jsval) : projected (list jsval) :=
  map_projected project_event
    (List.filter (fun e => negb (event_named "readContext" e) && negb (event_named "readAbort" e)) (items_of (prop observed "events"))).

Definition project (observed : jsval) : projected jsval :=
  let events := items_of (prop observed "events") in
  calls ← map_projected project_call (items_of (prop observed "calls"));
  projectedEvents ← projectEvents observed;
  Ok (object (List.map (fun field => (field, prop observed field)) observedFields ++
    [("calls", ints calls); ("writeTtls", prop observed "writeTtls"); ("events", JArr projectedEvents);
     ("readContexts", JArr (List.map (fun e => object [("index", prop e "index"); ("timeoutMs", prop e "timeoutMs"); ("aborted", prop e "aborted")])
                              (List.filter (event_named "readContext") events)));
     ("readAborts", JArr (List.map (fun e => prop e "index") (List.filter (event_named "readAbort") events)))])).

Definition fixtureFor (mode : Z) : jsval :=
  object [("policy", object (("ttlSec", object [("remote", JInt 60)]) :: if 2 <=? mode then [("remoteReadTimeoutMs", JInt 10)] else []));
          ("tracked", JBool (negb (mode =? 5))); ("readTimeoutMs", if mode =? 0 then JStr (js "default") else JInt 20);
          ("observe", JArr (List.map (fun n => JStr (js n)) (["readContext"; "readAbort"] ++ eventNames)))].

Definition expectedObservations (steps : list step) : list jsval := List.map expected steps.

End Effects.
