(* ===== verification/ReplayFeatures.v ===== *)
(** * The feature profiles of the conformance replay: traces and projections

    [formal/replay/features.mjs] without its table of profiles: what a profile
    declares, reading a recorded trace of it, the command of a step, and the
    projection of an observation onto the predicted record.

    An observation reaches the projection only after the schema check of the
    coordinator, so its events and calls are records. *)

From S2P Require Import Prelude JsValue Duration Utf8 Config Key Metrics Frame Json JsonText LogText JsonDiff Pattern ReplaySchema ProtocolSchema Settlement Coordinator Itf Divergence ReplayProfiles ReplayEffects.

#[local] Open Scope string_scope.
#[local] Open Scope Z_scope.
#[local] Open Scope list_scope.

(** The outcome of an [assertObservation], with the paths a recording keeps. *)
Definition compared_records (r : option (jsval * jsval)) : assertion :=
  match r with None => Passed | Some (expected, actual) => Mismatch (default [] (diffPaths expected actual)) end.

Module Features.

(** ** Profiles *)

(** The choices of an action, when it has any, and the command it gives from
    the choice, the observation and the wall clock. *)
Record feature_action := { fa_choices : option (list Z); fa_input : Z -> jsval -> Z -> res jsval }.

Record profile := {
  pf_readIO : bool;
  pf_markerIO : bool;
  pf_compressionIO : bool;
  pf_policyErrorIO : bool;
  pf_diagnosticAge : option string;
  pf_diagnosticUseCase : option string;
  pf_diagnosticConfigErrors : bool;
  pf_diagnosticFutureOffsets : bool;
  pf_diagnosticInspections : bool;
  pf_diagnosticWarnings : bool;
  pf_initChoices : option (list Z);
  pf_fixture : Z -> jsval;
  pf_setup : list jsval;
  pf_actions : list (string * feature_action);
}.

(** [...(c ? members : {})] *)
Definition when {A} (c : bool) (members : list A) : list A := if c then members else [].

(** [profile.actions[action]] *)
Definition action_of (p : profile) (action : jsval) : option feature_action :=
  snd <$> List.find (fun '(name, _) => strict_eq action (JStr (js name))) (pf_actions p).

Definition UNRENDERABLE : Z := 12.

(** ** Reading a trace *)

Definition bad (text : string) {A} : res A := Err (trace_error text).

(** [raw.map(item => ...)] on an array. *)
Definition map_array {B} (f : jsval -> res B) (raw : jsval) : res (list B) :=
  match raw with JArr items => map_steps (fun _ => f) 0 items | _ => bad "expected a list" end.

Definition is_text (v : jsval) : bool := match v with JStr _ => true | _ => false end.

(** One entry of an observed list. *)
Definition observation_entry (key : string) (entry : jsval) : res jsval :=
  if String.eqb key "calls" || String.eqb key "writeTtls" then
    integer ← itfInteger entry;
    if String.eqb key "calls" && ((integer <? 0) || (9 <? integer) && negb (integer =? 11) && negb (integer =? UNRENDERABLE))
    then bad "unsupported caller outcome" else Ok (JInt integer)
  else if (if String.eqb key "sourceScopes" then is_boolean entry else is_text entry) then Ok entry
  else bad "invalid entry".

Definition observation_field (value : list (jsstr * jsval)) (field : string * jsval) : res (jsstr * jsval) :=
  match field.2 with
  | JNum _ => n ← itfInteger (member value field.1); Ok (js field.1, JInt n)
  | _ => items ← map_array (observation_entry field.1) (member value field.1); Ok (js field.1, JArr items)
  end.

Definition observation (raw : jsval) : res (list (jsstr * jsval)) :=
  value ← record raw;
  let shape := emptyObservation false in
  if negb (str_eqb (sorted_keys value) (join (js ",") (sort_names (List.map (fun f => js f.1) shape)))) then bad "unexpected observation fields"
  else map_steps (fun _ => observation_field value) 0 shape.

Definition warningContentFields : list string := ["loggingOutcomes"; "mismatchWarnings"].
Definition loggingOutcomes : list string := ["logged"; "hook_error"; "render_error"; "logger_error"].
Definition warningFields : jsstr := js "ageMs,cachedValue,count,diff,diffNull,entries,loggingOutcome,paths,sourceValue".

Definition labels (items : jsval) (allowed : list string) : res jsval :=
  match items with
  | JArr l => if forallb (text_in allowed) l then Ok items else bad "invalid diagnostic labels"
  | _ => bad "invalid diagnostic labels"
  end.

Definition mismatch_entry (raw : jsval) : res jsval :=
  entry ← record raw;
  if negb (str_eqb (sorted_keys entry) (js "cached,path,source")) || negb (is_text (member entry "path")) then bad "invalid mismatch entry"
  else cached ← itfSignedInteger (member entry "cached");
       source ← itfSignedInteger (member entry "source");
       Ok (object [("path", member entry "path"); ("cached", JInt cached); ("source", JInt source)]).

Definition mismatch_warning_of (item : jsval) : res jsval :=
  warning ← record item;
  let get := member warning in
  if negb (str_eqb (sorted_keys warning) warningFields) || negb (isArray (get "paths")) || negb (isArray (get "entries"))
     || negb (text_in ["off"; "paths"; "values"] (get "diff")) || negb (is_boolean (get "diffNull"))
     || negb (text_in [""; "hook_error"; "render_error"] (get "loggingOutcome")) || negb (forallb is_text (items_of (get "paths")))
  then bad "invalid mismatch warning"
  else
    ageMs ← itfInteger (get "ageMs");
    cachedValue ← itfSignedInteger (get "cachedValue");
    sourceValue ← itfSignedInteger (get "sourceValue");
    count ← itfInteger (get "count");
    entries ← map_array mismatch_entry (get "entries");
    Ok (object [("ageSeconds", JNum (Effects.seconds_of ageMs)); ("cachedValue", JInt cachedValue); ("sourceValue", JInt sourceValue);
                ("diff", get "diff"); ("diffNull", get "diffNull"); ("count", JInt count); ("paths", get "paths");
                ("entries", JArr entries); ("loggingOutcome", get "loggingOutcome")]).

Definition mismatchWarnings (raw : jsval) : res jsval := warnings ← map_array mismatch_warning_of raw; Ok (JArr warnings).

Definition future_offset (raw : jsval) : res jsval :=
  offset ← record raw;
  if negb (str_eqb (sorted_keys offset) (js "layer,offsetMs")) || negb (strict_eq (member offset "layer") (JStr (js "remote_shadow")))
  then bad "invalid future offset layer"
  else offsetMs ← itfInteger (member offset "offsetMs");
       if offsetMs <=? 0 then bad "future offset must be positive"
       else Ok (object [("layer", member offset "layer"); ("offsetMs", JInt offsetMs)]).

Definition inspection (raw : jsval) : res jsval :=
  entry ← record raw;
  if negb (str_eqb (sorted_keys entry) (js "activeFollowers,activeLeaders,instance,oldestLeaderAgeMs")) then bad "invalid coalescing inspection"
  else
    age ← itfSignedInteger (member entry "oldestLeaderAgeMs");
    if age <? -1 then bad "invalid oldest leader age"
    else
      instance ← itfInteger (member entry "instance");
      activeLeaders ← itfInteger (member entry "activeLeaders");
      activeFollowers ← itfInteger (member entry "activeFollowers");
      Ok (object [("instance", JInt instance); ("activeLeaders", JInt activeLeaders); ("activeFollowers", JInt activeFollowers);
                  ("oldestLeaderAgeMs", if age =? -1 then JNull else JInt age)]).

(** [c ? [value] : []], with a value that can throw. *)
Definition when_ok {A} (c : bool) (value : res A) : res (list A) := if c then x ← value; Ok [x] else Ok [].

Definition diagnostics (p : profile) (raw : jsval) : res jsval :=
  value ← record raw;
  let warningContent := pf_diagnosticWarnings p in
  let fields := ["ages"; "coalesced"; "fallbackErrors"; "warnings"] ++ when (pf_diagnosticConfigErrors p) ["configErrors"]
                ++ when (pf_diagnosticFutureOffsets p) ["futureOffsets"] ++ when (pf_diagnosticInspections p) ["inspections"]
                ++ when warningContent warningContentFields in
  let carried := List.filter (fun key => warningContent || negb (text_in warningContentFields (JStr key))
                   || match assoc key value with Some (JArr (_ :: _)) => true | Some (JArr []) => false | _ => true end) (Object_keys value) in
  if negb (str_eqb (join (js ",") (sort_names carried)) (join (js ",") (sort_names (List.map js fields)))) || negb (isArray (member value "ages"))
  then bad "invalid diagnostics"
  else
    offsets ← when_ok (pf_diagnosticFutureOffsets p) (map_array future_offset (member value "futureOffsets"));
    inspections ← when_ok (pf_diagnosticInspections p) (map_array inspection (member value "inspections"));
    configErrors ← when_ok (pf_diagnosticConfigErrors p) (itfInteger (member value "configErrors"));
    content ← when_ok warningContent (warnings ← mismatchWarnings (member value "mismatchWarnings");
                                      outcomes ← labels (member value "loggingOutcomes") loggingOutcomes; Ok (warnings, outcomes));
    warnings ← itfInteger (member value "warnings");
    ages ← map_array itfInteger (member value "ages");
    coalesced ← labels (member value "coalesced") ["process"; "request_local"];
    fallbackErrors ← labels (member value "fallbackErrors") ["noop"; "local"; "remote"; "request_local"];
    Ok (object (List.map (fun l => ("inspections", JArr l)) inspections ++ List.map (fun l => ("futureOffsets", JArr l)) offsets ++
                List.map (fun n => ("configErrors", JInt n)) configErrors ++
                concat (List.map (fun '(w, o) => [("mismatchWarnings", w); ("loggingOutcomes", o)]) content) ++
                [("warnings", JInt warnings); ("ages", JArr (List.map (fun a => JNum (Effects.seconds_of a)) ages));
                 ("coalesced", coalesced); ("fallbackErrors", fallbackErrors)])).

(** [new Set(l).size === l.length] *)
Fixpoint all_distinct (l : list Z) : bool :=
  match l with [] => true | x :: rest => negb (existsb (Z.eqb x) rest) && all_distinct rest end.

Definition readIO (raw : jsval) (callCount : nat) : res jsval :=
  value ← record raw;
  if negb (str_eqb (sorted_keys value) (js "aborted,budgets,sourceErrors")) then bad "invalid read observations"
  else
    budgets ← map_array itfInteger (member value "budgets");
    aborted ← map_array itfInteger (member value "aborted");
    if existsb (fun v => v <=? 0) budgets || existsb (fun v => Z.of_nat (length budgets) <=? v) aborted || negb (all_distinct aborted)
    then bad "invalid read budget or cancellation"
    else
      sourceErrors ← map_array itfInteger (member value "sourceErrors");
      if negb (length sourceErrors =? callCount)%nat then bad "missing caller error identities"
      else Ok (object [("budgets", Effects.ints budgets); ("aborted", Effects.ints aborted); ("sourceErrors", Effects.ints sourceErrors)]).

Definition markerIO (raw : jsval) : res jsval :=
  markers ← map_array (fun item =>
    marker ← record item;
    if negb (str_eqb (sorted_keys marker) (js "cutoffMs,ttlMs")) then bad "invalid marker observation"
    else cutoffMs ← itfSignedInteger (member marker "cutoffMs");
         ttlMs ← itfSignedInteger (member marker "ttlMs");
         Ok (object [("cutoffMs", JInt cutoffMs); ("ttlMs", JInt ttlMs)])) raw;
  Ok (JArr markers).

Definition policy_error_record : jsval := object [("layer", JStr (js "noop")); ("errorType", JStr (js "config_resolution"))].

Definition policyErrors (raw : jsval) : res jsval :=
  errors ← map_array (fun item =>
    error ← record item;
    if negb (str_eqb (sorted_keys error) (js "errorType,layer")) || negb (strict_eq (member error "layer") (JStr (js "noop")))
       || negb (strict_eq (member error "errorType") (JStr (js "config_resolution")))
    then bad "invalid policy error" else Ok policy_error_record) raw;
  Ok (JArr errors).

Definition compression_outcomes : list string := ["decompressed"; "fallback_raw"].

Definition compressionIO (raw : jsval) : res jsval :=
  match raw with
  | JArr l => if forallb (text_in compression_outcomes) l then Ok raw else bad "invalid compression observations"
  | _ => bad "invalid compression observations"
  end.

(** A step; the optional parts in the order [expectedObservation] lists them. *)
Record feature_step := {
  fs_action : jsval;
  fs_choice : Z;
  fs_expected : list (jsstr * jsval);
  fs_policyErrors : list jsval;
  fs_diagnostics : list jsval;
  fs_io : list jsval;
  fs_markers : list jsval;
  fs_compression : list jsval;
}.

(** The choices an input is checked against: [None] when it has none. *)
Definition declared_choices (p : profile) (index : nat) (action : jsval) : option (option (list Z)) :=
  if (index =? 0)%nat then if strict_eq action (JStr (js "init")) then Some (pf_initChoices p) else None
  else fa_choices <$> action_of p action.

Definition feature_parse_step (p : profile) (index : nat) (rawState : jsval) : res feature_step :=
  state ← record rawState;
  input ← record (member state "input");
  if negb (str_eqb (sorted_keys input) (js "choice,name")) then bad "invalid explicit input"
  else
    let action := member input "name" in
    match declared_choices p index action with
    | None => bad "unknown or misplaced action"
    | Some choices =>
        choice ← itfSignedInteger (member input "choice");
        if negb (match choices with None => choice =? -1 | Some l => existsb (Z.eqb choice) l end) then bad "unsupported explicit choice"
        else
          _ ← assertInputMetadata state (match action with JStr s => s | _ => [] end) choice (match choices with Some _ => true | None => false end);
          s ← record (member state "s");
          expected ← observation (member s "o");
          policyErrors ← when_ok (pf_policyErrorIO p) (policyErrors (member s "policyErrors"));
          compression ← when_ok (pf_compressionIO p) (compressionIO (member s "compression"));
          markers ← when_ok (pf_markerIO p) (markerIO (member s "markers"));
          io ← when_ok (pf_readIO p) (readIO (member s "io") (length (items_of (member expected "calls"))));
          d ← when_ok (match pf_diagnosticAge p with Some _ => true | None => false end) (diagnostics p (member s "d"));
          Ok {| fs_action := action; fs_choice := choice; fs_expected := expected; fs_policyErrors := policyErrors;
                fs_diagnostics := d; fs_io := io; fs_markers := markers; fs_compression := compression |}
    end.

Definition feature_parseTrace (p : profile) (raw : jsval) : res (list feature_step) :=
  parsed ← record raw;
  states ← trace_states parsed;
  map_steps (feature_parse_step p) 0 states.

(** ** The command of a step *)

Definition featureInput (p : profile) (action : jsval) (choice : Z) (observed : jsval) (wallMs : Z) : res jsval :=
  match action_of p action with
  | None => bad "Unknown feature action or choice"
  | Some binding =>
      if (match fa_choices binding with Some l => negb (existsb (Z.eqb choice) l) | None => negb (choice =? -1) && negb (choice =? 0) end)
      then bad "Unknown feature action or choice"
      else fa_input binding choice observed wallMs
  end.

(** ** The projection of an observation *)

Abbreviation projected := (result projection_error).

Definition malformed {A} : projected A := Err InfrastructureError.

(** [assertObservedDomain] *)
Definition assertObservedDomain (valid : bool) : projected unit := if valid then Ok tt else Err DomainError.

(** [assertSubset(event, required)] *)
Fixpoint assertSubset (actual : jsval) (required : list (string * jsval)) : projected unit :=
  match required with
  | [] => Ok tt
  | (key, value) :: rest => _ ← Effects.assert_equal (prop actual key) value; assertSubset actual rest
  end.

Definition is_true (v : jsval) : bool := strict_eq v (JBool true).
Definition says (v : jsval) (name : string) : bool := strict_eq v (JStr (js name)).

(** [valueCode(c)] of a call with a value. *)
Definition valueCode (call : jsval) : Z :=
  let v := prop call "value" in
  if strict_eq v (JInt 1) then 1
  else if strict_eq v (JInt 2) then 2
  else if is_null v then 6
  else if strict_eq v (JBool false) then 7
  else if strict_eq v (JInt 0) then 8
  else if strict_eq v (JStr []) then 9
  else if says v "undefined" then 11
  else if typeof_object v && is_true (prop v "absent") then 5
  else if typeof_object v && is_true (prop v "unrenderable") then UNRENDERABLE
  else 10.

Definition cafe : jsstr := js "caf" ++ [233].

Definition json_codes : list (jsval * Z) :=
  [(JInt 1, 1); (JInt 2, 2); (JStr cafe, 3); (JNull, 6); (JBool false, 7); (JInt 0, 8); (JStr [], 9)].

Definition jsonCode (value : jsval) : projected Z :=
  match List.find (fun '(json, _) => strict_eq json value) json_codes with
  | Some (_, code) => Ok code
  | None => Err DomainError
  end.

Definition parsedField (text : jsval) : projected jsval :=
  match text with
  | JStr s => match JSON_parse s with Ok v => Ok v | Err _ => Err DomainError end
  | _ => malformed
  end.

Definition sideCode (holder : jsval) (side : string) (parse : bool) : projected Z :=
  if negb (hasOwn holder side) then Ok (-1)
  else if is_null (prop holder side) && parse then Ok 0
  else if parse then v ← parsedField (prop holder side); jsonCode v
  else jsonCode (prop holder side).

Definition entry_shape (entry : jsval) : bool :=
  match entry with
  | JObj members => is_text (prop entry "path") && forallb (fun key => text_in ["path"; "cached"; "source"] (JStr key)) (Object_keys members)
  | _ => false
  end.

Definition project_entry (entry : jsval) : projected jsval :=
  cached ← sideCode entry "cached" false;
  source ← sideCode entry "source" false;
  Ok (object [("path", prop entry "path"); ("cached", JInt cached); ("source", JInt source)]).

Definition is_safe (v : jsval) : bool := match v with JNum n => match isSafeInteger n with Some _ => true | None => false end | _ => false end.

(** [c ? f() : value], with a call that can throw. *)
Definition call_when {A} (c : bool) (call : projected A) (value : A) : projected A := if c then call else Ok value.

Definition projectWarning (event : jsval) : projected jsval :=
  let has := hasOwn event in
  let get := prop event in
  match get "cachedValueAgeSeconds" with
  | JNum age =>
      let diff := if has "diffJson" then "values" else if has "mismatchPathsJson" then "paths" else "off" in
      let off := String.eqb diff "off" in
      let values := String.eqb diff "values" in
      let diffNull := has "mismatchPathsJson" && is_null (get "mismatchPathsJson") in
      _ ← assertObservedDomain
            (Bool.eqb (has "mismatchPathsJson") (has "mismatchPathCount") && (negb values || has "mismatchPathsJson")
             && (off || Bool.eqb (is_null (get "mismatchPathCount")) diffNull && (negb values || Bool.eqb (is_null (get "diffJson")) diffNull)));
      let listed := negb off && negb diffNull in
      paths ← call_when listed (parsedField (get "mismatchPathsJson")) (JArr []);
      entries ← call_when (listed && values) (parsedField (get "diffJson")) (JArr []);
      _ ← assertObservedDomain
            (isArray paths && forallb is_text (items_of paths) && isArray entries && forallb entry_shape (items_of entries)
             && (negb listed || is_safe (get "mismatchPathCount")));
      cachedValue ← sideCode event "cachedValueJson" true;
      sourceValue ← sideCode event "sourceValueJson" true;
      projectedEntries ← Effects.map_projected project_entry (items_of entries);
      Ok (object [("ageSeconds", JNum age); ("cachedValue", JInt cachedValue); ("sourceValue", JInt sourceValue);
                  ("diff", JStr (js diff)); ("diffNull", JBool diffNull);
                  ("count", if listed then get "mismatchPathCount" else JInt 0); ("paths", paths);
                  ("entries", JArr projectedEntries); ("loggingOutcome", nullish (get "loggingOutcome") (JStr []))])
  | _ => malformed
  end.

Definition call_code (call : jsval) : projected Z :=
  if says (prop call "status") "pending" then Ok 0
  else if says (prop call "status") "value" then Ok (valueCode call)
  else match prop call "error" with
       | JStr text => Ok (if Effects.starts text "source:" then 3 else if Effects.starts text "timeout:" then 4 else 10)
       | _ => malformed
       end.

(** [{ ...o, name: v }] and [{ name: _, ...rest } = o] *)
Fixpoint with_member (members : list (jsstr * jsval)) (name : jsstr) (v : jsval) : list (jsstr * jsval) :=
  match members with
  | [] => [(name, v)]
  | (n, w) :: rest => if str_eqb n name then (n, v) :: rest else (n, w) :: with_member rest name v
  end.

Definition without_member (members : list (jsstr * jsval)) (name : jsstr) : list (jsstr * jsval) :=
  List.filter (fun '(n, _) => negb (str_eqb n name)) members.

Definition feature_project (o : list (jsstr * jsval)) : projected jsval :=
  codes ← Effects.map_projected call_code (items_of (member o "calls"));
  Ok (JObj (with_member o (js "calls") (Effects.ints codes))).

(** *** Reads and cancellations *)

(** [Number(text)] of a text of digits, and [n + 1]. *)
Definition Number_of_digits (text : jsstr) : number :=
  if digits_value text =? 0 then of_Z 0 else round_double false (digits_value text) 1.

Definition plus_one (n : number) : number :=
  match to_int n with Some z => round_double false (z + 1) 1 | None => n end.

(** [/^source:\d+$/] *)
Definition source_identity : regex := RSeq (literal (js "source:")) (RSeq digit (RStar digit)).

Definition source_error (call : jsval) : projected jsval :=
  if negb (says (prop call "status") "error") then Ok (JInt 0)
  else match prop call "error" with
       | JStr text =>
           match strip_prefix (js "source:") text with
           | None => Ok (JInt 0)
           | Some rest => if test source_identity text then Ok (JNum (plus_one (Number_of_digits rest))) else malformed
           end
       | _ => malformed
       end.

Record read_log := { rl_budgets : list jsval; rl_aborted : list jsval; rl_diagnostics : list jsval }.

Definition read_event (p : profile) (log : read_log) (event : jsval) : projected read_log :=
  if says (prop event "event") "readContext" then
    _ ← Effects.assert_equal (prop event "index") (JInt (Z.of_nat (length (rl_budgets log))));
    _ ← Effects.assert_equal (prop event "aborted") (JBool false);
    match prop event "timeoutMs" with
    | JNum n => Ok {| rl_budgets := rl_budgets log ++ [JNum n]; rl_aborted := rl_aborted log; rl_diagnostics := rl_diagnostics log |}
    | _ => malformed
    end
  else if says (prop event "event") "readAbort" then
    match prop event "index" with
    | JNum n => Ok {| rl_budgets := rl_budgets log; rl_aborted := rl_aborted log ++ [JNum n]; rl_diagnostics := rl_diagnostics log |}
    | _ => malformed
    end
  else match pf_diagnosticAge p with
       | Some _ => Ok {| rl_budgets := rl_budgets log; rl_aborted := rl_aborted log; rl_diagnostics := rl_diagnostics log ++ [event] |}
       | None => if is_text (prop event "event") then Err DomainError else malformed
       end.

(** A loop whose body can throw. *)
Fixpoint fold_projected {A B} (f : A -> B -> projected A) (acc : A) (l : list B) : projected A :=
  match l with
  | [] => Ok acc
  | x :: rest => acc' ← f acc x; fold_projected f acc' rest
  end.

(** *** Diagnostics *)

Record diagnostic_log := {
  dl_ages : list jsval;
  dl_futureOffsets : list jsval;
  dl_warnings : Z;
  dl_configErrors : Z;
  dl_coalesced : list jsval;
  dl_fallbackErrors : list jsval;
  dl_inspections : list jsval;
  dl_mismatchWarnings : list jsval;
  dl_loggingOutcomes : list jsval;
}.

Definition no_diagnostics : diagnostic_log :=
  {| dl_ages := []; dl_futureOffsets := []; dl_warnings := 0; dl_configErrors := 0; dl_coalesced := []; dl_fallbackErrors := [];
     dl_inspections := []; dl_mismatchWarnings := []; dl_loggingOutcomes := [] |}.

Definition push_age (l : diagnostic_log) (v : jsval) : diagnostic_log :=
  {| dl_ages := dl_ages l ++ [v]; dl_futureOffsets := dl_futureOffsets l; dl_warnings := dl_warnings l; dl_configErrors := dl_configErrors l;
     dl_coalesced := dl_coalesced l; dl_fallbackErrors := dl_fallbackErrors l; dl_inspections := dl_inspections l;
     dl_mismatchWarnings := dl_mismatchWarnings l; dl_loggingOutcomes := dl_loggingOutcomes l |}.

Definition push_futureOffset (l : diagnostic_log) (v : jsval) : diagnostic_log :=
  {| dl_ages := dl_ages l; dl_futureOffsets := dl_futureOffsets l ++ [v]; dl_warnings := dl_warnings l; dl_configErrors := dl_configErrors l;
     dl_coalesced := dl_coalesced l; dl_fallbackErrors := dl_fallbackErrors l; dl_inspections := dl_inspections l;
     dl_mismatchWarnings := dl_mismatchWarnings l; dl_loggingOutcomes := dl_loggingOutcomes l |}.

Definition count_configError (l : diagnostic_log) : diagnostic_log :=
  {| dl_ages := dl_ages l; dl_futureOffsets := dl_futureOffsets l; dl_warnings := dl_warnings l; dl_configErrors := dl_configErrors l + 1;
     dl_coalesced := dl_coalesced l; dl_fallbackErrors := dl_fallbackErrors l; dl_inspections := dl_inspections l;
     dl_mismatchWarnings := dl_mismatchWarnings l; dl_loggingOutcomes := dl_loggingOutcomes l |}.

Definition push_coalesced (l : diagnostic_log) (v : jsval) : diagnostic_log :=
  {| dl_ages := dl_ages l; dl_futureOffsets := dl_futureOffsets l; dl_warnings := dl_warnings l; dl_configErrors := dl_configErrors l;
     dl_coalesced := dl_coalesced l ++ [v]; dl_fallbackErrors := dl_fallbackErrors l; dl_inspections := dl_inspections l;
     dl_mismatchWarnings := dl_mismatchWarnings l; dl_loggingOutcomes := dl_loggingOutcomes l |}.

Definition push_fallbackError (l : diagnostic_log) (v : jsval) : diagnostic_log :=
  {| dl_ages := dl_ages l; dl_futureOffsets := dl_futureOffsets l; dl_warnings := dl_warnings l; dl_configErrors := dl_configErrors l;
     dl_coalesced := dl_coalesced l; dl_fallbackErrors := dl_fallbackErrors l ++ [v]; dl_inspections := dl_inspections l;
     dl_mismatchWarnings := dl_mismatchWarnings l; dl_loggingOutcomes := dl_loggingOutcomes l |}.

Definition push_inspection (l : diagnostic_log) (v : jsval) : diagnostic_log :=
  {| dl_ages := dl_ages l; dl_futureOffsets := dl_futureOffsets l; dl_warnings := dl_warnings l; dl_configErrors := dl_configErrors l;
     dl_coalesced := dl_coalesced l; dl_fallbackErrors := dl_fallbackErrors l; dl_inspections := dl_inspections l ++ [v];
     dl_mismatchWarnings := dl_mismatchWarnings l; dl_loggingOutcomes := dl_loggingOutcomes l |}.

(** [warnings++], and the content when the profile compares it. *)
Definition push_warning (l : diagnostic_log) (content : list jsval) : diagnostic_log :=
  {| dl_ages := dl_ages l; dl_futureOffsets := dl_futureOffsets l; dl_warnings := dl_warnings l + 1; dl_configErrors := dl_configErrors l;
     dl_coalesced := dl_coalesced l; dl_fallbackErrors := dl_fallbackErrors l; dl_inspections := dl_inspections l;
     dl_mismatchWarnings := dl_mismatchWarnings l ++ content; dl_loggingOutcomes := dl_loggingOutcomes l |}.

Definition push_loggingOutcome (l : diagnostic_log) (v : jsval) : diagnostic_log :=
  {| dl_ages := dl_ages l; dl_futureOffsets := dl_futureOffsets l; dl_warnings := dl_warnings l; dl_configErrors := dl_configErrors l;
     dl_coalesced := dl_coalesced l; dl_fallbackErrors := dl_fallbackErrors l; dl_inspections := dl_inspections l;
     dl_mismatchWarnings := dl_mismatchWarnings l; dl_loggingOutcomes := dl_loggingOutcomes l ++ [v] |}.

(** [seconds * 1000] in double arithmetic. *)
Definition milliseconds (n : number) : number :=
  match n with
  | Fin q => if Qnum q =? 0 then of_Z 0 else round_double (Qnum q <? 0) (Z.abs (Qnum q) * 1000) (Zpos (Qden q))
  | _ => n
  end.

(** [Number.isSafeInteger(v) && v >= 0] *)
Definition is_count (v : jsval) : bool :=
  match v with JNum n => match isSafeInteger n with Some z => 0 <=? z | None => false end | _ => false end.

Definition coalescing_inspection (event : jsval) : projected jsval :=
  let get := prop event in
  let age := get "oldestLeaderAgeMs" in
  match get "instance" with
  | JStr instance =>
      if negb (test (RRange 48 49) instance) || negb (is_count (get "activeLeaders")) || negb (is_count (get "activeFollowers"))
         || negb (is_null age || match age with JNum n => isFinite n && num_leb (of_Z 0) n | _ => false end)
      then malformed
      else Ok (object [("instance", JNum (Number_of_digits instance)); ("activeLeaders", get "activeLeaders");
                       ("activeFollowers", get "activeFollowers"); ("oldestLeaderAgeMs", age)])
  | _ => malformed
  end.

(** The labels every diagnostic event carries. *)
Definition event_labels (p : profile) : list (string * jsval) :=
  [("cacheNamespace", JStr (js "urn")); ("useCase", JStr (js (default "Behavior" (pf_diagnosticUseCase p)))); ("keyType", JStr (js "id"))].

(** The body of the loop over the events, for a profile that compares ages of
    kind [age] with the outcomes [outcomes]. *)
Definition diagnostic_event (p : profile) (age : string) (outcomes : list jsval) (l : diagnostic_log) (event : jsval) : projected diagnostic_log :=
  let get := prop event in
  let kind := get "event" in
  if pf_diagnosticInspections p && says kind "coalescingState" then v ← coalescing_inspection event; Ok (push_inspection l v)
  else if pf_diagnosticConfigErrors p && says kind "error" && says (get "error") "config_resolution" then
    _ ← assertSubset event (event_labels p ++ [("layer", JStr (js "remote")); ("inFallback", JBool false)]);
    Ok (count_configError l)
  else if says kind "error" && negb (says (get "error") "fallback") then Ok l
  else
    _ ← assertSubset event (event_labels p);
    if says kind "coalesced" then if is_text (get "scope") then Ok (push_coalesced l (get "scope")) else malformed
    else if says kind "error" then
      if says (get "error") "fallback" then
        _ ← Effects.assert_equal (get "inFallback") (JBool true);
        if is_text (get "layer") then Ok (push_fallbackError l (get "layer")) else malformed
      else Ok l
    else if says kind "futureOffset" && pf_diagnosticFutureOffsets p then
      match get "layer", get "seconds" with
      | JStr layer, JNum seconds =>
          _ ← Effects.assert_equal (object [("layer", JStr layer)]) (object [("layer", JStr (js "remote_shadow"))]);
          _ ← assertObservedDomain (match isSafeInteger (milliseconds seconds) with Some _ => true | None => false end && num_ltb (of_Z 0) seconds);
          Ok (push_futureOffset l (object [("layer", JStr layer); ("offsetMs", JNum (milliseconds seconds))]))
      | _, _ => malformed
      end
    else if says kind "mismatchWarning" then
      _ ← Effects.assert_equal (get "outcome") (JStr (js "mismatch"));
      if pf_diagnosticWarnings p then w ← projectWarning event; Ok (push_warning l [w]) else Ok (push_warning l [])
    else if says kind "shadowMismatchLogging" && pf_diagnosticWarnings p then
      if is_text (get "outcome") then Ok (push_loggingOutcome l (get "outcome")) else malformed
    else
      _ ← Effects.assert_equal kind (JStr (js age));
      _ ← Effects.assert_equal (get "outcome") (default JUndefined (outcomes !! length (dl_ages l)));
      match get "seconds" with JNum s => Ok (push_age l (JNum s)) | _ => malformed end.

Definition diagnostic_record (p : profile) (l : diagnostic_log) : jsval :=
  object ([("warnings", JInt (dl_warnings l)); ("ages", JArr (dl_ages l)); ("coalesced", JArr (dl_coalesced l)); ("fallbackErrors", JArr (dl_fallbackErrors l))]
    ++ when (pf_diagnosticInspections p) [("inspections", JArr (dl_inspections l))]
    ++ when (pf_diagnosticFutureOffsets p) [("futureOffsets", JArr (dl_futureOffsets l))]
    ++ when (pf_diagnosticConfigErrors p) [("configErrors", JInt (dl_configErrors l))]
    ++ when (pf_diagnosticWarnings p) [("mismatchWarnings", JArr (dl_mismatchWarnings l)); ("loggingOutcomes", JArr (dl_loggingOutcomes l))]).

Definition outcomes_of (age : string) (observed : list (jsstr * jsval)) : list jsval :=
  if String.eqb age "shadowAge" then List.filter (fun x => says x "match" || says x "mismatch") (items_of (member observed "shadow"))
  else List.filter (fun x => says x "served") (items_of (member observed "recovery")).

(** The second half of [projectBaseObservation]. *)
Definition project_diagnostics (p : profile) (observed : list (jsstr * jsval)) : projected (list (string * jsval)) :=
  match pf_diagnosticAge p with
  | None => o ← feature_project observed; Ok [("o", o)]
  | Some age =>
      match assoc (js "events") observed with
      | None => malformed
      | Some events =>
          l ← fold_projected (diagnostic_event p age (outcomes_of age observed)) no_diagnostics (items_of events);
          o ← feature_project (without_member observed (js "events"));
          Ok [("o", o); ("d", diagnostic_record p l)]
      end
  end.

Definition projectBaseObservation (p : profile) (observed : list (jsstr * jsval)) : projected (list (string * jsval)) :=
  if pf_readIO p then
    match assoc (js "events") observed with
    | None => malformed
    | Some events =>
        let base := without_member observed (js "events") in
        sourceErrors ← Effects.map_projected source_error (items_of (member observed "calls"));
        log ← fold_projected (read_event p) {| rl_budgets := []; rl_aborted := []; rl_diagnostics := [] |} (items_of events);
        more ← match pf_diagnosticAge p with
               | None => o ← feature_project base; Ok [("o", o)]
               | Some _ => project_diagnostics p (with_member base (js "events") (JArr (rl_diagnostics log)))
               end;
        Ok (more ++ [("io", object [("budgets", JArr (rl_budgets log)); ("aborted", JArr (rl_aborted log)); ("sourceErrors", JArr sourceErrors)])])
    end
  else project_diagnostics p observed.

(** *** Policy errors, markers and compression *)

Definition is_policy_error (event : jsval) : bool :=
  says (prop event "event") "error" && says (prop event "layer") "noop" && says (prop event "error") "config_resolution".

Definition policy_error_labels : list (string * jsval) :=
  [("cacheNamespace", JStr (js "urn")); ("useCase", JStr (js "Behavior")); ("keyType", JStr (js "id")); ("inFallback", JBool false)].

Record marker_log := { ml_markers : list jsval; ml_compression : list jsval; ml_events : list jsval }.

Definition marker_event (p : profile) (l : marker_log) (event : jsval) : projected marker_log :=
  let get := prop event in
  if pf_compressionIO p && says (get "event") "compression" then
    _ ← assertSubset event [("cacheNamespace", JStr (js "urn")); ("useCase", JStr (js "Behavior")); ("keyType", JStr (js "id")); ("layer", JStr (js "remote"))];
    if negb (is_text (get "outcome")) then malformed
    else _ ← assertObservedDomain (text_in compression_outcomes (get "outcome"));
         Ok {| ml_markers := ml_markers l; ml_compression := ml_compression l ++ [get "outcome"]; ml_events := ml_events l |}
  else if negb (pf_markerIO p) || negb (says (get "event") "marker") then
    Ok {| ml_markers := ml_markers l; ml_compression := ml_compression l; ml_events := ml_events l ++ [event] |}
  else match get "cutoffMs", get "ttlMs" with
       | JNum cutoffMs, JNum ttlMs =>
           Ok {| ml_markers := ml_markers l ++ [object [("cutoffMs", JNum cutoffMs); ("ttlMs", JNum ttlMs)]];
                 ml_compression := ml_compression l; ml_events := ml_events l |}
       | _, _ => malformed
       end.

Definition projectObservation (p : profile) (observed : list (jsstr * jsval)) : projected (list (string * jsval)) :=
  let base := without_member observed (js "events") in
  if pf_policyErrorIO p then
    match assoc (js "events") observed with
    | None => malformed
    | Some events =>
        let selected := List.filter is_policy_error (items_of events) in
        _ ← Effects.map_projected (fun event => assertSubset event policy_error_labels) selected;
        more ← projectBaseObservation p base;
        Ok (more ++ [("policyErrors", JArr (List.map (fun _ => policy_error_record) selected))])
    end
  else if negb (pf_markerIO p) && negb (pf_compressionIO p) then projectBaseObservation p observed
  else
    match assoc (js "events") observed with
    | None => malformed
    | Some events =>
        l ← fold_projected (marker_event p) {| ml_markers := []; ml_compression := []; ml_events := [] |} (items_of events);
        more ← projectBaseObservation p (if pf_readIO p || match pf_diagnosticAge p with Some _ => true | None => false end
                                         then with_member base (js "events") (JArr (ml_events l)) else base);
        Ok (more ++ when (pf_markerIO p) [("markers", JArr (ml_markers l))] ++ when (pf_compressionIO p) [("compression", JArr (ml_compression l))])
    end.

Definition expectedObservation (s : feature_step) : jsval :=
  object ([("o", JObj (fs_expected s))] ++ List.map (pair "policyErrors") (fs_policyErrors s) ++ List.map (pair "d") (fs_diagnostics s)
    ++ List.map (pair "io") (fs_io s) ++ List.map (pair "markers") (fs_markers s) ++ List.map (pair "compression") (fs_compression s)).

Definition assertFeatureObservation (p : profile) (s : feature_step) (observed : jsval) : assertion :=
  match observed with
  | JObj members =>
      match projectObservation p members with
      | Ok actual => compared_records (assertObservation (object actual) (expectedObservation s))
      | Err e => assertion_of e
      end
  | _ => AssertFailed
  end.

End Features.
