(* ===== verification/ReplayCatalog.v ===== *)
(** * The feature profiles of the conformance replay: the catalog

    The table [profiles] of [formal/replay/features.mjs] with the profiles of
    [formal/replay/profiles/]: their fixtures, setup commands and actions.  An
    action's [input] takes the choice, the observation so far and the wall
    clock. *)

From S2P Require Import Prelude JsValue Duration Utf8 Config Key Metrics Frame Ramp Json JsonText LogText JsonDiff ReplaySchema ProtocolSchema Settlement Coordinator Itf Divergence ReplayProfiles ReplayEffects ReplayFeatures.

#[local] Open Scope string_scope.
#[local] Open Scope Z_scope.
#[local] Open Scope list_scope.

Module Catalog.
Import Features.

(** ** Writing commands *)

Definition str (s : string) : jsval := JStr (js s).
Definition flag (name : string) (b : bool) : string * jsval := (name, JBool b).
Definition int (name : string) (n : Z) : string * jsval := (name, JInt n).
Definition text (name value : string) : string * jsval := (name, str value).
Definition obj (name : string) (members : list (string * jsval)) : string * jsval := (name, object members).

(** [{ op: name, ... }] and [String(n)] *)
Definition op (name : string) (members : list (string * jsval)) : jsval := object (text "op" name :: members).
Definition number_text (name : string) (n : Z) : string * jsval := (name, JStr (String_of_Z n)).

(** [Array.from({ length }, (_, i) => i + start)] *)
Definition range_from (start : Z) (length : nat) : list Z := List.map (fun i => start + Z.of_nat i) (seq 0 length).
Definition range (length : nat) : list Z := range_from 0 length.

(** [[...].includes(choice)] and [table[choice]] *)
Definition one_of (choice : Z) (l : list Z) : bool := existsb (Z.eqb choice) l.
Definition entry {A} (table : list A) (choice : Z) (none : A) : A := default none (table !! Z.to_nat choice).

(** Actions by what their command depends on. *)
Definition fixed (command : jsval) : feature_action := {| fa_choices := None; fa_input _ _ _ := Ok command |}.
Definition chosen (choices : list Z) (input : Z -> jsval) : feature_action := {| fa_choices := Some choices; fa_input choice _ _ := Ok (input choice) |}.
Definition observing (input : jsval -> jsval) : feature_action := {| fa_choices := None; fa_input _ observed _ := Ok (input observed) |}.

(** [observed.field - 1] *)
Definition last (name : string) (field : string) (observed : jsval) : string * jsval := (name, Effects.latest observed field).

Definition rejectLatest : feature_action := observing (fun o => op "reject" [last "loader" "loaders" o]).

Definition successValues : list jsval := [JInt 1; JInt 2; JUndefined; JNull; JBool false; JInt 0; str ""].

(** [...(value === undefined ? {} : { value })] *)
Definition value_member (value : jsval) : list (string * jsval) := if is_undefined value then [] else [("value", value)].

Definition resolveValue (maxSources : nat) : feature_action :=
  chosen (range_from 1 (maxSources * length successValues)) (fun choice =>
    op "resolve" (int "loader" ((choice - 1) / Z.of_nat (length successValues)) ::
                  value_member (entry successValues (Z.rem (choice - 1) (Z.of_nat (length successValues))) JUndefined))).

Definition effectCounts (effect : string) : string :=
  if String.eqb effect "read" then "reads" else if String.eqb effect "load" then "loads" else if String.eqb effect "dump" then "dumps"
  else if String.eqb effect "write" then "writes" else "policyCalls".

Definition release (effect : string) : feature_action :=
  observing (fun o => op "release" [text "effect" effect; last "index" (effectCounts effect) o]).

Definition fault (field : string) : feature_action := chosen [0; 1] (fun choice => op "faults" [obj "value" [flag field (choice =? 1)]]).

Definition advance (choices : list Z) : feature_action := chosen choices (fun choice => op "advance" [int "ms" choice]).

Definition overlays : list (list (string * jsval)) :=
  [[]; [obj "ttlSec" [int "local" 2]]; [obj "ttlSec" [int "remote" 2]]; [obj "ramp" [int "local" 0]];
   [obj "ramp" [int "remote" 0]]; [obj "ttlSec" [int "local" (-1)]]; [obj "ttlSec" [int "remote" (-1)]];
   [int "staleOnErrorMaxAgeSec" 2]; [obj "ramp" [int "local" 0; int "remote" 0]];
   [obj "ttlSec" [int "remote" 4]; int "staleOnErrorMaxAgeSec" 0]].

Definition policyOverlays : list (list (string * jsval)) :=
  overlays ++ List.map (fun overlay => overlay ++ [flag "coalesce" false]) overlays ++
  [[int "remoteReadTimeoutMs" 0]; [obj "ramp" [int "local" 101]]; [obj "ramp" [int "remote" 101]];
   [int "staleOnErrorMaxAgeSec" 1]; [int "staleOnErrorMaxAgeSec" (-1)]; [obj "shadow" [int "ramp" 101]]].

Definition layerPolicies : list (list (string * jsval)) :=
  [[]; [flag "requestLocal" false]; [obj "ramp" [int "local" 0]];
   [obj "ramp" [int "remote" 0]]; [obj "ramp" [int "local" 0; int "remote" 0]];
   [flag "requestLocal" false; obj "ramp" [int "local" 0; int "remote" 0]]].

Definition shadowDefaultLogging (choice : Z) : list (string * jsval) :=
  if (4 <=? choice) && (choice <? 8) || (choice =? 13) then [flag "logMismatches" true]
  else if choice =? 14 then [obj "mismatchLogging" [text "diff" "paths"]]
  else if choice =? 15 then [obj "mismatchLogging" [flag "value" false]] else [].

Definition shadowLogOverlays : list (list (string * jsval)) :=
  [[flag "logMismatches" false]; [flag "logMismatches" true]; [text "logMismatches" "invalid"];
   [obj "mismatchLogging" [text "diff" "paths"]]; [obj "mismatchLogging" [text "diff" "values"]];
   [flag "logMismatches" false; obj "mismatchLogging" [flag "value" true]]; [flag "logMismatches" true; obj "mismatchLogging" [flag "value" false]];
   [flag "logMismatches" false; obj "mismatchLogging" [text "diff" "paths"]]; [obj "mismatchLogging" [flag "value" true; text "diff" "invalid"]];
   [obj "mismatchLogging" [text "value" "invalid"; text "diff" "paths"]]; [text "logMismatches" "invalid"; obj "mismatchLogging" [text "diff" "values"]];
   [obj "mismatchLogging" [text "diff" "off"]]; [obj "mismatchLogging" [flag "value" false]]].

Definition shadowResolve : feature_action :=
  {| fa_choices := Some [1; 2; UNRENDERABLE];
     fa_input choice o _ := Ok (if choice =? UNRENDERABLE then op "resolve" [last "loader" "loaders" o; flag "unrenderable" true]
                                else op "resolve" [last "loader" "loaders" o; int "value" choice]) |}.

Definition shadow_seed (choice : Z) : jsval :=
  if choice <=? 2 then op "seed" [int "value" choice]
  else if choice =? 7 then op "seed" [("payloadText", JStr (34 :: cafe ++ [34]))]
  else if choice =? 8 then op "seed" [text "payloadHex" "22636166c3a922"]
  else if choice =? 6 then op "seed" [text "payloadText" " 1"]
  else op "seed" [text "payloadHex" (if choice =? 3 then "31" else if choice =? 4 then "32" else "2031")].

Definition shadowSeed : feature_action := chosen [1; 2; 3; 4; 5; 6; 7; 8] shadow_seed.

(** ** The profiles of [features.mjs] *)

(** A profile with none of the optional parts. *)
Definition plain_profile (fixture : Z -> jsval) (setup : list jsval) (actions : list (string * feature_action)) : profile :=
  {| pf_readIO := false; pf_markerIO := false; pf_compressionIO := false; pf_policyErrorIO := false; pf_diagnosticAge := None;
     pf_diagnosticUseCase := None; pf_diagnosticConfigErrors := false; pf_diagnosticFutureOffsets := false; pf_diagnosticInspections := false;
     pf_diagnosticWarnings := false; pf_initChoices := None; pf_fixture := fixture; pf_setup := setup; pf_actions := actions |}.

Definition strings (l : list string) : jsval := JArr (List.map str l).
Definition holds (names : list string) : jsval := op "faults" [obj "value" (List.map (fun name => flag name true) names)].

(** [resolveLoader] with a loader and one of two values per choice. *)
Definition resolve_pair (choices : nat) : feature_action :=
  chosen (range_from 1 choices) (fun choice => op "resolve" [int "loader" ((choice - 1) / 2); int "value" (Z.rem (choice - 1) 2 + 1)]).
Definition reject_loader (choices : nat) : feature_action := chosen (range choices) (fun choice => op "reject" [int "loader" choice]).
Definition release_index (effect : string) (choices : nat) : feature_action :=
  chosen (range choices) (fun choice => op "release" [text "effect" effect; int "index" choice]).
Definition close_scope (choices : nat) : feature_action := chosen (range choices) (fun choice => op "closeScope" [number_text "id" choice]).
Definition rollbackWall : feature_action := fixed (op "shiftWall" [int "ms" (-1000)]).
Definition policy_action (choices : list Z) (value : Z -> list (string * jsval)) : feature_action :=
  chosen choices (fun choice => op "policy" [obj "value" (value choice)]).

(** The three scopes, the third on another instance. *)
Definition three_scopes : list jsval :=
  List.map (fun scope => op "openScope" [number_text "id" scope; text "instance" (if scope =? 2 then "1" else "0")]) [0; 1; 2].

(** [context < 3 ? { scope } : { instance }] *)
Definition in_context (context : Z) : list (string * jsval) :=
  if context <? 3 then [number_text "scope" context] else [text "instance" (if context =? 4 then "1" else "0")].

Definition release_fail (effect : string) (fail : bool) : feature_action :=
  chosen (range 6) (fun choice => op "release" [text "effect" effect; int "index" choice; flag "fail" fail]).

Definition independent : profile :=
  {| pf_readIO := true; pf_markerIO := false; pf_compressionIO := false; pf_policyErrorIO := false; pf_diagnosticAge := None;
     pf_diagnosticUseCase := None; pf_diagnosticConfigErrors := false; pf_diagnosticFutureOffsets := false; pf_diagnosticInspections := false;
     pf_diagnosticWarnings := false; pf_initChoices := None;
     pf_fixture _ := object [obj "policy" [obj "ttlSec" [int "remote" 1]; int "staleOnErrorMaxAgeSec" 5; flag "coalesce" false];
       flag "tracked" true; int "readTimeoutMs" 5; int "fallbackTimeoutMs" 10; text "recovery" "allow"; ("observe", strings ["readContext"; "readAbort"])];
     pf_setup := [op "seed" [int "value" 1; int "ageMs" 1000]; holds ["holdReads"; "holdLoads"]];
     pf_actions :=
       [("beginCall", fixed (op "begin" []));
        ("releaseRead", release_fail "read" false); ("failRead", release_fail "read" true);
        ("releaseLoad", release_fail "load" false); ("failLoad", release_fail "load" true);
        ("resolveLoader", resolve_pair 12);
        ("rejectLoader", reject_loader 6);
        ("advance", advance [1; 5; 10; 1000]);
        ("seed", chosen (range 6) (fun choice => op "seed" [int "value" (if (choice =? 2) || (choice =? 4) then 2 else 1);
           int "ageMs" (if (choice =? 0) || (choice =? 4) then 0 else if choice =? 3 then 4999 else if choice =? 5 then 1999 else 1000)]));
        ("invalidate", fixed (op "invalidate" []));
        ("policy", policy_action (range 4) (fun choice =>
           [int "remoteReadTimeoutMs" (if Z.rem choice 2 =? 0 then 5 else 10); int "staleOnErrorMaxAgeSec" (if choice <? 2 then 5 else 2)]))] |}.

(** [`Layers${n}`] *)
Definition layers_use_case (n : Z) : string * jsval := ("useCase", JStr (js "Layers" ++ String_of_Z n)).

Definition layers : profile :=
  {| pf_readIO := false; pf_markerIO := false; pf_compressionIO := false; pf_policyErrorIO := false; pf_diagnosticAge := None;
     pf_diagnosticUseCase := None; pf_diagnosticConfigErrors := false; pf_diagnosticFutureOffsets := false; pf_diagnosticInspections := false;
     pf_diagnosticWarnings := false; pf_initChoices := Some [0; 1; 2; 3; 4; 5];
     pf_fixture choice := object [obj "policy" [flag "requestLocal" true; obj "ttlSec" [int "local" 60; int "remote" 60]];
       flag "tracked" (Z.rem choice 2 =? 1); flag "remote" (choice <? 4); int "localMaxSize" (if (choice =? 2) || (choice =? 3) then 0 else 2);
       ("fallbackTimeoutMs", JNull)];
     pf_setup := three_scopes;
     pf_actions :=
       [("beginCall", chosen (range 20) (fun choice =>
           let context := choice / 4 in
           let identity := Z.rem choice 4 in
           op "begin" ([number_text "key" (identity / 2); layers_use_case (Z.rem identity 2)] ++ in_context context)));
        ("resolveLoader", resolve_pair 40);
        ("rejectLoader", reject_loader 20);
        ("closeScope", close_scope 3);
        ("policy", policy_action (range 6) (fun choice => entry layerPolicies choice []));
        ("seed", chosen (range 8) (fun choice => op "seed"
           [number_text "key" (choice / 4); layers_use_case (Z.rem (choice / 2) 2); int "value" (Z.rem choice 2 + 1)]));
        ("invalidate", chosen [0; 1] (fun choice => op "invalidate" [number_text "key" choice]));
        ("tick", fixed (op "advance" [int "ms" 1]))] |}.

Definition admission : profile :=
  plain_profile
    (fun _ => object [obj "policy" [obj "ttlSec" [int "remote" 60]; obj "shadow" [int "ramp" 100]]; flag "tracked" true;
       int "shadowMaxInFlight" 2; int "readTimeoutMs" 1000; flag "probeSourceScope" true])
    (List.map (fun key => op "seed" [number_text "key" key; int "value" 1]) [0; 1; 2] ++ [holds ["holdReads"; "holdLoads"]])
    [("beginCall", chosen (range 6) (fun choice => op "begin" [number_text "key" (Z.rem choice 3); number_text "instance" (choice / 3)]));
     ("releaseRead", release_index "read" 32);
     ("releaseLoad", release_index "load" 32);
     ("resolveLoader", resolve_pair 32);
     ("rejectLoader", reject_loader 16);
     ("seed", chosen (range 6) (fun choice => op "seed" [number_text "key" (choice / 2); int "value" (Z.rem choice 2 + 1)]));
     ("advance", advance [1; 10]);
     ("policy", policy_action (range 4) (fun choice =>
        [obj "shadow" [int "ramp" (if Z.rem choice 2 =? 0 then 100 else 0)]; flag "coalesce" (choice <? 2)]))].

Definition scope : profile :=
  {| pf_readIO := false; pf_markerIO := false; pf_compressionIO := false; pf_policyErrorIO := false; pf_diagnosticAge := Some "none";
     pf_diagnosticUseCase := None; pf_diagnosticConfigErrors := false; pf_diagnosticFutureOffsets := false; pf_diagnosticInspections := false;
     pf_diagnosticWarnings := false; pf_initChoices := None;
     pf_fixture _ := object [obj "policy" [flag "requestLocal" true]; flag "remote" false; ("fallbackTimeoutMs", JNull); flag "probeSourceScope" true;
       ("observe", strings ["coalesced"; "error"])];
     pf_setup := [op "openScope" [text "id" "0"]; holds ["holdPolicies"]];
     pf_actions :=
       [("openScope", chosen [1; 2; 3; 4] (fun choice => op "openScope" (number_text "id" choice ::
           (if choice =? 1 then [] else [text "parent" (if choice =? 4 then "3" else "0")]) ++ when (choice =? 3) [flag "disabled" true])));
        ("closeScope", close_scope 5);
        ("beginCall", chosen (range 6) (fun choice => op "begin" [if choice =? 5 then flag "outside" true else number_text "scope" choice]));
        ("releasePolicy", release "policy");
        ("resolveLoader", resolveValue 16);
        ("rejectLoader", reject_loader 16);
        ("policy", policy_action (range 3) (fun choice =>
           if choice =? 0 then [] else if choice =? 1 then [flag "requestLocal" false] else [flag "coalesce" false]))] |}.

Definition recovery : profile :=
  {| pf_readIO := false; pf_markerIO := false; pf_compressionIO := false; pf_policyErrorIO := false; pf_diagnosticAge := Some "recoveryAge";
     pf_diagnosticUseCase := None; pf_diagnosticConfigErrors := false; pf_diagnosticFutureOffsets := false; pf_diagnosticInspections := false;
     pf_diagnosticWarnings := false; pf_initChoices := Some (range 8);
     pf_fixture choice := object [obj "policy" [obj "ttlSec" [int "remote" 1]; int "staleOnErrorMaxAgeSec" 5; flag "requestLocal" (4 <=? choice)];
       flag "tracked" true; int "fallbackTimeoutMs" 10; ("recovery", entry [str "default"; str "allow"; str "deny"; str "error"] (Z.rem choice 4) JUndefined);
       ("observe", strings ["recoveryAge"; "coalesced"; "error"])];
     pf_setup := [op "openScope" [text "id" "0"]; op "openScope" [text "id" "1"]; op "seed" [int "value" 1; int "ageMs" 1000]; holds ["holdLoads"]];
     pf_actions :=
       [("beginCall", chosen (range 8) (fun choice => op "begin" (number_text "scope" (choice / 4) ::
           if Z.rem choice 4 =? 3 then [] else [("recovery", entry [str "allow"; str "deny"; str "error"] (Z.rem choice 4) JUndefined)])));
        ("joinCall", chosen [0; 1] (fun choice => op "begin" [number_text "scope" choice]));
        ("closeScope", close_scope 2);
        ("resolveLoader", chosen (range 8) (fun choice => op "resolve" [int "loader" choice; int "value" 2]));
        ("rejectLoader", reject_loader 8);
        ("rejectTimeout", chosen (range 8) (fun choice => op "reject" [int "loader" choice; text "error" "timeout"]));
        ("releaseLoad", release "load");
        ("seed", chosen (range 7) (fun choice => op "seed" [int "value" (if choice =? 6 then 2 else 1);
           ("ageMs", entry (List.map JInt [0; 999; 1000; 4999; 5000; -1; 1000]) choice JUndefined)]));
        ("advance", advance [1; 10; 1000; 4000]); ("rollbackWall", rollbackWall); ("invalidate", fixed (op "invalidate" []));
        ("policy", policy_action [2000; 5000] (fun choice => [int "staleOnErrorMaxAgeSec" (choice / 1000)]));
        ("readFault", fault "read"); ("loadFault", fault "load")] |}.

Definition policy : profile :=
  {| pf_readIO := false; pf_markerIO := false; pf_compressionIO := false; pf_policyErrorIO := true; pf_diagnosticAge := None;
     pf_diagnosticUseCase := None; pf_diagnosticConfigErrors := false; pf_diagnosticFutureOffsets := false; pf_diagnosticInspections := false;
     pf_diagnosticWarnings := false; pf_initChoices := None;
     pf_fixture _ := object [obj "policy" [obj "ttlSec" [int "local" 1; int "remote" 1]; int "staleOnErrorMaxAgeSec" 5]; int "localMaxSize" 1;
       ("fallbackTimeoutMs", JNull); ("observe", strings ["error"])];
     pf_setup := [holds ["holdPolicies"]];
     pf_actions :=
       [("beginCall", chosen [0; 1] (fun choice => op "begin" [number_text "key" choice]));
        ("releasePolicy", release "policy");
        ("resolveLoader", resolveValue 12);
        ("rejectLoader", reject_loader 12);
        ("seed", chosen (range 4) (fun choice => op "seed" [number_text "key" (choice / 2); int "value" (Z.rem choice 2 + 1); int "ttlMs" 5000]));
        ("policy", policy_action (range (length policyOverlays)) (fun choice => entry policyOverlays choice []));
        ("advance", advance [1; 500; 1000; 2000; 5000]); ("rollbackWall", rollbackWall); ("providerFault", fault "policy");
        ("readFault", fault "read"); ("dumpFault", fault "dump"); ("writeFault", fault "write")] |}.

Definition shadow : profile :=
  {| pf_readIO := false; pf_markerIO := false; pf_compressionIO := false; pf_policyErrorIO := false; pf_diagnosticAge := Some "shadowAge";
     pf_diagnosticUseCase := None; pf_diagnosticConfigErrors := true; pf_diagnosticFutureOffsets := true; pf_diagnosticInspections := false;
     pf_diagnosticWarnings := true; pf_initChoices := Some (range 16);
     pf_fixture choice := object ([obj "policy" [obj "ttlSec" [int "remote" 60]; obj "ramp" [int "remote" 0];
           obj "shadow" (int "ramp" 100 :: shadowDefaultLogging choice)]; flag "tracked" true; flag "shadowHook" (negb (choice =? 8))]
       ++ (if (Z.rem choice 4 =? 0) || (11 <=? choice) then []
           else [("comparator", entry [str "equal"; str "unequal"; str "error"] (if choice =? 10 then 2 else Z.rem choice 4 - 1) JUndefined)])
       ++ when ((choice =? 9) || (choice =? 10)) [int "comparisonMs" 10]
       ++ when ((choice =? 11) || (choice =? 12)) [int "sourceWorkMs" (if choice =? 11 then 9 else 10)]
       ++ when (choice =? 13) [text "mismatchDiff" "error"]
       ++ [("observe", strings ["shadowAge"; "mismatchWarning"; "shadowMismatchLogging"; "coalesced"; "error"; "futureOffset"])]);
     pf_setup := [holds ["holdReads"; "holdLoads"; "holdDumps"; "holdWrites"]];
     pf_actions :=
       [("beginCall", fixed (op "begin" [])); ("resolveLoader", shadowResolve); ("rejectLoader", rejectLatest);
        ("releaseRead", release "read"); ("releaseLoad", release "load"); ("releaseDump", release "dump"); ("releaseWrite", release "write");
        ("advance", advance [1; 10]); ("seed", shadowSeed); ("reencode", shadowSeed);
        ("seedUnicode", chosen [7; 8] shadow_seed);
        ("invalidate", chosen [0; 20] (fun choice => op "invalidate" [int "futureBufferMs" choice]));
        ("readFault", fault "read"); ("loadFault", fault "load"); ("dumpFault", fault "dump"); ("writeFault", fault "write"); ("loggerFault", fault "logger");
        ("rollbackWall", rollbackWall);
        ("advanceWall", chosen [1; 60000] (fun choice => op "shiftWall" [int "ms" choice]));
        ("shadowPolicy", policy_action (range 3) (fun choice => [obj "shadow" [("ramp", entry (List.map JInt [100; 0; 101]) choice JUndefined)]]));
        ("logPolicy", policy_action (range (length shadowLogOverlays)) (fun choice => [obj "shadow" (entry shadowLogOverlays choice [])]))] |}.

(** ** [profiles/dark-layers.mjs] *)

Definition dark_use_case : string * jsval := text "useCase" "DarkLayers".

Definition dark_policy (choice : Z) : list (string * jsval) :=
  let changed := (choice =? 7) || (choice =? 8) in
  [flag "requestLocal" (one_of choice [0; 1; 4; 6; 7]); flag "coalesce" (negb (one_of choice [4; 5]));
   obj "ttlSec" [int "local" 60; int "remote" (if changed then 120 else 60)];
   int "staleOnErrorMaxAgeSec" (if changed then 180 else 120);
   obj "ramp" [int "local" (if one_of choice [0; 2; 4; 5; 6; 7] then 100 else 0); int "remote" 0];
   obj "shadow" [int "ramp" (if choice =? 6 then 0 else 100)]].

(** [Buffer.toString("hex")] *)
Definition to_hex (b : bytes) : jsstr := b ≫= (fun c => [hex_lower (c / 16); hex_lower (c mod 16)]).

(** [writeBigUInt64BE(BigInt(stamp), _)] *)
Definition stamp_bytes (stamp : Z) : res bytes :=
  if (0 <=? stamp) && (stamp <? 2 ^ 64) then Ok (be_bytes 8 stamp) else Err (RangeError "ERR_OUT_OF_RANGE").

Definition dark_seed (choice : Z) (wallMs : Z) : res jsval :=
  let kind := Z.rem choice 6 in
  let base := [number_text "key" (choice / 6); dark_use_case;
               int "ageMs" (if kind =? 2 then 59999 else if kind =? 3 then 60000 else 0); int "ttlMs" 180000] in
  if kind =? 4 then Ok (op "seed" (base ++ [text "payloadHex" "016e6f742061207a737464206672616d65"]))
  else if kind =? 5 then
    stamp ← stamp_bytes wallMs;
    Ok (op "seed" (base ++ [("frameHex", JStr (to_hex ([1] ++ stamp ++ [255; 49])))]))
  else Ok (op "seed" (base ++ [int "value" (if kind =? 1 then 2 else 1)])).

Definition darkLayersProfile : profile :=
  {| pf_readIO := false; pf_markerIO := false; pf_compressionIO := false; pf_policyErrorIO := false; pf_diagnosticAge := Some "shadowAge";
     pf_diagnosticUseCase := Some "DarkLayers"; pf_diagnosticConfigErrors := true; pf_diagnosticFutureOffsets := true; pf_diagnosticInspections := true;
     pf_diagnosticWarnings := false; pf_initChoices := None;
     pf_fixture _ := object [obj "policy" (dark_policy 0); flag "tracked" true; int "fallbackTimeoutMs" 10; int "readTimeoutMs" 30000000;
       int "shadowMaxInFlight" 1; text "recovery" "allow"; flag "probeSourceScope" true;
       ("observe", strings ["shadowAge"; "futureOffset"; "coalesced"; "error"; "coalescingState"])];
     pf_setup := three_scopes ++ [holds ["holdReads"; "holdLoads"; "holdDumps"; "holdWrites"]];
     pf_actions :=
       [("beginCall", chosen (range 10) (fun choice =>
           let context := choice / 2 in op "begin" ([number_text "key" (Z.rem choice 2); dark_use_case] ++ in_context context)));
        ("resolveLoader", resolve_pair 24);
        ("rejectLoader", reject_loader 12);
        ("releaseRead", release_index "read" 24); ("releaseLoad", release_index "load" 24);
        ("releaseDump", release_index "dump" 24); ("releaseWrite", release_index "write" 24);
        ("advance", advance [1; 10; 60000]);
        ("policy", policy_action (range 9) dark_policy);
        ("seed", {| fa_choices := Some (range 12); fa_input choice _ wallMs := dark_seed choice wallMs |});
        ("invalidate", chosen (range 4) (fun choice => op "invalidate" [number_text "key" (choice / 2); int "futureBufferMs" (Z.rem choice 2 * 20)]));
        ("closeScope", close_scope 3);
        ("inspect", chosen [0; 1] (fun instance => op "inspectCoalescing" [number_text "instance" instance]));
        ("rollbackWall", rollbackWall);
        ("readFault", fault "read"); ("loadFault", fault "load"); ("dumpFault", fault "dump"); ("writeFault", fault "write")] |}.

(** ** [profiles/local-failure.mjs] *)

Definition localFailureProfile : profile :=
  plain_profile
    (fun _ => object [obj "policy" [flag "requestLocal" true; obj "ttlSec" [int "local" 60; int "remote" 60]]; ("fallbackTimeoutMs", JNull);
       flag "localFaultInjection" true])
    [op "openScope" [text "id" "0"]; op "openScope" [text "id" "1"]]
    [("beginCall", chosen [0; 1; 2] (fun choice => op "begin" (when (choice <? 2) [number_text "scope" choice])));
     ("resolveLoader", {| fa_choices := Some [1; 2]; fa_input value o _ := Ok (op "resolve" [last "loader" "loaders" o; int "value" value]) |});
     ("rejectLoader", rejectLatest);
     ("localFault", fault "localStorage");
     ("policy", policy_action [0; 1] (fun choice => [obj "ramp" [int "remote" (choice * 100)]]));
     ("seed", chosen [1; 2] (fun value => op "seed" [int "value" value]))].

(** ** [profiles/recovery-read.mjs] *)

Definition encodeFrame (payload : string) (stamp encoding : Z) : res bytes :=
  s ← stamp_bytes stamp; Ok ([1] ++ s ++ [encoding] ++ utf8_encode (js payload)).

Definition seedAges : list Z := [0; 999; 1000; 4999; 5000; 3600001; 7200000; 0; 1000; 1000; 0; 0; 4999; 0; 0; 1000; 0; 0; 1000].
Definition compressedOne : string := "0128b52ffd200109000031".
Definition corruptCompressed : string := "016e6f742061207a737464206672616d65".

Definition seedInput (choice : Z) (wallMs : Z) : res jsval :=
  let base := [("ageMs", entry (List.map JInt seedAges) choice JUndefined); int "ttlMs" (if (choice =? 11) || (choice =? 15) then 1000 else 60000)] in
  if choice =? 18 then Ok (op "seed" base)
  else if one_of choice [8; 12; 13] then Ok (op "seed" (base ++ [text "payloadHex" compressedOne]))
  else if one_of choice [9; 14] then Ok (op "seed" (base ++ [text "payloadHex" corruptCompressed]))
  else if choice =? 16 then Ok (op "seed" (base ++ [text "frameHex" "0100200000000000010031"]))
  else if choice =? 17 then
    frame ← encodeFrame "1" wallMs 0;
    Ok (op "seed" (base ++ [("frameHex", JStr (to_hex (2 :: tail frame)))]))
  else if choice =? 10 then
    frame ← encodeFrame "1" wallMs 255;
    Ok (op "seed" (base ++ [("frameHex", JStr (to_hex frame))]))
  else Ok (op "seed" (base ++ [int "value" (if choice =? 7 then 2 else 1)])).

Definition recoveryReadProfile : profile :=
  {| pf_readIO := true; pf_markerIO := true; pf_compressionIO := true; pf_policyErrorIO := false; pf_diagnosticAge := None;
     pf_diagnosticUseCase := None; pf_diagnosticConfigErrors := false; pf_diagnosticFutureOffsets := false; pf_diagnosticInspections := false;
     pf_diagnosticWarnings := false; pf_initChoices := Some [0; 1; 2];
     pf_fixture mode := object [obj "policy" ([flag "requestLocal" true; obj "ttlSec" [int "local" 1; int "remote" 1]; int "staleOnErrorMaxAgeSec" 5]
           ++ when (mode =? 2) [obj "shadow" [int "ramp" 100]]);
       flag "tracked" (negb (mode =? 0)); text "recovery" "allow"; ("fallbackTimeoutMs", JNull);
       int "readTimeoutMs" 30000000; ("observe", strings ["readContext"; "readAbort"; "marker"; "compression"])];
     pf_setup := [op "openScope" [text "id" "0"]; op "openScope" [text "id" "1"]; holds ["holdReads"; "holdLoads"]];
     pf_actions :=
       [("beginCall", chosen [0; 1; 2] (fun choice => op "begin" (when (choice <? 2) [number_text "scope" choice])));
        ("releaseRead", release "read");
        ("releaseLoad", release "load");
        ("rejectLoader", rejectLatest);
        ("resolveLoader", observing (fun o => op "resolve" [last "loader" "loaders" o; int "value" 2]));
        ("seed", {| fa_choices := Some (range (length seedAges)); fa_input choice _ wallMs := seedInput choice wallMs |});
        ("advance", advance [1; 999; 1000; 4000; 60000; 3600000]);
        ("policy", policy_action [0; 1; 2] (fun choice => [obj "ttlSec" [int "remote" (if choice =? 2 then 7200 else 1)];
           int "staleOnErrorMaxAgeSec" (if choice =? 2 then 14400 else if choice =? 1 then 7200 else 5)]));
        ("closeScope", close_scope 2);
        ("invalidate", fixed (op "invalidate" []));
        ("observeMarker", fixed (op "observeMarker" []));
        ("writeFault", fault "write")] |}.

(** ** [profiles/runtime-boundaries.mjs] *)

Definition localSample : Z := 4292886220.
Definition remoteSample : Z := 1018911151.
Definition sourceValues : list jsval := [JInt 1; JInt 2; JUndefined; str "undefined"; JNull; JBool false; JInt 0; str ""].

Definition ramp_member (name : string) (q : Q) : string * jsval := (name, JNum (Fin q)).

Definition boundary_policy (choice : Z) : res jsval :=
  let value members := Ok (object members) in
  if choice =? 21 then value [flag "requestLocal" false; obj "ramp" [int "local" 0; int "remote" 0]; int "staleOnErrorMaxAgeSec" 0; obj "shadow" [int "ramp" 0]]
  else if choice =? 12 then Ok JNull
  else if choice =? 13 then value [flag "requestLocal" false]
  else if (choice =? 18) || (choice =? 19) then value [obj "ttlSec" [int (if choice =? 18 then "local" else "remote") 60]]
  else if choice =? 20 then value [obj "ttlSec" [int "local" 60]; obj "ramp" [int "local" 100]]
  else if 14 <=? choice then
    let v := if 16 <=? choice then JNull else str "invalid" in
    value [if Z.rem choice 2 =? 0 then ("coalesce", v) else ("requestLocal", v)]
  else
    let relation := choice / 3 in
    ramp ← (if relation =? 3 then Ok []
            else local ← cohortRamp localSample relation; remote ← cohortRamp remoteSample relation;
                 Ok [obj "ramp" [ramp_member "local" local; ramp_member "remote" remote]]);
    value (when (negb (Z.rem choice 3 =? 0)) [flag "coalesce" (Z.rem choice 3 =? 2)] ++ ramp).

Definition boundary_fixture (fixture : Z) : jsval :=
  object [obj "policy"
      (if fixture =? 9 then [flag "requestLocal" true; obj "ttlSec" [int "local" 60; int "remote" 60]; int "staleOnErrorMaxAgeSec" 120; obj "shadow" [int "ramp" 100]]
       else if fixture =? 8 then [flag "requestLocal" false; obj "ramp" [int "local" 0; int "remote" 0]; int "staleOnErrorMaxAgeSec" 0; obj "shadow" [int "ramp" 0]]
       else if 6 <=? fixture then []
       else when (fixture <? 3) [flag "coalesce" false] ++
            (if Z.rem fixture 3 =? 0 then [flag "requestLocal" true]
             else [obj "ttlSec" [int (if Z.rem fixture 3 =? 1 then "local" else "remote") 60]]));
    flag "remote" (if fixture <? 6 then Z.rem fixture 3 =? 2 else (fixture =? 7) || (fixture =? 9));
    ("fallbackTimeoutMs", JNull)].

Definition runtimeBoundariesProfile : profile :=
  {| pf_readIO := false; pf_markerIO := false; pf_compressionIO := false; pf_policyErrorIO := false; pf_diagnosticAge := None;
     pf_diagnosticUseCase := None; pf_diagnosticConfigErrors := false; pf_diagnosticFutureOffsets := false; pf_diagnosticInspections := false;
     pf_diagnosticWarnings := false; pf_initChoices := Some (range 10);
     pf_fixture := boundary_fixture;
     pf_setup := [op "openScope" [text "id" "0"]; holds ["holdPolicies"]];
     pf_actions :=
       [("beginCall", fixed (op "begin" [text "scope" "0"]));
        ("releasePolicy", release "policy");
        ("closeScope", fixed (op "closeScope" [text "id" "0"]));
        ("policy", {| fa_choices := Some (range 22); fa_input choice _ _ := value ← boundary_policy choice; Ok (op "policy" [("value", value)]) |});
        ("resolveLoader", chosen (range 64) (fun choice =>
           op "resolve" (int "loader" (choice / Z.of_nat (length sourceValues)) ::
                         value_member (entry sourceValues (Z.rem choice (Z.of_nat (length sourceValues))) JUndefined))))] |}.

(** ** [profiles/shadow-layers.mjs] *)

Definition shadowSample : Z := 3203834406.

Definition shadow_layers_policy (choice : Z) : res (list (string * jsval)) :=
  ramp ← (if (9 <=? choice) && (choice <=? 11) then q ← cohortRamp shadowSample (choice - 9); Ok (JNum (Fin q))
          else Ok (JInt (if choice =? 7 then 101 else if one_of choice [5; 6; 13] then 0 else 100)));
  Ok [flag "requestLocal" (one_of choice [0; 1; 8; 12]); flag "coalesce" false;
      obj "ttlSec" [int "local" 60; int "remote" (if one_of choice [8; 13] then 120 else 60)];
      obj "ramp" [int "local" (if one_of choice [0; 2; 7; 8; 12] then 100 else 0); int "remote" (if one_of choice [4; 5; 12; 13] then 100 else 0)];
      int "staleOnErrorMaxAgeSec" (if one_of choice [8; 13] then 180 else 120);
      obj "shadow" [("ramp", ramp)]].

Definition shadow_layers_use_case : string * jsval := text "useCase" "ShadowLayers".

Definition shadowLayersProfile : profile :=
  plain_profile
    (fun _ => object [obj "policy" (match shadow_layers_policy 0 with Ok p => p | Err _ => [] end); flag "tracked" true; ("fallbackTimeoutMs", JNull);
       int "readTimeoutMs" 120000; int "shadowMaxInFlight" 2; text "recovery" "allow"; flag "probeSourceScope" true])
    (three_scopes ++ [holds ["holdDumps"; "holdWrites"]])
    [("beginCall", chosen (range 15) (fun choice =>
        let context := choice / 3 in op "begin" ([number_text "key" (Z.rem choice 3); shadow_layers_use_case] ++ in_context context)));
     ("resolveLoader", resolve_pair 48);
     ("rejectLoader", reject_loader 24);
     ("rejectTimeout", chosen (range 24) (fun choice => op "reject" [int "loader" choice; text "error" "timeout"]));
     ("releaseDump", release_index "dump" 24);
     ("releaseWrite", release_index "write" 24);
     ("advance", advance [1; 60000; 120000]);
     ("policy", {| fa_choices := Some (range 14); fa_input choice _ _ := value ← shadow_layers_policy choice; Ok (op "policy" [obj "value" value]) |});
     ("seed", chosen (range 12) (fun choice => op "seed" [number_text "key" (choice / 4); shadow_layers_use_case;
        int "value" (if Z.rem choice 4 =? 1 then 2 else 1); int "ageMs" (if Z.rem choice 4 =? 2 then 59999 else if Z.rem choice 4 =? 3 then 60000 else 0);
        int "ttlMs" 180000]))].

(** ** [profiles/shadow-read-deadlines.mjs] *)

Definition shadowReadDeadlinesProfile : profile :=
  {| pf_readIO := true; pf_markerIO := false; pf_compressionIO := false; pf_policyErrorIO := false; pf_diagnosticAge := Some "shadowAge";
     pf_diagnosticUseCase := None; pf_diagnosticConfigErrors := true; pf_diagnosticFutureOffsets := true; pf_diagnosticInspections := false;
     pf_diagnosticWarnings := false; pf_initChoices := None;
     pf_fixture _ := object [obj "policy" [flag "requestLocal" false; obj "ttlSec" [int "local" 60; int "remote" 60];
           obj "ramp" [int "local" 0; int "remote" 0]; obj "shadow" [int "ramp" 100]];
       flag "tracked" true; int "fallbackTimeoutMs" 10; int "readTimeoutMs" 5; int "shadowMaxInFlight" 1; flag "probeSourceScope" true;
       ("observe", strings ["shadowAge"; "futureOffset"; "coalesced"; "error"; "readContext"; "readAbort"])];
     pf_setup := [holds ["holdReads"; "holdLoads"; "holdDumps"; "holdWrites"]];
     pf_actions :=
       [("beginCall", chosen [0; 1] (fun choice => op "begin" [number_text "key" choice]));
        ("resolveLoader", resolve_pair 16);
        ("rejectLoader", reject_loader 8);
        ("releaseRead", release_index "read" 16); ("releaseLoad", release_index "load" 16);
        ("releaseDump", release_index "dump" 16); ("releaseWrite", release_index "write" 16);
        ("advance", advance [1; 4; 5; 10; 20]);
        ("policy", policy_action [5; 20] (fun choice => [int "remoteReadTimeoutMs" choice]));
        ("seed", chosen (range 4) (fun choice => op "seed" [number_text "key" (choice / 2); int "value" (Z.rem choice 2 + 1); int "ttlMs" 60000]))] |}.

(** ** [profiles/source-budgets.mjs] *)

Definition sourceBudgetsProfile : profile :=
  {| pf_readIO := false; pf_markerIO := false; pf_compressionIO := false; pf_policyErrorIO := false; pf_diagnosticAge := None;
     pf_diagnosticUseCase := None; pf_diagnosticConfigErrors := false; pf_diagnosticFutureOffsets := false; pf_diagnosticInspections := false;
     pf_diagnosticWarnings := false; pf_initChoices := Some [0; 1; 2];
     pf_fixture mode := object [obj "policy" [obj "ttlSec" [int "local" 1]]; flag "tracked" true; flag "remote" false;
       ("fallbackTimeoutMs", if mode =? 0 then str "default" else if mode =? 1 then JNull else JInt 10)];
     pf_setup := [holds ["holdPolicies"]];
     pf_actions :=
       [("beginCall", chosen [0; 1; 2; 3] (fun choice => op "begin"
           (when ((choice =? 1) || (choice =? 3)) [flag "outside" true] ++ when (2 <=? choice) [text "key" "{invalid}"])));
        ("releasePolicy", release_index "policy" 8);
        ("resolveLoader", resolve_pair 16);
        ("rejectLoader", reject_loader 8);
        ("advance", advance [1; 3; 6; 9; 10; 100; 59999; 60001])] |}.

(** ** The table *)

Definition profiles : list (string * profile) :=
  [("dark-layers", darkLayersProfile); ("shadow-read-deadlines", shadowReadDeadlinesProfile); ("source-budgets", sourceBudgetsProfile);
   ("runtime-boundaries", runtimeBoundariesProfile); ("shadow-layers", shadowLayersProfile); ("local-failure", localFailureProfile);
   ("recovery-read", recoveryReadProfile); ("independent", independent); ("layers", layers); ("admission", admission); ("scope", scope);
   ("recovery", recovery); ("policy", policy); ("shadow", shadow)].

(** [Object.hasOwn(profiles, name)] and [profiles[name]] *)
Definition profile_of (name : jsstr) : option profile := snd <$> List.find (fun '(n, _) => str_eqb name (js n)) profiles.

End Catalog.
