(* ===== verification/ReplayBindings.v ===== *)
(** * Bound histories

    [bindTrace], [fixtureFor] and [setupFor] of [formal/replay/bindings.mjs]:
    what the coordinator is given for a recorded trace.  Commands and
    observations are JSON values under the shipped schema; the ledger reads
    them as [settlement.mjs] does.  The lemmas show that the commands of the
    core, local-clock and effects profiles are valid and that the ledger
    takes them. *)

From Stdlib Require Import Lqa.
From S2P Require Import Prelude JsValue Duration Utf8 Config Key Metrics Frame Json JsonText LogText JsonDiff Pattern ReplaySchema SchemaPaths ProtocolSchema ReplayProtocol Itf Divergence Settlement Coordinator ReplayProfiles ReplayEffects ReplayFeatures ReplayCatalog.

#[local] Open Scope string_scope.
#[local] Open Scope Z_scope.
#[local] Open Scope list_scope.

(** ** What the ledger reads *)

Definition int_of (v : jsval) : Z := match v with JNum n => default 0 (to_int n) | _ => 0 end.

Definition hold_flag (value : jsval) (hold : string) : option bool :=
  if hasOwn value hold then Some (match prop value hold with JBool b => b | _ => true end) else None.

Definition gate_of (effect : jsval) : option gate :=
  let named name := strict_eq effect (JStr (js name)) in
  if named "read" then Some g_read else if named "write" then Some g_write else if named "dump" then Some g_dump
  else if named "load" then Some g_load else if named "policy" then Some g_policy else None.

Definition ledger_command (c : jsval) : command :=
  let op name := strict_eq (prop c "op") (JStr (js name)) in
  let ms := int_of (prop c "ms") in
  if op "faults" then
    let flag := hold_flag (prop c "value") in
    Faults (Gates (flag "holdReads") (flag "holdWrites") (flag "holdDumps") (flag "holdLoads") (flag "holdPolicies"))
  else if op "seed" then Seed
  else if op "openScope" then OpenScope
  else if op "closeScope" then CloseScope
  else if op "release" then match gate_of (prop c "effect") with Some g => Release g | None => OtherCommand end
  else if op "resolve" then Resolve
  else if op "reject" then Reject
  else if op "advance" then Advance ms
  else if op "shiftWall" then ShiftWall ms
  else if op "advanceWall" then AdvanceWall ms
  else OtherCommand.

Definition ledger_counters (observed : jsval) : observation :=
  let n name := int_of (prop observed name) in
  {| ob_loaders := n "loaders"; ob_comparisons := n "comparisons";
     ob_counters := Gates (n "reads") (n "writes") (n "dumps") (n "loads") (n "policyCalls") |}.

(** ** The schema checks of the coordinator *)

Definition well_formed (definition : string) (v : jsval) : bool :=
  match schemaViolation protocol_defs protocol_depth v (js definition) (js definition) with Ok None => true | _ => false end.

Definition valid_command (c : jsval) : bool := well_formed "command" c.

(** ** Bindings *)

Abbreviation json_binding := (binding (O := jsval) (C := jsval)).

Definition no_work : fixture := {| sourceWorkMs := None; comparisonMs := None |}.

Definition bind_core (raw : jsval) : res json_binding :=
  steps ← Core.parseItfTrace raw;
  Ok {| bd_actions := List.map Core.action steps; bd_fixture := no_work; bd_setup := []; bd_settlement := mode_wallClock;
        bd_wellformed := well_formed "coreObservation";
        bd_commands index _ _ := match steps !! index with Some s => Core.coreCommands (Core.action s) | None => Err (TypeError "no such step") end;
        bd_assert index observed :=
          match steps !! index with Some s => compared_records (Core.assertCoreObservation (Core.state s) observed) | None => AssertFailed end |}.

Definition bind_local_clock (raw : jsval) : res json_binding :=
  steps ← LocalClock.parseLocalClockTrace raw;
  Ok {| bd_actions := List.map LocalClock.action steps; bd_fixture := no_work; bd_setup := []; bd_settlement := mode_none;
        bd_wellformed := well_formed "localClockObservation";
        bd_commands index _ _ :=
          match steps !! index with
          | Some s => LocalClock.localClockInput (LocalClock.action s) (LocalClock.choice s)
          | None => Err (TypeError "no such step")
          end;
        bd_assert index observed :=
          match steps !! index with Some s => compared_records (LocalClock.assertLocalClockObservation s observed) | None => AssertFailed end |}.

(** [setupFor("effects", initChoice)] *)
Definition effects_setup (initChoice : Z) : res (list jsval) :=
  let faults := object [("op", JStr (js "faults"));
    ("value", object [("holdReads", JBool true); ("holdLoads", JBool true); ("holdDumps", JBool true); ("holdWrites", JBool true)])] in
  inputs ← Effects.inputsFor (JStr (js "init")) initChoice (object (emptyObservation true)) 0;
  Ok (faults :: inputs).

Definition bind_effects (raw : jsval) : res json_binding :=
  steps ← Effects.parseTrace raw;
  let expected := Effects.expectedObservations steps in
  setup ← effects_setup (match steps with s :: _ => Effects.choice s | [] => 0 end);
  Ok {| bd_actions := List.map Effects.action steps; bd_fixture := no_work; bd_setup := setup; bd_settlement := mode_receipt;
        bd_wellformed := well_formed "behaviorObservation";
        bd_commands index observed wallMs :=
          match steps !! index with
          | Some s => Effects.inputsFor (Effects.action s) (Effects.choice s) observed wallMs
          | None => Err (TypeError "no such step")
          end;
        bd_assert index observed :=
          match Effects.project observed, expected !! index with
          | Ok actual, Some wanted => compared_records (assertObservation actual wanted)
          | Err e, _ => assertion_of e
          | _, None => AssertFailed
          end |}.

(** What the ledger reads of a fixture. *)
Definition ledger_fixture (v : jsval) : fixture :=
  let ms name := if hasOwn v name then Some (int_of (prop v name)) else None in
  {| sourceWorkMs := ms "sourceWorkMs"; comparisonMs := ms "comparisonMs" |}.

Definition bind_feature (p : Features.profile) (raw : jsval) : res json_binding :=
  steps ← Features.feature_parseTrace p raw;
  Ok {| bd_actions := List.map Features.fs_action steps;
        bd_fixture := ledger_fixture (Features.pf_fixture p (match steps with s :: _ => Features.fs_choice s | [] => 0 end));
        bd_setup := Features.pf_setup p; bd_settlement := mode_receipt;
        bd_wellformed := well_formed "behaviorObservation";
        bd_commands index observed wallMs :=
          match steps !! index with
          | Some s => if strict_eq (Features.fs_action s) (JStr (js "init")) then Ok []
                      else c ← Features.featureInput p (Features.fs_action s) (Features.fs_choice s) observed wallMs; Ok [c]
          | None => Err (TypeError "no such step")
          end;
        bd_assert index observed :=
          match steps !! index with Some s => Features.assertFeatureObservation p s observed | None => AssertFailed end |}.

Definition bindTrace (name : jsstr) (raw : jsval) : res json_binding :=
  match Catalog.profile_of name with
  | Some p => bind_feature p raw
  | None =>
      if str_eqb name (js "core") then bind_core raw
      else if str_eqb name (js "local-clock") then bind_local_clock raw
      else if str_eqb name (js "effects") then bind_effects raw
      else Err (trace_error "Unknown replay profile")
  end.

(** ** Steps of a parsed trace *)

Lemma map_steps_lookup {A B} (f : nat -> A -> res B) i l r j y :
  map_steps f i l = Ok r -> r !! j = Some y -> exists x, l !! j = Some x /\ f (i + j)%nat x = Ok y.
Proof.
  revert i r j. induction l as [|x l IH]; intros i r j; simpl; [by intros [= <-]; destruct j|].
  intros (z & Hz & (more & Hm & [= <-])%result_bind_ok)%result_bind_ok. destruct j as [|j]; simpl.
  - intros [= <-]. exists x. by rewrite Nat.add_0_r.
  - intros Hj. destruct (IH (S i) more j Hm Hj) as (w & Hw & Hf). exists w. by rewrite Nat.add_succ_r.
Qed.

Lemma text_in_inv names v : text_in names v = true -> exists name, In name names /\ v = JStr (js name).
Proof.
  intros (name & Hin & Heq)%existsb_exists. exists name. split; [done|]. destruct v; try done. simpl in Heq. by apply str_eqb_eq in Heq as ->.
Qed.

Ltac parsed H :=
  repeat match type of H with
         | (_ ≫= _) = Ok _ => let x := fresh "x" in let E := fresh "E" in apply result_bind_ok in H as (x & E & H)
         end.

Lemma misplaced_positive index action : (0 < index)%nat -> misplaced index action = false -> strict_eq action (JStr (js "init")) = false.
Proof. unfold misplaced. intros Hi H%negb_false_iff%Bool.eqb_prop. rewrite <- H. by destruct index; [lia|]. Qed.

(** What a later step of a core trace is. *)
Lemma core_step_action raw steps index s :
  Core.parseItfTrace raw = Ok steps -> steps !! index = Some s -> (0 < index)%nat ->
  exists name, In name (tail Core.actionNames) /\ Core.action s = JStr (js name).
Proof.
  unfold Core.parseItfTrace. intros H Hs Hi. parsed H. destruct (map_steps_lookup _ _ _ _ _ _ H Hs) as (v & _ & Hv).
  unfold Core.parse_step in Hv. parsed Hv. injection Hv as <-. cbn [Core.action].
  destruct x4 as [], x3 as []. match goal with E : throw_if (_ || _) _ = Ok _ |- _ => apply throw_if_ok, orb_false_iff in E as [Hn Hm] end.
  apply negb_false_iff, text_in_inv in Hn as (name & Hin & Ha). rewrite Ha in *. exists name. split; [|done].
  apply misplaced_positive in Hm; [|lia]. destruct Hin as [<-|Hin]; [done|exact Hin].
Qed.

(** Each action of the core profile has valid commands that the ledger
    takes. *)
Definition ready (commands : res (list jsval)) : Prop :=
  exists inputs, commands = Ok inputs /\ inputs <> [] /\ forallb valid_command inputs = true /\
                 forall l, exists l', issue l (List.map ledger_command inputs) = Ok l'.

Lemma core_commands_ready name : In name (tail Core.actionNames) -> ready (Core.coreCommands (JStr (js name))).
Proof.
  intros Hin. repeat destruct Hin as [<-|Hin]; try done;
    (eexists; split; [reflexivity|]; split; [done|]; split; [vm_compute; reflexivity|]; intros l; eexists; reflexivity).
Qed.

Lemma clock_step_action raw steps index s :
  LocalClock.parseLocalClockTrace raw = Ok steps -> steps !! index = Some s -> (0 < index)%nat ->
  exists name allowed, In (name, allowed) (tail LocalClock.choices) /\ LocalClock.action s = JStr (js name) /\ In (LocalClock.choice s) allowed.
Proof.
  unfold LocalClock.parseLocalClockTrace. intros H Hs Hi. parsed H. destruct (map_steps_lookup _ _ _ _ _ _ H Hs) as (v & _ & Hv).
  unfold LocalClock.parse_step in Hv. parsed Hv.
  destruct (LocalClock.choices_of _) as [allowed|] eqn:Ec; [|done]. parsed Hv. injection Hv as <-. cbn [LocalClock.action LocalClock.choice].
  destruct x3 as [], x5 as []. apply throw_if_ok, orb_false_iff in E3 as [_ Hm]. apply throw_if_ok in E5.
  apply negb_false_iff, existsb_exists in E5 as (c & Hc & ->%Z.eqb_eq).
  unfold LocalClock.choices_of in Ec. apply fmap_Some in Ec as ([name al] & Hf & ->). apply find_some in Hf as [Hin Heq].
  apply misplaced_positive in Hm; [|lia].
  assert (member x2 "name" = JStr (js name)) as Ha by (destruct (member x2 "name"); try done; simpl in Heq; by apply str_eqb_eq in Heq as ->).
  rewrite Ha in *. exists name, al. split; [|done]. destruct Hin as [[= <- <-]|Hin]; [done|exact Hin].
Qed.

Lemma clock_commands_ready name allowed choice :
  In (name, allowed) (tail LocalClock.choices) -> In choice allowed -> ready (LocalClock.localClockInput (JStr (js name)) choice).
Proof.
  intros Hin Hc. repeat destruct Hin as [[= <- <-]|Hin]; try done; repeat destruct Hc as [<-|Hc]; try done;
    (eexists; split; [reflexivity|]; split; [done|]; split; [vm_compute; reflexivity|]; intros l; eexists; reflexivity).
Qed.

(** ** Commands with a number from the trace or the driver *)

#[local] Opaque protocol_defs protocol_depth.

(** The expanded alternatives of a behavior command. *)
Definition behavior_options : list rule :=
  match find_rule (js "behaviorCommand") protocol_defs ≫= expand protocol_defs protocol_depth with
  | Some (Rule k) => default [] (kw_oneOf k)
  | None => []
  end.

Lemma well_formed_meaning definition r t v :
  find_rule (js definition) protocol_defs = Some r -> expand protocol_defs protocol_depth r = Some t -> wire_value v = true ->
  well_formed definition v = satisfies t v.
Proof.
  intros Hr He Hv. unfold well_formed. destruct (schemaViolation_wire _ _ _ _ (js definition) Hr He Hv) as (o & -> & Hi & _).
  destruct o as [p|]; [|symmetry; by apply Hi]. destruct (satisfies t v); [|reflexivity]. discriminate (proj2 Hi eq_refl).
Qed.

(** The command schema is a choice that has the behavior commands as its
    first alternative. *)
Definition alternatives (r : rule) : list rule := default [] (kw_oneOf (keywords_of r)).

Lemma command_alternatives :
  alternatives <$> ((find_rule (js "command") protocol_defs ≫= expand protocol_defs protocol_depth) ≫= (fun t => head (alternatives t))) =
  Some behavior_options.
Proof. vm_compute. reflexivity. Qed.

Lemma alternatives_cons r o l : alternatives r = o :: l -> options_of (keywords_of r) = Some (o :: l).
Proof. unfold alternatives, options_of. destruct (kw_oneOf (keywords_of r)); [by intros <-|done]. Qed.

Lemma behavior_command i o v :
  behavior_options !! i = Some o -> wire_value v = true -> satisfies o v = true -> valid_command v = true.
Proof.
  intros Ho Hv Hs. pose proof command_alternatives as Hc. apply fmap_Some in Hc as (b & Hb & Eb).
  apply bind_Some in Hb as (t & Ht & Hb). apply bind_Some in Ht as (r & Hr & He).
  destruct (protocol_definition _ _ Hr) as (t' & He' & Hsim & Hdec). rewrite He in He'. injection He' as <-.
  unfold valid_command. rewrite (well_formed_meaning "command" r t v Hr He Hv). clear Hr He. destruct t as [k], b as [kb].
  destruct (alternatives (Rule k)) as [|o' l] eqn:Ek; [discriminate Hb|]. injection Hb as ->. apply alternatives_cons in Ek. cbn [keywords_of] in Ek.
  apply list_elem_of_lookup_2, list_elem_of_In in Ho. rewrite Eb in Ho.
  destruct (alternatives (Rule kb)) as [|o' l'] eqn:Ekb; [destruct Ho|]. apply alternatives_cons in Ekb. cbn [keywords_of] in Ekb.
  apply (choice_accepts k (Rule kb :: l) (Rule kb)); [exact Hsim|exact Hdec|exact Ek|by left|].
  pose proof (simple_option _ _ _ Hsim Ek (or_introl eq_refl)) as Hsb.
  pose proof (decisive_inv _ Hdec) as (Hch & _). destruct (Hch _ Ek) as [_ Hdb]. specialize (Hdb _ (or_introl eq_refl)).
  exact (choice_accepts kb (o' :: l') o v Hsb Hdb Ekb Ho Hs).
Qed.

#[local] Opaque behavior_options.

(** The alternatives with a number that is not fixed. *)
Definition no_rule : rule := Rule (Keywords None None None None None None None None None None None None [] [] Allowed).
Definition resolve_rule : rule := Eval vm_compute in default no_rule (behavior_options !! 1%nat).
Definition reject_rule : rule := Eval vm_compute in default no_rule (behavior_options !! 3%nat).
Definition reply_rule : rule := Eval vm_compute in default no_rule (behavior_options !! 9%nat).
Definition release_rule : rule := Eval vm_compute in default no_rule (behavior_options !! 12%nat).

Lemma numbered_options :
  behavior_options !! 1%nat = Some resolve_rule /\ behavior_options !! 3%nat = Some reject_rule /\
  behavior_options !! 9%nat = Some reply_rule /\ behavior_options !! 12%nat = Some release_rule.
Proof. vm_compute. repeat split. Qed.

Definition safe_index (n : Z) : Prop := 0 <= n <= MAX_SAFE_INTEGER.

Lemma num_leb_of_Z a b : num_leb (of_Z a) (of_Z b) = (a <=? b).
Proof. unfold num_leb. rewrite num_ltb_of_Z, num_eqb_of_Z. lia. Qed.

(** Comparing a number that denotes an integer. *)
Lemma to_int_num_leb n z a : to_int n = Some z -> num_leb (of_Z a) n = (a <=? z) /\ num_leb n (of_Z a) = (z <=? a).
Proof.
  destruct n as [| |q]; try done. unfold to_int. destruct (Z.eqb_spec (Qnum q mod Zpos (Qden q)) 0) as [E|]; [|done]. intros [= <-].
  assert (q == inject_Z (Qnum q / Zpos (Qden q)))%Q as Hq.
  { unfold Qeq, inject_Z. simpl. pose proof (Z.div_mod (Qnum q) (Zpos (Qden q)) ltac:(lia)). lia. }
  rewrite <- !num_leb_of_Z. unfold num_leb, num_ltb, num_eqb, of_Z, Qltb. split; f_equal;
    apply Bool.eq_iff_eq_true; rewrite ?negb_true_iff, ?Qle_bool_false, ?Qeq_bool_iff; split; intros; lra.
Qed.

(** Evaluates a rule on a command whose number is a variable in the safe
    range. *)
Ltac check_numbered n :=
  cbv -[to_int num_leb of_Z]; change (Fin 0) with (of_Z 0); change (Fin 9007199254740991) with (of_Z MAX_SAFE_INTEGER);
  rewrite to_int_of_Z, !num_leb_of_Z; destruct (Z.leb_spec 0 n), (Z.leb_spec n MAX_SAFE_INTEGER); unfold safe_index in *; try lia; reflexivity.

Lemma resolve_valid n : safe_index n -> valid_command (object [("op", JStr (js "resolve")); ("loader", JInt n); ("value", JInt 1)]) = true.
Proof. intros Hn. apply (behavior_command _ _ _ (proj1 numbered_options)); [reflexivity|]. check_numbered n. Qed.

Lemma reject_valid n : safe_index n -> valid_command (object [("op", JStr (js "reject")); ("loader", JInt n)]) = true.
Proof. intros Hn. apply (behavior_command _ _ _ (proj1 (proj2 numbered_options))); [reflexivity|]. check_numbered n. Qed.

Lemma release_valid effect n :
  In effect ["read"; "write"; "dump"; "load"; "policy"] -> safe_index n ->
  valid_command (object [("op", JStr (js "release")); ("effect", JStr (js effect)); ("index", JInt n)]) = true.
Proof.
  intros He Hn. apply (behavior_command _ _ _ (proj2 (proj2 (proj2 numbered_options)))); [reflexivity|].
  repeat destruct He as [<-|He]; try done; check_numbered n.
Qed.

Lemma reply_valid v : wire_value v = true -> valid_command (object [("op", JStr (js "adapterReply")); ("value", v)]) = true.
Proof.
  intros Hv. apply (behavior_command _ _ _ (proj1 (proj2 (proj2 numbered_options)))).
  - cbn. by rewrite Hv.
  - destruct v; reflexivity.
Qed.

(** ** The commands of the effects profile *)

Lemma parse_steps_lookup i previous l r j s :
  Effects.parse_steps i previous l = Ok r -> r !! j = Some s -> exists raw p p', Effects.parse_step (i + j) p raw = Ok (s, p').
Proof.
  revert i previous r j. induction l as [|x l IH]; intros i previous r j; cbn [Effects.parse_steps]; [by intros [= <-]; destruct j|].
  intros H. apply result_bind_ok in H as ([s0 p] & H0 & H). apply result_bind_ok in H as (more & Hm & [= <-]). destruct j as [|j]; simpl.
  - intros [= <-]. exists x, previous, p. by rewrite Nat.add_0_r.
  - intros Hj. destruct (IH _ _ _ _ Hm Hj) as (raw & q & q' & Hq). exists raw, q, q'. by rewrite Nat.add_succ_r.
Qed.

Lemma effects_step_action raw steps index s :
  Effects.parseTrace raw = Ok steps -> steps !! index = Some s -> (0 < index)%nat ->
  exists name, In name (tail Effects.actions) /\ Effects.action s = JStr (js name) /\
               Effects.check_choice (JStr (js name)) (Effects.choice s) = Ok tt /\ Z.abs (Effects.choice s) <= MAX_SAFE_INTEGER.
Proof.
  unfold Effects.parseTrace. intros H Hs Hi. parsed H. destruct (parse_steps_lookup _ _ _ _ _ _ H Hs) as (v & p & p' & Hv).
  unfold Effects.parse_step in Hv. parsed Hv. destruct x3 as [], x4 as [], x6 as [].
  apply throw_if_ok, orb_false_iff in E4 as [Hn Hm]. apply misplaced_positive in Hm; [|lia].
  apply negb_false_iff, text_in_inv in Hn as (name & Hin & Ha). apply itfSignedInteger_exact in E5 as [_ Hsafe].
  assert (Effects.action s = member x2 "name" /\ Effects.choice s = x5) as [-> ->].
  { destruct (has_member _ _); parsed Hv; [by injection Hv as <- <-|].
    match type of Hv with (let '(_, _) := ?y in _) = _ => destruct y end. by injection Hv as <- <-. }
  rewrite Ha in *. exists name. split; [|done]. destruct Hin as [<-|Hin]; [done|exact Hin].
Qed.

(** The counter whose latest effect an action releases. *)
Definition latest_field (name : string) : option string :=
  if existsb (String.eqb name) ["releaseLoad"; "failLoad"] then Some "loads"
  else if existsb (String.eqb name) ["releaseDump"; "failDump"] then Some "dumps"
  else if existsb (String.eqb name) ["releaseWrite"; "failWrite"] then Some "writes"
  else None.

Lemma minus_one_int n : Effects.minus_one (JInt n) = JInt (n - 1).
Proof.
  unfold JInt, Effects.minus_one, of_Z. do 2 f_equal. pose proof (Qred_integer (n - 1) 1) as H. rewrite Z.mul_1_r in H. rewrite <- H.
  apply Qred_complete. unfold Qeq, Qminus, Qplus, inject_Z. simpl. lia.
Qed.

(** A held effect is released between two fault settings. *)
Lemma release_ready effect n failed :
  In effect ["read"; "write"; "dump"; "load"] -> safe_index n -> ready (Ok (Effects.release effect (JInt n) failed)).
Proof.
  intros He Hn. eexists. split; [reflexivity|]. split; [done|]. unfold Effects.release. cbn [forallb].
  rewrite (release_valid effect n) by (simpl in *; tauto). split.
  - repeat destruct He as [<-|He]; try done; destruct failed; vm_compute; reflexivity.
  - intros l. repeat destruct He as [<-|He]; try done; destruct failed; eexists; reflexivity.
Qed.

Lemma fixed_ready inputs :
  inputs <> [] -> forallb valid_command inputs = true -> (forall l, exists l', issue l (List.map ledger_command inputs) = Ok l') -> ready (Ok inputs).
Proof. intros. by exists inputs. Qed.

Lemma bounded_choice (lo hi c : Z) : lo <= c <= hi -> In c (List.map (fun i => lo + Z.of_nat i) (seq 0 (Z.to_nat (hi - lo + 1)))).
Proof. intros H. apply in_map_iff. exists (Z.to_nat (c - lo)). split; [lia|]. apply in_seq. lia. Qed.

(** The domains of the chosen actions. *)
Lemma check_choice_domain name choice :
  In name (tail Effects.actions) -> Effects.check_choice (JStr (js name)) choice = Ok tt ->
  match name with
  | "advanceWall" => In choice Effects.wallAdvances
  | "readBudgetPolicy" => In choice [0; 1; 2; 3; 4]
  | "observerFault" => In choice [0; 1]
  | "adapterReply" => In choice [1; 2; 3; 4; 5; 6; 7; 8; 9; 10; 11; 12; 13; 14; 15; 16]
  | "resolveLoader" | "rejectLoader" | "releaseRead" | "failRead" => 0 <= choice
  | _ => True
  end.
Proof.
  intros Hin H. repeat destruct Hin as [<-|Hin]; try exact I; try done; cbv -[Z.ltb Z.eqb] in H;
    (destruct (Z.ltb_spec choice 0) as [|Hp]; [discriminate H|]; try exact Hp).
  - destruct (choice =? 1) eqn:E1; [left; lia|]. destruct (choice =? 59999) eqn:E2; [right; left; lia|].
    destruct (choice =? 60000) eqn:E3; [right; right; left; lia|discriminate H].
  - apply (bounded_choice 0 1). destruct (Z.ltb_spec 1 choice); [discriminate H|lia].
  - apply (bounded_choice 0 4). destruct (Z.ltb_spec 4 choice); [discriminate H|lia].
  - apply (bounded_choice 1 16). destruct (Z.ltb_spec choice 1); [discriminate H|]. destruct (Z.ltb_spec 16 choice); [discriminate H|lia].
Qed.

Ltac fixed_commands :=
  (apply fixed_ready; [done|vm_compute; reflexivity|intros l; eexists; reflexivity]).

Lemma adapterReply_wire choice stamp : In choice [1; 2; 3; 4; 5; 6; 7; 8; 9; 10; 11; 12; 13; 14; 15; 16] -> wire_value (Effects.adapterReply choice stamp) = true.
Proof. intros Hin. repeat destruct Hin as [<-|Hin]; try done; reflexivity. Qed.

Lemma effects_commands_ready name choice observed wall :
  In name (tail Effects.actions) -> Effects.check_choice (JStr (js name)) choice = Ok tt -> Z.abs choice <= MAX_SAFE_INTEGER ->
  (forall field, latest_field name = Some field -> exists n, prop observed field = JInt n /\ 1 <= n <= MAX_SAFE_INTEGER) ->
  ready (Effects.inputsFor (JStr (js name)) choice observed wall).
Proof.
  intros Hin Hc Hsafe Hl. pose proof (check_choice_domain name choice Hin Hc) as Hd.
  assert (forall field effect failed, latest_field name = Some field -> In effect ["read"; "write"; "dump"; "load"] ->
            ready (Ok (Effects.release effect (Effects.latest observed field) failed))) as Hrel.
  { intros field effect failed Hf He. destruct (Hl field Hf) as (n & Hn & Hb). unfold Effects.latest. rewrite Hn, minus_one_int.
    apply release_ready; [done|]. unfold safe_index. lia. }
  assert (0 <= choice -> safe_index choice) as Hidx by (unfold safe_index; lia). clear Hc Hl.
  repeat destruct Hin as [<-|Hin]; try done.
  - fixed_commands.
  - apply fixed_ready; [done| |intros l; eexists; reflexivity]. cbn [forallb]. by rewrite resolve_valid by auto.
  - apply fixed_ready; [done| |intros l; eexists; reflexivity]. cbn [forallb]. by rewrite reject_valid by auto.
  - apply release_ready; [simpl; tauto|auto].
  - apply release_ready; [simpl; tauto|auto].
  - apply (Hrel "loads"); [done|simpl; tauto].
  - apply (Hrel "loads"); [done|simpl; tauto].
  - apply (Hrel "dumps"); [done|simpl; tauto].
  - apply (Hrel "dumps"); [done|simpl; tauto].
  - apply (Hrel "writes"); [done|simpl; tauto].
  - apply (Hrel "writes"); [done|simpl; tauto].
  - fixed_commands.
  - fixed_commands.
  - fixed_commands.
  - fixed_commands.
  - repeat destruct Hd as [<-|Hd]; try done; fixed_commands.
  - repeat destruct Hd as [<-|Hd]; try done; fixed_commands.
  - repeat destruct Hd as [<-|Hd]; try done; fixed_commands.
  - apply fixed_ready; [done| |intros l; eexists; reflexivity]. cbn [forallb]. by rewrite reply_valid by (by apply adapterReply_wire).
  - fixed_commands.
  - fixed_commands.
Qed.

(** ** Properties *)

Lemma ready_next (b : json_binding) index observed wall ledger :
  ready (bd_commands b index observed wall) ->
  exists inputs ledger', next_commands ledger_command valid_command b index observed wall ledger = Ok (inputs, ledger') /\ inputs <> [].
Proof.
  intros (inputs & E & Hne & Hv & Hi). unfold next_commands. rewrite E. cbn [mbind result_bind]. rewrite Hv. cbn [negb throw_if mbind result_bind].
  clear E Hv. destruct inputs as [|c inputs]; [by destruct Hne|]. cbn [throw_if mbind result_bind]. destruct ledger as [l|].
  - destruct (Hi l) as [l' ->]. do 2 eexists. split; [reflexivity|done].
  - do 2 eexists. split; [reflexivity|done].
Qed.
