(* ===== verification/ReplayProgress.v ===== *)
(** * Bound histories do not stall

    The commands of every profile of the conformance replay: valid under the
    shipped schema and accepted by the settlement ledger, so that a session
    ends only by its driver's answers. *)

From S2P Require Import Prelude JsValue Duration Utf8 Config Key Metrics Frame Ramp Json JsonText LogText JsonDiff Pattern ReplaySchema SchemaPaths ProtocolSchema ReplayProtocol Itf Divergence Settlement Coordinator ReplayProfiles ReplayEffects ReplayFeatures ReplayCatalog ReplayBindings.

#[local] Open Scope string_scope.
#[local] Open Scope Z_scope.
#[local] Open Scope list_scope.

Import Features Catalog.

(** The actions whose command names the latest effect of a kind, and the
    counter it is taken from. *)
Definition latest_counters : list (string * string * string) :=
  [("effects", "releaseLoad", "loads"); ("effects", "failLoad", "loads"); ("effects", "releaseDump", "dumps"); ("effects", "failDump", "dumps");
   ("effects", "releaseWrite", "writes"); ("effects", "failWrite", "writes");
   ("scope", "releasePolicy", "policyCalls"); ("recovery", "releaseLoad", "loads"); ("policy", "releasePolicy", "policyCalls");
   ("shadow", "resolveLoader", "loaders"); ("shadow", "rejectLoader", "loaders"); ("shadow", "releaseRead", "reads"); ("shadow", "releaseLoad", "loads");
   ("shadow", "releaseDump", "dumps"); ("shadow", "releaseWrite", "writes");
   ("local-failure", "resolveLoader", "loaders"); ("local-failure", "rejectLoader", "loaders");
   ("recovery-read", "releaseRead", "reads"); ("recovery-read", "releaseLoad", "loads"); ("recovery-read", "rejectLoader", "loaders");
   ("recovery-read", "resolveLoader", "loaders"); ("runtime-boundaries", "releasePolicy", "policyCalls")].

Definition counted (observed : jsval) (counter : string) : Prop := exists n, prop observed counter = JInt n /\ 1 <= n <= MAX_SAFE_INTEGER.

(** ** Commands of one action *)

(** A command that changes no hold. *)
Definition harmless (v : jsval) : bool :=
  match ledger_command v with Faults (Gates None None None None None) => true | Faults _ => false | _ => true end.

Lemma harmless_issue v l : harmless v = true -> exists l', issue l [ledger_command v] = Ok l'.
Proof.
  unfold harmless. destruct (ledger_command v) as [[[] [] [] [] []]| | | | | | | | | |] eqn:E; intros H; try discriminate H; by eexists.
Qed.

Definition allowed (f : feature_action) (choice : Z) : Prop := match fa_choices f with Some l => In choice l | None => choice = -1 end.

Definition good (v : jsval) : bool := valid_command v && harmless v.

(** The action gives a good command whenever the counters it reads count. *)
Definition action_ready (counters : list string) (f : feature_action) : Prop :=
  forall choice observed wall,
    allowed f choice -> (forall c, In c counters -> counted observed c) -> 0 <= wall < 2 ^ 64 ->
    exists v, fa_input f choice observed wall = Ok v /\ good v = true.

Lemma fixed_action counters command : good command = true -> action_ready counters (fixed command).
Proof. intros H choice observed wall _ _ _. exists command. split; [reflexivity|exact H]. Qed.

Lemma chosen_action counters choices input : forallb (fun c => good (input c)) choices = true -> action_ready counters (chosen choices input).
Proof. intros H choice observed wall Hc _ _. exists (input choice). split; [reflexivity|]. rewrite forallb_forall in H. exact (H choice Hc). Qed.

(** Actions that do not look at the observation or the clock. *)
Lemma blind_action counters choices input :
  forallb (fun c => match input c with Ok v => good v | Err _ => false end) choices = true ->
  action_ready counters {| fa_choices := Some choices; fa_input choice _ _ := input choice |}.
Proof.
  intros H choice observed wall Hc _ _. cbn [fa_input]. rewrite forallb_forall in H. specialize (H choice Hc).
  destruct (input choice) as [v|]; [|discriminate H]. exists v. split; [reflexivity|exact H].
Qed.

(** ** Commands about the latest effect *)

Lemma latest_int observed counter : counted observed counter -> exists n, Effects.latest observed counter = JInt n /\ safe_index n.
Proof.
  intros (n & Hn & Hb). exists (n - 1). unfold Effects.latest. rewrite Hn, minus_one_int. split; [done|]. unfold safe_index. lia.
Qed.

Lemma release_action effect : In effect ["read"; "write"; "dump"; "load"; "policy"] -> action_ready [effectCounts effect] (release effect).
Proof.
  intros He choice observed wall _ Hc _. destruct (latest_int observed (effectCounts effect)) as (n & Hn & Hs); [by apply Hc; left|].
  eexists. split; [reflexivity|]. unfold last. rewrite Hn. unfold good. apply andb_true_iff. split.
  - by apply (release_valid effect n).
  - repeat destruct He as [<-|He]; try done; reflexivity.
Qed.

Lemma reject_action : action_ready ["loaders"] rejectLatest.
Proof.
  intros choice observed wall _ Hc _. destruct (latest_int observed "loaders") as (n & Hn & Hs); [by apply Hc; left|].
  eexists. split; [reflexivity|]. unfold last. rewrite Hn. unfold good. apply andb_true_iff. split; [by apply (reject_valid n)|reflexivity].
Qed.

#[local] Opaque protocol_defs protocol_depth behavior_options.

Definition unrenderable_rule : rule := Eval vm_compute in default no_rule (behavior_options !! 2%nat).
Definition seed_rule : rule := Eval vm_compute in default no_rule (behavior_options !! 6%nat).

Lemma further_options : behavior_options !! 2%nat = Some unrenderable_rule /\ behavior_options !! 6%nat = Some seed_rule.
Proof. vm_compute. repeat split. Qed.

Lemma resolve_value_valid n value :
  safe_index n -> In value [1; 2] -> valid_command (op "resolve" [("loader", JInt n); int "value" value]) = true.
Proof.
  intros Hn Hv. apply (behavior_command _ _ _ (proj1 numbered_options)); [reflexivity|]. repeat destruct Hv as [<-|Hv]; try done; check_numbered n.
Qed.

Lemma unrenderable_valid n : safe_index n -> valid_command (op "resolve" [("loader", JInt n); flag "unrenderable" true]) = true.
Proof. intros Hn. apply (behavior_command _ _ _ (proj1 further_options)); [reflexivity|]. check_numbered n. Qed.

Lemma good_resolve n value : safe_index n -> In value [1; 2] -> good (op "resolve" [("loader", JInt n); int "value" value]) = true.
Proof. intros Hn Hv. unfold good. rewrite (resolve_value_valid n value Hn Hv). reflexivity. Qed.

Lemma shadowResolve_action : action_ready ["loaders"] shadowResolve.
Proof.
  intros choice observed wall Hc Hcount _. destruct (latest_int observed "loaders") as (n & Hn & Hs); [by apply Hcount; left|].
  eexists. split; [reflexivity|]. unfold last. rewrite Hn. destruct Hc as [<-|[<-|[<-|[]]]].
  - apply good_resolve; [exact Hs|left; reflexivity].
  - apply good_resolve; [exact Hs|right; left; reflexivity].
  - unfold good. cbn [Z.eqb UNRENDERABLE Pos.eqb]. rewrite (unrenderable_valid n Hs). reflexivity.
Qed.

Lemma resolveTwo_action :
  action_ready ["loaders"] {| fa_choices := Some [1; 2]; fa_input value o _ := Ok (op "resolve" [last "loader" "loaders" o; int "value" value]) |}.
Proof.
  intros choice observed wall Hc Hcount _. destruct (latest_int observed "loaders") as (n & Hn & Hs); [by apply Hcount; left|].
  eexists. split; [reflexivity|]. unfold last. rewrite Hn. by apply good_resolve.
Qed.

Lemma resolveLatest_action : action_ready ["loaders"] (observing (fun o => op "resolve" [last "loader" "loaders" o; int "value" 2])).
Proof.
  intros choice observed wall _ Hcount _. destruct (latest_int observed "loaders") as (n & Hn & Hs); [by apply Hcount; left|].
  eexists. split; [reflexivity|]. unfold last. rewrite Hn. by apply good_resolve; [|right; left].
Qed.

(** ** Frames stamped with the wall clock *)

Lemma stamp_bytes_ok wall : 0 <= wall < 2 ^ 64 -> stamp_bytes wall = Ok (be_bytes 8 wall).
Proof. intros H. unfold stamp_bytes. by replace ((0 <=? wall) && (wall <? 2 ^ 64)) with true by lia. Qed.

(** A seed command with any frame text. *)
Ltac seed_frame := (unfold good; apply andb_true_iff; split; [apply (behavior_command _ _ _ (proj2 further_options)); reflexivity|reflexivity]).

Lemma dark_seed_action : action_ready [] {| fa_choices := Some (range 12); fa_input choice _ wallMs := dark_seed choice wallMs |}.
Proof.
  intros choice observed wall Hc _ Hw. cbn [fa_input allowed fa_choices] in *. unfold dark_seed. rewrite (stamp_bytes_ok wall Hw).
  cbn [mbind result_bind]. generalize (to_hex ([1] ++ be_bytes 8 wall ++ [255; 49])). intros hex. clear Hw.
  repeat destruct Hc as [<-|Hc]; try done; (eexists; split; [reflexivity|]); first [vm_compute; reflexivity|seed_frame].
Qed.

Lemma seedInput_action : action_ready [] {| fa_choices := Some (range (length seedAges)); fa_input choice _ wallMs := seedInput choice wallMs |}.
Proof.
  intros choice observed wall Hc _ Hw. cbn [fa_input allowed fa_choices] in *. unfold seedInput, encodeFrame. rewrite (stamp_bytes_ok wall Hw).
  cbn [mbind result_bind]. generalize (be_bytes 8 wall). intros stamp. clear Hw.
  repeat destruct Hc as [<-|Hc]; try done; (eexists; split; [reflexivity|]); first [vm_compute; reflexivity|seed_frame].
Qed.

(** ** The catalog *)

(** The counters an action of a profile reads. *)
Definition counters_of (profile action : string) : list string :=
  List.map snd (List.filter (fun '(p, a, _) => String.eqb p profile && String.eqb a action) latest_counters).

Definition profile_ready (name : string) (p : profile) : Prop :=
  Forall (fun '(action, f) => action_ready (counters_of name action) f) (pf_actions p).

Ltac ready_action :=
  first
    [ apply fixed_action; vm_compute; reflexivity
    | apply chosen_action; vm_compute; reflexivity
    | apply release_action; simpl; tauto
    | exact reject_action | exact shadowResolve_action | exact resolveTwo_action | exact resolveLatest_action
    | exact dark_seed_action | exact seedInput_action
    | apply blind_action; vm_compute; reflexivity ].

Ltac ready_profile :=
  cbv beta iota; lazymatch goal with |- profile_ready _ ?p => unfold profile_ready, p, plain_profile end; cbn [pf_actions];
  rewrite !List.Forall_cons_iff; repeat (split; [ready_action|]); apply List.Forall_nil.

Lemma catalog_ready : Forall (fun '(name, p) => profile_ready name p) profiles.
Proof.
  unfold profiles. rewrite !List.Forall_cons_iff. do 14 (split; [ready_profile|]). apply List.Forall_nil.
Qed.

(** ** Steps of a feature trace *)

Lemma existsb_eqb (x : Z) l : existsb (Z.eqb x) l = true <-> In x l.
Proof. rewrite existsb_exists. split; [by intros (y & Hy & ->%Z.eqb_eq)|]. intros H. exists x. split; [done|apply Z.eqb_refl]. Qed.

Lemma action_of_inv p action f : action_of p action = Some f -> exists a, action = JStr (js a) /\ In (a, f) (pf_actions p).
Proof.
  unfold action_of. intros H. apply fmap_Some in H as ([a g] & Hf & ->). apply find_some in Hf as [Hin Heq].
  exists a. split; [|done]. destruct action; try done. simpl in Heq. by apply str_eqb_eq in Heq as ->.
Qed.

Lemma feature_step_inv p index raw s :
  feature_parse_step p index raw = Ok s -> (0 < index)%nat ->
  exists f, action_of p (fs_action s) = Some f /\ allowed f (fs_choice s).
Proof.
  unfold feature_parse_step. intros H Hi. apply result_bind_ok in H as (state & _ & H). apply result_bind_ok in H as (input & _ & H).
  case_match; [done|]. destruct (declared_choices p index (member input "name")) as [choices|] eqn:Ed; [|done].
  apply result_bind_ok in H as (choice & _ & H). case_match eqn:Hc; [done|]. parsed H. injection H as <-. cbn [fs_action fs_choice].
  unfold declared_choices in Ed. destruct (Nat.eqb_spec index 0) as [->|_]; [lia|]. apply fmap_Some in Ed as (f & Hf & ->).
  exists f. split; [done|]. unfold allowed. apply negb_false_iff in Hc. destruct (fa_choices f); [by apply existsb_eqb|by apply Z.eqb_eq].
Qed.

Lemma feature_command p name index raw s observed wall :
  In (name, p) profiles -> feature_parse_step p index raw = Ok s -> (0 < index)%nat -> 0 <= wall < 2 ^ 64 ->
  (forall a c, fs_action s = JStr (js a) -> In c (counters_of name a) -> counted observed c) ->
  exists v, featureInput p (fs_action s) (fs_choice s) observed wall = Ok v /\ good v = true.
Proof.
  intros Hp Hs Hi Hw Hc. destruct (feature_step_inv _ _ _ _ Hs Hi) as (f & Hf & Hall). unfold featureInput. rewrite Hf.
  destruct (action_of_inv _ _ _ Hf) as (a & Ha & Hin).
  pose proof catalog_ready as Hcat. rewrite List.Forall_forall in Hcat. specialize (Hcat _ Hp). cbn beta iota in Hcat.
  unfold profile_ready in Hcat. rewrite List.Forall_forall in Hcat. specialize (Hcat _ Hin). cbn beta iota in Hcat.
  replace (match fa_choices f with Some l => negb (existsb (Z.eqb (fs_choice s)) l) | None => negb (fs_choice s =? -1) && negb (fs_choice s =? 0) end)
    with false.
  - apply Hcat; [exact Hall|intros c Hin'; exact (Hc a c Ha Hin')|exact Hw].
  - unfold allowed in Hall. destruct (fa_choices f); [by rewrite (proj2 (existsb_eqb _ _) Hall)|by rewrite Hall].
Qed.

(** No profile has an action called [init]. *)
Lemma no_init_action name p a f : In (name, p) profiles -> In (a, f) (pf_actions p) -> str_eqb (js a) (js "init") = false.
Proof.
  assert (forallb (fun '(_, p) => forallb (fun '(a, _) => negb (str_eqb (js a) (js "init"))) (pf_actions p)) profiles = true) as H by (vm_compute; reflexivity).
  intros Hp Ha. rewrite forallb_forall in H. specialize (H _ Hp). cbn beta iota in H. rewrite forallb_forall in H.
  specialize (H _ Ha). cbn beta iota in H. by apply negb_true_iff in H.
Qed.

(** ** Setups *)

Definition setup_ready (fx : fixture) (setup : list jsval) : Prop :=
  forallb valid_command setup = true /\ exists l, new_SettlementLedger fx (List.map ledger_command setup) = Ok l.

Lemma catalog_setups fx : Forall (fun '(_, p) => setup_ready fx (pf_setup p)) profiles.
Proof.
  unfold profiles. rewrite !List.Forall_cons_iff.
  do 14 (split; [split; [vm_compute; reflexivity|eexists; vm_compute; reflexivity]|]). apply List.Forall_nil.
Qed.

Lemma effects_setup_ready choice setup : effects_setup choice = Ok setup -> setup_ready no_work setup.
Proof.
  unfold effects_setup, Effects.inputsFor. cbn [strict_eq js str_eqb]. change (str_eqb (js "init") (js "init")) with true.
  cbn [mbind result_bind]. intros [= <-]. destruct (choice =? 3); [|destruct (choice =? 4)];
    (split; [vm_compute; reflexivity|eexists; vm_compute; reflexivity]).
Qed.

(** ** Properties *)

(** The action of a step names the latest effect that [counter] counts. *)
Definition names_latest (name : jsstr) (action : jsval) (counter : string) : Prop :=
  exists p a, name = js p /\ action = JStr (js a) /\ In (p, a, counter) latest_counters.

Lemma counters_of_latest p a c : In c (counters_of p a) -> In (p, a, c) latest_counters.
Proof.
  unfold counters_of. rewrite in_map_iff. intros ([[p' a'] c'] & <- & Hf). apply filter_In in Hf as [Hin Hb].
  apply andb_true_iff in Hb as [->%String.eqb_eq ->%String.eqb_eq]. done.
Qed.

Lemma latest_field_counter action field : latest_field action = Some field -> In ("effects", action, field) latest_counters.
Proof.
  unfold latest_field. intros H. repeat case_match; try done; injection H as <-;
    match goal with E : existsb _ _ = true |- _ => apply existsb_exists in E as (x & Hx & ->%String.eqb_eq) end;
    repeat destruct Hx as [<-|Hx]; try done; simpl; tauto.
Qed.

Lemma profile_of_inv name p : profile_of name = Some p -> exists n, name = js n /\ In (n, p) profiles.
Proof.
  unfold profile_of. intros H. apply fmap_Some in H as ([n q] & Hf & ->). apply find_some in Hf as [Hin Heq].
  exists n. split; [by apply str_eqb_eq|done].
Qed.

(** What the binding of a profile promises to a session. *)
Definition binding_ready (name : jsstr) (b : json_binding) : Prop :=
  setup_ready (bd_fixture b) (bd_setup b) /\
  forall index action observed wall,
    bd_actions b !! index = Some action -> (0 < index)%nat -> 0 <= wall < 2 ^ 64 ->
    (forall counter, names_latest name action counter -> counted observed counter) -> ready (bd_commands b index observed wall).

Lemma bind_feature_ready n p raw b : In (n, p) profiles -> bind_feature p raw = Ok b -> binding_ready (js n) b.
Proof.
  intros Hp Hb. apply result_bind_ok in Hb as (steps & Hs & [= <-]). unfold binding_ready. cbn [bd_fixture bd_setup bd_actions bd_commands]. split.
  - pose proof (catalog_setups (ledger_fixture (pf_fixture p (match steps with s :: _ => fs_choice s | [] => 0 end)))) as Hc.
    rewrite List.Forall_forall in Hc. exact (Hc _ Hp).
  - intros index action observed wall Ha Hi Hw Hc. rewrite list_lookup_fmap in Ha. apply fmap_Some in Ha as (s & Hs' & ->). rewrite Hs'.
    unfold feature_parseTrace in Hs. parsed Hs. destruct (map_steps_lookup _ _ _ _ _ _ Hs Hs') as (raw' & _ & Hraw). rewrite Nat.add_0_l in Hraw.
    destruct (feature_command p n index raw' s observed wall Hp Hraw Hi Hw) as (v & Hv & Hg).
    { intros a c Ha Hin. apply Hc. exists n, a. split; [done|]. split; [done|]. by apply counters_of_latest. }
    destruct (feature_step_inv _ _ _ _ Hraw Hi) as (f & Hf & _). destruct (action_of_inv _ _ _ Hf) as (a & Ha & Hin).
    replace (strict_eq (fs_action s) (JStr (js "init"))) with false.
    + rewrite Hv. cbn [mbind result_bind]. apply andb_true_iff in Hg as [Hval Hharm]. exists [v]. split; [reflexivity|]. split; [discriminate|].
      split; [cbn [forallb]; rewrite Hval; reflexivity|]. intros l. exact (harmless_issue v l Hharm).
    + symmetry. rewrite Ha. exact (no_init_action _ _ _ _ Hp Hin).
Qed.

Lemma bind_core_ready name raw b : bind_core raw = Ok b -> binding_ready name b.
Proof.
  intros Hb. apply result_bind_ok in Hb as (steps & Hp & [= <-]). split; [split; [reflexivity|by eexists]|].
  intros index action observed wall Ha Hi _ _. cbn [bd_commands bd_actions] in *. rewrite list_lookup_fmap in Ha.
  apply fmap_Some in Ha as (s & Hs & ->). rewrite Hs. destruct (core_step_action _ _ _ _ Hp Hs Hi) as (a & Hin & ->). by apply core_commands_ready.
Qed.

Lemma bind_local_clock_ready name raw b : bind_local_clock raw = Ok b -> binding_ready name b.
Proof.
  intros Hb. apply result_bind_ok in Hb as (steps & Hp & [= <-]). split; [split; [reflexivity|by eexists]|].
  intros index action observed wall Ha Hi _ _. cbn [bd_commands bd_actions] in *. rewrite list_lookup_fmap in Ha.
  apply fmap_Some in Ha as (s & Hs & ->). rewrite Hs.
  destruct (clock_step_action _ _ _ _ Hp Hs Hi) as (a & choices & Hin & -> & Hc). by eapply clock_commands_ready.
Qed.

Lemma bind_effects_ready raw b : bind_effects raw = Ok b -> binding_ready (js "effects") b.
Proof.
  intros Hb. apply result_bind_ok in Hb as (steps & Hp & Hb). apply result_bind_ok in Hb as (setup & Hsetup & [= <-]).
  split; [by apply effects_setup_ready in Hsetup|].
  intros index action observed wall Ha Hi _ Hc. cbn [bd_commands bd_actions] in *. rewrite list_lookup_fmap in Ha.
  apply fmap_Some in Ha as (s & Hs & ->). rewrite Hs. destruct (effects_step_action _ _ _ _ Hp Hs Hi) as (a & Hin & Ha & Hch & Hsafe).
  rewrite Ha in *. apply effects_commands_ready; [done..|]. intros field Hfield. apply Hc. exists "effects", a.
  split; [done|]. split; [done|]. by apply latest_field_counter.
Qed.

(** C31. A bound history never stalls its own session.  For every one of the
    seventeen profiles and every trace that [bindTrace] accepts, the setup
    commands are valid and the settlement ledger takes them, and the commands
    of every later step satisfy the command schema, there is at least one, and
    the ledger takes them, whatever the driver observed; only an action that
    names the latest effect of a kind needs an observation that counts one,
    and a frame stamped with the wall clock a clock that fits its 8 bytes. *)
Theorem bound_history_never_stalls name raw (b : json_binding) :
  bindTrace name raw = Ok b ->
  setup_ready (bd_fixture b) (bd_setup b) /\
  forall index action observed wall ledger,
    bd_actions b !! index = Some action -> (0 < index)%nat -> 0 <= wall < 2 ^ 64 ->
    (forall counter, names_latest name action counter -> counted observed counter) ->
    exists inputs ledger', next_commands ledger_command valid_command b index observed wall ledger = Ok (inputs, ledger') /\ inputs <> [].
Proof.
  intros Hb. enough (binding_ready name b) as [Hsetup H].
  { split; [exact Hsetup|]. intros index action observed wall ledger Ha Hi Hw Hc. apply ready_next. exact (H index action observed wall Ha Hi Hw Hc). }
  unfold bindTrace in Hb. destruct (profile_of name) as [p|] eqn:Ep.
  { destruct (profile_of_inv _ _ Ep) as (n & -> & Hin). exact (bind_feature_ready n p raw b Hin Hb). }
  destruct (str_eqb name (js "core")); [|destruct (str_eqb name (js "local-clock")); [|destruct (str_eqb name (js "effects")) eqn:En; [|done]]].
  - exact (bind_core_ready _ _ _ Hb).
  - exact (bind_local_clock_ready _ _ _ Hb).
  - apply str_eqb_eq in En as ->. exact (bind_effects_ready _ _ Hb).
Qed.

(** A recorded trace of the local-failure profile that rejects a loader. *)
Definition sample_state (name : string) (choice loaders : Z) : jsval :=
  object [("input", object [("name", str name); ("choice", itf_integer choice)]);
          ("s", object [("o", object (List.map (fun '(field, v) =>
                  (field, match v with JNum _ => itf_integer (if String.eqb field "loaders" then loaders else 0) | _ => v end)) (emptyObservation false)))])].

Definition sample_trace : jsval :=
  object [("states", JArr [sample_state "init" (-1) 0; sample_state "beginCall" 2 1; sample_state "rejectLoader" (-1) 1])].

Lemma bound_history_never_stalls_witness :
  exists b inputs ledger',
    bindTrace (js "local-failure") sample_trace = Ok b /\ bd_actions b = [str "init"; str "beginCall"; str "rejectLoader"] /\
    next_commands ledger_command valid_command b 2 (object [int "loaders" 1]) 0 (Some (new_ledger no_work)) = Ok (inputs, ledger') /\ inputs <> [].
Proof.
  assert (exists b, bindTrace (js "local-failure") sample_trace = Ok b /\ bd_actions b = [str "init"; str "beginCall"; str "rejectLoader"]) as (b & Hb & Ha).
  { unfold bindTrace. change (profile_of (js "local-failure")) with (Some localFailureProfile). cbn iota. unfold bind_feature.
    assert (exists steps, feature_parseTrace localFailureProfile sample_trace = Ok steps /\
              List.map fs_action steps = [str "init"; str "beginCall"; str "rejectLoader"]) as (steps & Hs & Hacts)
      by (vm_compute; eexists; split; reflexivity).
    rewrite Hs. cbn [mbind result_bind]. eexists. split; [reflexivity|exact Hacts]. }
  destruct (bound_history_never_stalls (js "local-failure") sample_trace b Hb) as [_ H].
  destruct (H 2%nat (str "rejectLoader") (object [int "loaders" 1]) 0 (Some (new_ledger no_work))) as (inputs & ledger' & Hc & Hne);
    [rewrite Ha; reflexivity|lia|lia| |].
  { intros counter (p & a & Hp & Hact & Hin). injection Hact as Hact.
    assert (forallb (fun '(p, a, c) => negb (str_eqb (js "local-failure") (js p) && str_eqb (js "rejectLoader") (js a)) || String.eqb c "loaders")
              latest_counters = true) as Hall by (vm_compute; reflexivity).
    rewrite forallb_forall in Hall. specialize (Hall _ Hin). cbn beta iota in Hall.
    rewrite (proj2 (str_eqb_eq _ _) Hp), (proj2 (str_eqb_eq _ _) Hact) in Hall. apply String.eqb_eq in Hall as ->.
    exists 1. split; [reflexivity|split; [lia|vm_compute; discriminate]]. }
  exists b, inputs, ledger'. split; [exact Hb|split; [exact Ha|split; [exact Hc|exact Hne]]].
Defined.
