(* ===== verification/ReplayEvidence.v ===== *)
(** * What an observation can be evidence of

    The projection of [formal/replay/features.mjs] on observations that passed
    the message schema: it always reaches a verdict about the observed values,
    and a step that passes has confirmed every counter of the prediction. *)

From S2P Require Import Prelude JsValue Duration Utf8 Config Key Metrics Frame Ramp Json JsonText LogText JsonDiff Pattern ReplaySchema SchemaPaths ProtocolSchema ReplayProtocol Itf Divergence Settlement ReplayText Coordinator ReplayProfiles ReplayEffects ReplayFeatures ReplayCatalog ReplayBindings.

#[local] Open Scope string_scope.
#[local] Open Scope Z_scope.
#[local] Open Scope list_scope.

Import Features.

#[local] Opaque protocol_defs protocol_depth.

(** ** What the schema says of an observation *)

Definition expanded_rule (definition : string) : option rule := find_rule (js definition) protocol_defs ≫= expand protocol_defs protocol_depth.

Definition observation_rule : rule := Eval vm_compute in default no_rule (expanded_rule "behaviorObservation").
Definition event_rule : rule := Eval vm_compute in default no_rule (expanded_rule "observedEvent").
Definition call_rule : rule := Eval vm_compute in default no_rule (expanded_rule "callResult").

Lemma observation_rule_eq : expanded_rule "behaviorObservation" = Some observation_rule.
Proof. vm_compute. reflexivity. Qed.

(** The items rule of a property. *)
Definition items_rule (r : rule) (key : string) : option rule := find_rule (js key) (kw_properties (keywords_of r)) ≫= (fun p => kw_items (keywords_of p)).

Lemma observation_items : items_rule observation_rule "events" = Some event_rule /\ items_rule observation_rule "calls" = Some call_rule.
Proof. split; vm_compute; reflexivity. Qed.

Lemma observation_meaning v : wire_value v = true -> well_formed "behaviorObservation" v = true -> satisfies observation_rule v = true.
Proof.
  intros Hv Hw. pose proof observation_rule_eq as H. unfold expanded_rule in H. apply bind_Some in H as (r & Hr & He).
  by rewrite <- (well_formed_meaning "behaviorObservation" r observation_rule v Hr He Hv).
Qed.

Lemma listed_items r v key item l x :
  items_rule r key = Some item -> satisfies r (JObj v) = true -> assoc (js key) v = Some (JArr l) -> In x l -> satisfies item x = true.
Proof.
  destruct r as [k]. unfold items_rule. intros Hi Hs Ha Hin. apply bind_Some in Hi as ([p] & Hp & Hit).
  pose proof (satisfies_property _ _ _ _ _ Hs Ha Hp) as H. apply satisfies_parts in H as (_ & _ & _ & Hn).
  cbn [satisfies_nested keywords_of] in *. rewrite Hit in Hn. apply andb_true_iff in Hn as [_ Hn]. exact (forallb_In _ _ _ Hn Hin).
Qed.

(** ** Members an alternative guarantees *)

Definition within_kinds (allowed : list kind) (l : list (option kind)) : bool :=
  forallb (fun o => match o with Some k => existsb (kind_eqb (Some k)) (List.map Some allowed) | None => false end) l.

(** The alternative requires the member and limits its kind. *)
Definition provides (r : rule) (key : string) (allowed : list kind) : bool :=
  let k := keywords_of r in
  existsb (str_eqb (js key)) (kw_required k) &&
  match find_rule (js key) (kw_properties k) ≫= (fun p => SchemaPaths.kinds (keywords_of p)) with Some l => within_kinds allowed l | None => false end.

Lemma within_kinds_spec allowed l o : within_kinds allowed l = true -> In o l -> exists k, o = Some k /\ In k allowed.
Proof.
  intros H Hin. pose proof (forallb_In _ _ _ H Hin) as Hk. cbn beta in Hk. destruct o as [k|]; [|done]. exists k. split; [done|].
  apply existsb_exists in Hk as (o & Ho & Heq). unfold kind_eqb in Heq. apply bool_decide_eq_true in Heq as <-.
  apply in_map_iff in Ho as (k' & [= ->] & Hk'). done.
Qed.

Lemma provides_spec r key allowed m :
  provides r key allowed = true -> satisfies r (JObj m) = true -> exists k, kind_of (prop (JObj m) key) = Some k /\ In k allowed.
Proof.
  destruct r as [k]. unfold provides. cbn [keywords_of]. intros [Hr Hp]%andb_true_iff Hs.
  apply existsb_exists in Hr as (n & Hn & <-%str_eqb_eq). destruct (satisfies_required _ _ _ Hs Hn) as (x & Hx).
  destruct (find_rule (js key) (kw_properties k)) as [[p]|] eqn:Ef; [|done]. cbn [mbind option_bind keywords_of] in Hp.
  destruct (SchemaPaths.kinds p) as [l|] eqn:Ek; [|done]. pose proof (satisfies_kinds _ _ _ (satisfies_property _ _ _ _ _ Hs Hx Ef) Ek) as Hin.
  cbn [prop]. rewrite Hx. exact (within_kinds_spec _ _ _ Hp Hin).
Qed.

(** A member with a constant. *)
Lemma constant_member k m key p c :
  satisfies (Rule k) (JObj m) = true -> existsb (str_eqb (js key)) (kw_required k) = true ->
  find_rule (js key) (kw_properties k) = Some (Rule p) -> kw_const p = Some (JStr c) -> prop (JObj m) key = JStr c.
Proof.
  intros Hs Hreq Hp Hc. apply existsb_exists in Hreq as (n & Hn & <-%str_eqb_eq). destruct (satisfies_required _ _ _ Hs Hn) as (x & Hx).
  pose proof (satisfies_property _ _ _ _ _ Hs Hx Hp) as H. apply satisfies_parts in H as (Hconst & _). rewrite Hc in Hconst.
  cbn [or_vacuous] in Hconst. cbn [prop]. rewrite Hx. destruct x as [| | | |t| | |]; try done. cbn in Hconst. by apply str_eqb_eq in Hconst as ->.
Qed.

(** The members the projection reads, by kind of event. *)
Definition event_needs : list (string * string * list kind) :=
  [("readContext", "timeoutMs", [KdNum]); ("readAbort", "index", [KdNum]); ("coalesced", "scope", [KdStr]); ("error", "layer", [KdStr]);
   ("futureOffset", "layer", [KdStr]); ("futureOffset", "seconds", [KdNum]); ("shadowAge", "seconds", [KdNum]); ("recoveryAge", "seconds", [KdNum]);
   ("shadowMismatchLogging", "outcome", [KdStr]); ("compression", "outcome", [KdStr]); ("marker", "cutoffMs", [KdNum]); ("marker", "ttlMs", [KdNum]);
   ("coalescingState", "instance", [KdStr]); ("coalescingState", "activeLeaders", [KdNum]); ("coalescingState", "activeFollowers", [KdNum]);
   ("coalescingState", "oldestLeaderAgeMs", [KdNum; KdNull])].

(** The constant of the member [event]. *)
Definition event_constant (r : rule) : option jsval := find_rule (js "event") (kw_properties (keywords_of r)) ≫= (fun p => kw_const (keywords_of p)).

Lemma event_options_checked :
  forallb (fun o => only_objects (keywords_of o) && provides o "event" [KdStr] &&
    match event_constant o with
    | Some (JStr c) => forallb (fun '(name, key, allowed) => negb (str_eqb (js name) c) || provides o key allowed) event_needs
    | _ => false
    end) (alternatives event_rule) = true.
Proof. vm_compute. reflexivity. Qed.

(** An event that satisfies the schema satisfies one alternative, whose
    constant is its kind. *)
Lemma event_option v :
  satisfies event_rule v = true ->
  exists m o c, v = JObj m /\ In o (alternatives event_rule) /\ satisfies o v = true /\ event_constant o = Some (JStr c) /\ prop v "event" = JStr c.
Proof.
  intros H. destruct (satisfies_option (keywords_of event_rule) (alternatives event_rule) v eq_refl H) as (o & Hin & Ho).
  pose proof (forallb_In _ _ _ event_options_checked Hin) as Hc. cbn beta in Hc. apply andb_true_iff in Hc as [[Hobj Hev]%andb_true_iff Hc].
  destruct o as [k]. destruct (only_objects_spec _ _ Ho Hobj) as (m & ->). exists m, (Rule k).
  destruct (event_constant (Rule k)) as [[]|] eqn:Ec; try done. exists s. split; [done|]. split; [done|]. split; [done|]. split; [done|].
  unfold event_constant in Ec. apply bind_Some in Ec as ([p] & Hp & Hcp). cbn [keywords_of] in *.
  apply andb_true_iff in Hev as [Hreq _]. exact (constant_member k m "event" p s Ho Hreq Hp Hcp).
Qed.

Lemma says_spec v name : says v name = true <-> v = JStr (js name).
Proof.
  unfold says. split; [|intros ->; cbn [strict_eq]; by apply str_eqb_eq]. destruct v; try done. cbn [strict_eq]. by intros ->%str_eqb_eq.
Qed.

Lemma event_member name key allowed v :
  In (name, key, allowed) event_needs -> satisfies event_rule v = true -> says (prop v "event") name = true ->
  exists k, kind_of (prop v key) = Some k /\ In k allowed.
Proof.
  intros Hn Hv Hs%says_spec. destruct (event_option v Hv) as (m & o & c & -> & Hin & Ho & Ec & Hc). rewrite Hc in Hs. injection Hs as ->.
  pose proof (forallb_In _ _ _ event_options_checked Hin) as H. cbn beta in H. rewrite Ec in H. apply andb_true_iff in H as [_ H].
  pose proof (forallb_In _ _ _ H Hn) as Hp. cbn beta iota in Hp. rewrite (proj2 (str_eqb_eq (js name) (js name)) eq_refl) in Hp.
  exact (provides_spec o key allowed m Hp Ho).
Qed.

Lemma event_text name key v :
  In (name, key, [KdStr]) event_needs -> satisfies event_rule v = true -> says (prop v "event") name = true -> exists s, prop v key = JStr s.
Proof. intros Hn Hv Hs. destruct (event_member _ _ _ _ Hn Hv Hs) as (k & Hk & [<-|[]]). destruct (prop v key); try done. by eexists. Qed.

Lemma event_number name key v :
  In (name, key, [KdNum]) event_needs -> satisfies event_rule v = true -> says (prop v "event") name = true -> exists n, prop v key = JNum n.
Proof. intros Hn Hv Hs. destruct (event_member _ _ _ _ Hn Hv Hs) as (k & Hk & [<-|[]]). destruct (prop v key); try done. by eexists. Qed.

(** ** A verdict is always reached *)

(** The projection ends with a value or with an assertion on the observed
    values, never with an infrastructure error. *)
Definition judged {A} (r : projected A) : Prop := r <> Err InfrastructureError.

Lemma judged_bind {A B} (r : projected A) (f : A -> projected B) : judged r -> (forall x, r = Ok x -> judged (f x)) -> judged (r ≫= f).
Proof. destruct r as [x|e]; [intros _ H; by apply H|]. intros H _ [= ->]. by apply H. Qed.

Lemma judged_ok {A} (x : A) : judged (Ok x).
Proof. done. Qed.

Lemma judged_partial {A} : judged (Err DomainError : projected A).
Proof. done. Qed.

Lemma judged_equal a b : judged (Effects.assert_equal a b).
Proof. unfold Effects.assert_equal. by case_match. Qed.

Lemma judged_domain c : judged (assertObservedDomain c).
Proof. by destruct c. Qed.

Lemma judged_subset v l : judged (assertSubset v l).
Proof. induction l as [|[key value] l IH]; [done|]. cbn [assertSubset]. apply judged_bind; [apply judged_equal|done]. Qed.

Lemma judged_map {A B} (f : A -> projected B) l : (forall x, In x l -> judged (f x)) -> judged (Effects.map_projected f l).
Proof.
  induction l as [|x l IH]; intros H; [done|]. cbn [Effects.map_projected]. apply judged_bind; [apply H; by left|]. intros y _.
  apply judged_bind; [apply IH; intros z Hz; apply H; by right|done].
Qed.

Lemma judged_fold {A B} (f : A -> B -> projected A) acc l : (forall a x, In x l -> judged (f a x)) -> judged (fold_projected f acc l).
Proof.
  revert acc. induction l as [|x l IH]; intros acc H; [done|]. cbn [fold_projected]. apply judged_bind; [apply H; by left|].
  intros a _. apply IH. intros b y Hy. apply H. by right.
Qed.

Create HintDb judged.
#[local] Hint Resolve judged_ok judged_partial judged_equal judged_domain judged_subset : judged.
#[local] Hint Extern 1 (judged (_ ≫= _)) => (apply judged_bind; [|intros ? ?]) : judged.

(** *** Calls *)

Definition pending_rule : rule := Eval vm_compute in default no_rule (alternatives call_rule !! 0%nat).
Definition value_rule : rule := Eval vm_compute in default no_rule (alternatives call_rule !! 1%nat).
Definition error_rule : rule := Eval vm_compute in default no_rule (alternatives call_rule !! 2%nat).
Definition identity_rule : rule := Eval vm_compute in default no_rule (find_rule (js "error") (kw_properties (keywords_of error_rule))).

Lemma call_alternatives : options_of (keywords_of call_rule) = Some [pending_rule; value_rule; error_rule].
Proof. reflexivity. Qed.

Lemma identity_text v : satisfies identity_rule v = true -> exists text, v = JStr text /\ test error_identity text = true.
Proof.
  intros H. pose proof (satisfies_kinds (keywords_of identity_rule) v [Some KdStr] H eq_refl) as [Hk|[]].
  destruct v as [| | | |text| | |]; try done. exists text. split; [done|]. revert H. cbv -[test]. by destruct (test _ text).
Qed.

(** A call that is neither pending nor a value is an error with an identity. *)
Lemma call_error c :
  satisfies call_rule c = true -> says (prop c "status") "pending" = false -> says (prop c "status") "value" = false ->
  exists text, prop c "error" = JStr text /\ test error_identity text = true.
Proof.
  intros H Hp Hv. destruct (satisfies_option (keywords_of call_rule) _ c call_alternatives H) as (o & [<-|[<-|[<-|[]]]] & Ho).
  - destruct (only_objects_spec (keywords_of pending_rule) _ Ho eq_refl) as (m & ->).
    rewrite (constant_member (keywords_of pending_rule) m "status" _ (js "pending") Ho eq_refl eq_refl eq_refl) in Hp. done.
  - destruct (only_objects_spec (keywords_of value_rule) _ Ho eq_refl) as (m & ->).
    rewrite (constant_member (keywords_of value_rule) m "status" _ (js "value") Ho eq_refl eq_refl eq_refl) in Hv. done.
  - destruct (only_objects_spec (keywords_of error_rule) _ Ho eq_refl) as (m & ->).
    destruct (satisfies_required (keywords_of error_rule) m (js "error") Ho) as (x & Hx); [vm_compute; tauto|].
    cbn [prop]. rewrite Hx. apply identity_text. exact (satisfies_property (keywords_of error_rule) m (js "error") x identity_rule Ho Hx eq_refl).
Qed.

Lemma call_code_judged c : satisfies call_rule c = true -> judged (call_code c).
Proof.
  intros H. unfold call_code. destruct (says (prop c "status") "pending") eqn:Hp; [done|]. destruct (says (prop c "status") "value") eqn:Hv; [done|].
  destruct (call_error c H Hp Hv) as (text & -> & _). done.
Qed.

Lemma natural_digits s : word natural_decimal s -> word (RSeq digit (RStar digit)) s.
Proof.
  intros [->%word_literal|(d & ds & -> & Hd & Hds)%word_positive]%word_alt.
  - change (js "0") with ([48] ++ [] : jsstr). constructor; [constructor; lia|constructor].
  - change (d :: ds) with ([d] ++ ds). constructor; [constructor; lia|]. by apply word_star_range.
Qed.

(** The schema leaves no source error without a number. *)
Lemma source_text text rest :
  test error_identity text = true -> strip_prefix (js "source:") text = Some rest -> test source_identity text = true.
Proof.
  intros Hw%test_word Hp%strip_prefix_split. subst text. apply test_word. unfold error_identity in Hw.
  apply word_alt in Hw as [(u & w & E & Hu & (c & d & -> & ->%word_literal & Hd)%word_pair)%word_pair|(u & w & E & ->%word_literal & _)%word_pair].
  - apply word_alt in Hu as [->%word_literal| ->%word_literal]; [|discriminate E].
    assert (rest = d) as -> by (injection E; done). constructor; [by apply word_literal|by apply natural_digits].
  - discriminate E.
Qed.

Lemma source_error_judged c : satisfies call_rule c = true -> judged (source_error c).
Proof.
  intros H. unfold source_error. destruct (says (prop c "status") "error") eqn:E; [|done]. cbn [negb]. apply says_spec in E.
  destruct (call_error c H) as (text & -> & Ht); [by rewrite E|by rewrite E|].
  destruct (strip_prefix (js "source:") text) as [rest|] eqn:Es; [|done]. by rewrite (source_text _ _ Ht Es).
Qed.

(** *** Coalescing inspections *)

Definition count_rule : rule := Eval vm_compute in
  default no_rule (find_rule (js "loaders") (kw_properties (keywords_of observation_rule))).

Lemma count_rule_spec v : satisfies count_rule v = true -> is_count v = true.
Proof.
  intros H. pose proof (satisfies_kinds (keywords_of count_rule) v [Some KdNum] H eq_refl) as [Hk|[]].
  destruct v as [| | |n| | | |]; try done. revert H. cbv -[to_int num_leb is_count]. unfold is_count, isSafeInteger.
  change (Fin 0) with (of_Z 0). change (Fin 9007199254740991) with (of_Z MAX_SAFE_INTEGER).
  destruct (to_int n) as [z|] eqn:E; [|done]. rewrite (proj1 (to_int_num_leb n z 0 E)), (proj2 (to_int_num_leb n z MAX_SAFE_INTEGER E)).
  destruct (Z.leb_spec 0 z), (Z.leb_spec z MAX_SAFE_INTEGER); try done. intros _. replace (Z.abs z <=? MAX_SAFE_INTEGER) with true; [by apply Z.leb_le|symmetry; apply Z.leb_le; lia].
Qed.

(** The alternative of a kind of event. *)
Definition kind_text (r : rule) : jsstr := match event_constant r with Some (JStr c) => c | _ => [] end.
Definition option_named (name : string) : option rule := List.find (fun o => str_eqb (kind_text o) (js name)) (alternatives event_rule).

Lemma kinds_distinct : NoDup (List.map kind_text (alternatives event_rule)).
Proof. apply (bool_decide_unpack _). vm_compute. exact I. Qed.

Lemma find_unique {A} (key : A -> jsstr) l x :
  NoDup (List.map key l) -> In x l -> List.find (fun y => str_eqb (key y) (key x)) l = Some x.
Proof.
  induction l as [|y l IH]; [done|]. simpl. intros [Hy Hl]%list.NoDup_cons [->|Hin]; [by rewrite (proj2 (str_eqb_eq _ _) eq_refl)|].
  destruct (str_eqb (key y) (key x)) eqn:E; [|by apply IH]. apply str_eqb_eq in E. exfalso. apply Hy. rewrite E.
  apply list_elem_of_In, in_map, Hin.
Qed.

Lemma event_alternative name o v :
  option_named name = Some o -> satisfies event_rule v = true -> says (prop v "event") name = true ->
  exists m, v = JObj m /\ satisfies o (JObj m) = true.
Proof.
  intros Hn Hv Hs%says_spec. destruct (event_option v Hv) as (m & o' & c & -> & Hin & Ho & Ec & Hc). exists m. split; [done|].
  rewrite Hc in Hs. injection Hs as ->. pose proof (find_unique kind_text _ o' kinds_distinct Hin) as Hf. unfold kind_text at 2 in Hf.
  rewrite Ec in Hf. unfold option_named in Hn. rewrite Hn in Hf. injection Hf as ->. exact Ho.
Qed.

Definition coalescing_rule : rule := Eval vm_compute in default no_rule (option_named "coalescingState").
Definition warning_rule : rule := Eval vm_compute in default no_rule (option_named "mismatchWarning").

Lemma named_options : option_named "coalescingState" = Some coalescing_rule /\ option_named "mismatchWarning" = Some warning_rule.
Proof. split; vm_compute; reflexivity. Qed.

Definition age_rule : rule := Eval vm_compute in default no_rule (find_rule (js "oldestLeaderAgeMs") (kw_properties (keywords_of coalescing_rule))).

Lemma age_rule_spec v :
  satisfies age_rule v = true -> wire_value v = true -> is_null v || match v with JNum n => isFinite n && num_leb (of_Z 0) n | _ => false end = true.
Proof.
  intros H Hw. pose proof (satisfies_kinds (keywords_of age_rule) v [Some KdNum; Some KdNull] H eq_refl) as Hk.
  destruct v as [| | |n| | | |]; try done; try (by destruct Hk as [|[|[]]]). cbn [is_null orb].
  destruct n as [| |q]; [done|done|]. cbn [isFinite andb].
  revert H. cbv -[num_leb]. change (Fin 0) with (of_Z 0). by destruct (num_leb (of_Z 0) (Fin q)).
Qed.

(** A required member of an alternative satisfies its rule. *)
Lemma required_member k m key p :
  satisfies (Rule k) (JObj m) = true -> existsb (str_eqb (js key)) (kw_required k) = true -> find_rule (js key) (kw_properties k) = Some p ->
  exists x, assoc (js key) m = Some x /\ satisfies p x = true.
Proof.
  intros Hs Hreq Hp. apply existsb_exists in Hreq as (n & Hn & <-%str_eqb_eq). destruct (satisfies_required _ _ _ Hs Hn) as (x & Hx).
  exists x. split; [done|]. exact (satisfies_property _ _ _ _ _ Hs Hx Hp).
Qed.

Lemma wire_member m key x : wire_value (JObj m) = true -> assoc key m = Some x -> wire_value x = true.
Proof. cbn [wire_value]. intros [_ H]%andb_true_iff Hx%assoc_In. exact (forallb_In _ _ _ H Hx). Qed.

(** The instances a driver can inspect. *)
Definition known_instance (event : jsval) : Prop := exists i, prop event "instance" = JStr i /\ test (RRange 48 49) i = true.

Lemma inspection_judged v :
  wire_value v = true -> satisfies event_rule v = true -> says (prop v "event") "coalescingState" = true -> known_instance v ->
  judged (coalescing_inspection v).
Proof.
  intros Hw Hv Hs (i & Hi & Ht). destruct (event_alternative _ _ _ (proj1 named_options) Hv Hs) as (m & -> & Ho).
  destruct (required_member (keywords_of coalescing_rule) m "activeLeaders" count_rule Ho eq_refl eq_refl) as (x & Hx & Hcx).
  destruct (required_member (keywords_of coalescing_rule) m "activeFollowers" count_rule Ho eq_refl eq_refl) as (y & Hy & Hcy).
  destruct (required_member (keywords_of coalescing_rule) m "oldestLeaderAgeMs" age_rule Ho eq_refl eq_refl) as (z & Hz & Hcz).
  unfold coalescing_inspection. rewrite Hi, Ht. cbn [prop]. rewrite Hx, Hy, Hz, (count_rule_spec x Hcx), (count_rule_spec y Hcy).
  rewrite (age_rule_spec z Hcz (wire_member _ _ _ Hw Hz)). done.
Qed.

(** *** Warnings *)

(** A member that may be there: text or [null]. *)
Lemma warning_text v key :
  satisfies event_rule v = true -> says (prop v "event") "mismatchWarning" = true ->
  In key ["cachedValueJson"; "sourceValueJson"; "mismatchPathsJson"; "diffJson"] -> hasOwn v key = true -> is_null (prop v key) = false ->
  exists s, prop v key = JStr s.
Proof.
  intros Hv Hs Hk Ho Hn. destruct (event_alternative _ _ _ (proj2 named_options) Hv Hs) as (m & -> & Hr).
  cbn [hasOwn prop] in *. destruct (assoc (js key) m) as [x|] eqn:E; [|done].
  assert (exists p, find_rule (js key) (kw_properties (keywords_of warning_rule)) = Some (Rule p) /\ SchemaPaths.kinds p = Some [Some KdStr; Some KdNull]) as (p & Hf & Hp).
  { destruct Hk as [<-|[<-|[<-|[<-|[]]]]]; (eexists; split; reflexivity). }
  pose proof (satisfies_kinds _ _ _ (satisfies_property (keywords_of warning_rule) _ _ _ _ Hr E Hf) Hp) as [Hx|[Hx|[]]].
  - destruct x; try done. by eexists.
  - destruct x; done.
Qed.

Lemma jsonCode_judged v : judged (jsonCode v).
Proof. unfold jsonCode. destruct (List.find _ _) as [[]|]; done. Qed.

Lemma parsedField_judged s : judged (parsedField (JStr s)).
Proof. unfold parsedField. by destruct (JSON_parse s). Qed.

Lemma sideCode_judged v key :
  satisfies event_rule v = true -> says (prop v "event") "mismatchWarning" = true -> In key ["cachedValueJson"; "sourceValueJson"] ->
  judged (sideCode v key true).
Proof.
  intros Hv Hs Hk. unfold sideCode. destruct (hasOwn v key) eqn:Ho; [|done]. cbn [negb]. destruct (is_null (prop v key)) eqn:Hn; [done|].
  destruct (warning_text v key Hv Hs) as (s & ->); [destruct Hk as [<-|[<-|[]]]; [left|right; left]; reflexivity|exact Ho|exact Hn|]. cbn [andb].
  apply judged_bind; [apply parsedField_judged|intros; apply jsonCode_judged].
Qed.

Lemma project_entry_judged e : judged (project_entry e).
Proof.
  unfold project_entry, sideCode. cbn [andb]. repeat (apply judged_bind; [|intros ? _]); rewrite ?andb_false_r; try done;
    (destruct (hasOwn e _); [apply jsonCode_judged|done]).
Qed.

(** A warning with a numeric age. *)
Definition aged_warning (event : jsval) : Prop := exists n, prop event "cachedValueAgeSeconds" = JNum n.

Lemma projectWarning_judged v :
  satisfies event_rule v = true -> says (prop v "event") "mismatchWarning" = true -> aged_warning v -> judged (projectWarning v).
Proof.
  intros Hv Hs (age & Ha). unfold projectWarning. rewrite Ha.
  set (paths := hasOwn v "mismatchPathsJson"). set (diff := if hasOwn v "diffJson" then "values" else if paths then "paths" else "off").
  set (diffNull := paths && is_null (prop v "mismatchPathsJson")). cbv zeta.
  apply judged_bind; [apply judged_domain|]. intros [] Hdom.
  unfold assertObservedDomain in Hdom. destruct (_ && _ && _) eqn:Hd in Hdom; [|discriminate Hdom]. clear Hdom.
  set (listed := negb (String.eqb diff "off") && negb diffNull).
  assert (listed = true -> exists s, prop v "mismatchPathsJson" = JStr s) as Hpaths.
  { intros [Hoff Hnull]%andb_true_iff. apply warning_text; [exact Hv|exact Hs|simpl; tauto| |].
    - unfold diff in *. unfold paths in *. destruct (hasOwn v "diffJson"), (hasOwn v "mismatchPathsJson"); try done.
      cbn in Hd. rewrite andb_false_r in Hd. done.
    - unfold diffNull in Hnull. apply negb_true_iff, andb_false_iff in Hnull as [Hp|Hp]; [|done].
      unfold diff in *. unfold paths in *. rewrite Hp in *. destruct (hasOwn v "diffJson"); [|done]. cbn in Hd. rewrite andb_false_r in Hd. done. }
  assert (listed && String.eqb diff "values" = true -> exists s, prop v "diffJson" = JStr s) as Hentries.
  { intros [Hl Hval]%andb_true_iff. apply warning_text; [exact Hv|exact Hs|simpl; tauto| |].
    - unfold diff in Hval. by destruct (hasOwn v "diffJson"), paths.
    - unfold listed in Hl. apply andb_true_iff in Hl as [Hoff Hnull]. apply negb_true_iff in Hoff, Hnull. rewrite Hoff, Hval, Hnull in Hd.
      cbn in Hd. apply andb_true_iff in Hd as [_ Hd]. apply andb_true_iff in Hd as [_ Hd]. by destruct (is_null (prop v "diffJson")). }
  apply judged_bind; [unfold call_when; destruct listed; [destruct (Hpaths eq_refl) as (s & ->); apply parsedField_judged|done]|]. intros ps _.
  apply judged_bind; [unfold call_when; destruct (listed && _); [destruct (Hentries eq_refl) as (s & ->); apply parsedField_judged|done]|]. intros es _.
  apply judged_bind; [apply judged_domain|]. intros [] _.
  apply judged_bind; [apply sideCode_judged; [exact Hv|exact Hs|simpl; tauto]|]. intros ? _.
  apply judged_bind; [apply sideCode_judged; [exact Hv|exact Hs|simpl; tauto]|]. intros ? _.
  apply judged_bind; [apply judged_map; intros; apply project_entry_judged|done].
Qed.

(** *** The loops over the events *)

Ltac known := solve [simpl; tauto].

Lemma read_event_judged p log v : satisfies event_rule v = true -> judged (read_event p log v).
Proof.
  intros Hv. unfold read_event. destruct (says (prop v "event") "readContext") eqn:E1.
  { apply judged_bind; [apply judged_equal|]. intros _ _. apply judged_bind; [apply judged_equal|]. intros _ _.
    destruct (event_number "readContext" "timeoutMs" v ltac:(known) Hv E1) as (n & ->). apply judged_ok. }
  destruct (says (prop v "event") "readAbort") eqn:E2.
  { destruct (event_number "readAbort" "index" v ltac:(known) Hv E2) as (n & ->). apply judged_ok. }
  destruct (pf_diagnosticAge p); [apply judged_ok|]. destruct (event_option v Hv) as (m & o & c & _ & _ & _ & _ & ->). apply judged_partial.
Qed.

(** The kinds of age a profile compares. *)
Definition known_age (age : string) : Prop := In age ["shadowAge"; "recoveryAge"; "none"].

Lemma no_such_event v : satisfies event_rule v = true -> says (prop v "event") "none" = false.
Proof.
  intros Hv. destruct (event_option v Hv) as (m & o & c & -> & Hin & _ & Ec & ->).
  assert (forallb (fun o => negb (str_eqb (kind_text o) (js "none"))) (alternatives event_rule) = true) as H by (vm_compute; reflexivity).
  pose proof (forallb_In _ _ _ H Hin) as Hn. cbn beta in Hn. unfold kind_text in Hn. rewrite Ec in Hn. by apply negb_true_iff in Hn.
Qed.

Lemma age_seconds v age : known_age age -> satisfies event_rule v = true -> says (prop v "event") age = true -> exists n, prop v "seconds" = JNum n.
Proof.
  intros [<-|[<-|[<-|[]]]] Hv Hs.
  - exact (event_number "shadowAge" "seconds" v ltac:(known) Hv Hs).
  - exact (event_number "recoveryAge" "seconds" v ltac:(known) Hv Hs).
  - by rewrite (no_such_event v Hv) in Hs.
Qed.

Lemma assert_equal_text v s : Effects.assert_equal v (JStr s) = Ok tt -> v = JStr s.
Proof.
  unfold Effects.assert_equal, isDeepStrictEqual. destruct (json_eqb v (JStr s)) eqn:E; [|done]. intros _. destruct v; try done.
  cbn in E. by apply str_eqb_eq in E as ->.
Qed.

(** What the driver must report for the two checks the schema leaves open. *)
Definition reported (p : profile) (v : jsval) : Prop :=
  (pf_diagnosticWarnings p = true -> says (prop v "event") "mismatchWarning" = true -> aged_warning v) /\
  (pf_diagnosticInspections p = true -> says (prop v "event") "coalescingState" = true -> known_instance v).

Lemma diagnostic_event_judged p age outcomes l v :
  known_age age -> wire_value v = true -> satisfies event_rule v = true -> reported p v -> judged (diagnostic_event p age outcomes l v).
Proof.
  intros Hage Hw Hv [Hwarn Hinsp]. unfold diagnostic_event. cbv zeta.
  destruct (pf_diagnosticInspections p && _) eqn:E1.
  { apply andb_true_iff in E1 as [Hp Hs]. apply judged_bind; [exact (inspection_judged v Hw Hv Hs (Hinsp Hp Hs))|]. intros; apply judged_ok. }
  destruct (_ && _ && _) eqn:E2; [apply judged_bind; [apply judged_subset|intros; apply judged_ok]|].
  destruct (says (prop v "event") "error" && _) eqn:E3; [apply judged_ok|].
  apply judged_bind; [apply judged_subset|]. intros [] _.
  destruct (says (prop v "event") "coalesced") eqn:E4.
  { destruct (event_text "coalesced" "scope" v ltac:(known) Hv E4) as (s & ->). apply judged_ok. }
  destruct (says (prop v "event") "error") eqn:E5.
  { destruct (says (prop v "error") "fallback"); [|apply judged_ok]. apply judged_bind; [apply judged_equal|]. intros [] _.
    destruct (event_text "error" "layer" v ltac:(known) Hv E5) as (s & ->). apply judged_ok. }
  destruct (says (prop v "event") "futureOffset" && _) eqn:E6.
  { apply andb_true_iff in E6 as [Hs _]. destruct (event_text "futureOffset" "layer" v ltac:(known) Hv Hs) as (s & ->).
    destruct (event_number "futureOffset" "seconds" v ltac:(known) Hv Hs) as (n & ->).
    apply judged_bind; [apply judged_equal|]. intros [] _. apply judged_bind; [apply judged_domain|]. intros [] _. apply judged_ok. }
  destruct (says (prop v "event") "mismatchWarning") eqn:E7.
  { apply judged_bind; [apply judged_equal|]. intros [] _. destruct (pf_diagnosticWarnings p) eqn:Hp; [|apply judged_ok].
    apply judged_bind; [exact (projectWarning_judged v Hv E7 (Hwarn eq_refl eq_refl))|intros; apply judged_ok]. }
  destruct (says (prop v "event") "shadowMismatchLogging" && _) eqn:E8.
  { apply andb_true_iff in E8 as [Hs _]. destruct (event_text "shadowMismatchLogging" "outcome" v ltac:(known) Hv Hs) as (s & ->). apply judged_ok. }
  apply judged_bind; [apply judged_equal|]. intros [] Hk%assert_equal_text. apply judged_bind; [apply judged_equal|]. intros [] _.
  destruct (age_seconds v age Hage Hv) as (n & ->); [by apply says_spec|apply judged_ok].
Qed.

Lemma marker_event_judged p l v : satisfies event_rule v = true -> judged (marker_event p l v).
Proof.
  intros Hv. unfold marker_event. cbv zeta. destruct (pf_compressionIO p && _) eqn:E1.
  { apply andb_true_iff in E1 as [_ Hs]. apply judged_bind; [apply judged_subset|]. intros [] _.
    destruct (event_text "compression" "outcome" v ltac:(known) Hv Hs) as (s & ->). cbn [is_text negb].
    apply judged_bind; [apply judged_domain|]. intros [] _. apply judged_ok. }
  destruct (negb (pf_markerIO p) || _) eqn:E2; [apply judged_ok|].
  apply orb_false_iff in E2 as [_ Hs%negb_false_iff].
  destruct (event_number "marker" "cutoffMs" v ltac:(known) Hv Hs) as (a & ->). destruct (event_number "marker" "ttlMs" v ltac:(known) Hv Hs) as (b & ->).
  apply judged_ok.
Qed.

(** *** The whole projection *)

Lemma assoc_with_member m name v key : assoc key (with_member m name v) = if str_eqb name key then Some v else assoc key m.
Proof.
  induction m as [|[n w] m IH]; cbn [with_member assoc]; [by destruct (str_eqb name key)|].
  destruct (str_eqb n name) eqn:E; cbn [assoc].
  - apply str_eqb_eq in E as ->. by destruct (str_eqb name key).
  - rewrite IH. destruct (str_eqb n key) eqn:E1; [|done]. apply str_eqb_eq in E1 as ->. destruct (str_eqb name key) eqn:E2; [|done].
    apply str_eqb_eq in E2 as ->. by rewrite (proj2 (str_eqb_eq key key) eq_refl) in E.
Qed.

Lemma assoc_without_member m name key : assoc key (without_member m name) = if str_eqb name key then None else assoc key m.
Proof.
  unfold without_member. induction m as [|[n w] m IH]; cbn [List.filter assoc]; [by destruct (str_eqb name key)|].
  destruct (str_eqb n name) eqn:E; cbn [negb assoc].
  - rewrite IH. apply str_eqb_eq in E as ->. by destruct (str_eqb name key).
  - rewrite IH. destruct (str_eqb n key) eqn:E1; [|done]. apply str_eqb_eq in E1 as ->. destruct (str_eqb name key) eqn:E2; [|done].
    apply str_eqb_eq in E2 as ->. by rewrite (proj2 (str_eqb_eq key key) eq_refl) in E.
Qed.

(** An event the projection can judge. *)
Definition fair (p : profile) (v : jsval) : Prop := wire_value v = true /\ satisfies event_rule v = true /\ reported p v.

Definition fair_calls (m : list (jsstr * jsval)) : Prop := forall c, In c (items_of (member m "calls")) -> satisfies call_rule c = true.

(** A record with fair calls and, when it has any, fair events. *)
Definition fair_record (p : profile) (m : list (jsstr * jsval)) : Prop :=
  fair_calls m /\ forall v, assoc (js "events") m = Some v -> forall e, In e (items_of v) -> fair p e.

Lemma feature_project_judged m : fair_calls m -> judged (feature_project m).
Proof. intros H. apply judged_bind; [|intros; apply judged_ok]. apply judged_map. intros c Hc. exact (call_code_judged c (H c Hc)). Qed.

Lemma fair_without p m : fair_record p m -> fair_record p (without_member m (js "events")).
Proof.
  intros [Hc _]. split; [|by intros v; rewrite assoc_without_member]. intros c. unfold member. rewrite assoc_without_member. exact (Hc c).
Qed.

Lemma fair_with p m l : fair_record p m -> (forall e, In e l -> fair p e) -> fair_record p (with_member (without_member m (js "events")) (js "events") (JArr l)).
Proof.
  intros [Hc _] Hl. split.
  - intros c. unfold member. rewrite assoc_with_member, assoc_without_member. exact (Hc c).
  - intros v. rewrite assoc_with_member. by intros [= <-].
Qed.

Lemma diagnostics_judged p m :
  (forall age, pf_diagnosticAge p = Some age -> known_age age /\ has_member m (js "events") = true) -> fair_record p m -> judged (project_diagnostics p m).
Proof.
  intros Hage Hm. unfold project_diagnostics. destruct (pf_diagnosticAge p) as [age|].
  - destruct (Hage age eq_refl) as [Hk He]. unfold has_member in He. destruct (assoc (js "events") m) as [events|] eqn:E; [|done].
    apply judged_bind.
    + apply judged_fold. intros l e Hin. destruct (proj2 Hm events E e Hin) as (Hw & Hv & Hr). by apply diagnostic_event_judged.
    + intros l _. apply judged_bind; [apply feature_project_judged, (fair_without p m Hm)|intros; apply judged_ok].
  - apply judged_bind; [apply feature_project_judged, Hm|intros; apply judged_ok].
Qed.

(** The events a loop keeps are events it was given. *)
Lemma fold_kept {A B} (f : A -> B -> projected A) (kept : A -> list B) acc l acc' :
  (forall a x a', f a x = Ok a' -> kept a' = kept a \/ kept a' = kept a ++ [x]) ->
  fold_projected f acc l = Ok acc' -> forall x, In x (kept acc') -> In x (kept acc) \/ In x l.
Proof.
  intros Hf. revert acc. induction l as [|y l IH]; intros acc; cbn [fold_projected]; [intros [= <-]; auto|].
  intros (a & Ha & H)%result_bind_ok x Hx. destruct (IH a H x Hx) as [Hin|Hin]; [|by right; right].
  destruct (Hf _ _ _ Ha) as [E|E]; rewrite E in Hin; [by left|]. apply in_app_iff in Hin as [Hin|[->|[]]]; [by left|by right; left].
Qed.

Lemma read_event_keeps p a x a' : read_event p a x = Ok a' -> rl_diagnostics a' = rl_diagnostics a \/ rl_diagnostics a' = rl_diagnostics a ++ [x].
Proof.
  unfold read_event. intros H. destruct (says _ "readContext").
  { apply result_bind_ok in H as (? & _ & H). apply result_bind_ok in H as (? & _ & H). destruct (prop x "timeoutMs"); try done. injection H as <-. by left. }
  destruct (says _ "readAbort"); [destruct (prop x "index"); try done; injection H as <-; by left|].
  destruct (pf_diagnosticAge p); [injection H as <-; by right|by destruct (is_text _)].
Qed.

Lemma marker_event_keeps p a x a' : marker_event p a x = Ok a' -> ml_events a' = ml_events a \/ ml_events a' = ml_events a ++ [x].
Proof.
  unfold marker_event. cbv zeta. intros H. destruct (pf_compressionIO p && _).
  { apply result_bind_ok in H as (? & _ & H). destruct (negb _); [done|]. apply result_bind_ok in H as (? & _ & H). injection H as <-. by left. }
  destruct (negb (pf_markerIO p) || _); [injection H as <-; by right|].
  destruct (prop x "cutoffMs"), (prop x "ttlMs"); try done. injection H as <-. by left.
Qed.

Definition has_events (m : list (jsstr * jsval)) : Prop := has_member m (js "events") = true.

Lemma base_judged p m :
  (forall age, pf_diagnosticAge p = Some age -> known_age age /\ has_events m) -> (pf_readIO p = true -> has_events m) ->
  fair_record p m -> judged (projectBaseObservation p m).
Proof.
  intros Hage Hread Hm. unfold projectBaseObservation. destruct (pf_readIO p); [|by apply diagnostics_judged].
  specialize (Hread eq_refl). unfold has_events, has_member in Hread. destruct (assoc (js "events") m) as [events|] eqn:E; [|done].
  apply judged_bind; [apply judged_map; intros c Hc; exact (source_error_judged c (proj1 Hm c Hc))|]. intros errors _.
  apply judged_bind; [apply judged_fold; intros a e Hin; exact (read_event_judged p a e (proj1 (proj2 (proj2 Hm events E e Hin))))|]. intros log Hlog.
  apply judged_bind; [|intros; apply judged_ok]. destruct (pf_diagnosticAge p) as [age|] eqn:Ea.
  - apply diagnostics_judged.
    + intros age' Hage'. rewrite Ea in Hage'. injection Hage' as <-. split; [by apply (Hage age)|]. unfold has_member. by rewrite assoc_with_member.
    + apply fair_with; [done|]. intros e He.
      destruct (fold_kept _ rl_diagnostics _ _ _ (read_event_keeps p) Hlog e He) as [[]|Hin]. exact (proj2 Hm events E e Hin).
  - apply judged_bind; [apply feature_project_judged, (fair_without p m Hm)|intros; apply judged_ok].
Qed.

(** The parts of a profile that are read from the events. *)
Definition observes (p : profile) : bool :=
  pf_policyErrorIO p || pf_markerIO p || pf_compressionIO p || pf_readIO p || match pf_diagnosticAge p with Some _ => true | None => false end.

(** What the projection relies on in a profile. *)
Definition coherent (p : profile) : bool :=
  (negb (pf_policyErrorIO p) || negb (pf_readIO p) && match pf_diagnosticAge p with Some _ => false | None => true end) &&
  match pf_diagnosticAge p with Some age => existsb (String.eqb age) ["shadowAge"; "recoveryAge"; "none"] | None => true end.

Lemma catalog_coherent n p : In (n, p) Catalog.profiles -> coherent p = true.
Proof.
  assert (forallb (fun '(_, p) => coherent p) Catalog.profiles = true) as H by (vm_compute; reflexivity).
  intros Hin. exact (forallb_In _ _ _ H Hin).
Qed.

Lemma coherent_age p age : coherent p = true -> pf_diagnosticAge p = Some age -> known_age age.
Proof.
  unfold coherent. intros [_ H]%andb_true_iff E. rewrite E in H. apply existsb_exists in H as (x & Hx & ->%String.eqb_eq). exact Hx.
Qed.

Lemma projection_judged p m :
  coherent p = true -> (observes p = true -> has_events m) -> fair_record p m -> judged (projectObservation p m).
Proof.
  intros Hco Hev Hm. pose proof (coherent_age p) as Hage. unfold projectObservation, observes in *.
  destruct (pf_policyErrorIO p) eqn:Ep.
  - specialize (Hev eq_refl). unfold has_events, has_member in Hev. destruct (assoc (js "events") m) as [events|] eqn:E; [|done].
    apply judged_bind; [apply judged_map; intros; apply judged_subset|]. intros _ _.
    apply judged_bind; [|intros; apply judged_ok]. unfold coherent in Hco. rewrite Ep in Hco. cbn [negb orb] in Hco.
    apply andb_true_iff in Hco as [[Hr Ha]%andb_true_iff _]. apply negb_true_iff in Hr. apply base_judged.
    + intros age Hage'. by rewrite Hage' in Ha.
    + by rewrite Hr.
    + by apply fair_without.
  - destruct (negb (pf_markerIO p) && negb (pf_compressionIO p)) eqn:Emc.
    + apply andb_true_iff in Emc as [Hmk%negb_true_iff Hcp%negb_true_iff]. rewrite Hmk, Hcp in Hev. cbn [orb] in Hev. apply base_judged; [| |done].
      * intros age E. split; [by apply Hage|]. apply Hev. rewrite E. apply orb_true_r.
      * intros E. apply Hev. by rewrite E.
    + assert (has_events m) as He by (apply Hev; destruct (pf_markerIO p), (pf_compressionIO p); done).
      unfold has_events, has_member in He. destruct (assoc (js "events") m) as [events|] eqn:E; [|done].
      apply judged_bind; [apply judged_fold; intros a e Hin; exact (marker_event_judged p a e (proj1 (proj2 (proj2 Hm events E e Hin))))|].
      intros l Hl. apply judged_bind; [|intros; apply judged_ok]. apply base_judged.
      * intros age Ea. split; [by apply Hage|]. rewrite Ea, orb_true_r. unfold has_events, has_member. by rewrite assoc_with_member.
      * intros ->. cbn [orb]. unfold has_events, has_member. by rewrite assoc_with_member.
      * destruct (pf_readIO p || _); [|by apply fair_without]. apply fair_with; [done|]. intros e Hin.
        destruct (fold_kept _ ml_events _ _ _ (marker_event_keeps p) Hl e Hin) as [[]|Hin']. exact (proj2 Hm events E e Hin').
Qed.

Lemma in_items v x : In x (items_of v) -> exists l, v = JArr l /\ In x l.
Proof. destruct v as [| | | | |l| |]; try done. by exists l. Qed.

Lemma in_member m key x : In x (items_of (member m key)) -> exists l, assoc (js key) m = Some (JArr l) /\ In x l.
Proof.
  unfold member. destruct (assoc (js key) m) as [v|]; [|done]. change (default JUndefined (Some v)) with v. intros (l & -> & Hx)%in_items. by exists l.
Qed.

(** A well-formed observation is a fair record, given what the driver reports. *)
Lemma well_formed_fair p m :
  wire_value (JObj m) = true -> well_formed "behaviorObservation" (JObj m) = true ->
  (forall e, In e (items_of (member m "events")) -> reported p e) -> fair_record p m.
Proof.
  intros Hw Hwf Hr. pose proof (observation_meaning _ Hw Hwf) as Hs. clear Hwf. split.
  - intros c (l & E & Hc)%in_member. exact (listed_items _ _ _ _ _ _ (proj2 observation_items) Hs E Hc).
  - intros v E e (l & -> & He)%in_items. split; [|split].
    + exact (forallb_In _ _ _ (wire_member _ _ _ Hw E) He).
    + exact (listed_items _ _ _ _ _ _ (proj1 observation_items) Hs E He).
    + apply Hr. unfold member. rewrite E. exact He.
Qed.

(** C32. An observation that passed the message schema is always judged on what
    it observed.  For every feature profile, as long as a profile that reads
    events is given them, warnings carry their age where the profile compares
    it and inspections name one of the two instances, the projection and
    comparison of a well-formed observation never end in an infrastructure
    error: the step passes, or it fails on the observed values. *)
Theorem well_formed_observation_is_judged n p s m :
  In (n, p) Catalog.profiles -> wire_value (JObj m) = true -> well_formed "behaviorObservation" (JObj m) = true ->
  (observes p = true -> has_events m) -> (forall e, In e (items_of (member m "events")) -> reported p e) ->
  assertFeatureObservation p s (JObj m) <> AssertFailed.
Proof.
  intros Hin Hw Hwf Hev Hr. pose proof (projection_judged p m (catalog_coherent n p Hin) Hev (well_formed_fair p m Hw Hwf Hr)) as H.
  clear Hw Hwf Hev Hr. unfold assertFeatureObservation, compared_records. destruct (projectObservation p m) as [actual|[]]; [|discriminate|by destruct H].
  destruct (assertObservation _ _) as [[]|]; discriminate.
Qed.

(** An observation of the dark-layers profile with one inspection. *)
Definition sample_observation : list (jsstr * jsval) :=
  members_of (object (("events", JArr [object [("event", JStr (js "coalescingState")); ("instance", JStr (js "0")); ("activeLeaders", JInt 1);
                                                ("activeFollowers", JInt 0); ("oldestLeaderAgeMs", JInt 7)]]) :: emptyObservation false)).

Lemma well_formed_observation_is_judged_witness :
  assertFeatureObservation Catalog.darkLayersProfile
    {| fs_action := JStr (js "inspect"); fs_choice := 0; fs_expected := []; fs_policyErrors := []; fs_diagnostics := []; fs_io := []; fs_markers := [];
       fs_compression := [] |} (JObj sample_observation) <> AssertFailed.
Proof.
  apply (well_formed_observation_is_judged "dark-layers").
  - left. reflexivity.
  - vm_compute. reflexivity.
  - vm_compute. reflexivity.
  - reflexivity.
  - intros e [<-|[]]. split; [discriminate|]. intros _ _. exists (js "0"). split; reflexivity.
Defined.

(** ** What a passed step confirms *)

Definition same_but_events (m b : list (jsstr * jsval)) : Prop := forall key, key <> js "events" -> assoc key b = assoc key m.

Lemma same_without m : same_but_events m (without_member m (js "events")).
Proof. intros key Hk. rewrite assoc_without_member. destruct (str_eqb (js "events") key) eqn:E; [|done]. by apply str_eqb_eq in E as <-. Qed.

Lemma same_with m b v : same_but_events m b -> same_but_events m (with_member b (js "events") v).
Proof.
  intros H key Hk. rewrite assoc_with_member. destruct (str_eqb (js "events") key) eqn:E; [|by apply H]. by apply str_eqb_eq in E as <-.
Qed.

Lemma same_trans m b c : same_but_events m b -> same_but_events b c -> same_but_events m c.
Proof. intros H1 H2 key Hk. by rewrite (H2 key Hk), (H1 key Hk). Qed.

(** [o] is the record [m] without its events, its calls replaced by codes. *)
Definition projects (m : list (jsstr * jsval)) (o : jsval) : Prop :=
  exists b codes, same_but_events m b /\ Effects.map_projected call_code (items_of (member m "calls")) = Ok codes /\
                  o = JObj (with_member b (js "calls") (Effects.ints codes)).

Lemma feature_project_projects m b o : same_but_events m b -> feature_project b = Ok o -> projects m o.
Proof.
  intros Hs (codes & Hc & [= <-])%result_bind_ok. exists b, codes. split; [done|]. split; [|done].
  unfold member in *. by rewrite (Hs (js "calls")) in Hc.
Qed.

Lemma diagnostics_projects p m b actual :
  same_but_events m b -> project_diagnostics p b = Ok actual -> exists o more, actual = ("o", o) :: more /\ projects m o.
Proof.
  intros Hs. unfold project_diagnostics. destruct (pf_diagnosticAge p) as [age|].
  - destruct (assoc (js "events") b); [|done]. intros (l & _ & (o & Ho & [= <-])%result_bind_ok)%result_bind_ok.
    do 2 eexists. split; [reflexivity|]. eapply feature_project_projects; [|done]. by eapply same_trans; [|apply same_without].
  - intros (o & Ho & [= <-])%result_bind_ok. do 2 eexists. split; [reflexivity|]. by eapply feature_project_projects.
Qed.

Lemma base_projects p m b actual :
  same_but_events m b -> projectBaseObservation p b = Ok actual -> exists o more, actual = ("o", o) :: more /\ projects m o.
Proof.
  intros Hs. unfold projectBaseObservation. destruct (pf_readIO p); [|by apply diagnostics_projects].
  destruct (assoc (js "events") b); [|done]. intros (errors & _ & (log & _ & (some & Hmore & [= <-])%result_bind_ok)%result_bind_ok)%result_bind_ok.
  assert (exists o more, some = ("o", o) :: more /\ projects m o) as (o & more & -> & Ho); [|by exists o, (more ++ [("io", object
    [("budgets", JArr (rl_budgets log)); ("aborted", JArr (rl_aborted log)); ("sourceErrors", JArr errors)])])].
  destruct (pf_diagnosticAge p).
  - eapply diagnostics_projects; [|done]. apply same_with. by eapply same_trans; [|apply same_without].
  - apply result_bind_ok in Hmore as (o & Ho & [= <-]). do 2 eexists. split; [reflexivity|]. eapply feature_project_projects; [|done].
    by eapply same_trans; [|apply same_without].
Qed.

Lemma projection_projects p m actual : projectObservation p m = Ok actual -> exists o more, actual = ("o", o) :: more /\ projects m o.
Proof.
  unfold projectObservation. destruct (pf_policyErrorIO p).
  - destruct (assoc (js "events") m); [|done]. intros (? & _ & (some & Hs & [= <-])%result_bind_ok)%result_bind_ok.
    destruct (base_projects _ _ _ _ (same_without m) Hs) as (o & more & -> & Ho). by do 2 eexists.
  - destruct (_ && _); [by apply base_projects|]. destruct (assoc (js "events") m); [|done].
    intros (l & _ & (some & Hs & [= <-])%result_bind_ok)%result_bind_ok.
    assert (exists o more, some = ("o", o) :: more /\ projects m o) as (o & more & -> & Ho); [|by do 2 eexists].
    eapply base_projects; [|exact Hs]. destruct (pf_readIO p || _); [|apply same_without]. apply same_with, same_without.
Qed.

Lemma json_eqb_member a b name x : json_eqb (JObj a) (JObj b) = true -> assoc name a = Some x -> exists y, assoc name b = Some y /\ json_eqb x y = true.
Proof.
  cbn [json_eqb]. intros [_ H]%andb_true_iff Hx%assoc_In. pose proof (forallb_In _ _ (name, json_eqb x) H) as Hy. cbn beta iota in Hy.
  destruct (assoc name b) as [y|]; [exists y; split; [done|]; apply Hy|discriminate Hy]; apply in_map_iff; by exists (name, x).
Qed.

(** C33. A step that passes confirms its whole prediction of the public record.
    In every profile every member of the observation other than the events is
    compared, none is dropped by the projection: each equals the predicted
    member, and the outcomes of the calls have exactly the predicted codes. *)
Theorem passed_step_confirms_record p s m :
  assertFeatureObservation p s (JObj m) = Passed ->
  (forall key x, assoc key m = Some x -> key <> js "events" -> key <> js "calls" ->
     exists y, assoc key (fs_expected s) = Some y /\ isDeepStrictEqual x y = true) /\
  exists codes y,
    Effects.map_projected call_code (items_of (member m "calls")) = Ok codes /\
    assoc (js "calls") (fs_expected s) = Some y /\ isDeepStrictEqual (Effects.ints codes) y = true.
Proof.
  unfold assertFeatureObservation, compared_records, assertObservation, isDeepStrictEqual. intros H.
  destruct (projectObservation p m) as [actual|[]] eqn:E; [|discriminate H|discriminate H].
  destruct (projection_projects _ _ _ E) as (o & more & -> & b & codes & Hs & Hc & ->). clear E.
  destruct (json_eqb _ _) eqn:Ee in H; [|done]. clear H.
  destruct (json_eqb_member _ _ (js "o") _ Ee eq_refl) as (y & Hy & Hoy). injection Hy as <-. split.
  - intros key x Hx Hev Hca. apply (json_eqb_member _ _ _ _ Hoy). rewrite assoc_with_member, (Hs key Hev).
    destruct (str_eqb (js "calls") key) eqn:E; [|done]. by apply str_eqb_eq in E as <-.
  - destruct (json_eqb_member _ _ (js "calls") (Effects.ints codes) Hoy) as (y & Hy & Hyc); [by rewrite assoc_with_member|]. by exists codes, y.
Qed.

(** A step of the local-failure profile that observed what it predicts. *)
Lemma passed_step_confirms_record_witness :
  let m := members_of (object (emptyObservation false)) in
  let s := {| fs_action := JStr (js "localFault"); fs_choice := 1; fs_expected := m; fs_policyErrors := []; fs_diagnostics := []; fs_io := [];
              fs_markers := []; fs_compression := [] |} in
  exists y, assoc (js "loaders") (fs_expected s) = Some y /\ isDeepStrictEqual (JInt 0) y = true.
Proof.
  intros m s. destruct (passed_step_confirms_record Catalog.localFailureProfile s m) as [H _]; [vm_compute; reflexivity|].
  apply (H (js "loaders") (JInt 0)); [reflexivity|discriminate|discriminate].
Defined.
