(* ===== verification/ReplayFixtures.v ===== *)
(** * Fixture inputs against the library

    The feature profiles carry numbers and bytes that were computed apart from
    the library: sample numerators of [profiles/runtime-boundaries.mjs] and
    [profiles/shadow-layers.mjs], frames of [profiles/recovery-read.mjs] and
    [profiles/dark-layers.mjs].  Here they meet the models of the library's
    own sampling ([Ramp.v]) and frame codec ([Frame.v]). *)

From S2P Require Import Prelude JsValue Duration Utf8 Config Key Ramp Metrics Frame Json Itf ReplayProfiles ReplayEffects ReplayFeatures ReplayCatalog.

#[local] Open Scope string_scope.
#[local] Open Scope Z_scope.
#[local] Open Scope list_scope.

Import Catalog.

(** ** Cohorts *)

(** The key of a driver's call, in the default namespace and without arguments. *)
Definition driver_key (useCase id : string) (tracked : bool) : res DialCacheKey :=
  new_DialCacheKey {| in_keyType := js "id"; in_id := js id; in_useCase := js useCase; in_args := None; in_namespace := None;
                      in_defaultConfig := None; in_serializer := None; in_trackForInvalidation := Some tracked; in_has_urnPrefix := false |}.

(** The library's hash of what it samples. *)
Definition sampled (key : res DialCacheKey) (suffix : string) : Z :=
  match key with Ok k => to_uint32 (stableHash (urn k ++ js suffix)) | Err _ => -1 end.

Lemma samples_are_hashes :
  sampled (driver_key "Behavior" "1" false) ":local" = localSample /\
  sampled (driver_key "Behavior" "1" false) ":remote" = remoteSample /\
  sampled (driver_key "ShadowLayers" "0" true) ":shadow" = shadowSample.
Proof. vm_compute. repeat split. Qed.

(** The cohort inputs sit on the boundary of the library's sampling: for the
    key a driver calls, the ramp computed for its own sample includes it
    exactly with relation 2, one step above, and not with relations 0 and 1,
    on the local layer, on the remote layer and for shadow validation. *)
Lemma cohort_inputs_sit_on_the_boundary relation local remote shadow :
  cohortRamp localSample relation = Ok local -> cohortRamp remoteSample relation = Ok remote -> cohortRamp shadowSample relation = Ok shadow ->
  exists key dark,
    driver_key "Behavior" "1" false = Ok key /\ driver_key "ShadowLayers" "0" true = Ok dark /\
    Qltb (deterministicRampSample key LOCAL) local = (relation =? 2) /\
    Qltb (deterministicRampSample key REMOTE) remote = (relation =? 2) /\
    Qltb (deterministicShadowRampSample dark) shadow = (relation =? 2).
Proof.
  destruct samples_are_hashes as (Hl & Hr & Hs). unfold sampled in Hl, Hr, Hs.
  destruct (driver_key "Behavior" "1" false) as [key|]; [|discriminate Hl]. destruct (driver_key "ShadowLayers" "0" true) as [dark|]; [|discriminate Hs].
  rewrite <- Hl, <- Hr, <- Hs. intros H1%cohort_boundary H2%cohort_boundary H3%cohort_boundary. exists key, dark.
  split; [done|]. split; [done|]. split; [exact (proj1 H1)|]. split; [exact (proj1 H2)|exact (proj1 H3)].
Qed.

(** ** Frames *)

Lemma stamped stamp : 0 <= stamp <= MAX_SAFE_INTEGER -> stamp_bytes stamp = Ok (be_bytes 8 stamp).
Proof. intros H. unfold stamp_bytes, MAX_SAFE_INTEGER in *. by replace ((0 <=? stamp) && (stamp <? 2 ^ 64)) with true by lia. Qed.

(** The frame a fixture writes is the frame the library writes; with another
    version the library reads a miss it does not classify, and with an unknown
    encoding it refuses the payload. *)
Lemma fixture_frames_are_library_frames stamp frame odd :
  0 <= stamp <= MAX_SAFE_INTEGER -> encodeFrame "1" stamp 0 = Ok frame -> encodeFrame "1" stamp 255 = Ok odd ->
  encodeRedisFrame (PString (js "1")) stamp = Ok frame /\
  decodeRedisReadResult (ReplyBuffer (2 :: tail frame)) = Ok (redisReadMiss mr_unclassified None) /\
  (exists e, decodeRedisReadResult (ReplyBuffer odd) = Err e).
Proof.
  intros Hs. unfold encodeFrame. rewrite (stamped stamp Hs). cbn [mbind result_bind]. intros [= <-] [= <-]. split; [|split].
  - unfold encodeRedisFrame, isValidRedisTimestampMs, JInt. cbn match. rewrite isSafeInteger_of_Z by lia.
    by replace (0 <=? stamp) with true by lia.
  - reflexivity.
  - eexists. reflexivity.
Qed.
