(* ===== verification/ReplayServer.v ===== *)
(** * The replay server

    The outer [dispatch] of [formal/replay/coordinator.mjs] on JSON messages
    (schema of the request, order of the request ids, schema of the response)
    and the loop of its command line: one reply per line of input.  What a
    request does to the sessions is a parameter here ([Coordinator.v] models
    it), and so is the text of an engine's own errors. *)

From S2P Require Import Prelude JsValue Duration Utf8 Config Key Metrics Frame Json JsonText LogText JsonDiff Pattern ReplaySchema SchemaPaths ProtocolSchema ReplayProtocol ReplayText Settlement Coordinator Itf ReplayProfiles ReplayEffects ReplayBindings.

#[local] Open Scope string_scope.
#[local] Open Scope Z_scope.
#[local] Open Scope list_scope.

#[local] Opaque protocol_defs protocol_depth.

Definition protocolVersion : Z := 1.

(** The text of a failed schema check. *)
Definition schema_text (e : schema_error) : jsstr := match e with Malformed message => message | SchemaFault _ => js "Unknown replay schema reference" end.

Definition ok_reply (id result : jsval) : jsval :=
  object [("version", JInt protocolVersion); ("id", id); ("ok", JBool true); ("result", result)].

Definition error_reply (id : jsval) (text : jsstr) : jsval :=
  object [("version", JInt protocolVersion); ("id", id); ("ok", JBool false); ("error", JStr text)].

(** [Number.isSafeInteger(request?.id) && request.id > 0 ? request.id : null] *)
Definition reply_id (request : jsval) : jsval :=
  match prop request "id" with
  | JNum n => match isSafeInteger n with Some z => if 0 <? z then JNum n else JNull | None => JNull end
  | _ => JNull
  end.

Section server.
  (** [#dispatch], with the text of what it throws; the text of an engine error. *)
  Context {St : Type} (handle : St -> jsval -> St * result jsstr jsval) (engine_text : exn -> jsstr).

Record server := { sv_lastRequest : Z; sv_state : St }.

Definition dispatch (s : server) (request : jsval) : server * result jsstr jsval :=
  match assertSchema protocol_defs protocol_depth request (js "request") with
  | Err e => (s, Err (schema_text e))
  | Ok _ =>
      let id := int_of (prop request "id") in
      if id <=? sv_lastRequest s then (s, Err (js "Duplicate or out-of-order replay request"))
      else
        let '(st, r) := handle (sv_state s) request in
        let s' := {| sv_lastRequest := id; sv_state := st |} in
        match r with
        | Err text => (s', Err text)
        | Ok result =>
            match assertSchema protocol_defs protocol_depth (ok_reply (prop request "id") result) (js "response") with
            | Err e => (s', Err (schema_text e))
            | Ok _ => (s', Ok result)
            end
        end
  end.

Definition serve_line (s : server) (line : jsstr) : server * jsval :=
  match parseJSON line with
  | Err e => (s, error_reply JNull (engine_text e))
  | Ok request =>
      match dispatch s request with
      | (s', Ok result) => (s', ok_reply (prop request "id") result)
      | (s', Err text) => (s', error_reply (reply_id request) text)
      end
  end.

Fixpoint serve (s : server) (lines : list jsstr) : list jsval :=
  match lines with
  | [] => []
  | line :: rest => let '(s', reply) := serve_line s line in reply :: serve s' rest
  end.

(** ** Error replies *)

Definition response_rule : rule := Eval vm_compute in
  default no_rule (find_rule (js "response") protocol_defs ≫= (fun r => expand protocol_defs protocol_depth r ≫= (fun t => alternatives t !! 1%nat))).

Lemma response_alternatives :
  ((find_rule (js "response") protocol_defs ≫= expand protocol_defs protocol_depth) ≫= (fun t => alternatives t !! 1%nat)) = Some response_rule.
Proof. vm_compute. reflexivity. Qed.

Lemma response_accepts v : wire_value v = true -> satisfies response_rule v = true -> well_formed "response" v = true.
Proof.
  intros Hv Hs. pose proof response_alternatives as H. apply bind_Some in H as (t & Ht & Ho). apply bind_Some in Ht as (r & Hr & He).
  destruct (protocol_definition _ _ Hr) as (t' & He' & Hsim & Hdec). rewrite He in He'. injection He' as <-.
  rewrite (well_formed_meaning "response" r t v Hr He Hv). clear Hr He. destruct t as [k].
  apply list_elem_of_lookup_2, list_elem_of_In in Ho. destruct (alternatives (Rule k)) as [|o l] eqn:E; [destruct Ho|].
  apply alternatives_cons in E. exact (choice_accepts k (o :: l) response_rule v Hsim Hdec E Ho Hs).
Qed.

(** An id that a reply may carry. *)
Definition id_ok (id : jsval) : Prop :=
  id = JNull \/ exists n z, id = JNum n /\ to_int n = Some z /\ 1 <= z <= MAX_SAFE_INTEGER.

Lemma reply_id_ok request : id_ok (reply_id request).
Proof.
  unfold reply_id, isSafeInteger. destruct (prop request "id") as [| | |n| | | |]; try by left.
  destruct (to_int n) as [z|] eqn:E; [|by left]. destruct (Z.leb_spec (Z.abs z) MAX_SAFE_INTEGER); [|by left].
  destruct (Z.ltb_spec 0 z); [|by left]. right. exists n, z. split; [done|]. split; [done|lia].
Qed.

(** What evaluating a rule leaves to prove about an id and a text. *)
Lemma id_bounds n z : to_int n = Some z -> 1 <= z <= MAX_SAFE_INTEGER -> num_leb (of_Z 1) n = true /\ num_leb n (of_Z MAX_SAFE_INTEGER) = true.
Proof. intros Hn Hz. rewrite (proj1 (to_int_num_leb n z 1 Hn)), (proj2 (to_int_num_leb n z MAX_SAFE_INTEGER Hn)), !Z.leb_le. lia. Qed.

Lemma text_bound text : text <> [] -> num_leb (of_Z 1) (length_of (code_points text)) = true.
Proof.
  intros Ht. unfold length_of. rewrite num_leb_of_Z. assert (code_points text <> []) by (by rewrite code_points_nil).
  apply Z.leb_le. destruct (code_points text); [done|]. cbn [length]. lia.
Qed.

Lemma error_reply_valid id text : id_ok id -> text <> [] -> well_formed "response" (error_reply id text) = true.
Proof.
  intros Hid Ht. apply text_bound in Ht. change (of_Z 1) with (Fin 1) in Ht. apply response_accepts.
  - destruct Hid as [->|(n & z & -> & Hn & _)]; [reflexivity|]. cbn. destruct n; try done.
  - destruct Hid as [->|(n & z & -> & Hn & Hz)]; cbv -[to_int num_leb code_points length_of]; rewrite Ht; [reflexivity|].
    destruct (id_bounds n z Hn Hz) as [H1 H2]. change (of_Z 1) with (Fin 1) in H1. change (of_Z MAX_SAFE_INTEGER) with (Fin 9007199254740991) in H2.
    rewrite Hn, H1, H2. reflexivity.
Qed.

Lemma schema_text_some e definition value : assertSchema protocol_defs protocol_depth value (js definition) = Err e -> schema_text e <> [].
Proof.
  unfold assertSchema. intros H. destruct e as [m|]; [|done]. simpl. intros ->.
  by repeat case_match.
Qed.

(** ** Accepted requests *)

Definition accepted (replies : list jsval) : list Z :=
  omap (fun r => if strict_eq (prop r "ok") (JBool true) then Some (int_of (prop r "id")) else None) replies.

Lemma accepted_ok id result replies : accepted (ok_reply id result :: replies) = int_of id :: accepted replies.
Proof. reflexivity. Qed.

Lemma accepted_error id text replies : accepted (error_reply id text :: replies) = accepted replies.
Proof. reflexivity. Qed.

(** A refused request leaves the ids where they are or moves them forward; an
    accepted one is above them and its reply fits the schema. *)
Lemma dispatch_ids s request s' r :
  dispatch s request = (s', r) ->
  sv_lastRequest s <= sv_lastRequest s' /\
  forall result, r = Ok result ->
    well_formed "response" (ok_reply (prop request "id") result) = true /\
    int_of (prop request "id") = sv_lastRequest s' /\ sv_lastRequest s < sv_lastRequest s'.
Proof.
  unfold dispatch. intros H. case_match; [|injection H as <- <-; split; [lia|done]].
  destruct (Z.leb_spec (int_of (prop request "id")) (sv_lastRequest s)); [injection H as <- <-; split; [lia|done]|].
  destruct (handle (sv_state s) request) as [st [result|text]] eqn:Eh; [|injection H as <- <-; split; [simpl; lia|done]].
  destruct (assertSchema _ _ (ok_reply _ _) _) eqn:Ea; injection H as <- <-; (split; [simpl; lia|]); [|done].
  intros ? [= <-]. split; [|simpl; lia]. unfold well_formed. unfold assertSchema in Ea. by repeat case_match.
Qed.

Lemma dispatch_texts s request s' text :
  (forall st r e, snd (handle st r) = Err e -> e <> []) -> dispatch s request = (s', Err text) -> text <> [].
Proof.
  intros Hh. unfold dispatch. intros H. case_match eqn:E; [clear E|injection H as <- <-; by eapply schema_text_some].
  case_match; [by injection H as <- <-|].
  destruct (handle (sv_state s) request) as [st [result|t]] eqn:Eh; [|injection H as <- <-; by apply (Hh (sv_state s) request); rewrite Eh].
  destruct (assertSchema _ _ (ok_reply _ _) _) eqn:Ea; [done|]. injection H as <- <-. by eapply schema_text_some.
Qed.

(** C34. Whatever the lines a driver sends, malformed JSON included, the server
    writes exactly one reply per line; every reply, the errors too, satisfies
    the [response] definition of the protocol schema, as long as no error of
    the engine or of a request has an empty message; and the ids of the
    requests it accepted strictly increase, so no request is answered twice. *)
Theorem every_line_is_answered s lines :
  (forall st r text, snd (handle st r) = Err text -> text <> []) -> (forall e, engine_text e <> []) ->
  length (serve s lines) = length lines /\
  Forall (fun reply => well_formed "response" reply = true) (serve s lines) /\
  StronglySorted Z.lt (sv_lastRequest s :: accepted (serve s lines)).
Proof.
  intros Hh He. revert s. induction lines as [|line lines IH]; intros s; [by repeat constructor|].
  cbn [serve]. destruct (serve_line s line) as [s' reply] eqn:E. destruct (IH s') as (Hl & Hw & Hs). clear IH.
  assert (well_formed "response" reply = true /\ sv_lastRequest s <= sv_lastRequest s' /\
    forall replies, (accepted (reply :: replies) = accepted replies) \/
      (accepted (reply :: replies) = sv_lastRequest s' :: accepted replies /\ sv_lastRequest s < sv_lastRequest s')) as (Hr & Hle & Hids).
  { unfold serve_line in E. destruct (parseJSON line) as [request|e]; [|injection E as <- <-; split_and!; [|lia|by left]].
    - destruct (dispatch s request) as [s1 [result|text]] eqn:Ed; injection E as <- <-; destruct (dispatch_ids _ _ _ _ Ed) as [Hle Hok].
      + destruct (Hok result eq_refl) as (Hw' & Hid & Hlt). split; [exact Hw'|]. split; [done|]. intros replies. right. by rewrite accepted_ok, Hid.
      + split_and!; [|done|by left]. apply error_reply_valid; [apply reply_id_ok|by eapply dispatch_texts].
    - by apply error_reply_valid; [left|]. }
  split_and!; [by simpl; rewrite Hl|by constructor|].
  apply StronglySorted_inv in Hs as [Hs Hall].
  destruct (Hids (serve s' lines)) as [->|[-> Hlt]]; constructor.
  - done.
  - revert Hall. apply List.Forall_impl. lia.
  - by constructor.
  - constructor; [done|]. revert Hall. apply List.Forall_impl. lia.
Qed.
End server.

(** A session table with one session, discarded once. *)
Definition discard_once (open : bool) (request : jsval) : bool * result jsstr jsval :=
  if strict_eq (prop request "op") (JStr (js "discard")) && open then (false, Ok (object [("discarded", JBool true)]))
  else (open, Err (js "Unknown replay session")).

Definition line_of (v : jsval) : jsstr := match JSON_stringify (fun _ => Ok None) v with Ok (Some t) => t | _ => [] end.

Definition sample_lines : list jsstr := Eval vm_compute in
  [js "{"; line_of (object [("version", JInt 1); ("id", JInt 1); ("op", JStr (js "discard")); ("session", JStr (js "1"))]);
   line_of (object [("version", JInt 1); ("id", JInt 1); ("op", JStr (js "discard")); ("session", JStr (js "1"))]);
   line_of (object [("version", JInt 1); ("id", JInt 2); ("op", JStr (js "discard")); ("session", JStr (js "1"))])].

Lemma every_line_is_answered_witness :
  let replies := serve discard_once (fun _ => js "bad line") {| sv_lastRequest := 0; sv_state := true |} sample_lines in
  length replies = 4%nat /\ accepted replies = [1] /\ StronglySorted Z.lt (0 :: accepted replies).
Proof.
  intros replies.
  destruct (every_line_is_answered discard_once (fun _ => js "bad line") {| sv_lastRequest := 0; sv_state := true |} sample_lines)
    as (Hl & _ & Hs).
  - intros st r text. unfold discard_once. case_match; simpl; [discriminate|]. intros [= <-]. discriminate.
  - discriminate.
  - split; [exact Hl|]. split; [vm_compute; reflexivity|exact Hs].
Defined.
