(* ===== verification/Witness.v ===== *)
(** * Witness credits

    The engine of [formal/replay/witnesses/]: the recorder every classifier
    credits its labels through ([recorder.mjs]), the decoding of recorded
    states ([trace.mjs]), the labels of the actions ([labels.mjs]) and the
    classifier for rules that name a prefix of commands and what must be
    observed at checkpoints of it ([public-prefix.mjs]).  What the recorder
    holds is related to the histories themselves: a label is credited for a
    history exactly when the history satisfies the rule. *)

From S2P Require Import Prelude JsValue Duration Utf8 Config Key Metrics Frame Json JsonText LogText JsonDiff Pattern Itf Divergence ReplayProfiles ReplayEffects ReplayFeatures.
#[local] Open Scope string_scope.
#[local] Open Scope Z_scope.
#[local] Open Scope list_scope.
Import Features.

(** ** The recorder *)

(** [basename] of node's posix paths: slashes at the end do not count. *)
Definition basename (path : jsstr) : jsstr :=
  rev (fst (span (fun c => negb (c =? 47)) (snd (span (fun c => c =? 47) (rev path))))).

(** [credits], a map of maps of sets in insertion order, and the locals
    [history] and [current]. *)
Record recorder := Recorder {
  rc_credits : list (jsstr * list (jsstr * list nat));
  rc_history : option jsstr;
  rc_current : nat
}.

Definition createWitnessRecorder : recorder := Recorder [] None 0.

(** [map.get(key)] after it was set to [none] if it was missing, updated. *)
Fixpoint map_update {A} (key : jsstr) (none : A) (f : A -> A) (m : list (jsstr * A)) : list (jsstr * A) :=
  match m with
  | [] => [(key, f none)]
  | (k, v) :: m => if str_eqb k key then (k, f v) :: m else (k, v) :: map_update key none f m
  end.

(** [recorded.add(step)] *)
Definition add_step (recorded : list nat) (step : nat) : list nat :=
  if existsb (Nat.eqb step) recorded then recorded else recorded ++ [step].

Definition enter (path : jsstr) (r : recorder) : res recorder :=
  if bool_decide (path = []) then Err (PlainError "A witness history needs a path")
  else Ok (Recorder (rc_credits r) (Some (basename path)) 0).

Definition step_to (index : nat) (r : recorder) : recorder := Recorder (rc_credits r) (rc_history r) index.

(** [credit(label, ...steps)] *)
Definition credit (label : jsstr) (steps : list nat) (r : recorder) : res recorder :=
  if bool_decide (label = []) then Err (PlainError "A witness label must be a nonempty string")
  else
    match rc_history r with
    | None => Err (PlainError "credited outside a history")
    | Some history =>
        let steps := match steps with [] => [rc_current r] | _ => steps end in
        Ok (Recorder (map_update label [] (map_update history [] (fun recorded => fold_left add_step steps recorded)) (rc_credits r))
              (rc_history r) (rc_current r))
    end.

Definition labels_of (r : recorder) : list jsstr := List.map fst (rc_credits r).

Definition provenance (r : recorder) : list (jsstr * list (jsstr * list nat)) :=
  List.map (fun '(label, histories) => (label, List.map (fun '(name, steps) => (name, merge_sort Nat.le steps)) histories)) (rc_credits r).

(** ** Recorded states *)

(** A history: its path, its parsed steps and its raw states. *)
Record history := History { h_path : jsstr; h_steps : list feature_step; h_states : list jsval }.

Definition traceStates (raw : jsval) : res (list jsval) :=
  parsed ← record raw;
  match member parsed "states" with JArr states => Ok states | _ => Err (trace_error "missing witness states") end.

Definition explicitInput (state : jsval) : res (jsstr * Z) :=
  state ← record state;
  input ← record (member state "input");
  match member input "name" with
  | JStr name => choice ← itfSignedInteger (member input "choice"); Ok (name, choice)
  | _ => Err (trace_error "missing explicit witness input")
  end.

Definition witnessCommand (name : jsstr) (choice : Z) : jsstr := name ++ js ":" ++ String_of_Z choice.

(** An optional minus sign and [0] or digits that do not begin with it. *)
Definition bigint_text : regex := RSeq (RAlt REmpty (literal (js "-"))) (RAlt (literal (js "0")) positive_decimal).

Definition decode_bigint (members : list (jsstr * jsval)) : res jsval :=
  let refused := Err (trace_error "unsafe witness integer") in
  match member members "#bigint" with
  | JStr text =>
      if negb (length (Object_keys members) =? 1)%nat || negb (test bigint_text text) then refused
      else match isSafeInteger (Number_of_text text) with Some n => Ok (JInt n) | None => refused end
  | _ => refused
  end.

Fixpoint decodeIntegers (value : jsval) : res jsval :=
  match value with
  | JArr items =>
      let fix decode_items (items : list jsval) : res (list jsval) :=
        match items with [] => Ok [] | x :: r => y ← decodeIntegers x; ys ← decode_items r; Ok (y :: ys) end in
      items ← decode_items items; Ok (JArr items)
  | JObj members =>
      if has_member members (js "#bigint") then decode_bigint members
      else
        let fix decode_members (members : list (jsstr * jsval)) : res (list (jsstr * jsval)) :=
          match members with [] => Ok [] | (k, x) :: r => y ← decodeIntegers x; ys ← decode_members r; Ok ((k, y) :: ys) end in
        members ← decode_members members; Ok (JObj members)
  | _ => Ok value
  end.

(** [witnessStates]: the states and the decoded predictions. *)
Definition witnessStates (raw : jsval) : res (list jsval * list jsval) :=
  states ← traceStates raw;
  predictions ← map_res (fun state => state ← record state; s ← record (member state "s"); decodeIntegers (JObj s)) states;
  Ok (states, predictions).

(** The parser of [historyParser] for a feature profile. *)
Definition parse_history (p : profile) (path : jsstr) (raw : jsval) : res history :=
  steps ← feature_parseTrace p raw;
  decoded ← witnessStates raw;
  Ok (History path steps (fst decoded)).

(** ** Labels of actions *)

Definition action_text (action : jsval) : jsstr := match action with JStr s => s | _ => [] end.
Definition action_label (action : jsval) : jsstr := js "action:" ++ action_text action.

Fixpoint credit_actions (i : nat) (steps : list feature_step) (r : recorder) : res recorder :=
  match steps with
  | [] => Ok r
  | s :: steps => r ← credit (action_label (fs_action s)) [] (step_to i r); credit_actions (S i) steps r
  end.

(** [for (const history of histories)]: each body enters its history first. *)
Fixpoint for_histories (body : history -> recorder -> res recorder) (histories : list history) (r : recorder) : res recorder :=
  match histories with
  | [] => Ok r
  | h :: histories => r ← enter (h_path h) r; r ← body h r; for_histories body histories r
  end.

Definition actionLabels : list history -> recorder -> res recorder :=
  for_histories (fun h r => credit_actions 0 (h_steps h) r).

(** ** Rules on public prefixes *)

Record checkpoint := Checkpoint {
  ck_step : nat;
  ck_observation : list (jsstr * jsval);
  ck_diagnostics : option (list (jsstr * jsval));
  ck_io : option (list (jsstr * jsval))
}.

Record witness_rule := Rule {
  wr_name : jsstr;
  wr_regression : jsstr;
  wr_commands : list jsstr;
  wr_checkpoints : list checkpoint
}.

(** [Object.entries(expected).every(([key, value]) => isDeepStrictEqual(observed[key], value))] *)
Definition contains (observed expected : list (jsstr * jsval)) : bool :=
  forallb (fun '(key, value) => isDeepStrictEqual (default JUndefined (assoc key observed)) value) expected.

(** The public view of a state. *)
Record public_view := View { v_observation : list (jsstr * jsval); v_diagnostics : jsval; v_io : jsval }.

Definition observe_state (rawState : jsval) : res (jsstr * public_view) :=
  state ← record rawState;
  input ← explicitInput rawState;
  publicState ← record (member state "s");
  o ← decodeIntegers (member publicState "o");
  o ← record o;
  d ← decodeIntegers (member publicState "d");
  io ← decodeIntegers (member publicState "io");
  Ok (witnessCommand (fst input) (snd input), View o d io).

(** [check === undefined || (actual !== undefined && contains(record(actual), check))] *)
Definition channel_holds (actual : jsval) (expected : option (list (jsstr * jsval))) : res bool :=
  match expected with
  | None => Ok true
  | Some expected => if is_undefined actual then Ok false else observed ← record actual; Ok (contains observed expected)
  end.

Definition checkpoint_holds (observations : list public_view) (c : checkpoint) : res bool :=
  match observations !! ck_step c with
  | None => Err (TypeError "Cannot read properties of undefined")
  | Some actual =>
      if negb (contains (v_observation actual) (ck_observation c)) then Ok false
      else
        d ← channel_holds (v_diagnostics actual) (ck_diagnostics c);
        if negb (d : bool) then Ok false else channel_holds (v_io actual) (ck_io c)
  end.

(** [checkpoints.every(...)] *)
Fixpoint every_checkpoint (observations : list public_view) (cs : list checkpoint) : res bool :=
  match cs with
  | [] => Ok true
  | c :: cs => b ← checkpoint_holds observations c; if b : bool then every_checkpoint observations cs else Ok false
  end.

Fixpoint starts_with_commands (expected commands : list jsstr) : bool :=
  match expected, commands with
  | [], _ => true
  | e :: expected, c :: commands => str_eqb e c && starts_with_commands expected commands
  | _ :: _, [] => false
  end.

Fixpoint credit_rules (commands : list jsstr) (observations : list public_view) (rules : list witness_rule) (r : recorder) : res recorder :=
  match rules with
  | [] => Ok r
  | rule :: rules =>
      if negb (starts_with_commands (wr_commands rule) commands) then credit_rules commands observations rules r
      else
        b ← every_checkpoint observations (wr_checkpoints rule);
        r ← (if b : bool then credit (wr_name rule) (List.map ck_step (wr_checkpoints rule)) r else Ok r);
        credit_rules commands observations rules r
  end.

Definition publicPrefixWitnesses (rules : list witness_rule) : list history -> recorder -> res recorder :=
  for_histories (fun h r =>
    observed ← map_res observe_state (h_states h);
    credit_rules (List.map fst observed) (List.map snd observed) rules r).

(** ** What the recorder holds *)

Fixpoint map_get {A} (key : jsstr) (m : list (jsstr * A)) : option A :=
  match m with
  | [] => None
  | (k, v) :: m => if str_eqb k key then Some v else map_get key m
  end.

(** [label] is credited for the history named [name] at [step]. *)
Definition credited (r : recorder) (label name : jsstr) (step : nat) : Prop :=
  exists histories steps, map_get label (rc_credits r) = Some histories /\ map_get name histories = Some steps /\ In step steps.

(** Every label was credited somewhere. *)
Definition backed (r : recorder) : Prop :=
  forall label, In label (labels_of r) -> exists name step, credited r label name step.

Lemma map_get_update {A} key none (f : A -> A) m k :
  map_get k (map_update key none f m) = if str_eqb key k then Some (f (default none (map_get key m))) else map_get k m.
Proof.
  induction m as [|[n v] m IH]; simpl; [by destruct (str_eqb key k)|]. destruct (str_eqb n key) eqn:E; simpl.
  - apply str_eqb_eq in E as ->. by destruct (str_eqb key k).
  - rewrite IH. destruct (str_eqb key k) eqn:Ek; [|done]. apply str_eqb_eq in Ek as <-. by rewrite E.
Qed.

Lemma map_get_In {A} key (m : list (jsstr * A)) : In key (List.map fst m) <-> exists v, map_get key m = Some v.
Proof.
  induction m as [|[n v] m IH]; simpl; [naive_solver|]. rewrite IH. destruct (str_eqb n key) eqn:E.
  - apply str_eqb_eq in E as ->. naive_solver.
  - split; [|naive_solver]. intros [->|H]; [|done]. by rewrite str_eqb_refl in E.
Qed.

Lemma add_steps_In steps recorded c : In c (fold_left add_step steps recorded) <-> In c recorded \/ In c steps.
Proof.
  revert recorded. induction steps as [|s steps IH]; intros recorded; simpl; [tauto|]. rewrite IH. unfold add_step.
  destruct (existsb (Nat.eqb s) recorded) eqn:E.
  - apply existsb_exists in E as (x & Hx & ->%Nat.eqb_eq). naive_solver.
  - rewrite in_app_iff. simpl. tauto.
Qed.

(** The steps a call of [credit] records. *)
Definition credit_steps (steps : list nat) (r : recorder) : list nat := match steps with [] => [rc_current r] | _ => steps end.

Lemma credit_spec label steps r r' :
  credit label steps r = Ok r' ->
  exists h, rc_history r = Some h /\ rc_history r' = Some h /\ rc_current r' = rc_current r /\
    forall l n c, credited r' l n c <-> credited r l n c \/ l = label /\ n = h /\ In c (credit_steps steps r).
Proof.
  unfold credit. destruct (bool_decide (label = [])); [done|]. destruct (rc_history r) as [h|] eqn:Eh; [|done].
  intros [= <-]. exists h. repeat (split; [done|]). intros l n c. unfold credited. cbn [rc_credits].
  rewrite map_get_update. fold (credit_steps steps r). destruct (str_eqb label l) eqn:El.
  - apply str_eqb_eq in El as ->. destruct (map_get l (rc_credits r)) as [hs|] eqn:Em; simpl.
    + split.
      * intros (hs' & cs & [= <-] & Hn & Hc). rewrite map_get_update in Hn. destruct (str_eqb h n) eqn:En; [|naive_solver].
        apply str_eqb_eq in En as ->. injection Hn as <-. apply add_steps_In in Hc as [Hc|Hc]; [|naive_solver].
        destruct (map_get n hs) eqn:Eg; [naive_solver|done].
      * intros H. destruct (str_eqb h n) eqn:En.
        -- apply str_eqb_eq in En as ->. eexists _, _. split; [done|]. rewrite map_get_update, str_eqb_refl. split; [done|]. apply add_steps_In.
           destruct H as [(hs' & cs & [= <-] & -> & Hc)|(_ & _ & Hc)]; [by left|by right].
        -- destruct H as [(hs' & cs & [= <-] & Hn & Hc)|(_ & -> & _)]; [|by rewrite str_eqb_refl in En].
           eexists _, cs. split; [done|]. by rewrite map_get_update, En.
    + split.
      * intros (hs' & cs & [= <-] & Hn & Hc). simpl in Hn. destruct (str_eqb h n) eqn:En; [|done].
        apply str_eqb_eq in En as ->. injection Hn as <-. apply add_steps_In in Hc as [[]|Hc]. naive_solver.
      * intros [(hs' & cs & [=] & _)|(_ & -> & Hc)]. eexists _, _. split; [done|]. simpl. rewrite str_eqb_refl. split; [done|].
        apply add_steps_In. by right.
  - split; [naive_solver|]. intros [H|(-> & _)]; [done|]. by rewrite str_eqb_refl in El.
Qed.

(** [r'] is [r] with exactly the credits [P] added. *)
Definition adds (r r' : recorder) (P : jsstr -> jsstr -> nat -> Prop) : Prop :=
  (forall l n c, credited r' l n c <-> credited r l n c \/ P l n c) /\ (backed r -> backed r').

Lemma adds_none r : adds r r (fun _ _ _ => False).
Proof. split; [tauto|done]. Qed.

Lemma adds_trans a b c P Q : adds a b P -> adds b c Q -> adds a c (fun l n s => P l n s \/ Q l n s).
Proof. intros [H1 B1] [H2 B2]. split; [intros; rewrite H2, H1; tauto|auto]. Qed.

Lemma adds_iff a b P Q : (forall l n c, P l n c <-> Q l n c) -> adds a b P -> adds a b Q.
Proof. intros E [H B]. split; [|done]. intros. by rewrite H, E. Qed.

Lemma credit_adds label steps r r' h :
  rc_history r = Some h -> credit label steps r = Ok r' ->
  rc_history r' = Some h /\ rc_current r' = rc_current r /\ adds r r' (fun l n c => l = label /\ n = h /\ In c (credit_steps steps r)).
Proof.
  intros Hh H. destruct (credit_spec _ _ _ _ H) as (h' & E & H1 & H2 & H3). rewrite Hh in E. injection E as <-.
  split; [done|]. split; [done|]. split; [done|]. intros Hb l Hl.
  destruct (decide (l = label)) as [->|Hne].
  - assert (exists c, In c (credit_steps steps r)) as [c Hc] by (destruct steps as [|s steps]; [exists (rc_current r)|exists s]; by left).
    exists h, c. apply H3. by right.
  - assert (In l (labels_of r)) as Hin.
    { revert Hl H. unfold labels_of, credit. destruct (bool_decide (label = [])); [done|]. rewrite Hh. intros Hl [= <-]. revert Hl. simpl.
      rewrite !map_get_In, map_get_update. destruct (str_eqb label l) eqn:E; [by apply str_eqb_eq in E|done]. }
    destruct (Hb l Hin) as (n & c & Hc). exists n, c. apply H3. by left.
Qed.

Lemma credit_total label steps r h : label <> [] -> rc_history r = Some h -> exists r', credit label steps r = Ok r'.
Proof. intros Hl Hh. unfold credit. rewrite bool_decide_eq_false_2, Hh by done. eauto. Qed.

Section Histories.
Context (body : history -> recorder -> res recorder) (B : history -> jsstr -> nat -> Prop).

(** What a classifier credits for a history, in the terms of the history. *)
Definition classifies (h : history) : Prop := forall r r',
  rc_history r = Some (basename (h_path h)) -> rc_current r = O -> body h r = Ok r' ->
  adds r r' (fun l n c => n = basename (h_path h) /\ B h l c).

Lemma for_histories_adds histories : Forall classifies histories -> forall r r',
  for_histories body histories r = Ok r' ->
  adds r r' (fun l n c => exists h, In h histories /\ n = basename (h_path h) /\ B h l c).
Proof.
  induction 1 as [|h histories Hh Hhs IH]; intros r r'; cbn [for_histories].
  { intros [= <-]. eapply adds_iff; [|apply adds_none]. naive_solver. }
  intros (r1 & E1 & (r2 & E2 & E3)%result_bind_ok)%result_bind_ok. unfold enter in E1. destruct (bool_decide (h_path h = [])); [done|].
  injection E1 as <-. apply Hh in E2; [|done|done]. apply IH in E3.
  eapply adds_iff; [|eapply adds_trans; [|exact E3]]; [|split; [|apply E2]; intros l n c; apply (proj1 E2)].
  intros l n c. simpl. split; [naive_solver|]. intros (h' & [<-|Hin] & Hn & Hb); [by left|right; eauto].
Qed.

Lemma for_histories_total histories :
  Forall (fun h => h_path h <> [] /\ forall r, rc_history r = Some (basename (h_path h)) -> exists r', body h r = Ok r') histories ->
  forall r, exists r', for_histories body histories r = Ok r'.
Proof.
  induction 1 as [|h histories [Hp Hh] Hhs IH]; intros r; cbn [for_histories]; [eauto|].
  unfold enter. rewrite bool_decide_eq_false_2 by done. cbn [mbind result_bind].
  destruct (Hh (Recorder (rc_credits r) (Some (basename (h_path h))) 0)) as [r1 E]; [done|]. rewrite E. cbn [mbind result_bind]. apply IH.
Qed.
End Histories.

(** ** Labels of actions *)

Lemma credit_actions_adds steps h : forall i r r',
  rc_history r = Some h -> credit_actions i steps r = Ok r' ->
  adds r r' (fun l n c => n = h /\ exists j s, steps !! j = Some s /\ c = (i + j)%nat /\ l = action_label (fs_action s)).
Proof.
  induction steps as [|s steps IH]; intros i r r' Hh; cbn [credit_actions].
  { intros [= <-]. eapply adds_iff; [|apply adds_none]. intros. split; [done|]. by intros (_ & j & s & Hj & _). }
  intros (r1 & E1 & E2)%result_bind_ok. apply (credit_adds _ _ _ _ h) in E1 as (Hh1 & _ & A1); [|done].
  apply IH in E2; [|done]. eapply adds_iff; [|exact (adds_trans _ _ _ _ _ A1 E2)]. intros l n c. simpl. split.
  - intros [(-> & -> & [<-|[]])|(-> & j & s' & Hj & -> & ->)].
    + split; [done|]. exists O, s. by rewrite Nat.add_0_r.
    + split; [done|]. exists (S j), s'. by rewrite Nat.add_succ_r.
  - intros (-> & [|j] & s' & Hj & -> & ->); simpl in Hj.
    + injection Hj as ->. left. rewrite Nat.add_0_r. auto.
    + right. split; [done|]. exists j, s'. by rewrite Nat.add_succ_r.
Qed.

Lemma credit_actions_total steps h : forall i r, rc_history r = Some h -> exists r', credit_actions i steps r = Ok r'.
Proof.
  induction steps as [|s steps IH]; intros i r Hh; cbn [credit_actions]; [eauto|].
  destruct (credit_total (action_label (fs_action s)) [] (step_to i r) h) as [r1 E]; [done|done|]. rewrite E. cbn [mbind result_bind].
  apply credit_adds with (h := h) in E as [E _]; [|done]. by apply IH.
Qed.

Definition took (h : history) (label : jsstr) (c : nat) : Prop :=
  exists s, h_steps h !! c = Some s /\ label = action_label (fs_action s).

Lemma actionLabels_adds histories r r' :
  actionLabels histories r = Ok r' ->
  adds r r' (fun l n c => exists h, In h histories /\ n = basename (h_path h) /\ took h l c).
Proof.
  apply for_histories_adds. apply list.Forall_forall. intros h _ r0 r1 Hh _ E. eapply adds_iff; [|exact (credit_actions_adds _ _ _ _ _ Hh E)].
  intros l n c. unfold took. naive_solver.
Qed.

Lemma actionLabels_total histories r : Forall (fun h => h_path h <> []) histories -> exists r', actionLabels histories r = Ok r'.
Proof.
  intros H. apply for_histories_total. eapply list.Forall_impl; [exact H|]. intros h Hp. split; [done|]. intros r0 Hh.
  eapply credit_actions_total. exact Hh.
Qed.

(** ** Rules *)

(** The members a rule expects are there, with equal values. *)
Definition agrees (observed expected : list (jsstr * jsval)) : Prop :=
  forall key value, In (key, value) expected -> isDeepStrictEqual (default JUndefined (assoc key observed)) value = true.

Definition channel_agrees (actual : jsval) (expected : option (list (jsstr * jsval))) : Prop :=
  match expected with None => True | Some expected => exists observed, actual = JObj observed /\ agrees observed expected end.

Definition met (observations : list public_view) (c : checkpoint) : Prop :=
  exists view, observations !! ck_step c = Some view /\ agrees (v_observation view) (ck_observation c) /\
    channel_agrees (v_diagnostics view) (ck_diagnostics c) /\ channel_agrees (v_io view) (ck_io c).

(** The history begins with the commands of the rule, and what it observed at
    every checkpoint is what the rule expects there. *)
Definition satisfies (h : history) (rule : witness_rule) : Prop :=
  exists observed, map_res observe_state (h_states h) = Ok observed /\
    wr_commands rule `prefix_of` List.map fst observed /\ Forall (met (List.map snd observed)) (wr_checkpoints rule).

(** A rule is well formed when it has a name and checkpoints, all within its
    commands. *)
Definition rule_ok (rule : witness_rule) : bool :=
  negb (bool_decide (wr_name rule = [])) && negb (bool_decide (wr_checkpoints rule = []))
  && forallb (fun c => (ck_step c <? length (wr_commands rule))%nat) (wr_checkpoints rule).

Lemma contains_agrees observed expected : contains observed expected = true <-> agrees observed expected.
Proof.
  unfold contains, agrees. rewrite forallb_forall. split; [intros H k v Hin; exact (H (k, v) Hin)|intros H [k v] Hin; by apply H].
Qed.

Lemma channel_holds_agrees actual expected b :
  channel_holds actual expected = Ok b -> b = true <-> channel_agrees actual expected.
Proof.
  unfold channel_holds, channel_agrees. destruct expected as [e|]; [|by intros [= <-]].
  destruct actual; simpl; try (intros [= <-]); try done; try (split; [done|by intros (? & ? & _)]).
  rewrite contains_agrees. split; [eauto|]. by intros (m & [= ->] & H).
Qed.

Lemma checkpoint_holds_met observations c b :
  checkpoint_holds observations c = Ok b -> b = true <-> met observations c.
Proof.
  unfold checkpoint_holds, met. destruct (observations !! ck_step c) as [view|]; [|done].
  destruct (contains (v_observation view) (ck_observation c)) eqn:Ec; simpl.
  - apply contains_agrees in Ec. intros (d & Ed & E)%result_bind_ok. apply channel_holds_agrees in Ed. destruct d; simpl in E.
    + apply channel_holds_agrees in E. rewrite E. split; [intros H; exists view; split; [done|]; split; [done|]; split; [by apply Ed|done]|].
      intros (v & [= <-] & _ & _ & H). done.
    + injection E as <-. split; [done|]. intros (v & [= <-] & _ & H & _). apply Ed in H. done.
  - intros [= <-]. split; [done|]. intros (v & [= <-] & H & _). apply contains_agrees in H. congruence.
Qed.

Lemma every_checkpoint_met observations cs b :
  every_checkpoint observations cs = Ok b -> b = true <-> Forall (met observations) cs.
Proof.
  revert b. induction cs as [|c cs IH]; intros b; simpl; [intros [= <-]; split; [constructor|done]|].
  intros (b1 & E1 & E2)%result_bind_ok. apply checkpoint_holds_met in E1. destruct b1.
  - rewrite (IH _ E2), list.Forall_cons. naive_solver.
  - injection E2 as <-. split; [done|]. intros [H _]%list.Forall_cons. apply E1 in H. done.
Qed.

Lemma starts_with_prefix expected commands : starts_with_commands expected commands = true <-> expected `prefix_of` commands.
Proof.
  revert commands. induction expected as [|e expected IH]; intros commands; simpl; [split; [intros _; apply prefix_nil|done]|].
  destruct commands as [|c commands]; [split; [done|intros H; by apply prefix_nil_not in H]|].
  rewrite andb_true_iff, IH, str_eqb_eq. split; [intros [-> H]; by apply prefix_cons|].
  intros H. split; [by apply prefix_cons_inv_1 in H|by apply prefix_cons_inv_2 in H].
Qed.

Lemma credit_rules_adds commands observations rules h : forall r r',
  forallb rule_ok rules = true -> rc_history r = Some h -> credit_rules commands observations rules r = Ok r' ->
  adds r r' (fun l n c => n = h /\ exists rule, In rule rules /\ l = wr_name rule /\ In c (List.map ck_step (wr_checkpoints rule)) /\
    wr_commands rule `prefix_of` commands /\ Forall (met observations) (wr_checkpoints rule)).
Proof.
  induction rules as [|rule rules IH]; intros r r'; cbn [credit_rules forallb].
  { intros _ _ [= <-]. eapply adds_iff; [|apply adds_none]. naive_solver. }
  intros [Hok Hoks]%andb_true_iff Hh. destruct (starts_with_commands (wr_commands rule) commands) eqn:Es; cbn [negb].
  - apply starts_with_prefix in Es. intros (b & Eb & (r1 & E1 & E2)%result_bind_ok)%result_bind_ok. apply every_checkpoint_met in Eb.
    destruct b; [|injection E1 as <-].
    + apply (credit_adds _ _ _ _ h) in E1 as (Hh1 & _ & A1); [|done]. apply (IH _ _ Hoks Hh1) in E2.
      eapply adds_iff; [|exact (adds_trans _ _ _ _ _ A1 E2)]. intros l n c. simpl.
      assert (credit_steps (List.map ck_step (wr_checkpoints rule)) r = List.map ck_step (wr_checkpoints rule)) as ->.
      { unfold rule_ok in Hok. destruct (wr_checkpoints rule); [|done].
        by destruct (negb (bool_decide (wr_name rule = []))). }
      pose proof (proj1 Eb eq_refl) as Hm. naive_solver.
    + apply (IH _ _ Hoks Hh) in E2. eapply adds_iff; [|exact E2]. intros l n c. split; [naive_solver|].
      intros (Hn & x & [<-|Hin] & Hl & Hc & Hp & Hf); [|naive_solver]. apply Eb in Hf. done.
  - intros E2. apply (IH _ _ Hoks Hh) in E2. eapply adds_iff; [|exact E2]. intros l n c. split; [naive_solver|].
    intros (Hn & x & [<-|Hin] & Hl & Hc & Hp & Hf); [|naive_solver]. apply starts_with_prefix in Hp. congruence.
Qed.

Definition earned (rules : list witness_rule) (h : history) (label : jsstr) (c : nat) : Prop :=
  exists rule, In rule rules /\ label = wr_name rule /\ In c (List.map ck_step (wr_checkpoints rule)) /\ satisfies h rule.

Lemma publicPrefix_adds rules histories r r' :
  forallb rule_ok rules = true -> publicPrefixWitnesses rules histories r = Ok r' ->
  adds r r' (fun l n c => exists h, In h histories /\ n = basename (h_path h) /\ earned rules h l c).
Proof.
  intros Hok. apply for_histories_adds. apply list.Forall_forall. intros h _ r0 r1 Hh _ (observed & Eo & E)%result_bind_ok.
  eapply adds_iff; [|exact (credit_rules_adds _ _ _ _ _ _ Hok Hh E)]. intros l n c. unfold earned, satisfies. split.
  - intros (Hn & rule & Hin & Hl & Hc & Hp & Hf). split; [done|]. exists rule. repeat (split; [done|]). exists observed. done.
  - intros (Hn & rule & Hin & Hl & Hc & observed' & Eo' & Hp & Hf). rewrite Eo in Eo'. injection Eo' as <-. naive_solver.
Qed.
