(* ===== verification/WitnessRules.v ===== *)
(** * The public-prefix witness rules

    The rule tables of [formal/replay/witnesses/] whose classifier is
    [publicPrefixWitnesses], as values: [local-failure.mjs],
    [recovery-admission.mjs], [source-budgets.mjs],
    [shadow-read-deadlines.mjs], [shadow-diagnostics.mjs],
    [shadow-layers.mjs] and [dark-layers.mjs].  The abbreviations the tables
    write commands and observations with are expanded. *)

From S2P Require Import Prelude JsValue Duration Utf8 Config Key Metrics Frame Json JsonText LogText JsonDiff Pattern ProtocolSchema Itf Divergence ReplayProfiles ReplayEffects ReplayFeatures Witness.
#[local] Open Scope string_scope.
#[local] Open Scope Z_scope.
#[local] Open Scope list_scope.

(** ** Writing rules *)

Definition text (s : string) : jsval := JStr (js s).
Definition ints (l : list Z) : jsval := JArr (List.map JInt l).
Definition texts (l : list string) : jsval := JArr (List.map text l).
Definition members (l : list (string * jsval)) : list (jsstr * jsval) := List.map (fun '(k, v) => (js k, v)) l.

(** [witnessCommand(name, choice)]; a command without a choice has [-1]. *)
Definition cmd (name : string) (choice : Z) : jsstr := witnessCommand (js name) choice.

(** [publicCheckpoint] and [publicPrefixRule] *)
Definition public_check (step : nat) (observation : list (string * jsval)) (diagnostics io : option (list (string * jsval))) : checkpoint :=
  Checkpoint step (members observation) (members <$> diagnostics) (members <$> io).

Definition prefix_rule (name regression : string) (commands : list jsstr) (checkpoints : list checkpoint) : witness_rule :=
  Rule (js name) (js regression) commands checkpoints.

(** ** The tables *)

Definition localFailureWitnessRules : list witness_rule :=
  [prefix_rule "failed-local-read-preserves-old-value-and-memoizes-remote" "localReadFailureFallsThroughAndPreservesOldLocalTest"
      [cmd "init" (-1); cmd "beginCall" 2; cmd "resolveLoader" 1; cmd "seed" 2; cmd "localFault" 1; cmd "beginCall" 0; cmd
        "localFault" 0; cmd "beginCall" 2; cmd "beginCall" 0]
      [public_check 2 [("calls", ints [1]); ("loaders", JInt 1); ("reads", JInt 1); ("writes", JInt 1)] None None;
       public_check 5 [("calls", ints [1; 2]); ("loaders", JInt 1); ("reads", JInt 2); ("loads", JInt 1); ("writes", JInt 1)] None None;
       public_check 8 [("calls", ints [1; 2; 1; 2]); ("loaders", JInt 1); ("reads", JInt 2); ("writes", JInt 1)] None None];
    prefix_rule "failed-local-read-suppresses-later-source-publication" "localReadFailureSkipsSourcePublicationButMemoizesTest"
      [cmd "init" (-1); cmd "beginCall" 2; cmd "resolveLoader" 1; cmd "policy" 0; cmd "localFault" 1; cmd "beginCall" 0;
        cmd "localFault" 0; cmd "resolveLoader" 2; cmd "beginCall" 2; cmd "beginCall" 0]
      [public_check 5 [("calls", ints [1; 0]); ("loaders", JInt 2); ("reads", JInt 1); ("writes", JInt 1)] None None;
       public_check 7 [("calls", ints [1; 2]); ("loaders", JInt 2); ("reads", JInt 1); ("writes", JInt 1)] None None;
       public_check 9 [("calls", ints [1; 2; 1; 2]); ("loaders", JInt 2); ("reads", JInt 1); ("writes", JInt 1)] None None];
    prefix_rule "failed-local-write-keeps-result-and-request-memo" "localWriteFailureKeepsSourceAndRequestMemoTest"
      [cmd "init" (-1); cmd "beginCall" 0; cmd "localFault" 1; cmd "resolveLoader" 1; cmd "localFault" 0; cmd "policy" 0;
        cmd "beginCall" 0; cmd "beginCall" 2; cmd "resolveLoader" 2; cmd "beginCall" 2]
      [public_check 3 [("calls", ints [1]); ("loaders", JInt 1); ("writes", JInt 1)] None None;
       public_check 7 [("calls", ints [1; 1; 0]); ("loaders", JInt 2); ("reads", JInt 1); ("writes", JInt 1)] None None;
       public_check 9 [("calls", ints [1; 1; 2; 2]); ("loaders", JInt 2); ("reads", JInt 1); ("writes", JInt 1)] None None];
    prefix_rule "rejected-source-preserves-previous-local-publication" "sourceFailureKeepsPreviouslyAcceptedStorageTest"
      [cmd "init" (-1); cmd "beginCall" 2; cmd "resolveLoader" 1; cmd "policy" 0; cmd "localFault" 1; cmd "beginCall" 0;
        cmd "rejectLoader" (-1); cmd "localFault" 0; cmd "beginCall" 2]
      [public_check 2 [("calls", ints [1]); ("writes", JInt 1)] None None;
       public_check 6 [("calls", ints [1; 3]); ("loaders", JInt 2); ("writes", JInt 1)] None None;
       public_check 8 [("calls", ints [1; 3; 1]); ("loaders", JInt 2); ("reads", JInt 1); ("writes", JInt 1)] None None]].

Definition recoveryAdmissionWitnessRules : list witness_rule :=
  [prefix_rule "recovered-absence-skips-selected-shadow-and-memoizes" "recoveredAbsenceSkipsSelectedShadowTest"
      [cmd "init" 2; cmd "seed" 18; cmd "beginCall" 0; cmd "releaseRead" (-1); cmd "rejectLoader" (-1); cmd "releaseLoad"
        (-1); cmd "beginCall" 0; cmd "beginCall" 1; cmd "releaseRead" (-1); cmd "rejectLoader" (-1); cmd "releaseLoad" (-1)]
      [public_check 5 [("calls", ints [5]); ("reads", JInt 1); ("loaders", JInt 1); ("loads", JInt 1); ("classifications", JInt 1); ("recovery", texts
         ["served"]); ("shadow", JArr []); ("dumps", JInt 0); ("writes", JInt 0)] None None;
       public_check 6 [("calls", ints [5; 5]); ("reads", JInt 1); ("loaders", JInt 1); ("loads", JInt 1); ("classifications", JInt 1); ("recovery", texts
         ["served"]); ("shadow", JArr []); ("dumps", JInt 0); ("writes", JInt 0)] None None;
       public_check 10 [("calls", ints [5; 5; 5]); ("reads", JInt 2); ("loaders", JInt 2); ("loads", JInt 2); ("classifications", JInt 2); ("recovery", texts
         ["served"; "served"]); ("shadow", JArr []); ("dumps", JInt 0); ("writes", JInt 0)] None None];
    prefix_rule "recovered-value-skips-selected-shadow-and-memoizes" "recoveredValueSkipsSelectedShadowTest"
      [cmd "init" 2; cmd "seed" 2; cmd "beginCall" 0; cmd "releaseRead" (-1); cmd "rejectLoader" (-1); cmd "releaseLoad" (-1);
        cmd "beginCall" 0]
      [public_check 5 [("calls", ints [1]); ("reads", JInt 1); ("loaders", JInt 1); ("loads", JInt 1); ("classifications", JInt 1); ("recovery", texts
         ["served"]); ("shadow", JArr []); ("dumps", JInt 0); ("writes", JInt 0)] None None;
       public_check 6 [("calls", ints [1; 1]); ("reads", JInt 1); ("loaders", JInt 1); ("loads", JInt 1); ("classifications", JInt 1); ("recovery", texts
         ["served"]); ("shadow", JArr []); ("dumps", JInt 0); ("writes", JInt 0)] None None]].

Definition sourceBudgetsWitnessRules : list witness_rule :=
  [prefix_rule "outside-calls-skip-source-deadlines-sharing-and-publication" "outsideAndInvalidOutsideCallsIgnoreDeadlineAndSharingTest"
      [cmd "init" 2; cmd "beginCall" 1; cmd "beginCall" 3; cmd "advance" 100; cmd "resolveLoader" 1; cmd "resolveLoader" 4;
        cmd "beginCall" 0; cmd "releasePolicy" 0]
      [public_check 3 [("calls", ints [0; 0]); ("policyCalls", JInt 0); ("loaders", JInt 2); ("reads", JInt 0); ("writes", JInt 0)] None None;
       public_check 5 [("calls", ints [1; 2]); ("policyCalls", JInt 0); ("loaders", JInt 2)] None None;
       public_check 7 [("calls", ints [1; 2; 0]); ("policyCalls", JInt 1); ("loaders", JInt 3); ("reads", JInt 0); ("writes", JInt 0)] None None];
    prefix_rule "default-source-budget-expires-at-sixty-seconds" "defaultSourceBudgetExpiresAtSixtySecondsTest"
      [cmd "init" 0; cmd "beginCall" 0; cmd "releasePolicy" 0; cmd "advance" 59999; cmd "advance" 1; cmd "resolveLoader" 1;
        cmd "beginCall" 0; cmd "releasePolicy" 1]
      [public_check 3 [("calls", ints [0]); ("loaders", JInt 1)] None None;
       public_check 4 [("calls", ints [4]); ("loaders", JInt 1)] None None;
       public_check 7 [("calls", ints [4; 0]); ("loaders", JInt 2); ("writes", JInt 0)] None None];
    prefix_rule "unbounded-enabled-source-publishes-after-sixty-seconds" "unboundedEnabledSourcePublishesAfterSixtySecondsTest"
      [cmd "init" 1; cmd "beginCall" 0; cmd "releasePolicy" 0; cmd "advance" 60001; cmd "resolveLoader" 1; cmd "beginCall" 0;
        cmd "releasePolicy" 1]
      [public_check 3 [("calls", ints [0]); ("loaders", JInt 1)] None None;
       public_check 6 [("calls", ints [1; 1]); ("loaders", JInt 1); ("policyCalls", JInt 2)] None None];
    prefix_rule "late-follower-keeps-leaders-remaining-source-budget" "lateFollowerUsesLeadersRemainingBudgetTest"
      [cmd "init" 2; cmd "beginCall" 0; cmd "releasePolicy" 0; cmd "advance" 6; cmd "beginCall" 0; cmd "releasePolicy" 1;
        cmd "advance" 3; cmd "advance" 1]
      [public_check 5 [("calls", ints [0; 0]); ("loaders", JInt 1); ("policyCalls", JInt 2)] None None;
       public_check 6 [("calls", ints [0; 0]); ("loaders", JInt 1)] None None;
       public_check 7 [("calls", ints [4; 4]); ("loaders", JInt 1)] None None];
    prefix_rule "policy-wait-does-not-spend-source-budget" "heldPolicyDoesNotSpendSourceBudgetTest"
      [cmd "init" 2; cmd "beginCall" 0; cmd "advance" 100; cmd "releasePolicy" 0; cmd "advance" 9; cmd "resolveLoader" 1;
        cmd "beginCall" 0; cmd "releasePolicy" 1]
      [public_check 2 [("calls", ints [0]); ("loaders", JInt 0); ("policyCalls", JInt 1)] None None;
       public_check 4 [("calls", ints [0]); ("loaders", JInt 1)] None None;
       public_check 7 [("calls", ints [1; 1]); ("loaders", JInt 1); ("policyCalls", JInt 2)] None None];
    prefix_rule "invalid-enabled-key-preserves-source-deadline" "invalidKeyStillKeepsEnabledSourceDeadlineTest"
      [cmd "init" 2; cmd "beginCall" 2; cmd "advance" 9; cmd "advance" 1; cmd "resolveLoader" 1; cmd "beginCall" 0; cmd
        "releasePolicy" 0]
      [public_check 2 [("calls", ints [0]); ("loaders", JInt 1); ("policyCalls", JInt 0)] None None;
       public_check 3 [("calls", ints [4]); ("loaders", JInt 1); ("policyCalls", JInt 0)] None None;
       public_check 6 [("calls", ints [4; 0]); ("loaders", JInt 2); ("policyCalls", JInt 1)] None None];
    prefix_rule "abandoned-source-cannot-replace-successful-retry" "abandonedSourceCannotReplaceSuccessfulRetryTest"
      [cmd "init" 2; cmd "beginCall" 0; cmd "releasePolicy" 0; cmd "advance" 10; cmd "beginCall" 0; cmd "releasePolicy" 1;
        cmd "resolveLoader" 4; cmd "resolveLoader" 1; cmd "beginCall" 0; cmd "releasePolicy" 2]
      [public_check 3 [("calls", ints [4]); ("loaders", JInt 1)] None None;
       public_check 6 [("calls", ints [4; 2]); ("loaders", JInt 2)] None None;
       public_check 7 [("calls", ints [4; 2]); ("loaders", JInt 2)] None None;
       public_check 9 [("calls", ints [4; 2; 2]); ("loaders", JInt 2); ("policyCalls", JInt 3)] None None]].

Definition shadowReadDeadlinesWitnessRules : list witness_rule :=
  [prefix_rule "c0-read-timeout-retains-raw-capacity" "c0ReadDeadlineKeepsRawCapacityTest"
      [cmd "init" (-1); cmd "beginCall" 0; cmd "resolveLoader" 1; cmd "advance" 5; cmd "beginCall" 1; cmd "resolveLoader" 3;
        cmd "advance" 10; cmd "releaseRead" 0; cmd "beginCall" 1]
      [public_check 3 [("calls", ints [1]); ("shadow", texts ["redis_error"])] None (Some [("aborted", ints [0])]);
       public_check 4 [("reads", JInt 1); ("shadow", texts ["redis_error"; "dropped"])] None None;
       public_check 6 [("calls", ints [1; 1]); ("shadow", texts ["redis_error"; "dropped"])] None None;
       public_check 8 [("reads", JInt 2); ("loaders", JInt 3); ("loads", JInt 0); ("dumps", JInt 0); ("shadow", texts ["redis_error"; "dropped"])] None None];
    prefix_rule "c1-read-timeout-retains-raw-capacity" "c1ReadDeadlineKeepsRawCapacityTest"
      [cmd "init" (-1); cmd "seed" 0; cmd "beginCall" 0; cmd "releaseRead" 0; cmd "resolveLoader" 2; cmd "releaseLoad" 0;
        cmd "advance" 5; cmd "beginCall" 1; cmd "resolveLoader" 3; cmd "advance" 10; cmd "releaseRead" 1; cmd "beginCall" 1]
      [public_check 3 [("calls", ints [0]); ("shadow", JArr []); ("loads", JInt 0); ("dumps", JInt 0)] None None;
       public_check 6 [("calls", ints [2]); ("shadow", texts ["confirmation_error"])] None (Some [("aborted", ints [1])]);
       public_check 7 [("reads", JInt 2); ("shadow", texts ["confirmation_error"; "dropped"])] None None;
       public_check 9 [("shadow", texts ["confirmation_error"; "dropped"])] None None;
       public_check 11 [("reads", JInt 3); ("loaders", JInt 3); ("dumps", JInt 0); ("shadow", texts ["confirmation_error"; "dropped"])] None None];
    prefix_rule "job-then-read-timeout-has-one-verdict" "jobDeadlineThenReadDeadlineReportsOneVerdictTest"
      [cmd "init" (-1); cmd "policy" 20; cmd "beginCall" 0; cmd "resolveLoader" 1; cmd "advance" 10; cmd "beginCall" 1;
        cmd "resolveLoader" 3; cmd "advance" 10; cmd "releaseRead" 0; cmd "beginCall" 1]
      [public_check 4 [("shadow", texts ["timeout"])] None (Some [("aborted", JArr [])]);
       public_check 5 [("reads", JInt 1); ("shadow", texts ["timeout"; "dropped"])] None None;
       public_check 7 [("calls", ints [1; 1]); ("shadow", texts ["timeout"; "dropped"])] None (Some [("aborted", ints [0])]);
       public_check 9 [("reads", JInt 2); ("loaders", JInt 3); ("shadow", texts ["timeout"; "dropped"])] None None];
    prefix_rule "confirmation-keeps-captured-read-budget" "confirmationKeepsCapturedReadBudgetTest"
      [cmd "init" (-1); cmd "seed" 0; cmd "beginCall" 0; cmd "releaseRead" 0; cmd "policy" 20; cmd "resolveLoader" 2; cmd
        "releaseLoad" 0; cmd "advance" 5; cmd "releaseRead" 1; cmd "beginCall" 1]
      [public_check 3 [("calls", ints [0]); ("shadow", JArr []); ("loads", JInt 0); ("dumps", JInt 0)] None None;
       public_check 6 [] None (Some [("budgets", ints [5; 5])]);
       public_check 7 [("shadow", texts ["confirmation_error"])] None (Some [("aborted", ints [1])]);
       public_check 9 [("reads", JInt 3)] None (Some [("budgets", ints [5; 5; 20])])];
    prefix_rule "confirmation-read-budget-starts-at-dispatch" "confirmationReadBudgetStartsAtItsOwnDispatchTest"
      [cmd "init" (-1); cmd "seed" 0; cmd "beginCall" 0; cmd "releaseRead" 0; cmd "advance" 4; cmd "resolveLoader" 2; cmd
        "releaseLoad" 0; cmd "advance" 4; cmd "advance" 1]
      [public_check 3 [("calls", ints [0]); ("shadow", JArr []); ("loads", JInt 0); ("dumps", JInt 0)] None None;
       public_check 7 [("calls", ints [2]); ("shadow", JArr [])] None (Some [("aborted", JArr [])]);
       public_check 8 [("shadow", texts ["confirmation_error"])] None (Some [("aborted", ints [1])])];
    prefix_rule "timely-shadow-read-cancels-deadline-and-fills" "readBeforeDeadlineCanFillAndCancelsItsTimerTest"
      [cmd "init" (-1); cmd "beginCall" 0; cmd "resolveLoader" 1; cmd "advance" 4; cmd "releaseRead" 0; cmd "releaseDump" 0;
        cmd "releaseWrite" 0; cmd "advance" 10]
      [public_check 7 [("calls", ints [1]); ("shadow", texts ["filled"]); ("writes", JInt 1)] None (Some [("aborted", JArr [])])]].

Definition shadowDiagnosticsWitnessRules : list witness_rule :=
  [prefix_rule "omitted-shadow-logging-keeps-mismatch-metrics-only" "omittedLoggingKeepsMismatchMetricsOnlyTest"
      [cmd "init" 2; cmd "seed" 1; cmd "beginCall" (-1); cmd "releaseRead" (-1); cmd "resolveLoader" 2; cmd "releaseLoad"
        (-1); cmd "releaseRead" (-1)]
      [public_check 6 [("calls", ints [2]); ("reads", JInt 2); ("loads", JInt 1); ("writes", JInt 0); ("comparisons", JInt 1); ("shadow", texts
         ["mismatch"])] (Some [("warnings", JInt 0); ("configErrors", JInt 0); ("ages", ints [0]); ("futureOffsets", JArr [])]) None];
    prefix_rule "explicit-false-shadow-logging-overrides-enabled-default" "explicitFalseLoggingOverridesEnabledDefaultTest"
      [cmd "init" 6; cmd "logPolicy" 0; cmd "seed" 1; cmd "beginCall" (-1); cmd "releaseRead" (-1); cmd "resolveLoader" 2;
        cmd "releaseLoad" (-1); cmd "releaseRead" (-1)]
      [public_check 7 [("calls", ints [2]); ("reads", JInt 2); ("loads", JInt 1); ("writes", JInt 0); ("comparisons", JInt 1); ("shadow", texts
         ["mismatch"])] (Some [("warnings", JInt 0); ("configErrors", JInt 0); ("ages", ints [0]); ("futureOffsets", JArr [])]) None];
    prefix_rule "shadow-confirmation-past-freshness-preserves-payload-and-age" "confirmationPastFreshnessKeepsOriginalPayloadAndAgeTest"
      [cmd "init" 6; cmd "seed" 1; cmd "beginCall" (-1); cmd "releaseRead" (-1); cmd "resolveLoader" 2; cmd "releaseLoad"
        (-1); cmd "advanceWall" 60000; cmd "releaseRead" (-1)]
      [public_check 5 [("calls", ints [2]); ("reads", JInt 2); ("loads", JInt 1); ("writes", JInt 0); ("shadow", JArr [])] (Some [("warnings", JInt 0);
         ("ages", JArr [])]) None;
       public_check 7 [("calls", ints [2]); ("reads", JInt 2); ("loads", JInt 1); ("writes", JInt 0); ("comparisons", JInt 1); ("shadow", texts
         ["mismatch"])] (Some [("warnings", JInt 1); ("ages", ints [60000]); ("futureOffsets", JArr [])]) None];
    prefix_rule "shadow-confirmation-rollback-keeps-payload-and-reports-offset" "confirmationRollbackKeepsPayloadAndClampsAgeTest"
      [cmd "init" 6; cmd "seed" 1; cmd "beginCall" (-1); cmd "releaseRead" (-1); cmd "resolveLoader" 2; cmd "releaseLoad"
        (-1); cmd "rollbackWall" (-1); cmd "releaseRead" (-1)]
      [public_check 5 [("calls", ints [2]); ("reads", JInt 2); ("loads", JInt 1); ("writes", JInt 0); ("shadow", JArr [])] (Some [("warnings", JInt 0);
         ("ages", JArr []); ("futureOffsets", JArr [])]) None;
       public_check 7 [("calls", ints [2]); ("reads", JInt 2); ("loads", JInt 1); ("writes", JInt 0); ("comparisons", JInt 1); ("shadow", texts
         ["mismatch"])] (Some [("warnings", JInt 1); ("ages", ints [0]); ("futureOffsets", JArr [object [("layer", text "remote_shadow"); ("offsetMs",
         JInt 1000)]])]) None];
    prefix_rule "future-dark-c0-reports-offset-and-fills-semantic-miss" "futureDarkAcquisitionReportsOffsetAndFillsMissTest"
      [cmd "init" 0; cmd "seed" 1; cmd "rollbackWall" (-1); cmd "beginCall" (-1); cmd "releaseRead" (-1); cmd "resolveLoader"
        2; cmd "releaseDump" (-1); cmd "releaseWrite" (-1)]
      [public_check 4 [("calls", ints [0]); ("reads", JInt 1); ("loads", JInt 0); ("dumps", JInt 0); ("shadow", JArr [])] (Some [("futureOffsets", JArr
         [object [("layer", text "remote_shadow"); ("offsetMs", JInt 1000)]])]) None;
       public_check 7 [("calls", ints [2]); ("reads", JInt 1); ("loads", JInt 0); ("dumps", JInt 1); ("writes", JInt 1); ("shadow", texts ["filled"])] (Some
         [("warnings", JInt 0); ("ages", JArr []); ("futureOffsets", JArr [object [("layer", text "remote_shadow"); ("offsetMs", JInt 1000)]])]) None];
    prefix_rule "late-dark-read-reports-offset-without-reviving-job" "futureLateDarkReadKeepsTimeoutAndReportsOffsetTest"
      [cmd "init" 0; cmd "seed" 1; cmd "rollbackWall" (-1); cmd "beginCall" (-1); cmd "advance" 10; cmd "releaseRead" (-1)]
      [public_check 4 [("calls", ints [4]); ("shadow", texts ["timeout"]); ("reads", JInt 1)] (Some [("futureOffsets", JArr [])]) None;
       public_check 5 [("calls", ints [4]); ("shadow", texts ["timeout"]); ("reads", JInt 1); ("loads", JInt 0); ("dumps", JInt 0); ("writes", JInt 0)] (Some
         [("futureOffsets", JArr [object [("layer", text "remote_shadow"); ("offsetMs", JInt 990)]])]) None];
    prefix_rule "shorthand-true-with-value-false-logs-diff-only" "trueShorthandWithValueFalseLogsDiffOnlyTest"
      [cmd "init" 0; cmd "logPolicy" 6; cmd "seed" 1; cmd "beginCall" (-1); cmd "releaseRead" (-1); cmd "resolveLoader" 2;
        cmd "releaseLoad" (-1); cmd "releaseRead" (-1)]
      [public_check 7 [("shadow", texts ["mismatch"])] (Some [("mismatchWarnings", JArr [object [("ageMs", JInt 0); ("cachedValue", JInt (-1));
         ("sourceValue", JInt (-1)); ("diff", text "values"); ("diffNull", JBool false); ("count", JInt 1); ("paths", texts [""]); ("entries", JArr
         [object [("path", text ""); ("cached", JInt 1); ("source", JInt 2)]]); ("loggingOutcome", text "")]]); ("loggingOutcomes", texts ["logged"]);
         ("configErrors", JInt 0)]) None];
    prefix_rule "shorthand-false-with-diff-paths-logs-paths-only" "falseShorthandWithDiffPathsLogsPathsOnlyTest"
      [cmd "init" 0; cmd "logPolicy" 7; cmd "seed" 1; cmd "beginCall" (-1); cmd "releaseRead" (-1); cmd "resolveLoader" 2;
        cmd "releaseLoad" (-1); cmd "releaseRead" (-1)]
      [public_check 7 [("shadow", texts ["mismatch"])] (Some [("mismatchWarnings", JArr [object [("ageMs", JInt 0); ("cachedValue", JInt (-1));
         ("sourceValue", JInt (-1)); ("diff", text "paths"); ("diffNull", JBool false); ("count", JInt 1); ("paths", texts [""]); ("entries", JArr
         []); ("loggingOutcome", text "")]]); ("loggingOutcomes", texts ["logged"]); ("configErrors", JInt 0)]) None];
    prefix_rule "runtime-false-shorthand-overrides-default-diff" "runtimeFalseShorthandOverridesDefaultDiffTest"
      [cmd "init" 14; cmd "logPolicy" 0; cmd "seed" 1; cmd "beginCall" (-1); cmd "releaseRead" (-1); cmd "resolveLoader" 2;
        cmd "releaseLoad" (-1); cmd "releaseRead" (-1)]
      [public_check 7 [("shadow", texts ["mismatch"])] (Some [("warnings", JInt 0); ("ages", ints [0]); ("mismatchWarnings", JArr []); ("loggingOutcomes",
         JArr []); ("configErrors", JInt 0)]) None];
    prefix_rule "runtime-true-shorthand-overrides-default-value" "runtimeTrueShorthandOverridesDefaultValueTest"
      [cmd "init" 15; cmd "logPolicy" 1; cmd "seed" 1; cmd "beginCall" (-1); cmd "releaseRead" (-1); cmd "resolveLoader" 2;
        cmd "releaseLoad" (-1); cmd "releaseRead" (-1)]
      [public_check 7 [("shadow", texts ["mismatch"])] (Some [("mismatchWarnings", JArr [object [("ageMs", JInt 0); ("cachedValue", JInt 1); ("sourceValue",
         JInt 2); ("diff", text "values"); ("diffNull", JBool false); ("count", JInt 1); ("paths", texts [""]); ("entries", JArr [object [("path",
         text ""); ("cached", JInt 1); ("source", JInt 2)]]); ("loggingOutcome", text "")]]); ("loggingOutcomes", texts ["logged"])]) None];
    prefix_rule "runtime-off-diff-overrides-default-diff" "runtimeOffDiffOverridesDefaultDiffTest"
      [cmd "init" 4; cmd "logPolicy" 11; cmd "seed" 1; cmd "beginCall" (-1); cmd "releaseRead" (-1); cmd "resolveLoader" 2;
        cmd "releaseLoad" (-1); cmd "releaseRead" (-1)]
      [public_check 7 [("shadow", texts ["mismatch"])] (Some [("mismatchWarnings", JArr [object [("ageMs", JInt 0); ("cachedValue", JInt 1); ("sourceValue",
         JInt 2); ("diff", text "off"); ("diffNull", JBool false); ("count", JInt 0); ("paths", JArr []); ("entries", JArr []); ("loggingOutcome",
         text "")]]); ("loggingOutcomes", texts ["logged"]); ("configErrors", JInt 0)]) None];
    prefix_rule "runtime-false-value-overrides-default-value" "runtimeFalseValueOverridesDefaultValueTest"
      [cmd "init" 4; cmd "logPolicy" 12; cmd "seed" 1; cmd "beginCall" (-1); cmd "releaseRead" (-1); cmd "resolveLoader" 2;
        cmd "releaseLoad" (-1); cmd "releaseRead" (-1)]
      [public_check 7 [("shadow", texts ["mismatch"])] (Some [("mismatchWarnings", JArr [object [("ageMs", JInt 0); ("cachedValue", JInt (-1));
         ("sourceValue", JInt (-1)); ("diff", text "values"); ("diffNull", JBool false); ("count", JInt 1); ("paths", texts [""]); ("entries", JArr
         [object [("path", text ""); ("cached", JInt 1); ("source", JInt 2)]]); ("loggingOutcome", text "")]]); ("loggingOutcomes", texts ["logged"]);
         ("configErrors", JInt 0)]) None];
    prefix_rule "hook-error-nulls-diff-fields" "hookErrorNullsDiffFieldsTest"
      [cmd "init" 13; cmd "seed" 1; cmd "beginCall" (-1); cmd "releaseRead" (-1); cmd "resolveLoader" 2; cmd "releaseLoad"
        (-1); cmd "releaseRead" (-1)]
      [public_check 6 [("shadow", texts ["mismatch"])] (Some [("mismatchWarnings", JArr [object [("ageMs", JInt 0); ("cachedValue", JInt 1); ("sourceValue",
         JInt 2); ("diff", text "values"); ("diffNull", JBool true); ("count", JInt 0); ("paths", JArr []); ("entries", JArr []); ("loggingOutcome",
         text "hook_error")]]); ("loggingOutcomes", texts ["hook_error"])]) None];
    prefix_rule "render-error-nulls-unrenderable-source" "renderErrorNullsUnrenderableSourceTest"
      [cmd "init" 4; cmd "seed" 1; cmd "beginCall" (-1); cmd "releaseRead" (-1); cmd "resolveLoader" 12; cmd "releaseLoad"
        (-1); cmd "releaseRead" (-1)]
      [public_check 6 [("calls", ints [12]); ("shadow", texts ["mismatch"])] (Some [("mismatchWarnings", JArr [object [("ageMs", JInt 0); ("cachedValue",
         JInt 1); ("sourceValue", JInt 0); ("diff", text "values"); ("diffNull", JBool true); ("count", JInt 0); ("paths", JArr []); ("entries", JArr
         []); ("loggingOutcome", text "render_error")]]); ("loggingOutcomes", texts ["render_error"])]) None];
    prefix_rule "logger-error-still-delivers-warning" "loggerErrorStillDeliversWarningTest"
      [cmd "init" 4; cmd "loggerFault" 1; cmd "seed" 1; cmd "beginCall" (-1); cmd "releaseRead" (-1); cmd "resolveLoader" 2;
        cmd "releaseLoad" (-1); cmd "releaseRead" (-1)]
      [public_check 7 [("shadow", texts ["mismatch"])] (Some [("mismatchWarnings", JArr [object [("ageMs", JInt 0); ("cachedValue", JInt 1); ("sourceValue",
         JInt 2); ("diff", text "values"); ("diffNull", JBool false); ("count", JInt 1); ("paths", texts [""]); ("entries", JArr [object [("path",
         text ""); ("cached", JInt 1); ("source", JInt 2)]]); ("loggingOutcome", text "")]]); ("loggingOutcomes", texts ["logger_error"])]) None];
    prefix_rule "hook-error-outranks-both-failures" "hookErrorOutranksBothFailuresTest"
      [cmd "init" 13; cmd "loggerFault" 1; cmd "seed" 1; cmd "beginCall" (-1); cmd "releaseRead" (-1); cmd "resolveLoader" 12;
        cmd "releaseLoad" (-1); cmd "releaseRead" (-1)]
      [public_check 7 [("shadow", texts ["mismatch"])] (Some [("mismatchWarnings", JArr [object [("ageMs", JInt 0); ("cachedValue", JInt 1); ("sourceValue",
         JInt 0); ("diff", text "values"); ("diffNull", JBool true); ("count", JInt 0); ("paths", JArr []); ("entries", JArr []); ("loggingOutcome",
         text "hook_error")]]); ("loggingOutcomes", texts ["hook_error"])]) None]].

Definition shadowLayersWitnessRules : list witness_rule :=
  [prefix_rule "dark-local-source-publication-stops-later-shadow" "darkSourcePublishesLocalBeforeShadowWriteTest"
      [cmd "init" (-1); cmd "policy" 2; cmd "beginCall" 9; cmd "resolveLoader" 1; cmd "policy" 12; cmd "beginCall" 9]
      [public_check 3 [("calls", ints [1]); ("dumps", JInt 1); ("writes", JInt 0)] None None;
       public_check 5 [("calls", ints [1; 1]); ("loaders", JInt 1); ("reads", JInt 1); ("dumps", JInt 1); ("writes", JInt 0); ("shadow", JArr [])] None None];
    prefix_rule "dark-request-source-publication-is-scope-local" "darkSourcePublishesRequestBeforeShadowWriteTest"
      [cmd "init" (-1); cmd "policy" 1; cmd "beginCall" 0; cmd "resolveLoader" 1; cmd "policy" 12; cmd "beginCall" 0; cmd
        "policy" 1; cmd "beginCall" 3]
      [public_check 5 [("calls", ints [1; 1]); ("loaders", JInt 1); ("reads", JInt 1); ("dumps", JInt 1); ("writes", JInt 0); ("shadow", JArr [])] None None;
       public_check 7 [("calls", ints [1; 1; 0]); ("loaders", JInt 2); ("reads", JInt 1); ("shadow", texts ["dropped"])] None None];
    prefix_rule "dark-present-c0-never-publishes-local" "darkPresentC0NeverBecomesLocalPublicationTest"
      [cmd "init" (-1); cmd "policy" 2; cmd "seed" 0; cmd "beginCall" 9; cmd "beginCall" 9; cmd "resolveLoader" 2; cmd
        "policy" 12; cmd "beginCall" 9]
      [public_check 4 [("calls", ints [0; 0]); ("loaders", JInt 2); ("reads", JInt 1); ("loads", JInt 0); ("shadow", texts ["dropped"])] None None;
       public_check 7 [("calls", ints [2; 0; 2]); ("loaders", JInt 2); ("reads", JInt 2); ("loads", JInt 1); ("writes", JInt 0); ("shadow", texts ["dropped";
         "mismatch"])] None None];
    prefix_rule "dark-present-c0-never-publishes-request" "darkPresentC0NeverBecomesRequestPublicationTest"
      [cmd "init" (-1); cmd "policy" 1; cmd "seed" 0; cmd "beginCall" 0; cmd "beginCall" 0; cmd "resolveLoader" 2; cmd
        "policy" 12; cmd "beginCall" 0; cmd "policy" 1; cmd "beginCall" 3]
      [public_check 4 [("calls", ints [0; 0]); ("loaders", JInt 2); ("reads", JInt 1); ("loads", JInt 0); ("shadow", texts ["dropped"])] None None;
       public_check 7 [("calls", ints [2; 0; 2]); ("loaders", JInt 2); ("reads", JInt 2); ("writes", JInt 0)] None None;
       public_check 9 [("calls", ints [2; 0; 2; 0]); ("loaders", JInt 3); ("reads", JInt 3); ("writes", JInt 0)] None None];
    prefix_rule "dark-job-dedup-preserves-independent-source-values" "deduplicatedJobKeepsIndependentCallerSourcesTest"
      [cmd "init" (-1); cmd "policy" 3; cmd "beginCall" 9; cmd "beginCall" 9; cmd "resolveLoader" 4; cmd "resolveLoader" 1;
        cmd "releaseDump" 0; cmd "releaseWrite" 0; cmd "policy" 5; cmd "beginCall" 9]
      [public_check 3 [("calls", ints [0; 0]); ("loaders", JInt 2); ("reads", JInt 1); ("shadow", texts ["dropped"])] None None;
       public_check 4 [("calls", ints [0; 2]); ("dumps", JInt 0); ("writes", JInt 0)] None None;
       public_check 9 [("calls", ints [1; 2; 1]); ("loaders", JInt 2); ("reads", JInt 2); ("loads", JInt 1); ("writes", JInt 1); ("shadow", texts ["dropped";
         "filled"])] None None];
    prefix_rule "dark-eligible-stale-c0-never-recovers" "darkFailureDoesNotUseEligibleStaleBytesTest"
      [cmd "init" (-1); cmd "policy" 3; cmd "seed" 3; cmd "beginCall" 9; cmd "rejectLoader" 0]
      [public_check 4 [("calls", ints [3]); ("loaders", JInt 1); ("reads", JInt 1); ("loads", JInt 0); ("dumps", JInt 0); ("writes", JInt 0);
         ("classifications", JInt 0); ("recovery", JArr []); ("shadow", texts ["source_error"])] None None];
    prefix_rule "invalid-dark-shadow-preserves-local-source-publication" "invalidShadowKeepsLocalPublicationTest"
      [cmd "init" (-1); cmd "policy" 7; cmd "beginCall" 9; cmd "resolveLoader" 1; cmd "policy" 12; cmd "beginCall" 9]
      [public_check 5 [("calls", ints [1; 1]); ("loaders", JInt 1); ("reads", JInt 0); ("dumps", JInt 0); ("writes", JInt 0); ("shadow", JArr [])] None None];
    prefix_rule "unbounded-caller-outlives-released-dark-job" "unboundedCallerSurvivesDarkJobDeadlineTest"
      [cmd "init" (-1); cmd "policy" 3; cmd "beginCall" 9; cmd "advance" 60000; cmd "beginCall" 9; cmd "resolveLoader" 1;
        cmd "resolveLoader" 4]
      [public_check 3 [("calls", ints [0]); ("loaders", JInt 1); ("reads", JInt 1); ("shadow", texts ["timeout"])] None None;
       public_check 4 [("calls", ints [0; 0]); ("loaders", JInt 2); ("reads", JInt 2); ("shadow", texts ["timeout"])] None None;
       public_check 5 [("calls", ints [1; 0]); ("dumps", JInt 0)] None None;
       public_check 6 [("calls", ints [1; 2]); ("dumps", JInt 1); ("writes", JInt 0); ("shadow", texts ["timeout"])] None None];
    prefix_rule "mixed-shadow-capacity-retains-only-owned-source" "servedAndDarkJobsShareCapacityButNotSourceOwnershipTest"
      [cmd "init" (-1); cmd "seed" 0; cmd "policy" 4; cmd "beginCall" 9; cmd "policy" 3; cmd "beginCall" 10; cmd
        "beginCall" 11; cmd "advance" 60000; cmd "beginCall" 11; cmd "beginCall" 10; cmd "resolveLoader" 2; cmd "beginCall" 10;
        cmd "resolveLoader" 4]
      [public_check 6 [("calls", ints [1; 0; 0]); ("loaders", JInt 3); ("reads", JInt 2); ("shadow", texts ["dropped"])] None None;
       public_check 8 [("loaders", JInt 4); ("reads", JInt 3); ("shadow", texts ["dropped"; "timeout"; "timeout"])] None None;
       public_check 9 [("loaders", JInt 5); ("reads", JInt 3); ("shadow", texts ["dropped"; "timeout"; "timeout"; "dropped"])] None None;
       public_check 11 [("loaders", JInt 6); ("reads", JInt 4); ("shadow", texts ["dropped"; "timeout"; "timeout"; "dropped"])] None None;
       public_check 12 [("calls", ints [1; 2; 0; 0; 0; 0]); ("loads", JInt 1); ("dumps", JInt 0); ("writes", JInt 0); ("sourceScopes", JArr [JBool false;
         JBool true; JBool true; JBool true; JBool true; JBool true])] None None];
    prefix_rule "mixed-shadow-capacity-is-per-instance" "fullMixedInstanceDoesNotBlockAnotherInstanceTest"
      [cmd "init" (-1); cmd "seed" 0; cmd "policy" 4; cmd "beginCall" 9; cmd "policy" 3; cmd "beginCall" 10; cmd
        "beginCall" 11; cmd "beginCall" 14]
      [public_check 6 [("loaders", JInt 3); ("reads", JInt 2); ("shadow", texts ["dropped"])] None None;
       public_check 7 [("calls", ints [1; 0; 0; 0]); ("loaders", JInt 4); ("reads", JInt 3); ("sourceScopes", JArr [JBool false; JBool true; JBool true;
         JBool true]); ("shadow", texts ["dropped"])] None None];
    prefix_rule "served-diagnostic-source-never-publishes-local" "servedDiagnosticSourceDoesNotPopulateLocalTest"
      [cmd "init" (-1); cmd "seed" 0; cmd "policy" 4; cmd "beginCall" 9; cmd "resolveLoader" 2; cmd "policy" 2; cmd
        "beginCall" 9]
      [public_check 4 [("calls", ints [1]); ("writes", JInt 0); ("shadow", texts ["mismatch"])] None None;
       public_check 6 [("calls", ints [1; 0]); ("loaders", JInt 2); ("reads", JInt 3); ("writes", JInt 0); ("sourceScopes", JArr [JBool false; JBool true]);
         ("shadow", texts ["mismatch"])] None None];
    prefix_rule "validated-remote-hit-warms-local-and-stops-shadow" "validatedRemoteHitStopsFurtherShadowTest"
      [cmd "init" (-1); cmd "seed" 0; cmd "policy" 12; cmd "beginCall" 9; cmd "beginCall" 9; cmd "resolveLoader" 2; cmd
        "beginCall" 9]
      [public_check 4 [("calls", ints [1; 1]); ("loaders", JInt 1); ("reads", JInt 1); ("loads", JInt 1); ("shadow", JArr [])] None None;
       public_check 6 [("calls", ints [1; 1; 1]); ("loaders", JInt 1); ("reads", JInt 2); ("writes", JInt 0); ("shadow", texts ["mismatch"])] None None];
    prefix_rule "ordinary-serving-miss-has-no-diagnostic-source" "ordinaryServingMissDoesNotAdmitDiagnosticSourceTest"
      [cmd "init" (-1); cmd "policy" 4; cmd "beginCall" 9; cmd "resolveLoader" 2; cmd "releaseDump" 0; cmd "releaseWrite" 0;
        cmd "policy" 5; cmd "beginCall" 9]
      [public_check 2 [("calls", ints [0]); ("loaders", JInt 1); ("reads", JInt 1); ("sourceScopes", JArr [JBool true]); ("shadow", JArr [])] None None;
       public_check 7 [("calls", ints [2; 2]); ("loaders", JInt 1); ("reads", JInt 2); ("dumps", JInt 1); ("writes", JInt 1); ("shadow", JArr [])] None None];
    prefix_rule "shadow-cohort-below-does-not-admit" "shadowCohortBelowDoesNotAdmitTest"
      [cmd "init" (-1); cmd "policy" 9; cmd "beginCall" 9; cmd "resolveLoader" 1]
      [public_check 3 [("calls", ints [1]); ("loaders", JInt 1); ("reads", JInt 0); ("dumps", JInt 0); ("writes", JInt 0); ("shadow", JArr [])] None None];
    prefix_rule "shadow-cohort-equality-does-not-admit" "shadowCohortEqualityDoesNotAdmitTest"
      [cmd "init" (-1); cmd "policy" 10; cmd "beginCall" 9; cmd "resolveLoader" 1]
      [public_check 3 [("calls", ints [1]); ("loaders", JInt 1); ("reads", JInt 0); ("dumps", JInt 0); ("writes", JInt 0); ("shadow", JArr [])] None None];
    prefix_rule "shadow-cohort-above-admits" "shadowCohortAboveAdmitsTest"
      [cmd "init" (-1); cmd "policy" 11; cmd "beginCall" 9; cmd "resolveLoader" 1]
      [public_check 3 [("calls", ints [1]); ("loaders", JInt 1); ("reads", JInt 1); ("dumps", JInt 1); ("writes", JInt 0); ("shadow", JArr [])] None None];
    prefix_rule "dark-fill-policy-snapshot-controls-physical-expiry" "darkFillRetainsPolicyThroughSerializationTest"
      [cmd "init" (-1); cmd "policy" 3; cmd "beginCall" 9; cmd "policy" 8; cmd "resolveLoader" 1; cmd "policy" 13; cmd
        "releaseDump" 0; cmd "releaseWrite" 0; cmd "advance" 120000; cmd "policy" 13; cmd "beginCall" 9; cmd "rejectLoader" 1]
      [public_check 4 [("calls", ints [1]); ("dumps", JInt 1); ("writes", JInt 0)] None None;
       public_check 7 [("writes", JInt 1); ("writeTtls", ints [120000]); ("shadow", texts ["filled"])] None None;
       public_check 11 [("calls", ints [1; 3]); ("loaders", JInt 2); ("reads", JInt 2); ("loads", JInt 0); ("writes", JInt 1); ("classifications", JInt 1);
         ("recovery", texts ["miss"])] None None];
    prefix_rule "retained-fresh-c0-compares-after-freshness-boundary" "retainedFreshC0StillComparesAfterFreshnessBoundaryTest"
      [cmd "init" (-1); cmd "policy" 3; cmd "seed" 2; cmd "beginCall" 9; cmd "advance" 1; cmd "resolveLoader" 2]
      [public_check 4 [("calls", ints [0]); ("reads", JInt 1); ("loads", JInt 0); ("shadow", JArr [])] None None;
       public_check 5 [("calls", ints [2]); ("loaders", JInt 1); ("reads", JInt 2); ("loads", JInt 1); ("dumps", JInt 0); ("writes", JInt 0); ("shadow",
         texts ["mismatch"])] None None];
    prefix_rule "expired-c0-miss-fills-source-and-serves-probe" "expiredC0CanFillAndServeNewValueTest"
      [cmd "init" (-1); cmd "policy" 3; cmd "seed" 3; cmd "beginCall" 9; cmd "resolveLoader" 2; cmd "releaseDump" 0; cmd
        "releaseWrite" 0; cmd "policy" 5; cmd "beginCall" 9]
      [public_check 4 [("calls", ints [2]); ("reads", JInt 1); ("loads", JInt 0); ("dumps", JInt 1)] None None;
       public_check 8 [("calls", ints [2; 2]); ("loaders", JInt 1); ("reads", JInt 2); ("loads", JInt 1); ("writes", JInt 1); ("shadow", texts ["filled"])]
         None None];
    prefix_rule "acquired-c0-miss-does-not-reread-before-fill" "acquiredMissDoesNotRereadBeforeFillTest"
      [cmd "init" (-1); cmd "policy" 3; cmd "beginCall" 9; cmd "seed" 0; cmd "resolveLoader" 2; cmd "releaseDump" 0; cmd
        "releaseWrite" 0; cmd "policy" 5; cmd "beginCall" 9]
      [public_check 6 [("calls", ints [2]); ("reads", JInt 1); ("loads", JInt 0); ("writes", JInt 1); ("shadow", texts ["filled"])] None None;
       public_check 8 [("calls", ints [2; 2]); ("loaders", JInt 1); ("reads", JInt 2); ("loads", JInt 1); ("writes", JInt 1)] None None];
    prefix_rule "dark-propagated-timeout-is-source-error" "darkPropagatedTimeoutIsSourceFailureTest"
      [cmd "init" (-1); cmd "policy" 3; cmd "beginCall" 9; cmd "rejectTimeout" 0]
      [public_check 3 [("calls", ints [3]); ("loaders", JInt 1); ("classifications", JInt 0); ("recovery", JArr []); ("sourceScopes", JArr [JBool true]);
         ("dumps", JInt 0); ("writes", JInt 0); ("shadow", texts ["source_error"])] None None];
    prefix_rule "served-propagated-timeout-preserves-hit" "servedPropagatedTimeoutPreservesHitTest"
      [cmd "init" (-1); cmd "seed" 0; cmd "policy" 4; cmd "beginCall" 9; cmd "rejectTimeout" 0]
      [public_check 4 [("calls", ints [1]); ("loaders", JInt 1); ("sourceScopes", JArr [JBool false]); ("dumps", JInt 0); ("writes", JInt 0); ("shadow",
         texts ["source_error"])] None None]].

Definition darkLayersWitnessRules : list witness_rule :=
  [prefix_rule "later-dark-source-keeps-own-budget" "laterDarkSourceKeepsItsWholeBudgetTest"
      [cmd "init" (-1); cmd "advance" 10; cmd "policy" 0; cmd "beginCall" 0; cmd "resolveLoader" 1; cmd "beginCall" 2]
      [public_check 4 [("calls", ints [1]); ("loaders", JInt 1); ("reads", JInt 1); ("dumps", JInt 0); ("shadow", JArr [])] (Some [("fallbackErrors", JArr
         [])]) None;
       public_check 5 [("calls", ints [1; 1]); ("loaders", JInt 1); ("reads", JInt 1); ("dumps", JInt 0); ("shadow", JArr [])] (Some [("fallbackErrors", JArr
         [])]) None];
    prefix_rule "inspection-counts-process-followers-and-oldest" "inspectionTracksKeysFollowersAndOldestLeaderTest"
      [cmd "init" (-1); cmd "policy" 6; cmd "beginCall" 0; cmd "beginCall" 0; cmd "beginCall" 2; cmd "beginCall" 2; cmd
        "advance" 1; cmd "beginCall" 1; cmd "inspect" 0; cmd "resolveLoader" 1; cmd "inspect" 0; cmd "advance" 1; cmd
        "rejectLoader" 1; cmd "inspect" 0]
      [public_check 8 [("calls", ints [0; 0; 0; 0; 0]); ("loaders", JInt 2)] (Some [("inspections", JArr [object [("instance", JInt 0); ("activeLeaders",
         JInt 2); ("activeFollowers", JInt 1); ("oldestLeaderAgeMs", JInt 1)]])]) None;
       public_check 10 [("calls", ints [1; 1; 1; 1; 0])] (Some [("inspections", JArr [object [("instance", JInt 0); ("activeLeaders", JInt 2);
         ("activeFollowers", JInt 1); ("oldestLeaderAgeMs", JInt 1)]; object [("instance", JInt 0); ("activeLeaders", JInt 1); ("activeFollowers",
         JInt 0); ("oldestLeaderAgeMs", JInt 0)]])]) None;
       public_check 13 [("calls", ints [1; 1; 1; 1; 3])] (Some [("inspections", JArr [object [("instance", JInt 0); ("activeLeaders", JInt 2);
         ("activeFollowers", JInt 1); ("oldestLeaderAgeMs", JInt 1)]; object [("instance", JInt 0); ("activeLeaders", JInt 1); ("activeFollowers",
         JInt 0); ("oldestLeaderAgeMs", JInt 0)]; object [("instance", JInt 0); ("activeLeaders", JInt 0); ("activeFollowers", JInt 0);
         ("oldestLeaderAgeMs", JInt (-1))]])]) None];
    prefix_rule "inspection-isolates-instances-and-wall-shifts" "inspectionIsPerInstanceAndUsesMonotonicTimeTest"
      [cmd "init" (-1); cmd "policy" 6; cmd "beginCall" 0; cmd "advance" 1; cmd "beginCall" 4; cmd "rollbackWall" (-1);
        cmd "inspect" 0; cmd "inspect" 1; cmd "resolveLoader" 1; cmd "inspect" 0; cmd "inspect" 1]
      [public_check 6 [("calls", ints [0; 0]); ("loaders", JInt 2)] (Some [("inspections", JArr [object [("instance", JInt 0); ("activeLeaders", JInt 1);
         ("activeFollowers", JInt 0); ("oldestLeaderAgeMs", JInt 1)]])]) None;
       public_check 7 [] (Some [("inspections", JArr [object [("instance", JInt 0); ("activeLeaders", JInt 1); ("activeFollowers", JInt 0);
         ("oldestLeaderAgeMs", JInt 1)]; object [("instance", JInt 1); ("activeLeaders", JInt 1); ("activeFollowers", JInt 0); ("oldestLeaderAgeMs",
         JInt 0)]])]) None;
       public_check 10 [("calls", ints [1; 0])] (Some [("inspections", JArr [object [("instance", JInt 0); ("activeLeaders", JInt 1); ("activeFollowers",
         JInt 0); ("oldestLeaderAgeMs", JInt 1)]; object [("instance", JInt 1); ("activeLeaders", JInt 1); ("activeFollowers", JInt 0);
         ("oldestLeaderAgeMs", JInt 0)]; object [("instance", JInt 0); ("activeLeaders", JInt 0); ("activeFollowers", JInt 0); ("oldestLeaderAgeMs",
         JInt (-1))]; object [("instance", JInt 1); ("activeLeaders", JInt 1); ("activeFollowers", JInt 0); ("oldestLeaderAgeMs", JInt 0)]])]) None];
    prefix_rule "inspection-excludes-request-and-uncoalesced" "inspectionExcludesRequestOnlyAndUncoalescedWorkTest"
      [cmd "init" (-1); cmd "policy" 1; cmd "beginCall" 0; cmd "beginCall" 0; cmd "inspect" 0; cmd "policy" 5; cmd
        "beginCall" 2; cmd "beginCall" 2; cmd "inspect" 0]
      [public_check 4 [("calls", ints [0; 0]); ("loaders", JInt 1)] (Some [("inspections", JArr [object [("instance", JInt 0); ("activeLeaders", JInt 0);
         ("activeFollowers", JInt 0); ("oldestLeaderAgeMs", JInt (-1))]])]) None;
       public_check 8 [("calls", ints [0; 0; 0; 0]); ("loaders", JInt 3)] (Some [("inspections", JArr [object [("instance", JInt 0); ("activeLeaders", JInt
         0); ("activeFollowers", JInt 0); ("oldestLeaderAgeMs", JInt (-1))]; object [("instance", JInt 0); ("activeLeaders", JInt 0);
         ("activeFollowers", JInt 0); ("oldestLeaderAgeMs", JInt (-1))]])]) None];
    prefix_rule "inspection-clears-timeout-before-raw-settlement" "inspectionClearsTimedOutCallersWhileRawWorkRemainsTest"
      [cmd "init" (-1); cmd "beginCall" 0; cmd "beginCall" 2; cmd "inspect" 0; cmd "advance" 10; cmd "inspect" 0; cmd
        "beginCall" 0; cmd "inspect" 0; cmd "resolveLoader" 1; cmd "releaseRead" 0; cmd "inspect" 0]
      [public_check 3 [("calls", ints [0; 0]); ("loaders", JInt 1)] (Some [("inspections", JArr [object [("instance", JInt 0); ("activeLeaders", JInt 1);
         ("activeFollowers", JInt 1); ("oldestLeaderAgeMs", JInt 0)]])]) None;
       public_check 5 [("calls", ints [4; 4]); ("shadow", texts ["timeout"])] (Some [("inspections", JArr [object [("instance", JInt 0); ("activeLeaders",
         JInt 1); ("activeFollowers", JInt 1); ("oldestLeaderAgeMs", JInt 0)]; object [("instance", JInt 0); ("activeLeaders", JInt 0);
         ("activeFollowers", JInt 0); ("oldestLeaderAgeMs", JInt (-1))]])]) None;
       public_check 7 [("calls", ints [4; 4; 0]); ("loaders", JInt 2)] (Some [("inspections", JArr [object [("instance", JInt 0); ("activeLeaders", JInt 1);
         ("activeFollowers", JInt 1); ("oldestLeaderAgeMs", JInt 0)]; object [("instance", JInt 0); ("activeLeaders", JInt 0); ("activeFollowers",
         JInt 0); ("oldestLeaderAgeMs", JInt (-1))]; object [("instance", JInt 0); ("activeLeaders", JInt 1); ("activeFollowers", JInt 0);
         ("oldestLeaderAgeMs", JInt 0)]])]) None;
       public_check 10 [("calls", ints [4; 4; 0])] (Some [("inspections", JArr [object [("instance", JInt 0); ("activeLeaders", JInt 1); ("activeFollowers",
         JInt 1); ("oldestLeaderAgeMs", JInt 0)]; object [("instance", JInt 0); ("activeLeaders", JInt 0); ("activeFollowers", JInt 0);
         ("oldestLeaderAgeMs", JInt (-1))]; object [("instance", JInt 0); ("activeLeaders", JInt 1); ("activeFollowers", JInt 0);
         ("oldestLeaderAgeMs", JInt 0)]; object [("instance", JInt 0); ("activeLeaders", JInt 1); ("activeFollowers", JInt 0); ("oldestLeaderAgeMs",
         JInt 0)]])]) None];
    prefix_rule "inspection-excludes-unfinished-shadow" "inspectionExcludesUnfinishedShadowAfterCallerSuccessTest"
      [cmd "init" (-1); cmd "beginCall" 0; cmd "releaseRead" 0; cmd "resolveLoader" 1; cmd "inspect" 0; cmd "releaseDump" 0;
        cmd "inspect" 0]
      [public_check 4 [("calls", ints [1]); ("dumps", JInt 1); ("writes", JInt 0); ("shadow", JArr [])] (Some [("inspections", JArr [object [("instance",
         JInt 0); ("activeLeaders", JInt 0); ("activeFollowers", JInt 0); ("oldestLeaderAgeMs", JInt (-1))]])]) None;
       public_check 6 [("calls", ints [1]); ("writes", JInt 1); ("shadow", JArr [])] (Some [("inspections", JArr [object [("instance", JInt 0);
         ("activeLeaders", JInt 0); ("activeFollowers", JInt 0); ("oldestLeaderAgeMs", JInt (-1))]; object [("instance", JInt 0); ("activeLeaders",
         JInt 0); ("activeFollowers", JInt 0); ("oldestLeaderAgeMs", JInt (-1))]])]) None];
    prefix_rule "rejected-dark-source-seeds-no-layer" "rejectedDarkSourceSeedsNoLayerTest"
      [cmd "init" (-1); cmd "policy" 0; cmd "beginCall" 0; cmd "releaseRead" 0; cmd "rejectLoader" 0; cmd "beginCall" 0]
      [public_check 4 [("calls", ints [3]); ("shadow", texts ["source_error"]); ("loads", JInt 0); ("dumps", JInt 0); ("writes", JInt 0)] (Some
         [("fallbackErrors", texts ["local"])]) None;
       public_check 5 [("calls", ints [3; 0]); ("loaders", JInt 2); ("reads", JInt 2)] (Some [("coalesced", JArr [])]) None];
    prefix_rule "uncoalesced-publication-keeps-dark-leader" "uncoalescedPublicationDoesNotPreemptTheRegisteredLeaderTest"
      [cmd "init" (-1); cmd "policy" 0; cmd "beginCall" 0; cmd "policy" 5; cmd "beginCall" 2; cmd "resolveLoader" 4; cmd
        "policy" 0; cmd "beginCall" 6; cmd "resolveLoader" 1]
      [public_check 4 [("calls", ints [0; 0]); ("loaders", JInt 2); ("reads", JInt 1); ("shadow", texts ["dropped"])] None None;
       public_check 7 [("calls", ints [0; 2; 0]); ("loaders", JInt 2)] (Some [("coalesced", texts ["process"])]) None;
       public_check 8 [("calls", ints [1; 2; 1]); ("loaders", JInt 2)] None None];
    prefix_rule "held-dark-fill-keeps-captured-retention" "darkFillCarriesCapturedRetentionOnTheHeldPathTest"
      [cmd "init" (-1); cmd "policy" 3; cmd "beginCall" 0; cmd "releaseRead" 0; cmd "policy" 7; cmd "resolveLoader" 1; cmd
        "releaseDump" 0; cmd "releaseWrite" 0]
      [public_check 5 [("calls", ints [1]); ("dumps", JInt 1); ("writes", JInt 0)] None None;
       public_check 6 [("writeTtls", ints [120000]); ("writes", JInt 1)] None None;
       public_check 7 [("shadow", texts ["filled"])] None None];
    prefix_rule "dark-fill-at-watermark-is-fenced" "fillAtTheWatermarkInstantIsFencedTest"
      [cmd "init" (-1); cmd "invalidate" 0; cmd "policy" 3; cmd "beginCall" 0; cmd "releaseRead" 0; cmd "resolveLoader" 1]
      [public_check 5 [("calls", ints [1]); ("shadow", texts ["fill_fenced"]); ("dumps", JInt 0)] None None];
    prefix_rule "dark-frame-at-watermark-is-fenced" "frameAtTheWatermarkIsFencedFromTheDarkReadTest"
      [cmd "init" (-1); cmd "invalidate" 0; cmd "seed" 0; cmd "policy" 3; cmd "beginCall" 0; cmd "releaseRead" 0; cmd
        "advance" 1; cmd "resolveLoader" 2]
      [public_check 7 [("calls", ints [2]); ("dumps", JInt 1); ("loads", JInt 0)] None None];
    prefix_rule "held-dark-fill-rechecks-fence-after-rollback" "fillFenceIsRejudgedAfterAWallRollbackTest"
      [cmd "init" (-1); cmd "invalidate" 0; cmd "advance" 1; cmd "policy" 3; cmd "beginCall" 0; cmd "releaseRead" 0; cmd
        "resolveLoader" 1; cmd "rollbackWall" (-1); cmd "releaseDump" 0]
      [public_check 8 [("shadow", texts ["fill_fenced"]); ("writes", JInt 0)] None None];
    prefix_rule "stale-visible-dark-c0-fills-unfenced" "staleVisibleFrameDeclinedByTheDarkReadFillsUnfencedTest"
      [cmd "init" (-1); cmd "policy" 3; cmd "seed" 3; cmd "beginCall" 0; cmd "releaseRead" 0; cmd "invalidate" 1; cmd
        "resolveLoader" 2; cmd "releaseDump" 0; cmd "releaseWrite" 0; cmd "beginCall" 0; cmd "releaseRead" 1; cmd "resolveLoader"
        3]
      [public_check 8 [("writes", JInt 1); ("shadow", texts ["filled"])] None None;
       public_check 10 [("reads", JInt 2)] None None;
       public_check 11 [("calls", ints [2; 1]); ("shadow", texts ["filled"; "fill_fenced"]); ("dumps", JInt 1); ("writes", JInt 1)] None None];
    prefix_rule "undecodable-held-dark-c0-is-not-repaired" "undecodableDarkC0IsNeverRepairedTest"
      [cmd "init" (-1); cmd "policy" 3; cmd "seed" 4; cmd "beginCall" 0; cmd "releaseRead" 0; cmd "resolveLoader" 2; cmd
        "releaseLoad" 0]
      [public_check 5 [("calls", ints [2]); ("loads", JInt 1); ("dumps", JInt 0)] None None;
       public_check 6 [("shadow", texts ["deserialization_error"]); ("dumps", JInt 0); ("reads", JInt 1)] None None];
    prefix_rule "unsupported-encoding-ends-dark-read" "unsupportedEncodingFailsTheDarkReadTest"
      [cmd "init" (-1); cmd "policy" 3; cmd "seed" 5; cmd "beginCall" 0; cmd "releaseRead" 0; cmd "resolveLoader" 1]
      [public_check 4 [("shadow", texts ["redis_error"])] None None;
       public_check 5 [("calls", ints [1]); ("dumps", JInt 0); ("loads", JInt 0)] None None];
    prefix_rule "dark-source-deadline-attributed-to-local" "sourceDeadlineExpiresTheDarkJobAndAttributesToTheLocalLayerTest"
      [cmd "init" (-1); cmd "policy" 0; cmd "beginCall" 0; cmd "advance" 10; cmd "releaseRead" 0; cmd "beginCall" 0]
      [public_check 3 [("calls", ints [4]); ("shadow", texts ["timeout"])] (Some [("fallbackErrors", texts ["local"])]) None;
       public_check 4 [("shadow", texts ["timeout"]); ("dumps", JInt 0)] None None;
       public_check 5 [("calls", ints [4; 0]); ("loaders", JInt 2)] (Some [("coalesced", JArr [])]) None];
    prefix_rule "dark-flights-are-instance-local" "sameKeyCallersOnTwoInstancesKeepSeparateFlightsTest"
      [cmd "init" (-1); cmd "policy" 0; cmd "beginCall" 0; cmd "beginCall" 4; cmd "resolveLoader" 2]
      [public_check 3 [("calls", ints [0; 0]); ("loaders", JInt 2); ("reads", JInt 2); ("shadow", JArr [])] (Some [("coalesced", JArr [])]) None;
       public_check 4 [("calls", ints [2; 0])] None None];
    prefix_rule "closed-scope-bypasses-dark-work" "closedScopeCallerBypassesLayersAndAdmitsNoJobTest"
      [cmd "init" (-1); cmd "policy" 0; cmd "closeScope" 0; cmd "beginCall" 0; cmd "advance" 10]
      [public_check 3 [("policyCalls", JInt 0); ("reads", JInt 0); ("shadow", JArr []); ("sourceScopes", JArr [JBool false])] None None;
       public_check 4 [("calls", ints [0])] (Some [("fallbackErrors", JArr [])]) None];
    prefix_rule "held-dark-capacity-is-instance-local" "fullInstanceDropsAnotherKeyWhileTheC0ReadIsHeldTest"
      [cmd "init" (-1); cmd "policy" 3; cmd "beginCall" 0; cmd "beginCall" 1; cmd "beginCall" 4]
      [public_check 3 [("reads", JInt 1); ("shadow", texts ["dropped"])] None None;
       public_check 4 [("reads", JInt 2); ("shadow", texts ["dropped"])] None None];
    prefix_rule "held-dark-dump-error-preserves-source" "dumpFaultEndsTheFillWithoutReplacingTheCallerResultTest"
      [cmd "init" (-1); cmd "policy" 3; cmd "beginCall" 0; cmd "releaseRead" 0; cmd "resolveLoader" 1; cmd "dumpFault" 1;
        cmd "releaseDump" 0]
      [public_check 6 [("calls", ints [1]); ("shadow", texts ["fill_error"]); ("writes", JInt 0)] None None];
    prefix_rule "dark-source-local-publication-stops-job" "localPublicationStopsLaterDarkWorkTest"
      [cmd "init" (-1); cmd "policy" 2; cmd "beginCall" 0; cmd "releaseRead" 0; cmd "resolveLoader" 1; cmd "beginCall" 0]
      [public_check 4 [("calls", ints [1]); ("dumps", JInt 1)] None None;
       public_check 5 [("calls", ints [1; 1]); ("loaders", JInt 1); ("reads", JInt 1); ("shadow", JArr [])] None None];
    prefix_rule "held-dark-c0-age-at-verdict" "retainedC0AgeIsSampledAtTheVerdictTest"
      [cmd "init" (-1); cmd "policy" 3; cmd "seed" 2; cmd "beginCall" 0; cmd "releaseRead" 0; cmd "advance" 1; cmd
        "resolveLoader" 2; cmd "releaseLoad" 0; cmd "releaseRead" 1]
      [public_check 6 [("calls", ints [2]); ("loads", JInt 1)] None None;
       public_check 7 [("reads", JInt 2); ("shadow", JArr [])] None None;
       public_check 8 [("shadow", texts ["mismatch"]); ("dumps", JInt 0)] (Some [("ages", ints [60000])]) None];
    prefix_rule "future-dark-c0-reports-offset-and-fills" "rollbackMakesTheSeededFrameFutureAndReportsItsOffsetTest"
      [cmd "init" (-1); cmd "policy" 3; cmd "seed" 0; cmd "rollbackWall" (-1); cmd "beginCall" 0; cmd "releaseRead" 0; cmd
        "resolveLoader" 2; cmd "releaseDump" 0; cmd "releaseWrite" 0]
      [public_check 5 [] (Some [("futureOffsets", JArr [object [("layer", text "remote_shadow"); ("offsetMs", JInt 1000)]])]) None;
       public_check 8 [("shadow", texts ["filled"])] None None];
    prefix_rule "transient-request-dark-error-uses-request-layer" "transientRequestOnlySourceFailureIsAttributedToRequestLayerTest"
      [cmd "init" (-1); cmd "policy" 1; cmd "beginCall" 6; cmd "releaseRead" 0; cmd "rejectLoader" 0]
      [public_check 4 [("calls", ints [3]); ("shadow", texts ["source_error"])] (Some [("fallbackErrors", texts ["request_local"])]) None];
    prefix_rule "timed-out-dark-read-retains-capacity-until-raw-release" "timedOutDarkReadKeepsCapacityUntilRawReleaseTest"
      [cmd "init" (-1); cmd "policy" 3; cmd "beginCall" 0; cmd "resolveLoader" 1; cmd "advance" 10; cmd "beginCall" 1; cmd
        "resolveLoader" 3; cmd "releaseRead" 0; cmd "beginCall" 1]
      [public_check 4 [("calls", ints [1]); ("shadow", texts ["timeout"])] None None;
       public_check 5 [("calls", ints [1; 0]); ("loaders", JInt 2); ("reads", JInt 1); ("shadow", texts ["timeout"; "dropped"])] None None;
       public_check 7 [("reads", JInt 1); ("shadow", texts ["timeout"; "dropped"]); ("dumps", JInt 0); ("writes", JInt 0); ("loads", JInt 0)] None None;
       public_check 8 [("calls", ints [1; 1; 0]); ("loaders", JInt 3); ("reads", JInt 2); ("shadow", texts ["timeout"; "dropped"])] None None];
    prefix_rule "timed-out-dark-decode-retains-capacity-until-raw-release" "timedOutDarkDecodeKeepsCapacityUntilRawReleaseTest"
      [cmd "init" (-1); cmd "policy" 3; cmd "seed" 0; cmd "beginCall" 0; cmd "releaseRead" 0; cmd "resolveLoader" 2; cmd
        "advance" 10; cmd "beginCall" 1; cmd "resolveLoader" 3; cmd "releaseLoad" 0; cmd "beginCall" 1]
      [public_check 6 [("calls", ints [2]); ("shadow", texts ["timeout"])] None None;
       public_check 7 [("calls", ints [2; 0]); ("loaders", JInt 2); ("reads", JInt 1); ("shadow", texts ["timeout"; "dropped"])] None None;
       public_check 9 [("reads", JInt 1); ("shadow", texts ["timeout"; "dropped"]); ("dumps", JInt 0); ("writes", JInt 0)] None None;
       public_check 10 [("calls", ints [2; 1; 0]); ("loaders", JInt 3); ("reads", JInt 2); ("shadow", texts ["timeout"; "dropped"])] None None];
    prefix_rule "timed-out-dark-confirmation-retains-capacity-until-raw-release" "timedOutDarkConfirmationKeepsCapacityUntilRawReleaseTest"
      [cmd "init" (-1); cmd "policy" 3; cmd "seed" 0; cmd "beginCall" 0; cmd "releaseRead" 0; cmd "resolveLoader" 2; cmd
        "releaseLoad" 0; cmd "advance" 10; cmd "beginCall" 1; cmd "resolveLoader" 3; cmd "releaseRead" 1; cmd "beginCall" 1]
      [public_check 7 [("calls", ints [2]); ("shadow", texts ["timeout"])] None None;
       public_check 8 [("calls", ints [2; 0]); ("loaders", JInt 2); ("reads", JInt 2); ("shadow", texts ["timeout"; "dropped"])] None None;
       public_check 10 [("reads", JInt 2); ("shadow", texts ["timeout"; "dropped"]); ("dumps", JInt 0); ("writes", JInt 0)] None None;
       public_check 11 [("calls", ints [2; 1; 0]); ("loaders", JInt 3); ("reads", JInt 3); ("shadow", texts ["timeout"; "dropped"])] None None];
    prefix_rule "timed-out-dark-dump-retains-capacity-until-raw-release" "timedOutDarkDumpKeepsCapacityUntilRawReleaseTest"
      [cmd "init" (-1); cmd "policy" 3; cmd "beginCall" 0; cmd "releaseRead" 0; cmd "resolveLoader" 1; cmd "advance" 10;
        cmd "beginCall" 1; cmd "resolveLoader" 3; cmd "releaseDump" 0; cmd "beginCall" 1]
      [public_check 5 [("calls", ints [1]); ("shadow", texts ["timeout"])] None None;
       public_check 6 [("calls", ints [1; 0]); ("loaders", JInt 2); ("reads", JInt 1); ("shadow", texts ["timeout"; "dropped"])] None None;
       public_check 8 [("reads", JInt 1); ("shadow", texts ["timeout"; "dropped"]); ("writes", JInt 0)] None None;
       public_check 9 [("calls", ints [1; 1; 0]); ("loaders", JInt 3); ("reads", JInt 2); ("shadow", texts ["timeout"; "dropped"])] None None];
    prefix_rule "timed-out-dark-write-retains-capacity-until-raw-release" "timedOutDarkWriteKeepsCapacityUntilRawReleaseTest"
      [cmd "init" (-1); cmd "policy" 3; cmd "beginCall" 0; cmd "releaseRead" 0; cmd "resolveLoader" 1; cmd "releaseDump" 0;
        cmd "advance" 10; cmd "beginCall" 1; cmd "resolveLoader" 3; cmd "releaseWrite" 0; cmd "beginCall" 1]
      [public_check 6 [("calls", ints [1]); ("shadow", texts ["timeout"])] None None;
       public_check 7 [("calls", ints [1; 0]); ("loaders", JInt 2); ("reads", JInt 1); ("shadow", texts ["timeout"; "dropped"])] None None;
       public_check 9 [("reads", JInt 1); ("shadow", texts ["timeout"; "dropped"]); ("writes", JInt 1)] None None;
       public_check 10 [("calls", ints [1; 1; 0]); ("loaders", JInt 3); ("reads", JInt 2); ("shadow", texts ["timeout"; "dropped"])] None None]].
