(* ===== verification/WitnessGate.v ===== *)
(** * The completion gate

    [formal/replay/witnesses/index.mjs]: the labels a corpus of histories
    earns ([evaluateCorpus]) and what of the required labels and declared
    actions is missing ([checkCorpus]), for the profiles whose labels are those
    of their actions and of public-prefix rules.  The gate passes exactly when
    everything required really happened in some history. *)

From S2P Require Import Prelude JsValue Duration Utf8 Config Key Metrics Frame Json JsonText LogText JsonDiff Pattern ProtocolSchema Itf Divergence ReplayProfiles ReplayEffects ReplayFeatures ReplayCatalog Witness WitnessRules.
#[local] Open Scope string_scope.
#[local] Open Scope Z_scope.
#[local] Open Scope list_scope.
Import Features Catalog.

(** ** The gate *)

(** The rules of the profiles [evaluateCorpus] handles by [actionLabels] and
    one call of [publicPrefixWitnesses]. *)
Definition prefix_profiles : list (string * list witness_rule) :=
  [("shadow-layers", shadowLayersWitnessRules); ("shadow-read-deadlines", shadowReadDeadlinesWitnessRules);
   ("local-failure", localFailureWitnessRules); ("source-budgets", sourceBudgetsWitnessRules)].

Definition evaluateCorpus (rules : list witness_rule) (corpus : list history) (r : recorder) : res recorder :=
  r ← actionLabels corpus r; publicPrefixWitnesses rules corpus r.

(** [Object.keys(definition.actions)] *)
Definition requiredActions (p : profile) : list jsstr := List.map (fun '(name, _) => js name) (pf_actions p).

(** [registry[profile]], a nonempty array. *)
Definition requiredWitnesses (registry : string -> option (list jsstr)) (name : string) : res (list jsstr) :=
  match registry name with
  | Some (label :: labels) => Ok (label :: labels)
  | _ => Err (PlainError "No required witnesses registered")
  end.

(** The parts of [checkCorpus]'s result that depend on the labels. *)
Record gate_result := Gate {
  g_seen : list jsstr;
  g_required : list jsstr;
  g_missing : list jsstr;
  g_provenance : list (jsstr * list (jsstr * list nat))
}.

Definition lacks (names : list jsstr) (name : jsstr) : bool := negb (existsb (str_eqb name) names).

Definition checkCorpus (name : string) (p : profile) (rules : list witness_rule) (corpus : list history)
    (registry : string -> option (list jsstr)) : res gate_result :=
  match corpus with
  | [] => Err (PlainError "No histories to evaluate")
  | _ =>
      r ← evaluateCorpus rules corpus createWitnessRecorder;
      let seen := labels_of r in
      let actions := flat_map (fun h => List.map (fun s => action_text (fs_action s)) (h_steps h)) corpus in
      required ← requiredWitnesses registry name;
      Ok (Gate seen required
            (List.map (fun action => js "action:" ++ action) (List.filter (lacks actions) (requiredActions p))
             ++ List.filter (lacks seen) required)
            (provenance r))
  end.

(** ** Commands a history can record *)

Definition allowed_choices (choices : option (list Z)) : list Z := match choices with Some l => l | None => [-1] end.

Definition declares (p : profile) (index : nat) (cmd : jsstr) : bool :=
  if (index =? 0)%nat then existsb (fun choice => str_eqb cmd (witnessCommand (js "init") choice)) (allowed_choices (pf_initChoices p))
  else existsb (fun '(name, action) =>
         existsb (fun choice => str_eqb cmd (witnessCommand (js name) choice)) (allowed_choices (fa_choices action))) (pf_actions p).

Definition replayable (p : profile) (commands : list jsstr) : bool :=
  forallb (fun '(index, cmd) => declares p index cmd) (zip (seq 0 (length commands)) commands).

(** The observations a rule names are channels the profile records. *)
Definition in_shape (c : checkpoint) : bool :=
  forallb (fun '(key, _) => existsb (fun '(name, _) => str_eqb key (js name)) (emptyObservation false)) (ck_observation c).

Definition observable (p : profile) (rule : witness_rule) : bool :=
  forallb (fun c => in_shape c
    && (match ck_diagnostics c with Some _ => match pf_diagnosticAge p with Some _ => true | None => false end | None => true end)
    && (match ck_io c with Some _ => pf_readIO p | None => true end)) (wr_checkpoints rule).

(** The tables of rules and the profile each is evaluated for. *)
Definition rule_tables : list (string * list witness_rule) :=
  prefix_profiles ++ [("recovery-read", recoveryAdmissionWitnessRules); ("shadow", shadowDiagnosticsWitnessRules); ("dark-layers", darkLayersWitnessRules)].

Lemma tables_declared :
  forallb (fun '(name, rules) =>
    match profile_of (js name) with
    | Some p => forallb (fun rule => rule_ok rule && replayable p (wr_commands rule) && observable p rule) rules
    | None => false
    end) rule_tables = true.
Proof. vm_compute. reflexivity. Qed.

(** ** The registry *)

(** The entries of [formal/catalogs/coverage-witnesses.json] for these profiles. *)
Definition shadow_layers_required : list string :=
  ["dark-present-c0-never-publishes-local";
   "dark-local-source-publication-stops-later-shadow";
   "dark-present-c0-never-publishes-request";
   "dark-request-source-publication-is-scope-local";
   "dark-job-dedup-preserves-independent-source-values";
   "dark-eligible-stale-c0-never-recovers";
   "invalid-dark-shadow-preserves-local-source-publication";
   "unbounded-caller-outlives-released-dark-job";
   "mixed-shadow-capacity-retains-only-owned-source";
   "mixed-shadow-capacity-is-per-instance";
   "validated-remote-hit-warms-local-and-stops-shadow";
   "served-diagnostic-source-never-publishes-local";
   "shadow-cohort-below-does-not-admit";
   "shadow-cohort-equality-does-not-admit";
   "shadow-cohort-above-admits";
   "dark-fill-policy-snapshot-controls-physical-expiry";
   "retained-fresh-c0-compares-after-freshness-boundary";
   "expired-c0-miss-fills-source-and-serves-probe";
   "acquired-c0-miss-does-not-reread-before-fill";
   "dark-propagated-timeout-is-source-error";
   "served-propagated-timeout-preserves-hit";
   "ordinary-serving-miss-has-no-diagnostic-source"].

Definition shadow_read_deadlines_required : list string :=
  ["c0-read-timeout-retains-raw-capacity";
   "c1-read-timeout-retains-raw-capacity";
   "job-then-read-timeout-has-one-verdict";
   "confirmation-keeps-captured-read-budget";
   "confirmation-read-budget-starts-at-dispatch";
   "timely-shadow-read-cancels-deadline-and-fills"].

Definition local_failure_required : list string :=
  ["failed-local-read-preserves-old-value-and-memoizes-remote";
   "failed-local-read-suppresses-later-source-publication";
   "failed-local-write-keeps-result-and-request-memo";
   "rejected-source-preserves-previous-local-publication"].

Definition source_budgets_required : list string :=
  ["outside-calls-skip-source-deadlines-sharing-and-publication";
   "default-source-budget-expires-at-sixty-seconds";
   "unbounded-enabled-source-publishes-after-sixty-seconds";
   "late-follower-keeps-leaders-remaining-source-budget";
   "policy-wait-does-not-spend-source-budget";
   "invalid-enabled-key-preserves-source-deadline";
   "abandoned-source-cannot-replace-successful-retry"].

(** [registry[profile]] *)
Definition coverage_witnesses (name : string) : option (list jsstr) :=
  List.map js <$>
  (if String.eqb name "shadow-layers" then Some shadow_layers_required
   else if String.eqb name "shadow-read-deadlines" then Some shadow_read_deadlines_required
   else if String.eqb name "local-failure" then Some local_failure_required
   else if String.eqb name "source-budgets" then Some source_budgets_required
   else None).

(** The registry requires exactly the rules. *)
Lemma registry_requires_rules :
  forallb (fun '(name, rules) =>
    match coverage_witnesses name with
    | Some labels =>
        forallb (fun label => existsb (fun rule => str_eqb label (wr_name rule)) rules) labels
        && forallb (fun rule => existsb (str_eqb (wr_name rule)) labels) rules && (length labels =? length rules)%nat
    | None => false
    end) prefix_profiles = true.
Proof. vm_compute. reflexivity. Qed.

(** ** Lemmas: a parsed history is observed without errors *)

Lemma decode_object m v :
  has_member m (js "#bigint") = false -> decodeIntegers (JObj m) = Ok v ->
  exists m', v = JObj m' /\ Forall2 (fun x y => x.1 = y.1 /\ decodeIntegers x.2 = Ok y.2) m m'.
Proof.
  intros Hm. cbn [decodeIntegers]. rewrite Hm. clear Hm. intros (m' & H & [= <-])%result_bind_ok. exists m'. split; [done|].
  revert m' H. induction m as [|[k x] m IH]; intros m'; [intros [= <-]; constructor|].
  intros (y & Hy & (ys & Hys & [= <-])%result_bind_ok)%result_bind_ok. constructor; [done|by apply IH].
Qed.

Lemma assoc_decoded m m' key x :
  Forall2 (fun x y => x.1 = y.1 /\ decodeIntegers x.2 = Ok y.2) m m' -> assoc key m = Some x -> exists y, decodeIntegers x = Ok y.
Proof.
  induction 1 as [|[k a] [k' b] m m' [Hk Ha] H IH]; simpl in *; [done|]. subst k'. destruct (str_eqb k key); [|done].
  intros [= <-]. eauto.
Qed.

(** Two members are two keys. *)
Lemma two_members (m : list (jsstr * jsval)) a b x y :
  a <> b -> assoc a m = Some x -> assoc b m = Some y -> (2 <= length m)%nat.
Proof.
  intros Hne Ha Hb. destruct m as [|[k v] [|z m]]; simpl in *; [done| |lia].
  destruct (str_eqb k a) eqn:E1; [|done]. destruct (str_eqb k b) eqn:E2; [|done].
  apply str_eqb_eq in E1 as ->. by apply str_eqb_eq in E2.
Qed.

(** The members of a decoded state decode. *)
Lemma member_decodes m v o key :
  decodeIntegers (JObj m) = Ok v -> assoc (js "o") m = Some o -> exists y, decodeIntegers (member m key) = Ok y.
Proof.
  intros H Ho. unfold member. destruct (assoc (js key) m) as [x|] eqn:Ex; [|by exists JUndefined]. simpl.
  destruct (has_member m (js "#bigint")) eqn:Eb.
  - exfalso. unfold has_member in Eb. destruct (assoc (js "#bigint") m) as [b|] eqn:Ea; [|done].
    pose proof (two_members m (js "o") (js "#bigint") o b ltac:(done) Ho Ea) as Hl.
    cbn [decodeIntegers] in H. unfold has_member in H. rewrite Ea in H. unfold decode_bigint in H.
    unfold member in H. rewrite Ea in H. simpl in H. destruct b; try done.
    destruct (Nat.eqb_spec (length (Object_keys m)) 1) as [E|]; [|done]. unfold Object_keys in E. rewrite length_map in E. lia.
  - destruct (decode_object _ _ Eb H) as (m' & _ & HF). by eapply assoc_decoded.
Qed.

Lemma join_has (c : Z) sep (l : list jsstr) key : In key l -> In c key -> In c (Json.join sep l).
Proof.
  induction l as [|x l IH]; [done|]. intros Hin Hc. destruct l as [|y l].
  - destruct Hin as [->|[]]. simpl. done.
  - rewrite join_texts_cons by done. rewrite !in_app_iff. destruct Hin as [->|Hin]; [by left|]. right. right. by apply IH.
Qed.

(** An object whose keys are listed without a hash sign is no integer. *)
Lemma keys_no_bigint m s : sorted_keys m = s -> ~ In 35 s -> has_member m (js "#bigint") = false.
Proof.
  intros <- Hs. destruct (has_member m (js "#bigint")) eqn:E; [|done]. exfalso. apply Hs. unfold has_member in E.
  destruct (assoc (js "#bigint") m) as [v|] eqn:Ea; [|done]. unfold sorted_keys.
  apply (join_has 35 _ _ (js "#bigint")); [|by left]. apply list_elem_of_In. rewrite sort_names_perm. apply list_elem_of_In.
  unfold Object_keys. apply in_map_iff. exists (js "#bigint", v). split; [done|]. by apply assoc_In.
Qed.

Lemma declared_text p index action choices : declared_choices p index action = Some choices -> exists s, action = JStr s.
Proof.
  unfold declared_choices, action_of. destruct (index =? 0)%nat.
  - destruct (strict_eq action (JStr (js "init"))) eqn:E; [|done]. intros _. destruct action; try done. eauto.
  - destruct (List.find _ (pf_actions p)) as [[n f]|] eqn:E; [|done]. intros _. apply find_some in E as [_ E].
    destruct action; try done. eauto.
Qed.

(** What [observe_state] sees of a parsed step. *)
Lemma observe_parsed p index raw s prediction :
  feature_parse_step p index raw = Ok s ->
  (state ← record raw; s ← record (member state "s"); decodeIntegers (JObj s)) = Ok prediction ->
  exists view, observe_state raw = Ok (witnessCommand (action_text (fs_action s)) (fs_choice s), view) /\
    (pf_readIO p = true -> exists io, v_io view = JObj io).
Proof.
  unfold feature_parse_step. intros (state & Hs & H)%result_bind_ok Hp. rewrite Hs in Hp. cbn [mbind result_bind] in Hp.
  apply result_bind_ok in H as (input & Hi & H). destruct (negb _); [done|].
  destruct (declared_choices p index (member input "name")) as [choices|] eqn:Ed; [|done].
  apply declared_text in Ed as [name Hname]. apply result_bind_ok in H as (choice & Hc & H). destruct (negb _); [done|].
  apply result_bind_ok in H as (u & _ & H). apply result_bind_ok in H as (sm & Hsm & H). rewrite Hsm in Hp. cbn [mbind result_bind] in Hp.
  apply result_bind_ok in H as (expected & Ho & H). apply result_bind_ok in H as (pe & _ & H). apply result_bind_ok in H as (co & _ & H).
  apply result_bind_ok in H as (ma & _ & H). apply result_bind_ok in H as (io & Hio & H). apply result_bind_ok in H as (d & _ & [= <-]).
  cbn [fs_action fs_choice]. unfold observation in Ho. apply result_bind_ok in Ho as (om & Hom & Ho).
  destruct (str_eqb (sorted_keys om) _) eqn:Ek; [|done]. apply str_eqb_eq in Ek. clear Ho.
  assert (member sm "o" = JObj om) as Emo by (destruct (member sm "o"); try done; by injection Hom as ->).
  assert (assoc (js "o") sm = Some (JObj om)) as Eo by (unfold member in Emo; destruct (assoc (js "o") sm); simpl in Emo; [by subst|done]).
  destruct (member_decodes _ _ _ "o" Hp Eo) as [ov Hov]. destruct (member_decodes _ _ _ "d" Hp Eo) as [dv Hdv].
  destruct (member_decodes _ _ _ "io" Hp Eo) as [iv Hiv]. pose proof Hov as Hov2. rewrite Emo in Hov2.
  apply decode_object in Hov2 as (om' & -> & _);
    [|apply (keys_no_bigint _ _ Ek); vm_compute; intros Hin; repeat (destruct Hin as [Hin|Hin]; [discriminate Hin|]); done].
  exists (View om' dv iv). split.
  - unfold observe_state, explicitInput. rewrite Hs. cbn [mbind result_bind]. rewrite Hi. cbn [mbind result_bind]. rewrite Hname.
    cbn [mbind result_bind]. rewrite Hc. cbn [mbind result_bind]. rewrite Hsm. cbn [mbind result_bind]. rewrite Hov. cbn [mbind result_bind record].
    rewrite Hdv. cbn [mbind result_bind]. by rewrite Hiv.
  - intros Hr. unfold when_ok in Hio. rewrite Hr in Hio. apply result_bind_ok in Hio as (rv & Hrv & _). unfold readIO in Hrv.
    apply result_bind_ok in Hrv as (im & Him & Hrv). destruct (str_eqb (sorted_keys im) _) eqn:Ei; [|done]. apply str_eqb_eq in Ei.
    assert (member sm "io" = JObj im) as Emi by (destruct (member sm "io"); try done; by injection Him as ->). rewrite Emi in Hiv.
    apply decode_object in Hiv as (im' & -> & _);
      [|apply (keys_no_bigint _ _ Ei); vm_compute; intros Hin; repeat (destruct Hin as [Hin|Hin]; [discriminate Hin|]); done].
    by exists im'.
Qed.

Definition step_command (s : feature_step) : jsstr := witnessCommand (action_text (fs_action s)) (fs_choice s).

Lemma observe_steps p states : forall index steps predictions,
  map_steps (feature_parse_step p) index states = Ok steps ->
  map_res (fun state => state ← record state; s ← record (member state "s"); decodeIntegers (JObj s)) states = Ok predictions ->
  exists observed, map_res observe_state states = Ok observed /\ List.map fst observed = List.map step_command steps /\
    (pf_readIO p = true -> Forall (fun v => exists io, v_io v = JObj io) (List.map snd observed)).
Proof.
  induction states as [|raw states IH]; intros index steps predictions; cbn [map_steps map_res].
  { intros [= <-] _. exists []. split; [done|]. split; [done|]. constructor. }
  intros (s & Hs & (more & Hm & [= <-])%result_bind_ok)%result_bind_ok (pr & Hp & (prs & Hps & [= <-])%result_bind_ok)%result_bind_ok.
  destruct (observe_parsed _ _ _ _ _ Hs Hp) as (view & Hv & Hio). destruct (IH _ _ _ Hm Hps) as (observed & Ho & Hc & Hf).
  exists ((step_command s, view) :: observed). rewrite Hv. cbn [mbind result_bind]. rewrite Ho. split; [done|]. split; [simpl; by rewrite Hc|].
  intros Hr. simpl. constructor; auto.
Qed.

(** A parsed history: its commands are those of its steps. *)
Lemma observe_history p path raw h :
  parse_history p path raw = Ok h ->
  h_path h = path /\ exists observed, map_res observe_state (h_states h) = Ok observed /\ List.map fst observed = List.map step_command (h_steps h) /\
    (pf_readIO p = true -> Forall (fun v => exists io, v_io v = JObj io) (List.map snd observed)).
Proof.
  unfold parse_history. intros (steps & Hs & (decoded & Hd & [= <-])%result_bind_ok)%result_bind_ok. split; [done|]. cbn [h_states h_steps].
  unfold feature_parseTrace in Hs. apply result_bind_ok in Hs as (parsed & Hr & Hs). apply result_bind_ok in Hs as (states & Hst & Hs).
  unfold witnessStates, traceStates in Hd. rewrite Hr in Hd. cbn [mbind result_bind] in Hd.
  unfold trace_states in Hst. destruct (member parsed "states") as [| | | | |items| |]; try done. destruct (_ <? _)%nat; [done|]. injection Hst as ->.
  cbn [mbind result_bind] in Hd. apply result_bind_ok in Hd as (predictions & Hp & [= <-]). cbn [fst]. by eapply observe_steps.
Qed.

(** No diagnostics, and read observations only where the profile has them. *)
Definition plain_rule (p : profile) (rule : witness_rule) : bool :=
  rule_ok rule && forallb (fun c => match ck_diagnostics c with None => true | Some _ => false end
                                    && match ck_io c with Some _ => pf_readIO p | None => true end) (wr_checkpoints rule).

Lemma every_checkpoint_total p views cs :
  (pf_readIO p = true -> Forall (fun v => exists io, v_io v = JObj io) views) ->
  Forall (fun c => (ck_step c < length views)%nat /\ ck_diagnostics c = None /\ (ck_io c <> None -> pf_readIO p = true)) cs ->
  exists b, every_checkpoint views cs = Ok b.
Proof.
  intros Hv. induction 1 as [|c cs (Hl & Hd & Hio) Hcs IH]; cbn [every_checkpoint]; [eauto|].
  assert (exists b, checkpoint_holds views c = Ok b) as [b Eb].
  { unfold checkpoint_holds. destruct (lookup_lt_is_Some_2 _ _ Hl) as [view Hview]. rewrite Hview. destruct (negb _); [eauto|].
    unfold channel_holds at 1. rewrite Hd. cbn [mbind result_bind negb]. unfold channel_holds. destruct (ck_io c) as [e|]; [|eauto].
    specialize (Hv (Hio ltac:(done))). rewrite list.Forall_lookup in Hv. destruct (Hv _ _ Hview) as [io ->]. simpl. eauto. }
  rewrite Eb. cbn [mbind result_bind]. destruct b; [exact IH|eauto].
Qed.

Lemma credit_rules_total p commands views rules h : forall r,
  length commands = length views -> (pf_readIO p = true -> Forall (fun v => exists io, v_io v = JObj io) views) ->
  forallb (plain_rule p) rules = true -> rc_history r = Some h -> exists r', credit_rules commands views rules r = Ok r'.
Proof.
  induction rules as [|rule rules IH]; intros r Hl Hv; cbn [credit_rules forallb]; [eauto|]. intros [Hr Hrs]%andb_true_iff Hh.
  destruct (starts_with_commands (wr_commands rule) commands) eqn:Es; cbn [negb]; [|by apply IH].
  apply starts_with_prefix, prefix_length in Es. unfold plain_rule, rule_ok in Hr.
  apply andb_true_iff in Hr as [[[Hn Hc]%andb_true_iff Hlt]%andb_true_iff Hch].
  destruct (every_checkpoint_total p views (wr_checkpoints rule) Hv) as [b Eb].
  { apply list.Forall_forall. intros c Hin%list_elem_of_In. rewrite forallb_forall in Hlt, Hch. specialize (Hlt c Hin). specialize (Hch c Hin).
    apply Nat.ltb_lt in Hlt. split; [lia|]. destruct (ck_diagnostics c), (ck_io c); try done. }
  rewrite Eb. cbn [mbind result_bind]. destruct b; [|by apply IH].
  destruct (credit_total (wr_name rule) (List.map ck_step (wr_checkpoints rule)) r h) as [r1 E1]; [|done|].
  { intros E. rewrite E in Hn. done. }
  rewrite E1. cbn [mbind result_bind]. apply credit_adds with (h := h) in E1 as [E1 _]; [|done]. by apply IH.
Qed.

(** ** Lemmas: the recorder of an evaluated corpus *)

Definition parsed_corpus (p : profile) (corpus : list history) : Prop :=
  Forall (fun h => exists raw, h_path h <> [] /\ parse_history p (h_path h) raw = Ok h) corpus.

Definition happened (rules : list witness_rule) (h : history) (label : jsstr) (c : nat) : Prop := took h label c \/ earned rules h label c.

Lemma evaluate_total p rules corpus r :
  parsed_corpus p corpus -> forallb (plain_rule p) rules = true -> exists r', evaluateCorpus rules corpus r = Ok r'.
Proof.
  intros Hc Hr. unfold evaluateCorpus. destruct (actionLabels_total corpus r) as [r1 E1].
  { eapply list.Forall_impl; [exact Hc|]. by intros h (raw & Hp & _). }
  rewrite E1. cbn [mbind result_bind]. apply for_histories_total. eapply list.Forall_impl; [exact Hc|]. intros h (raw & Hp & Hh).
  split; [done|]. intros r0 H0. destruct (observe_history _ _ _ _ Hh) as (_ & observed & Ho & _ & Hio). rewrite Ho. cbn [mbind result_bind].
  eapply credit_rules_total; [by rewrite !length_map|done|done|done].
Qed.

Lemma evaluate_adds rules corpus r r' :
  forallb rule_ok rules = true -> evaluateCorpus rules corpus r = Ok r' ->
  adds r r' (fun l n c => exists h, In h corpus /\ n = basename (h_path h) /\ happened rules h l c).
Proof.
  intros Hok (r1 & E1%actionLabels_adds & E2)%result_bind_ok. apply publicPrefix_adds in E2; [|done].
  eapply adds_iff; [|exact (adds_trans _ _ _ _ _ E1 E2)]. intros l n c. unfold happened. naive_solver.
Qed.

(** The provenance lists what the recorder holds. *)
Definition listed (p : list (jsstr * list (jsstr * list nat))) (label name : jsstr) (c : nat) : Prop :=
  exists histories steps, map_get label p = Some histories /\ map_get name histories = Some steps /\ In c steps.

Lemma map_get_map {A B} (f : A -> B) key m : map_get key (List.map (fun '(k, v) => (k, f v)) m) = f <$> map_get key m.
Proof. induction m as [|[k v] m IH]; simpl; [done|]. by destruct (str_eqb k key). Qed.

Lemma provenance_listed r label name c : listed (provenance r) label name c <-> credited r label name c.
Proof.
  unfold listed, credited, provenance. rewrite map_get_map. split.
  - intros (hs & cs & (hs' & E & ->)%fmap_Some & Hn & Hc). rewrite map_get_map in Hn. apply fmap_Some in Hn as (cs' & En & ->).
    exists hs', cs'. split; [done|]. split; [done|]. apply list_elem_of_In. rewrite <- (merge_sort_Permutation Nat.le cs'). by apply list_elem_of_In.
  - intros (hs & cs & E & Hn & Hc). rewrite E. simpl. eexists _, _. split; [done|]. rewrite map_get_map, Hn. split; [done|].
    apply list_elem_of_In. rewrite (merge_sort_Permutation Nat.le cs). by apply list_elem_of_In.
Qed.

Lemma prefix_rules_plain :
  forallb (fun '(name, rules) =>
    match profile_of (js name) with Some p => forallb (fun rule => plain_rule p rule) rules | None => false end) prefix_profiles = true.
Proof. vm_compute. reflexivity. Qed.

Lemma plain_rules name rules p :
  In (name, rules) prefix_profiles -> profile_of (js name) = Some p ->
  forallb (plain_rule p) rules = true /\ forallb rule_ok rules = true.
Proof.
  intros Hin Hp. pose proof prefix_rules_plain as H. rewrite forallb_forall in H. specialize (H _ Hin). simpl in H. rewrite Hp in H.
  split; [done|]. rewrite forallb_forall in H |- *. intros rule Hr. specialize (H rule Hr). unfold plain_rule in H. by apply andb_true_iff in H as [H _].
Qed.

Lemma filter_lacks_nil names l : List.filter (lacks names) l = [] <-> forall x, In x l -> In x names.
Proof.
  split.
  - intros H x Hx. destruct (existsb (str_eqb x) names) eqn:E.
    + apply existsb_exists in E as (y & Hy & E). apply str_eqb_eq in E as ->. done.
    + assert (In x (List.filter (lacks names) l)) as Hin by (apply filter_In; split; [done|]; unfold lacks; by rewrite E). by rewrite H in Hin.
  - intros H. destruct (List.filter (lacks names) l) as [|x r] eqn:E; [done|].
    assert (In x (List.filter (lacks names) l)) as Hin by (rewrite E; by left). apply filter_In in Hin as [Hin Hl]. exfalso.
    unfold lacks in Hl. apply negb_true_iff in Hl. apply H in Hin. assert (existsb (str_eqb x) names = true); [|congruence].
    apply existsb_exists. exists x. split; [done|by apply str_eqb_refl].
Qed.

Lemma both_iff (A B C D : Prop) : (A <-> C) -> (B <-> D) -> (A /\ B <-> C /\ D).
Proof. tauto. Qed.

(** The gate for any registry: what is missing and what is listed, in terms of
    what happened. *)
Lemma gate_exact name rules p corpus registry required :
  In (name, rules) prefix_profiles -> profile_of (js name) = Some p ->
  parsed_corpus p corpus -> corpus <> [] -> requiredWitnesses registry name = Ok required ->
  exists g, checkCorpus name p rules corpus registry = Ok g /\
    (g_missing g = [] <->
       (forall action, In action (requiredActions p) ->
          exists h s, In h corpus /\ In s (h_steps h) /\ action_text (fs_action s) = action) /\
       (forall label, In label required -> exists h c, In h corpus /\ happened rules h label c)) /\
    (forall label n c, listed (g_provenance g) label n c <->
       exists h, In h corpus /\ n = basename (h_path h) /\ happened rules h label c).
Proof.
  intros Hin Hp Hc Hne Hreq. destruct (plain_rules _ _ _ Hin Hp) as [Hplain Hok].
  destruct (evaluate_total p rules corpus createWitnessRecorder Hc Hplain) as [r E].
  pose proof (evaluate_adds _ _ _ _ Hok E) as [Hadd Hback]. specialize (Hback ltac:(by intros l [])).
  assert (forall l n c, credited r l n c <-> exists h, In h corpus /\ n = basename (h_path h) /\ happened rules h l c) as Hcr.
  { intros l n c. rewrite Hadd. split; [intros [(hs & cs & [=] & _)|H]; done|by right]. }
  unfold checkCorpus. destruct corpus as [|h0 corpus0]; [done|]. rewrite E. cbn [mbind result_bind]. rewrite Hreq. cbn [mbind result_bind].
  set (corpus := h0 :: corpus0) in *. eexists. split; [done|]. cbn [g_missing g_provenance]. split.
  - transitivity ((forall a, In a (requiredActions p) -> In a (flat_map (fun h => List.map (fun s => action_text (fs_action s)) (h_steps h)) corpus)) /\
                  (forall l, In l required -> In l (labels_of r))).
    + rewrite <- !filter_lacks_nil. split; [intros [H1 H2]%app_eq_nil; split; [by apply map_eq_nil in H1|done]|intros [-> ->]; done].
    + apply both_iff.
      * split; intros H a Ha; specialize (H a Ha).
        -- apply in_flat_map in H as (h & Hh & (s & Hs & Hin')%in_map_iff). eauto.
        -- destruct H as (h & s & Hh & Hs & <-). apply in_flat_map. exists h. split; [done|]. apply in_map_iff. eauto.
      * split; intros H l Hl; specialize (H l Hl).
        -- destruct (Hback l H) as (n & c & Hn). apply Hcr in Hn as (h & Hh & _ & Hhap). eauto.
        -- destruct H as (h & c & Hh & Hhap). assert (credited r l (basename (h_path h)) c) as (hs & cs & Hg & _) by (apply Hcr; eauto).
           unfold labels_of. apply map_get_In. eauto.
  - intros l n c. rewrite provenance_listed. apply Hcr.
Qed.

(** ** Rules and their labels *)

Lemma rule_labels :
  forallb (fun '(name, rules) =>
    bool_decide (NoDup (List.map wr_name rules)) && forallb (fun rule => match Json.strip_prefix (js "action:") (wr_name rule) with None => true | Some _ => false end) rules)
    prefix_profiles = true.
Proof. vm_compute. reflexivity. Qed.

Lemma strip_prefix_app pre s : Json.strip_prefix pre (pre ++ s) = Some s.
Proof. induction pre as [|c pre IH]; simpl; [done|]. by rewrite Z.eqb_refl. Qed.

Lemma NoDup_map_inj {A} (f : A -> jsstr) l x y : NoDup (List.map f l) -> In x l -> In y l -> f x = f y -> x = y.
Proof.
  induction l as [|z l IH]; simpl; [done|]. intros [Hn Hnd]%list.NoDup_cons [->|Hx] [->|Hy] E; [done| | |by apply IH].
  - destruct Hn. rewrite E. apply list_elem_of_In, in_map_iff. eauto.
  - destruct Hn. rewrite <- E. apply list_elem_of_In, in_map_iff. eauto.
Qed.

(** The label of a rule happens exactly where the rule is satisfied. *)
Lemma happened_rule name rules rule h c :
  In (name, rules) prefix_profiles -> In rule rules ->
  happened rules h (wr_name rule) c <-> satisfies h rule /\ In c (List.map ck_step (wr_checkpoints rule)).
Proof.
  intros Hin Hr. pose proof rule_labels as H. rewrite forallb_forall in H. specialize (H _ Hin). cbv beta iota in H.
  apply andb_true_iff in H as [Hnd Hpre]. apply bool_decide_eq_true in Hnd. rewrite forallb_forall in Hpre. split.
  - intros [(s & _ & E)|(rule' & Hr' & E & Hc & Hs)].
    + specialize (Hpre _ Hr). rewrite E in Hpre. unfold action_label in Hpre. by rewrite strip_prefix_app in Hpre.
    + rewrite (NoDup_map_inj wr_name rules rule rule' Hnd Hr Hr' E). done.
  - intros [Hs Hc]. right. exists rule. done.
Qed.

(** The shipped registry requires the labels of the rules. *)
Lemma registry_rules name rules :
  In (name, rules) prefix_profiles ->
  exists required, requiredWitnesses coverage_witnesses name = Ok required /\ forall label, In label required <-> In label (List.map wr_name rules).
Proof.
  intros Hin. pose proof registry_requires_rules as H. rewrite forallb_forall in H. specialize (H _ Hin). simpl in H.
  unfold requiredWitnesses. destruct (coverage_witnesses name) as [[|l labels]|]; [|exists (l :: labels); split; [done|]|done].
  - simpl in H. destruct rules; [|by rewrite andb_false_r in H]. exfalso. revert Hin. simpl. intros H'. repeat (destruct H' as [H'|H']; [discriminate H'|]). done.
  - apply andb_true_iff in H as [[H1 H2]%andb_true_iff _]. rewrite forallb_forall in H1, H2. intros label. rewrite in_map_iff. split.
    + intros Hl. specialize (H1 _ Hl). apply existsb_exists in H1 as (rule & Hr & E). apply str_eqb_eq in E. eauto.
    + intros (rule & <- & Hr). specialize (H2 _ Hr). apply existsb_exists in H2 as (x & Hx & E). by apply str_eqb_eq in E as ->.
Qed.

(** ** Properties *)

(** C35. The completion gate is exact: for every profile whose labels come from
    its actions and public-prefix rules, and any nonempty corpus of histories
    the parser accepts, the gate with the shipped registry gives a verdict;
    nothing is missing exactly when every declared action was taken in some
    history and every rule of the profile is satisfied by some history, which
    begins with the rule's commands and meets all its checkpoints; and the
    provenance lists a rule for exactly the histories that satisfy it, at
    exactly its checkpoints. *)
Theorem completion_gate_is_exact name rules p corpus :
  In (name, rules) prefix_profiles -> profile_of (js name) = Some p -> parsed_corpus p corpus -> corpus <> [] ->
  exists g, checkCorpus name p rules corpus coverage_witnesses = Ok g /\
    (g_missing g = [] <->
       (forall action, In action (requiredActions p) ->
          exists h s, In h corpus /\ In s (h_steps h) /\ action_text (fs_action s) = action) /\
       (forall rule, In rule rules -> exists h, In h corpus /\ satisfies h rule)) /\
    (forall rule n c, In rule rules -> listed (g_provenance g) (wr_name rule) n c <->
       exists h, In h corpus /\ n = basename (h_path h) /\ satisfies h rule /\ In c (List.map ck_step (wr_checkpoints rule))).
Proof.
  intros Hin Hp Hc Hne. destruct (registry_rules _ _ Hin) as (required & Hreq & Hlab). destruct (plain_rules _ _ _ Hin Hp) as [_ Hok].
  destruct (gate_exact _ _ _ _ _ _ Hin Hp Hc Hne Hreq) as (g & Hg & Hm & Hl). exists g. split; [done|]. split.
  - rewrite Hm. apply both_iff; [done|]. split.
    + intros H rule Hr. destruct (H (wr_name rule)) as (h & c & Hh & Hhap); [apply Hlab, in_map_iff; eauto|].
      apply (happened_rule _ _ _ _ _ Hin Hr) in Hhap as [Hs _]. eauto.
    + intros H label (rule & <- & Hr)%Hlab%in_map_iff. destruct (H rule Hr) as (h & Hh & Hs).
      rewrite forallb_forall in Hok. specialize (Hok _ Hr). unfold rule_ok in Hok.
      destruct (wr_checkpoints rule) as [|ck cks] eqn:Ec; [by rewrite andb_false_r in Hok|].
      exists h, (ck_step ck). split; [done|]. apply (happened_rule _ _ _ _ _ Hin Hr). split; [done|]. rewrite Ec. by left.
  - intros rule n c Hr. rewrite Hl. split; intros (h & Hh & Hn & H); exists h; (split; [done|]); (split; [done|]);
      by apply (happened_rule _ _ _ _ _ Hin Hr).
Qed.

(** Every rule can be earned: each rule of every table has a name and
    checkpoints within its commands, the commands are those a history of its
    profile can record, an initial state first and then declared actions with
    declared choices, and what it expects are observations the profile
    records. *)
Theorem witness_rules_are_replayable name rules rule :
  In (name, rules) rule_tables -> In rule rules ->
  exists p, profile_of (js name) = Some p /\ rule_ok rule = true /\ observable p rule = true /\
    forall index cmd, wr_commands rule !! index = Some cmd ->
      exists action choice, cmd = witnessCommand (js action) choice /\
        if (index =? 0)%nat then action = "init" /\ In choice (allowed_choices (pf_initChoices p))
        else exists f, In (action, f) (pf_actions p) /\ In choice (allowed_choices (fa_choices f)).
Proof.
  intros Hin Hr. pose proof tables_declared as H. rewrite forallb_forall in H. specialize (H _ Hin). simpl in H.
  destruct (profile_of (js name)) as [p|]; [|done]. exists p. split; [done|]. rewrite forallb_forall in H. specialize (H _ Hr).
  apply andb_true_iff in H as [[Hok Hrep]%andb_true_iff Hobs]. split; [done|]. split; [done|]. intros index cmd Hcmd.
  unfold replayable in Hrep. rewrite forallb_forall in Hrep.
  assert (declares p index cmd = true) as Hd.
  { apply (Hrep (index, cmd)). apply list_elem_of_In, list_elem_of_lookup. exists index. rewrite lookup_zip_with.
    rewrite lookup_seq_lt, Hcmd by (by apply lookup_lt_Some in Hcmd). done. }
  unfold declares in Hd. destruct (index =? 0)%nat.
  - apply existsb_exists in Hd as (choice & Hch & E). apply str_eqb_eq in E as ->. exists "init", choice. auto.
  - apply existsb_exists in Hd as ([action f] & Hf & Hd). apply existsb_exists in Hd as (choice & Hch & E). apply str_eqb_eq in E as ->.
    exists action, choice. split; [done|]. eauto.
Qed.

(** A recorded history of the profile [source-budgets] that earns one rule. *)
Definition bigint (n : Z) : jsval := object [("#bigint", JStr (String_of_Z n))].

Definition sample_state (name : string) (choice : Z) (calls : list Z) (loaders policyCalls : Z) : jsval :=
  object [("input", object [("name", JStr (js name)); ("choice", bigint choice)]);
          ("s", object [("o", object [("calls", JArr (List.map bigint calls)); ("loaders", bigint loaders); ("reads", bigint 0);
             ("writes", bigint 0); ("invalidations", bigint 0); ("maintenance", JArr []); ("loads", bigint 0); ("dumps", bigint 0);
             ("policyCalls", bigint policyCalls); ("classifications", bigint 0); ("comparisons", bigint 0); ("sourceScopes", JArr []);
             ("writeTtls", JArr []); ("shadow", JArr []); ("recovery", JArr [])])])].

Definition sample_trace : jsval :=
  object [("states", JArr [sample_state "init" 1 [] 0 0; sample_state "beginCall" 0 [0] 0 1; sample_state "releasePolicy" 0 [0] 1 1;
     sample_state "advance" 60001 [0] 1 1; sample_state "resolveLoader" 1 [1] 1 1; sample_state "beginCall" 0 [1; 0] 1 2;
     sample_state "releasePolicy" 1 [1; 1] 1 2])].

Definition sample_path : jsstr := js "corpus/sampled/trace_0.itf.json".

Definition sample_corpus : list history :=
  match parse_history sourceBudgetsProfile sample_path sample_trace with Ok h => [h] | Err _ => [] end.

Definition sample_label : string := "unbounded-enabled-source-publishes-after-sixty-seconds".

Lemma completion_gate_is_exact_witness :
  exists g, checkCorpus "source-budgets" sourceBudgetsProfile sourceBudgetsWitnessRules sample_corpus coverage_witnesses = Ok g /\
    length (g_missing g) = 7%nat /\ listed (g_provenance g) (js sample_label) (js "trace_0.itf.json") 3.
Proof.
  destruct (completion_gate_is_exact "source-budgets" sourceBudgetsWitnessRules sourceBudgetsProfile sample_corpus)
    as (g & Hg & _ & _).
  - right. right. right. left. reflexivity.
  - reflexivity.
  - unfold sample_corpus. destruct (parse_history sourceBudgetsProfile sample_path sample_trace) as [h|e] eqn:E; [|constructor].
    constructor; [|constructor]. exists sample_trace. destruct (observe_history _ _ _ _ E) as [Hp _]. rewrite Hp. split; [discriminate|exact E].
  - vm_compute. discriminate.
  - exists g. split; [exact Hg|].
    assert (match checkCorpus "source-budgets" sourceBudgetsProfile sourceBudgetsWitnessRules sample_corpus coverage_witnesses with
            | Ok g => length (g_missing g) = 7%nat /\ listed (g_provenance g) (js sample_label) (js "trace_0.itf.json") 3
            | Err _ => False
            end) as H by (vm_compute; split; [reflexivity|]; eexists _, _; split; [reflexivity|]; split; [reflexivity|]; left; reflexivity).
    rewrite Hg in H. exact H.
Defined.

Lemma witness_rules_are_replayable_witness :
  exists p, profile_of (js "local-failure") = Some p /\
    exists rule, In rule localFailureWitnessRules /\ rule_ok rule = true /\ observable p rule = true.
Proof.
  destruct localFailureWitnessRules as [|rule rules] eqn:E; [vm_compute in E; discriminate E|].
  destruct (witness_rules_are_replayable "local-failure" localFailureWitnessRules rule) as (p & Hp & Hok & Hobs & _).
  - right. right. left. reflexivity.
  - rewrite E. left. reflexivity.
  - exists p. split; [exact Hp|]. exists rule. split; [left; reflexivity|]. split; [exact Hok|exact Hobs].
Defined.
