(* ===== verification/QuintPool.v ===== *)
(** * The worker pool of the formal tools

    [formal/tools/quint-pool.mjs]: [runPool] as a state machine whose events
    are the settlements of its tasks, in whatever order they come, and the
    worker count [resolveConcurrency] chooses. The tasks are async functions,
    so calling one always gives a promise; what the promises do is the
    environment's choice. [spawnBuffered] is process I/O and is left out. *)

From S2P Require Import Prelude JsValue Duration Utf8 Config Key Metrics Frame Compression Json Pattern Itf.

(** ** Choosing the number of workers *)

Definition memoryPerWorker : Z := 2 * 2 ^ 30.

(** [/^\d+$/] *)
Definition all_digits : regex := RSeq digit (RStar digit).

(** [jobs] is [env.QUINT_JOBS]; [Number] of a text of digits rounds their
    value to a double. *)
Definition resolveConcurrency (jobs : option jsstr) (available memory : Z) : res Z :=
  match jobs with
  | None => Ok (Z.max 1 (Z.min available (memory / memoryPerWorker)))
  | Some raw =>
      let error := PlainError "QUINT_JOBS must be a positive integer" in
      if negb (test all_digits raw) then Err error
      else
        match isSafeInteger (round_double false (digits_value raw) 1) with
        | Some value => if value <? 1 then Err error else Ok value
        | None => Err error
        end
  end.

(** ** Grouped output *)

Definition ends_with_newline (text : jsstr) : bool := match list.last text with Some c => c =? 10 | None => false end.

Definition formatGroup (title : jsstr) (texts : list jsstr) : jsstr :=
  let body := List.concat texts in
  js "::group::" ++ title ++ [10] ++ body
  ++ (if negb (bool_decide (body = [])) && negb (ends_with_newline body) then [10] else []) ++ js "::endgroup::".

(** ** The pool *)

Section Pool.
Context {A E : Type}.

Inductive outcome := Fulfilled (a : A) | Rejected (e : E).

(** [results], [next], [failure], and for each worker the task it awaits;
    [None] is a worker whose loop has ended. *)
Record pool := Pool {
  pool_results : list (option A);
  pool_next : nat;
  pool_failure : option (nat * E);
  pool_workers : list (option nat)
}.

Definition pool_init (tasks : nat) : pool := Pool (replicate tasks None) 0 None [].

(** The loop head: the task a worker takes, if it goes on. *)
Definition take_task (tasks : nat) (p : pool) : pool * option nat :=
  match pool_failure p with
  | None =>
      if (pool_next p <? tasks)%nat
      then (Pool (pool_results p) (S (pool_next p)) None (pool_workers p), Some (pool_next p))
      else (p, None)
  | Some _ => (p, None)
  end.

(** One call of [worker]: it runs to its first [await], or ends. *)
Definition start_worker (tasks : nat) (p : pool) : pool :=
  let '(p, taken) := take_task tasks p in
  Pool (pool_results p) (pool_next p) (pool_failure p) (pool_workers p ++ [taken]).

(** [Array.from({ length: Math.min(concurrency, tasks.length) }, worker)] *)
Definition pool_start (tasks concurrency : nat) : pool :=
  Nat.iter (Nat.min concurrency tasks) (start_worker tasks) (pool_init tasks).

(** The continuation of an [await]: store the result, or the failure if it is
    the first, and go back to the loop head. *)
Definition pool_settle (tasks worker : nat) (o : outcome) (p : pool) : option pool :=
  match pool_workers p !! worker with
  | Some (Some index) =>
      let stored :=
        match o with
        | Fulfilled a => Pool (<[index := Some a]> (pool_results p)) (pool_next p) (pool_failure p) (pool_workers p)
        | Rejected e =>
            Pool (pool_results p) (pool_next p)
              (match pool_failure p with None => Some (index, e) | Some f => Some f end) (pool_workers p)
        end in
      let '(p', taken) := take_task tasks stored in
      Some (Pool (pool_results p') (pool_next p') (pool_failure p') (<[worker := taken]> (pool_workers p')))
  | _ => None
  end.

Definition in_flight (p : pool) : list nat := omap id (pool_workers p).

(** What [runPool] settles with once [Promise.all] has every worker. *)
Definition pool_outcome (p : pool) : option (result E (list (option A))) :=
  match in_flight p with
  | [] => Some (match pool_failure p with Some (_, e) => Err e | None => Ok (pool_results p) end)
  | _ => None
  end.

(** A run: the settlements of the environment, and the log of the tasks they
    settled. *)
Fixpoint pool_run (tasks : nat) (p : pool) (events : list (nat * outcome)) : option (pool * list (nat * outcome)) :=
  match events with
  | [] => Some (p, [])
  | (worker, o) :: events =>
      match pool_workers p !! worker with
      | Some (Some index) =>
          p' ← pool_settle tasks worker o p; '(q, log) ← pool_run tasks p' events; Some (q, (index, o) :: log)
      | _ => None
      end
  end.

(** [runPool], with the guard on its option. *)
Definition runPool (tasks : nat) (concurrency : Z) (events : list (nat * outcome)) : res (option (pool * list (nat * outcome))) :=
  if (MAX_SAFE_INTEGER <? Z.abs concurrency) || (concurrency <? 1) then Err (PlainError "Invalid pool concurrency")
  else Ok (pool_run tasks (pool_start tasks (Z.to_nat concurrency)) events).

(** ** Specification *)

(** The first rejection of a log: the failure the pool reports. *)
Fixpoint first_rejection (log : list (nat * outcome)) : option (nat * E) :=
  match log with
  | [] => None
  | (i, Rejected e) :: _ => Some (i, e)
  | (_, Fulfilled _) :: log => first_rejection log
  end.

(** What holds of the pool whenever the event loop is idle. *)
Record pool_ok (tasks size : nat) (p : pool) (log : list (nat * outcome)) : Prop := {
  ok_size : length (pool_workers p) = size;
  ok_results : length (pool_results p) = tasks;
  ok_next : (pool_next p <= tasks)%nat;
  ok_started : in_flight p ++ List.map fst log ≡ₚ seq 0 (pool_next p);
  ok_values : forall i a, pool_results p !! i = Some (Some a) <-> In (i, Fulfilled a) log;
  ok_failure : pool_failure p = first_rejection log;
  ok_busy : pool_failure p = None -> Exists (eq None) (pool_workers p) -> pool_next p = tasks
}.
End Pool.
Arguments pool : clear implicits.
Arguments outcome : clear implicits.

(** ** Lemmas *)

Section PoolFacts.
Context {A E : Type}.
Implicit Types (p : pool A E) (log : list (nat * outcome A E)).

Lemma workers_split (ws : list (option nat)) w i t :
  ws !! w = Some (Some i) -> exists l r, ws = l ++ Some i :: r /\ <[w := t]> ws = l ++ t :: r.
Proof.
  intros H. exists (take w ws), (drop (S w) ws). split; [by rewrite take_drop_middle|].
  rewrite insert_take_drop by (by apply lookup_lt_Some in H). done.
Qed.

(** Replacing the task a worker awaits. *)
Lemma busy_insert (ws : list (option nat)) w i t :
  ws !! w = Some (Some i) -> omap id (<[w := t]> ws) ++ [i] ≡ₚ omap id ws ++ match t with Some j => [j] | None => [] end.
Proof.
  intros H. destruct (workers_split ws w i t H) as (l & r & -> & ->). rewrite !omap_app. simpl. destruct t as [j|]; simpl.
  - rewrite <- !app_assoc. apply Permutation_app_head. simpl. etransitivity; [|apply perm_swap || reflexivity].
    rewrite <- !Permutation_cons_append. apply perm_swap.
  - rewrite app_nil_r, <- app_assoc. apply Permutation_app_head. by rewrite <- Permutation_cons_append.
Qed.

Lemma first_rejection_snoc log i (o : outcome A E) :
  first_rejection (log ++ [(i, o)]) =
  match first_rejection log with Some f => Some f | None => match o with Rejected e => Some (i, e) | Fulfilled _ => None end end.
Proof. induction log as [|[j []] log IH]; simpl; [by destruct o|done|done]. Qed.

Lemma take_task_spec tasks p p' t :
  take_task tasks p = (p', t) ->
  pool_results p' = pool_results p /\ pool_failure p' = pool_failure p /\ pool_workers p' = pool_workers p /\
  match t with
  | Some j => j = pool_next p /\ pool_next p' = S j /\ (j < tasks)%nat /\ pool_failure p = None
  | None => pool_next p' = pool_next p /\ (pool_failure p = None -> (tasks <= pool_next p)%nat)
  end.
Proof.
  unfold take_task. destruct (pool_failure p) eqn:Ef; [by intros [= <- <-]|].
  destruct (Nat.ltb_spec (pool_next p) tasks); intros [= <- <-]; simpl; auto 10.
Qed.

Lemma pool_start_eq tasks concurrency :
  pool_start (A:=A) (E:=E) tasks concurrency =
  let size := Nat.min concurrency tasks in Pool (replicate tasks None) size None (Some <$> seq 0 size).
Proof.
  unfold pool_start. assert (Nat.min concurrency tasks <= tasks)%nat as H by lia. revert H. simpl.
  generalize (Nat.min concurrency tasks) as k. induction k as [|k IH]; intros Hk; [done|].
  simpl Nat.iter. rewrite IH by lia. unfold start_worker, take_task. cbn [pool_failure pool_next pool_results pool_workers].
  destruct (Nat.ltb_spec k tasks); [|lia]. cbn [pool_failure pool_next pool_results pool_workers]. by rewrite seq_S, fmap_app.
Qed.

Lemma pool_start_ok tasks concurrency :
  (1 <= concurrency)%nat -> pool_ok (A:=A) (E:=E) tasks (Nat.min concurrency tasks) (pool_start tasks concurrency) [].
Proof.
  intros Hc. rewrite pool_start_eq. simpl. split; simpl.
  - by rewrite length_fmap, length_seq.
  - by rewrite length_replicate.
  - lia.
  - unfold in_flight. simpl. rewrite app_nil_r. induction (seq 0 _) as [|j js IH]; simpl; [done|by rewrite IH].
  - intros i a. split; [|done]. intros H. apply lookup_replicate in H as [[=] _].
  - done.
  - intros _ Hex. apply Exists_exists in Hex as (x & Hx & <-). by apply in_map_iff in Hx as (y & [=] & _).
Qed.

(** A task in flight has been started and has not settled. *)
Lemma in_flight_index tasks size p log w i :
  pool_ok tasks size p log -> pool_workers p !! w = Some (Some i) -> In i (in_flight p) /\ (i < tasks)%nat.
Proof.
  intros Hok Hw. assert (In i (in_flight p)) as Hin.
  { apply list_elem_of_In, list_elem_of_omap. exists (Some i). split; [by eapply list_elem_of_lookup_2|done]. }
  split; [done|]. assert (In i (seq 0 (pool_next p))) as Hs; [|apply in_seq in Hs; pose proof (ok_next _ _ _ _ Hok); lia].
  rewrite <- (ok_started _ _ _ _ Hok). apply in_app_iff. by left.
Qed.

Lemma in_flight_unsettled tasks size p log w i :
  pool_ok tasks size p log -> pool_workers p !! w = Some (Some i) -> ~ In i (List.map fst log).
Proof.
  intros Hok Hw Hl. destruct (in_flight_index _ _ _ _ _ _ Hok Hw) as [Hin _].
  assert (NoDup (in_flight p ++ List.map fst log)) as Hnd by (rewrite (ok_started _ _ _ _ Hok); apply NoDup_seq).
  apply list.NoDup_app in Hnd as (_ & Hd & _). apply (Hd i); by apply list_elem_of_In.
Qed.

Lemma pool_settle_ok tasks size p log w i o p' :
  pool_ok tasks size p log -> pool_workers p !! w = Some (Some i) -> pool_settle tasks w o p = Some p' ->
  pool_ok tasks size p' (log ++ [(i, o)]).
Proof.
  intros Hok Hw. unfold pool_settle. rewrite Hw.
  set (stored := match o with Fulfilled _ => _ | Rejected _ => _ end).
  assert (pool_workers stored = pool_workers p /\ pool_next stored = pool_next p) as [Hws Hn] by (by destruct o).
  destruct (take_task tasks stored) as [q t] eqn:Et. intros [= <-].
  apply take_task_spec in Et as (Hr & Hf & Hw' & Ht). rewrite Hws in Hw'. rewrite Hn in Ht.
  destruct (in_flight_index _ _ _ _ _ _ Hok Hw) as [_ Hi].
  assert (pool_failure stored = first_rejection (log ++ [(i, o)])) as Hfail.
  { rewrite first_rejection_snoc, <- (ok_failure _ _ _ _ Hok). unfold stored. destruct o; simpl; by destruct (pool_failure p). }
  split; simpl.
  - rewrite length_insert, Hw'. apply (ok_size _ _ _ _ Hok).
  - rewrite Hr. unfold stored. destruct o; simpl; rewrite ?length_insert; apply (ok_results _ _ _ _ Hok).
  - pose proof (ok_next _ _ _ _ Hok). destruct t; lia.
  - unfold in_flight. simpl. rewrite Hw', List.map_app. simpl.
    rewrite (Permutation_app_comm _ [i]), app_assoc, (busy_insert _ _ _ _ Hw).
    rewrite <- app_assoc, (Permutation_app_comm _ (List.map fst log)), app_assoc, (ok_started _ _ _ _ Hok).
    destruct t as [j|]; [destruct Ht as (-> & -> & _); by rewrite seq_S|destruct Ht as [-> _]; by rewrite app_nil_r].
  - intros k a. rewrite Hr, in_app_iff, <- (ok_values _ _ _ _ Hok). simpl.
    unfold stored. destruct o as [b|e]; simpl; [|naive_solver].
    destruct (decide (k = i)) as [->|Hk]; [|rewrite list_lookup_insert_ne by done; naive_solver].
    rewrite list_lookup_insert_eq by (by rewrite (ok_results _ _ _ _ Hok)).
    split; [intros [= ->]; auto|intros [Hv|[[= ->]|[]]]; [|done]].
    apply (ok_values _ _ _ _ Hok) in Hv. destruct (in_flight_unsettled _ _ _ _ _ _ Hok Hw). by apply (in_map fst) in Hv.
  - by rewrite Hf.
  - rewrite Hf, Hw'. intros Hnone Hex. destruct t as [j|]; [|destruct Ht as [-> Hle]; specialize (Hle Hnone); pose proof (ok_next _ _ _ _ Hok); lia].
    destruct Ht as (-> & _ & Hj & _). enough (pool_next p = tasks) by lia. apply (ok_busy _ _ _ _ Hok).
    + unfold stored in Hnone. destruct o; simpl in Hnone; by destruct (pool_failure p).
    + destruct (workers_split _ _ _ (Some (pool_next p)) Hw) as (l & r & El & Heq). rewrite Heq in Hex. rewrite El.
      rewrite Exists_app, Exists_cons in Hex |- *. naive_solver.
Qed.

Lemma pool_run_ok tasks size events : forall p log q more,
  pool_ok tasks size p log -> pool_run tasks p events = Some (q, more) -> pool_ok tasks size q (log ++ more).
Proof.
  induction events as [|[w o] events IH]; intros p log q more Hok; simpl.
  - intros [= <- <-]. by rewrite app_nil_r.
  - destruct (pool_workers p !! w) as [[i|]|] eqn:Hw; [|done..].
    destruct (pool_settle tasks w o p) as [p'|] eqn:Hs; [|done]. simpl.
    destruct (pool_run tasks p' events) as [[q' log']|] eqn:Hr; [|done]. intros [= <- <-].
    rewrite cons_middle, app_assoc. eapply IH; [by eapply pool_settle_ok|done].
Qed.

Lemma in_flight_none p : in_flight p = [] -> Forall (eq None) (pool_workers p).
Proof.
  unfold in_flight. induction (pool_workers p) as [|[i|] ws IH]; simpl; [by constructor|done|].
  intros H. constructor; [done|by apply IH].
Qed.

(** With no worker left, the log has a result or a rejection of every task
    that was started, and every task unless one was rejected. *)
Lemma pool_done tasks size p log :
  (0 < size)%nat \/ tasks = 0%nat -> pool_ok tasks size p log -> in_flight p = [] -> first_rejection log = None ->
  List.map fst log ≡ₚ seq 0 tasks /\
  exists values, pool_results p = Some <$> values /\ length values = tasks /\
    forall i a, values !! i = Some a <-> In (i, Fulfilled a) log.
Proof.
  intros Hsize Hok Hd Hf. pose proof (ok_failure _ _ _ _ Hok) as Hpf. rewrite Hf in Hpf.
  assert (pool_next p = tasks) as Hn.
  { destruct Hsize as [Hsize| ->]; [|pose proof (ok_next _ _ _ _ Hok); lia].
    apply (ok_busy _ _ _ _ Hok); [done|]. apply in_flight_none in Hd. rewrite <- (ok_size _ _ _ _ Hok) in Hsize.
    destruct (pool_workers p) as [|x ws]; [simpl in Hsize; lia|]. inversion_clear Hd. by left. }
  pose proof (ok_started _ _ _ _ Hok) as Hst. rewrite Hd, Hn in Hst. simpl in Hst. split; [done|].
  assert (forall i, (i < tasks)%nat -> exists a, pool_results p !! i = Some (Some a)) as Hall.
  { intros i Hi. assert (In i (List.map fst log)) as Hin by (rewrite Hst; apply in_seq; lia).
    apply in_map_iff in Hin as ([j o] & Hj & Hin). simpl in Hj. subst j. destruct o as [a|e].
    - exists a. by apply (ok_values _ _ _ _ Hok).
    - exfalso. clear -Hf Hin. induction log as [|[k []] log IH]; simpl in Hf, Hin; [done| |done]. destruct Hin as [[=]|Hin]; auto. }
  assert (exists values, pool_results p = Some <$> values) as [values Hv].
  { pose proof (ok_results _ _ _ _ Hok) as Hl. clear -Hall Hl. revert tasks Hall Hl. induction (pool_results p) as [|r rs IH]; intros tasks Hall Hl.
    - by exists [].
    - destruct (Hall 0%nat) as [a Ha]; [simpl in Hl; lia|]. simpl in Ha. injection Ha as ->.
      destruct (IH (length rs)) as [values ->]; [|done|by exists (a :: values)].
      intros i Hi. apply (Hall (S i)). simpl in Hl. lia. }
  exists values. split; [done|]. rewrite <- (ok_results _ _ _ _ Hok), Hv, length_fmap. split; [done|].
  intros i a. rewrite <- (ok_values _ _ _ _ Hok), Hv, list_lookup_fmap. destruct (values !! i); naive_solver.
Qed.
End PoolFacts.

Lemma runPool_start {A E} tasks c (events : list (nat * outcome A E)) r :
  runPool tasks c events = Ok r ->
  (1 <= Z.to_nat c)%nat /\ r = pool_run tasks (pool_start tasks (Z.to_nat c)) events.
Proof.
  unfold runPool. destruct (Z.ltb_spec MAX_SAFE_INTEGER (Z.abs c)) as [H1|H1], (Z.ltb_spec c 1) as [H2|H2]; try discriminate.
  cbn [orb]. intros [= <-]. split; [|reflexivity]. clear -H2. lia.
Qed.

Lemma omap_id_length {B} (ws : list (option B)) : (length (omap id ws) <= length ws)%nat.
Proof. induction ws as [|[b|] ws IH]; simpl in *; [done|..]; unfold omap in IH; lia. Qed.

Lemma pool_run_events {A E} tasks (events : list (nat * outcome A E)) : forall p q log,
  pool_run tasks p events = Some (q, log) -> length log = length events.
Proof.
  induction events as [|[w o] events IH]; intros p q log; simpl; [by intros [= _ <-]|].
  destruct (pool_workers p !! w) as [[i|]|]; [|done..]. destruct (pool_settle tasks w o p) as [p'|]; [|done]. simpl.
  destruct (pool_run tasks p' events) as [[q' log']|] eqn:Hr; [|done]. intros [= _ <-]. simpl. by rewrite (IH _ _ _ Hr).
Qed.

(** No worker takes a task once one was rejected. *)
Lemma fail_fast {A E} tasks size (p : pool A E) log w o q :
  pool_ok tasks size p log -> first_rejection log <> None -> pool_settle tasks w o p = Some q -> pool_next q = pool_next p.
Proof.
  intros Hok Hf. rewrite <- (ok_failure _ _ _ _ Hok) in Hf. unfold pool_settle, take_task.
  destruct (pool_workers p !! w) as [[i|]|]; [|done..].
  destruct (pool_failure p) eqn:E0; [|done]. destruct o; simpl; rewrite ?E0; by intros [= <-].
Qed.

(** A text of digits that converts to a safe integer converts to its value. *)
Lemma safe_literal raw v :
  test all_digits raw = true -> isSafeInteger (round_double false (digits_value raw) 1) = Some v ->
  word all_digits raw /\ v = digits_value raw /\ 0 <= v <= MAX_SAFE_INTEGER.
Proof.
  intros Et%test_word. assert (2 ^ 53 = MAX_SAFE_INTEGER + 1) as E53 by reflexivity.
  assert (0 <= digits_value raw) as H0.
  { apply forallb_digits_nonneg, forallb_forall. apply word_pair in Et as (u & w & -> & Hu & Hw).
    inversion Hu; subst. apply word_star_range in Hw. intros d [<-|Hd]; [unfold is_digit; lia|].
    rewrite List.Forall_forall in Hw. apply Hw in Hd. unfold is_digit. lia. }
  destruct (Z.lt_ge_cases (digits_value raw) (2 ^ 53)) as [Hlt|Hge]; [|by rewrite round_double_unsafe].
  destruct (decide (digits_value raw = 0)) as [Hz|Hz].
  - rewrite Hz. assert (isSafeInteger (round_double false 0 1) = Some 0) as -> by (vm_compute; reflexivity). intros [= <-]. split; [done|]. lia.
  - rewrite round_double_exact, isSafeInteger_of_Z by lia. intros [= <-]. split; [done|]. lia.
Qed.

Lemma resolveConcurrency_exact jobs available memory c :
  resolveConcurrency jobs available memory = Ok c ->
  1 <= c /\
  match jobs with
  | None => c = 1 \/ c <= available /\ c * memoryPerWorker <= memory
  | Some raw => word all_digits raw /\ c = digits_value raw /\ c <= MAX_SAFE_INTEGER
  end.
Proof.
  unfold resolveConcurrency. destruct jobs as [raw|].
  - destruct (test all_digits raw) eqn:Et; [|done]. simpl.
    destruct (isSafeInteger _) as [v|] eqn:Ev; [|done]. destruct (safe_literal _ _ Et Ev) as (Hw & Hv & Hr).
    destruct (Z.ltb_spec v 1); [done|]. intros [= <-]. split; [lia|]. split; [done|]. lia.
  - intros [= <-]. unfold memoryPerWorker. split; [lia|].
    pose proof (Z.mul_div_le memory (2 * 2 ^ 30) ltac:(lia)). nia.
Qed.

(** ** Properties *)

(** C36. The pool runs every task once, within its bound: in whatever order the
    tasks settle, at most [concurrency] are in flight, the started tasks are
    the first ones in order and each is in flight or settled exactly once; the
    pool never waits with no task in flight, and ends after at most one
    settlement per task. If no task was rejected it ends with every task's
    value at the task's own index; otherwise with the first rejection, after
    which no further task was started. *)
Theorem runPool_exact {A E} tasks c (events : list (nat * outcome A E)) p log :
  runPool tasks c events = Ok (Some (p, log)) ->
  (length (in_flight p) <= Z.to_nat c)%nat /\ (length events <= tasks)%nat /\
  in_flight p ++ List.map fst log ≡ₚ seq 0 (pool_next p) /\
  (first_rejection log <> None -> forall w o q, pool_settle tasks w o p = Some q -> pool_next q = pool_next p) /\
  (pool_outcome p = None <-> in_flight p <> []) /\
  forall r, pool_outcome p = Some r ->
    match first_rejection log with
    | Some (_, e) => r = Err e
    | None =>
        List.map fst log ≡ₚ seq 0 tasks /\
        exists values, r = Ok (Some <$> values) /\ length values = tasks /\
          forall i a, values !! i = Some a <-> In (i, Fulfilled a) log
    end.
Proof.
  intros H. apply runPool_start in H as [Hc Hrun]. symmetry in Hrun.
  pose proof (pool_start_ok (A:=A) (E:=E) tasks _ Hc) as Hok0. pose proof (pool_run_ok _ _ _ _ _ _ _ Hok0 Hrun) as Hok.
  simpl in Hok. repeat split.
  - etransitivity; [apply omap_id_length|]. rewrite (ok_size _ _ _ _ Hok). lia.
  - rewrite <- (pool_run_events _ _ _ _ _ Hrun). pose proof (Permutation_length (ok_started _ _ _ _ Hok)) as Hl.
    rewrite length_app, length_map, length_seq in Hl. pose proof (ok_next _ _ _ _ Hok). lia.
  - apply (ok_started _ _ _ _ Hok).
  - intros Hf w o q. by eapply fail_fast.
  - unfold pool_outcome. by destruct (in_flight p).
  - unfold pool_outcome. by destruct (in_flight p).
  - unfold pool_outcome. intros r. destruct (in_flight p) eqn:Hd; [|done]. intros [= <-].
    rewrite (ok_failure _ _ _ _ Hok). destruct (first_rejection log) as [[i e]|] eqn:Hf; [done|].
    destruct (pool_done tasks (Nat.min (Z.to_nat c) tasks) p log) as (Hp & values & Hv & Hl & Hin); [destruct tasks; [by right|left; lia]|done..|].
    split; [done|]. exists values. by rewrite Hv.
Qed.

(** Three tasks on two workers, settling out of order; and a rejection that
    keeps the third from starting. *)
Lemma runPool_exact_witness :
  (exists p log, runPool 3 2 [(1%nat, Fulfilled 11); (1%nat, Fulfilled 12); (0%nat, Fulfilled 10)] = Ok (Some (p, log)) /\
     pool_outcome (A:=Z) (E:=exn) p = Some (Ok [Some 10; Some 11; Some 12]) /\ (length (in_flight p) <= 2)%nat) /\
  (exists p log, runPool 3 2 [(1%nat, Rejected SyntaxError); (0%nat, Fulfilled 10)] = Ok (Some (p, log)) /\
     pool_outcome (A:=Z) (E:=exn) p = Some (Err SyntaxError) /\ (length (in_flight p) <= 2)%nat).
Proof.
  split; (eexists _, _; split; [reflexivity|split; [reflexivity|]]).
  - refine (proj1 (runPool_exact 3 2 [(1%nat, Fulfilled 11); (1%nat, Fulfilled 12); (0%nat, Fulfilled 10)] _ _ _)). reflexivity.
  - refine (proj1 (runPool_exact 3 2 [(1%nat, Rejected SyntaxError); (0%nat, Fulfilled 10)] _ _ _)). reflexivity.
Defined.

(** The workers [resolveConcurrency] chooses are always a number [runPool]
    takes. *)
Theorem resolved_pool_runs {A E} jobs available memory c tasks (events : list (nat * outcome A E)) :
  available <= MAX_SAFE_INTEGER -> resolveConcurrency jobs available memory = Ok c ->
  is_ok (runPool tasks c events) = true.
Proof.
  intros Ha Hr. apply resolveConcurrency_exact in Hr as [H1 H2]. unfold runPool.
  assert (c <= MAX_SAFE_INTEGER) by (destruct jobs; [lia|destruct H2 as [->|[H2 _]]; [done|lia]]).
  destruct (Z.ltb_spec MAX_SAFE_INTEGER (Z.abs c)), (Z.ltb_spec c 1); try lia. done.
Qed.
