(* ===== verification/QuintText.v ===== *)
(** * Reading Quint sources

    The declaration scanner of [formal/tools/execution.mjs]: [tokenize], which
    keeps the source span of every token, and [scanDeclarationBodies], which
    cuts the one module of a source into its declarations. It is a scanner,
    not a parser; what is shown here is that it loses nothing: every token is
    a slice of the source, and every body a segment of the tokens. *)

From S2P Require Import Prelude JsValue Duration Utf8 Config Key Metrics Frame Compression Json JsonText Pattern Itf ReplayText.

(** ** Tokens *)

(** [/[A-Za-z_]/] and [/[A-Za-z_0-9]/] *)
Definition is_ident_start (c : Z) : bool :=
  ((65 <=? c) && (c <=? 90)) || ((97 <=? c) && (c <=? 122)) || (c =? 95).

Definition is_ident (c : Z) : bool := is_ident_start c || is_digit c.

(** [source.indexOf('\n', i)], and the text behind it. *)
Fixpoint after_newline (s : jsstr) : jsstr :=
  match s with
  | [] => []
  | c :: r => if c =? 10 then r else after_newline r
  end.

(** [source.indexOf('*/', i)], and the text behind it. *)
Fixpoint after_close (s : jsstr) : option jsstr :=
  match s with
  | 42 :: ((47 :: r) as s') => Some r
  | _ :: r => after_close r
  | [] => None
  end.

(** One turn of the loop at a nonempty text: the token read, if any, and the
    text behind it. *)
Definition lex_one (s : jsstr) : res (option jsstr * jsstr) :=
  match s with
  | [] => Ok (None, [])
  | c :: r =>
      if is_js_space c then Ok (None, r)
      else if (c =? 47) && starts_with 47 r then Ok (None, after_newline (tail r))
      else if (c =? 47) && starts_with 42 r then
        match after_close (tail r) with
        | None => Err (PlainError "Unterminated Quint comment")
        | Some rest => Ok (None, rest)
        end
      else if c =? 34 then
        match to_close r with
        | None => Err (PlainError "Unterminated Quint string")
        | Some (body, rest) => Ok (Some (34 :: body ++ [34]), rest)
        end
      else if is_ident_start c then let '(word, rest) := span is_ident s in Ok (Some word, rest)
      else Ok (Some [c], r)
  end.

(** A token and its source range. *)
Abbreviation qtoken := (jsstr * (nat * nat))%type.

(** [None]: the loop needs more turns than [fuel]. *)
Fixpoint tokenize_from (fuel i : nat) (s : jsstr) : option (res (list qtoken)) :=
  match s, fuel with
  | [], _ => Some (Ok [])
  | _, O => None
  | _, S fuel =>
      match lex_one s with
      | Err e => Some (Err e)
      | Ok (found, rest) =>
          let i' := (i + (length s - length rest))%nat in
          match tokenize_from fuel i' rest with
          | Some (Ok tokens) => Some (Ok (match found with Some t => (t, (i, i')) :: tokens | None => tokens end))
          | other => other
          end
      end
  end.

(** Every turn reads at least one code unit, so one turn per code unit is
    enough (see [tokenize_total]). *)
Definition tokenize (source : jsstr) : res (list qtoken) :=
  default (Err SyntaxError) (tokenize_from (length source) 0 source).

(** ** Declarations *)

Inductive decl_kind := KVal | KDef | KAction | KRun | KType | KVar | KConst | KAssume.

#[export] Instance decl_kind_eq : EqDecision decl_kind.
Proof. solve_decision. Defined.

Definition kind_of (token : jsstr) : option decl_kind :=
  if str_eqb token (js "val") then Some KVal
  else if str_eqb token (js "def") then Some KDef
  else if str_eqb token (js "action") then Some KAction
  else if str_eqb token (js "run") then Some KRun
  else if str_eqb token (js "type") then Some KType
  else if str_eqb token (js "var") then Some KVar
  else if str_eqb token (js "const") then Some KConst
  else if str_eqb token (js "assume") then Some KAssume
  else None.

(** A declaration's kind and the tokens of its body with their spans. *)
Record declaration := Declaration { d_kind : decl_kind; d_body : list qtoken }.

(** [Map]: in insertion order, names distinct. *)
Definition declarations : Type := list (jsstr * declaration).

Fixpoint declared (name : jsstr) (ds : declarations) : option declaration :=
  match ds with
  | [] => None
  | (n, d) :: ds => if str_eqb n name then Some d else declared name ds
  end.

(** [current.body.push(token)], where [current] is the entry of [name]. *)
Fixpoint push_token (name : jsstr) (t : qtoken) (ds : declarations) : declarations :=
  match ds with
  | [] => []
  | (n, d) :: ds =>
      if str_eqb n name then (n, Declaration (d_kind d) (d_body d ++ [t])) :: ds
      else (n, d) :: push_token name t ds
  end.

Definition is_identifier (token : jsstr) : bool :=
  match token with c :: r => is_ident_start c && forallb is_ident r | [] => false end.

(** [closes] *)
Definition opener_of (token : jsstr) : option jsstr :=
  if str_eqb token (js "}") then Some (js "{")
  else if str_eqb token (js ")") then Some (js "(")
  else if str_eqb token (js "]") then Some (js "[")
  else None.

Definition is_opener (token : jsstr) : bool :=
  str_eqb token (js "{") || str_eqb token (js "(") || str_eqb token (js "[").

(** The locals of the scan; the top of [stack] is its head. *)
Record scan_state := Scan {
  s_decls : declarations;
  s_stack : list jsstr;
  s_modules : nat;
  s_current : option jsstr
}.

(** [stack.length === 1 && stack[0] === '{'] *)
Definition at_module (stack : list jsstr) : bool := bool_decide (stack = [js "{"]).

(** The delimiters at the end of a turn. *)
Definition track (token : jsstr) (stack : list jsstr) : res (list jsstr) :=
  if is_opener token then Ok (token :: stack)
  else
    match opener_of token with
    | None => Ok stack
    | Some opener =>
        match stack with
        | top :: stack => if str_eqb top opener then Ok stack else Err (PlainError "Unbalanced Quint delimiters")
        | [] => Err (PlainError "Unbalanced Quint delimiters")
        end
    end.

(** [stack.length >= 1 && !(stack.length === 1 && token === '}')] *)
Definition in_body (token : jsstr) (stack : list jsstr) : bool :=
  (1 <=? length stack)%nat && negb ((length stack =? 1)%nat && str_eqb token (js "}")).

(** A turn that does not open a declaration. *)
Definition scan_token (t : qtoken) (st : scan_state) : res scan_state :=
  let token := t.1 in
  let stack := s_stack st in
  if at_module stack && str_eqb token (js "pure") then Ok (Scan (s_decls st) stack (s_modules st) None)
  else
    let current :=
      if at_module stack && (str_eqb token (js "import") || str_eqb token (js "export")) then None else s_current st in
    let decls :=
      match current with
      | Some name => if in_body token stack then push_token name t (s_decls st) else s_decls st
      | None => s_decls st
      end in
    stack' ← track token stack; Ok (Scan decls stack' (s_modules st) current).

(** The checks on a token outside every delimiter. *)
Definition scan_outside (i : nat) (t : qtoken) (rest : list qtoken) (st : scan_state) : res scan_state :=
  match s_stack st with
  | _ :: _ => Ok st
  | [] =>
      _ ← throw_if (2 <? i)%nat (PlainError "Unexpected content outside the Quint module");
      if str_eqb t.1 (js "module") then
        match rest with
        | name :: brace :: _ =>
            if is_identifier name.1 && str_eqb brace.1 (js "{")
            then Ok (Scan (s_decls st) (s_stack st) (S (s_modules st)) (s_current st))
            else Err (PlainError "Unsupported Quint module declaration")
        | _ => Err (PlainError "Unsupported Quint module declaration")
        end
      else Ok st
  end.

(** The loop over the tokens from index [i]. *)
Fixpoint scan_loop (i : nat) (tokens : list qtoken) (st : scan_state) : res scan_state :=
  match tokens with
  | [] => Ok st
  | t :: rest =>
      st ← scan_outside i t rest st;
      match (if at_module (s_stack st) then kind_of t.1 else None) with
      | Some kind =>
          match rest with
          | name :: rest' =>
              if negb (is_identifier name.1) then Err (PlainError "Unsupported Quint declaration")
              else
                match declared name.1 (s_decls st) with
                | Some _ => Err (PlainError "Duplicate Quint declaration")
                | None =>
                    scan_loop (S (S i)) rest'
                      (Scan (s_decls st ++ [(name.1, Declaration kind [])]) (s_stack st) (s_modules st) (Some name.1))
                end
          | [] => Err (PlainError "Unsupported Quint declaration")
          end
      | None => st ← scan_token t st; scan_loop (S i) rest st
      end
  end.

Definition scan_tokens (tokens : list qtoken) : res declarations :=
  match tokens with
  | t :: _ =>
      _ ← throw_if (negb (str_eqb t.1 (js "module"))) (PlainError "Expected a Quint module declaration");
      st ← scan_loop 0 tokens (Scan [] [] 0 None);
      if bool_decide (s_stack st = []) && (s_modules st =? 1)%nat then Ok (s_decls st)
      else Err (PlainError "Expected one balanced Quint module")
  | [] => Err (PlainError "Expected a Quint module declaration")
  end.

Definition scanDeclarationBodies (source : jsstr) : res declarations :=
  tokens ← tokenize source; scan_tokens tokens.

Definition scanDeclarations (source : jsstr) : res (list (jsstr * decl_kind)) :=
  ds ← scanDeclarationBodies source; Ok (List.map (fun '(name, d) => (name, d_kind d)) ds).

(** ** What a token and the text between tokens look like *)

Inductive lexeme : jsstr -> Prop :=
| lexeme_word w : is_identifier w = true -> lexeme w
| lexeme_string body : to_close (body ++ [34]) = Some (body, []) -> lexeme (34 :: body ++ [34])
| lexeme_symbol c : is_js_space c = false -> is_ident_start c = false -> c <> 34 -> lexeme [c].

Inductive trivia : jsstr -> Prop :=
| trivia_blank c : is_js_space c = true -> trivia [c]
| trivia_line body : ~ In 10 body -> trivia (47 :: 47 :: body ++ [10])
| trivia_block body : after_close (body ++ [42; 47]) = Some [] -> trivia (47 :: 42 :: body ++ [42; 47]).

(** The whole text from position [i] is trivia and tokens; a line comment may
    end it. *)
Inductive covers : nat -> jsstr -> list qtoken -> Prop :=
| covers_end i : covers i [] []
| covers_open i body : ~ In 10 body -> covers i (47 :: 47 :: body) []
| covers_gap i t rest tokens : trivia t -> covers (i + length t) rest tokens -> covers i (t ++ rest) tokens
| covers_token i t rest tokens :
    lexeme t -> covers (i + length t) rest tokens -> covers i (t ++ rest) ((t, (i, i + length t)%nat) :: tokens).

(** ** Lemmas on the scanners of one turn *)

Lemma after_newline_in w x : In 10 w -> after_newline (w ++ x) = after_newline w ++ x.
Proof.
  induction w as [|c w IH]; simpl; [done|]. destruct (Z.eqb_spec c 10); [done|]. intros [?|?]; [done|auto].
Qed.

Lemma after_newline_notin w x : ~ In 10 w -> after_newline (w ++ x) = after_newline x.
Proof.
  induction w as [|c w IH]; simpl; [done|]. intros H. destruct (Z.eqb_spec c 10); [naive_solver|]. apply IH. naive_solver.
Qed.

Lemma after_newline_length s : (length (after_newline s) <= length s)%nat /\ (s <> [] -> (length (after_newline s) < length s)%nat).
Proof. induction s as [|c s [IH _]]; simpl; [split; [lia|done]|]. destruct (c =? 10); split; intros; lia. Qed.

Lemma after_newline_split s : (exists body, ~ In 10 body /\ s = body ++ 10 :: after_newline s) \/ ~ In 10 s /\ after_newline s = [].
Proof.
  induction s as [|c s IH]; simpl; [right; auto|]. destruct (Z.eqb_spec c 10) as [->|Hc]; [left; exists []; auto|].
  destruct IH as [(body & Hb & E)|[Hs E]].
  - left. exists (c :: body). split; [simpl; naive_solver|]. simpl. by rewrite <- E.
  - right. naive_solver.
Qed.

Lemma after_newline_prefix w x r : after_newline (w ++ x) = r ++ x -> after_newline w = r.
Proof.
  destruct (in_dec Z.eq_dec 10 w) as [H|H].
  - rewrite after_newline_in by done. apply app_inv_tail.
  - rewrite after_newline_notin by done. intros E. pose proof (after_newline_length x) as [_ Hl].
    pose proof (f_equal length E) as El. rewrite length_app in El.
    destruct x as [|c x]; [|specialize (Hl ltac:(done)); lia]. rewrite app_nil_r in E. rewrite <- E.
    destruct (after_newline_split w) as [(b & _ & Ew)|[_ Ew]]; [|done]. destruct H. rewrite Ew. apply in_app_iff. right. by left.
Qed.

Lemma closes_here (c : Z) (s : jsstr) : (c = 42 /\ exists t, s = 47 :: t) \/ ~ (c = 42 /\ exists t, s = 47 :: t).
Proof.
  destruct (decide (c = 42)) as [->|]; [|naive_solver]. destruct s as [|d s]; [naive_solver|].
  destruct (decide (d = 47)) as [->|]; naive_solver.
Qed.

Lemma after_close_cons c s : ~ (c = 42 /\ exists t, s = 47 :: t) -> after_close (c :: s) = after_close s.
Proof. intros Hn. simpl. repeat case_match; try done; subst; destruct Hn; eauto. Qed.

Lemma after_close_split s r :
  after_close s = Some r -> exists body, s = body ++ 42 :: 47 :: r /\ after_close (body ++ [42; 47]) = Some [].
Proof.
  induction s as [|c s IH]; [done|]. intros H.
  destruct (closes_here c s) as [[-> [t ->]]|Hn].
  { simpl in H. injection H as <-. by exists []. }
  rewrite after_close_cons in H by done. destruct (IH H) as (body & -> & Hb). exists (c :: body). split; [done|].
  simpl app. rewrite <- Hb. apply after_close_cons. intros [-> [t Et]]. apply Hn. split; [done|].
  destruct body as [|d body]; [done|]. injection Et as -> _. simpl. eauto.
Qed.

Lemma after_close_prefix w x r : after_close (w ++ x) = Some (r ++ x) -> after_close w = Some r.
Proof.
  assert (forall y, after_close y <> Some (r ++ y)) as Hno.
  { intros y (body & E & _)%after_close_split. apply (f_equal length) in E. rewrite length_app in E. simpl in E. rewrite length_app in E. lia. }
  induction w as [|c w IH]; simpl app; [intros []%Hno|].
  destruct (decide (c = 42)) as [->|Hc]; [|rewrite !after_close_cons by naive_solver; exact IH].
  destruct w as [|d w]; simpl app in IH |- *.
  - intros H. exfalso. destruct x as [|e x]; [done|]. destruct (decide (e = 47)) as [->|He].
    + simpl in H. injection H as H. apply (f_equal length) in H. rewrite length_app in H. simpl in H. lia.
    + rewrite after_close_cons in H by naive_solver. by destruct (Hno (e :: x)).
  - destruct (decide (d = 47)) as [->|Hd]; [simpl; intros [= H]; f_equal; by apply app_inv_tail in H|].
    rewrite (after_close_cons 42 (d :: w ++ x)), (after_close_cons 42 (d :: w)) by naive_solver. exact IH.
Qed.

Lemma to_close_split s body r : to_close s = Some (body, r) -> s = body ++ 34 :: r.
Proof.
  remember (length s) as n eqn:Hn. revert s body r Hn. induction n as [n IH] using lt_wf_ind. intros s body r ->.
  destruct s as [|c s]; [done|]. simpl. destruct (Z.eqb_spec c 34) as [->|Hc]; [by intros [= <- <-]|].
  destruct (Z.eqb_spec c 92) as [->|Hb].
  - destruct s as [|e s]; [done|]. destruct (to_close s) as [[b r']|] eqn:E; [|done]. simpl. intros [= <- <-].
    rewrite (IH (length s) ltac:(simpl; lia) s b r' eq_refl E). done.
  - destruct (to_close s) as [[b r']|] eqn:E; [|done]. simpl. intros [= <- <-].
    rewrite (IH (length s) ltac:(simpl; lia) s b r' eq_refl E). done.
Qed.

Lemma to_close_prefix w x body r : to_close (w ++ x) = Some (body, r ++ x) -> to_close w = Some (body, r).
Proof.
  assert (forall y b, to_close y <> Some (b, r ++ y)) as Hno.
  { intros y b E%to_close_split. apply (f_equal length) in E. rewrite length_app in E. simpl in E. rewrite length_app in E. lia. }
  remember (length w) as n eqn:Hn. revert w body Hn. induction n as [n IH] using lt_wf_ind. intros w body ->.
  destruct w as [|c w]; cbn [app]; [intros []%Hno|]. cbn [to_close]. destruct (Z.eqb_spec c 34) as [->|Hc].
  { intros [= <- E]. by apply app_inv_tail in E as ->. }
  destruct (Z.eqb_spec c 92) as [->|Hb].
  - destruct w as [|e w]; cbn [app].
    + destruct x as [|e x]; [done|]. destruct (to_close x) as [[b r']|] eqn:E; [|done]. simpl. intros [= _ ->].
      exfalso. apply to_close_split in E. apply (f_equal length) in E. rewrite length_app in E. simpl in E. rewrite length_app in E. simpl in E. lia.
    + destruct (to_close (w ++ x)) as [[b r']|] eqn:E; [|done]. simpl. intros [= <- ->].
      by rewrite (IH (length w) ltac:(simpl; lia) w b eq_refl E).
  - destruct (to_close (w ++ x)) as [[b r']|] eqn:E; [|done]. simpl. intros [= <- ->].
    by rewrite (IH (length w) ltac:(simpl; lia) w b eq_refl E).
Qed.

Lemma span_length (p : Z -> bool) s a b : span p s = (a, b) -> (length b <= length s)%nat.
Proof. intros [-> _]%span_split. rewrite length_app. lia. Qed.

Lemma span_prefix (p : Z -> bool) w x a r : span p (w ++ x) = (a, r ++ x) -> span p w = (a, r).
Proof.
  revert a. induction w as [|c w IH]; intros a; simpl.
  - intros [E _]%span_split. apply (f_equal length) in E. rewrite !length_app in E.
    destruct a, r; simpl in E; try lia. done.
  - destruct (p c); [|by intros [= <- <-%(app_inv_tail x (c :: w))]].
    destruct (span p (w ++ x)) as [a' b] eqn:E. intros [= <- ->]. by rewrite (IH a' eq_refl).
Qed.

(** ** One turn *)

Lemma lex_one_split s k rest :
  s <> [] -> lex_one s = Ok (k, rest) ->
  exists piece, s = piece ++ rest /\ piece <> [] /\
    match k with
    | Some t => t = piece /\ lexeme piece
    | None => trivia piece \/ rest = [] /\ exists body, piece = 47 :: 47 :: body /\ ~ In 10 body
    end.
Proof.
  destruct s as [|c s]; [done|]. intros _. unfold lex_one. destruct (is_js_space c) eqn:Esp.
  { intros [= <- <-]. exists [c]. repeat split; [done|]. left. by constructor. }
  destruct ((c =? 47) && starts_with 47 s) eqn:E1.
  { apply andb_true_iff in E1 as [->%Z.eqb_eq H]. destruct s as [|d s]; [done|]. simpl in H. apply Z.eqb_eq in H as ->.
    simpl. intros [= <- <-]. destruct (after_newline_split s) as [(body & Hb & E)|[Hs E]].
    - exists (47 :: 47 :: body ++ [10]). rewrite E at 1. split; [simpl; by rewrite <- app_assoc|]. split; [done|]. left. by constructor.
    - rewrite E. exists (47 :: 47 :: s). rewrite app_nil_r. split; [done|]. split; [done|]. right. eauto. }
  destruct ((c =? 47) && starts_with 42 s) eqn:E2.
  { apply andb_true_iff in E2 as [->%Z.eqb_eq H]. destruct s as [|d s]; [done|]. simpl in H. apply Z.eqb_eq in H as ->.
    simpl. destruct (after_close s) as [r|] eqn:E; [|done]. intros [= <- <-]. apply after_close_split in E as (body & -> & Hb).
    exists (47 :: 42 :: body ++ [42; 47]). split; [simpl; by rewrite <- app_assoc|]. split; [done|]. left. by constructor. }
  destruct (Z.eqb_spec c 34) as [->|Hq].
  { destruct (to_close s) as [[body r]|] eqn:E; [|done]. intros [= <- <-]. pose proof (to_close_split _ _ _ E) as ->.
    exists (34 :: body ++ [34]). split; [simpl; by rewrite <- app_assoc|]. split; [done|]. split; [done|]. apply lexeme_string.
    apply (to_close_prefix _ r). rewrite <- app_assoc. done. }
  destruct (is_ident_start c) eqn:Ei.
  { simpl. assert (is_ident c = true) as -> by (unfold is_ident; by rewrite Ei).
    destruct (span is_ident s) as [w r] eqn:E. intros [= <- <-]. apply span_split in E as [-> HF].
    exists (c :: w). split; [done|]. split; [done|]. split; [done|]. apply lexeme_word. simpl. rewrite Ei. simpl.
    apply forallb_forall. by apply List.Forall_forall. }
  intros [= <- <-]. exists [c]. repeat split; [done|]. by apply lexeme_symbol.
Qed.

(** Cutting the text behind a turn does not change the turn. *)
Lemma lex_one_prefix u x k r : u <> [] -> lex_one (u ++ x) = Ok (k, r ++ x) -> lex_one u = Ok (k, r).
Proof.
  destruct u as [|c u]; [done|]. intros _. unfold lex_one. cbn [app].
  destruct (is_js_space c) eqn:Esp; [intros [= <- H]; by apply app_inv_tail in H as ->|].
  destruct ((c =? 47) && starts_with 47 (u ++ x)) eqn:E1.
  { intros [= <- H]. destruct u as [|d u]; [exfalso|].
    - destruct x as [|e x]; [by rewrite andb_false_r in E1|]. simpl in H. pose proof (after_newline_length x) as [Hl _].
      apply (f_equal length) in H. rewrite length_app in H. simpl in H. lia.
    - simpl in E1 |- *. rewrite E1. by rewrite (after_newline_prefix u x r H). }
  destruct ((c =? 47) && starts_with 42 (u ++ x)) eqn:E2.
  { destruct (after_close (tail (u ++ x))) as [r'|] eqn:E; [|done]. intros [= <- ->]. destruct u as [|d u]; [exfalso|].
    - destruct x as [|e x]; [by rewrite andb_false_r in E2|]. simpl in E. apply after_close_split in E as (b & E & _).
      apply (f_equal length) in E. rewrite length_app in E. simpl in E. rewrite length_app in E. simpl in E. lia.
    - simpl in E, E1, E2 |- *. rewrite E1, E2. by rewrite (after_close_prefix u x r E). }
  assert (forall d, (c =? 47) && starts_with d (u ++ x) = false -> (c =? 47) && starts_with d u = false) as Hst.
  { intros d. destruct u; [intros _; apply andb_false_r|done]. }
  rewrite (Hst _ E1), (Hst _ E2). destruct (Z.eqb_spec c 34) as [->|Hq].
  { destruct (to_close (u ++ x)) as [[body r']|] eqn:E; [|done]. intros [= <- ->]. by rewrite (to_close_prefix u x body r E). }
  destruct (is_ident_start c) eqn:Ei.
  { destruct (span is_ident (c :: u ++ x)) as [w r'] eqn:E. intros [= <- ->]. by rewrite (span_prefix is_ident (c :: u) x w r E). }
  intros [= <- H]. by apply app_inv_tail in H as ->.
Qed.

Lemma lex_one_shorter s k rest : s <> [] -> lex_one s = Ok (k, rest) -> (length rest < length s)%nat.
Proof.
  intros Hs H. destruct (lex_one_split s k rest Hs H) as (piece & -> & Hp & _). rewrite length_app.
  destruct piece; [done|]. simpl. lia.
Qed.

(** ** Runs of the loop *)

(** The loop goes from position [i] of the text [s] to position [j], where [r]
    is left, and reads [tokens] on the way. *)
Inductive lexes : nat -> jsstr -> list qtoken -> nat -> jsstr -> Prop :=
| lexes_done i s : lexes i s [] i s
| lexes_turn i s found rest tokens j r :
    s <> [] -> lex_one s = Ok (found, rest) ->
    lexes (i + (length s - length rest)) rest tokens j r ->
    lexes i s (match found with Some t => (t, (i, (i + (length s - length rest))%nat)) :: tokens | None => tokens end) j r.

Lemma tokenize_total fuel i s : (length s <= fuel)%nat -> exists r, tokenize_from fuel i s = Some r.
Proof.
  revert i s. induction fuel as [|fuel IH]; intros i [|c s] Hf; simpl in Hf; try lia; [eexists; reflexivity..|].
  cbn [tokenize_from]. destruct (lex_one (c :: s)) as [[found rest]|e] eqn:E; [|by eexists].
  pose proof (lex_one_shorter (c :: s) _ _ ltac:(done) E) as Hl. simpl in Hl.
  destruct (IH (i + (length (c :: s) - length rest))%nat rest ltac:(lia)) as [r ->]. destruct r; by eexists.
Qed.

Lemma tokenize_from_lexes fuel i s tokens :
  (length s <= fuel)%nat -> tokenize_from fuel i s = Some (Ok tokens) <-> lexes i s tokens (i + length s) [].
Proof.
  intros Hf. split.
  - revert i s tokens Hf. induction fuel as [|fuel IH]; intros i [|c s] tokens Hf; simpl in Hf; try lia.
    1-2: intros [= <-]; simpl; rewrite Nat.add_0_r; constructor.
    cbn [tokenize_from]. destruct (lex_one (c :: s)) as [[found rest]|e] eqn:E; [|done].
    pose proof (lex_one_shorter (c :: s) _ _ ltac:(done) E) as Hl.
    destruct (tokenize_from fuel _ rest) as [[toks|]|] eqn:Et; [|done..]. intros [= <-].
    apply lexes_turn; [done|done|]. simpl in Hl.
    replace (i + length (c :: s))%nat with (i + (length (c :: s) - length rest) + length rest)%nat by (simpl; lia).
    apply IH; [lia|done].
  - remember (i + length s)%nat as j eqn:Ej. remember [] as r eqn:Er. intros H. revert fuel Hf.
    induction H as [i s|i s found rest tokens j r Hs E H IH]; intros fuel Hf; subst.
    + by destruct fuel.
    + destruct s as [|c s]; [done|]. destruct fuel as [|fuel]; [simpl in Hf; lia|]. cbn [tokenize_from]. rewrite E.
      pose proof (lex_one_shorter (c :: s) _ _ ltac:(done) E) as Hl. simpl in Hl, Hf.
      rewrite IH; [done|simpl; lia|done|lia].
Qed.

Lemma tokenize_lexes s tokens : tokenize s = Ok tokens <-> lexes 0 s tokens (length s) [].
Proof.
  rewrite <- (tokenize_from_lexes (length s)) by done. unfold tokenize.
  destruct (tokenize_total (length s) 0 s ltac:(done)) as [r ->]. simpl. naive_solver.
Qed.

Lemma lexes_covers i s tokens j : lexes i s tokens j [] -> covers i s tokens.
Proof.
  remember [] as r eqn:Er. induction 1 as [i s|i s found rest tokens j r Hs E H IH]; subst; [constructor|].
  destruct (lex_one_split _ _ _ Hs E) as (piece & -> & Hp & Hk). rewrite length_app in *.
  replace (length piece + length rest - length rest)%nat with (length piece) in * by lia.
  destruct found as [t|]; [destruct Hk as [-> Hk]; by apply covers_token; [|apply IH]|].
  destruct Hk as [Hk|(-> & body & -> & Hb)]; [by apply covers_gap; [|apply IH]|].
  inversion H; subst; [|done]. rewrite app_nil_r. by constructor.
Qed.

Lemma lexes_app i s a j r b k q : lexes i s a j r -> lexes j r b k q -> lexes i s (a ++ b) k q.
Proof.
  induction 1 as [|i s found rest tokens j r Hs E H IH]; intros Hb; [done|].
  replace (_ ++ b) with (match found with Some t => (t, (i, (i + (length s - length rest))%nat)) :: (tokens ++ b) | None => tokens ++ b end)
    by (by destruct found).
  by apply lexes_turn; [| |apply IH].
Qed.

(** Between two of its tokens the loop stands at a position of its own. *)
Lemma lexes_split i s a b k q : lexes i s (a ++ b) k q -> exists j r, lexes i s a j r /\ lexes j r b k q.
Proof.
  intros H. remember (a ++ b) as ab eqn:Eab. revert a Eab. induction H as [i s|i s found rest tokens j r Hs E H IH]; intros a Eab.
  - symmetry in Eab. apply app_nil in Eab as [-> ->]. exists i, s. split; constructor.
  - destruct found as [t|].
    + destruct a as [|x a]; [exists i, s; split; [constructor|]|].
      * simpl in Eab. subst b. apply (lexes_turn i s (Some t) rest tokens); done.
      * simpl in Eab. injection Eab as <- Eab. destruct (IH a Eab) as (j' & r' & H1 & H2). exists j', r'. split; [|done].
        apply (lexes_turn i s (Some t) rest a); done.
    + destruct (IH a Eab) as (j' & r' & H1 & H2). exists j', r'. split; [|done]. apply (lexes_turn i s None rest a); done.
Qed.

(** What is left is a suffix of the text, as long as the positions say. *)
Lemma lexes_suffix i s tokens j r : lexes i s tokens j r -> exists u, s = u ++ r /\ (j = i + length u)%nat.
Proof.
  induction 1 as [i s|i s found rest tokens j r Hs E H (u & -> & ->)].
  - exists []. simpl. by rewrite Nat.add_0_r.
  - destruct (lex_one_split _ _ _ Hs E) as (piece & -> & _ & _). exists (piece ++ u). rewrite <- app_assoc. split; [done|].
    rewrite !length_app. lia.
Qed.

(** The text read so far, taken alone, is read the same. *)
Lemma lexes_prefix i u x tokens : lexes i (u ++ x) tokens (i + length u) x -> lexes i u tokens (i + length u) [].
Proof.
  intros H. remember (u ++ x) as s eqn:Es. remember (i + length u)%nat as j eqn:Ej. revert u Es Ej.
  induction H as [i s|i s found rest tokens j r Hs E H IH]; intros u Es Ej.
  - destruct u; [|simpl in Ej; lia]. simpl. constructor.
  - subst s. pose proof (lexes_suffix _ _ _ _ _ H) as (v & -> & Hj).
    assert (u <> []) as Hu.
    { intros ->. pose proof (lex_one_shorter _ _ _ Hs E) as Hl. simpl in Hl. rewrite length_app in Hl. lia. }
    pose proof (lex_one_prefix u r found v Hu E) as E'. destruct (lex_one_split _ _ _ Hu E') as (piece & -> & _ & _).
    replace (length ((piece ++ v) ++ r) - length (v ++ r))%nat with (length (piece ++ v) - length v)%nat in * by (rewrite !length_app; lia).
    apply lexes_turn; [done..|]. apply IH; [done|]. rewrite length_app in *. lia.
Qed.

(** A token's span holds the token. *)
Lemma lexes_spans i s tokens j r :
  lexes i s tokens j r ->
  Forall (fun '(t, (a, b)) => (i <= a)%nat /\ (a < b)%nat /\ (b <= j)%nat /\ take (b - a) (drop (a - i) s) = t) tokens.
Proof.
  induction 1 as [|i s found rest tokens j r Hs E H IH]; [constructor|].
  destruct (lex_one_split _ _ _ Hs E) as (piece & -> & Hp & Hk). rewrite length_app in *.
  replace (length piece + length rest - length rest)%nat with (length piece) in * by lia.
  destruct (lexes_suffix _ _ _ _ _ H) as (u & -> & ->).
  assert (0 < length piece)%nat by (destruct piece; [done|simpl; lia]).
  assert (Forall (fun '(t, (a, b)) => (i <= a)%nat /\ (a < b)%nat /\ (b <= i + length piece + length u)%nat /\
            take (b - a) (drop (a - i) (piece ++ u ++ r)) = t) tokens) as IH'.
  { eapply list.Forall_impl; [exact IH|]. intros [t [a b]] (H1 & H2 & H3 & H4). repeat split; try lia.
    rewrite <- H4. replace (a - i)%nat with (length piece + (a - (i + length piece)))%nat by lia. by rewrite drop_app_add. }
  destruct found as [t|]; [|done]. destruct Hk as [-> _]. constructor; [|done]. repeat split; try lia.
  rewrite Nat.sub_diag, drop_0. replace (i + length piece - i)%nat with (length piece) by lia. by rewrite take_app_length.
Qed.

(** ** Declarations are segments *)

(** The declaration [name] is cut out of [tokens]: its keyword, its name, its
    body. *)
Definition segment (tokens : list qtoken) (name : jsstr) (d : declaration) : Prop :=
  exists pre k n post, tokens = pre ++ k :: n :: d_body d ++ post /\ kind_of k.1 = Some (d_kind d) /\ n.1 = name.

(** The same, with nothing read behind it. *)
Definition last_segment (tokens : list qtoken) (name : jsstr) (d : declaration) : Prop :=
  exists pre k n, tokens = pre ++ k :: n :: d_body d /\ kind_of k.1 = Some (d_kind d) /\ n.1 = name.

Lemma last_segment_segment tokens name d more : last_segment tokens name d -> segment (tokens ++ more) name d.
Proof.
  intros (pre & k & n & -> & Hk & Hn). exists pre, k, n, more. split; [|done]. by rewrite <- app_assoc.
Qed.

Lemma segment_app tokens name d more : segment tokens name d -> segment (tokens ++ more) name d.
Proof.
  intros (pre & k & n & post & -> & Hk & Hn). exists pre, k, n, (post ++ more). split; [|done]. by rewrite <- !app_assoc, !app_comm_cons, <- app_assoc.
Qed.

Lemma declared_In name ds d : declared name ds = Some d -> In (name, d) ds.
Proof.
  induction ds as [|[n x] ds IH]; simpl; [done|]. destruct (str_eqb n name) eqn:E; [|auto].
  apply str_eqb_eq in E as ->. intros [= ->]. by left.
Qed.

Lemma declared_None name ds : declared name ds = None <-> ~ In name (List.map fst ds).
Proof.
  induction ds as [|[n x] ds IH]; simpl; [naive_solver|]. destruct (str_eqb n name) eqn:E.
  - apply str_eqb_eq in E as ->. naive_solver.
  - assert (n <> name) by (intros ->; unfold str_eqb in E; by rewrite bool_decide_eq_true_2 in E). naive_solver.
Qed.

Lemma In_declared name ds d : NoDup (List.map fst ds) -> In (name, d) ds -> declared name ds = Some d.
Proof.
  induction ds as [|[n x] ds IH]; simpl; [done|]. intros [Hn Hnd]%list.NoDup_cons [[= -> ->]|Hin].
  - unfold str_eqb. by rewrite bool_decide_eq_true_2.
  - destruct (str_eqb n name) eqn:E; [|auto]. apply str_eqb_eq in E as ->. destruct Hn. apply list_elem_of_In. by apply (in_map fst) in Hin.
Qed.

Lemma declared_snoc name ds n d : declared name (ds ++ [(n, d)]) = match declared name ds with Some x => Some x | None => if str_eqb n name then Some d else None end.
Proof. induction ds as [|[m x] ds IH]; simpl; [done|]. by destruct (str_eqb m name). Qed.

Lemma push_token_names name t ds : List.map fst (push_token name t ds) = List.map fst ds.
Proof. induction ds as [|[n d] ds IH]; simpl; [done|]. destruct (str_eqb n name); simpl; by rewrite ?IH. Qed.

Lemma push_token_declared name t ds m :
  declared m (push_token name t ds) =
  if str_eqb name m then (fun d => Declaration (d_kind d) (d_body d ++ [t])) <$> declared m ds else declared m ds.
Proof.
  induction ds as [|[n d] ds IH]; simpl; [by destruct (str_eqb name m)|].
  destruct (str_eqb n name) eqn:E; simpl.
  - apply str_eqb_eq in E as ->. by destruct (str_eqb name m).
  - rewrite IH. destruct (str_eqb name m) eqn:E2; [|done]. apply str_eqb_eq in E2 as ->. by rewrite E.
Qed.

Record scan_ok (pre : list qtoken) (st : scan_state) : Prop := {
  so_names : NoDup (List.map fst (s_decls st));
  so_segments : forall name d, In (name, d) (s_decls st) -> segment pre name d;
  so_stack : s_stack st <> [] -> (1 <= length pre)%nat;
  so_current : forall name, s_current st = Some name ->
    (3 <= length pre)%nat /\ (s_stack st = [] \/ exists d, declared name (s_decls st) = Some d /\ last_segment pre name d)
}.

Lemma scan_outside_ok pre t rest st st' :
  scan_ok pre st -> scan_outside (length pre) t rest st = Ok st' ->
  s_decls st' = s_decls st /\ s_stack st' = s_stack st /\ s_current st' = s_current st /\
  (s_stack st = [] -> (length pre <= 2)%nat).
Proof.
  intros _. unfold scan_outside. destruct (s_stack st) as [|x xs] eqn:E; [|by intros [= <-]].
  unfold throw_if. destruct (Nat.ltb_spec 2 (length pre)); [done|]. simpl.
  destruct (str_eqb t.1 (js "module")); [|by intros [= <-]].
  destruct rest as [|name [|brace rest]]; [done..|]. by destruct (_ && _); [intros [= <-]|].
Qed.

Lemma push_token_ok pre t name ds d :
  NoDup (List.map fst ds) -> (forall n x, In (n, x) ds -> segment pre n x) ->
  declared name ds = Some d -> last_segment pre name d ->
  (forall n x, In (n, x) (push_token name t ds) -> segment (pre ++ [t]) n x) /\
  exists d', declared name (push_token name t ds) = Some d' /\ last_segment (pre ++ [t]) name d'.
Proof.
  intros Hnd Hseg Hd Hlast.
  assert (last_segment (pre ++ [t]) name (Declaration (d_kind d) (d_body d ++ [t]))) as Hnew.
  { destruct Hlast as (p & k & n & -> & Hk & Hn). exists p, k, n. split; [simpl; by rewrite <- app_assoc|done]. }
  split.
  - intros n x Hin. assert (NoDup (List.map fst (push_token name t ds))) as Hnd' by (by rewrite push_token_names).
    apply (In_declared _ _ _ Hnd') in Hin. rewrite push_token_declared in Hin. destruct (str_eqb name n) eqn:E.
    + apply str_eqb_eq in E as <-. rewrite Hd in Hin. injection Hin as <-.
      apply last_segment_segment with (more := []) in Hnew. by rewrite app_nil_r in Hnew.
    + by apply segment_app, Hseg, declared_In.
  - eexists. split; [|exact Hnew]. rewrite push_token_declared, Hd. unfold str_eqb. by rewrite bool_decide_eq_true_2.
Qed.

Lemma track_closed token stack stack' :
  in_body token stack = false -> track token stack = Ok stack' -> stack = [] \/ stack' = [].
Proof.
  unfold in_body. destruct stack as [|x [|y stack]]; simpl; [auto|..]; [|done].
  destruct (str_eqb token (js "}")) eqn:E; [|done]. intros _. apply str_eqb_eq in E as ->. right.
  revert H. unfold track. simpl. destruct (str_eqb x _); [|done]. by intros [= <-].
Qed.

Lemma scan_token_ok pre t st st' :
  scan_ok pre st -> (s_stack st = [] -> (length pre <= 2)%nat) -> scan_token t st = Ok st' -> scan_ok (pre ++ [t]) st'.
Proof.
  intros Hok Hout. unfold scan_token.
  destruct (at_module (s_stack st) && str_eqb t.1 (js "pure")).
  { intros [= <-]. split; simpl; [apply Hok|intros; by apply segment_app, Hok|rewrite length_app; simpl; lia|done]. }
  assert (forall b name, (if b : bool then None else s_current st) = Some name -> s_current st = Some name) as Hcur by (by intros []).
  specialize (Hcur (at_module (s_stack st) && (str_eqb t.1 (js "import") || str_eqb t.1 (js "export")))).
  destruct (if at_module (s_stack st) && _ then None else s_current st) as [name|]; simpl.
  2: { destruct (track t.1 (s_stack st)) as [stack'|e]; [|done]. simpl. intros [= <-].
       split; simpl; [apply Hok|intros; by apply segment_app, Hok|rewrite length_app; simpl; lia|done]. }
  destruct (so_current _ _ Hok name (Hcur name eq_refl)) as [Hlen [Hs|(d & Hd & Hseg)]]; [specialize (Hout Hs); lia|].
  destruct (track t.1 (s_stack st)) as [stack'|e] eqn:Et; [|done]. simpl. intros [= <-].
  destruct (in_body t.1 (s_stack st)) eqn:Eb; split; simpl; rewrite ?push_token_names, ?length_app; simpl; try (apply Hok || lia).
  - apply (push_token_ok pre t name (s_decls st) d); [apply Hok..|done|done].
  - intros _ [= <-]. split; [lia|]. right. apply (push_token_ok pre t name (s_decls st) d); [apply Hok..|done|done].
  - intros. by apply segment_app, Hok.
  - intros _ [= <-]. split; [lia|]. left. destruct (track_closed _ _ _ Eb Et) as [Hs|Hs]; [|done]. specialize (Hout Hs). lia.
Qed.

Lemma scan_loop_ok tokens : forall pre st st', scan_ok pre st -> scan_loop (length pre) tokens st = Ok st' -> scan_ok (pre ++ tokens) st'.
Proof.
  induction tokens as [tokens IH] using (induction_ltof1 _ (@length qtoken)). unfold ltof in IH. intros pre st st' Hok.
  destruct tokens as [|t rest]; [simpl; intros [= <-]; by rewrite app_nil_r|]. cbn [scan_loop].
  destruct (scan_outside (length pre) t rest st) as [st1|e] eqn:Eo; [|done]. simpl.
  destruct (scan_outside_ok _ _ _ _ _ Hok Eo) as (Hd & Hs & Hc & Hout).
  assert (scan_ok pre st1) as Hok1 by (split; rewrite ?Hd, ?Hs, ?Hc; apply Hok).
  destruct (if at_module (s_stack st1) then kind_of t.1 else None) as [kind|] eqn:Ek.
  - destruct rest as [|name rest]; [done|]. destruct (is_identifier name.1); [|done]. simpl.
    destruct (declared name.1 (s_decls st1)) eqn:Edup; [done|]. intros H.
    destruct (at_module (s_stack st1)) eqn:Em; [|done]. unfold at_module in Em. apply bool_decide_eq_true in Em.
    replace (S (S (length pre))) with (length (pre ++ [t; name])) in H by (rewrite length_app; simpl; lia).
    replace (pre ++ t :: name :: rest) with ((pre ++ [t; name]) ++ rest) by (by rewrite <- app_assoc).
    eapply IH; [simpl; lia| |exact H].
    assert (last_segment (pre ++ [t; name]) name.1 (Declaration kind [])) as Hl by (by exists pre, t, name).
    pose proof (so_stack _ _ Hok1) as Hs1. rewrite Em in Hs1. specialize (Hs1 ltac:(done)).
    split; simpl; rewrite ?length_app; simpl; try lia.
    + rewrite List.map_app. simpl. apply list.NoDup_app. split; [apply Hok1|]. split; [|apply list.NoDup_singleton].
      intros x Hx ->%list_elem_of_singleton. apply declared_None in Edup. by apply Edup, list_elem_of_In.
    + intros n d [Hin|[[= <- <-]|[]]]%in_app_iff; [by apply segment_app, Hok1|].
      apply last_segment_segment with (more := []) in Hl. by rewrite app_nil_r in Hl.
    + intros n [= <-]. split; [lia|]. right. exists (Declaration kind []). split; [|done]. rewrite declared_snoc, Edup.
      unfold str_eqb. by rewrite bool_decide_eq_true_2.
  - destruct (scan_token t st1) as [st2|e] eqn:Es; [|done]. simpl. intros H.
    rewrite cons_middle, app_assoc. eapply (IH rest); [simpl; lia| |].
    + eapply scan_token_ok; [exact Hok1| |exact Es]. by rewrite Hs.
    + replace (length (pre ++ [t])) with (S (length pre)) by (rewrite length_app; simpl; lia). exact H.
Qed.

Lemma scan_tokens_ok tokens ds :
  scan_tokens tokens = Ok ds ->
  NoDup (List.map fst ds) /\ forall name d, declared name ds = Some d -> segment tokens name d.
Proof.
  unfold scan_tokens. destruct tokens as [|t tokens]; [done|]. unfold throw_if. destruct (negb _); [done|]. cbn [mbind result_bind].
  destruct (scan_loop 0 (t :: tokens) (Scan [] [] 0 None)) as [st|e] eqn:E; [|done]. simpl.
  assert (scan_ok [] (Scan [] [] 0 None)) as H0 by (split; simpl; [constructor|done|done|done]).
  pose proof (scan_loop_ok (t :: tokens) [] _ _ H0 E) as Hok. simpl in Hok.
  destruct (_ && _); [|done]. intros [= <-]. split; [apply Hok|]. intros name d Hd. by apply Hok, declared_In.
Qed.

(** ** Properties *)

(** The scanner loses nothing of a Quint source: it fails only on an
    unterminated comment or string; otherwise the source is its tokens and
    comments and blanks between them, each token at the span it reports, and
    every declaration found has a name of its own and is a segment of the
    tokens, keyword, name and body. *)
Theorem scanner_is_faithful source :
  (forall e, tokenize source = Err e ->
     e = PlainError "Unterminated Quint comment" \/ e = PlainError "Unterminated Quint string") /\
  (forall tokens, tokenize source = Ok tokens ->
     covers 0 source tokens /\
     Forall (fun '(t, (a, b)) => (a < b <= length source)%nat /\ take (b - a) (drop a source) = t) tokens) /\
  (forall ds, scanDeclarationBodies source = Ok ds ->
     exists tokens, tokenize source = Ok tokens /\ NoDup (List.map fst ds) /\
       forall name d, declared name ds = Some d -> segment tokens name d).
Proof.
  split; [|split].
  - intros e. unfold tokenize. destruct (tokenize_total (length source) 0 source ltac:(done)) as [r Hr]. rewrite Hr. simpl.
    intros ->. revert Hr. generalize 0%nat, (length source). intros i fuel. revert i source.
    induction fuel as [|fuel IH]; intros i [|c s]; try done. cbn [tokenize_from].
    destruct (lex_one (c :: s)) as [[found rest]|e'] eqn:E.
    + specialize (IH (i + (length (c :: s) - length rest))%nat rest). destruct (tokenize_from fuel _ rest) as [[|]|]; naive_solver.
    + intros [= <-]. revert E. unfold lex_one. repeat case_match; naive_solver.
  - intros tokens H%tokenize_lexes. split; [by eapply lexes_covers|]. apply lexes_spans in H.
    eapply list.Forall_impl; [exact H|]. intros [t [a b]] (_ & H1 & H2 & H3). rewrite Nat.sub_0_r in H3. auto.
  - intros ds. unfold scanDeclarationBodies. destruct (tokenize source) as [tokens|e]; [|done]. simpl. intros H%scan_tokens_ok.
    exists tokens. naive_solver.
Qed.

(** A module with a comment, an import between declarations and a string with
    an escaped quotation mark. *)
Definition sample_module : jsstr :=
  js "module m { // state" ++ [10] ++ js "  var s: int  import k.* from " ++ [34] ++ js "./k" ++ [34; 10]
  ++ js "  action init = all { s' = 0 }  run oneTest = init.expect(s == " ++ [34; 92; 34; 125; 34] ++ js ") }".

Lemma sample_scan :
  scanDeclarations sample_module = Ok [(js "s", KVar); (js "init", KAction); (js "oneTest", KRun)] /\
  tokenize (js "/* open") = Err (PlainError "Unterminated Quint comment").
Proof. split; vm_compute; reflexivity. Qed.
