(* ===== verification/QuintGrammar.v ===== *)
(** * The grammar the declaration scanner reads

    [scanDeclarationBodies] of [formal/tools/execution.mjs] is a loop with a
    delimiter stack and a current declaration. Here the language it accepts is
    written as a grammar, and the scanner is shown to accept exactly the
    sources of that grammar, with exactly the declarations the grammar reads
    off. *)

From S2P Require Import Prelude JsValue Duration Utf8 Config Key Metrics Frame Compression Json JsonText Pattern Itf ReplayText QuintText.

(** ** The grammar *)

Definition no_delimiter (t : qtoken) : Prop := is_opener t.1 = false /\ opener_of t.1 = None.

(** A keyword that ends a declaration body without starting a declaration. *)
Definition ends_body (t : qtoken) : bool :=
  str_eqb t.1 (js "pure") || str_eqb t.1 (js "import") || str_eqb t.1 (js "export").

(** Tokens with matched delimiters. *)
Inductive balanced : list qtoken -> Prop :=
| balanced_nil : balanced []
| balanced_token t r : no_delimiter t -> balanced r -> balanced (t :: r)
| balanced_group o body c r :
    is_opener o.1 = true -> balanced body -> opener_of c.1 = Some o.1 -> balanced r -> balanced (o :: body ++ c :: r).

(** The same, with no keyword of a declaration outside the delimiters. *)
Inductive body_of : list qtoken -> Prop :=
| body_nil : body_of []
| body_token t r : no_delimiter t -> kind_of t.1 = None -> ends_body t = false -> body_of r -> body_of (t :: r)
| body_group o body c r :
    is_opener o.1 = true -> balanced body -> opener_of c.1 = Some o.1 -> body_of r -> body_of (o :: body ++ c :: r).

(** The statements of a module and the declarations among them. *)
Inductive items : list qtoken -> declarations -> Prop :=
| items_nil : items [] []
| items_declaration k kind n body rest ds :
    kind_of k.1 = Some kind -> is_identifier n.1 = true -> body_of body -> items rest ds ->
    items (k :: n :: body ++ rest) ((n.1, Declaration kind body) :: ds)
| items_statement t body rest ds :
    ends_body t = true -> body_of body -> items rest ds -> items (t :: body ++ rest) ds.

Inductive quint_module : list qtoken -> declarations -> Prop :=
| module_of m n o lead rest c ds :
    m.1 = js "module" -> is_identifier n.1 = true -> n.1 <> js "module" -> o.1 = js "{" -> c.1 = js "}" ->
    body_of lead -> items rest ds -> NoDup (List.map fst ds) ->
    quint_module (m :: n :: o :: lead ++ rest ++ [c]) ds.

(** ** The loop on a body *)

Definition push_tokens (current : option jsstr) (ts : list qtoken) (ds : declarations) : declarations :=
  match current with Some name => fold_left (fun ds t => push_token name t ds) ts ds | None => ds end.

Lemma push_tokens_app current a b ds : push_tokens current (a ++ b) ds = push_tokens current b (push_tokens current a ds).
Proof. destruct current; [apply fold_left_app|done]. Qed.

Lemma push_tokens_last name kind body ds : forall before,
  ~ In name (List.map fst ds) ->
  push_tokens (Some name) body (ds ++ [(name, Declaration kind before)]) = ds ++ [(name, Declaration kind (before ++ body))].
Proof.
  assert (forall t before, ~ In name (List.map fst ds) ->
    push_token name t (ds ++ [(name, Declaration kind before)]) = ds ++ [(name, Declaration kind (before ++ [t]))]) as Hone.
  { intros t before. induction ds as [|[n d] l IH]; simpl; intros Hn.
    - unfold str_eqb. by rewrite bool_decide_eq_true_2.
    - destruct (str_eqb n name) eqn:E; [apply str_eqb_eq in E as ->; naive_solver|]. rewrite IH by naive_solver. done. }
  unfold push_tokens. induction body as [|t body IH]; intros before Hn; simpl; [by rewrite app_nil_r|].
  rewrite Hone, IH by done. by rewrite <- app_assoc.
Qed.

(** A token the loop only passes on: pushed, then tracked. *)
Lemma scan_inside i t rest ds stack m cur :
  stack <> [] -> (at_module stack = true -> kind_of t.1 = None /\ ends_body t = false) -> in_body t.1 stack = true ->
  scan_loop i (t :: rest) (Scan ds stack m cur) =
  (stack' ← track t.1 stack; scan_loop (S i) rest (Scan (push_tokens cur [t] ds) stack' m cur)).
Proof.
  intros Hs Hm Hb. cbn [scan_loop]. unfold scan_outside. cbn [s_stack s_decls s_modules s_current].
  destruct stack as [|x stack]; [done|]. cbn [mbind result_bind s_stack].
  unfold scan_token. cbn [s_stack s_decls s_modules s_current]. rewrite Hb.
  assert ((if at_module (x :: stack) then kind_of t.1 else None) = None) as -> by (destruct (at_module _); [by apply Hm|done]).
  assert (at_module (x :: stack) && str_eqb t.1 (js "pure") = false /\
          at_module (x :: stack) && (str_eqb t.1 (js "import") || str_eqb t.1 (js "export")) = false) as [-> ->].
  { destruct (at_module _); [|done]. destruct Hm as [_ He]; [done|]. unfold ends_body in He.
    rewrite <- orb_assoc in He. by apply orb_false_iff in He. }
  destruct (track t.1 (x :: stack)) as [stack'|e]; simpl; by destruct cur.
Qed.

Lemma in_body_nested t stack : (2 <= length stack)%nat -> in_body t stack = true.
Proof. intros H. unfold in_body. destruct stack as [|x [|y s]]; simpl in *; [lia|lia|done]. Qed.

Lemma not_module_nested stack : (2 <= length stack)%nat -> at_module stack = false.
Proof. intros H. unfold at_module. apply bool_decide_eq_false. intros ->. simpl in H. lia. Qed.

Lemma track_plain t stack : no_delimiter t -> track t.1 stack = Ok stack.
Proof. intros [H1 H2]. unfold track. by rewrite H1, H2. Qed.

Lemma opener_keyword (o : jsstr) : is_opener o = true -> kind_of o = None /\ ends_body (o, (O, O)) = false /\ opener_of o = None.
Proof. unfold is_opener. intros [[H|H]%orb_true_iff|H]%orb_true_iff; apply str_eqb_eq in H as ->; done. Qed.

Lemma track_close (c o : jsstr) stack : opener_of c = Some o -> track c (o :: stack) = Ok stack.
Proof.
  intros H. unfold track. assert (is_opener c = false) as ->.
  { destruct (is_opener c) eqn:E; [|done]. apply opener_keyword in E as (_ & _ & E). congruence. }
  rewrite H. unfold str_eqb. by rewrite bool_decide_eq_true_2.
Qed.

Lemma nested_step i t rest ds stack m cur :
  (2 <= length stack)%nat ->
  scan_loop i (t :: rest) (Scan ds stack m cur) =
  (stack' ← track t.1 stack; scan_loop (S i) rest (Scan (push_tokens cur [t] ds) stack' m cur)).
Proof.
  intros H. apply scan_inside; [by destruct stack; simpl in *; try lia| |by apply in_body_nested].
  by rewrite not_module_nested.
Qed.

Lemma balanced_run body : balanced body -> forall i rest ds stack m cur,
  (2 <= length stack)%nat ->
  scan_loop i (body ++ rest) (Scan ds stack m cur) = scan_loop (i + length body) rest (Scan (push_tokens cur body ds) stack m cur).
Proof.
  induction 1 as [|t r Ht Hr IH|o body c r Ho Hb IHb Hc Hr IHr]; intros i rest ds stack m cur Hs.
  - simpl. rewrite Nat.add_0_r. by destruct cur.
  - simpl app. rewrite nested_step, track_plain by done. cbn [mbind result_bind]. rewrite IH by done.
    rewrite <- push_tokens_app. simpl. by rewrite Nat.add_succ_r.
  - rewrite <- app_comm_cons, nested_step by done. unfold track at 1. rewrite Ho. cbn [mbind result_bind].
    rewrite <- app_assoc, IHb by (simpl; lia). rewrite <- app_comm_cons, nested_step by (simpl; lia).
    rewrite (track_close _ _ _ Hc). cbn [mbind result_bind]. rewrite IHr by done.
    rewrite <- !push_tokens_app. f_equal. rewrite length_cons, length_app. simpl. lia.
Qed.

Lemma module_step i t rest ds m cur :
  kind_of t.1 = None -> ends_body t = false -> t.1 <> js "}" ->
  scan_loop i (t :: rest) (Scan ds [js "{"] m cur) =
  (stack' ← track t.1 [js "{"]; scan_loop (S i) rest (Scan (push_tokens cur [t] ds) stack' m cur)).
Proof.
  intros Hk He Hc. apply scan_inside; [done|done|]. unfold in_body. simpl.
  destruct (str_eqb t.1 (js "}")) eqn:E; [|done]. by apply str_eqb_eq in E.
Qed.

Lemma body_run body : body_of body -> forall i rest ds m cur,
  scan_loop i (body ++ rest) (Scan ds [js "{"] m cur) =
  scan_loop (i + length body) rest (Scan (push_tokens cur body ds) [js "{"] m cur).
Proof.
  induction 1 as [|t r Ht Hk He Hr IH|o body c r Ho Hb Hc Hr IHr]; intros i rest ds m cur.
  - simpl. rewrite Nat.add_0_r. by destruct cur.
  - assert (t.1 <> js "}") as Hn by (intros E; destruct Ht as [_ Ht]; by rewrite E in Ht).
    simpl app. rewrite module_step, track_plain by done. cbn [mbind result_bind]. rewrite IH.
    rewrite <- push_tokens_app. simpl. by rewrite Nat.add_succ_r.
  - destruct (opener_keyword _ Ho) as (Hk & He & Hn). rewrite <- app_comm_cons, module_step; [|done|done|by intros E; rewrite E in Ho].
    unfold track at 1. rewrite Ho. cbn [mbind result_bind]. rewrite <- app_assoc, (balanced_run _ Hb) by (simpl; lia).
    rewrite <- app_comm_cons, nested_step by (simpl; lia). rewrite (track_close _ _ _ Hc). cbn [mbind result_bind]. rewrite IHr.
    rewrite <- !push_tokens_app. f_equal. rewrite length_cons, length_app. simpl. lia.
Qed.

(** ** What an accepted text consists of *)

Lemma track_cases (t : qtoken) stack stack' :
  track t.1 stack = Ok stack' ->
  (is_opener t.1 = true /\ stack' = t.1 :: stack) \/ (no_delimiter t /\ stack' = stack) \/
  (exists o, opener_of t.1 = Some o /\ stack = o :: stack').
Proof.
  unfold track, no_delimiter. destruct (is_opener t.1); [intros [= <-]; by left|].
  destruct (opener_of t.1) as [o|]; [|intros [= <-]; by right; left].
  destruct stack as [|top stack]; [done|]. destruct (str_eqb top o) eqn:E; [|done]. apply str_eqb_eq in E as ->.
  intros [= <-]. right. right. by exists o.
Qed.

(** Inside a group, the text goes on with the rest of the group. *)
Lemma nested_split n : forall i tokens ds o stack m cur st,
  (length tokens <= n)%nat -> stack <> [] -> scan_loop i tokens (Scan ds (o :: stack) m cur) = Ok st -> s_stack st = [] ->
  exists body c rest, tokens = body ++ c :: rest /\ balanced body /\ opener_of c.1 = Some o.
Proof.
  induction n as [|n IH]; intros i tokens ds o stack m cur st Hn Hs H Hst.
  { destruct tokens; [|simpl in Hn; lia]. injection H as <-. done. }
  destruct tokens as [|t tokens]; [injection H as <-; done|]. simpl in Hn. assert (length tokens <= n)%nat as Hn' by lia.
  assert (2 <= length (o :: stack))%nat as Hl by (destruct stack; [done|simpl; lia]).
  rewrite nested_step in H by done. destruct (track t.1 (o :: stack)) as [stack'|e] eqn:Et; [|done]. cbn [mbind result_bind] in H.
  apply track_cases in Et as [[Ho ->]|[[Hd ->]|(o' & Hc & [= -> ->])]].
  - destruct (IH _ _ _ _ (o :: stack) _ _ _ Hn' ltac:(done) H Hst) as (b1 & c1 & r1 & -> & Hb1 & Hc1).
    rewrite length_app in Hn. simpl in Hn. assert (length r1 <= n)%nat as Hr1 by lia.
    rewrite (balanced_run _ Hb1), nested_step, (track_close _ _ _ Hc1) in H by (simpl in *; lia). cbn [mbind result_bind] in H.
    destruct (IH _ _ _ _ _ _ _ _ Hr1 Hs H Hst) as (b2 & c2 & r2 & -> & Hb2 & Hc2).
    exists (t :: b1 ++ c1 :: b2), c2, r2. split; [simpl; by rewrite <- app_assoc|]. split; [by apply balanced_group|done].
  - destruct (IH _ _ _ _ _ _ _ _ Hn' Hs H Hst) as (b & c & r & -> & Hb & Hc).
    exists (t :: b), c, r. split; [done|]. split; [by constructor|done].
  - exists [], t, tokens. split; [done|]. split; [constructor|done].
Qed.

(** At module level, the text goes on with a body and a keyword or the closing
    brace. *)
Lemma module_split n : forall i tokens ds m cur st,
  (length tokens <= n)%nat -> scan_loop i tokens (Scan ds [js "{"] m cur) = Ok st -> s_stack st = [] ->
  exists body t rest, tokens = body ++ t :: rest /\ body_of body /\
    (t.1 = js "}" \/ (exists k, kind_of t.1 = Some k) \/ ends_body t = true).
Proof.
  induction n as [|n IH]; intros i tokens ds m cur st Hn H Hst.
  { destruct tokens; [|simpl in Hn; lia]. injection H as <-. done. }
  destruct tokens as [|t tokens]; [injection H as <-; done|]. simpl in Hn. assert (length tokens <= n)%nat as Hn' by lia.
  destruct (kind_of t.1) as [k|] eqn:Ek; [exists [], t, tokens; repeat split; [constructor|eauto]|].
  destruct (ends_body t) eqn:Ee; [exists [], t, tokens; repeat split; [constructor|eauto]|].
  destruct (decide (t.1 = js "}")) as [Ec|Ec]; [exists [], t, tokens; repeat split; [constructor|eauto]|].
  rewrite module_step in H by done. destruct (track t.1 [js "{"]) as [stack'|e] eqn:Et; [|done]. cbn [mbind result_bind] in H.
  apply track_cases in Et as [[Ho ->]|[[Hd ->]|(o' & Hc & Hs')]].
  - destruct (nested_split _ _ _ _ _ [js "{"] _ _ _ (Nat.le_refl _) ltac:(done) H Hst) as (b1 & c1 & r1 & -> & Hb1 & Hc1).
    rewrite length_app in Hn. simpl in Hn. assert (length r1 <= n)%nat as Hr1 by lia.
    rewrite (balanced_run _ Hb1), nested_step, (track_close _ _ _ Hc1) in H by (simpl in *; lia). cbn [mbind result_bind] in H.
    destruct (IH _ _ _ _ _ _ Hr1 H Hst) as (b2 & t2 & r2 & -> & Hb2 & Ht2).
    exists (t :: b1 ++ c1 :: b2), t2, r2. split; [simpl; by rewrite <- app_assoc|]. split; [by apply body_group|done].
  - destruct (IH _ _ _ _ _ _ Hn' H Hst) as (b & t2 & r & -> & Hb & Ht2).
    exists (t :: b), t2, r. split; [done|]. split; [by constructor|done].
  - assert (o' = js "{") as -> by congruence. revert Hc. unfold opener_of.
    destruct (str_eqb t.1 (js "}")) eqn:E; [by apply str_eqb_eq in E|]. by repeat case_match.
Qed.

(** The three tokens that end a body at module level. *)
Lemma close_module i t rest ds m cur :
  t.1 = js "}" -> scan_loop i (t :: rest) (Scan ds [js "{"] m cur) = scan_loop (S i) rest (Scan ds [] m cur).
Proof.
  intros E. cbn [scan_loop]. unfold scan_outside, scan_token. cbn [s_stack s_decls s_modules s_current mbind result_bind].
  rewrite E. simpl. by destruct cur.
Qed.

Lemma statement_step i t rest ds m cur :
  ends_body t = true -> scan_loop i (t :: rest) (Scan ds [js "{"] m cur) = scan_loop (S i) rest (Scan ds [js "{"] m None).
Proof.
  unfold ends_body. intros [[H|H]%orb_true_iff|H]%orb_true_iff; apply str_eqb_eq in H;
    cbn [scan_loop]; unfold scan_outside, scan_token; cbn [s_stack s_decls s_modules s_current mbind result_bind];
    rewrite H; reflexivity.
Qed.

Lemma declaration_step i k kind n rest ds m cur :
  kind_of k.1 = Some kind -> is_identifier n.1 = true -> ~ In n.1 (List.map fst ds) ->
  scan_loop i (k :: n :: rest) (Scan ds [js "{"] m cur) =
  scan_loop (S (S i)) rest (Scan (ds ++ [(n.1, Declaration kind [])]) [js "{"] m (Some n.1)).
Proof.
  intros Hk Hn Hd. cbn [scan_loop]. unfold scan_outside. cbn [s_stack s_decls s_modules s_current mbind result_bind].
  change (at_module [js "{"]) with true. cbv iota. rewrite Hk, Hn. cbn [negb]. by apply declared_None in Hd as ->.
Qed.

Lemma declaration_checked i k kind rest ds m cur st :
  kind_of k.1 = Some kind -> scan_loop i (k :: rest) (Scan ds [js "{"] m cur) = Ok st ->
  exists n rest', rest = n :: rest' /\ is_identifier n.1 = true /\ ~ In n.1 (List.map fst ds).
Proof.
  intros Hk. cbn [scan_loop]. unfold scan_outside. cbn [s_stack s_decls s_modules s_current mbind result_bind].
  change (at_module [js "{"]) with true. cbv iota. rewrite Hk. destruct rest as [|n rest]; [done|].
  destruct (is_identifier n.1) eqn:Ei; [|done]. cbn [negb]. destruct (declared n.1 ds) eqn:Ed; [done|]. intros _.
  exists n, rest. split; [done|]. split; [done|]. by apply declared_None.
Qed.

Lemma push_tokens_names cur ts ds : List.map fst (push_tokens cur ts ds) = List.map fst ds.
Proof.
  destruct cur as [name|]; [|done]. simpl. revert ds. induction ts as [|t ts IH]; intros ds; simpl; [done|].
  by rewrite IH, push_token_names.
Qed.

(** ** Modules *)

(** The rest of an accepted module, from a body on. *)
Lemma items_sound n : forall i tokens ds m cur st,
  (length tokens <= n)%nat -> (2 <= i)%nat -> scan_loop i tokens (Scan ds [js "{"] m cur) = Ok st -> s_stack st = [] ->
  NoDup (List.map fst ds) ->
  exists body rest c new, tokens = body ++ rest ++ [c] /\ body_of body /\ c.1 = js "}" /\ items rest new /\
    s_decls st = push_tokens cur body ds ++ new /\ NoDup (List.map fst (s_decls st)) /\ s_modules st = m.
Proof.
  induction n as [|n IH]; intros i tokens ds m cur st Hn Hi H Hst Hnd.
  { destruct tokens; [|simpl in Hn; lia]. injection H as <-. done. }
  destruct (module_split _ _ _ _ _ _ _ (Nat.le_refl _) H Hst) as (body & t & rest & -> & Hb & Ht).
  rewrite length_app in Hn. simpl in Hn. rewrite (body_run _ Hb) in H.
  destruct Ht as [Hc|[[k Hk]|He]].
  - rewrite close_module in H by done. destruct rest as [|x rest].
    + injection H as <-. exists body, [], t, []. simpl. rewrite app_nil_r, push_tokens_names. repeat split; try done. constructor.
    + cbn [scan_loop] in H. unfold scan_outside in H. cbn [s_stack] in H. unfold throw_if in H.
      destruct (Nat.ltb_spec 2 (S (i + length body))); [done|lia].
  - destruct (declaration_checked _ _ _ _ _ _ _ _ Hk H) as (name & rest' & -> & Hid & Hfresh).
    rewrite (declaration_step _ _ k) in H by done. rewrite push_tokens_names in Hfresh. simpl in Hn.
    destruct (IH (S (S (i + length body))) rest' _ m (Some name.1) st ltac:(lia) ltac:(lia) H Hst) as (b & r & c & new & -> & Hb2 & Hc & Hit & Hd & Hnd2 & Hm).
    { rewrite List.map_app, push_tokens_names. simpl. apply list.NoDup_app. split; [done|]. split; [|apply list.NoDup_singleton].
      intros x Hx ->%list_elem_of_singleton. by apply Hfresh, list_elem_of_In. }
    exists body, (t :: name :: b ++ r), c, ((name.1, Declaration k b) :: new).
    split; [simpl; by rewrite <- app_assoc|]. split; [done|]. split; [done|]. split; [by constructor|]. split; [|done].
    rewrite Hd, push_tokens_last by (by rewrite push_tokens_names). by rewrite <- app_assoc.
  - rewrite statement_step in H by done.
    destruct (IH (S (i + length body)) rest _ m None st ltac:(lia) ltac:(lia) H Hst) as (b & r & c & new & -> & Hb2 & Hc & Hit & Hd & Hnd2 & Hm);
      [by rewrite push_tokens_names|].
    exists body, (t :: b ++ r), c, new. split; [simpl; by rewrite <- app_assoc|]. repeat split; try done. by constructor.
Qed.

Lemma items_complete rest new : items rest new -> forall i c ds m cur,
  c.1 = js "}" -> NoDup (List.map fst (ds ++ new)) ->
  exists cur', scan_loop i (rest ++ [c]) (Scan ds [js "{"] m cur) = Ok (Scan (ds ++ new) [] m cur').
Proof.
  induction 1 as [|k kind name body rest new Hk Hid Hb Hit IH|t body rest new He Hb Hit IH]; intros i c ds m cur Hc Hnd.
  - simpl app. rewrite close_module by done. rewrite app_nil_r. by exists cur.
  - assert (~ In name.1 (List.map fst ds)) as Hfresh.
    { rewrite List.map_app in Hnd. apply list.NoDup_app in Hnd as (_ & Hnd & _). intros Hin. apply list_elem_of_In in Hin.
      apply (Hnd _ Hin). simpl. constructor. }
    rewrite <- !app_comm_cons, (declaration_step _ _ kind) by done. rewrite <- app_assoc, (body_run _ Hb).
    rewrite push_tokens_last by done. simpl app.
    destruct (IH (S (S i) + length body)%nat c (ds ++ [(name.1, Declaration kind body)]) m (Some name.1) Hc) as [cur' E];
      [by rewrite <- app_assoc|]. exists cur'. simpl in E |- *. rewrite E. by rewrite <- app_assoc.
  - rewrite <- app_comm_cons, statement_step by done. rewrite <- app_assoc, (body_run _ Hb). simpl push_tokens. by apply IH.
Qed.

(** The header of a module, token by token. *)
Lemma outer_step i t rest ds m :
  (i <= 2)%nat -> t.1 <> js "module" ->
  scan_loop i (t :: rest) (Scan ds [] m None) = (stack' ← track t.1 []; scan_loop (S i) rest (Scan ds stack' m None)).
Proof.
  intros Hi Ht. cbn [scan_loop]. unfold scan_outside, throw_if. cbn [s_stack]. destruct (Nat.ltb_spec 2 i); [lia|].
  cbn [mbind result_bind]. assert (str_eqb t.1 (js "module") = false) as -> by (unfold str_eqb; by apply bool_decide_eq_false).
  cbn [mbind result_bind s_stack]. change (at_module []) with false. cbv iota. unfold scan_token.
  cbn [s_stack s_decls s_modules s_current]. change (at_module []) with false. cbn [andb]. by destruct (track t.1 []).
Qed.

Lemma keyword_step i t rest ds m :
  (i <= 2)%nat -> t.1 = js "module" ->
  scan_loop i (t :: rest) (Scan ds [] m None) =
  match rest with
  | n :: o :: _ =>
      if is_identifier n.1 && str_eqb o.1 (js "{") then scan_loop (S i) rest (Scan ds [] (S m) None)
      else Err (PlainError "Unsupported Quint module declaration")
  | _ => Err (PlainError "Unsupported Quint module declaration")
  end.
Proof.
  intros Hi Ht. cbn [scan_loop]. unfold scan_outside, throw_if. cbn [s_stack]. destruct (Nat.ltb_spec 2 i); [lia|].
  cbn [mbind result_bind]. rewrite Ht. change (str_eqb (js "module") (js "module")) with true. cbv iota.
  destruct rest as [|n [|o rest]]; [done..|]. destruct (_ && _); [|done]. cbn [mbind result_bind s_stack].
  change (at_module []) with false. cbv iota. unfold scan_token. cbn [s_stack s_decls s_modules s_current].
  change (at_module []) with false. cbn [andb]. rewrite Ht. reflexivity.
Qed.

Lemma identifier_no_delimiter (t : qtoken) : is_identifier t.1 = true -> no_delimiter t.
Proof.
  destruct t as [n s]. unfold no_delimiter. cbn [fst]. destruct n as [|x n]; [done|]. unfold is_identifier. intros [Hx _]%andb_true_iff.
  unfold is_opener, opener_of, str_eqb. by repeat (rewrite bool_decide_eq_false_2; [|by intros [= -> ->]]).
Qed.

Lemma scan_header m n o rest :
  m.1 = js "module" -> is_identifier n.1 = true -> n.1 <> js "module" -> o.1 = js "{" ->
  scan_loop 0 (m :: n :: o :: rest) (Scan [] [] 0 None) = scan_loop 3 rest (Scan [] [js "{"] 1 None).
Proof.
  intros Hm Hn Hnm Ho. rewrite keyword_step by (done || lia). rewrite Hn, Ho. change (str_eqb (js "{") (js "{")) with true. cbn [andb].
  rewrite outer_step, (track_plain _ _ (identifier_no_delimiter _ Hn)) by (done || lia). cbn [mbind result_bind].
  rewrite outer_step; [|lia|by rewrite Ho]. by rewrite Ho.
Qed.

Lemma header_checked t tokens st :
  t.1 = js "module" -> scan_loop 0 (t :: tokens) (Scan [] [] 0 None) = Ok st ->
  exists n o rest, tokens = n :: o :: rest /\ is_identifier n.1 = true /\ n.1 <> js "module" /\ o.1 = js "{".
Proof.
  intros Ht. rewrite keyword_step by (done || lia). destruct tokens as [|n [|o rest]]; [done..|].
  destruct (is_identifier n.1) eqn:Hn; [|done]. destruct (str_eqb o.1 (js "{")) eqn:Ho; [|done]. apply str_eqb_eq in Ho. cbn [andb].
  intros H. exists n, o, rest. repeat split; try done. intros E. rewrite keyword_step in H by (done || lia).
  destruct rest; [done|]. by rewrite Ho in H.
Qed.

(** ** Properties *)

(** C37. The declaration scanner accepts exactly the sources that lex and whose
    tokens are one module of the grammar, with every declared name declared
    once, and gives exactly the declarations of that module: every top-level
    declaration in order, with its kind, its name and its whole body, and
    nothing of imports and other statements. It reports any other source as an
    error. *)
Theorem scanner_reads_exactly_modules source ds :
  scanDeclarationBodies source = Ok ds <-> exists tokens, tokenize source = Ok tokens /\ quint_module tokens ds.
Proof.
  unfold scanDeclarationBodies. destruct (tokenize source) as [tokens|e]; cbn [mbind result_bind]; [|by split; [|intros (? & ? & _)]].
  transitivity (quint_module tokens ds); [|by split; [eauto|intros (? & [= <-] & ?)]].
  unfold scan_tokens. split.
  - destruct tokens as [|t tokens]; [done|]. destruct (str_eqb t.1 (js "module")) eqn:Et; [|done]. apply str_eqb_eq in Et.
    cbn [negb throw_if mbind result_bind]. destruct (scan_loop 0 (t :: tokens) _) as [st|e] eqn:E; [|done]. cbn [mbind result_bind].
    destruct (bool_decide (s_stack st = [])) eqn:Es; [|done]. apply bool_decide_eq_true in Es.
    destruct (s_modules st =? 1)%nat; [|done]. intros [= <-].
    destruct (header_checked _ _ _ Et E) as (n & o & rest & -> & Hn & Hnm & Ho). rewrite scan_header in E by done.
    destruct (items_sound _ 3 _ _ _ _ _ (Nat.le_refl _) ltac:(lia) E Es) as (body & its & c & new & -> & Hb & Hc & Hit & Hd & Hnd & _);
      [constructor|]. simpl in Hd. rewrite Hd in *. by constructor.
  - intros [m n o lead rest c ds' Hm Hn Hnm Ho Hc Hl Hit Hnd]. rewrite Hm.
    change (str_eqb (js "module") (js "module")) with true. cbn [negb throw_if mbind result_bind]. rewrite scan_header by done. rewrite (body_run _ Hl). simpl push_tokens.
    destruct (items_complete _ _ Hit (3 + length lead)%nat c [] 1%nat None Hc Hnd) as [cur' E]. by rewrite E.
Qed.
