(* ===== verification/QuintSchedule.v ===== *)
(** * What a Quint model schedules and depends on

    [formal/tools/execution.mjs]: which runs of a model are public-only
    ([classifyRuns]), the schedule a model's text states
    ([modelSchedule], [libraryPaths]), and the sources a model reaches through its imports
    ([importClosure]). Both traversals recurse with shared, growing sets; they
    are compared with reachability in the graph they walk. *)

From S2P Require Import Prelude JsValue Duration Utf8 Config Key Metrics Frame Compression Json JsonText Pattern Itf ReplayText QuintText.
From stdpp Require Import relations.
#[local] Open Scope Z_scope.

(** ** Bodies that patch state *)

Definition body_texts (d : declaration) : list jsstr := List.map fst (d_body d).

(** The tokens of an assignment to [variable] (its name, a prime, an equals
    sign) at the start of a body: the tokens behind them. *)
Definition assigned (variable : jsstr) (body : list jsstr) : option (list jsstr) :=
  match body with
  | v :: q :: e :: rest =>
      if str_eqb v variable && str_eqb q (js "'") && str_eqb e (js "=") then Some rest else None
  | _ => None
  end.

(** [body.some] over the suffixes of a body. *)
Fixpoint some_suffix (p : list jsstr -> bool) (body : list jsstr) : bool :=
  match body with
  | [] => false
  | _ :: rest => p body || some_suffix p rest
  end.

Definition assigns (body : list jsstr) (variable : jsstr) : bool :=
  some_suffix (fun b => match assigned variable b with
                        | Some (next :: _) => negb (str_eqb next (js "="))
                        | Some [] => true
                        | None => false
                        end) body.

Definition keeps_input (body : list jsstr) : bool :=
  some_suffix (fun b => match assigned (js "input") b with
                        | Some (next :: _) => str_eqb next (js "input")
                        | _ => false
                        end) body.

Definition patchesDirectly (kind : decl_kind) (body : list jsstr) : bool :=
  if keeps_input body || existsb (str_eqb (js "modelFixture")) body then true
  else assigns body (js "s") && (bool_decide (kind = KRun) || negb (assigns body (js "input"))).

(** ** Classifying runs *)

(** [['action', 'def', 'val', 'run'].includes(kind)] *)
Definition callable (kind : decl_kind) : bool := match kind with KAction | KDef | KVal | KRun => true | _ => false end.

(** A token of the body of [name] that names another callable declaration. *)
Definition is_call (ds : declarations) (name token : jsstr) : bool :=
  negb (str_eqb token name)
  && match declared token ds with Some d => callable (d_kind d) | None => false end.

(** The memo [patching] and the shared set [trail]. *)
Record call_walk := Walk { w_memo : list (jsstr * bool); w_trail : list jsstr }.

Fixpoint memo_get (name : jsstr) (memo : list (jsstr * bool)) : option bool :=
  match memo with
  | [] => None
  | (n, b) :: memo => if str_eqb n name then Some b else memo_get name memo
  end.

(** [body.some(token => ... && resolve(token, trail))] *)
Fixpoint some_call (resolve : jsstr -> call_walk -> option (bool * call_walk)) (ds : declarations) (name : jsstr)
    (body : list jsstr) (w : call_walk) : option (bool * call_walk) :=
  match body with
  | [] => Some (false, w)
  | token :: body =>
      if is_call ds name token then
        '(found, w) ← resolve token w;
        if found : bool then Some (true, w) else some_call resolve ds name body w
      else some_call resolve ds name body w
  end.

(** [None]: the recursion goes deeper than [fuel], or an unknown name. *)
Fixpoint resolve (fuel : nat) (ds : declarations) (name : jsstr) (w : call_walk) : option (bool * call_walk) :=
  match fuel with
  | O => None
  | S fuel =>
      match memo_get name (w_memo w) with
      | Some known => Some (known, w)
      | None =>
          if existsb (str_eqb name) (w_trail w) then Some (false, w)
          else
            d ← declared name ds;
            let w := Walk (w_memo w) (name :: w_trail w) in
            '(result, w) ← (if patchesDirectly (d_kind d) (body_texts d) then Some (true, w)
                            else some_call (resolve fuel ds) ds name (body_texts d) w);
            Some (result, Walk ((name, result) :: w_memo w) (w_trail w))
      end
  end.

Record runs := Runs { publicOnly : list jsstr; patching : list jsstr }.

(** The recursion enters a declaration at most once, so one level more than
    there are declarations is enough (see [classifyRuns_total]). *)
Fixpoint classify_from (ds : declarations) (todo : declarations) (memo : list (jsstr * bool)) (acc : runs) : option runs :=
  match todo with
  | [] => Some acc
  | (name, d) :: todo =>
      if bool_decide (d_kind d = KRun) then
        '(result, w) ← resolve (S (length ds)) ds name (Walk memo []);
        classify_from ds todo (w_memo w)
          (if result : bool then Runs (publicOnly acc) (patching acc ++ [name]) else Runs (publicOnly acc ++ [name]) (patching acc))
      else classify_from ds todo memo acc
  end.

Definition classifyRuns (ds : declarations) : option runs := classify_from ds ds [] (Runs [] []).

(** ** Schedules *)

Definition run_names (ds : declarations) : list jsstr :=
  List.map fst (List.filter (fun '(_, d) => bool_decide (d_kind d = KRun)) ds).

(** [regressions] and, for a profile model, [replayRegressions]. *)
Record schedule := Schedule { regressions : list jsstr; replayRegressions : option (list jsstr) }.

Definition modelSchedule (has_profile : bool) (bodies : declarations) : option schedule :=
  if has_profile then r ← classifyRuns bodies; Some (Schedule (run_names bodies) (Some (publicOnly r)))
  else Some (Schedule (run_names bodies) None).

Definition libraryPaths (models files : list jsstr) : list jsstr :=
  List.filter (fun path => negb (existsb (str_eqb path) models)) files.

(** ** Paths *)

(** [path.split('/')] *)
Fixpoint split_slash (s : jsstr) : list jsstr :=
  match s with
  | [] => [[]]
  | c :: r =>
      if c =? 47 then [] :: split_slash r
      else match split_slash r with seg :: segs => (c :: seg) :: segs | [] => [[c]] end
  end.

(** The segments kept so far, innermost first. *)
Definition push_segment (above_root : bool) (stack : list jsstr) (seg : jsstr) : list jsstr :=
  if str_eqb seg [] || str_eqb seg (js ".") then stack
  else if str_eqb seg (js "..") then
    match stack with
    | top :: rest => if str_eqb top (js "..") then (if above_root then seg :: stack else stack) else rest
    | [] => if above_root then [seg] else []
    end
  else seg :: stack.

(** [posix.normalize] *)
Definition posix_normalize (path : jsstr) : jsstr :=
  match path with
  | [] => js "."
  | _ =>
      let absolute := starts_with 47 path in
      let trailing := match list.last path with Some c => c =? 47 | None => false end in
      let body := Json.join (js "/") (rev (fold_left (push_segment (negb absolute)) (split_slash path) [])) in
      match body, absolute with
      | [], true => js "/"
      | [], false => if trailing then js "./" else js "."
      | _, _ => (if absolute then js "/" else []) ++ body ++ (if trailing then js "/" else [])
      end
  end.

(** [posix.dirname] of a relative path without a slash at its end. *)
Definition posix_dirname (path : jsstr) : jsstr :=
  match span (fun c => negb (c =? 47)) (rev path) with
  | (_, _ :: parent) => rev parent
  | (_, []) => js "."
  end.

Definition posix_join (a b : jsstr) : jsstr := posix_normalize (a ++ js "/" ++ b).

(** ** Imports *)

(** The import pattern at the start of a text ([from], blanks, a quoted path
    that begins with [./] or [../]): the path, and the text behind the
    match. *)
Definition match_import (s : jsstr) : option (jsstr * jsstr) :=
  r ← Json.strip_prefix (js "from") s;
  let '(blanks, r) := span is_js_space r in
  match blanks with
  | [] => None
  | _ =>
      r ← strip 34 r;
      let '(target, r) := span (fun c => negb (c =? 34)) r in
      r ← strip 34 r;
      name ← (match Json.strip_prefix (js "./") target with Some t => Some t | None => Json.strip_prefix (js "../") target end);
      match (name : jsstr) with [] => None | _ => Some (target, r) end
  end.

(** [text.matchAll]: matches do not overlap; [skip] code units of the last one
    are left. *)
Fixpoint import_targets (skip : nat) (s : jsstr) : list jsstr :=
  match s with
  | [] => []
  | _ :: r =>
      match skip with
      | S skip => import_targets skip r
      | O =>
          match match_import s with
          | Some (target, rest) => target :: import_targets (length r - length rest) r
          | None => import_targets 0 r
          end
      end
  end.

Definition import_path (source target : jsstr) : jsstr :=
  posix_normalize (posix_join (posix_dirname source) (target ++ js ".qnt")).

Definition imported (source text : jsstr) : list jsstr := List.map (import_path source) (import_targets 0 text).

(** The tree of sources: [readSource] is [undefined] outside it. *)
Definition tree : Type := list (jsstr * jsstr).

Fixpoint readSource (files : tree) (path : jsstr) : option jsstr :=
  match files with
  | [] => None
  | (p, text) :: files => if str_eqb p path then Some text else readSource files path
  end.

(** [for (const [, target] of ...) visit(...)] *)
Fixpoint visit_all (visit : jsstr -> list jsstr -> option (list jsstr)) (targets : list jsstr) (closure : list jsstr) : option (list jsstr) :=
  match targets with
  | [] => Some closure
  | target :: targets => closure ← visit target closure; visit_all visit targets closure
  end.

Fixpoint visit (fuel : nat) (files : tree) (source : jsstr) (closure : list jsstr) : option (list jsstr) :=
  match fuel with
  | O => None
  | S fuel =>
      if existsb (str_eqb source) closure then Some closure
      else
        match readSource files source with
        | None => Some closure
        | Some text => visit_all (visit fuel files) (imported source text) (closure ++ [source])
        end
  end.

(** Every level but the last adds a source to the closure (see
    [visit_total]). *)
Definition importClosure (files : tree) (path : jsstr) : option (list jsstr) := visit (S (length files)) files path [].

(** ** Lemmas: the classification *)

Lemma existsb_str name l : existsb (str_eqb name) l = true <-> In name l.
Proof.
  rewrite existsb_exists. split; [intros (x & Hx & E); apply str_eqb_eq in E; by subst|].
  intros H. exists name. split; [done|]. by apply str_eqb_eq.
Qed.

Lemma existsb_str_false name l : existsb (str_eqb name) l = false <-> ~ In name l.
Proof. rewrite <- existsb_str. destruct (existsb _ l); naive_solver. Qed.

Section Classify.
Context (ds : declarations).

(** The call graph of the declarations, and which of them reach a state
    patch. *)
Definition calls_to (n m : jsstr) : Prop :=
  exists d, declared n ds = Some d /\ In m (body_texts d) /\ is_call ds n m = true.

Definition patches_here (n : jsstr) : Prop :=
  exists d, declared n ds = Some d /\ patchesDirectly (d_kind d) (body_texts d) = true.

Definition patches (n : jsstr) : Prop := exists m, rtc calls_to n m /\ patches_here m.

Lemma patches_step n m : calls_to n m -> patches m -> patches n.
Proof. intros H (k & Hk & Hp). exists k. split; [by econstructor|done]. Qed.

Lemma patches_cases n : patches n -> patches_here n \/ exists m, calls_to n m /\ patches m.
Proof. intros (m & Hr & Hp). inversion Hr; subst; [by left|]. right. eexists. split; [done|]. by exists m. Qed.

Lemma calls_declared n m : calls_to n m -> exists d, declared m ds = Some d.
Proof. intros (d & _ & _ & H). unfold is_call in H. apply andb_true_iff in H as [_ H]. destruct (declared m ds); [eauto|done]. Qed.

(** What the shared sets hold while the walk is at a call of [n]: the memo is
    right (on an acyclic graph), and a name on the trail is either finished or
    one the walk came through. *)
Definition acyclic : Prop := forall n, ~ tc calls_to n n.

Definition memo_sound (memo : list (jsstr * bool)) : Prop := forall n b, memo_get n memo = Some b -> b = true -> patches n.
Definition memo_exact (memo : list (jsstr * bool)) : Prop := forall n, memo_get n memo = Some false -> ~ patches n.

Definition finished (w : call_walk) (n : jsstr) : Prop := exists b, memo_get n (w_memo w) = Some b.

(** The walk only adds: to the memo, and to the trail what it finishes. *)
Definition extends (w w' : call_walk) : Prop :=
  (forall n b, memo_get n (w_memo w) = Some b -> memo_get n (w_memo w') = Some b) /\
  (forall n, In n (w_trail w) -> In n (w_trail w')) /\
  (forall n, In n (w_trail w') -> In n (w_trail w) \/ finished w' n).

Lemma extends_refl w : extends w w.
Proof. repeat split; auto. Qed.

Lemma extends_trans a b c : extends a b -> extends b c -> extends a c.
Proof.
  intros (A1 & A2 & A3) (B1 & B2 & B3). repeat split; auto. intros n Hn. destruct (B3 n Hn) as [Hb|]; [|auto].
  destruct (A3 n Hb) as [|[x Hx]]; [auto|]. right. exists x. auto.
Qed.

(** The trail has distinct declared names: it bounds the depth. *)
Definition trail_ok (w : call_walk) : Prop := NoDup (w_trail w) /\ forall n, In n (w_trail w) -> exists d, declared n ds = Some d.

Lemma trail_bound w : trail_ok w -> (length (w_trail w) <= length ds)%nat.
Proof.
  intros [Hnd Hd]. rewrite <- (length_map fst ds). apply NoDup_incl_length; [by apply NoDup_ListNoDup|].
  intros n Hn. destruct (Hd n Hn) as [d Hdn]. apply declared_In in Hdn. by apply (in_map fst) in Hdn.
Qed.

(** The postcondition of a call and of the loop over a body. *)
Record walked (w w' : call_walk) : Prop := {
  wk_extends : extends w w';
  wk_trail : trail_ok w';
  wk_sound : memo_sound (w_memo w');
  wk_exact : acyclic -> memo_exact (w_memo w')
}.

Lemma walked_refl w :
  trail_ok w -> memo_sound (w_memo w) -> (acyclic -> memo_exact (w_memo w)) -> walked w w.
Proof. intros. by split; [apply extends_refl|..]. Qed.

Lemma walked_trans a b c : walked a b -> walked b c -> walked a c.
Proof. intros [A _ _ _] [B1 B2 B3 B4]. split; [by eapply extends_trans|done..]. Qed.

Lemma extends_trail w w' : trail_ok w -> extends w w' -> (length (w_trail w) <= length (w_trail w'))%nat.
Proof. intros [Hnd _] (_ & H & _). apply NoDup_incl_length; [by apply NoDup_ListNoDup|exact H]. Qed.

Lemma memo_get_cons n b k memo : memo_get k ((n, b) :: memo) = if str_eqb n k then Some b else memo_get k memo.
Proof. done. Qed.

(** Where the walk stands at a call of [n]. *)
Definition on_path (w : call_walk) (n : jsstr) : Prop := forall t, In t (w_trail w) -> finished w t \/ tc calls_to t n.

Lemma on_path_call w n w1 m :
  on_path w n -> extends (Walk (w_memo w) (n :: w_trail w)) w1 -> calls_to n m -> on_path w1 m.
Proof.
  intros Hp (H1 & _ & H3) Hc t Ht. destruct (H3 t Ht) as [[<-|Hin]|]; [by right; apply tc_once| |by left].
  destruct (Hp t Hin) as [[b Hb]|Htc]; [left; exists b; by apply H1|right; by eapply tc_r].
Qed.

(** A call decides whether its declaration reaches a patch. *)
Definition decided (n : jsstr) (b : bool) : Prop := (b = true -> patches n) /\ (acyclic -> b = false -> ~ patches n).

Definition resolves (r : jsstr -> call_walk -> option (bool * call_walk)) (depth : nat) : Prop :=
  forall n w, (depth <= length (w_trail w))%nat -> walked w w -> on_path w n -> (exists d, declared n ds = Some d) ->
  exists b w', r n w = Some (b, w') /\ walked w w' /\ decided n b.

Lemma some_call_ok r depth n w d body : forall w1,
  resolves r depth -> declared n ds = Some d -> (forall m, In m body -> In m (body_texts d)) ->
  on_path w n -> walked (Walk (w_memo w) (n :: w_trail w)) w1 -> (depth <= length (w_trail w1))%nat ->
  exists b w', some_call r ds n body w1 = Some (b, w') /\ walked w1 w' /\
    (b = true -> exists m, calls_to n m /\ patches m) /\
    (acyclic -> b = false -> forall m, In m body -> is_call ds n m = true -> ~ patches m).
Proof.
  induction body as [|m body IH]; intros w1 Hr Hd Hsub Hp Hw Hdepth.
  { exists false, w1. split; [done|]. split; [by apply walked_refl; apply Hw|]. done. }
  simpl. destruct (is_call ds n m) eqn:Em.
  2: { destruct (IH w1) as (b & w' & H1 & H2 & H3 & H4); [done|done|intros; apply Hsub; by right|done..|].
       exists b, w'. split; [done|]. split; [done|]. split; [done|]. intros Ha Hb k [<-|Hk] Hck; [congruence|by apply H4]. }
  assert (calls_to n m) as Hc by (exists d; split; [done|]; split; [apply Hsub; by left|done]).
  destruct (Hr m w1) as (b & w2 & -> & Hw2 & Hdec); [done|by apply walked_refl; apply Hw|by eapply on_path_call; [|apply Hw|]|by eapply calls_declared|].
  simpl. destruct b.
  { exists true, w2. split; [done|]. split; [done|]. split; [|done]. intros _. exists m. split; [done|]. by apply Hdec. }
  destruct (IH w2) as (b & w' & H1 & H2 & H3 & H4); [done|done|intros; apply Hsub; by right|done|by eapply walked_trans| |].
  { etransitivity; [exact Hdepth|]. eapply extends_trail; [apply Hw|apply Hw2]. }
  exists b, w'. split; [done|]. split; [by eapply walked_trans|]. split; [done|].
  intros Ha Hb k [<-|Hk] Hck; [by apply Hdec|by apply H4].
Qed.

(** Entering [n], and leaving it with a decision. *)
Lemma enter_walked w n d :
  walked w w -> declared n ds = Some d -> ~ In n (w_trail w) -> walked (Walk (w_memo w) (n :: w_trail w)) (Walk (w_memo w) (n :: w_trail w)).
Proof.
  intros [_ [Hnd Hdecl] Hs He] Hd Hn. apply walked_refl; [|done..]. split; simpl.
  - constructor; [|done]. by rewrite list_elem_of_In.
  - intros k [<-|Hk]; [eauto|by apply Hdecl].
Qed.

Lemma leave_walked w n w' b :
  walked w w -> memo_get n (w_memo w) = None -> walked (Walk (w_memo w) (n :: w_trail w)) w' -> decided n b ->
  walked w (Walk ((n, b) :: w_memo w') (w_trail w')).
Proof.
  intros Hw Hn [(H1 & H2 & H3) Ht Hs He] [Hb1 Hb2]. simpl in *. split; simpl; [|done|..].
  - repeat split; simpl.
    + intros k x Hk. rewrite ?memo_get_cons. destruct (str_eqb n k) eqn:E; [|by apply H1]. apply str_eqb_eq in E as ->. congruence.
    + intros k Hk. apply H2. by right.
    + intros k Hk. destruct (H3 k Hk) as [[<-|Hin]|[x Hx]]; [|by left|].
      * right. exists b. simpl. unfold str_eqb. by rewrite bool_decide_eq_true_2.
      * right. unfold finished. simpl. destruct (str_eqb n k); eauto.
  - intros k x. rewrite ?memo_get_cons. destruct (str_eqb n k) eqn:E; [|apply Hs]. apply str_eqb_eq in E as ->. intros [= ->]. exact Hb1.
  - intros Ha k. rewrite ?memo_get_cons. destruct (str_eqb n k) eqn:E; [|by apply He]. apply str_eqb_eq in E as ->. intros [= ->]. by apply Hb2.
Qed.

Lemma resolve_ok fuel : resolves (resolve fuel ds) (S (length ds) - fuel).
Proof.
  induction fuel as [|fuel IH]; intros n w Hdepth Hw Hp [d Hd].
  { pose proof (trail_bound w (wk_trail _ _ Hw)). lia. }
  cbn [resolve]. destruct (memo_get n (w_memo w)) as [known|] eqn:Em.
  { exists known, w. split; [done|]. split; [done|]. split; [intros; by eapply (wk_sound _ _ Hw)|].
    intros Ha ->. by apply (wk_exact _ _ Hw Ha). }
  destruct (existsb (str_eqb n) (w_trail w)) eqn:Et.
  { exists false, w. split; [done|]. split; [done|]. split; [done|]. intros Ha _. apply existsb_str in Et.
    destruct (Hp n Et) as [[b Hb]|Htc]; [congruence|by destruct (Ha n)]. }
  apply existsb_str_false in Et. rewrite Hd. simpl. pose proof (enter_walked w n d Hw Hd Et) as Hin.
  destruct (patchesDirectly (d_kind d) (body_texts d)) eqn:Epd; simpl.
  { eexists true, _. split; [done|].
    assert (decided n true) as Hdec by (split; [|done]; intros _; exists n; split; [done|by exists d]).
    split; [|done]. exact (leave_walked w n _ true Hw Em Hin Hdec). }
  destruct (some_call_ok (resolve fuel ds) (S (length ds) - fuel) n w d (body_texts d) (Walk (w_memo w) (n :: w_trail w)))
    as (b & w' & -> & Hw' & H3 & H4); [done|done|done|done|done|simpl; lia|]. simpl.
  assert (decided n b) as Hdec.
  { split; [intros Hb; destruct (H3 Hb) as (m & Hm & Hpm); by eapply patches_step|]. intros Ha Hb Hpat.
    destruct (patches_cases n Hpat) as [(d' & Hd' & He)|(m & (d' & Hd' & Hin' & Hc) & Hpm)]; [congruence|].
    assert (d' = d) as -> by congruence. by apply (H4 Ha Hb m). }
  eexists b, _. split; [done|]. split; [|done]. by apply leave_walked.
Qed.
End Classify.

Definition kept (b : bool) (decisions : list (jsstr * bool)) : list jsstr :=
  List.map fst (List.filter (fun x => Bool.eqb x.2 b) decisions).

Lemma classify_from_ok ds todo : forall memo acc,
  (forall x, In x todo -> In x ds) -> memo_sound ds memo -> (acyclic ds -> memo_exact ds memo) ->
  exists decisions, List.map fst decisions = run_names todo /\ Forall (fun x => decided ds x.1 x.2) decisions /\
    classify_from ds todo memo acc = Some (Runs (publicOnly acc ++ kept false decisions) (patching acc ++ kept true decisions)).
Proof.
  induction todo as [|[name d] todo IH]; intros memo acc Hsub Hs He.
  { exists []. simpl. unfold kept. simpl. rewrite !app_nil_r. by destruct acc. }
  cbn [classify_from]. unfold run_names. cbn [List.filter]. destruct (bool_decide (d_kind d = KRun)) eqn:Ek.
  2: { apply IH; [intros; apply Hsub; by right|done..]. }
  destruct (declared name ds) as [d'|] eqn:Ed.
  2: { exfalso. apply declared_None in Ed. apply Ed. apply (in_map fst ds (name, d)). apply Hsub. by left. }
  destruct (resolve_ok ds (S (length ds)) name (Walk memo [])) as (b & w & -> & Hw & Hdec);
    [simpl; lia|apply walked_refl; [split; [exact NoDup_nil_2|by intros ? []]|done..]|by intros ? []|eauto|].
  cbn [mbind option_bind].
  destruct (IH (w_memo w) (if b then Runs (publicOnly acc) (patching acc ++ [name]) else Runs (publicOnly acc ++ [name]) (patching acc)))
    as (decisions & H1 & H2 & H3); [intros; apply Hsub; by right|apply Hw|apply Hw|].
  exists ((name, b) :: decisions). split; [simpl; by rewrite H1|]. split; [by constructor|].
  rewrite H3. unfold kept. destruct b; simpl; by rewrite <- app_assoc.
Qed.

(** The classification always ends, and gives each run of the text, in its
    order, its decision. *)
Lemma classifyRuns_total ds :
  exists decisions, List.map fst decisions = run_names ds /\ Forall (fun x => decided ds x.1 x.2) decisions /\
    classifyRuns ds = Some (Runs (kept false decisions) (kept true decisions)).
Proof. apply (classify_from_ok ds ds [] (Runs [] [])); done. Qed.

Lemma kept_In b decisions n : In n (kept b decisions) <-> In (n, b) decisions.
Proof.
  unfold kept. rewrite in_map_iff. split.
  - intros ([m c] & <- & [Hin Hc]%filter_In). simpl in Hc. apply eqb_prop in Hc as ->. done.
  - intros H. exists (n, b). split; [done|]. apply filter_In. split; [done|]. apply eqb_reflx.
Qed.

(** ** Lemmas: the import closure *)

Section Imports.
Context (files : tree).

Definition imports (p q : jsstr) : Prop := exists text, readSource files p = Some text /\ In q (imported p text).
Definition exists_source (p : jsstr) : Prop := exists text, readSource files p = Some text.

(** [p] reaches [q] through sources of the tree. *)
Definition reaches (p q : jsstr) : Prop := rtc (fun a b => imports a b /\ exists_source b) p q.

Lemma readSource_In p text : readSource files p = Some text -> In p (List.map fst files).
Proof.
  induction files as [|[n t] fs IH]; simpl; [done|]. destruct (str_eqb n p) eqn:E; [|auto]. apply str_eqb_eq in E as ->. auto.
Qed.

(** What a visit does to the closure. *)
Record visited (source : jsstr) (closure closure' : list jsstr) : Prop := {
  vi_keeps : exists more, closure' = closure ++ more;
  vi_nodup : NoDup closure';
  vi_exist : forall p, In p closure' -> exists_source p;
  vi_new : forall p, In p closure' -> In p closure \/ exists_source source /\ reaches source p;
  vi_closed : forall p q, In p closure' -> ~ In p closure -> imports p q -> exists_source q -> In q closure';
  vi_self : exists_source source -> In source closure'
}.

Definition closure_ok (closure : list jsstr) : Prop := NoDup closure /\ forall p, In p closure -> exists_source p.

Lemma closure_bound closure : closure_ok closure -> (length closure <= length files)%nat.
Proof.
  intros [Hnd He]. rewrite <- (length_map fst files). apply NoDup_incl_length; [by apply NoDup_ListNoDup|].
  intros p Hp. destruct (He p Hp) as [text Ht]. by eapply readSource_In.
Qed.

Definition visits (v : jsstr -> list jsstr -> option (list jsstr)) (depth : nat) : Prop :=
  forall source closure, (depth <= length closure)%nat -> closure_ok closure ->
  exists closure', v source closure = Some closure' /\ visited source closure closure'.

(** The loop over the imports of [source], which is in the closure already. *)
Lemma visit_all_ok v depth source targets : forall closure,
  visits v depth -> (forall q, In q targets -> imports source q) -> (depth <= length closure)%nat -> closure_ok closure -> exists_source source ->
  exists closure', visit_all v targets closure = Some closure' /\
    (exists more, closure' = closure ++ more) /\ closure_ok closure' /\
    (forall p, In p closure' -> In p closure \/ reaches source p) /\
    (forall p q, In p closure' -> ~ In p closure -> imports p q -> exists_source q -> In q closure') /\
    (forall q, In q targets -> exists_source q -> In q closure').
Proof.
  induction targets as [|target targets IH]; intros closure Hv Him Hd Hok Hsrc.
  { exists closure. split; [done|]. split; [exists []; by rewrite app_nil_r|]. split; [done|]. repeat split; auto; done. }
  simpl. destruct (Hv target closure Hd Hok) as (c1 & -> & [[m1 E1] Hnd1 He1 Hn1 Hcl1 Hs1]). simpl.
  assert (length closure <= length c1)%nat as Hlen by (rewrite E1, length_app; lia).
  destruct (IH c1) as (c2 & -> & [m2 E2] & Hok2 & Hn2 & Hcl2 & Ht2); [done|intros; apply Him; by right|lia|by split|done|].
  assert (forall q, In q c1 -> In q c2) as Hmono by (intros q Hq; rewrite E2; apply in_app_iff; by left).
  exists c2. split; [done|]. split; [exists (m1 ++ m2); by rewrite E2, E1, app_assoc|]. split; [done|]. split; [|split].
  - intros p Hp. destruct (Hn2 p Hp) as [Hp1|]; [|auto]. destruct (Hn1 p Hp1) as [|[Hex Hr]]; [auto|]. right.
    apply (rtc_l _ source target p); [|exact Hr]. split; [apply Him; by left|done].
  - intros p q Hp Hnp Hpq Hq. destruct (in_dec (List.list_eq_dec Z.eq_dec) p c1); [by apply Hmono, (Hcl1 p q)|by apply (Hcl2 p q)].
  - intros q [<-|Hq] Heq; [by apply Hmono, Hs1|by apply Ht2].
Qed.

Lemma visit_total fuel : visits (visit fuel files) (S (length files) - fuel).
Proof.
  induction fuel as [|fuel IH]; intros source closure Hd Hok; [pose proof (closure_bound closure Hok); lia|].
  cbn [visit]. destruct (existsb (str_eqb source) closure) eqn:Ein.
  { apply existsb_str in Ein. exists closure. split; [done|].
    split; [exists []; by rewrite app_nil_r|apply Hok|apply Hok|auto|naive_solver|auto]. }
  apply existsb_str_false in Ein. destruct (readSource files source) as [text|] eqn:Er.
  2: { exists closure. split; [done|]. split; [exists []; by rewrite app_nil_r|apply Hok|apply Hok|auto|naive_solver|].
       intros [t Ht]. congruence. }
  assert (exists_source source) as Hex by (by exists text).
  assert (closure_ok (closure ++ [source])) as Hok1.
  { destruct Hok as [Hnd He]. split.
    - apply list.NoDup_app. split; [done|]. split; [|apply list.NoDup_singleton].
      intros x Hx ->%list_elem_of_singleton. by apply Ein, list_elem_of_In.
    - intros p [Hp|[<-|[]]]%in_app_iff; [by apply He|done]. }
  destruct (visit_all_ok (visit fuel files) (S (length files) - fuel) source (imported source text) (closure ++ [source]))
    as (c & -> & [more Em] & [Hnd He] & Hn & Hcl & Ht); [done|intros q Hq; by exists text|rewrite length_app; simpl; lia|done|done|].
  exists c. split; [done|]. split.
  - exists (source :: more). by rewrite Em, <- app_assoc.
  - done.
  - done.
  - intros p Hp. destruct (Hn p Hp) as [[Hc|[<-|[]]]%in_app_iff|Hr]; [by left| |by right]. right. split; [done|]. apply rtc_refl.
  - intros p q Hp Hnp Hpq Hq. destruct (decide (p = source)) as [->|Hps].
    + destruct Hpq as (text' & Ht' & Hin). assert (text' = text) as -> by congruence. by apply Ht.
    + apply (Hcl p q); [done| |done|done]. rewrite in_app_iff. simpl. naive_solver.
  - intros _. rewrite Em, !in_app_iff. left. right. by left.
Qed.
End Imports.

(** ** Properties *)

(** C38. What the ports replay never patches model state: for whatever
    declarations a source has, the schedule lists all its runs in order, a run left out
    of the exported ones really reaches a declaration that patches the state,
    and, as long as no declaration calls itself, no exported run reaches
    one. *)
Theorem exported_runs_are_public ds :
  exists replay, modelSchedule true ds = Some (Schedule (run_names ds) (Some replay)) /\ sublist replay (run_names ds) /\
    forall n, In n (run_names ds) ->
      (In n replay \/ patches ds n) /\ (acyclic ds -> In n replay <-> ~ patches ds n).
Proof.
  destruct (classifyRuns_total ds) as (decisions & Hn & Hd & Hc).
  exists (kept false decisions). unfold modelSchedule. rewrite Hc. simpl. split; [done|]. split.
  - rewrite <- Hn. unfold kept. clear. induction decisions as [|[n b] l IH]; simpl; [constructor|]. destruct b; simpl; by constructor.
  - intros n Hin. rewrite kept_In. rewrite <- Hn in Hin. apply in_map_iff in Hin as ([m b] & <- & Hin). simpl.
    rewrite List.Forall_forall in Hd. pose proof (Hd _ Hin) as [H1 H2]. simpl in H1, H2. split.
    + destruct b; [right; by apply H1|by left].
    + intros Ha. split; [intros Hf; by apply (Hd _ Hf)|]. intros Hnp. destruct b; [by destruct Hnp; apply H1|done].
Qed.

(** The import closure of a source that exists is exactly the sources it
    reaches through imports that exist, each once, itself first; the walk ends
    on every tree, also one with cyclic imports. *)
Theorem importClosure_exact files path :
  exists_source files path ->
  exists closure, importClosure files path = Some closure /\ NoDup closure /\ head closure = Some path /\
    forall p, In p closure <-> reaches files path p.
Proof.
  intros Hex. unfold importClosure. destruct Hex as [text Ht].
  destruct (visit_total files (S (length files)) path []) as (c & Hv & [_ Hnd He Hn Hcl Hs]);
    [lia|split; [exact NoDup_nil_2|by intros ? []]|].
  exists c. split; [done|]. split; [done|]. split.
  - revert Hv. cbn [visit existsb]. rewrite Ht. simpl app.
    destruct (visit_all_ok files (visit (length files) files) (S (length files) - length files) path (imported path text) [path])
      as (c' & -> & [more ->] & _); [apply visit_total|intros q Hq; by exists text|simpl; lia| |by exists text|by intros [= <-]].
    split; [apply list.NoDup_singleton|]. intros p [<-|[]]. by exists text.
  - intros p. split; [intros Hp; destruct (Hn p Hp) as [[]|[_ Hr]]; exact Hr|].
    intros Hr. assert (In path c) as Hin by (apply Hs; by exists text). clear Hv Hn Hs Ht.
    induction Hr as [|a b p [Hi Hb] Hr IH]; [done|]. apply IH. apply (Hcl a b); [done|by intros []|done|done].
Qed.

(** A model of two sources that import each other and one that is missing, and
    a module with two actions, of which one writes the state without recording
    a command. *)
Definition sample_tree : tree :=
  [(js "formal/models/a.qnt", js "module a { import k.* from " ++ [34] ++ js "./kernel/k" ++ [34] ++ js " }");
   (js "formal/models/kernel/k.qnt", js "import a.* from " ++ [34] ++ js "../a" ++ [34] ++ js " import x.* from " ++ [34] ++ js "./gone" ++ [34]);
   (js "formal/models/other.qnt", [])].

Lemma importClosure_exact_witness :
  exists closure, importClosure sample_tree (js "formal/models/a.qnt") = Some closure /\
    closure = [js "formal/models/a.qnt"; js "formal/models/kernel/k.qnt"] /\
    (forall p, In p closure <-> reaches sample_tree (js "formal/models/a.qnt") p).
Proof.
  destruct (importClosure_exact sample_tree (js "formal/models/a.qnt")) as (closure & H1 & _ & _ & H2); [by eexists|].
  exists closure. split; [exact H1|]. split; [|exact H2].
  assert (importClosure sample_tree (js "formal/models/a.qnt") = Some [js "formal/models/a.qnt"; js "formal/models/kernel/k.qnt"]) as E
    by (vm_compute; reflexivity).
  rewrite E in H1. injection H1 as <-. reflexivity.
Defined.

Definition sample_profile : jsstr :=
  js "module m { var s: int  var input: str  action init = all { s' = 0, input' = 1 }  action patch = all { s' = s + 1 }  "
  ++ js "action step = all { s' = s + 1, input' = 2 }  run openTest = init.then(step)  run fixtureTest = init.then(patch) }".

Lemma sample_schedule :
  (ds ← scanDeclarationBodies sample_profile; Ok (modelSchedule true ds)) =
  Ok (Some (Schedule [js "openTest"; js "fixtureTest"] (Some [js "openTest"]))).
Proof. vm_compute. reflexivity. Qed.

(** The condition on cycles is needed: the classifier takes a name it is still
    deciding for harmless, so of two declarations that call each other it may
    record the wrong answer. Quint refuses such definitions. *)
Definition cyclic_profile : jsstr :=
  js "module m { var s: int  action a = all { b, p }  action b = all { a }  action p = all { s' = 1 }  run aTest = a  run bTest = b }".

Lemma cyclic_calls_mislead :
  exists ds, scanDeclarationBodies cyclic_profile = Ok ds /\ patches ds (js "bTest") /\
    exists replay, modelSchedule true ds = Some (Schedule [js "aTest"; js "bTest"] (Some replay)) /\ In (js "bTest") replay.
Proof.
  eexists. split; [vm_compute; reflexivity|]. split.
  - exists (js "p"). assert (forall ds n m d, declared n ds = Some d -> existsb (str_eqb m) (body_texts d) = true -> is_call ds n m = true -> calls_to ds n m) as Hc.
    { intros ds n m d H1 H2 H3. exists d. split; [done|]. split; [by apply existsb_str|done]. }
    split; [|eexists; split; [vm_compute; reflexivity|vm_compute; reflexivity]].
    apply (rtc_l _ _ (js "b")); [eapply Hc; vm_compute; reflexivity|].
    apply (rtc_l _ _ (js "a")); [eapply Hc; vm_compute; reflexivity|].
    apply rtc_once. eapply Hc; vm_compute; reflexivity.
  - eexists. split; [vm_compute; reflexivity|]. vm_compute. auto.
Qed.
