(* ===== verification/QuintCheckpoint.v ===== *)
(** * The checkpoint of a reproducer

    [formal/tools/execution.mjs]: [reproducerCheckpoint] finds the expectation
    a reproducer declares in the text of its run and cuts the run before it
    and through it. The cuts are slices of the source; what is shown is that
    they read back as exactly the tokens of the run up to there. *)

From S2P Require Import Prelude JsValue Duration Utf8 Config Key Metrics Frame Compression Json JsonText Pattern Itf ReplayText QuintText.

Definition is_open (t : jsstr) : bool := is_opener t.
Definition is_shut (t : jsstr) : bool := match opener_of t with Some _ => true | None => false end.

(** [body[i]] *)
Definition text_at (body : list qtoken) (i : nat) : option jsstr := fst <$> body !! i.

Definition at_is (body : list qtoken) (i : nat) (t : string) : bool :=
  match text_at body i with Some x => str_eqb x (js t) | None => false end.

(** The inner loop: the tokens of the condition that starts at [j], and the
    index behind its closing parenthesis. *)
Fixpoint collect (fuel : nat) (body : list qtoken) (nested : Z) (j : nat) (condition : list jsstr) : res (list jsstr * nat) :=
  match fuel, text_at body j with
  | S fuel, Some t =>
      let nested := if is_open t then nested + 1 else if is_shut t then nested - 1 else nested in
      if 0 <? nested then collect fuel body nested (S j) (condition ++ [t]) else Ok (condition, S j)
  | _, _ => Err (PlainError "unbalanced expect")
  end.

(** The outer loop from index [i]: where the expectation opens, and the index
    behind it. *)
Fixpoint find_expect (fuel : nat) (body : list qtoken) (wanted : list jsstr) (depth : Z) (i : nat) : res (nat * nat) :=
  match fuel, text_at body i with
  | S fuel, Some t =>
      if (depth =? 0) && str_eqb t (js "(") && at_is body (i - 1) "expect" && (2 <=? i)%nat && at_is body (i - 2) "." then
        '(condition, j) ← collect (length body) body 1 (S i) [];
        if bool_decide (condition = wanted) then Ok (i, j) else find_expect fuel body wanted depth j
      else
        let depth := if is_open t then depth + 1 else if is_shut t then depth - 1 else depth in
        find_expect fuel body wanted depth (S i)
  | _, _ => Err (PlainError "no top-level expect whose condition is the declared failure")
  end.

(** [text.trimEnd()] *)
Definition trimEnd (s : jsstr) : jsstr := rev (space (rev s)).

Definition slice (source : jsstr) (start stop : nat) : jsstr := take (stop - start) (drop start source).

Definition span_start (body : list qtoken) (i : nat) : nat := match body !! i with Some (_, (a, _)) => a | None => O end.
Definition span_end (body : list qtoken) (i : nat) : nat := match body !! i with Some (_, (_, b)) => b | None => O end.

(** [before] and [through]. *)
Definition reproducerCheckpoint (source run failure : jsstr) (ds : declarations) : res (jsstr * jsstr) :=
  match declared run ds with
  | Some d =>
      if negb (bool_decide (d_kind d = KRun)) then Err (PlainError "not a run declaration")
      else
        wanted ← tokenize failure;
        let body := d_body d in
        _ ← throw_if (bool_decide (wanted = []) || negb (at_is body 0 "=") || (length body <? 2)%nat)
              (PlainError "reproducer failure must be an expect condition");
        '(i, j) ← find_expect (length body) body (List.map fst wanted) 0 1;
        let start := span_start body 1 in
        Ok (trimEnd (slice source start (span_start body (i - 2))), slice source start (span_end body (j - 1)))
  | None => Err (PlainError "not a run declaration")
  end.

(** ** Slices of a source between its tokens *)

Definition texts (tokens : list qtoken) : list jsstr := List.map fst tokens.

Lemma texts_app a b : texts (a ++ b) = texts a ++ texts b.
Proof. apply List.map_app. Qed.

Lemma texts_cons t b : texts (t :: b) = t.1 :: texts b.
Proof. reflexivity. Qed.

(** Positions are relative. *)
Lemma lexes_shift i s tokens j r i' :
  lexes i s tokens j r -> exists tokens', texts tokens' = texts tokens /\ lexes i' s tokens' (i' + (j - i)) r.
Proof.
  intros H. revert i'. induction H as [i s|i s found rest tokens j r Hs E H IH]; intros i'.
  - exists []. split; [done|]. rewrite Nat.sub_diag, Nat.add_0_r. constructor.
  - pose proof (lex_one_shorter s _ _ Hs E) as Hl. destruct (lexes_suffix _ _ _ _ _ H) as (u & Hu & Hj).
    destruct (IH (i' + (length s - length rest))%nat) as (tokens' & Ht & H').
    exists (match found with Some t => (t, (i', (i' + (length s - length rest))%nat)) :: tokens' | None => tokens' end).
    split; [destruct found; simpl; by rewrite Ht|]. apply lexes_turn; [done|done|].
    replace (i' + (j - i))%nat with (i' + (length s - length rest) + (j - (i + (length s - length rest))))%nat by lia. done.
Qed.

(** Skipping what precedes the first token. *)
Lemma lexes_from_token i s t a b tokens j r :
  lexes i s ((t, (a, b)) :: tokens) j r ->
  exists u s', s = u ++ s' /\ (a = i + length u)%nat /\ lexes i s [] a s' /\ lexes a s' ((t, (a, b)) :: tokens) j r.
Proof.
  remember ((t, (a, b)) :: tokens) as all eqn:Ea. induction 1 as [|i s found rest toks j r Hs E H IH]; [done|].
  destruct (lex_one_split s _ _ Hs E) as (piece & -> & Hp & _). destruct found as [x|].
  - injection Ea as -> -> <- ->. exists [], (piece ++ rest). split; [done|]. split; [simpl; lia|]. split; [constructor|].
    by apply (lexes_turn a (piece ++ rest) (Some t) rest tokens).
  - destruct (IH Ea) as (u & s' & -> & -> & H1 & H2). exists (piece ++ u), s'. split; [by rewrite app_assoc|].
    assert (i + (length (piece ++ u ++ s') - length (u ++ s')) + length u = i + length (piece ++ u))%nat as El by (rewrite !length_app; lia).
    rewrite El in *. split; [done|]. split; [|done]. by apply (lexes_turn i _ None (u ++ s') []).
Qed.

(** Stopping behind a token. *)
Lemma lexes_to_token i s t a b j r :
  lexes i s [(t, (a, b))] j r -> exists r', lexes i s [(t, (a, b))] b r' /\ lexes b r' [] j r.
Proof.
  remember [(t, (a, b))] as all eqn:Ea. induction 1 as [|i s found rest toks j r Hs E H IH]; [done|].
  destruct found as [x|].
  - injection Ea as -> -> <- ->. exists rest. split; [|done]. apply (lexes_turn a s (Some t) rest []); [done|done|constructor].
  - destruct (IH Ea) as (r' & H1 & H2). exists r'. split; [|done]. by apply (lexes_turn i s None rest toks).
Qed.

(** The loop stands at the start of each token, and behind it. *)
Lemma lexes_at source tokens pre t a b post :
  tokenize source = Ok tokens -> tokens = pre ++ (t, (a, b)) :: post ->
  exists w s, source = w ++ s /\ length w = a /\ lexes a s ((t, (a, b)) :: post) (length source) [].
Proof.
  intros H%tokenize_lexes ->. apply lexes_split in H as (j & r & H1 & H2).
  destruct (lexes_suffix _ _ _ _ _ H1) as (w & Hw & Hj). apply lexes_from_token in H2 as (u & s & -> & -> & _ & H2).
  exists (w ++ u), s. rewrite <- app_assoc. split; [done|]. split; [rewrite length_app; lia|done].
Qed.

Lemma slice_prefix w u x : slice (w ++ u ++ x) (length w) (length w + length u) = u.
Proof.
  unfold slice. rewrite drop_app_length. replace (length w + length u - length w)%nat with (length u) by lia.
  by rewrite take_app_length.
Qed.

Lemma retokenize a u tokens : lexes a u tokens (a + length u) [] -> exists tokens', tokenize u = Ok tokens' /\ texts tokens' = texts tokens.
Proof.
  intros H. destruct (lexes_shift _ _ _ _ _ 0 H) as (tokens' & Ht & H'). exists tokens'. split; [|done].
  apply tokenize_lexes. replace (length u) with (0 + (a + length u - a))%nat by lia. done.
Qed.

(** The source from the start of one token to the end of a later one reads as
    the tokens between. *)
Lemma slice_through source tokens pre mid t1 a1 b1 t2 a2 b2 post seg :
  tokenize source = Ok tokens -> tokens = pre ++ seg ++ post -> head seg = Some (t1, (a1, b1)) -> seg = mid ++ [(t2, (a2, b2))] ->
  exists tokens', tokenize (slice source a1 b2) = Ok tokens' /\ texts tokens' = texts seg.
Proof.
  intros Htok Et Hh Hl. destruct seg as [|x seg]; [done|]. injection Hh as ->.
  destruct (lexes_at _ _ _ _ _ _ (seg ++ post) Htok Et) as (w & s & -> & <- & H).
  rewrite app_comm_cons, Hl, <- app_assoc in H. apply lexes_split in H as (j & r & H1 & H2). apply (lexes_split j r [_] post) in H2 as (k & q & H2 & _).
  apply lexes_to_token in H2 as (r' & H2 & _). pose proof (lexes_app _ _ _ _ _ _ _ _ H1 H2) as H.
  destruct (lexes_suffix _ _ _ _ _ H) as (u & -> & ->). rewrite slice_prefix, Hl. apply (retokenize (length w)). by apply (lexes_prefix _ u r').
Qed.

(** Up to the start of a later token the slice also has the blanks and
    comments before it. *)
Lemma slice_before source tokens pre seg t1 a1 b1 t2 a2 b2 post :
  tokenize source = Ok tokens -> tokens = pre ++ seg ++ (t2, (a2, b2)) :: post ->
  head (seg ++ [(t2, (a2, b2))]) = Some (t1, (a1, b1)) ->
  exists tokens', tokenize (slice source a1 a2) = Ok tokens' /\ texts tokens' = texts seg.
Proof.
  intros Htok Et Hh.
  assert (exists rest, seg ++ (t2, (a2, b2)) :: post = (t1, (a1, b1)) :: rest) as [rest Er].
  { destruct seg as [|y seg]; simpl in Hh |- *; [injection Hh as -> -> ->; eauto|injection Hh as ->; eauto]. }
  rewrite Er in Et. destruct (lexes_at _ _ _ _ _ _ rest Htok Et) as (w & s & -> & <- & H). rewrite <- Er in H.
  apply lexes_split in H as (j & r & H1 & H2). apply lexes_from_token in H2 as (v & s' & -> & Ej & H2 & _).
  pose proof (lexes_app _ _ _ _ _ _ _ _ H1 H2) as H. rewrite app_nil_r in H.
  destruct (lexes_suffix _ _ _ _ _ H) as (u & -> & ->). rewrite slice_prefix. apply (retokenize (length w)). by apply (lexes_prefix _ u s').
Qed.

(** ** Blanks at the end do not matter *)

Definition blank (s : jsstr) : Prop := Forall (fun c => is_js_space c = true) s.

Lemma blank_reads i s tokens j : blank s -> lexes i s tokens j [] -> tokens = [].
Proof.
  intros Hb H. remember [] as e eqn:Ee. induction H as [|i s found rest toks j r Hs El H IH]; [done|].
  destruct s as [|c s]; [done|]. inversion Hb as [|? ? Hc Hb']; subst. simpl in El. rewrite Hc in El. injection El as <- <-. by apply IH.
Qed.

Lemma trimEnd_split s : exists w, s = trimEnd s ++ w /\ blank w.
Proof.
  unfold trimEnd. assert (forall t, exists w, t = w ++ space t /\ blank w) as H.
  { induction t as [|c t (w & E & Hw)]; [by exists []; split; [|constructor]|]. simpl. destruct (is_js_space c) eqn:Ec.
    - exists (c :: w). simpl. rewrite <- E. split; [done|by constructor].
    - exists []. split; [done|constructor]. }
  destruct (H (rev s)) as (w & E & Hw). exists (rev w). split; [rewrite <- rev_app_distr, <- E; by rewrite rev_involutive|].
  unfold blank in *. rewrite List.Forall_forall in *. intros c Hc%in_rev. auto.
Qed.

Lemma ident_not_blank c : is_ident c = true -> is_js_space c = false.
Proof. unfold is_ident, is_ident_start, is_digit, is_js_space. lia. Qed.

(** A line comment cut short is one still. *)
Lemma open_comment v m body :
  v <> [] -> m <> [] -> blank m -> v ++ m = 47 :: 47 :: body -> (forall v', v = 47 :: 47 :: v' -> ~ In 10 v') -> lex_one v = Ok (None, []).
Proof.
  intros Hv Hm Hb E Hn. destruct v as [|c [|d v]]; [done|..].
  - injection E as -> E. destruct m; [done|]. injection E as -> _. inversion Hb as [|? ? Hc]; subst. vm_compute in Hc. discriminate Hc.
  - injection E as -> -> _. simpl. assert (after_newline v = []) as ->; [|done].
    rewrite <- (app_nil_r v), after_newline_notin; [done|]. by apply Hn.
Qed.

(** A turn on a text with blanks at its end: it stays inside the text, or it
    is a line comment that goes on into the blanks. *)
Lemma lex_one_trim v w k r :
  v <> [] -> blank w -> lex_one (v ++ w) = Ok (k, r) ->
  (exists r', r = r' ++ w /\ lex_one v = Ok (k, r')) \/ (k = None /\ blank r /\ lex_one v = Ok (None, [])).
Proof.
  intros Hv Hw H. destruct (lex_one_split (v ++ w) _ _ ltac:(by destruct v) H) as (piece & E & Hp & Hk).
  destruct (Nat.le_gt_cases (length piece) (length v)) as [Hle|Hgt].
  - left. assert (exists r', v = piece ++ r' /\ r = r' ++ w) as (r' & -> & ->).
    { apply app_eq_app in E as (m & [[-> ->]|[-> ->]]); [by exists m|]. rewrite length_app in Hle.
      destruct m as [|c m]; [|simpl in Hle; lia]. exists []. by rewrite !app_nil_r. }
    exists r'. split; [done|]. apply (lex_one_prefix _ w); [done|]. done.
  - assert (exists m, piece = v ++ m /\ w = m ++ r /\ m <> []) as (m & -> & -> & Hm).
    { apply app_eq_app in E as (m & [[-> ->]|[-> ->]]); [rewrite length_app in Hgt; lia|]. exists m. split; [done|]. split; [done|].
      intros ->. rewrite app_nil_r in Hgt. lia. }
    apply Forall_app in Hw as [Hbm Hbr].
    assert (exists c, list.last (v ++ m) = Some c /\ is_js_space c = true) as (c & Hlast & Hc).
    { rewrite last_app. destruct (list.last m) as [c|] eqn:El; [|by apply last_None in El]. exists c. split; [done|].
      apply last_Some in El as [m' ->]. apply Forall_app in Hbm as [_ Hbm]. by inversion Hbm. }
    right. destruct k as [t|].
    { exfalso. destruct Hk as [-> Hlex]. destruct Hlex as [x Hx|body Hx|x Hx1 Hx2 Hx3].
      - apply last_Some in Hlast as [x' ->]. assert (is_ident c = true) as Hi; [|apply ident_not_blank in Hi; congruence].
        unfold is_identifier in Hx. destruct x' as [|d x']; simpl in Hx; [unfold is_ident; by rewrite andb_true_r in Hx; rewrite Hx|].
        apply andb_true_iff in Hx as [_ Hx]. rewrite forallb_forall in Hx. apply Hx. apply in_app_iff. right. by left.
      - rewrite app_comm_cons, last_snoc in Hlast. injection Hlast as <-. done.
      - simpl in Hlast. injection Hlast as ->. congruence. }
    split; [done|]. split; [done|]. destruct Hk as [Htr|(-> & body & Hbody & Hn)].
    + inversion Htr as [x Hx Ex|body Hbody Ex|body Hbody Ex].
      * apply (f_equal length) in Ex. rewrite length_app in Ex. simpl in Ex. destruct v, m; simpl in Ex; try done; lia.
      * apply (open_comment v m (body ++ [10])); [done..|]. intros v' -> Hin. injection Ex as Ex.
        destruct m as [|d m _] using rev_ind; [done|]. rewrite app_assoc in Ex. apply app_inj_tail in Ex as [-> _].
        apply Hbody, in_app_iff. by left.
      * rewrite <- Ex in Hlast. change [42; 47] with ([42] ++ [47]) in Hlast. rewrite app_assoc, !app_comm_cons, last_snoc in Hlast.
        injection Hlast as <-. vm_compute in Hc. discriminate Hc.
    + apply (open_comment v m body); [done..|]. intros v' -> Hin. injection Hbody as <-. apply Hn, in_app_iff. by left.
Qed.

(** Trimming the end of a text keeps its tokens. *)
Lemma tokenize_trimEnd s tokens :
  tokenize s = Ok tokens -> exists tokens', tokenize (trimEnd s) = Ok tokens' /\ texts tokens' = texts tokens.
Proof.
  destruct (trimEnd_split s) as (w & E & Hw). rewrite E at 1. generalize (trimEnd s) as v. clear s E. intros v H%tokenize_lexes.
  assert (forall i tokens j, lexes i (v ++ w) tokens j [] -> exists tokens', lexes i v tokens' (i + length v) [] /\ texts tokens' = texts tokens) as Hall.
  { clear H tokens. intros i tokens j H. remember (v ++ w) as s eqn:Es. remember [] as e eqn:Ee. revert v Es.
    induction H as [i s|i s found rest toks j r Hs El H IH]; intros v Es; subst.
    - symmetry in Es. apply app_nil in Es as [-> ->]. exists []. split; [simpl; rewrite Nat.add_0_r; constructor|done].
    - destruct (decide (v = [])) as [->|Hv].
      { exists []. split; [simpl; rewrite Nat.add_0_r; constructor|]. simpl in *.
        assert (lexes i w (match found with Some t => (t, (i, (i + (length w - length rest))%nat)) :: toks | None => toks end) j []) as Hl by (by apply lexes_turn).
        pose proof (blank_reads _ _ _ _ Hw Hl) as ->. done. }
      destruct (lex_one_trim v w found rest Hv Hw El) as [(r' & -> & Ev)|(-> & Hb & Ev)].
      + destruct (IH eq_refl r' eq_refl) as (toks' & H' & Ht). pose proof (lex_one_shorter v _ _ Hv Ev) as Hlen.
        exists (match found with Some t => (t, (i, (i + (length v - length r'))%nat)) :: toks' | None => toks' end).
        split; [|destruct found; simpl; by rewrite Ht]. apply lexes_turn; [done..|].
        replace (i + length v)%nat with (i + (length v - length r') + length r')%nat by lia.
        replace (length (v ++ w) - length (r' ++ w))%nat with (length v - length r')%nat in H' by (rewrite !length_app; lia). done.
      + exists []. pose proof (blank_reads _ _ _ _ Hb H) as ->. split; [|done].
        apply (lexes_turn i v None [] []); [done..|]. simpl. rewrite Nat.sub_0_r. constructor. }
  destruct (Hall _ _ _ H) as (tokens' & H' & Ht). exists tokens'. split; [by apply tokenize_lexes|done].
Qed.

(** ** Finding the expectation *)

(** How many delimiters a text leaves open. *)
Definition delta (t : jsstr) : Z := if is_open t then 1 else if is_shut t then -1 else 0.

Fixpoint net (ts : list jsstr) : Z := match ts with [] => 0 | t :: ts => delta t + net ts end.

Lemma net_app a b : net (a ++ b) = net a + net b.
Proof. induction a as [|t a IH]; simpl; lia. Qed.

Lemma text_at_drop body j t : text_at body j = Some t -> exists x, x.1 = t /\ drop j body = x :: drop (S j) body.
Proof.
  unfold text_at. destruct (body !! j) as [x|] eqn:E; [|done]. intros [= <-]. exists x. split; [done|]. by apply drop_S.
Qed.

Lemma collect_spec fuel body : forall nested j condition condition' j',
  0 < nested -> collect fuel body nested j condition = Ok (condition', j') ->
  exists seg close, drop j body = seg ++ close :: drop j' body /\ condition' = condition ++ texts seg /\
    j' = S (j + length seg) /\ nested + net (texts (seg ++ [close])) = 0.
Proof.
  induction fuel as [|fuel IH]; intros nested j condition condition' j' Hn; simpl; [done|].
  destruct (text_at body j) as [t|] eqn:Et; [|done]. destruct (text_at_drop _ _ _ Et) as (x & <- & Ed).
  assert ((if is_open x.1 then nested + 1 else if is_shut x.1 then nested - 1 else nested) = nested + delta x.1) as ->
    by (unfold delta; destruct (is_open x.1), (is_shut x.1); lia).
  destruct (Z.ltb_spec 0 (nested + delta x.1)) as [Hpos|Hle].
  - intros H. destruct (IH _ _ _ _ _ Hpos H) as (seg & close & H1 & -> & -> & H4). exists (x :: seg), close.
    split; [by rewrite Ed, H1|].
    split; [by rewrite <- app_assoc|]. split; [simpl; lia|]. cbn [app]. rewrite texts_cons. cbn [net]. lia.
  - intros [= <- <-]. exists [], x. split; [by rewrite Ed|]. split; [by rewrite app_nil_r|]. split; [simpl; lia|].
    simpl. unfold delta in *. destruct (is_open x.1), (is_shut x.1); lia.
Qed.

Lemma at_is_spec body i t : at_is body i t = true <-> text_at body i = Some (js t).
Proof.
  unfold at_is. destruct (text_at body i); [|done]. rewrite str_eqb_eq. naive_solver.
Qed.

(** The expectation found, with the delimiters before it closed. *)
Lemma find_expect_spec fuel body wanted : forall depth i i' j',
  find_expect fuel body wanted depth i = Ok (i', j') ->
  exists skipped open seg close, drop i body = skipped ++ open :: seg ++ close :: drop j' body /\
    (i' = i + length skipped)%nat /\ (2 <= i')%nat /\ open.1 = js "(" /\ text_at body (i' - 1) = Some (js "expect") /\
    text_at body (i' - 2) = Some (js ".") /\ texts seg = wanted /\ j' = S (S i' + length seg) /\ depth + net (texts skipped) = 0.
Proof.
  induction fuel as [|fuel IH]; intros depth i i' j'; cbn [find_expect]; [done|].
  destruct (text_at body i) as [t|] eqn:Et; [|done]. destruct (text_at_drop _ _ _ Et) as (x & <- & Ed).
  destruct (_ && _ && _ && _ && _) eqn:Eg.
  - rewrite !andb_true_iff, !at_is_spec, str_eqb_eq, Z.eqb_eq, Nat.leb_le in Eg. destruct Eg as [[[[-> Hp] Hex] H2] Hdot].
    destruct (collect (length body) body 1 (S i) []) as [[condition j]|e] eqn:Ec; [|done]. simpl.
    destruct (collect_spec _ _ 1 _ _ _ _ ltac:(lia) Ec) as (seg & close & H1 & -> & -> & H4). cbn [app].
    destruct (bool_decide (texts seg = wanted)) eqn:Ew.
    + intros [= <- <-]. apply bool_decide_eq_true in Ew. exists [], x, seg, close. rewrite Ed, H1.
      repeat split; try done; simpl; lia.
    + intros H. destruct (IH _ _ _ _ H) as (skipped & open & seg' & close' & E1 & -> & E3 & E4 & E5 & E6 & E7 & E8 & E9).
      exists (x :: seg ++ close :: skipped), open, seg', close'.
      split; [rewrite Ed, H1; cbn [Nat.add] in E1 |- *; rewrite E1; simpl; by rewrite <- app_assoc|]. simpl length. rewrite length_app. simpl length.
      replace (i + S (length seg + S (length skipped)))%nat with (S (S i + length seg) + length skipped)%nat by lia.
      repeat split; try done. rewrite texts_app, net_app, texts_cons in H4. rewrite !texts_cons, texts_app, texts_cons.
      change (texts []) with (@nil jsstr) in H4. cbn [net] in H4 |- *.
      rewrite net_app, Hp. cbn [net]. change (delta (js "(")) with 1. lia.
  - assert ((if is_open x.1 then depth + 1 else if is_shut x.1 then depth - 1 else depth) = depth + delta x.1) as ->
      by (unfold delta; destruct (is_open x.1), (is_shut x.1); lia).
    intros H. destruct (IH _ _ _ _ H) as (skipped & open & seg & close & E1 & -> & E3 & E4 & E5 & E6 & E7 & E8 & E9).
    exists (x :: skipped), open, seg, close. split; [by rewrite Ed, E1|]. simpl length.
    replace (i + S (length skipped))%nat with (S i + length skipped)%nat by lia. repeat split; try done. rewrite texts_cons. cbn [net]. lia.
Qed.

(** The run's body around the expectation. *)
Lemma expect_in_body body wanted i j :
  at_is body 0 "=" = true -> find_expect (length body) body wanted 0 1 = Ok (i, j) ->
  exists eq chain dot ex open cond close rest,
    body = eq :: chain ++ dot :: ex :: open :: cond ++ close :: rest /\
    dot.1 = js "." /\ ex.1 = js "expect" /\ open.1 = js "(" /\ texts cond = wanted /\ net (texts chain) = 0 /\
    i = (3 + length chain)%nat /\ j = (5 + length chain + length cond)%nat.
Proof.
  intros H0 H. apply find_expect_spec in H as (skipped & open & cond & close & Hd & -> & H2 & Ho & Hex & Hdot & Hw & -> & Hnet).
  apply at_is_spec in H0. destruct (text_at_drop _ _ _ H0) as (eq & Heq & E0). rewrite drop_0 in E0. rewrite Hd in E0.
  destruct skipped as [|ex skipped _] using rev_ind; [simpl in H2; lia|].
  rewrite length_app in *. simpl length in *.
  destruct skipped as [|dot chain _] using rev_ind.
  { simpl in Hdot. rewrite E0 in Hdot. unfold text_at in Hdot. simpl in Hdot. rewrite Heq in Hdot. discriminate Hdot. }
  rewrite length_app in *. simpl length in *. rewrite <- !app_assoc in E0. simpl in E0.
  assert (body !! S (length chain) = Some dot) as Ld by (rewrite E0; simpl; apply list_lookup_middle; done).
  assert (body !! S (S (length chain)) = Some ex) as Le.
  { rewrite E0. simpl. rewrite cons_middle, app_assoc. apply list_lookup_middle. rewrite length_app. simpl. lia. }
  replace (1 + (length chain + 1 + 1) - 1)%nat with (S (S (length chain))) in Hex by lia.
  replace (1 + (length chain + 1 + 1) - 2)%nat with (S (length chain)) in Hdot by lia.
  unfold text_at in Hex, Hdot. rewrite Ld in Hdot. rewrite Le in Hex. injection Hdot as Hdot. injection Hex as Hex.
  eexists eq, chain, dot, ex, open, cond, close, _. split; [exact E0|]. repeat split; try done; try lia.
  rewrite !texts_app, !net_app, !texts_cons in Hnet. cbn [net texts List.map] in Hnet. rewrite Hdot, Hex in Hnet.
  change (delta (js ".")) with 0 in Hnet. change (delta (js "expect")) with 0 in Hnet. lia.
Qed.

(** ** Properties *)

(** C39. A reproducer's checkpoint is the run itself, cut at its declared
    expectation: the run's body is a chain with all delimiters closed, the
    expectation whose condition reads as the declared failure, and a rest; the
    text [before] reads as exactly the chain, and [through] as the chain with
    that expectation and nothing behind it. *)
Theorem checkpoint_reads_back source ds run failure before through :
  scanDeclarationBodies source = Ok ds -> reproducerCheckpoint source run failure ds = Ok (before, through) ->
  exists d wanted eq chain dot ex open cond close rest tb tt,
    declared run ds = Some d /\ d_kind d = KRun /\ tokenize failure = Ok wanted /\
    d_body d = eq :: chain ++ dot :: ex :: open :: cond ++ close :: rest /\
    dot.1 = js "." /\ ex.1 = js "expect" /\ open.1 = js "(" /\ texts cond = texts wanted /\ net (texts chain) = 0 /\
    tokenize before = Ok tb /\ texts tb = texts chain /\
    tokenize through = Ok tt /\ texts tt = texts (chain ++ dot :: ex :: open :: cond ++ [close]).
Proof.
  intros Hscan. unfold scanDeclarationBodies in Hscan. destruct (tokenize source) as [tokens|] eqn:Htok; [|done]. simpl in Hscan.
  apply scan_tokens_ok in Hscan as [_ Hseg]. unfold reproducerCheckpoint. destruct (declared run ds) as [d|] eqn:Ed; [|done].
  destruct (bool_decide (d_kind d = KRun)) eqn:Ek; [|done]. apply bool_decide_eq_true in Ek. cbn [negb].
  destruct (tokenize failure) as [wanted|] eqn:Ew; [|done]. cbn [mbind result_bind].
  destruct (at_is (d_body d) 0 "=") eqn:E0; [|unfold throw_if; simpl; by rewrite orb_true_r].
  unfold throw_if. destruct (_ || _); [done|]. cbn [mbind result_bind].
  destruct (find_expect _ _ _ 0 1) as [[i j]|] eqn:Ef; [|done]. cbn [mbind result_bind]. intros [= <- <-].
  destruct (expect_in_body _ _ _ _ E0 Ef) as (eq & chain & dot & ex & open & cond & close & rest & Hb & Hdot & Hex & Ho & Hw & Hn & -> & ->).
  destruct (Hseg run d Ed) as (pre & k & n & post & Et & _ & _). rewrite Hb in *.
  destruct (head (chain ++ [dot])) as [[t1 [a1 b1]]|] eqn:Eh; [|by destruct chain].
  assert (span_start (eq :: chain ++ dot :: ex :: open :: cond ++ close :: rest) 1 = a1) as ->.
  { unfold span_start. destruct chain as [|x chain]; simpl in *; by injection Eh as ->. }
  replace (3 + length chain - 2)%nat with (S (length chain)) by lia.
  replace (5 + length chain + length cond - 1)%nat with (S (length (chain ++ dot :: ex :: open :: cond))) by (rewrite length_app; simpl; lia).
  destruct dot as [td [ad bd]], close as [tc [ac bc]].
  assert (span_start (eq :: chain ++ (td, (ad, bd)) :: ex :: open :: cond ++ (tc, (ac, bc)) :: rest) (S (length chain)) = ad) as ->.
  { unfold span_start. simpl. by rewrite list_lookup_middle. }
  assert (span_end (eq :: chain ++ (td, (ad, bd)) :: ex :: open :: cond ++ (tc, (ac, bc)) :: rest)
            (S (length (chain ++ (td, (ad, bd)) :: ex :: open :: cond))) = bc) as ->.
  { unfold span_end. simpl. replace (chain ++ (td, (ad, bd)) :: ex :: open :: cond ++ (tc, (ac, bc)) :: rest)
      with ((chain ++ (td, (ad, bd)) :: ex :: open :: cond) ++ (tc, (ac, bc)) :: rest) by (by rewrite <- app_assoc).
    by rewrite list_lookup_middle. }
  destruct (slice_before source tokens (pre ++ [k; n; eq]) chain t1 a1 b1 td ad bd (ex :: open :: cond ++ (tc, (ac, bc)) :: rest ++ post) Htok)
    as (tb & Htb & Hbt); [rewrite Et, <- !app_assoc; simpl; rewrite <- !app_assoc; simpl; by rewrite <- !app_assoc|done|].
  destruct (tokenize_trimEnd _ _ Htb) as (tb' & Htb' & Hbt').
  destruct (slice_through source tokens (pre ++ [k; n; eq]) (chain ++ (td, (ad, bd)) :: ex :: open :: cond) t1 a1 b1 tc ac bc (rest ++ post)
              (chain ++ (td, (ad, bd)) :: ex :: open :: cond ++ [(tc, (ac, bc))]) Htok) as (tt & Htt & Htx).
  { rewrite Et, <- !app_assoc. simpl. rewrite <- !app_assoc. simpl. by rewrite <- !app_assoc. }
  { destruct chain; simpl in *; done. }
  { by rewrite <- app_assoc. }
  exists d, wanted, eq, chain, (td, (ad, bd)), ex, open, cond, (tc, (ac, bc)), rest, tb', tt.
  repeat split; try done. by rewrite Hbt'.
Qed.

(** A run with two expectations, a comment before the second one. *)
Definition sample_run : jsstr :=
  js "module m { var s: int  action init = { s' = 0 }  action step = { s' = s + 1 } run oneTest = init.then(step).expect(s == 1)"
  ++ js ".then(step) // reached" ++ [10] ++ js "  .expect(s == 2).then(step) }".

Lemma checkpoint_reads_back_witness :
  exists ds before through tb, scanDeclarationBodies sample_run = Ok ds /\
    reproducerCheckpoint sample_run (js "oneTest") (js "s==2") ds = Ok (before, through) /\
    before = js "init.then(step).expect(s == 1).then(step) // reached" /\ tokenize before = Ok tb.
Proof.
  destruct (scanDeclarationBodies sample_run) as [ds|e] eqn:E; [|vm_compute in E; discriminate E].
  assert (match scanDeclarationBodies sample_run with
          | Ok ds => reproducerCheckpoint sample_run (js "oneTest") (js "s==2") ds | Err e => Err e end =
          Ok (js "init.then(step).expect(s == 1).then(step) // reached",
              js "init.then(step).expect(s == 1).then(step) // reached" ++ [10] ++ js "  .expect(s == 2)")) as E2
    by (vm_compute; reflexivity).
  rewrite E in E2.
  destruct (checkpoint_reads_back sample_run ds _ _ _ _ E E2) as (d & w & eq & c & dt & x & o & cd & cl & r & tb & tt & _ & _ & _ & _ & _ & _ & _ & _ & _ & H & _).
  eexists ds, _, _, tb. split; [reflexivity|]. split; [exact E2|]. split; [reflexivity|exact H].
Defined.
