(* ===== verification/QuintStates.v ===== *)
(** * The states of a reproducer's history

    [formal/tools/execution.mjs]: [checkpointStep] counts the states of the
    action chain before a reproducer's expectation, by reading its tokens and
    the bodies of the actions it names, and refuses what it does not
    understand. The reading is compared with rules that say what the syntax
    denotes: [then] adds states, an expectation adds none, [reps] multiplies,
    an alias stands for its body, and an atomic action is one state. *)

From S2P Require Import Prelude JsValue Duration Utf8 Config Key Metrics Frame Compression Json JsonText Pattern Itf ReplayText QuintPool QuintText QuintSchedule QuintCheckpoint.

(** [refuse], and the bound of the recursion below. *)
Inductive refusal := Refused (detail : string) | OutOfFuel.

Definition tok_is (tokens : list jsstr) (i : nat) (s : string) : bool :=
  match tokens !! i with Some t => str_eqb t (js s) | None => false end.

(** [shuts[opens.indexOf(token)]] *)
Definition shut_of (token : jsstr) : option jsstr :=
  if str_eqb token (js "{") then Some (js "}")
  else if str_eqb token (js "(") then Some (js ")")
  else if str_eqb token (js "[") then Some (js "]")
  else None.

(** The loop of [matching] from index [i], where [l] is the text from there. *)
Fixpoint match_from (o c : jsstr) (depth i : nat) (l : list jsstr) : option nat :=
  match l with
  | [] => None
  | t :: l =>
      if str_eqb t o then match_from o c (S depth) (S i) l
      else if str_eqb t c then (if (pred depth =? 0)%nat then Some i else match_from o c (pred depth) (S i) l)
      else match_from o c depth (S i) l
  end.

Definition matching (tokens : list jsstr) (start : nat) : result refusal nat :=
  match (o ← tokens !! start; c ← shut_of o; match_from o c 1 (S start) (drop (S start) tokens)) with
  | Some i => Ok i
  | None => Err (Refused "unbalanced action expression")
  end.

(** [while (tokens[0] === '(' && matching(tokens, 0) === tokens.length - 1)];
    every turn drops two tokens. *)
Fixpoint strip_parens (fuel : nat) (tokens : list jsstr) : result refusal (list jsstr) :=
  match fuel with
  | O => Ok tokens
  | S fuel =>
      if tok_is tokens 0 "(" then
        e ← matching tokens 0;
        if (e =? length tokens - 1)%nat then strip_parens fuel (removelast (tail tokens)) else Ok tokens
      else Ok tokens
  end.

(** ** Chains *)

Record part := Part { p_start : nat; p_end : nat; p_then : bool; p_argument : list jsstr }.

(** [tokens.slice(start, end)] *)
Definition tokens_slice (start stop : nat) (tokens : list jsstr) : list jsstr := take (stop - start) (drop start tokens).

(** The loop that collects the parts; every turn moves on, so it has ended
    after one turn per token. *)
Fixpoint chain_from (fuel : nat) (tokens : list jsstr) (i : nat) : result refusal (list part) :=
  match fuel, tokens !! i with
  | S fuel, Some t =>
      if is_open t then e ← matching tokens i; chain_from fuel tokens (S e)
      else if str_eqb t (js ".") && (tok_is tokens (S i) "then" || tok_is tokens (S i) "expect") then
        if negb (tok_is tokens (i + 2) "(") then Err (Refused "unrecognized chain operator")
        else
          e ← matching tokens (i + 2);
          parts ← chain_from fuel tokens (S e);
          Ok (Part i e (tok_is tokens (S i) "then") (tokens_slice (i + 3) e tokens) :: parts)
      else chain_from fuel tokens (S i)
  | _, _ => Ok []
  end.

Definition add (a b : Z) : result refusal Z :=
  if MAX_SAFE_INTEGER <? a + b then Err (Refused "checkpoint exceeds safe integer range") else Ok (a + b).

(** The loop over the parts; [next] is [end + 1]. *)
Fixpoint sum_chain (count : list jsstr -> result refusal Z) (tokens : list jsstr) (parts : list part) (next : nat) (total : Z) : result refusal Z :=
  match parts with
  | [] => if (next =? length tokens)%nat then Ok total else Err (Refused "unsupported action-chain suffix")
  | p :: parts =>
      if negb (p_start p =? next)%nat then Err (Refused "unsupported expression between chain steps")
      else
        total ← (if p_then p then n ← count (p_argument p); add total n else Ok total);
        sum_chain count tokens parts (S (p_end p)) total
  end.

(** ** Actions *)

(** [body[i] === '='] outside delimiters. *)
Fixpoint find_equals (fuel : nat) (body : list jsstr) (i : nat) : result refusal nat :=
  match fuel, body !! i with
  | S fuel, Some t =>
      if is_open t then e ← matching body i; find_equals fuel body (S e)
      else if str_eqb t (js "=") then Ok i
      else find_equals fuel body (S i)
  | _, _ => Err (Refused "action has no body")
  end.

Definition sequences (rhs : list jsstr) : bool :=
  some_suffix (fun l => tok_is l 0 "." && (tok_is l 1 "then" || tok_is l 1 "reps")) rhs.

Definition atomic (rhs : list jsstr) : bool := tok_is rhs 0 "all" || tok_is rhs 0 "any" || tok_is rhs 0 "{".

(** A token of a body that is a field name or a member, not a call. *)
Definition is_member (rhs : list jsstr) (i : nat) : bool :=
  (1 <=? i)%nat && (tok_is rhs (i - 1) ":" || tok_is rhs (i - 1) ".") || tok_is rhs (S i) ":".

Definition is_action (ds : declarations) (token : jsstr) : bool :=
  match declared token ds with Some d => bool_decide (d_kind d = KAction) | None => false end.

(** The loop over the entries of an atomic body. *)
Fixpoint check_entries (count : list jsstr -> result refusal Z) (ds : declarations) (rhs : list jsstr) (i : nat) (l : list jsstr) : result refusal unit :=
  match l with
  | [] => Ok tt
  | token :: l =>
      if is_member rhs i then check_entries count ds rhs (S i) l
      else if is_action ds token then
        n ← count [token];
        if negb (n =? 1) then Err (Refused "nested action sequence") else check_entries count ds rhs (S i) l
      else check_entries count ds rhs (S i) l
  end.

(** ** Counting *)

(** [tokens.indexOf('.')] *)
Fixpoint index_of_dot (tokens : list jsstr) : option nat :=
  match tokens with
  | [] => None
  | t :: tokens => if str_eqb t (js ".") then Some O else S <$> index_of_dot tokens
  end.

(** The position of the dot of a repetition that is the whole expression. *)
Definition repetition (tokens : list jsstr) : result refusal (option nat) :=
  match index_of_dot tokens with
  | Some (S d) =>
      let dot := S d in
      if tok_is tokens (dot + 1) "reps" && tok_is tokens (dot + 2) "(" then
        e ← matching tokens (dot + 2); Ok (if (e =? length tokens - 1)%nat then Some dot else None)
      else Ok None
  | _ => Ok None
  end.

Definition count_repetition (count : list jsstr -> result refusal Z) (tokens : list jsstr) (dot : nat) : result refusal Z :=
  let literal := List.concat (take dot tokens) in
  match (if test all_digits literal then isSafeInteger (round_double false (digits_value literal) 1) else None) with
  | None => Err (Refused "repetition count must be a safe integer literal")
  | Some times =>
      let lambda := tokens_slice (dot + 3) (length tokens - 1) tokens in
      if negb (match lambda with x :: _ => is_identifier x | [] => false end) || negb (tok_is lambda 1 "=") || negb (tok_is lambda 2 ">")
      then Err (Refused "unsupported repetition lambda")
      else
        n ← count (drop 3 lambda);
        if MAX_SAFE_INTEGER <? times * n then Err (Refused "repetition count exceeds safe integer range") else Ok (times * n)
  end.

(** A name, or a call of one with the argument list to the end. *)
Definition is_application (tokens : list jsstr) : result refusal bool :=
  if (length tokens =? 1)%nat then Ok true
  else if tok_is tokens 1 "(" then e ← matching tokens 1; Ok (e =? length tokens - 1)%nat
  else Ok false.

Definition count_action (count : list jsstr -> list jsstr -> result refusal Z) (ds : declarations) (tokens trail : list jsstr) : result refusal Z :=
  match tokens with
  | [] => Err (Refused "empty action expression")
  | name :: _ =>
      match declared name ds with
      | None => Err (Refused "unknown action")
      | Some d =>
          if negb (bool_decide (d_kind d = KAction) || bool_decide (d_kind d = KRun)) then Err (Refused "unknown action")
          else if existsb (str_eqb name) trail then Err (Refused "cyclic action alias")
          else
            ok ← is_application tokens;
            if negb (ok : bool) then Err (Refused "unsupported action expression")
            else
              let body := body_texts d in
              equals ← find_equals (length body) body 0;
              let rhs := drop (S equals) body in
              if atomic rhs then
                if sequences rhs then Err (Refused "nested action sequence")
                else _ ← check_entries (fun l => count l (name :: trail)) ds rhs 0 rhs; Ok 1
              else count rhs (name :: trail)
      end
  end.

Fixpoint count (fuel : nat) (ds : declarations) (tokens trail : list jsstr) : result refusal Z :=
  match fuel with
  | O => Err OutOfFuel
  | S fuel =>
      tokens ← strip_parens (length tokens) tokens;
      if bool_decide (tokens = []) then Err (Refused "empty action expression")
      else
        chain ← chain_from (length tokens) tokens 0;
        match chain with
        | first :: _ =>
            total ← count fuel ds (take (p_start first) tokens) trail;
            sum_chain (fun l => count fuel ds l trail) tokens chain (p_start first) total
        | [] =>
            dot ← repetition tokens;
            match dot with
            | Some dot => count_repetition (fun l => count fuel ds l trail) tokens dot
            | None => count_action (count fuel ds) ds tokens trail
            end
        end
  end.

(** The longest body, and a level for every token of every body entered (see
    [count_total]). *)
Definition body_bound (ds : declarations) : nat := list_max (List.map (fun '(_, d) => length (d_body d)) ds).

Definition count_fuel (ds : declarations) (tokens : list jsstr) : nat :=
  S (length ds * S (body_bound ds) + length tokens).

Definition checkpointStep (before : jsstr) (ds : declarations) : result refusal Z :=
  match tokenize before with
  | Err _ => Err (Refused "unterminated text")
  | Ok tokens =>
      let tokens := List.map fst tokens in
      states ← count (count_fuel ds tokens) ds tokens [];
      if states <? 1 then Err (Refused "history has no initial state") else Ok (states - 1)
  end.

(** ** What an action expression denotes *)

(** Text in which the delimiters [o] and [c] match. *)
Inductive matched (o c : jsstr) : list jsstr -> Prop :=
| matched_nil : matched o c []
| matched_token t r : t <> o -> t <> c -> matched o c r -> matched o c (t :: r)
| matched_group a r : matched o c a -> matched o c r -> matched o c (o :: a ++ c :: r).

Abbreviation in_parens := (matched (js "(") (js ")")).

(** A declared name, or a call of it. *)
Inductive application (name : jsstr) : list jsstr -> Prop :=
| application_name : application name [name]
| application_call args : in_parens args -> application name (name :: js "(" :: args ++ [js ")"]).

(** What precedes the equals sign of a declaration: no other one outside
    delimiters. *)
Inductive parameters : list jsstr -> Prop :=
| parameters_nil : parameters []
| parameters_token t r : is_open t = false -> t <> js "=" -> parameters r -> parameters (t :: r)
| parameters_group o c a r : shut_of o = Some c -> matched o c a -> parameters r -> parameters (o :: a ++ c :: r).

(** The declaration of an action or run, and its right-hand side. *)
Definition defines (ds : declarations) (name : jsstr) (rhs : list jsstr) : Prop :=
  exists d ps, declared name ds = Some d /\ (d_kind d = KAction \/ d_kind d = KRun) /\
    body_texts d = ps ++ js "=" :: rhs /\ parameters ps.

(** [states tokens n]: the expression takes the history through [n] states. *)
Inductive states (ds : declarations) : list jsstr -> Z -> Prop :=
| states_parens e n : in_parens e -> states ds e n -> states ds (js "(" :: e ++ [js ")"]) n
| states_then e a arg b :
    states ds e a -> in_parens arg -> states ds arg b -> states ds (e ++ [js "."; js "then"; js "("] ++ arg ++ [js ")"]) (a + b)
| states_expect e a cond :
    states ds e a -> in_parens cond -> states ds (e ++ [js "."; js "expect"; js "("] ++ cond ++ [js ")"]) a
| states_reps literal i e n :
    word all_digits (List.concat literal) -> is_identifier i = true -> states ds e n ->
    states ds (literal ++ [js "."; js "reps"; js "("; i; js "="; js ">"] ++ e ++ [js ")"]) (digits_value (List.concat literal) * n)
| states_alias name tokens rhs n :
    application name tokens -> defines ds name rhs -> atomic rhs = false -> states ds rhs n -> states ds tokens n
| states_atomic name tokens rhs :
    application name tokens -> defines ds name rhs -> atomic rhs = true -> sequences rhs = false ->
    (forall i t, rhs !! i = Some t -> is_member rhs i = false -> is_action ds t = true -> states ds [t] 1) ->
    states ds tokens 1.

(** ** Lemmas: delimiters *)

(** [body] closes [depth] groups beyond its own. *)
Fixpoint levels (o c : jsstr) (depth : nat) (body : list jsstr) : Prop :=
  match depth with
  | O => matched o c body
  | S depth => exists a b, body = a ++ c :: b /\ matched o c a /\ levels o c depth b
  end.

Lemma levels_token o c depth t body : t <> o -> t <> c -> levels o c depth body -> levels o c depth (t :: body).
Proof.
  intros Ho Hc. destruct depth as [|d]; simpl; [by apply matched_token|]. intros (a & b & -> & Ha & Hb).
  exists (t :: a), b. split; [done|]. split; [by apply matched_token|done].
Qed.

Lemma levels_group o c depth body : levels o c (S depth) body -> levels o c depth (o :: body).
Proof.
  intros (a & b & -> & Ha & Hb). destruct depth as [|d]; simpl in *; [by apply matched_group|].
  destruct Hb as (a' & b' & -> & Ha' & Hb'). exists (o :: a ++ c :: a'), b'.
  split; [simpl; by rewrite <- app_assoc|]. split; [by apply matched_group|done].
Qed.

Lemma assoc_middle {A} (l r : list A) x : l ++ x :: r = (l ++ [x]) ++ r.
Proof. by rewrite <- app_assoc. Qed.

Lemma str_eqb_neq a b : str_eqb a b = false -> a <> b.
Proof. unfold str_eqb. apply bool_decide_eq_false_1. Qed.

Lemma match_from_spec o c l : forall depth i e,
  match_from o c (S depth) i l = Some e ->
  exists body rest, l = body ++ c :: rest /\ e = (i + length body)%nat /\ levels o c depth body.
Proof.
  induction l as [|t l IH]; intros depth i e; simpl; [done|].
  destruct (str_eqb t o) eqn:Eo.
  - apply str_eqb_eq in Eo as ->. intros (body & rest & -> & -> & Hl)%IH. exists (o :: body), rest.
    split; [done|]. split; [simpl; lia|by apply levels_group].
  - destruct (str_eqb t c) eqn:Ec.
    + apply str_eqb_eq in Ec as ->. destruct depth as [|d]; simpl.
      * intros [= <-]. exists [], l. split; [done|]. split; [simpl; lia|constructor].
      * intros (body & rest & -> & -> & Hl)%IH. exists (c :: body), rest. split; [done|]. split; [simpl; lia|].
        exists [], body. split; [done|]. split; [constructor|done].
    + intros (body & rest & -> & -> & Hl)%IH. exists (t :: body), rest. split; [done|]. split; [simpl; lia|].
      apply levels_token; [by apply str_eqb_neq..|done].
Qed.

Lemma matching_spec tokens s e :
  matching tokens s = Ok e ->
  exists pre o c mid post, tokens = pre ++ o :: mid ++ c :: post /\ length pre = s /\ e = (S s + length mid)%nat /\
    shut_of o = Some c /\ matched o c mid.
Proof.
  unfold matching. destruct (tokens !! s) as [o|] eqn:Eo; [|done]. simpl. destruct (shut_of o) as [c|] eqn:Ec; [|done]. simpl.
  destruct (match_from o c 1 (S s) (drop (S s) tokens)) as [i|] eqn:Em; [|done]. intros [= ->].
  apply match_from_spec in Em as (mid & post & Hd & -> & Hm). exists (take s tokens), o, c, mid, post.
  apply list_elem_of_split_length in Eo as (l1 & l2 & -> & ->).
  rewrite take_app_length.
  split; [|repeat split; done].
  replace (S (length l1)) with (length (l1 ++ [o])) in Hd by (rewrite length_app; simpl; lia).
  rewrite (assoc_middle l1 l2), drop_app_length in Hd. by rewrite Hd.
Qed.

Lemma tok_is_eq tokens i s : tok_is tokens i s = true -> tokens !! i = Some (js s).
Proof. unfold tok_is. destruct (tokens !! i); [|done]. by intros ->%str_eqb_eq. Qed.

(** A group of parentheses that reaches the end of the text. *)
Lemma paren_to_end tokens s e :
  tok_is tokens s "(" = true -> matching tokens s = Ok e -> e = (length tokens - 1)%nat ->
  exists mid, tokens = take s tokens ++ js "(" :: mid ++ [js ")"] /\ in_parens mid /\ length (take s tokens) = s.
Proof.
  intros Ht%tok_is_eq (pre & o & c & mid & post & -> & <- & -> & Hs & Hm)%matching_spec He.
  rewrite list_lookup_middle in Ht by done. injection Ht as ->. injection Hs as <-.
  assert (post = []) as ->. { destruct post; [done|]. rewrite length_app in He. simpl in He. rewrite length_app in He. simpl in He. lia. }
  exists mid. rewrite take_app_length. done.
Qed.

(** ** Lemmas: the parts of an expression *)

Lemma ok_bind {A B} (m : result refusal A) (f : A -> result refusal B) b :
  (m ≫= f) = Ok b -> exists a, m = Ok a /\ f a = Ok b.
Proof. destruct m as [a|e]; simpl; [eauto|done]. Qed.

Lemma strip_parens_spec ds fuel : forall tokens inner,
  strip_parens fuel tokens = Ok inner ->
  (length inner <= length tokens)%nat /\ forall n, states ds inner n -> states ds tokens n.
Proof.
  induction fuel as [|fuel IH]; intros tokens inner; cbn [strip_parens]; [by intros [= <-]|].
  destruct (tok_is tokens 0 "(") eqn:Et; [|by intros [= <-]]. intros (e & Em & H)%ok_bind.
  destruct (Nat.eqb_spec e (length tokens - 1)) as [He|]; [|by injection H as <-].
  destruct (paren_to_end _ _ _ Et Em He) as (mid & Hm & Hp & _). simpl in Hm. rewrite Hm in H |- *. simpl tail in H. rewrite removelast_last in H.
  destruct (IH _ _ H) as [Hl Hs]. split; [simpl; rewrite length_app; simpl; lia|]. intros n Hn. by apply states_parens, Hs.
Qed.

Definition part_ok (tokens : list jsstr) (p : part) : Prop :=
  exists pre mid post, tokens = pre ++ [js "."; js (if p_then p then "then" else "expect"); js "("] ++ mid ++ js ")" :: post /\
    length pre = p_start p /\ p_end p = (p_start p + 3 + length mid)%nat /\ p_argument p = mid /\ in_parens mid.

Lemma two_before tokens pre (rest : list jsstr) i a b :
  tokens = pre ++ rest -> length pre = (i + 2)%nat -> tokens !! i = Some a -> tokens !! S i = Some b ->
  exists front, pre = front ++ [a; b] /\ length front = i.
Proof.
  intros -> Hl Ha Hb. rewrite lookup_app_l in Ha, Hb by lia. exists (take i pre). rewrite length_take. split; [|lia].
  rewrite <- (take_ge pre (S (S i))) at 1 by lia. rewrite (take_S_r _ _ _ Hb), (take_S_r _ _ _ Ha). by rewrite <- app_assoc.
Qed.

Lemma part_here tokens i e m :
  tokens !! i = Some (js ".") -> tokens !! S i = Some (js (if m : bool then "then" else "expect")) ->
  tok_is tokens (i + 2) "(" = true -> matching tokens (i + 2) = Ok e ->
  part_ok tokens (Part i e m (tokens_slice (i + 3) e tokens)).
Proof.
  intros Hd Hm Ho%tok_is_eq (pre & o & c & mid & post & Ht & Hl & -> & Hs & Hp)%matching_spec.
  rewrite Ht, list_lookup_middle in Ho by done. injection Ho as ->. injection Hs as <-.
  destruct (two_before _ _ _ _ _ _ Ht Hl Hd Hm) as (front & -> & Hf). exists front, mid, post. simpl.
  split; [rewrite Ht, <- app_assoc; done|]. split; [done|]. split; [lia|]. split; [|done].
  unfold tokens_slice. rewrite Ht. replace (S (i + 2 + length mid) - (i + 3))%nat with (length mid) by lia.
  replace (i + 3)%nat with (length ((front ++ [js "."; js (if m then "then" else "expect")]) ++ [js "("])) by (rewrite !length_app; simpl; lia).
  rewrite (assoc_middle _ (mid ++ _)), drop_app_length. by rewrite take_app_length.
Qed.

Lemma chain_from_ok fuel tokens : forall i parts, chain_from fuel tokens i = Ok parts -> Forall (part_ok tokens) parts.
Proof.
  induction fuel as [|fuel IH]; intros i parts; cbn [chain_from]; [intros [= <-]; constructor|].
  destruct (tokens !! i) as [t|] eqn:Et; [|intros [= <-]; constructor].
  destruct (is_open t); [intros (e & _ & H)%ok_bind; eauto|].
  destruct (str_eqb t (js ".") && (tok_is tokens (S i) "then" || tok_is tokens (S i) "expect")) eqn:Ed; [|eauto].
  apply andb_true_iff in Ed as [->%str_eqb_eq Hm]. destruct (tok_is tokens (i + 2) "(") eqn:Eo; [|done].
  cbn [negb]. intros (e & Em & H)%ok_bind. apply ok_bind in H as (rest & Hr & [= <-]). constructor; [|eauto].
  apply part_here; [done| |done|done]. destruct (tok_is tokens (S i) "then") eqn:E; by apply tok_is_eq.
Qed.

Lemma take_through tokens p :
  part_ok tokens p ->
  take (S (p_end p)) tokens =
  take (p_start p) tokens ++ [js "."; js (if p_then p then "then" else "expect"); js "("] ++ p_argument p ++ [js ")"].
Proof.
  intros (pre & mid & post & Ht & Hpre & He & -> & _). rewrite He, <- Hpre, Ht, take_app_length.
  set (m := [_; _; _]). replace (pre ++ m ++ mid ++ js ")" :: post) with ((pre ++ m ++ mid ++ [js ")"]) ++ post) by (by rewrite <- !app_assoc).
  replace (S (length pre + 3 + length mid)) with (length (pre ++ m ++ mid ++ [js ")"])) by (rewrite !length_app; simpl; lia).
  apply take_app_length.
Qed.

Lemma sum_chain_spec ds cnt tokens (parts : list part) : forall next total r,
  (forall l n, cnt l = Ok n -> states ds l n) -> Forall (part_ok tokens) parts ->
  states ds (take next tokens) total -> sum_chain cnt tokens parts next total = Ok r -> states ds tokens r.
Proof.
  induction parts as [|p parts IH]; intros next total r Hc Hp Hn; cbn [sum_chain].
  - destruct (Nat.eqb_spec next (length tokens)) as [->|]; [|done]. intros [= <-]. by rewrite take_ge in Hn.
  - apply list.Forall_cons in Hp as [Hp Hps]. destruct (Nat.eqb_spec (p_start p) next) as [<-|]; [|done]. cbn [negb].
    intros (total' & Ht & H)%ok_bind. apply (IH (S (p_end p)) total' r Hc Hps); [|done].
    rewrite (take_through _ _ Hp). destruct Hp as (pre & mid & post & _ & _ & _ & Ha & Hm). rewrite <- Ha in Hm.
    destruct (p_then p); [|injection Ht as <-; by apply states_expect].
    apply ok_bind in Ht as (n & Hn' & Hadd). unfold add in Hadd. destruct (_ <? _); [done|]. injection Hadd as <-.
    by apply states_then; [done|done|apply Hc].
Qed.

Lemma index_of_dot_spec tokens d : index_of_dot tokens = Some d -> tokens !! d = Some (js ".").
Proof.
  revert d. induction tokens as [|t tokens IH]; intros d; simpl; [done|]. destruct (str_eqb t (js ".")) eqn:E.
  - intros [= <-]. simpl. by apply str_eqb_eq in E as ->.
  - destruct (index_of_dot tokens) as [k|]; [|done]. intros [= <-]. simpl. by apply IH.
Qed.

Lemma repetition_spec tokens dot :
  repetition tokens = Ok (Some dot) ->
  exists front mid, tokens = front ++ [js "."; js "reps"; js "("] ++ mid ++ [js ")"] /\ length front = dot /\
    tokens_slice (dot + 3) (length tokens - 1) tokens = mid.
Proof.
  unfold repetition. destruct (index_of_dot tokens) as [[|d]|] eqn:Ed; [done| |done]. apply index_of_dot_spec in Ed. cbv zeta.
  destruct (tok_is tokens (S d + 1) "reps") eqn:Er; [|done]. destruct (tok_is tokens (S d + 2) "(") eqn:Eo; [|done].
  cbn [andb]. intros (e & Em & H)%ok_bind. destruct (Nat.eqb_spec e (length tokens - 1)) as [He|]; [|done]. injection H as <-.
  destruct (paren_to_end _ _ _ Eo Em He) as (mid & Ht & _ & Hl). apply tok_is_eq in Er. rewrite Nat.add_1_r in Er.
  destruct (two_before _ _ _ _ _ _ Ht Hl Ed Er) as (front & Hf & Hfl). rewrite Hf in Ht. exists front, mid.
  split; [rewrite Ht at 1; by rewrite <- app_assoc|]. split; [done|].
  unfold tokens_slice. rewrite Ht.
  replace (length ((front ++ [js "."; js "reps"]) ++ js "(" :: mid ++ [js ")"]) - 1 - (S d + 3))%nat with (length mid)
    by (rewrite !length_app; simpl; rewrite !length_app; simpl; lia).
  replace (S d + 3)%nat with (length ((front ++ [js "."; js "reps"]) ++ [js "("])) by (rewrite !length_app; simpl; lia).
  rewrite (assoc_middle _ (mid ++ _)), drop_app_length. by rewrite take_app_length.
Qed.

Lemma count_repetition_spec ds cnt tokens dot r :
  (forall l n, cnt l = Ok n -> states ds l n) -> repetition tokens = Ok (Some dot) ->
  count_repetition cnt tokens dot = Ok r -> states ds tokens r.
Proof.
  intros Hc (front & mid & Ht & Hl & Hs)%repetition_spec. unfold count_repetition. rewrite Hs.
  assert (take dot tokens = front) as -> by (rewrite Ht, <- Hl; apply take_app_length).
  destruct (test all_digits (List.concat front)) eqn:Et; [|done]. destruct (isSafeInteger _) as [times|] eqn:Ei; [|done].
  destruct (safe_literal _ _ Et Ei) as (Hw & -> & _). destruct mid as [|x mid]; [done|].
  destruct (is_identifier x) eqn:Ex; [|done]. destruct (tok_is (x :: mid) 1 "=") eqn:E1; [|done].
  destruct (tok_is (x :: mid) 2 ">") eqn:E2; [|done]. cbn [negb orb]. intros (n & Hn & H)%ok_bind.
  destruct (_ <? _); [done|]. injection H as <-. apply tok_is_eq in E1, E2. destruct mid as [|y [|z mid]]; try done.
  injection E1 as ->. injection E2 as ->. simpl in Hn. rewrite Ht.
  apply (states_reps ds front x mid n); [done|done|by apply Hc].
Qed.

Lemma is_application_spec name rest : is_application (name :: rest) = Ok true -> application name (name :: rest).
Proof.
  unfold is_application. destruct (Nat.eqb_spec (length (name :: rest)) 1) as [Hl|_].
  - intros _. destruct rest; [constructor|done].
  - destruct (tok_is (name :: rest) 1 "(") eqn:Eo; [|done]. intros (e & Em & [= He])%ok_bind. apply Nat.eqb_eq in He.
    destruct (paren_to_end _ _ _ Eo Em He) as (mid & Ht & Hm & _). simpl in Ht. rewrite Ht. by constructor.
Qed.

(** From any index, the loop reads parameters up to the equals sign. *)
Lemma find_equals_spec fuel body : forall i e,
  find_equals fuel body i = Ok e -> exists ps, drop i body = ps ++ js "=" :: drop (S e) body /\ parameters ps.
Proof.
  induction fuel as [|fuel IH]; intros i e; cbn [find_equals]; [done|].
  destruct (body !! i) as [t|] eqn:Et; [|done].
  pose proof (drop_S _ _ _ Et) as Hd. destruct (is_open t) eqn:Eo.
  - intros (j & (pre & o & c & mid & post & Hb & Hl & -> & Hs & Hm)%matching_spec & H)%ok_bind.
    rewrite Hb, list_lookup_middle in Et by done. injection Et as ->.
    destruct (IH _ _ H) as (ps & Hps & Hp). exists (t :: mid ++ c :: ps).
    split; [|by apply parameters_group].
    assert (drop (S (S i + length mid)) body = post) as Hpost.
    { rewrite Hb. replace (pre ++ t :: mid ++ c :: post) with ((pre ++ t :: mid ++ [c]) ++ post) by (rewrite <- app_assoc; simpl; by rewrite <- app_assoc).
      replace (S (S i + length mid)) with (length (pre ++ t :: mid ++ [c])) by (rewrite length_app; simpl; rewrite length_app; simpl; lia).
      apply drop_app_length. }
    rewrite Hpost in Hps. rewrite Hb at 1. rewrite <- Hl, drop_app_length, Hps. simpl. by rewrite <- app_assoc.
  - destruct (str_eqb t (js "=")) eqn:Ee; [intros [= <-]; apply str_eqb_eq in Ee as ->; exists []; split; [exact Hd|constructor]|].
    intros (ps & Hps & Hp)%IH. exists (t :: ps). split; [rewrite Hd, Hps; done|]. constructor; [done|by apply str_eqb_neq|done].
Qed.

Lemma check_entries_spec ds cnt rhs l : forall i u,
  drop i rhs = l -> (forall t n, cnt t = Ok n -> states ds t n) -> check_entries cnt ds rhs i l = Ok u ->
  forall j t, rhs !! j = Some t -> (i <= j)%nat -> is_member rhs j = false -> is_action ds t = true -> states ds [t] 1.
Proof.
  induction l as [|x l IH]; intros i u Hl Hc H j t Hj Hij Hm Ha.
  { apply lookup_lt_Some in Hj. apply (f_equal length) in Hl. rewrite length_drop in Hl. simpl in Hl. lia. }
  assert (rhs !! i = Some x) as Hx by (rewrite <- (Nat.add_0_r i), <- lookup_drop, Hl; done).
  assert (drop (S i) rhs = l) as Hl' by (rewrite (drop_S _ _ _ Hx) in Hl; by injection Hl).
  cbn [check_entries] in H. destruct (decide (i = j)) as [->|Hne].
  - rewrite Hj in Hx. injection Hx as ->. rewrite Hm, Ha in H. apply ok_bind in H as (n & Hn & H).
    destruct (Z.eqb_spec n 1) as [->|]; [|done]. by apply Hc.
  - destruct (is_member rhs i); [eapply (IH (S i)); eauto; lia|]. destruct (is_action ds x); [|eapply (IH (S i)); eauto; lia].
    apply ok_bind in H as (n & _ & H). destruct (n =? 1); [|done]. eapply (IH (S i)); eauto; lia.
Qed.

Lemma count_action_spec ds cnt tokens trail r :
  (forall l tr n, cnt l tr = Ok n -> states ds l n) -> count_action cnt ds tokens trail = Ok r -> states ds tokens r.
Proof.
  intros Hc. unfold count_action. destruct tokens as [|name rest]; [done|]. destruct (declared name ds) as [d|] eqn:Ed; [|done].
  destruct (bool_decide (d_kind d = KAction) || bool_decide (d_kind d = KRun)) eqn:Ek; [|done]. cbn [negb].
  destruct (existsb _ trail); [done|]. intros ([|] & Ha & H)%ok_bind; [|done]. cbn [negb] in H. apply is_application_spec in Ha.
  apply ok_bind in H as (e & (ps & Hb & Hp)%find_equals_spec & H). rewrite drop_0 in Hb. set (rhs := drop (S e) (body_texts d)) in *.
  assert (defines ds name rhs) as Hdef.
  { exists d, ps. split; [done|]. split; [|done]. apply orb_true_iff in Ek as [E|E]; apply bool_decide_eq_true in E; auto. }
  destruct (atomic rhs) eqn:Eat.
  - destruct (sequences rhs) eqn:Es; [done|]. apply ok_bind in H as (u & Hu & [= <-]).
    eapply states_atomic; [done..|]. intros i t Hi. apply (check_entries_spec ds _ rhs rhs 0 u eq_refl (fun l n => Hc l _ n) Hu i t Hi). lia.
  - eapply states_alias; [done..|]. by eapply Hc.
Qed.

Lemma count_spec ds fuel : forall tokens trail n, count fuel ds tokens trail = Ok n -> states ds tokens n.
Proof.
  induction fuel as [|fuel IH]; intros tokens trail n; cbn [count]; [done|].
  intros (inner & Hi & H)%ok_bind. destruct (strip_parens_spec ds _ _ _ Hi) as [_ Hs]. apply Hs. clear Hi Hs.
  destruct (bool_decide (inner = [])); [done|]. apply ok_bind in H as (parts & Hp & H). apply chain_from_ok in Hp.
  destruct parts as [|p parts].
  - apply ok_bind in H as ([dot|] & Hr & H); [|by eapply count_action_spec].
    eapply count_repetition_spec; [|exact Hr|exact H]. intros l k. apply IH.
  - apply ok_bind in H as (total & Ht & H). eapply sum_chain_spec; [|exact Hp|eapply IH, Ht|exact H]. intros l k. apply IH.
Qed.

(** ** Lemmas: the recursion ends *)

Definition fine {A} (m : result refusal A) : Prop := m <> Err OutOfFuel.

Lemma fine_bind {A B} (m : result refusal A) (f : A -> result refusal B) :
  fine m -> (forall a, m = Ok a -> fine (f a)) -> fine (m ≫= f).
Proof. unfold fine. destruct m as [a|e]; simpl; intros Hm Hf; [by apply Hf|]. intros [= ->]. by apply Hm. Qed.

Lemma fine_if {A} (b : bool) (m n : result refusal A) : fine m -> fine n -> fine (if b then m else n).
Proof. by destruct b. Qed.

Lemma fine_matching tokens s : fine (matching tokens s).
Proof. unfold matching. by case_match. Qed.

Create HintDb fine.
#[local] Hint Resolve fine_matching fine_if : fine.
#[local] Hint Extern 1 (fine (Ok _)) => discriminate : fine.
#[local] Hint Extern 1 (fine (Err _)) => discriminate : fine.
#[local] Hint Extern 2 (fine (_ ≫= _)) => apply fine_bind; [|intros ? _] : fine.

Lemma fine_strip fuel : forall tokens, fine (strip_parens fuel tokens).
Proof. induction fuel; intros tokens; cbn [strip_parens]; auto with fine. Qed.

Lemma fine_chain fuel tokens : forall i, fine (chain_from fuel tokens i).
Proof. induction fuel as [|fuel IH]; intros i; cbn [chain_from]; [auto with fine|]. destruct (tokens !! i); auto 10 with fine. Qed.

Lemma fine_equals fuel body : forall i, fine (find_equals fuel body i).
Proof. induction fuel as [|fuel IH]; intros i; cbn [find_equals]; [auto with fine|]. destruct (body !! i); auto 10 with fine. Qed.

Lemma fine_repetition tokens : fine (repetition tokens).
Proof. unfold repetition. destruct (index_of_dot tokens) as [[|d]|]; auto with fine. Qed.

Lemma fine_application tokens : fine (is_application tokens).
Proof. unfold is_application. auto with fine. Qed.
#[local] Hint Resolve fine_strip fine_chain fine_equals fine_repetition fine_application : fine.

Lemma fine_sum cnt tokens parts : forall next total,
  (forall l, (length l < length tokens)%nat -> fine (cnt l)) -> Forall (part_ok tokens) parts -> fine (sum_chain cnt tokens parts next total).
Proof.
  induction parts as [|p parts IH]; intros next total Hc Hp; cbn [sum_chain]; [auto with fine|].
  apply list.Forall_cons in Hp as [(pre & mid & post & Ht & _ & _ & Ha & _) Hps].
  apply fine_if; [auto with fine|]. apply fine_bind; [|intros; by apply IH].
  apply fine_if; [|auto with fine]. apply fine_bind; [|intros; unfold add; auto with fine].
  apply Hc. rewrite Ha, Ht, !length_app. simpl. lia.
Qed.

Lemma fine_reps cnt tokens dot :
  tokens <> [] -> (forall l, (length l < length tokens)%nat -> fine (cnt l)) -> fine (count_repetition cnt tokens dot).
Proof.
  intros Hn Hc. unfold count_repetition. destruct (if test _ _ then _ else _); [|auto with fine]. apply fine_if; [auto with fine|].
  apply fine_bind; [|auto with fine]. apply Hc. unfold tokens_slice. rewrite length_drop, length_take, length_drop.
  destruct tokens; [done|simpl; lia].
Qed.

Lemma fine_entries cnt ds rhs l : forall i, (forall t, fine (cnt [t])) -> fine (check_entries cnt ds rhs i l).
Proof. induction l as [|x l IH]; intros i Hc; cbn [check_entries]; auto 10 with fine. Qed.

Lemma body_bounded ds name d : declared name ds = Some d -> (length (body_texts d) <= body_bound ds)%nat.
Proof.
  intros H%declared_In. unfold body_texts, body_bound. rewrite length_map.
  apply (in_map (fun '(_, d) => length (d_body d))) in H. simpl in H.
  pose proof (proj1 (list_max_le _ _) (Nat.le_refl (list_max (List.map (fun '(_, d) => length (d_body d)) ds)))) as Hm.
  rewrite List.Forall_forall in Hm. by apply Hm.
Qed.

Lemma fine_action cnt ds tokens trail :
  (forall name l, ~ In name trail -> (exists d, declared name ds = Some d) -> (length l <= body_bound ds)%nat -> fine (cnt l (name :: trail))) ->
  fine (count_action cnt ds tokens trail).
Proof.
  intros Hc. unfold count_action. destruct tokens as [|name rest]; [auto with fine|].
  destruct (declared name ds) as [d|] eqn:Ed; [|auto with fine]. apply fine_if; [auto with fine|].
  destruct (existsb _ trail) eqn:Et; [auto with fine|]. apply existsb_str_false in Et.
  pose proof (body_bounded _ _ _ Ed) as Hb. apply fine_bind; [auto with fine|]. intros ok _. apply fine_if; [auto with fine|].
  apply fine_bind; [auto with fine|]. intros e He.
  assert (length (body_texts d) > 0)%nat as Hpos by (destruct (body_texts d); [discriminate He|simpl; lia]).
  apply fine_if; [|apply Hc; [done|eauto|rewrite length_drop; lia]]. apply fine_if; [auto with fine|].
  apply fine_bind; [|auto with fine]. apply fine_entries. intros t. apply Hc; [done|eauto|simpl; lia].
Qed.

Lemma count_total ds fuel : forall tokens trail,
  NoDup trail -> (forall n, In n trail -> exists d, declared n ds = Some d) ->
  ((length ds - length trail) * S (body_bound ds) + length tokens < fuel)%nat -> fine (count fuel ds tokens trail).
Proof.
  induction fuel as [|fuel IH]; intros tokens trail Hnd Hd Hf; [by apply Nat.nlt_0_r in Hf|]. cbn [count].
  apply fine_bind; [auto with fine|]. intros inner Hi. destruct (strip_parens_spec ds _ _ _ Hi) as [Hl _].
  destruct (bool_decide (inner = [])) eqn:E; [auto with fine|]. apply bool_decide_eq_false in E.
  assert (forall l, (length l < length inner)%nat -> fine (count fuel ds l trail)) as Hc by (intros; apply IH; [done|done|lia]).
  apply fine_bind; [auto with fine|]. intros parts Hp. apply chain_from_ok in Hp. destruct parts as [|p parts].
  - apply fine_bind; [auto with fine|]. intros [dot|] _; [by apply fine_reps|]. apply fine_action. intros name l Hn Hname Hlen.
    assert (trail_ok ds (Walk [] (name :: trail))) as Ht.
    { split; [simpl; constructor; [by rewrite list_elem_of_In|done]|]. intros m [<-|Hm]; [done|by apply Hd]. }
    pose proof (trail_bound ds _ Ht) as Hb. simpl in Hb. apply IH; [apply Ht|apply Ht|]. simpl length.
    assert (length inner > 0)%nat by (destruct inner; [done|simpl; lia]).
    replace (length ds - length trail)%nat with (S (length ds - S (length trail))) in Hf by lia. simpl in Hf. lia.
  - apply fine_bind; [|intros; by apply fine_sum]. apply Hc. apply list.Forall_cons in Hp as [(pre & mid & post & Ht & Hpre & _) _].
    rewrite length_take, <- Hpre. rewrite Ht, length_app. simpl. lia.
Qed.

(** ** Properties *)

(** C40. Counting the states before a checkpoint always ends, on any text and
    any declarations, cyclic ones included. When it gives a step, the text is
    an expression of the chain syntax and denotes exactly one state more than
    the step: sequences add up, expectations add nothing, repetitions
    multiply, names stand for their declared bodies, and an action counted as
    one state hides no longer one. *)
Theorem checkpoint_step_counts_states before ds :
  checkpointStep before ds <> Err OutOfFuel /\
  forall step, checkpointStep before ds = Ok step ->
    0 <= step /\ exists tokens, tokenize before = Ok tokens /\ states ds (List.map fst tokens) (step + 1).
Proof.
  unfold checkpointStep. destruct (tokenize before) as [tokens|e]; [|done]. cbv zeta. split.
  - apply fine_bind; [|auto with fine]. apply count_total; [constructor|by intros ? []|]. unfold count_fuel. simpl. rewrite Nat.sub_0_r. lia.
  - intros step (n & Hn%count_spec & H)%ok_bind. destruct (Z.ltb_spec n 1); [done|]. injection H as <-. split; [lia|].
    exists tokens. split; [done|]. by rewrite Z.sub_add.
Qed.

(** A history with an alias, an expectation and a repetition; an alias of
    itself; and an atomic action that wraps a sequence. *)
Definition sample_actions : jsstr :=
  js "module m { var s: int  action init = all { s' = 0 }  action step = all { s' = s + 1 }"
  ++ js " action two = step.then(step)  action loop = loop.then(step)  action hidden = all { two } }".

Lemma sample_steps :
  match scanDeclarationBodies sample_actions with
  | Ok ds =>
      checkpointStep (js "(init.then(two)).expect(s == 2).then(3.reps(i => step))") ds = Ok 5 /\
      checkpointStep (js "init.then(loop)") ds = Err (Refused "cyclic action alias") /\
      checkpointStep (js "init.then(hidden)") ds = Err (Refused "nested action sequence") /\
      checkpointStep (js "0.reps(i => init)") ds = Err (Refused "history has no initial state")
  | Err _ => False
  end.
Proof. vm_compute. repeat split. Qed.
